(* ===== verification/_CoqProject ===== *)
-Q . S2P
Prelude.v
Text.v
Json.v
Messages.v
Validate.v
Core.v
Journal.v
Pointer.v
Normalize.v
Catalog.v
HubTypes.v
Principal.v
Helpers.v
TtlCache.v
HubState.v
Sessions.v
Store.v
HubJobs.v
Artifacts.v
Batches.v
Dispatch.v
Submission.v
Connection.v
System.v
Transfer.v
Bus.v
Runner.v
Worker.v
Completion.v
Octets.v
Codec.v
Frames.v
RateLimit.v
Accounts.v
Secrets.v
Web.v
OAuth.v
Auth.v
Paging.v
Members.v
BatchApi.v
Devices.v
BatchSubmit.v
Media.v
Gallery.v
JobApi.v
Rpc.v
RpcClient.v
RpcServer.v
RpcSystem.v
