(* ===== verification/Prelude.v ===== *)
(** NagisaLake: a verification development of its Rust sources.

    NagisaLake runs media workflows.  A Hub (src/apps/nagisalake-hub) takes jobs
    from clients, stores them in PostgreSQL, and hands them over a versioned
    JSON control protocol to Workers, which keep a local journal, render the
    workflow template of a job for ComfyUI and send events and artifacts back.

    ** Parts and files

    - Prelude.v: results and their bind, machine integers, ordered maps, list
      lemmas, tactics and hint databases.  Text.v: Rust strings (UTF-8 trimming,
      splitting, case).  Json.v: serde_json values and RFC 6901 pointers, with
      the class of laws its clients use.
    - Messages.v (nagisalake-protocol/src/messages.rs): every frame of the
      control protocol.  Validate.v (validate.rs): all validators with their
      errors, against a declarative well-formedness.
    - Core.v (nagisalake-core/src/lib.rs): the job state machine and the
      journal's record and commands.
    - Journal.v (nagisalake-journal/src): the in-memory journal and the SQLite
      journal, every request of both.
    - Pointer.v, Normalize.v, Catalog.v (nagisalake-workflow/src): JSON pointers,
      editor workflows, and the catalog (load, capabilities, validate, render).
    - HubTypes.v (hub/state.rs, hub-store/src/models.rs): the Hub's views, rows,
      errors and stored names.  Helpers.v (hub/api_helpers.rs): tokens, file
      names, artifact checks.
    - TtlCache.v, HubState.v (hub/state.rs): the expiring cache, the read caches
      over it, the tenant lock table, the scheduling data and its hydration.
    - Sessions.v (hub/sessions.rs): the registry of worker connections, its
      capacity reservations and commands; its two locks as a step relation.
    - Store.v (hub-store/src/jobs.rs, quota.rs, devices.rs): the tables as
      finite maps and one function per transaction: submission, device
      admission, job events, conditional updates, quota, outbox,
      reconciliation.
    - HubJobs.v (hub/worker.rs, hub/jobs.rs): the handler of a worker's job
      event with its cache merge and its reconciliation with the store.
    - Artifacts.v (hub-store/src/artifacts.rs, hub/worker.rs, hub/api.rs,
      hub/maintenance.rs): outputs, inputs, their completion, the reaper.
    - Batches.v (hub-store/src/batches.rs, hub/scheduler.rs): batch admission,
      the dispatch queue, the scheduler.
    - Principal.v (hub-auth/src/principal.rs): roles, permissions, scopes.
    - Dispatch.v (hub/dispatch.rs, hub/jobs.rs): the outbox consumer and
      cancellation.  Submission.v (hub/api.rs): both submission endpoints.
      Connection.v (hub/worker.rs): registration, rebinding after a reconnect,
      replay and every message of a worker.
    - System.v: all handlers of the Hub as one transition system, which refines
      the store's transactions.
    - Transfer.v (nagisalake-runtime/src/error.rs, artifacts.rs): a worker's
      downloads, PUTs and redacted diagnostics.  Bus.v (bus.rs): its connection,
      waiters, registry and capacity slots.  Runner.v (runner.rs): the execution
      of a job as a state machine.  Worker.v (nagisalake-worker/src/worker.rs):
      admission, commands, recovery, restarts.  Completion.v: a job's run to its
      end.
    - Octets.v: bytes and fixed-width integers on the wire.  Codec.v
      (nagisalake-transport/src/codec.rs): the newline-delimited control stream.
      Frames.v (nagisalake-rpc/src/protocol.rs, framing.rs): the frames of the
      RPC crate, their reader and their writer.
    - Rpc.v (nagisalake-rpc/src/status.rs, error.rs, context.rs, codec.rs): what
      both ends of an RPC connection share.  RpcClient.v (client.rs): callers,
      the dispatcher and its tables of calls and deadlines.  RpcServer.v
      (server.rs): supervisor, handlers and drain.  RpcSystem.v: a client and a
      server over the two streams of frames of Frames.v.
    - RateLimit.v (hub/src/ratelimit.rs): token buckets in binary64 arithmetic,
      the sharded table and its eviction, the address of a client.
    - Accounts.v (hub-store/src/accounts.rs, sessions.rs, credentials.rs,
      organizations.rs, devices.rs, audit.rs): the tables of users, identities,
      sign-in states, sessions, keys, credentials, members, invitations, grants
      and audit records, one function per transaction.  Secrets.v: what secrets
      these tables accept over any sequence of transactions.
    - Web.v (product_api/shared.rs, hub-auth/src): requests, responses, errors,
      secrets and passwords, and the monad the handlers run in, with its
      weakest preconditions.  OAuth.v (hub/src/oauth): providers, PKCE, the
      authorization URL, the exchange of a code for an identity.  Auth.v
      (product_api/authentication.rs): who a request is, and the endpoints of
      registration, sign-in, refresh, sign-out, deletion and federated sign-in.
    - Paging.v (product_api/shared.rs, the page queries of hub-store): cursors
      and pages.  Members.v (product_api/organizations.rs): the endpoints of
      organizations, members, invitations, keys, quotas, audit records and
      worker credentials.  BatchApi.v (product_api/batches.rs): the views of
      batches.  BatchSubmit.v: their submission and cancellation.  Devices.v
      (product_api/devices_workflows.rs): the lists and the sharing of devices.
    - Media.v (product_api/media.rs): ranges and the headers content is served
      with.  Gallery.v (product_api/gallery.rs, hub-store/src/gallery.rs): the
      public gallery.  JobApi.v (product_api/jobs_artifacts.rs): uploads,
      downloads, jobs and the stream of a job's events.

    HubJobs.v, Artifacts.v, Batches.v, Dispatch.v, Submission.v and Connection.v
    run on the state of the three below them: the registry of Sessions.v, the
    data and caches of HubState.v and the database of Store.v, as the Hub's
    tasks share them.  Auth.v, Members.v, BatchApi.v, BatchSubmit.v, Devices.v,
    Gallery.v and JobApi.v run on the same three and on the tables of Accounts.v and the limiter of RateLimit.v, the [Site] of
    Web.v; what they use of SHA-256, Argon2, base64, header parsing and random
    numbers is the class [Libraries], its laws [LibraryLaws].  The files of the worker run on the journal of Journal.v,
    the catalog of Catalog.v and the frames of Messages.v; they and the Hub meet
    in the protocol only.

    ** How the code is modelled

    A fallible function returns [Res]; one that also changes state returns the
    new state, or, where the code has changed state before it fails, the answer
    and the state.  A Rust integer is a [Z] with the width's saturation or cast
    written out; a float is a [spec_float]; a string is a byte string.  Clocks
    are arguments.  A HashMap is a finite map, and where the code iterates one
    the order is an argument with the hypothesis that it is a permutation of the
    map's entries; so is the order in which a statement without a total ORDER BY
    visits its rows.  A transaction is one function of the database, since
    PostgreSQL serializes writers of a row; a handler that awaits between
    transactions is split where the development claims something under
    interference ([merge_event], the registry's step relation), and otherwise
    runs alone.  Serde, the S3 client and PostgreSQL's jsonb are arguments, with
    their documented laws as classes and an instance in the witnesses.  Logging
    and metric counters are left out.

    An asynchronous function of the worker is the state machine of its waits: a
    task is its local variables and the point it waits at, and a step runs it to
    its next wait on what it waited for.  So are the tasks of an RPC connection,
    which change one state in steps of their own, in any order.

    No definition of the code needs fuel except the scheduler pass, whose 32
    iterations are the code's, the splitting of a text into words, whose fuel is
    the text's length, and the loops over a read buffer or over bytes to write,
    whose fuel is the number of bytes, each turn taking at least one.  Caches reach their bounds for fewer than 2^64
    insertions, the width of their sequence numbers.

    ** What is proved

    - Job events: an acknowledged event is durable; events move a job forward
      only, for its owner only; the handler keeps the quota counters.
    - Store: the active-job counters equal the unfinished jobs over any sequence
      of transactions, batches included; admission respects the quota; retries
      are idempotent; an event and its job change together; leases of the outbox
      and of the queue are exclusive.
    - Batches: admission is all or nothing; the queue holds exactly the queued
      jobs; the scheduler binds a job to the device its batch names; a submission
      over HTTP adds exactly the jobs it describes, for a device the caller may
      use, and once per idempotency key.
    - Artifacts: the storage counter equals the bytes of the rows; acknowledged
      outputs are verified and durable; retries get the same artifact.
    - Journal: SQLite refines the in-memory journal; pending events are not
      lost; histories follow the state machine.
    - Sessions: capacity is never oversubscribed, a dispatch is charged until it
      is resolved, stale connections are inert, revoked credentials are not
      connected while the registry remembers them.
    - Submission and dispatch: a submission takes effect whole or not at all; an
      outbox row is delivered or retried, and carries the stored job; only
      authorized cancellations have an effect; a reconnect resumes the worker's
      jobs.
    - The Hub as a whole refines the store's transactions; over any sequence of
      its handlers the quota is exact and finished jobs stay finished.
    - Worker: the reported counters are exact; admission respects the capacity;
      an acknowledged dispatch survives restarts; events are delivered at least
      once and are valid frames; a job with answering services runs to its end;
      diagnostics leak no URL or credential; inputs are verified.
    - Workflows: rendering writes exactly the bound places, loading accepts
      exactly the allowed dispatches, normalization keeps links.
    - Protocol: validation accepts exactly the well-formed frames; both framings
      deliver what was sent, in order, over partial writes and reads cut
      anywhere, and their incremental readers implement the framing of the
      whole byte stream, errors included, in bounded memory.
    - Accounts: an organization keeps an owner; revoked secrets are never
      accepted again; tokens, sign-in states and invitation codes work once.
      The limiter refines a bounded least-recently-used table of buckets.
    - Sign-in: a request is authenticated exactly for a live session or key of a
      present member; a sign-in that succeeds had the password, or a sign-in
      state of that provider and a verified address; an account is guessed at
      most ten times in fifteen minutes; the authorization URL reads back as its
      parameters, and a verified address was vouched for by the provider.
    - Devices: shared by whoever may share them with whoever accepts; a share
      begins and ends at once, whatever is cached; the list is complete.
    - Organizations: only owners make and unmake owners, and no request panics;
      a key does what its creator's role and its scopes allow; deletion is all or
      nothing; pages visit every row once and end; the status of a batch is what
      its jobs are.
    - Gallery, jobs, artifacts: only the user whose completed job made an output
      publishes it and only they take it back, and of its parameters plain named
      values are shown; a request on jobs or artifacts touches one organization's
      rows, by a caller with its permission; the stream of a job gives each of
      its events once, in order, and ends.
    - RPC: an answered call has what the service answered to that very request,
      which is handled once; every call ends by its deadline or with the
      connection; the tables stay within their limits and agree, and frames are
      valid, unless the service's error is too long; a connection that ends waits
      for its handlers, and no longer than the grace period.
    - Where the code departs from what it says, the departure is a theorem:
      [rejected_completion_released_twice],
      [waiting_batch_failed_by_reconciliation], [shared_device_replay_rejected],
      [reap_revoked_forgets_all], [bare_tilde_render_panics],
      [bound_job_not_cancellable], [resent_submission_charged_twice],
      [shared_replay_stays_pending], [finished_job_silent],
      [upload_cancel_unreported], [regrant_keeps_stale_owner],
      [redirect_path_keeps_tab], [batch_jobs_cursor_ignored],
      [batch_cancelled_in_part], [bound_input_unavailable], [far_deadline_stops_everyone],
      [long_status_ends_connection], [cancelled_handlers_uncounted],
      [reused_id_untracked].

    ** Not modelled

    HTTP routing and the decoding of requests; the list of workflows, the
    endpoints of agents and the export; Argon2, SHA-256 and the providers' servers, the S3 client, WebSocket
    and multiplexing, the ComfyUI and agent clients (I/O around libraries); lists
    no handler above shows; the table of advertised workflows and the credential
    look-up in a worker's registration; the accept loop of the RPC server, its
    layers and its builders (the codec of a connection is an argument, with its
    round trip as hypothesis); the configuration of Hub and worker. *)

From stdpp Require Export prelude gmap strings sorting.
From stdpp Require Import pretty.
From Stdlib Require Import ZArith Lia Ascii.

(** ** Results

    Rust's [Result<A, E>] with [?] as monadic bind.  The error type comes
    first so that [Res E] is a monad for stdpp's do-notation. *)
Inductive Res (E A : Type) : Type :=
| Ok (a : A)
| Err (e : E).
Arguments Ok {E A} a.
Arguments Err {E A} e.

#[export] Instance res_ret E : MRet (Res E) := λ _ a, Ok a.
#[export] Instance res_bind E : MBind (Res E) :=
  λ _ _ f m, match m with Ok a => f a | Err e => Err e end.

Definition is_ok {E A} (r : Res E A) : bool :=
  match r with Ok _ => true | Err _ => false end.

(** [Option::ok_or_else]. *)
Definition ok_or {E A} (e : E) (o : option A) : Res E A :=
  match o with Some a => Ok a | None => Err e end.

(** [if c { return Err(e); }]. *)
Definition reject_if {E} (c : bool) (e : E) : Res E unit :=
  if c then Err e else Ok tt.

(** [for x in l { f(x)?; }]. *)
Fixpoint try_each {E A} (f : A → Res E unit) (l : list A) : Res E unit :=
  match l with
  | [] => Ok tt
  | x :: l' => f x ;; try_each f l'
  end.

(** [for x in l { s = f(s, x)?; }]. *)
Fixpoint try_fold {E S A} (f : S → A → Res E S) (s : S) (l : list A) : Res E S :=
  match l with
  | [] => Ok s
  | x :: l' => s' ← f s x; try_fold f s' l'
  end.

(** [l.iter().map(f).collect::<Result<Vec<_>, _>>()]. *)
Fixpoint try_map {E A B} (f : A → Res E B) (l : list A) : Res E (list B) :=
  match l with
  | [] => Ok []
  | x :: l' => y ← f x; ys ← try_map f l'; Ok (y :: ys)
  end.

Section results.
Context {E : Type}.

Lemma bind_Ok {A B} (m : Res E A) (f : A → Res E B) b :
  (m ≫= f) = Ok b ↔ ∃ a, m = Ok a ∧ f a = Ok b.
Proof. destruct m; simpl; naive_solver. Qed.

Lemma bind_Ok_tt (m : Res E unit) {B} (k : Res E B) b :
  (m ;; k) = Ok b ↔ m = Ok tt ∧ k = Ok b.
Proof. destruct m as [[]|]; simpl; naive_solver. Qed.

Lemma bind_Err {A B} (m : Res E A) (f : A → Res E B) e :
  (m ≫= f) = Err e ↔ m = Err e ∨ ∃ a, m = Ok a ∧ f a = Err e.
Proof. destruct m; simpl; naive_solver. Qed.

Lemma ok_or_Ok {A} (e : E) (o : option A) a : ok_or e o = Ok a ↔ o = Some a.
Proof. destruct o; split; naive_solver. Qed.

Lemma reject_if_Ok c (e : E) : reject_if c e = Ok tt ↔ c = false.
Proof. destruct c; split; naive_solver. Qed.

Lemma try_each_Ok {A} (f : A → Res E unit) l :
  try_each f l = Ok tt ↔ Forall (λ x, f x = Ok tt) l.
Proof.
  induction l as [|x l IH]; simpl; [split; auto|].
  by rewrite bind_Ok_tt, Forall_cons, IH.
Qed.

Lemma try_map_Ok {A B} (f : A → Res E B) l k :
  try_map f l = Ok k ↔ Forall2 (λ x y, f x = Ok y) l k.
Proof.
  revert k; induction l as [|x l IH]; intros k; simpl.
  - split; [intros [= <-]; constructor | by inversion 1].
  - rewrite bind_Ok. setoid_rewrite bind_Ok. split.
    + intros (y & Hy & ys & Hys & [= <-]). constructor; [done|by apply IH].
    + inversion 1; subst. do 2 (eexists; split; [eauto|]); [by apply IH|done].
Qed.

Lemma try_fold_app {S A} (f : S → A → Res E S) s l1 l2 :
  try_fold f s (l1 ++ l2) = (s' ← try_fold f s l1; try_fold f s' l2).
Proof.
  revert s; induction l1 as [|x l1 IH]; intros s; simpl; [done|].
  destruct (f s x); simpl; auto.
Qed.

Lemma try_fold_ind {S A} (P : S → Prop) (f : S → A → Res E S) s l s' :
  P s → (∀ t x t', x ∈ l → P t → f t x = Ok t' → P t') →
  try_fold f s l = Ok s' → P s'.
Proof.
  revert s; induction l as [|x l IH]; intros s Hs Hf; simpl.
  - intros [= <-]; done.
  - rewrite bind_Ok. intros (t & Ht & Hrest).
    refine (IH t _ _ Hrest).
    + eapply Hf; [by apply elem_of_cons; left|exact Hs|exact Ht].
    + intros u y u' Hy. apply Hf. apply elem_of_cons; by right.
Qed.

(** Induction over the elements already visited. *)
Lemma try_fold_prefix_ind {S A} (P : list A → S → Prop) (f : S → A → Res E S) s l s' :
  P [] s → (∀ seen x t t', P seen t → f t x = Ok t' → P (seen ++ [x]) t') →
  try_fold f s l = Ok s' → P l s'.
Proof.
  intros Hs Hf. cut (∀ seen t, P seen t → try_fold f t l = Ok s' → P (seen ++ l) s').
  { intros Hcut. by apply (Hcut []). }
  induction l as [|x l IH]; intros seen t Ht; simpl; [intros [= <-]; by rewrite app_nil_r|].
  rewrite bind_Ok. intros (t' & Ht' & Hrest).
  rewrite (cons_middle x seen l), app_assoc. eapply IH; [|exact Hrest]. by eapply Hf.
Qed.
End results.

(** Loop that rejects a duplicate key with [BTreeSet::insert]. *)
Definition insert_unique {E A} `{Countable A} (e : E) (seen : gset A) (x : A) : Res E (gset A) :=
  if decide (x ∈ seen) then Err e else Ok ({[ x ]} ∪ seen).

Lemma insert_unique_Ok {E A} `{Countable A} (e : E) (seen : gset A) x seen' :
  insert_unique e seen x = Ok seen' ↔ x ∉ seen ∧ seen' = {[ x ]} ∪ seen.
Proof. unfold insert_unique. case_decide; naive_solver. Qed.

(** ** Machine integers

    A Rust integer is a [Z] in its type's range; the wrap-around, saturating
    and checked conversions the sources use are written out. *)
Definition u16_max : Z := 2 ^ 16 - 1.
Definition u32_max : Z := 2 ^ 32 - 1.
Definition u64_max : Z := 2 ^ 64 - 1.
Definition i64_max : Z := 2 ^ 63 - 1.
Definition i64_min : Z := - 2 ^ 63.

Definition in_u16 (n : Z) : Prop := (0 ≤ n ≤ u16_max)%Z.
Definition in_u32 (n : Z) : Prop := (0 ≤ n ≤ u32_max)%Z.
Definition in_u64 (n : Z) : Prop := (0 ≤ n ≤ u64_max)%Z.
Definition in_i64 (n : Z) : Prop := (i64_min ≤ n ≤ i64_max)%Z.

(** [u32::saturating_add]. *)
Definition u32_saturating_add (a b : Z) : Z := Z.min u32_max (a + b).
(** [u64::wrapping_add]. *)
Definition u64_wrapping_add (a b : Z) : Z := (a + b) `mod` 2 ^ 64.
(** [i64::saturating_add]. *)
Definition i64_saturating_add (a b : Z) : Z := Z.max i64_min (Z.min i64_max (a + b)).
(** [i64::saturating_sub]. *)
Definition i64_saturating_sub (a b : Z) : Z := Z.max i64_min (Z.min i64_max (a - b)).
(** [u64::try_from] on an [i64]. *)
Definition u64_try_from (n : Z) : option Z := if (n <? 0)%Z then None else Some n.
(** [u32::try_from] on an [i64]. *)
Definition u32_try_from (n : Z) : option Z :=
  if ((n <? 0) || (u32_max <? n))%Z then None else Some n.
(** [n.min(i64::MAX as u64) as i64] and [i64::try_from(n).unwrap_or(i64::MAX)]
    on a [u64]. *)
Definition u64_to_i64_saturating (n : Z) : Z := Z.min n i64_max.

Lemma u64_to_i64_saturating_small n :
  (n ≤ i64_max)%Z → u64_to_i64_saturating n = n.
Proof. unfold u64_to_i64_saturating. lia. Qed.

Lemma u64_wrapping_add_small a b :
  (0 ≤ a + b < 2 ^ 64)%Z → u64_wrapping_add a b = (a + b)%Z.
Proof. intros H. unfold u64_wrapping_add. by apply Z.mod_small. Qed.

(** ** Options *)

(** [Option::or]. *)
Definition option_or {A} (a b : option A) : option A :=
  match a with Some _ => a | None => b end.

(** [Option::is_some_and]. *)
Definition is_some_and {A} (f : A → bool) (o : option A) : bool :=
  match o with Some a => f a | None => false end.

Lemma is_some_and_true {A} (f : A → bool) o :
  is_some_and f o = true ↔ ∃ a, o = Some a ∧ f a = true.
Proof. destruct o; simpl; naive_solver. Qed.

(** ** Ordered maps

    A [BTreeMap<String, V>] is a [gmap]; iteration visits it in key order. *)
Definition key_le {V} (p q : string * V) : Prop := String.le p.1 q.1.

#[export] Instance key_le_dec {V} (p q : string * V) : Decision (key_le p q).
Proof. unfold key_le. apply _. Defined.

Definition btree_iter {V} (m : gmap string V) : list (string * V) :=
  merge_sort key_le (map_to_list m).

Lemma btree_iter_perm {V} (m : gmap string V) : btree_iter m ≡ₚ map_to_list m.
Proof. apply merge_sort_Permutation. Qed.

Lemma elem_of_btree_iter {V} (m : gmap string V) k v :
  (k, v) ∈ btree_iter m ↔ m !! k = Some v.
Proof. by rewrite btree_iter_perm, elem_of_map_to_list. Qed.

Lemma NoDup_btree_iter_keys {V} (m : gmap string V) : NoDup (btree_iter m).*1.
Proof. rewrite btree_iter_perm. apply NoDup_fst_map_to_list. Qed.

(** ** Lists *)

(** [Iterator::position]. *)
Fixpoint position {A} (f : A → bool) (l : list A) : option nat :=
  match l with
  | [] => None
  | x :: l' => if f x then Some 0 else S <$> position f l'
  end.

Lemma position_Some {A} (f : A → bool) l i :
  position f l = Some i →
  (∃ x, l !! i = Some x ∧ f x = true) ∧
  ∀ j x, j < i → l !! j = Some x → f x = false.
Proof.
  revert i; induction l as [|y l IH]; intros i; simpl; [done|].
  destruct (f y) eqn:Hy.
  - intros [= <-]. split; [eauto|lia].
  - destruct (position f l) as [k|]; simpl; [|done]. intros [= <-].
    destruct (IH k eq_refl) as [(x & Hx & Hfx) Hlt]. split; [eauto|].
    intros [|j] z Hj; simpl; [naive_solver|apply Hlt; lia].
Qed.

(** The last [n] elements: what [drain(..len - n)] keeps. *)
Definition keep_last {A} (n : nat) (l : list A) : list A := drop (length l - n) l.

Lemma length_keep_last {A} n (l : list A) : length (keep_last n l) = min n (length l).
Proof. unfold keep_last. rewrite length_drop. lia. Qed.

Lemma sublist_list_filter {A} (f : A → bool) (l : list A) : List.filter f l `sublist_of` l.
Proof. induction l as [|x l IH]; simpl; [done|]. destruct (f x); by constructor. Qed.

Lemma keep_last_all {A} n (l : list A) : length l ≤ n → keep_last n l = l.
Proof. intros H. unfold keep_last. by replace (length l - n) with 0 by lia. Qed.

Lemma keep_last_suffix {A} n (l : list A) : ∃ p, l = p ++ keep_last n l.
Proof. exists (take (length l - n) l). unfold keep_last. by rewrite take_drop. Qed.

Lemma filter_bool_perm {A} (f : A → bool) (l k : list A) :
  l ≡ₚ k → List.filter f l ≡ₚ List.filter f k.
Proof.
  induction 1 as [|x l k _ IH|x y l|l k n _ IH1 _ IH2]; simpl; [done| | |by rewrite IH1].
  - destruct (f x); by rewrite IH.
  - destruct (f x), (f y); try done. by apply perm_swap.
Qed.

(** Every earlier element is related to every later one. *)
Fixpoint pairwise {A} (R : A → A → Prop) (l : list A) : Prop :=
  match l with
  | [] => True
  | x :: l' => Forall (R x) l' ∧ pairwise R l'
  end.

Section pairwise.
Context {A : Type} (R : A → A → Prop).

Lemma pairwise_app l1 l2 :
  pairwise R (l1 ++ l2) ↔
  pairwise R l1 ∧ pairwise R l2 ∧ ∀ x y, x ∈ l1 → y ∈ l2 → R x y.
Proof.
  induction l1 as [|z l1 IH]; simpl.
  - split; [|tauto]. intros Hl. split_and!; [done..|]. intros x y Hx. by apply not_elem_of_nil in Hx.
  - rewrite IH, Forall_app, !Forall_forall. setoid_rewrite elem_of_cons. naive_solver.
Qed.

Lemma pairwise_elem l x y :
  (∀ u v, R u v → R v u) → pairwise R l → x ∈ l → y ∈ l → x ≠ y → R x y.
Proof.
  intros Hsym. induction l as [|z l IH]; simpl; [intros _ Hx; by apply not_elem_of_nil in Hx|].
  rewrite Forall_forall, !elem_of_cons. naive_solver.
Qed.

Lemma pairwise_NoDup {K} (f : A → K) l :
  NoDup (f <$> l) → (∀ x y, x ∈ l → y ∈ l → f x ≠ f y → R x y) → pairwise R l.
Proof.
  induction l as [|z l IH]; simpl; [done|]. rewrite NoDup_cons, Forall_forall.
  intros [Hz Hnd] HR. split.
  - intros y Hy. apply HR; [apply elem_of_cons; auto..|].
    intros Heq. apply Hz. rewrite Heq. by apply list_elem_of_fmap_2.
  - apply IH; [done|]. intros x y Hx Hy. apply HR; by apply elem_of_cons; right.
Qed.

Lemma pairwise_fmap {B} (f : B → A) l :
  pairwise R (f <$> l) ↔ pairwise (λ x y, R (f x) (f y)) l.
Proof. induction l as [|z l IH]; simpl; [done|]. by rewrite IH, Forall_fmap. Qed.
End pairwise.

(** ** Automation *)

(** Splits every monadic [Ok] hypothesis and closes the goals that become
    contradictory. *)
Ltac inv_ok :=
  repeat match goal with
  | H : mbind (λ _ : unit, _) _ = Ok _ |- _ =>
      apply bind_Ok_tt in H; destruct H
  | H : mbind _ _ = Ok _ |- _ => apply bind_Ok in H; destruct H as (? & ? & ?)
  | H : reject_if _ _ = Ok _ |- _ => apply reject_if_Ok in H
  | H : ok_or _ _ = Ok _ |- _ => apply ok_or_Ok in H
  | H : Ok _ = Ok _ |- _ => injection H as H
  | H : Err _ = Ok _ |- _ => discriminate H
  | H : Ok _ = Err _ |- _ => discriminate H
  | x : unit |- _ => destruct x
  end; subst.

(** Case analysis on the boolean tests the sources make. *)
Ltac bool_cases :=
  repeat match goal with
  | H : andb _ _ = true |- _ => apply andb_true_iff in H; destruct H
  | H : orb _ _ = false |- _ => apply orb_false_iff in H; destruct H
  | H : negb _ = true |- _ => apply negb_true_iff in H
  | H : negb _ = false |- _ => apply negb_false_iff in H
  | H : bool_decide _ = true |- _ => apply bool_decide_eq_true in H
  | H : bool_decide _ = false |- _ => apply bool_decide_eq_false in H
  end.

Create HintDb hub discriminated.
#[export] Hint Resolve bool_decide_eq_true_2 bool_decide_eq_false_2 : hub.
Create Rewrite HintDb hub_rw.
#[export] Hint Rewrite @length_keep_last : hub_rw.
