(* ===== verification/Text.v ===== *)
(** Rust string slices.

    A [str] is its UTF-8 byte sequence, a [string] of [ascii] bytes.  The
    standard-library operations the sources call are written on those bytes:
    [trim] (Unicode White_Space, by its UTF-8 encodings), [chars().count()],
    [chars().take(n)], ASCII classification and case folding, [split],
    [replace], [split_once] and decimal formatting.  The lemmas are the ones
    the identity, key and JSON-pointer arguments use. *)

From S2P Require Import Prelude.
From stdpp Require Export pretty.
From Stdlib Require Import ZArith Lia Ascii.

Definition byte_of (a : ascii) : N := N_of_ascii a.

(** ** Classification of bytes *)

Definition in_range (lo hi n : N) : bool := ((lo <=? n) && (n <=? hi))%N.

Definition is_ascii_digit (a : ascii) : bool := in_range 48 57 (byte_of a).
Definition is_ascii_upper (a : ascii) : bool := in_range 65 90 (byte_of a).
Definition is_ascii_lower (a : ascii) : bool := in_range 97 122 (byte_of a).
Definition is_ascii_alphanumeric (a : ascii) : bool :=
  is_ascii_digit a || is_ascii_upper a || is_ascii_lower a.
Definition is_ascii_hexdigit (a : ascii) : bool :=
  is_ascii_digit a || in_range 65 70 (byte_of a) || in_range 97 102 (byte_of a).

(** A UTF-8 continuation byte: [0b10xxxxxx]. *)
Definition is_continuation (a : ascii) : bool := in_range 128 191 (byte_of a).

(** ** Folds over the bytes of a string *)

Fixpoint str_all (f : ascii → bool) (s : string) : bool :=
  match s with
  | EmptyString => true
  | String a s' => f a && str_all f s'
  end.

Fixpoint str_map (f : ascii → ascii) (s : string) : string :=
  match s with
  | EmptyString => EmptyString
  | String a s' => String (f a) (str_map f s')
  end.

Fixpoint str_rev_app (s acc : string) : string :=
  match s with
  | EmptyString => acc
  | String a s' => str_rev_app s' (String a acc)
  end.
Definition str_rev (s : string) : string := str_rev_app s EmptyString.

(** [str::len]: bytes. *)
Definition str_len (s : string) : nat := String.length s.

(** [str.chars().count()]: bytes that start a character. *)
Fixpoint chars_count (s : string) : nat :=
  match s with
  | EmptyString => 0
  | String a s' => (if is_continuation a then 0 else 1) + chars_count s'
  end.

(** [str.chars().take(n).collect()]. *)
Fixpoint chars_take (n : nat) (s : string) : string :=
  match s with
  | EmptyString => EmptyString
  | String a s' =>
      if is_continuation a then String a (chars_take n s')
      else match n with
           | 0 => EmptyString
           | S n' => String a (chars_take n' s')
           end
  end.

(** [chars().map(f)] for a map that keeps the ASCII characters [keep] accepts
    and sends every other character to one underscore: a multi-byte character
    gives one underscore, for its first byte. *)
Fixpoint chars_sanitize (keep : ascii → bool) (s : string) : string :=
  match s with
  | EmptyString => EmptyString
  | String a s' =>
      if is_continuation a then chars_sanitize keep s'
      else String (if keep a then a else "_"%char) (chars_sanitize keep s')
  end.

(** ** Case *)

Definition ascii_to_lower (a : ascii) : ascii :=
  if is_ascii_upper a then ascii_of_N (byte_of a + 32) else a.
Definition ascii_to_upper (a : ascii) : ascii :=
  if is_ascii_lower a then ascii_of_N (byte_of a - 32) else a.
Definition to_ascii_lowercase : string → string := str_map ascii_to_lower.
Definition to_ascii_uppercase : string → string := str_map ascii_to_upper.
Definition eq_ignore_ascii_case (s t : string) : bool :=
  String.eqb (to_ascii_lowercase s) (to_ascii_lowercase t).

Lemma to_ascii_lowercase_idemp s : to_ascii_lowercase (to_ascii_lowercase s) = to_ascii_lowercase s.
Proof.
  unfold to_ascii_lowercase. induction s as [|a s IH]; simpl; [done|]. rewrite IH. f_equal.
  by destruct a as [[] [] [] [] [] [] [] []].
Qed.

(** ** Trimming

    [White_Space] by UTF-8 encoding: U+0009..U+000D, U+0020, U+0085, U+00A0,
    U+1680, U+2000..U+200A, U+2028, U+2029, U+202F, U+205F, U+3000. *)
Definition ws1 (a : N) : bool := in_range 9 13 a || (a =? 32)%N.
Definition ws2 (a b : N) : bool := ((a =? 194) && ((b =? 133) || (b =? 160)))%N.
Definition ws3 (a b c : N) : bool :=
  (((a =? 225) && (b =? 154) && (c =? 128))
   || ((a =? 226) && (b =? 128)
       && (in_range 128 138 c || (c =? 168) || (c =? 169) || (c =? 175)))
   || ((a =? 226) && (b =? 129) && (c =? 159))
   || ((a =? 227) && (b =? 128) && (c =? 128)))%N.

(** Removes one white-space character at the front; [fwd] tells whether the
    bytes are in reading order or reversed. *)
Definition strip_ws (fwd : bool) (s : string) : option string :=
  match s with
  | EmptyString => None
  | String a s1 =>
      if ws1 (byte_of a) then Some s1 else
      match s1 with
      | EmptyString => None
      | String b s2 =>
          if (if fwd then ws2 (byte_of a) (byte_of b) else ws2 (byte_of b) (byte_of a))
          then Some s2 else
          match s2 with
          | EmptyString => None
          | String c s3 =>
              if (if fwd then ws3 (byte_of a) (byte_of b) (byte_of c)
                  else ws3 (byte_of c) (byte_of b) (byte_of a))
              then Some s3 else None
          end
      end
  end.

Fixpoint strip_ws_all (fuel : nat) (fwd : bool) (s : string) : string :=
  match fuel with
  | 0 => s
  | S fuel' =>
      match strip_ws fwd s with
      | Some s' => strip_ws_all fuel' fwd s'
      | None => s
      end
  end.

Definition trim_start (s : string) : string := strip_ws_all (str_len s) true s.
Definition trim_end (s : string) : string :=
  str_rev (strip_ws_all (str_len s) false (str_rev s)).
Definition trim (s : string) : string := trim_end (trim_start s).

(** [s.trim().is_empty()]. *)
Definition is_blank (s : string) : bool := String.eqb (trim s) "".

(** ** Searching, splitting, replacing *)

Definition starts_with (p s : string) : bool := String.prefix p s.

(** [str::strip_prefix]. *)
Fixpoint strip_prefix (p s : string) : option string :=
  match p, s with
  | EmptyString, _ => Some s
  | String a p', String b s' => if Ascii.eqb a b then strip_prefix p' s' else None
  | String _ _, EmptyString => None
  end.

(** [s.split(c)]: one piece more than there are separators. *)
Fixpoint split_char (c : ascii) (s : string) : list string :=
  match s with
  | EmptyString => [""]
  | String a s' =>
      if Ascii.eqb a c then "" :: split_char c s'
      else match split_char c s' with
           | [] => [String a ""]
           | p :: ps => String a p :: ps
           end
  end.

(** [s.split_once(c)]. *)
Fixpoint split_once (c : ascii) (s : string) : option (string * string) :=
  match s with
  | EmptyString => None
  | String a s' =>
      if Ascii.eqb a c then Some ("", s')
      else '(p, q) ← split_once c s'; Some (String a p, q)
  end.

(** [str::contains]. *)
Fixpoint contains (p s : string) : bool :=
  String.prefix p s || match s with EmptyString => false | String _ s' => contains p s' end.

(** [s.rsplit_once(c)]. *)
Definition rsplit_once (c : ascii) (s : string) : option (string * string) :=
  '(q, p) ← split_once c (str_rev s); Some (str_rev p, str_rev q).

(** [s.trim_end_matches(c)]. *)
Fixpoint skip_char (c : ascii) (s : string) : string :=
  match s with String a s' => if Ascii.eqb a c then skip_char c s' else s | EmptyString => s end.
Definition trim_end_matches (c : ascii) (s : string) : string := str_rev (skip_char c (str_rev s)).

(** [s.replace(pat, rep)]: leftmost, non-overlapping; [skip] counts the bytes
    of a match still to be dropped. *)
Fixpoint replace_from (skip : nat) (pat rep s : string) : string :=
  match s with
  | EmptyString => EmptyString
  | String a s' =>
      match skip with
      | S k => replace_from k pat rep s'
      | 0 =>
          if String.prefix pat s then rep +:+ replace_from (str_len pat - 1) pat rep s'
          else String a (replace_from 0 pat rep s')
      end
  end.
Definition str_replace (pat rep s : string) : string := replace_from 0 pat rep s.

(** The byte at index [i], if any: [s.as_bytes().get(i)]. *)
Definition byte_at (i : nat) (s : string) : option ascii := String.get i s.

(** The separator of composite keys, [\0]. *)
Definition nul : ascii := Ascii.zero.
Definition nul_free (s : string) : bool := str_all (λ a, negb (Ascii.eqb a nul)) s.

(** [format!("{a}\0{b}")]. *)
Definition nul_join (a b : string) : string := a +:+ String nul b.

(** ** Lemmas *)

Lemma app_String a s t : String a s +:+ t = String a (s +:+ t).
Proof. done. Qed.

Lemma app_empty_l (t : string) : "" +:+ t = t.
Proof. done. Qed.

Lemma app_assoc_str (s t u : string) : (s +:+ t) +:+ u = s +:+ t +:+ u.
Proof. induction s as [|a s IH]; [done|]. by rewrite !app_String, IH. Qed.

Lemma app_empty_r (s : string) : s +:+ "" = s.
Proof. induction s as [|a s IH]; [done|]. by rewrite app_String, IH. Qed.

Lemma str_len_app s t : str_len (s +:+ t) = str_len s + str_len t.
Proof. induction s as [|a s IH]; [done|]. unfold str_len in *. rewrite app_String. simpl. lia. Qed.

Lemma str_all_app f s t : str_all f (s +:+ t) = str_all f s && str_all f t.
Proof.
  induction s as [|a s IH]; [done|]. rewrite app_String. simpl.
  by rewrite IH, andb_assoc.
Qed.

Lemma str_all_impl (f g : ascii → bool) s :
  (∀ a, f a = true → g a = true) → str_all f s = true → str_all g s = true.
Proof.
  intros Hfg. induction s as [|a s IH]; simpl; [done|].
  rewrite !andb_true_iff. naive_solver.
Qed.

(** Joining with a separator the left part does not contain is injective. *)
Lemma join_inj (c : ascii) a1 b1 a2 b2 :
  str_all (λ x, negb (Ascii.eqb x c)) a1 = true →
  str_all (λ x, negb (Ascii.eqb x c)) a2 = true →
  a1 +:+ String c b1 = a2 +:+ String c b2 → a1 = a2 ∧ b1 = b2.
Proof.
  revert a2; induction a1 as [|x a1 IH]; intros [|y a2]; simpl;
    rewrite ?andb_true_iff; intros H1 H2 Heq.
  - by injection Heq.
  - destruct H2 as [H2 _]. rewrite app_empty_l, app_String in Heq.
    injection Heq as <- _. by rewrite Ascii.eqb_refl in H2.
  - destruct H1 as [H1 _]. rewrite app_empty_l, app_String in Heq.
    injection Heq as -> _. by rewrite Ascii.eqb_refl in H1.
  - rewrite !app_String in Heq. injection Heq as <- Heq.
    destruct (IH a2) as [<- <-]; naive_solver.
Qed.

Lemma nul_join_inj a1 b1 a2 b2 :
  nul_free a1 = true → nul_free a2 = true →
  nul_join a1 b1 = nul_join a2 b2 → a1 = a2 ∧ b1 = b2.
Proof. apply join_inj. Qed.

Lemma str_len_0 s : str_len s = 0 ↔ s = "".
Proof. destruct s; simpl; naive_solver. Qed.

Lemma prefix_app p s : String.prefix p s = true ↔ ∃ t, s = p +:+ t.
Proof.
  revert s; induction p as [|a p IH]; intros [|b s]; simpl.
  - split; [intros _; by exists ""|done].
  - split; [intros _; by exists (String b s)|done].
  - split; [done|by intros [t Ht]].
  - destruct (ascii_dec a b) as [->|Hne].
    + rewrite IH. split; intros [t Ht]; exists t; rewrite app_String in *; congruence.
    + split; [done|]. intros [t Ht]. rewrite app_String in Ht. congruence.
Qed.

Lemma byte_at_app s t : byte_at (str_len s) (s +:+ t) = byte_at 0 t.
Proof. induction s as [|a s IH]; [done|]. rewrite app_String. simpl. apply IH. Qed.

Lemma nul_join_prefix_iff org rest org' :
  nul_free org = true → nul_free org' = true →
  starts_with (org +:+ String nul "") (nul_join org' rest) = true ↔ org = org'.
Proof.
  intros H1 H2. unfold starts_with. rewrite prefix_app. split.
  - intros [t Ht]. unfold nul_join in Ht. rewrite app_assoc_str in Ht.
    rewrite app_String, app_empty_l in Ht.
    symmetry in Ht. by apply nul_join_inj in Ht as [-> _].
  - intros ->. exists rest. unfold nul_join. by rewrite app_assoc_str.
Qed.

#[export] Hint Rewrite app_String app_empty_l app_empty_r : hub_rw.

(** ** Strings with a visible ASCII character are not blank *)

Definition not_graphic (a : ascii) : bool := negb (in_range 33 126 (byte_of a)).

Lemma not_graphic_N a : not_graphic a = true ↔ (byte_of a < 33 ∨ 126 < byte_of a)%N.
Proof. unfold not_graphic, in_range. rewrite negb_true_iff, andb_false_iff, !N.leb_gt. done. Qed.

Ltac solve_ws :=
  unfold ws1, ws2, ws3, in_range;
  repeat first [rewrite orb_true_iff | rewrite andb_true_iff | rewrite N.leb_le | rewrite N.eqb_eq];
  lia.

Lemma strip_ws_not_graphic fwd s s' :
  strip_ws fwd s = Some s' → str_all not_graphic s' = true → str_all not_graphic s = true.
Proof.
  destruct s as [|a s1]; [done|]. simpl.
  destruct (ws1 (byte_of a)) eqn:H1.
  { intros [= ->] ->. rewrite andb_true_r. apply not_graphic_N. revert H1. solve_ws. }
  destruct s1 as [|b s2]; [done|].
  destruct (if fwd then _ else _) eqn:H2.
  { intros [= ->] Hs. simpl. rewrite Hs, andb_true_r, andb_true_iff, !not_graphic_N.
    revert H2. destruct fwd; solve_ws. }
  destruct s2 as [|c s3]; [done|].
  destruct (if fwd then ws3 _ _ _ else _) eqn:H3; [|done].
  intros [= ->] Hs. simpl. rewrite Hs, andb_true_r, !andb_true_iff, !not_graphic_N.
  revert H3. destruct fwd; solve_ws.
Qed.

Lemma strip_ws_all_not_graphic n fwd s :
  str_all not_graphic (strip_ws_all n fwd s) = true → str_all not_graphic s = true.
Proof.
  revert s; induction n as [|n IH]; intros s; simpl; [done|].
  destruct (strip_ws fwd s) eqn:Hs; [|done]. intros Hall. eapply strip_ws_not_graphic; eauto.
Qed.

Lemma str_all_rev_app f s acc : str_all f (str_rev_app s acc) = str_all f s && str_all f acc.
Proof.
  revert acc; induction s as [|a s IH]; intros acc; simpl; [done|]. rewrite IH. simpl.
  by rewrite andb_assoc, (andb_comm (str_all f s)).
Qed.

Lemma str_all_rev f s : str_all f (str_rev s) = str_all f s.
Proof. unfold str_rev. rewrite str_all_rev_app. simpl. apply andb_true_r. Qed.

Lemma graphic_not_blank s : str_all not_graphic s = false → is_blank s = false.
Proof.
  intros Hs. apply String.eqb_neq. intros Ht. apply not_true_iff_false in Hs. apply Hs.
  apply (strip_ws_all_not_graphic (str_len s) true).
  change (strip_ws_all (str_len s) true s) with (trim_start s).
  rewrite <- str_all_rev. apply (strip_ws_all_not_graphic (str_len (trim_start s)) false).
  rewrite <- str_all_rev. change (str_rev _) with (trim s). by rewrite Ht.
Qed.

(** ** Splitting *)

Lemma split_char_nonempty c s : split_char c s ≠ [].
Proof. destruct s as [|a s]; simpl; [done|]. destruct (Ascii.eqb a c), (split_char c s); done. Qed.

Lemma split_once_app c k v :
  str_all (λ a, negb (Ascii.eqb a c)) k = true → split_once c (k +:+ String c v) = Some (k, v).
Proof.
  induction k as [|a k IH]; intros Hk.
  - rewrite app_empty_l. cbn [split_once]. by rewrite Ascii.eqb_refl.
  - rewrite app_String. cbn [split_once]. cbn [str_all] in Hk. apply andb_true_iff in Hk as [Ha%negb_true_iff Hk].
    rewrite Ha, IH by done. done.
Qed.

Lemma split_char_app_sep c s t :
  str_all (λ a, negb (Ascii.eqb a c)) s = true →
  split_char c (s +:+ String c t) = s :: split_char c t.
Proof.
  induction s as [|a s IH]; [intros _; rewrite app_empty_l; simpl; by rewrite Ascii.eqb_refl|].
  rewrite app_String. simpl. rewrite andb_true_iff, negb_true_iff. intros [-> Hs].
  by rewrite IH.
Qed.

Lemma split_char_none c s :
  str_all (λ a, negb (Ascii.eqb a c)) s = true → split_char c s = [s].
Proof.
  induction s as [|a s IH]; [done|]. simpl. rewrite andb_true_iff, negb_true_iff.
  intros [-> Hs]. by rewrite IH.
Qed.

(** ** Reversal *)

Lemma str_rev_app_spec s acc : str_rev_app s acc = str_rev s +:+ acc.
Proof.
  revert acc; induction s as [|a s IH]; intros acc; [done|].
  unfold str_rev. simpl. rewrite (IH (String a acc)), (IH (String a "")).
  by rewrite app_assoc_str, app_String, app_empty_l.
Qed.

Lemma str_rev_snoc s a : str_rev (s +:+ String a "") = String a (str_rev s).
Proof.
  assert (∀ acc, str_rev_app (s +:+ String a "") acc = String a (str_rev_app s acc)) as H; [|apply H].
  induction s as [|b s IH]; intros acc; [done|]. rewrite app_String. simpl. apply IH.
Qed.

Lemma str_rev_involutive s : str_rev (str_rev s) = s.
Proof.
  induction s as [|a s IH]; [done|]. unfold str_rev at 2. simpl.
  rewrite str_rev_app_spec, str_rev_snoc. by rewrite IH.
Qed.

Lemma str_rev_concat s t : str_rev (s +:+ t) = str_rev t +:+ str_rev s.
Proof.
  induction s as [|a s IH]; [by rewrite app_empty_l, app_empty_r|].
  rewrite app_String. unfold str_rev at 1 3. simpl.
  by rewrite !str_rev_app_spec, IH, app_assoc_str.
Qed.

Lemma str_rev_cons a s : str_rev (String a s) = str_rev s +:+ String a "".
Proof. unfold str_rev at 1. simpl. apply str_rev_app_spec. Qed.

(** [str::ends_with]. *)
Definition ends_with (suffix s : string) : bool := starts_with (str_rev suffix) (str_rev s).

Lemma nul_join_suffix_iff user org user' :
  nul_free user = true → nul_free user' = true →
  ends_with (String nul user) (nul_join org user') = true ↔ user = user'.
Proof.
  intros H1 H2. unfold ends_with, nul_join.
  rewrite str_rev_concat, !str_rev_cons, app_assoc_str, app_String, app_empty_l.
  change (str_rev user' +:+ String nul (str_rev org)) with (nul_join (str_rev user') (str_rev org)).
  rewrite nul_join_prefix_iff by (unfold nul_free; by rewrite str_all_rev).
  split; [|by intros ->]. intros Heq. by rewrite <- (str_rev_involutive user), Heq, str_rev_involutive.
Qed.
