(* ===== verification/Json.v ===== *)
(** JSON documents and RFC 6901 pointers.

    [Json] has the constructors of [serde_json::Value]; an object is the
    key-sorted list of its members, the iteration order of the crate's default
    map.  Numbers keep the crate's three representations.  The accessors are
    the [Value] methods the sources call.

    [Value::pointer] and [Value::pointer_mut] belong to that crate, so the
    components that call them are written against the class [JsonPointer],
    whose laws state the documented RFC 6901 behaviour.  [Rfc6901] is an
    implementation that satisfies the class. *)

From S2P Require Import Prelude Text.
From Stdlib Require Import ZArith Lia Ascii.
From Stdlib Require Export SpecFloat.

(** ** Documents *)

(** [serde_json::Number]: a [u64], a negative [i64], or a finite [f64]. *)
Inductive Number :=
| PosInt (n : Z)
| NegInt (n : Z)
| Float (f : spec_float).

#[warnings="-register-all"]
Inductive Json :=
| JNull
| JBool (b : bool)
| JNumber (n : Number)
| JString (s : string)
| JArray (l : list Json)
| JObject (m : list (string * Json)).

(** Induction through the nested lists. *)
Section json_ind.
Variable P : Json → Prop.
Hypothesis Pnull : P JNull.
Hypothesis Pbool : ∀ b, P (JBool b).
Hypothesis Pnum : ∀ n, P (JNumber n).
Hypothesis Pstr : ∀ s, P (JString s).
Hypothesis Parr : ∀ l, Forall P l → P (JArray l).
Hypothesis Pobj : ∀ m, Forall (λ kv, P kv.2) m → P (JObject m).

Fixpoint json_nested_ind (j : Json) : P j :=
  match j with
  | JNull => Pnull
  | JBool b => Pbool b
  | JNumber n => Pnum n
  | JString s => Pstr s
  | JArray l =>
      Parr l ((fix go (l : list Json) : Forall P l :=
        match l with
        | [] => Forall_nil_2 _
        | x :: l' => Forall_cons_2 _ _ _ (json_nested_ind x) (go l')
        end) l)
  | JObject m =>
      Pobj m ((fix go (m : list (string * Json)) : Forall (λ kv, P kv.2) m :=
        match m with
        | [] => Forall_nil_2 _
        | kv :: m' => Forall_cons_2 _ _ _ (json_nested_ind kv.2) (go m')
        end) m)
  end.
End json_ind.

(** IEEE equality, as [f32]'s and [f64]'s [PartialEq]: NaN differs from
    itself, the zeros agree. *)
Definition float_eqb (x y : spec_float) : bool := SFeqb x y.

(** [f32::is_finite]. *)
Definition float_is_finite (x : spec_float) : bool :=
  match x with
  | S754_zero _ | S754_finite _ _ _ => true
  | S754_infinity _ | S754_nan => false
  end.

Definition number_eqb (a b : Number) : bool :=
  match a, b with
  | PosInt m, PosInt n => Z.eqb m n
  | NegInt m, NegInt n => Z.eqb m n
  | Float f, Float g => float_eqb f g
  | _, _ => false
  end.

(** [impl PartialEq for Value]. *)
Fixpoint json_eqb (a b : Json) : bool :=
  match a, b with
  | JNull, JNull => true
  | JBool x, JBool y => Bool.eqb x y
  | JNumber x, JNumber y => number_eqb x y
  | JString x, JString y => String.eqb x y
  | JArray x, JArray y =>
      (fix go (x y : list Json) : bool :=
         match x, y with
         | [], [] => true
         | a :: x', b :: y' => json_eqb a b && go x' y'
         | _, _ => false
         end) x y
  | JObject x, JObject y =>
      (fix go (x y : list (string * Json)) : bool :=
         match x, y with
         | [], [] => true
         | (k, a) :: x', (l, b) :: y' => String.eqb k l && json_eqb a b && go x' y'
         | _, _ => false
         end) x y
  | _, _ => false
  end.

(** ** Accessors of [Value] *)

Definition as_object (j : Json) : option (list (string * Json)) :=
  match j with JObject m => Some m | _ => None end.
Definition as_array (j : Json) : option (list Json) :=
  match j with JArray l => Some l | _ => None end.
Definition as_str (j : Json) : option string :=
  match j with JString s => Some s | _ => None end.
Definition as_u64 (j : Json) : option Z :=
  match j with JNumber (PosInt n) => Some n | _ => None end.
Definition as_i64 (j : Json) : option Z :=
  match j with
  | JNumber (PosInt n) => if (n <=? i64_max)%Z then Some n else None
  | JNumber (NegInt n) => Some n
  | _ => None
  end.
Definition is_object (j : Json) : bool := bool_decide (is_Some (as_object j)).
Definition is_null (j : Json) : bool := match j with JNull => true | _ => false end.
Definition is_number (j : Json) : bool := match j with JNumber _ => true | _ => false end.
Definition is_boolean (j : Json) : bool := match j with JBool _ => true | _ => false end.
Definition is_string (j : Json) : bool := match j with JString _ => true | _ => false end.

(** Members of an object. *)
Fixpoint obj_get (k : string) (m : list (string * Json)) : option Json :=
  match m with
  | [] => None
  | (k', v) :: m' => if String.eqb k k' then Some v else obj_get k m'
  end.

(** [Map::insert]: replaces the member, or adds it at its place in key order. *)
Fixpoint obj_insert (k : string) (v : Json) (m : list (string * Json)) : list (string * Json) :=
  match m with
  | [] => [(k, v)]
  | (k', v') :: m' =>
      if String.eqb k k' then (k, v) :: m'
      else if String.leb k k' then (k, v) :: (k', v') :: m'
      else (k', v') :: obj_insert k v m'
  end.

(** [Value::get] with a string index. *)
Definition json_get (k : string) (j : Json) : option Json :=
  m ← as_object j; obj_get k m.

(** [.get(k).and_then(Value::as_array).into_iter().flatten()]. *)
Definition json_array_or_empty (k : string) (j : Json) : list Json :=
  default [] (json_get k j ≫= as_array).

Lemma obj_get_insert k v m k' :
  obj_get k' (obj_insert k v m) = if String.eqb k' k then Some v else obj_get k' m.
Proof.
  induction m as [|[k1 v1] m IH]; simpl; [done|].
  destruct (String.eqb_spec k k1) as [->|Hne]; simpl.
  - by destruct (String.eqb_spec k' k1).
  - destruct (String.leb k k1); simpl; [done|].
    rewrite IH. destruct (String.eqb_spec k' k1) as [->|]; [|done].
    by destruct (String.eqb_spec k1 k) as [->|].
Qed.

(** ** Reference tokens *)

(** [segment.replace("~1", "/").replace("~0", "~")]: the decoding RFC 6901
    prescribes for one reference token. *)
Definition decode_token (segment : string) : string :=
  str_replace "~0" "~" (str_replace "~1" "/" segment).

(** The reference tokens of a pointer: the pieces after the first ['/']. *)
Definition reference_tokens (pointer : string) : list string :=
  decode_token <$> drop 1 (split_char "/" pointer).

(** Neither sequence of tokens is a prefix of the other. *)
Definition tokens_apart (p q : list string) : Prop :=
  ¬ p `prefix_of` q ∧ ¬ q `prefix_of` p.

(** ** The pointer interface *)

Class JsonPointer := {
  (** [template.pointer(p)] *)
  json_pointer : Json → string → option Json;
  (** [*template.pointer_mut(p)? = v]: the document after the assignment. *)
  json_pointer_set : Json → string → Json → option Json;
}.

Class JsonPointerLaws (J : JsonPointer) : Prop := {
  pointer_set_defined t p v :
    is_Some (json_pointer_set t p v) ↔ is_Some (json_pointer t p);
  pointer_set_same t p v t' :
    json_pointer_set t p v = Some t' → json_pointer t' p = Some v;
  pointer_set_apart t p q v t' :
    starts_with "/" p = true → starts_with "/" q = true →
    tokens_apart (reference_tokens p) (reference_tokens q) →
    json_pointer_set t p v = Some t' → json_pointer t' q = json_pointer t q;
}.

(** ** An RFC 6901 implementation *)
Module Rfc6901.

Definition digit_value (a : ascii) : N := (byte_of a - 48)%N.

Fixpoint decimal (acc : N) (s : string) : N :=
  match s with
  | EmptyString => acc
  | String a s' => decimal (acc * 10 + digit_value a) s'
  end.

(** An array index: decimal digits with no leading zero. *)
Definition parse_index (s : string) : option nat :=
  if negb (String.eqb s "") && str_all is_ascii_digit s
     && (String.eqb s "0" || negb (starts_with "0" s))
  then Some (N.to_nat (decimal 0 s)) else None.

Definition child (j : Json) (token : string) : option Json :=
  match j with
  | JObject m => obj_get token m
  | JArray l => i ← parse_index token; l !! i
  | _ => None
  end.

Definition set_child (j : Json) (token : string) (v : Json) : Json :=
  match j with
  | JObject m => JObject (obj_insert token v m)
  | JArray l =>
      match parse_index token with
      | Some i => JArray (<[i := v]> l)
      | None => j
      end
  | _ => j
  end.

Fixpoint resolve (j : Json) (tokens : list string) : option Json :=
  match tokens with
  | [] => Some j
  | t :: ts => c ← child j t; resolve c ts
  end.

Fixpoint assign (j : Json) (tokens : list string) (v : Json) : option Json :=
  match tokens with
  | [] => Some v
  | t :: ts => c ← child j t; c' ← assign c ts v; Some (set_child j t c')
  end.

Definition tokens_of (p : string) : option (list string) :=
  if String.eqb p "" then Some []
  else if starts_with "/" p then Some (reference_tokens p) else None.

#[export] Instance pointer : JsonPointer := {|
  json_pointer j p := ts ← tokens_of p; resolve j ts;
  json_pointer_set j p v := ts ← tokens_of p; assign j ts v;
|}.

(** *** Array indices denote distinct positions *)

Lemma digit_value_lt a : is_ascii_digit a = true → (digit_value a < 10)%N.
Proof.
  unfold is_ascii_digit, in_range, digit_value. rewrite andb_true_iff, !N.leb_le. lia.
Qed.

Lemma digit_value_inj a b :
  is_ascii_digit a = true → is_ascii_digit b = true →
  digit_value a = digit_value b → a = b.
Proof.
  unfold is_ascii_digit, in_range, digit_value. rewrite !andb_true_iff, !N.leb_le.
  intros Ha Hb Heq. rewrite <- (ascii_N_embedding a), <- (ascii_N_embedding b).
  unfold byte_of in *. f_equal. lia.
Qed.

Lemma decimal_bounds s acc :
  str_all is_ascii_digit s = true →
  (acc * 10 ^ N.of_nat (str_len s) ≤ decimal acc s
   ∧ decimal acc s < (acc + 1) * 10 ^ N.of_nat (str_len s))%N.
Proof.
  revert acc; induction s as [|a s IH]; intros acc; simpl; [lia|].
  rewrite andb_true_iff. intros [Ha Hs]. apply digit_value_lt in Ha.
  destruct (IH (acc * 10 + digit_value a)%N Hs) as [Hlo Hhi].
  assert (Hp : (10 ^ N.of_nat (S (str_len s)) = 10 * 10 ^ N.of_nat (str_len s))%N)
    by (rewrite Nat2N.inj_succ, N.pow_succ_r'; lia).
  unfold str_len in *. simpl. rewrite Hp. nia.
Qed.

Lemma decimal_inj_same_len s t a b :
  str_len s = str_len t →
  str_all is_ascii_digit s = true → str_all is_ascii_digit t = true →
  decimal a s = decimal b t → a = b ∧ s = t.
Proof.
  revert t a b; induction s as [|x s IH]; intros [|y t] a b; simpl; try done.
  rewrite !andb_true_iff. intros [= Hlen] [Hx Hs] [Hy Ht] Heq.
  destruct (IH t _ _ Hlen Hs Ht Heq) as [Hacc ->].
  pose proof (digit_value_lt x Hx). pose proof (digit_value_lt y Hy).
  assert (a = b ∧ digit_value x = digit_value y) as [-> Hv] by lia.
  by rewrite (digit_value_inj x y).
Qed.

Lemma decimal_leading s :
  str_all is_ascii_digit s = true → s ≠ "" → starts_with "0" s = false →
  (10 ^ N.of_nat (str_len s - 1) ≤ decimal 0 s)%N.
Proof.
  destruct s as [|a s]; simpl; [done|]. rewrite andb_true_iff. intros [Ha Hs] _ H0.
  assert (1 ≤ digit_value a)%N as H1.
  { unfold is_ascii_digit, in_range, digit_value in *.
    rewrite andb_true_iff, !N.leb_le in Ha.
    destruct (N.eq_dec (byte_of a) 48) as [He|]; [|lia].
    assert (a = "0"%char) as ->.
    { rewrite <- (ascii_N_embedding a). unfold byte_of in He. by rewrite He. }
    exfalso. revert H0. unfold starts_with. simpl. by destruct s. }
  rewrite Nat.sub_0_r. destruct (decimal_bounds s (digit_value a) Hs) as [Hlo _].
  rewrite N.add_0_l. unfold str_len in *. nia.
Qed.

(** The strings [parse_index] accepts. *)
Definition index_text (s : string) : Prop :=
  s ≠ "" ∧ str_all is_ascii_digit s = true ∧ (s = "0" ∨ starts_with "0" s = false).

Lemma parse_index_Some s i :
  parse_index s = Some i → index_text s ∧ N.of_nat i = decimal 0 s.
Proof.
  unfold parse_index, index_text.
  destruct (negb (s =? "")%string) eqn:Hne; simpl; [|done].
  destruct (str_all is_ascii_digit s); simpl; [|done].
  destruct (_ || _) eqn:Hz; [|done]. intros [= <-].
  rewrite negb_true_iff, String.eqb_neq in Hne.
  rewrite orb_true_iff, String.eqb_eq, negb_true_iff in Hz. split; [done|lia].
Qed.

(** A value written without leading zeros has at most as many digits as any
    other spelling of it. *)
Lemma index_text_shortest u v :
  index_text u → index_text v → decimal 0 u = decimal 0 v → str_len v ≤ str_len u.
Proof.
  intros (Hune & Hu & _) (Hvne & Hv & [->|Hv0]) Heq.
  - destruct u; unfold str_len; simpl; [done|lia].
  - pose proof (decimal_leading v Hv Hvne Hv0) as Hlo.
    destruct (decimal_bounds u 0 Hu) as [_ Hub].
    destruct (decide (str_len v ≤ str_len u)) as [|Hgt]; [done|].
    assert (10 ^ N.of_nat (str_len u) ≤ 10 ^ N.of_nat (str_len v - 1))%N
      by (apply N.pow_le_mono_r; lia). lia.
Qed.

Lemma parse_index_inj s t i : parse_index s = Some i → parse_index t = Some i → s = t.
Proof.
  intros [Hs Hi]%parse_index_Some [Ht Hj]%parse_index_Some. rewrite Hi in Hj.
  apply (decimal_inj_same_len s t 0 0); [|apply Hs|apply Ht|done].
  apply Nat.le_antisymm; apply index_text_shortest; auto.
Qed.

(** *** One step *)

Lemma child_set_same j t c v : child j t = Some c → child (set_child j t v) t = Some v.
Proof.
  destruct j as [| | | |l|m]; simpl; try done.
  - destruct (parse_index t) as [i|] eqn:Hi; simpl; [|done]. rewrite Hi. simpl.
    intros Hl%lookup_lt_Some. by apply list_lookup_insert_eq.
  - intros _. by rewrite obj_get_insert, String.eqb_refl.
Qed.

Lemma child_set_other j t t' v : t ≠ t' → child (set_child j t v) t' = child j t'.
Proof.
  intros Hne. destruct j as [| | | |l|m]; simpl; try done.
  - destruct (parse_index t) as [i|] eqn:Hi; simpl; [|done].
    destruct (parse_index t') as [i'|] eqn:Hi'; simpl; [|done].
    apply list_lookup_insert_ne. intros <-. by eapply Hne, parse_index_inj.
  - rewrite obj_get_insert. destruct (String.eqb_spec t' t); congruence.
Qed.

(** *** Whole pointers *)

Lemma assign_defined j ts v : is_Some (assign j ts v) ↔ is_Some (resolve j ts).
Proof.
  revert j; induction ts as [|t ts IH]; intros j; simpl; [by split; eauto|].
  destruct (child j t) as [c|]; simpl; [|by split; intros []].
  rewrite <- (IH c). destruct (assign c ts v); simpl; split; intros []; eauto; done.
Qed.

Lemma resolve_assign_same j ts v j' : assign j ts v = Some j' → resolve j' ts = Some v.
Proof.
  revert j j'; induction ts as [|t ts IH]; intros j j'; simpl; [by intros [= <-]|].
  destruct (child j t) as [c|] eqn:Hc; simpl; [|done].
  destruct (assign c ts v) as [c'|] eqn:Ha; simpl; [|done]. intros [= <-].
  rewrite (child_set_same j t c) by done. simpl. eauto.
Qed.

Lemma resolve_assign_apart j ps qs v j' :
  tokens_apart ps qs → assign j ps v = Some j' → resolve j' qs = resolve j qs.
Proof.
  revert j qs j'; induction ps as [|t ps IH]; intros j qs j' [H1 H2].
  { destruct H1. apply prefix_nil. }
  destruct qs as [|t' qs]; [destruct H2; apply prefix_nil|]. simpl.
  destruct (child j t) as [c|] eqn:Hc; simpl; [|done].
  destruct (assign c ps v) as [c'|] eqn:Ha; simpl; [|done]. intros [= <-].
  destruct (decide (t = t')) as [<-|Hne].
  - rewrite (child_set_same j t c), Hc by done. simpl. apply IH; [|done].
    split; intros Hp; [apply H1|apply H2]; by apply prefix_cons.
  - by rewrite child_set_other.
Qed.

#[export] Instance pointer_laws : JsonPointerLaws pointer.
Proof.
  split; simpl.
  - intros t p v. destruct (tokens_of p); simpl; [apply assign_defined|].
    split; intros [? [=]].
  - intros t p v t'. destruct (tokens_of p); simpl; [apply resolve_assign_same|done].
  - intros t p q v t' Hp Hq Hapart. unfold tokens_of. rewrite Hp, Hq.
    destruct (String.eqb_spec p "") as [->|]; [done|].
    destruct (String.eqb_spec q "") as [->|]; [done|].
    by apply resolve_assign_apart.
Qed.
End Rfc6901.
