(* ===== verification/Messages.v ===== *)
(** The versioned control protocol between Hub and workers
    ([nagisalake-protocol/src/messages.rs]).

    One record per message body and one constructor per message, with the
    source's fields in order.  Unsigned and signed integers are [Z], an [f32]
    is an IEEE value, a [BTreeMap] is a [gmap].  Field names carry the initials
    of their struct because Rocq's projections are global. *)

From S2P Require Import Prelude Text Json.
From Stdlib Require Import ZArith.

Definition PROTOCOL_VERSION : Z := 2.
(** Bound on the recovery inventory of a registration. *)
Definition MAX_RECOVERY_JOB_IDS : nat := 1024.

(** ** Workflow contract *)

Inductive WorkflowInputKind := ParameterInput | ArtifactInput.

Record WorkflowInput := mkWorkflowInput {
  wi_name : string;
  wi_kind : WorkflowInputKind;
  wi_value_type : string;
  wi_content_type : option string;
  wi_pointer : string;
  wi_required : bool;
  wi_default : option Json;
  wi_options : list string;
  wi_node_id : option string;
  wi_node_type : option string;
  wi_field : option string;
}.

Record WorkflowOutput := mkWorkflowOutput {
  wo_name : string;
  wo_content_type : string;
}.

Record WorkflowManifest := mkWorkflowManifest {
  wm_schema_version : Z;
  wm_display_name : string;
  wm_description : option string;
  wm_inputs : list WorkflowInput;
  wm_outputs : list WorkflowOutput;
  wm_warnings : list string;
}.

Record WorkflowCapability := mkWorkflowCapability {
  wc_id : string;
  wc_version : string;
  wc_output_types : list string;
  wc_manifest : option WorkflowManifest;
}.

Record WorkerCapabilities := mkWorkerCapabilities {
  cap_workflows : list WorkflowCapability;
  cap_parallelism : Z;
  cap_queue_depth : Z;
  cap_supports_queued_job_cancellation : bool;
  cap_labels : gmap string string;
}.

Definition default_parallelism : Z := 1.
Definition default_manifest_schema_version : Z := 1.

Definition WorkerCapabilities_default : WorkerCapabilities := {|
  cap_workflows := [];
  cap_parallelism := default_parallelism;
  cap_queue_depth := 0;
  cap_supports_queued_job_cancellation := false;
  cap_labels := ∅;
|}.

(** [self.parallelism as u32 + self.queue_depth as u32]. *)
Definition total_capacity (c : WorkerCapabilities) : Z :=
  (cap_parallelism c + cap_queue_depth c)%Z.

(** ** Message bodies *)

Record Register := mkRegister {
  rg_protocol_version : Z;
  rg_namespace : string;
  rg_node_name : string;
  rg_worker_version : string;
  rg_capabilities : WorkerCapabilities;
  rg_recovery_job_ids : list string;
}.

Record Registered := mkRegistered {
  rd_worker_id : string;
  rd_session_id : string;
  rd_heartbeat_interval_seconds : Z;
  rd_server_unix_ms : Z;
}.

Record Heartbeat := mkHeartbeat {
  hb_session_id : string;
  hb_sequence : Z;
  hb_active_jobs : Z;
  hb_queued_jobs : Z;
  hb_unix_ms : Z;
}.

Record PresignedRequest := mkPresignedRequest {
  pr_method : string;
  pr_url : string;
  pr_headers : gmap string string;
  pr_expires_at_unix_ms : Z;
}.

Record JobInput := mkJobInput {
  ji_artifact_id : string;
  ji_name : string;
  ji_content_type : string;
  ji_size_bytes : Z;
  ji_sha256 : string;
  ji_download : PresignedRequest;
}.

Record DispatchJob := mkDispatchJob {
  dj_command_id : string;
  dj_job_id : string;
  dj_attempt : Z;
  dj_workflow_id : string;
  dj_workflow_version : string;
  dj_parameters : Json;
  dj_inputs : list JobInput;
}.

Record CancelJob := mkCancelJob {
  cj_command_id : string;
  cj_job_id : string;
  cj_reason : string;
}.

Record CommandAck := mkCommandAck {
  ca_command_id : string;
  ca_accepted : bool;
  ca_message : string;
}.

Inductive JobEventKind :=
| EvAccepted
| EvRunning
| EvProgress
| EvUploading
| EvCompleted
| EvFailed
| EvCancelled.

#[export] Instance JobEventKind_eq_dec : EqDecision JobEventKind.
Proof. solve_decision. Defined.

Record JobEvent := mkJobEvent {
  je_job_id : string;
  je_attempt : Z;
  je_sequence : Z;
  je_kind : JobEventKind;
  je_progress : option spec_float;
  je_prompt_id : option string;
  je_message : string;
  je_unix_ms : Z;
}.

Record JobEventAck := mkJobEventAck {
  ea_job_id : string;
  ea_sequence : Z;
}.

Record ArtifactReady := mkArtifactReady {
  ar_request_id : string;
  ar_job_id : string;
  ar_attempt : Z;
  ar_name : string;
  ar_content_type : string;
  ar_size_bytes : Z;
  ar_sha256 : string;
}.

Record ArtifactUpload := mkArtifactUpload {
  au_request_id : string;
  au_artifact_id : string;
  au_upload : PresignedRequest;
}.

Record ArtifactUploaded := mkArtifactUploaded {
  ad_request_id : string;
  ad_artifact_id : string;
  ad_job_id : string;
  ad_attempt : Z;
}.

Record ArtifactUploadedAck := mkArtifactUploadedAck {
  aa_request_id : string;
  aa_artifact_id : string;
}.

Record Ping := mkPing { ping_nonce : string }.
Record Pong := mkPong { pong_nonce : string }.

Record ProtocolError := mkProtocolError {
  pe_code : string;
  pe_message : string;
  pe_retryable : bool;
}.

(** ** Messages *)

Inductive WorkerMessage :=
| WRegister (r : Register)
| WHeartbeat (h : Heartbeat)
| WCommandAck (a : CommandAck)
| WJobEvent (e : JobEvent)
| WArtifactReady (a : ArtifactReady)
| WArtifactUploaded (a : ArtifactUploaded)
| WPong (p : Pong).

Inductive HubMessage :=
| HRegistered (r : Registered)
| HDispatchJob (d : DispatchJob)
| HCancelJob (c : CancelJob)
| HArtifactUpload (a : ArtifactUpload)
| HJobEventAck (a : JobEventAck)
| HArtifactUploadedAck (a : ArtifactUploadedAck)
| HPing (p : Ping)
| HError (e : ProtocolError).

(** ** [PartialEq] of the types the journal compares *)

Definition option_eqb {A} (eqb : A → A → bool) (a b : option A) : bool :=
  match a, b with
  | Some x, Some y => eqb x y
  | None, None => true
  | _, _ => false
  end.

(** The derived [PartialEq] of [JobEvent]; [progress] compares as [f32]. *)
Definition JobEvent_eqb (a b : JobEvent) : bool :=
  String.eqb (je_job_id a) (je_job_id b)
  && Z.eqb (je_attempt a) (je_attempt b)
  && Z.eqb (je_sequence a) (je_sequence b)
  && bool_decide (je_kind a = je_kind b)
  && option_eqb float_eqb (je_progress a) (je_progress b)
  && option_eqb String.eqb (je_prompt_id a) (je_prompt_id b)
  && String.eqb (je_message a) (je_message b)
  && Z.eqb (je_unix_ms a) (je_unix_ms b).

(** The progress a frame may carry: absent, or a finite number. *)
Definition progress_finite (e : JobEvent) : bool :=
  match je_progress e with Some p => float_is_finite p | None => true end.

Lemma float_eqb_refl x : float_is_finite x = true → float_eqb x x = true.
Proof.
  destruct x as [[]|[]| |[] m e]; simpl; try done; intros _;
    unfold float_eqb, SFeqb, SFcompare; rewrite Z.compare_refl; simpl;
    rewrite Pos.compare_cont_refl; done.
Qed.

Lemma JobEvent_eqb_refl e : progress_finite e = true → JobEvent_eqb e e = true.
Proof.
  unfold JobEvent_eqb, progress_finite. intros Hp.
  rewrite !String.eqb_refl, !Z.eqb_refl, bool_decide_eq_true_2 by done.
  destruct (je_progress e); simpl; [rewrite float_eqb_refl by done|];
    destruct (je_prompt_id e); simpl; rewrite ?String.eqb_refl; done.
Qed.

Lemma total_capacity_no_overflow c :
  in_u16 (cap_parallelism c) → in_u16 (cap_queue_depth c) → in_u32 (total_capacity c).
Proof. unfold in_u16, in_u32, u16_max, u32_max, total_capacity. lia. Qed.
