(* ===== verification/Validate.v ===== *)
(** Frame validation ([nagisalake-protocol/src/validate.rs]).

    [Validate] is the source's trait; each instance is its [validate] body,
    checks in source order, first failure returned.  Every validator is proved
    equivalent to a declarative well-formedness predicate. *)

From S2P Require Import Prelude Text Json Messages.
From Stdlib Require Import ZArith Lia Ascii.

(** The text of an error: a literal, or a formatted message by its arguments. *)
Inductive ErrorText :=
| Text (s : string)
| ExpectedVersion (expected got : Z)
| AtMostEntries (n : nat)
| AtMostCharacters (n : nat)
| IllegalCharacter (offender : string).

Record ValidationError := mkValidationError {
  ve_field : string;
  ve_message : ErrorText;
}.

Definition invalid (field : string) (message : string) : ValidationError :=
  mkValidationError field (Text message).

Class Validate (A : Type) := validate : A → Res ValidationError unit.

(** ** Field checks *)

Definition required (field value : string) : Res ValidationError unit :=
  reject_if (is_blank value) (invalid field "must not be empty").

Definition required_opt (field : string) (value : option string) : Res ValidationError unit :=
  match value with Some v => required field v | None => Ok tt end.

Definition MAX_IDENTITY_CHARS : nat := 64.

Definition identity_char (a : ascii) : bool :=
  is_ascii_alphanumeric a || Ascii.eqb a "." || Ascii.eqb a "-" || Ascii.eqb a "_".

(** The first character outside the accepted set. *)
Fixpoint identity_offender (value : string) : option string :=
  match value with
  | EmptyString => None
  | String a rest =>
      if identity_char a then identity_offender rest else Some (chars_take 1 value)
  end.

Definition identity_component (field value : string) : Res ValidationError unit :=
  required field value ;;
  reject_if (MAX_IDENTITY_CHARS <? chars_count value)
    (mkValidationError field (AtMostCharacters MAX_IDENTITY_CHARS)) ;;
  match identity_offender value with
  | Some offender => Err (mkValidationError field (IllegalCharacter offender))
  | None => reject_if (starts_with "." value) (invalid field "must not start with '.'")
  end.

Definition is_sha256 (value : string) : bool :=
  (str_len value =? 64) && str_all is_ascii_hexdigit value.

Definition sha256 (field value : string) : Res ValidationError unit :=
  if is_sha256 value then Ok tt
  else Err (invalid field "must be a 64-character hexadecimal SHA-256").

(** A loop that checks each element and rejects a repeated key:
    [before(x)?; if !seen.insert(key(x)) { return Err(dup) }; after(x)?]. *)
Definition each_unique {A K} `{Countable K} (before : A → Res ValidationError unit)
    (key : A → K) (dup : ValidationError) (after : A → Res ValidationError unit)
    (l : list A) : Res ValidationError (gset K) :=
  try_fold (λ seen x, before x ;; seen' ← insert_unique dup seen (key x);
                      after x ;; Ok seen') ∅ l.

(** ** Validators *)

#[export] Instance validate_PresignedRequest : Validate PresignedRequest := λ r,
  reject_if (negb (String.eqb (pr_method r) "GET" || String.eqb (pr_method r) "PUT"))
    (invalid "method" "must be GET or PUT") ;;
  required "url" (pr_url r) ;;
  reject_if (pr_expires_at_unix_ms r <=? 0)%Z
    (invalid "expires_at_unix_ms" "must be greater than zero").

#[export] Instance validate_JobInput : Validate JobInput := λ i,
  required "input.artifact_id" (ji_artifact_id i) ;;
  required "input.name" (ji_name i) ;;
  required "input.content_type" (ji_content_type i) ;;
  sha256 "input.sha256" (ji_sha256 i) ;;
  validate (ji_download i) ;;
  reject_if (negb (String.eqb (pr_method (ji_download i)) "GET"))
    (invalid "input.download.method" "must be GET").

#[export] Instance validate_DispatchJob : Validate DispatchJob := λ d,
  required "command_id" (dj_command_id d) ;;
  required "job_id" (dj_job_id d) ;;
  required "workflow_id" (dj_workflow_id d) ;;
  required "workflow_version" (dj_workflow_version d) ;;
  reject_if (negb (is_object (dj_parameters d)))
    (invalid "parameters" "must be a JSON object") ;;
  try_each validate (dj_inputs d).

(** [0.0] and [1.0] as [f32]. *)
Definition f32_zero : spec_float := S754_zero false.
Definition f32_one : spec_float := S754_finite false 8388608 (-23).

Definition progress_ok (p : spec_float) : bool :=
  float_is_finite p && (SFleb f32_zero p && SFleb p f32_one).

#[export] Instance validate_JobEvent : Validate JobEvent := λ e,
  required "job_id" (je_job_id e) ;;
  reject_if (je_sequence e =? 0)%Z (invalid "sequence" "must be greater than zero") ;;
  match je_progress e with
  | Some p => reject_if (negb (progress_ok p))
                (invalid "progress" "must be finite and between zero and one")
  | None => Ok tt
  end.

#[export] Instance validate_ArtifactReady : Validate ArtifactReady := λ r,
  required "request_id" (ar_request_id r) ;;
  required "job_id" (ar_job_id r) ;;
  required "name" (ar_name r) ;;
  required "content_type" (ar_content_type r) ;;
  sha256 "sha256" (ar_sha256 r).

#[export] Instance validate_WorkflowManifest : Validate WorkflowManifest := λ m,
  reject_if (wm_schema_version m =? 0)%Z
    (invalid "workflow.manifest.schema_version" "must be greater than zero") ;;
  required "workflow.manifest.display_name" (wm_display_name m) ;;
  _ ← each_unique
        (λ i, required "workflow.manifest.input.name" (wi_name i))
        wi_name (invalid "workflow.manifest.inputs" "contains a duplicate name")
        (λ i, required "workflow.manifest.input.type" (wi_value_type i) ;;
              required "workflow.manifest.input.pointer" (wi_pointer i) ;;
              required_opt "workflow.manifest.input.content_type" (wi_content_type i))
        (wm_inputs m);
  _ ← each_unique
        (λ o, required "workflow.manifest.output.name" (wo_name o) ;;
              required "workflow.manifest.output.content_type" (wo_content_type o))
        wo_name (invalid "workflow.manifest.outputs" "contains a duplicate name")
        (λ _, Ok tt)
        (wm_outputs m);
  Ok tt.

#[export] Instance validate_WorkflowCapability : Validate WorkflowCapability := λ c,
  required "workflow.id" (wc_id c) ;;
  required "workflow.version" (wc_version c) ;;
  try_each (required "workflow.output_types") (wc_output_types c) ;;
  match wc_manifest c with Some m => validate m | None => Ok tt end.

#[export] Instance validate_WorkerCapabilities : Validate WorkerCapabilities := λ c,
  reject_if (cap_parallelism c =? 0)%Z
    (invalid "capabilities.concurrency" "must be greater than zero") ;;
  reject_if (bool_decide (cap_workflows c = []))
    (invalid "capabilities.workflows" "must contain at least one workflow") ;;
  _ ← each_unique validate (λ w, (wc_id w, wc_version w))
        (invalid "capabilities.workflows" "contains a duplicate id/version")
        (λ _, Ok tt) (cap_workflows c);
  try_each (λ kv, required "capabilities.labels.key" kv.1 ;;
                  required "capabilities.labels.value" kv.2)
    (btree_iter (cap_labels c)).

#[export] Instance validate_Register : Validate Register := λ r,
  reject_if (negb (rg_protocol_version r =? PROTOCOL_VERSION)%Z)
    (mkValidationError "protocol_version"
       (ExpectedVersion PROTOCOL_VERSION (rg_protocol_version r))) ;;
  identity_component "namespace" (rg_namespace r) ;;
  identity_component "node_name" (rg_node_name r) ;;
  required "worker_version" (rg_worker_version r) ;;
  reject_if (MAX_RECOVERY_JOB_IDS <? length (rg_recovery_job_ids r))
    (mkValidationError "recovery_job_ids" (AtMostEntries MAX_RECOVERY_JOB_IDS)) ;;
  _ ← each_unique (required "recovery_job_ids") id
        (invalid "recovery_job_ids" "contains a duplicate job id")
        (λ _, Ok tt) (rg_recovery_job_ids r);
  validate (rg_capabilities r).

#[export] Instance validate_WorkerMessage : Validate WorkerMessage := λ m,
  match m with
  | WRegister r => validate r
  | WHeartbeat h => required "session_id" (hb_session_id h)
  | WCommandAck a => required "command_id" (ca_command_id a)
  | WJobEvent e => validate e
  | WArtifactReady a => validate a
  | WArtifactUploaded a =>
      required "request_id" (ad_request_id a) ;;
      required "artifact_id" (ad_artifact_id a) ;;
      required "job_id" (ad_job_id a)
  | WPong p => required "nonce" (pong_nonce p)
  end.

#[export] Instance validate_HubMessage : Validate HubMessage := λ m,
  match m with
  | HRegistered r =>
      required "worker_id" (rd_worker_id r) ;;
      required "session_id" (rd_session_id r) ;;
      reject_if (rd_heartbeat_interval_seconds r =? 0)%Z
        (invalid "heartbeat_interval_seconds" "must be greater than zero")
  | HDispatchJob d => validate d
  | HCancelJob c =>
      required "command_id" (cj_command_id c) ;; required "job_id" (cj_job_id c)
  | HArtifactUpload a =>
      required "request_id" (au_request_id a) ;;
      required "artifact_id" (au_artifact_id a) ;;
      validate (au_upload a) ;;
      reject_if (negb (String.eqb (pr_method (au_upload a)) "PUT"))
        (invalid "upload.method" "must be PUT")
  | HJobEventAck a => required "job_id" (ea_job_id a)
  | HArtifactUploadedAck a =>
      required "request_id" (aa_request_id a) ;; required "artifact_id" (aa_artifact_id a)
  | HPing p => required "nonce" (ping_nonce p)
  | HError e => required "code" (pe_code e) ;; required "message" (pe_message e)
  end.

(** ** Well-formed frames *)

Definition present (s : string) : Prop := is_blank s = false.

(** An accepted identity component. *)
Definition identity_ok (s : string) : Prop :=
  s ≠ "" ∧ str_len s ≤ MAX_IDENTITY_CHARS ∧ str_all identity_char s = true
  ∧ starts_with "." s = false.

Definition valid_presigned (r : PresignedRequest) : Prop :=
  (pr_method r = "GET" ∨ pr_method r = "PUT") ∧ present (pr_url r)
  ∧ (0 < pr_expires_at_unix_ms r)%Z.

Definition valid_job_input (i : JobInput) : Prop :=
  present (ji_artifact_id i) ∧ present (ji_name i) ∧ present (ji_content_type i)
  ∧ is_sha256 (ji_sha256 i) = true ∧ valid_presigned (ji_download i)
  ∧ pr_method (ji_download i) = "GET".

Definition valid_dispatch (d : DispatchJob) : Prop :=
  present (dj_command_id d) ∧ present (dj_job_id d) ∧ present (dj_workflow_id d)
  ∧ present (dj_workflow_version d) ∧ (∃ m, dj_parameters d = JObject m)
  ∧ Forall valid_job_input (dj_inputs d).

Definition valid_event (e : JobEvent) : Prop :=
  present (je_job_id e) ∧ je_sequence e ≠ 0%Z
  ∧ (∀ p, je_progress e = Some p → progress_ok p = true).

Definition valid_artifact_ready (r : ArtifactReady) : Prop :=
  present (ar_request_id r) ∧ present (ar_job_id r) ∧ present (ar_name r)
  ∧ present (ar_content_type r) ∧ is_sha256 (ar_sha256 r) = true.

Definition valid_manifest (m : WorkflowManifest) : Prop :=
  wm_schema_version m ≠ 0%Z ∧ present (wm_display_name m)
  ∧ Forall (λ i, present (wi_name i) ∧ present (wi_value_type i) ∧ present (wi_pointer i)
                 ∧ ∀ c, wi_content_type i = Some c → present c) (wm_inputs m)
  ∧ NoDup (wi_name <$> wm_inputs m)
  ∧ Forall (λ o, present (wo_name o) ∧ present (wo_content_type o)) (wm_outputs m)
  ∧ NoDup (wo_name <$> wm_outputs m).

Definition valid_capability (c : WorkflowCapability) : Prop :=
  present (wc_id c) ∧ present (wc_version c) ∧ Forall present (wc_output_types c)
  ∧ ∀ m, wc_manifest c = Some m → valid_manifest m.

Definition valid_capabilities (c : WorkerCapabilities) : Prop :=
  cap_parallelism c ≠ 0%Z ∧ cap_workflows c ≠ []
  ∧ Forall valid_capability (cap_workflows c)
  ∧ NoDup ((λ w, (wc_id w, wc_version w)) <$> cap_workflows c)
  ∧ map_Forall (λ k v, present k ∧ present v) (cap_labels c).

Definition valid_register (r : Register) : Prop :=
  rg_protocol_version r = PROTOCOL_VERSION
  ∧ identity_ok (rg_namespace r) ∧ identity_ok (rg_node_name r)
  ∧ present (rg_worker_version r)
  ∧ length (rg_recovery_job_ids r) ≤ MAX_RECOVERY_JOB_IDS
  ∧ Forall present (rg_recovery_job_ids r) ∧ NoDup (rg_recovery_job_ids r)
  ∧ valid_capabilities (rg_capabilities r).

Definition valid_worker_message (m : WorkerMessage) : Prop :=
  match m with
  | WRegister r => valid_register r
  | WHeartbeat h => present (hb_session_id h)
  | WCommandAck a => present (ca_command_id a)
  | WJobEvent e => valid_event e
  | WArtifactReady a => valid_artifact_ready a
  | WArtifactUploaded a =>
      present (ad_request_id a) ∧ present (ad_artifact_id a) ∧ present (ad_job_id a)
  | WPong p => present (pong_nonce p)
  end.

Definition valid_hub_message (m : HubMessage) : Prop :=
  match m with
  | HRegistered r => present (rd_worker_id r) ∧ present (rd_session_id r)
                     ∧ rd_heartbeat_interval_seconds r ≠ 0%Z
  | HDispatchJob d => valid_dispatch d
  | HCancelJob c => present (cj_command_id c) ∧ present (cj_job_id c)
  | HArtifactUpload a =>
      present (au_request_id a) ∧ present (au_artifact_id a)
      ∧ valid_presigned (au_upload a) ∧ pr_method (au_upload a) = "PUT"
  | HJobEventAck a => present (ea_job_id a)
  | HArtifactUploadedAck a => present (aa_request_id a) ∧ present (aa_artifact_id a)
  | HPing p => present (ping_nonce p)
  | HError e => present (pe_code e) ∧ present (pe_message e)
  end.

(** ** The field checks decide their predicates *)

Lemma required_Ok f v : required f v = Ok tt ↔ present v.
Proof. apply reject_if_Ok. Qed.

Lemma required_opt_Ok f o : required_opt f o = Ok tt ↔ ∀ c, o = Some c → present c.
Proof.
  destruct o; simpl; [rewrite required_Ok|]; naive_solver.
Qed.

Lemma sha256_Ok f v : sha256 f v = Ok tt ↔ is_sha256 v = true.
Proof. unfold sha256. destruct (is_sha256 v); naive_solver. Qed.

Lemma each_unique_from {A K} `{Countable K} (before : A → Res ValidationError unit)
    (key : A → K) dup after seen l :
  (∃ s, try_fold (λ seen x, before x ;; seen' ← insert_unique dup seen (key x);
                            after x ;; Ok seen') seen l = Ok s) ↔
  Forall (λ x, before x = Ok tt ∧ after x = Ok tt) l ∧ NoDup (key <$> l)
  ∧ ∀ x, x ∈ l → key x ∉ seen.
Proof.
  revert seen; induction l as [|x l IH]; intros seen; simpl.
  - split; [intros _; repeat split; [constructor|constructor|]|by eexists].
    intros x Hx. by apply not_elem_of_nil in Hx.
  - setoid_rewrite bind_Ok. rewrite Forall_cons, NoDup_cons. split.
    + intros (s & s1 & Hs1 & Hrest).
      apply bind_Ok_tt in Hs1 as [Hb (s2 & Hins & Hs1)%bind_Ok].
      apply bind_Ok_tt in Hs1 as [Ha [= <-]]. apply insert_unique_Ok in Hins as [Hnew ->].
      destruct (proj1 (IH _) (ex_intro _ _ Hrest)) as (Hall & Hnd & Hfresh).
      repeat split; auto.
      * intros (y & Hy & Hyl)%list_elem_of_fmap. apply (Hfresh y Hyl). set_solver.
      * intros y [->|Hy]%elem_of_cons; [done|]. intros Hk.
        apply (Hfresh y Hy). set_solver.
    + intros ([[Hb Ha] Hall] & [Hx Hnd] & Hfresh).
      assert (Hnew : key x ∉ seen) by (apply Hfresh; apply elem_of_cons; by left).
      destruct (proj2 (IH ({[key x]} ∪ seen))) as [s Hs].
      { repeat split; auto. intros y Hy [Hyx|Hys]%elem_of_union.
        - apply elem_of_singleton in Hyx. apply Hx. apply list_elem_of_fmap. eauto.
        - eapply Hfresh; [apply elem_of_cons; right; exact Hy|exact Hys]. }
      exists s, ({[key x]} ∪ seen). split; [|done].
      rewrite Hb. simpl. unfold insert_unique. rewrite decide_False by done. simpl.
      by rewrite Ha.
Qed.

Lemma each_unique_then {A K} `{Countable K} (before : A → Res ValidationError unit)
    (key : A → K) dup after l {B} (k : Res ValidationError B) b :
  (_ ← each_unique before key dup after l; k) = Ok b ↔
  Forall (λ x, before x = Ok tt ∧ after x = Ok tt) l ∧ NoDup (key <$> l) ∧ k = Ok b.
Proof.
  rewrite bind_Ok. pose proof (each_unique_from before key dup after ∅ l) as Hu.
  split.
  - intros (s & Hs & Hk). destruct (proj1 Hu) as (? & ? & _); [by exists s|done].
  - intros (Hall & Hnd & Hk). destruct (proj2 Hu) as [s Hs]; [|by exists s].
    split_and!; [done|done|set_solver].
Qed.

Create Rewrite HintDb validate_rw.
#[export] Hint Rewrite @bind_Ok_tt @reject_if_Ok required_Ok required_opt_Ok sha256_Ok
  @try_each_Ok @each_unique_then negb_false_iff Z.eqb_neq Z.leb_gt Nat.ltb_ge
  bool_decide_eq_false : validate_rw.

(** ** Identity components *)

Lemma identity_char_ascii a : identity_char a = true → (45 ≤ byte_of a ≤ 122)%N.
Proof.
  unfold identity_char, is_ascii_alphanumeric, is_ascii_digit, is_ascii_upper,
    is_ascii_lower, in_range.
  rewrite !orb_true_iff, !andb_true_iff, !N.leb_le, !Ascii.eqb_eq.
  intros [[[[[?|?]|?]| ->]| ->]| ->]; unfold byte_of in *; simpl; lia.
Qed.

Lemma identity_char_strip fwd a s : identity_char a = true → strip_ws fwd (String a s) = None.
Proof.
  intros Ha%identity_char_ascii. simpl.
  assert (ws1 (byte_of a) = false) as ->.
  { unfold ws1, in_range. apply orb_false_iff. rewrite andb_false_iff, !N.leb_gt, N.eqb_neq. lia. }
  assert (Hn : ∀ n, (128 ≤ n → byte_of a =? n = false)%N) by (intros; apply N.eqb_neq; lia).
  destruct s as [|b s]; [done|].
  assert ((if fwd then ws2 (byte_of a) (byte_of b) else ws2 (byte_of b) (byte_of a)) = false) as ->.
  { unfold ws2. destruct fwd; rewrite !(Hn _) by lia; simpl; rewrite ?andb_false_r; done. }
  destruct s as [|c s]; [done|].
  assert ((if fwd then ws3 (byte_of a) (byte_of b) (byte_of c)
           else ws3 (byte_of c) (byte_of b) (byte_of a)) = false) as ->; [|done].
  unfold ws3, in_range. assert ((128 <=? byte_of a)%N = false) as Hlt by (apply N.leb_gt; lia).
  destruct fwd; rewrite ?(Hn _), ?Hlt by lia; simpl; rewrite ?andb_false_r; done.
Qed.

Lemma strip_ws_all_id n fwd s :
  (∀ a t, s = String a t → identity_char a = true) → strip_ws_all n fwd s = s.
Proof.
  intros Hs. destruct n; simpl; [done|]. destruct s as [|a s]; [done|].
  by rewrite identity_char_strip by eauto.
Qed.

Lemma trim_identity s : str_all identity_char s = true → trim s = s.
Proof.
  intros Hs. unfold trim, trim_start.
  rewrite strip_ws_all_id by (intros a t ->; simpl in Hs; by apply andb_true_iff in Hs as [? _]).
  unfold trim_end. rewrite strip_ws_all_id; [apply str_rev_involutive|].
  intros a t Hrev. apply (f_equal str_rev) in Hrev. rewrite str_rev_involutive in Hrev.
  unfold str_rev in Hrev. simpl in Hrev. rewrite str_rev_app_spec in Hrev. subst s.
  rewrite str_all_app in Hs. simpl in Hs. bool_cases. done.
Qed.

Lemma identity_chars_count s : str_all identity_char s = true → chars_count s = str_len s.
Proof.
  induction s as [|a s IH]; [done|]. simpl. rewrite andb_true_iff. intros [Ha Hs].
  apply identity_char_ascii in Ha.
  assert (is_continuation a = false) as ->.
  { unfold is_continuation, in_range. rewrite andb_false_iff, !N.leb_gt. lia. }
  rewrite IH by done. done.
Qed.

Lemma identity_offender_None s : identity_offender s = None ↔ str_all identity_char s = true.
Proof.
  induction s as [|a s IH]; simpl; [done|].
  destruct (identity_char a); simpl; [done|]. split; discriminate.
Qed.

Lemma identity_component_Ok f v : identity_component f v = Ok tt ↔ identity_ok v.
Proof.
  unfold identity_component, identity_ok, present.
  rewrite !bind_Ok_tt, required_Ok, reject_if_Ok, Nat.ltb_ge. unfold present, is_blank.
  destruct (identity_offender v) eqn:Ho.
  - split; [naive_solver|]. intros (_ & _ & Hall & _).
    apply identity_offender_None in Hall. congruence.
  - apply identity_offender_None in Ho.
    rewrite reject_if_Ok, (trim_identity v), (identity_chars_count v), String.eqb_neq by done.
    naive_solver.
Qed.
#[export] Hint Rewrite identity_component_Ok : validate_rw.

(** ** The validators decide well-formedness *)

Ltac decide_frame := autorewrite with validate_rw.

Lemma validate_presigned_iff (r : PresignedRequest) : validate r = Ok tt ↔ valid_presigned r.
Proof.
  unfold validate, validate_PresignedRequest, valid_presigned. decide_frame.
  by rewrite orb_true_iff, !String.eqb_eq.
Qed.

Lemma validate_job_input_iff (i : JobInput) : validate i = Ok tt ↔ valid_job_input i.
Proof.
  unfold validate at 1, validate_JobInput, valid_job_input. decide_frame.
  by rewrite validate_presigned_iff, String.eqb_eq.
Qed.

Lemma validate_dispatch_iff (d : DispatchJob) : validate d = Ok tt ↔ valid_dispatch d.
Proof.
  unfold validate at 1, validate_DispatchJob, valid_dispatch. decide_frame.
  rewrite (Forall_iff _ _ _ validate_job_input_iff).
  assert (is_object (dj_parameters d) = true ↔ ∃ m, dj_parameters d = JObject m) as ->; [|done].
  unfold is_object. rewrite bool_decide_eq_true.
  destruct (dj_parameters d); simpl; split; intros []; naive_solver.
Qed.

Lemma validate_event_iff (e : JobEvent) : validate e = Ok tt ↔ valid_event e.
Proof.
  unfold validate, validate_JobEvent, valid_event. decide_frame.
  destruct (je_progress e); decide_frame; naive_solver.
Qed.

Lemma validate_artifact_ready_iff (r : ArtifactReady) :
  validate r = Ok tt ↔ valid_artifact_ready r.
Proof. unfold validate, validate_ArtifactReady, valid_artifact_ready. by decide_frame. Qed.

Lemma validate_manifest_iff (m : WorkflowManifest) : validate m = Ok tt ↔ valid_manifest m.
Proof.
  unfold validate, validate_WorkflowManifest, valid_manifest. decide_frame.
  rewrite (Forall_iff (λ x, required _ _ = _ ∧ _) _
    (λ i, present (wi_name i) ∧ present (wi_value_type i) ∧ present (wi_pointer i)
          ∧ ∀ c, wi_content_type i = Some c → present c))
    by (intros i; by decide_frame).
  rewrite (Forall_iff (λ x, _ ∧ Ok tt = Ok tt) _ (λ o, present (wo_name o) ∧ present (wo_content_type o)))
    by (intros o; decide_frame; naive_solver).
  naive_solver.
Qed.

Lemma validate_capability_iff (c : WorkflowCapability) : validate c = Ok tt ↔ valid_capability c.
Proof.
  unfold validate at 1, validate_WorkflowCapability, valid_capability. decide_frame.
  rewrite (Forall_iff _ _ _ (required_Ok _)).
  destruct (wc_manifest c); [rewrite validate_manifest_iff|]; naive_solver.
Qed.

Lemma validate_capabilities_iff (c : WorkerCapabilities) :
  validate c = Ok tt ↔ valid_capabilities c.
Proof.
  unfold validate at 1, validate_WorkerCapabilities, valid_capabilities. decide_frame.
  rewrite (Forall_iff (λ x, validate x = Ok tt ∧ Ok tt = Ok tt) _ valid_capability)
    by (intros w; rewrite validate_capability_iff; naive_solver).
  assert (Forall (λ kv, (required "capabilities.labels.key" kv.1 ;;
                  required "capabilities.labels.value" kv.2) = Ok tt) (btree_iter (cap_labels c))
          ↔ map_Forall (λ k v, present k ∧ present v) (cap_labels c)) as ->; [|done].
  rewrite Forall_forall, map_Forall_lookup. split.
  - intros H k v Hkv%elem_of_btree_iter. specialize (H _ Hkv). revert H. by decide_frame.
  - intros H [k v] Hkv%elem_of_btree_iter. decide_frame. by apply H.
Qed.

Lemma validate_register_iff (r : Register) : validate r = Ok tt ↔ valid_register r.
Proof.
  unfold validate at 1, validate_Register, valid_register. decide_frame.
  rewrite (Forall_iff (λ x, required _ x = Ok tt ∧ Ok tt = Ok tt) _ present)
    by (intros x; decide_frame; naive_solver).
  by rewrite validate_capabilities_iff, list_fmap_id, Z.eqb_eq.
Qed.

(** a worker frame passes [validate] exactly when it is well formed:
    current protocol version, closed identity alphabet, unique and bounded
    recovery ids, unique workflows and names, SHA-256 digests, finite progress
    in the unit interval. *)
Theorem worker_message_validate_iff (m : WorkerMessage) :
  validate m = Ok tt ↔ valid_worker_message m.
Proof.
  destruct m; unfold validate at 1, validate_WorkerMessage, valid_worker_message;
    decide_frame; auto using validate_register_iff, validate_event_iff,
    validate_artifact_ready_iff.
Qed.

(** a Hub frame passes [validate] exactly when it is well formed; in
    particular every dispatched input is a GET with a SHA-256 digest and every
    upload ticket is a PUT. *)
Theorem hub_message_validate_iff (m : HubMessage) :
  validate m = Ok tt ↔ valid_hub_message m.
Proof.
  destruct m; unfold validate at 1, validate_HubMessage, valid_hub_message;
    decide_frame; auto using validate_dispatch_iff.
  by rewrite validate_presigned_iff, String.eqb_eq.
Qed.
