(* ===== verification/Core.v ===== *)
(** Runtime-neutral domain types ([nagisalake-core/src/lib.rs]): the job state
    machine shared by the Hub and the worker journal, and the journal's job
    record. *)

From S2P Require Import Prelude Text Json Messages.
From Stdlib Require Import ZArith Lia.

(** ** States *)

Inductive JobState :=
| Queued
| Received
| Accepted
| Running
| Uploading
| Completed
| Failed
| Cancelled.

#[export] Instance JobState_eq_dec : EqDecision JobState.
Proof. solve_decision. Defined.

Definition all_states : list JobState :=
  [Queued; Received; Accepted; Running; Uploading; Completed; Failed; Cancelled].

Definition is_terminal (s : JobState) : bool :=
  match s with Completed | Failed | Cancelled => true | _ => false end.

Definition can_transition_to (self next : JobState) : bool :=
  match self, next with
  | Queued, (Queued | Received | Cancelled)
  | Received, Received
  | Accepted, Accepted
  | Running, Running
  | Uploading, Uploading
  | Completed, Completed
  | Failed, Failed
  | Cancelled, Cancelled => true
  | _, _ => false
  end
  || match self, next with
     | Received, (Accepted | Failed | Cancelled)
     | Accepted, (Running | Failed | Cancelled)
     | Running, (Uploading | Failed | Cancelled)
     | Uploading, (Completed | Failed) => true
     | _, _ => false
     end.

(** ** The journal record *)

(** [NagisaError], the variants with their payloads. *)
Inductive NagisaError :=
| InvalidStateTransition (current next : JobState)
| InvalidWorkflow (m : string)
| ComfyUi (m : string)
| ArtifactError (m : string)
| JournalFailure (m : string)
| TransportFailure (m : string)
| JobWasCancelled
| TimedOut (m : string).

Record JobRecord := mkJobRecord {
  jr_dispatch : DispatchJob;
  jr_state : JobState;
  jr_prompt_id : option string;
  jr_event_sequence : Z;
  jr_pending_event : option JobEvent;
}.

Definition JobRecord_received (d : DispatchJob) : JobRecord := {|
  jr_dispatch := d;
  jr_state := Received;
  jr_prompt_id := None;
  jr_event_sequence := 0;
  jr_pending_event := None;
|}.

Definition with_state (s : JobState) (r : JobRecord) : JobRecord :=
  mkJobRecord (jr_dispatch r) s (jr_prompt_id r) (jr_event_sequence r) (jr_pending_event r).

Definition transition (r : JobRecord) (next : JobState) : Res NagisaError JobRecord :=
  if negb (can_transition_to (jr_state r) next)
  then Err (InvalidStateTransition (jr_state r) next)
  else Ok (with_state next r).

(** Outputs a ComfyUI history entry names. *)
Record OutputRef := mkOutputRef {
  or_filename : string;
  or_subfolder : string;
  or_storage_type : string;
  or_content_type : string;
}.
Definition default_output_storage_type : string := "output".

Inductive ComfyHistoryResponse :=
| HistoryPending
| HistoryComplete (outputs : list OutputRef)
| HistoryFailed (m : string).

Inductive ComfyPromptStatus :=
| StatusUnknown
| StatusQueued (position : Z)
| StatusRunning.

(** ** The state machine as a relation *)

(** One accepted transition. *)
Inductive job_step : JobState → JobState → Prop :=
| job_step_intro s t : can_transition_to s t = true → job_step s t.

(** Position of a state in the life cycle; terminal states come last. *)
Definition stage (s : JobState) : nat :=
  match s with
  | Queued => 0 | Received => 1 | Accepted => 2 | Running => 3 | Uploading => 4
  | Completed | Failed | Cancelled => 5
  end.

Lemma can_transition_refl s : can_transition_to s s = true.
Proof. by destruct s. Qed.

Lemma can_transition_stage s t :
  can_transition_to s t = true → s = t ∨ (stage s < stage t ∧ is_terminal s = false).
Proof. destruct s, t; simpl; try discriminate; intros _; auto; right; split; auto; lia. Qed.

Lemma job_step_iff s t : job_step s t ↔ can_transition_to s t = true.
Proof. split; [by inversion 1|by constructor]. Qed.

Lemma rtc_job_step_stage s t :
  rtc job_step s t → s = t ∨ (stage s < stage t ∧ is_terminal s = false).
Proof.
  induction 1 as [s|s u t Hsu _ IH]; [by left|].
  apply job_step_iff, can_transition_stage in Hsu as [<-|[? ?]]; [done|].
  right. destruct IH as [<-|[? _]]; split; auto; lia.
Qed.

(** A set of states closed under transitions contains everything reachable
    from it. *)
Lemma rtc_job_step_closed (P : JobState → bool) s t :
  (∀ u v, P u = true → can_transition_to u v = true → P v = true) →
  rtc job_step s t → P s = true → P t = true.
Proof.
  intros Hclosed. induction 1 as [|s u t Hsu%job_step_iff _ IH]; eauto.
Qed.

(** along any sequence of accepted transitions a terminal state is never
    left: a completed, failed or cancelled job keeps that state forever. *)
Theorem terminal_absorbing s t : is_terminal s = true → rtc job_step s t → t = s.
Proof. intros Hs [<-|[_ Hn]]%rtc_job_step_stage; congruence. Qed.

Lemma terminal_absorbing_witness : rtc job_step Failed Failed ∧ Failed = Failed.
Proof. split; [constructor|]. apply (terminal_absorbing Failed Failed); [reflexivity|constructor]. Defined.

(** the life cycle has no loops: a sequence of accepted transitions that
    returns to its first state never left it. *)
Theorem job_lifecycle_acyclic s t : rtc job_step s t → rtc job_step t s → s = t.
Proof. intros [?|[? _]]%rtc_job_step_stage [?|[? _]]%rtc_job_step_stage; auto; lia. Qed.

Lemma job_lifecycle_acyclic_witness : Running = Running.
Proof. apply job_lifecycle_acyclic; constructor. Defined.

(** once outputs are being uploaded a job can only complete or fail; no
    sequence of transitions cancels it. *)
Theorem uploading_only_completes_or_fails t :
  rtc job_step Uploading t → t = Uploading ∨ t = Completed ∨ t = Failed.
Proof.
  intros H.
  assert (bool_decide (t = Uploading ∨ t = Completed ∨ t = Failed) = true) as Hb; [|by bool_cases].
  refine (rtc_job_step_closed
    (λ u, bool_decide (u = Uploading ∨ u = Completed ∨ u = Failed)) _ _ _ H eq_refl).
  by intros [] [].
Qed.

Lemma uploading_only_completes_or_fails_witness :
  Completed = Uploading ∨ Completed = Completed ∨ Completed = Failed.
Proof.
  apply uploading_only_completes_or_fails. apply rtc_once. by constructor.
Defined.

(** A transition that neither starts nor ends in [m]. *)
Definition step_avoiding (m s t : JobState) : Prop := job_step s t ∧ s ≠ m ∧ t ≠ m.

(** a queued job completes only by being received, accepted, run and
    uploaded: every path from [Queued] to [Completed] visits each of the four
    states. *)
Theorem completion_visits_every_stage m :
  m ∈ [Received; Accepted; Running; Uploading] → ¬ rtc (step_avoiding m) Queued Completed.
Proof.
  intros Hm Hpath.
  assert (H : ∀ s t, rtc (step_avoiding m) s t →
            (stage s < stage m ∨ s = Failed ∨ s = Cancelled) →
            (stage t < stage m ∨ t = Failed ∨ t = Cancelled)).
  { clear Hpath. intros s t. induction 1 as [|s u t (Hsu%job_step_iff & _ & Hne) _ IH]; [done|].
    intros Hs. apply IH. apply list_elem_of_In in Hm. simpl in Hm.
    destruct Hm as [<-|[<-|[<-|[<-|[]]]]]; destruct s, u; simpl in *;
      try discriminate; try congruence; auto; try lia; destruct Hs as [?|[?|?]]; try lia; discriminate. }
  apply list_elem_of_In in Hm. simpl in Hm.
  destruct (H _ _ Hpath) as [?|[?|?]]; [left| | |]; try discriminate;
    destruct Hm as [<-|[<-|[<-|[<-|[]]]]]; simpl in *; lia.
Qed.

Lemma completion_visits_every_stage_witness : ¬ rtc (step_avoiding Running) Queued Completed.
Proof. apply completion_visits_every_stage. set_solver. Defined.
