(* ===== verification/Journal.v ===== *)
(** The worker's durable job journal ([nagisalake-journal]).

    [Memory] is [memory.rs], [Sqlite] is [sqlite.rs] (each SQL statement as
    the table update it denotes, each transaction atomic), both on the shared
    rules of [state.rs].  [JournalOps] is the interface the runner uses.  The
    main results: every command preserves the replay invariant, an unconfirmed
    event is never lost, and the SQLite journal is observationally equal to
    the in-memory one. *)

From S2P Require Import Prelude Text Json Messages Core.
From Stdlib Require Import ZArith Lia.

(** ** Errors ([error.rs]) *)
Inductive JournalError :=
| InvalidUrl (url : string)
| Database
| Serialization
| NotFound (job_id : string)
| DispatchConflict (job_id : string)
| InvalidState (s : string)
| InvalidTransition (current next : JobState)
| StaleEventSequence (current received : Z).

(** ** Shared rules ([state.rs]) *)

Definition validate_event_sequence (current_sequence : Z) (pending_event : option JobEvent)
    (event : JobEvent) : Res JournalError unit :=
  if (je_sequence event <? current_sequence)%Z
     || ((je_sequence event =? current_sequence)%Z
         && negb (option_eqb JobEvent_eqb pending_event (Some event)))
  then Err (StaleEventSequence current_sequence (je_sequence event))
  else Ok tt.

Definition same_input (left right : JobInput) : bool :=
  String.eqb (ji_artifact_id left) (ji_artifact_id right)
  && String.eqb (ji_name left) (ji_name right)
  && String.eqb (ji_content_type left) (ji_content_type right)
  && Z.eqb (ji_size_bytes left) (ji_size_bytes right)
  && eq_ignore_ascii_case (ji_sha256 left) (ji_sha256 right).

Definition same_dispatch_identity (previous next : DispatchJob) : bool :=
  String.eqb (dj_job_id previous) (dj_job_id next)
  && Z.eqb (dj_attempt previous) (dj_attempt next)
  && String.eqb (dj_workflow_id previous) (dj_workflow_id next)
  && String.eqb (dj_workflow_version previous) (dj_workflow_version next)
  && json_eqb (dj_parameters previous) (dj_parameters next)
  && (length (dj_inputs previous) =? length (dj_inputs next))
  && forallb (λ p, same_input p.1 p.2) (zip (dj_inputs previous) (dj_inputs next)).

Definition state_str (s : JobState) : string :=
  match s with
  | Queued => "queued"
  | Received => "received"
  | Accepted => "accepted"
  | Running => "running"
  | Uploading => "uploading"
  | Completed => "completed"
  | Failed => "failed"
  | Cancelled => "cancelled"
  end.

Definition parse_state (value : string) : Res JournalError JobState :=
  if String.eqb value "queued" then Ok Queued
  else if String.eqb value "received" then Ok Received
  else if String.eqb value "accepted" then Ok Accepted
  else if String.eqb value "running" then Ok Running
  else if String.eqb value "uploading" then Ok Uploading
  else if String.eqb value "completed" then Ok Completed
  else if String.eqb value "failed" then Ok Failed
  else if String.eqb value "cancelled" then Ok Cancelled
  else Err (InvalidState value).

(** ** Requests and the journal interface *)

(** [UpsertDispatch], [SetJobState], [SetPromptId], [SetPendingEvent],
    [ClearPendingEvent]: the requests that write. *)
Inductive JournalCommand :=
| UpsertDispatch (d : DispatchJob)
| SetJobState (job_id : string) (state : JobState)
| SetPromptId (job_id prompt_id : string)
| SetPendingEvent (event : JobEvent) (state : option JobState)
| ClearPendingEvent (job_id : string) (sequence : Z).

Inductive JournalReply :=
| RRecord (r : JobRecord)
| RUnit.

(** A journal with its clock: [now] is the time the call reads. *)
Class JournalOps (J : Type) := {
  j_execute : JournalCommand → Z → J → Res JournalError JournalReply * J;
  j_get : string → J → Res JournalError (option JobRecord);
  j_list_unfinished : J → Res JournalError (list JobRecord);
}.

(** Replies of a command sequence, and the journal after it. *)
Fixpoint j_run {J} `{JournalOps J} (cmds : list (JournalCommand * Z)) (j : J)
    : list (Res JournalError JournalReply) * J :=
  match cmds with
  | [] => ([], j)
  | (c, now) :: rest =>
      let '(reply, j') := j_execute c now j in
      let '(replies, j'') := j_run rest j' in (reply :: replies, j'')
  end.

(** Record updates. *)
Definition with_dispatch (d : DispatchJob) (r : JobRecord) : JobRecord :=
  mkJobRecord d (jr_state r) (jr_prompt_id r) (jr_event_sequence r) (jr_pending_event r).
Definition with_prompt_id (p : string) (r : JobRecord) : JobRecord :=
  mkJobRecord (jr_dispatch r) (jr_state r) (Some p) (jr_event_sequence r) (jr_pending_event r).
Definition with_pending (e : JobEvent) (r : JobRecord) : JobRecord :=
  mkJobRecord (jr_dispatch r) (jr_state r) (jr_prompt_id r) (je_sequence e) (Some e).
Definition without_pending (r : JobRecord) : JobRecord :=
  mkJobRecord (jr_dispatch r) (jr_state r) (jr_prompt_id r) (jr_event_sequence r) None.

Definition unfinished (r : JobRecord) : bool :=
  negb (is_terminal (jr_state r)) || bool_decide (is_Some (jr_pending_event r)).

(** ** In-memory journal ([memory.rs]) *)
Module Memory.

Definition upsert (dispatch : DispatchJob) (records : gmap string JobRecord)
    : Res JournalError JobRecord * gmap string JobRecord :=
  match records !! dj_job_id dispatch with
  | Some record =>
      if negb (same_dispatch_identity (jr_dispatch record) dispatch)
      then (Err (DispatchConflict (dj_job_id dispatch)), records)
      else if negb (is_terminal (jr_state record))
      then let record' := with_dispatch dispatch record in
           (Ok record', <[dj_job_id dispatch := record']> records)
      else (Ok record, records)
  | None =>
      let record := JobRecord_received dispatch in
      (Ok record, <[dj_job_id (jr_dispatch record) := record]> records)
  end.

Definition set_state (job_id : string) (state : JobState) (records : gmap string JobRecord)
    : Res JournalError unit * gmap string JobRecord :=
  match records !! job_id with
  | None => (Err (NotFound job_id), records)
  | Some record =>
      if negb (can_transition_to (jr_state record) state)
      then (Err (InvalidTransition (jr_state record) state), records)
      else (Ok tt, <[job_id := with_state state record]> records)
  end.

Definition set_prompt_id (job_id prompt_id : string) (records : gmap string JobRecord)
    : Res JournalError unit * gmap string JobRecord :=
  match records !! job_id with
  | None => (Err (NotFound job_id), records)
  | Some record => (Ok tt, <[job_id := with_prompt_id prompt_id record]> records)
  end.

Definition set_pending_event (event : JobEvent) (state : option JobState)
    (records : gmap string JobRecord) : Res JournalError unit * gmap string JobRecord :=
  match records !! je_job_id event with
  | None => (Err (NotFound (je_job_id event)), records)
  | Some record =>
      match validate_event_sequence (jr_event_sequence record) (jr_pending_event record) event with
      | Err e => (Err e, records)
      | Ok _ =>
          match state with
          | Some state =>
              if negb (can_transition_to (jr_state record) state)
              then (Err (InvalidTransition (jr_state record) state), records)
              else (Ok tt,
                    <[je_job_id event := with_pending event (with_state state record)]> records)
          | None => (Ok tt, <[je_job_id event := with_pending event record]> records)
          end
      end
  end.

Definition clear_pending_event (job_id : string) (sequence : Z)
    (records : gmap string JobRecord) : Res JournalError unit * gmap string JobRecord :=
  match records !! job_id with
  | Some record =>
      if (jr_event_sequence record =? sequence)%Z
      then (Ok tt, <[job_id := without_pending record]> records)
      else (Ok tt, records)
  | None => (Ok tt, records)
  end.

Definition get_job (job_id : string) (records : gmap string JobRecord)
    : Res JournalError (option JobRecord) := Ok (records !! job_id).

Definition list_unfinished (records : gmap string JobRecord)
    : Res JournalError (list JobRecord) :=
  Ok (List.filter unfinished ((btree_iter records).*2)).

Definition unit_reply {A} (p : Res JournalError unit * A) : Res JournalError JournalReply * A :=
  (p.1 ;; Ok RUnit, p.2).

Definition execute (c : JournalCommand) (records : gmap string JobRecord)
    : Res JournalError JournalReply * gmap string JobRecord :=
  match c with
  | UpsertDispatch d =>
      let '(r, records') := upsert d records in (rec ← r; Ok (RRecord rec), records')
  | SetJobState job_id state => unit_reply (set_state job_id state records)
  | SetPromptId job_id prompt_id => unit_reply (set_prompt_id job_id prompt_id records)
  | SetPendingEvent event state => unit_reply (set_pending_event event state records)
  | ClearPendingEvent job_id sequence =>
      unit_reply (clear_pending_event job_id sequence records)
  end.

#[global] Instance memory_ops : JournalOps (gmap string JobRecord) := {|
  j_execute c _ records := execute c records;
  j_get := get_job;
  j_list_unfinished := list_unfinished;
|}.
End Memory.

(** ** SQLite journal ([sqlite.rs])

    The table [worker_jobs] is a map from its primary key to the other
    columns.  [Txt] is the serialized form, with the [serde_json] functions as
    parameters of the model. *)

Class SerdeJson (Txt : Type) := {
  dispatch_to_string : DispatchJob → option Txt;
  dispatch_from_str : Txt → option DispatchJob;
  event_to_string : JobEvent → option Txt;
  event_from_str : Txt → option JobEvent;
}.

Record Row (Txt : Type) := mkRow {
  row_dispatch_json : Txt;
  row_state : string;
  row_prompt_id : option string;
  row_event_sequence : Z;
  row_pending_event_json : option Txt;
  row_updated_at : Z;
}.
Arguments mkRow {Txt}.
Arguments row_dispatch_json {Txt}.
Arguments row_state {Txt}.
Arguments row_prompt_id {Txt}.
Arguments row_event_sequence {Txt}.
Arguments row_pending_event_json {Txt}.
Arguments row_updated_at {Txt}.

Module Sqlite.
Section sqlite.
Context {Txt : Type} `{SerdeJson Txt}.
Implicit Types (row : Row Txt) (db : gmap string (Row Txt)).

(** [decode]: the optional pending event of a row. *)
Definition decode_pending (o : option Txt) : Res JournalError (option JobEvent) :=
  match o with
  | Some payload => e ← ok_or Serialization (event_from_str payload); Ok (Some e)
  | None => Ok None
  end.

Record EventHead := mkEventHead {
  eh_state : JobState;
  eh_event_sequence : Z;
  eh_pending_event : option JobEvent;
}.

Definition decode_event_head row : Res JournalError EventHead :=
  state ← parse_state (row_state row);
  pending ← decode_pending (row_pending_event_json row);
  Ok (mkEventHead state (Z.max (row_event_sequence row) 0) pending).

Definition decode_job row : Res JournalError JobRecord :=
  dispatch ← ok_or Serialization (dispatch_from_str (row_dispatch_json row));
  state ← parse_state (row_state row);
  pending ← decode_pending (row_pending_event_json row);
  Ok (mkJobRecord dispatch state (row_prompt_id row)
        (Z.max (row_event_sequence row) 0) pending).

Definition ensure_updated (job_id : string) (rows_affected : Z) : Res JournalError unit :=
  if (rows_affected =? 0)%Z then Err (NotFound job_id) else Ok tt.

(** [UPDATE worker_jobs SET .. WHERE job_id = ?]: the table and the number
    of rows affected. *)
Definition update_where (job_id : string) (f : Row Txt → Row Txt) db
    : gmap string (Row Txt) * Z :=
  match db !! job_id with
  | Some row => (<[job_id := f row]> db, 1%Z)
  | None => (db, 0%Z)
  end.

Definition set_dispatch_json (payload : Txt) (now : Z) row : Row Txt :=
  mkRow payload (row_state row) (row_prompt_id row) (row_event_sequence row)
    (row_pending_event_json row) now.
Definition set_state_column (s : string) (now : Z) row : Row Txt :=
  mkRow (row_dispatch_json row) s (row_prompt_id row) (row_event_sequence row)
    (row_pending_event_json row) now.
Definition set_prompt_column (p : string) (now : Z) row : Row Txt :=
  mkRow (row_dispatch_json row) (row_state row) (Some p) (row_event_sequence row)
    (row_pending_event_json row) now.
Definition set_event_columns (sequence : Z) (payload : Txt) (now : Z) row : Row Txt :=
  mkRow (row_dispatch_json row) (row_state row) (row_prompt_id row) sequence
    (Some payload) now.
Definition clear_event_column (now : Z) row : Row Txt :=
  mkRow (row_dispatch_json row) (row_state row) (row_prompt_id row)
    (row_event_sequence row) None now.

Definition upsert (dispatch : DispatchJob) (now : Z) db
    : Res JournalError JobRecord * gmap string (Row Txt) :=
  match dispatch_to_string dispatch with
  | None => (Err Serialization, db)
  | Some payload =>
      match db !! dj_job_id dispatch with
      | Some row =>
          match decode_job row with
          | Err e => (Err e, db)
          | Ok record =>
              if negb (same_dispatch_identity (jr_dispatch record) dispatch)
              then (Err (DispatchConflict (dj_job_id dispatch)), db)
              else if negb (is_terminal (jr_state record))
              then (Ok (with_dispatch dispatch record),
                    (update_where (dj_job_id dispatch) (set_dispatch_json payload now) db).1)
              else (Ok record, db)
          end
      | None =>
          (Ok (JobRecord_received dispatch),
           <[dj_job_id dispatch := mkRow payload "received" None 0 None now]> db)
      end
  end.

Definition set_state (job_id : string) (state : JobState) (now : Z) db
    : Res JournalError unit * gmap string (Row Txt) :=
  match current ← ok_or (NotFound job_id) (row_state <$> db !! job_id);
        parse_state current with
  | Err e => (Err e, db)
  | Ok current =>
      if negb (can_transition_to current state)
      then (Err (InvalidTransition current state), db)
      else (Ok tt, (update_where job_id (set_state_column (state_str state) now) db).1)
  end.

Definition set_prompt_id (job_id prompt_id : string) (now : Z) db
    : Res JournalError unit * gmap string (Row Txt) :=
  let '(db', affected) := update_where job_id (set_prompt_column prompt_id now) db in
  (ensure_updated job_id affected, db').

Definition set_pending_event (event : JobEvent) (state : option JobState) (now : Z) db
    : Res JournalError unit * gmap string (Row Txt) :=
  match row ← ok_or (NotFound (je_job_id event)) (db !! je_job_id event);
        current ← decode_event_head row;
        validate_event_sequence (eh_event_sequence current) (eh_pending_event current) event ;;
        payload ← ok_or Serialization (event_to_string event);
        Ok (current, payload) with
  | Err e => (Err e, db)
  | Ok (current, payload) =>
      let sequence := u64_to_i64_saturating (je_sequence event) in
      match state with
      | Some state =>
          if negb (can_transition_to (eh_state current) state)
          then (Err (InvalidTransition (eh_state current) state), db)
          else
            let '(db', affected) :=
              update_where (je_job_id event)
                (λ row, set_event_columns sequence payload now
                          (set_state_column (state_str state) now row)) db in
            (ensure_updated (je_job_id event) affected, db')
      | None =>
          let '(db', affected) :=
            update_where (je_job_id event) (set_event_columns sequence payload now) db in
          (ensure_updated (je_job_id event) affected, db')
      end
  end.

(** [.. WHERE job_id = ? AND event_sequence = ?]. *)
Definition clear_pending_event (job_id : string) (sequence : Z) (now : Z) db
    : Res JournalError unit * gmap string (Row Txt) :=
  match db !! job_id with
  | Some row =>
      if (row_event_sequence row =? u64_to_i64_saturating sequence)%Z
      then (Ok tt, <[job_id := clear_event_column now row]> db)
      else (Ok tt, db)
  | None => (Ok tt, db)
  end.

Definition get_job (job_id : string) db : Res JournalError (option JobRecord) :=
  match db !! job_id with
  | Some row => r ← decode_job row; Ok (Some r)
  | None => Ok None
  end.

(** [state NOT IN ('completed','failed','cancelled') OR pending_event_json
    IS NOT NULL]. *)
Definition row_unfinished row : bool :=
  negb (bool_decide (row_state row ∈ ["completed"; "failed"; "cancelled"]))
  || bool_decide (is_Some (row_pending_event_json row)).

Definition older row row' : Prop := (row_updated_at row ≤ row_updated_at row')%Z.
#[global] Instance older_dec row row' : Decision (older row row').
Proof. unfold older. apply _. Defined.

Definition list_unfinished db : Res JournalError (list JobRecord) :=
  try_map decode_job
    (merge_sort older (List.filter row_unfinished ((map_to_list db).*2))).

Definition execute (c : JournalCommand) (now : Z) db
    : Res JournalError JournalReply * gmap string (Row Txt) :=
  match c with
  | UpsertDispatch d =>
      let '(r, db') := upsert d now db in (rec ← r; Ok (RRecord rec), db')
  | SetJobState job_id state => Memory.unit_reply (set_state job_id state now db)
  | SetPromptId job_id prompt_id => Memory.unit_reply (set_prompt_id job_id prompt_id now db)
  | SetPendingEvent event state => Memory.unit_reply (set_pending_event event state now db)
  | ClearPendingEvent job_id sequence =>
      Memory.unit_reply (clear_pending_event job_id sequence now db)
  end.

#[global] Instance sqlite_ops : JournalOps (gmap string (Row Txt)) := {|
  j_execute := execute;
  j_get := get_job;
  j_list_unfinished := list_unfinished;
|}.
End sqlite.
End Sqlite.

(** ** Replay invariant *)

(** A record lives under its job id and its pending event is the one its
    sequence number counts. *)
Definition record_wf (job_id : string) (r : JobRecord) : Prop :=
  dj_job_id (jr_dispatch r) = job_id
  ∧ ∀ e, jr_pending_event r = Some e →
      je_job_id e = job_id ∧ je_sequence e = jr_event_sequence r.

Definition journal_wf (m : gmap string JobRecord) : Prop := map_Forall record_wf m.

(** How one record may change over time. *)
Record evolves (r r' : JobRecord) : Prop := {
  ev_state : rtc job_step (jr_state r) (jr_state r');
  ev_sequence : (jr_event_sequence r ≤ jr_event_sequence r')%Z;
  ev_job : dj_job_id (jr_dispatch r') = dj_job_id (jr_dispatch r);
  ev_attempt : dj_attempt (jr_dispatch r') = dj_attempt (jr_dispatch r);
  ev_workflow : dj_workflow_id (jr_dispatch r') = dj_workflow_id (jr_dispatch r);
  ev_version : dj_workflow_version (jr_dispatch r') = dj_workflow_version (jr_dispatch r);
  ev_inputs : length (dj_inputs (jr_dispatch r')) = length (dj_inputs (jr_dispatch r));
}.

#[export] Instance evolves_preorder : PreOrder evolves.
Proof.
  split.
  - intros r. split; auto; lia || constructor.
  - intros r1 r2 r3 [] []. split; [by etrans|lia|congruence..].
Qed.

Lemma same_dispatch_identity_true d d' :
  same_dispatch_identity d d' = true →
  dj_job_id d' = dj_job_id d ∧ dj_attempt d' = dj_attempt d
  ∧ dj_workflow_id d' = dj_workflow_id d ∧ dj_workflow_version d' = dj_workflow_version d
  ∧ length (dj_inputs d') = length (dj_inputs d).
Proof.
  unfold same_dispatch_identity. intros H. bool_cases.
  repeat match goal with
  | H : String.eqb _ _ = true |- _ => apply String.eqb_eq in H
  | H : Z.eqb _ _ = true |- _ => apply Z.eqb_eq in H
  | H : Nat.eqb _ _ = true |- _ => apply Nat.eqb_eq in H
  end. auto.
Qed.

Lemma validate_event_sequence_Ok current pending e :
  validate_event_sequence current pending e = Ok tt ↔
  (current < je_sequence e)%Z
  ∨ (je_sequence e = current ∧ ∃ p, pending = Some p ∧ JobEvent_eqb p e = true).
Proof.
  unfold validate_event_sequence.
  destruct (Z.ltb_spec (je_sequence e) current); simpl.
  { split; [done|]. intros [?|[? _]]; lia. }
  destruct (Z.eqb_spec (je_sequence e) current) as [Heq|]; simpl.
  2: { split; [intros _; left; lia|done]. }
  destruct pending as [p|]; simpl.
  - destruct (JobEvent_eqb p e) eqn:Hp; simpl.
    + split; [eauto|done].
    + split; [done|]. intros [?|(_ & q & [= <-] & ?)]; [lia|congruence].
  - split; [done|]. intros [?|(_ & q & [=] & _)]; lia.
Qed.

(** What one in-memory command does to one record. *)
Inductive record_step (c : JournalCommand) (k : string) (r : JobRecord) : JobRecord → Prop :=
| step_same : record_step c k r r
| step_dispatch d :
    c = UpsertDispatch d → dj_job_id d = k →
    same_dispatch_identity (jr_dispatch r) d = true → is_terminal (jr_state r) = false →
    record_step c k r (with_dispatch d r)
| step_state s :
    c = SetJobState k s → can_transition_to (jr_state r) s = true →
    record_step c k r (with_state s r)
| step_prompt p : c = SetPromptId k p → record_step c k r (with_prompt_id p r)
| step_event e s :
    c = SetPendingEvent e s → je_job_id e = k →
    validate_event_sequence (jr_event_sequence r) (jr_pending_event r) e = Ok tt →
    can_transition_to (jr_state r) (default (jr_state r) s) = true →
    record_step c k r (with_pending e (with_state (default (jr_state r) s) r))
| step_clear :
    c = ClearPendingEvent k (jr_event_sequence r) → record_step c k r (without_pending r).

Lemma lookup_after {V} (k' : string) (v : V) (m : gmap string V) k r (P : V → Prop) :
  m !! k = Some r → P r → (k' = k → P v) → ∃ r', <[k' := v]> m !! k = Some r' ∧ P r'.
Proof.
  intros Hk Hr Hv. destruct (decide (k' = k)) as [->|Hne].
  - exists v. rewrite lookup_insert_eq. auto.
  - exists r. by rewrite lookup_insert_ne.
Qed.

Lemma execute_record_step c m k r :
  m !! k = Some r →
  ∃ r', (Memory.execute c m).2 !! k = Some r' ∧ record_step c k r r'.
Proof.
  intros Hk.
  assert (Hid : ∃ r', m !! k = Some r' ∧ record_step c k r r') by eauto using step_same.
  destruct c as [d|j s|j p|e s|j n]; simpl.
  - unfold Memory.upsert. destruct (m !! dj_job_id d) as [r0|] eqn:Hd; simpl.
    + destruct (same_dispatch_identity (jr_dispatch r0) d) eqn:Hs; simpl; [|done].
      destruct (is_terminal (jr_state r0)) eqn:Ht; simpl; [done|].
      apply lookup_after with (r := r); [done|apply step_same|]. intros <-.
      rewrite Hk in Hd. injection Hd as <-. by eapply step_dispatch.
    + apply lookup_after with (r := r); [done|apply step_same|]. intros <-. congruence.
  - unfold Memory.set_state. destruct (m !! j) as [r0|] eqn:Hj; simpl; [|done].
    destruct (can_transition_to (jr_state r0) s) eqn:Hc; simpl; [|done].
    apply lookup_after with (r := r); [done|apply step_same|]. intros <-.
    rewrite Hk in Hj. injection Hj as <-. by apply step_state.
  - unfold Memory.set_prompt_id. destruct (m !! j) as [r0|] eqn:Hj; simpl; [|done].
    apply lookup_after with (r := r); [done|apply step_same|]. intros <-.
    rewrite Hk in Hj. injection Hj as <-. by apply step_prompt.
  - unfold Memory.set_pending_event. destruct (m !! je_job_id e) as [r0|] eqn:Hj; simpl; [|done].
    destruct (validate_event_sequence _ _ _) as [[]|] eqn:Hv; simpl; [|done].
    destruct s as [s|]; simpl.
    + destruct (can_transition_to (jr_state r0) s) eqn:Hc; simpl; [|done].
      apply lookup_after with (r := r); [done|apply step_same|]. intros <-.
      rewrite Hk in Hj. injection Hj as <-. by apply (step_event _ _ _ e (Some s)).
    + apply lookup_after with (r := r); [done|apply step_same|]. intros <-.
      rewrite Hk in Hj. injection Hj as <-.
      replace (with_pending e r) with (with_pending e (with_state (default (jr_state r) None) r))
        by (by destruct r).
      apply (step_event _ _ _ e None); auto using can_transition_refl.
  - unfold Memory.clear_pending_event. destruct (m !! j) as [r0|] eqn:Hj; simpl; [|done].
    destruct (Z.eqb_spec (jr_event_sequence r0) n) as [<-|]; simpl; [|done].
    apply lookup_after with (r := r); [done|apply step_same|]. intros <-.
    rewrite Hk in Hj. injection Hj as <-. by apply step_clear.
Qed.

(** A key that appears was inserted by the dispatch of that very job. *)
Lemma execute_new_record c m k r :
  m !! k = None → (Memory.execute c m).2 !! k = Some r →
  ∃ d, c = UpsertDispatch d ∧ dj_job_id d = k ∧ r = JobRecord_received d.
Proof.
  intros Hk. destruct c as [d|j s|j p|e s|j n]; simpl.
  - unfold Memory.upsert. destruct (m !! dj_job_id d) as [r0|] eqn:Hd; simpl.
    + destruct (same_dispatch_identity _ _), (is_terminal _); simpl; try congruence.
      rewrite lookup_insert_ne by congruence. congruence.
    + rewrite lookup_insert. case_decide as Heq; [|congruence]. intros [= <-]. eauto.
  - unfold Memory.set_state. destruct (m !! j) eqn:Hj; simpl; [|congruence].
    destruct (can_transition_to _ _); simpl; [|congruence].
    rewrite lookup_insert_ne by congruence. congruence.
  - unfold Memory.set_prompt_id. destruct (m !! j) eqn:Hj; simpl; [|congruence].
    rewrite lookup_insert_ne by congruence. congruence.
  - unfold Memory.set_pending_event. destruct (m !! je_job_id e) eqn:Hj; simpl; [|congruence].
    destruct (validate_event_sequence _ _ _); simpl; [|congruence].
    destruct s; simpl; [destruct (can_transition_to _ _); simpl; [|congruence]|];
      rewrite lookup_insert_ne by congruence; congruence.
  - unfold Memory.clear_pending_event. destruct (m !! j) eqn:Hj; simpl; [|congruence].
    destruct (_ =? _)%Z; simpl; [|congruence].
    rewrite lookup_insert_ne by congruence. congruence.
Qed.

(** *** Preservation *)

Lemma record_step_evolves c k r r' : record_step c k r r' → evolves r r'.
Proof.
  destruct 1 as [|d _ _ Hs _|s _ Hc|p _|e s _ _ Hv Hc|_]; try reflexivity.
  - apply same_dispatch_identity_true in Hs as (? & ? & ? & ? & ?).
    split; simpl; auto; [constructor|lia].
  - split; simpl; auto; [by apply rtc_once, job_step_iff|lia].
  - split; simpl; auto; [constructor|lia].
  - apply validate_event_sequence_Ok in Hv.
    split; simpl; auto; [by apply rtc_once, job_step_iff|lia].
  - split; simpl; auto; [constructor|lia].
Qed.

Lemma record_step_wf c k r r' : record_step c k r r' → record_wf k r → record_wf k r'.
Proof.
  intros Hstep [Hid Hp]. destruct Hstep as [|d _ Hk Hs _| | |e s _ Hk _ _|]; split; simpl; auto.
  - by intros e' [= <-].
  - done.
Qed.

Lemma execute_wf c m : journal_wf m → journal_wf (Memory.execute c m).2.
Proof.
  intros Hwf k r' Hk'. destruct (m !! k) as [r|] eqn:Hk.
  - destruct (execute_record_step c m k r Hk) as (r'' & Hk'' & Hstep).
    rewrite Hk' in Hk''. injection Hk'' as <-. eapply record_step_wf; eauto.
  - destruct (execute_new_record c m k r' Hk Hk') as (d & _ & <- & ->). by split.
Qed.

Lemma run_wf cmds (m : gmap string JobRecord) : journal_wf m → journal_wf (j_run cmds m).2.
Proof.
  revert m; induction cmds as [|[c now] cmds IH]; intros m Hwf; simpl; [done|].
  pose proof (execute_wf c m Hwf) as Hwf'. destruct (Memory.execute c m) as [reply m'].
  specialize (IH m' Hwf'). by destruct (j_run cmds m').
Qed.

Lemma run_evolves cmds (m : gmap string JobRecord) k r :
  m !! k = Some r → ∃ r', (j_run cmds m).2 !! k = Some r' ∧ evolves r r'.
Proof.
  revert m r; induction cmds as [|[c now] cmds IH]; intros m r Hk; simpl.
  - exists r. by split; [|reflexivity].
  - destruct (execute_record_step c m k r Hk) as (r1 & Hk1 & Hs%record_step_evolves).
    destruct (Memory.execute c m) as [reply m']. simpl in Hk1.
    destruct (IH m' r1 Hk1) as (r2 & Hk2 & He). destruct (j_run cmds m') as [rs m'']. simpl in *.
    exists r2. split; [done|]. by etrans.
Qed.

(** whatever commands a journal executes, a job it holds is never dropped,
    moves only along the job state machine, never lowers its event sequence,
    and keeps the identity it was dispatched with (job, attempt, workflow and
    version, number of inputs); and each pending event is the one the record's
    sequence counts. *)
Theorem journal_history_sound cmds (m : gmap string JobRecord) k r :
  journal_wf m → m !! k = Some r →
  ∃ r', (j_run cmds m).2 !! k = Some r' ∧ evolves r r' ∧ record_wf k r'.
Proof.
  intros Hwf Hk. destruct (run_evolves cmds m k r Hk) as (r' & Hk' & He).
  exists r'. split_and!; auto. by apply (run_wf cmds m Hwf).
Qed.

(** *** Sample values *)
Definition sample_dispatch : DispatchJob :=
  mkDispatchJob "cmd-1" "job-1" 1 "portrait" "v1" (JObject [("seed", JNumber (PosInt 42))]) [].
Definition sample_event (seq : Z) (kind : JobEventKind) : JobEvent :=
  mkJobEvent "job-1" 1 seq kind (Some (S754_zero false)) None "" 1000.
Definition sample_journal : gmap string JobRecord :=
  {[ "job-1" := JobRecord_received sample_dispatch ]}.

Lemma sample_journal_wf : journal_wf sample_journal.
Proof. apply map_Forall_singleton. by split. Qed.

Lemma journal_history_sound_witness :
  ∃ r', (j_run [(SetPendingEvent (sample_event 1 EvAccepted) (Some Accepted), 5%Z);
                (ClearPendingEvent "job-1" 1, 6%Z)] sample_journal).2 !! "job-1" = Some r'
        ∧ evolves (JobRecord_received sample_dispatch) r' ∧ record_wf "job-1" r'.
Proof.
  apply (journal_history_sound _ sample_journal); [apply sample_journal_wf|reflexivity].
Defined.

(** *** The outbox *)

(** What may happen to an unconfirmed event [e] in one command. *)
Definition event_kept (c : JournalCommand) (k : string) (e : JobEvent) (r' : JobRecord) : Prop :=
  jr_pending_event r' = Some e
  ∨ c = ClearPendingEvent k (je_sequence e)
  ∨ ∃ e' s, c = SetPendingEvent e' s ∧ je_job_id e' = k ∧ jr_pending_event r' = Some e'
            ∧ ((je_sequence e < je_sequence e')%Z ∨ JobEvent_eqb e e' = true).

Lemma record_step_keeps_event c k r r' e :
  record_wf k r → jr_pending_event r = Some e → record_step c k r r' → event_kept c k e r'.
Proof.
  intros [_ Hp] He Hstep. destruct (Hp e He) as [_ Hseq].
  destruct Hstep as [| | | |e' s -> Hk Hv _|Hc]; simpl; try (by left).
  - right; right. exists e', s. split_and!; auto.
    rewrite He in Hv. apply validate_event_sequence_Ok in Hv.
    destruct Hv as [?|(_ & q & [= <-] & ?)]; [left; lia|by right].
  - right; left. congruence.
Qed.

Lemma pending_is_unfinished r e : jr_pending_event r = Some e → unfinished r = true.
Proof.
  intros He. unfold unfinished. rewrite He. rewrite (bool_decide_eq_true_2 (is_Some _)) by eauto.
  apply orb_true_r.
Qed.

Lemma list_unfinished_spec (m : gmap string JobRecord) r :
  (∃ l, j_list_unfinished m = Ok l ∧ r ∈ l)
  ↔ (∃ k, m !! k = Some r) ∧ unfinished r = true.
Proof.
  simpl. unfold Memory.list_unfinished. split.
  - intros (l & [= <-] & Hr). apply list_elem_of_In, filter_In in Hr as [Hr Hu].
    split; [|done]. apply list_elem_of_In, list_elem_of_fmap in Hr as ([k r0] & -> & Hk).
    exists k. by apply elem_of_btree_iter.
  - intros [[k Hk] Hu]. eexists; split; [done|].
    apply list_elem_of_In, filter_In. split; [|done].
    apply list_elem_of_In, list_elem_of_fmap. exists (k, r). split; [done|].
    by apply elem_of_btree_iter.
Qed.

(** an unconfirmed event is never lost: a command leaves it pending unless
    it is the confirmation of exactly that sequence number or stores a newer
    event of the same job, and while it is pending the job is in the recovery
    list, terminal or not. *)
Theorem pending_event_not_lost c (m : gmap string JobRecord) k r e :
  journal_wf m → m !! k = Some r → jr_pending_event r = Some e →
  ∃ r', (Memory.execute c m).2 !! k = Some r' ∧ event_kept c k e r'
        ∧ (∀ e', jr_pending_event r' = Some e' →
             ∃ l, j_list_unfinished (Memory.execute c m).2 = Ok l ∧ r' ∈ l).
Proof.
  intros Hwf Hk He. destruct (execute_record_step c m k r Hk) as (r' & Hk' & Hstep).
  exists r'. split_and!; [done|eapply record_step_keeps_event; eauto; by apply Hwf|].
  intros e' He'. apply list_unfinished_spec. eauto using pending_is_unfinished.
Qed.

Definition sample_pending : gmap string JobRecord :=
  (j_run [(SetPendingEvent (sample_event 1 EvAccepted) (Some Accepted), 5%Z)] sample_journal).2.

Lemma pending_event_not_lost_witness :
  ∃ r', (Memory.execute (ClearPendingEvent "job-1" 7) sample_pending).2 !! "job-1" = Some r'
        ∧ event_kept (ClearPendingEvent "job-1" 7) "job-1" (sample_event 1 EvAccepted) r'
        ∧ (∀ e', jr_pending_event r' = Some e' →
             ∃ l, j_list_unfinished (Memory.execute (ClearPendingEvent "job-1" 7) sample_pending).2
                  = Ok l ∧ r' ∈ l).
Proof.
  apply (pending_event_not_lost _ _ _
           (with_pending (sample_event 1 EvAccepted)
              (with_state Accepted (JobRecord_received sample_dispatch)))).
  - apply run_wf, sample_journal_wf.
  - reflexivity.
  - reflexivity.
Defined.

(** ** The SQLite journal implements the in-memory one *)

Lemma parse_state_str s : parse_state (state_str s) = Ok s.
Proof. by destruct s. Qed.

Lemma state_str_inj s t : state_str s = state_str t → s = t.
Proof.
  intros H. apply (f_equal parse_state) in H. rewrite !parse_state_str in H. congruence.
Qed.

Section refinement.
Context {Txt : Type} `{SerdeJson Txt}.
Implicit Types (row : Row Txt) (db : gmap string (Row Txt)) (m : gmap string JobRecord).

(** The serialized forms of the values a command carries read back as those
    values. *)
Definition dispatch_roundtrips (d : DispatchJob) : Prop :=
  ∃ t, dispatch_to_string d = Some t ∧ dispatch_from_str t = Some d.
Definition event_roundtrips (e : JobEvent) : Prop :=
  ∃ t, event_to_string e = Some t ∧ event_from_str t = Some e.

(** Sequences fit SQLite's 64-bit signed integer. *)
Definition storable (c : JournalCommand) : Prop :=
  match c with
  | UpsertDispatch d => dispatch_roundtrips d
  | SetPendingEvent e _ => event_roundtrips e ∧ (0 ≤ je_sequence e ≤ i64_max)%Z
  | ClearPendingEvent _ n => (0 ≤ n ≤ i64_max)%Z
  | _ => True
  end.

(** A row represents a record. *)
Definition row_repr row (r : JobRecord) : Prop :=
  Sqlite.decode_job row = Ok r ∧ row_event_sequence row = jr_event_sequence r
  ∧ row_state row = state_str (jr_state r)
  ∧ (is_Some (row_pending_event_json row) ↔ is_Some (jr_pending_event r)).

(** The table represents the map. *)
Definition table_repr db m : Prop :=
  ∀ k, match db !! k, m !! k with
       | Some row, Some r => row_repr row r
       | None, None => True
       | _, _ => False
       end.

Lemma table_repr_Some db m k row :
  table_repr db m → db !! k = Some row → ∃ r, m !! k = Some r ∧ row_repr row r.
Proof. intros Hr Hk. specialize (Hr k). rewrite Hk in Hr. destruct (m !! k); naive_solver. Qed.

Lemma table_repr_None db m k : table_repr db m → db !! k = None → m !! k = None.
Proof. intros Hr Hk. specialize (Hr k). rewrite Hk in Hr. by destruct (m !! k). Qed.

Lemma table_repr_insert db m k row r :
  table_repr db m → row_repr row r → table_repr (<[k := row]> db) (<[k := r]> m).
Proof.
  intros Hr Hrow k'. destruct (decide (k = k')) as [<-|Hne].
  - by rewrite !lookup_insert_eq.
  - rewrite !lookup_insert_ne by done. apply Hr.
Qed.

(** The parts of a decoded row. *)
Lemma decode_job_Ok row r :
  Sqlite.decode_job row = Ok r ↔
  dispatch_from_str (row_dispatch_json row) = Some (jr_dispatch r)
  ∧ parse_state (row_state row) = Ok (jr_state r)
  ∧ Sqlite.decode_pending (row_pending_event_json row) = Ok (jr_pending_event r)
  ∧ row_prompt_id row = jr_prompt_id r
  ∧ Z.max (row_event_sequence row) 0 = jr_event_sequence r.
Proof.
  unfold Sqlite.decode_job. split.
  - intros Hd. apply bind_Ok in Hd as (d & Hd%ok_or_Ok & Hr).
    apply bind_Ok in Hr as (s & Hs & Hr). apply bind_Ok in Hr as (p & Hp & [= <-]). auto.
  - intros (-> & -> & -> & -> & ->). by destruct r.
Qed.

Lemma decode_pending_Some payload e :
  event_from_str payload = Some e → Sqlite.decode_pending (Some payload) = Ok (Some e).
Proof. intros He. simpl. by rewrite He. Qed.

Lemma row_repr_head row r :
  row_repr row r →
  Sqlite.decode_event_head row
    = Ok (Sqlite.mkEventHead (jr_state r) (jr_event_sequence r) (jr_pending_event r)).
Proof.
  intros (Hd & _). apply decode_job_Ok in Hd as (_ & Hs & Hp & _ & Hq).
  unfold Sqlite.decode_event_head. rewrite Hs. simpl. rewrite Hp. simpl. by rewrite Hq.
Qed.

Ltac repr_row Hrow :=
  let Hd := fresh in
  destruct Hrow as (Hd & Hseq & Hst & Hpe);
  apply decode_job_Ok in Hd as (Hdd & Hds & Hdp & Hdq & Hdn);
  split_and!; simpl; auto;
  [apply decode_job_Ok; split_and!; simpl; auto using parse_state_str|..].

Lemma repr_dispatch row r d t now :
  row_repr row r → dispatch_from_str t = Some d →
  row_repr (Sqlite.set_dispatch_json t now row) (with_dispatch d r).
Proof. intros Hrow Ht. repr_row Hrow. Qed.

Lemma repr_state row r s now :
  row_repr row r → row_repr (Sqlite.set_state_column (state_str s) now row) (with_state s r).
Proof. intros Hrow. repr_row Hrow. Qed.

Lemma repr_prompt row r p now :
  row_repr row r → row_repr (Sqlite.set_prompt_column p now row) (with_prompt_id p r).
Proof. intros Hrow. repr_row Hrow. Qed.

Lemma repr_event row r e t now :
  row_repr row r → event_from_str t = Some e → (0 ≤ je_sequence e)%Z →
  row_repr (Sqlite.set_event_columns (je_sequence e) t now row) (with_pending e r).
Proof.
  intros Hrow Ht Hn. repr_row Hrow; [by rewrite Ht|lia|by split; eauto].
Qed.

Lemma repr_clear row r now :
  row_repr row r → row_repr (Sqlite.clear_event_column now row) (without_pending r).
Proof. intros Hrow. repr_row Hrow. split; intros []; done. Qed.

Lemma repr_received d t now :
  dispatch_from_str t = Some d →
  row_repr (mkRow t "received" None 0 None now) (JobRecord_received d).
Proof.
  intros Ht. split_and!; simpl; auto; [|by split; intros []].
  by apply decode_job_Ok.
Qed.

(** One command: same reply, related journals. *)
Lemma execute_simulates c now db m :
  storable c → table_repr db m →
  (Sqlite.execute c now db).1 = (Memory.execute c m).1
  ∧ table_repr (Sqlite.execute c now db).2 (Memory.execute c m).2.
Proof.
  intros Hc HR. destruct c as [d|j s|j p|e s|j n]; simpl in *.
  - destruct Hc as (t & Hto & Hfrom). unfold Sqlite.upsert, Memory.upsert. rewrite Hto.
    destruct (db !! dj_job_id d) as [row|] eqn:Hdb.
    + destruct (table_repr_Some _ _ _ _ HR Hdb) as (r & Hm & Hrow). rewrite Hm.
      rewrite (proj1 Hrow). destruct (same_dispatch_identity _ _); simpl; [|done].
      destruct (is_terminal _); simpl; [done|]. split; [done|].
      unfold Sqlite.update_where. rewrite Hdb. simpl.
      by apply table_repr_insert, repr_dispatch.
    + rewrite (table_repr_None _ _ _ HR Hdb). simpl. split; [done|].
      by apply table_repr_insert, repr_received.
  - unfold Sqlite.set_state, Memory.set_state.
    destruct (db !! j) as [row|] eqn:Hdb; simpl.
    + destruct (table_repr_Some _ _ _ _ HR Hdb) as (r & Hm & Hrow). rewrite Hm.
      destruct Hrow as (? & ? & Hst & ?). rewrite Hst, parse_state_str.
      destruct (can_transition_to _ _); simpl; [|done]. split; [done|].
      unfold Sqlite.update_where. rewrite Hdb. simpl.
      by apply table_repr_insert, repr_state.
    + by rewrite (table_repr_None _ _ _ HR Hdb).
  - unfold Sqlite.set_prompt_id, Memory.set_prompt_id, Sqlite.update_where.
    destruct (db !! j) as [row|] eqn:Hdb; simpl.
    + destruct (table_repr_Some _ _ _ _ HR Hdb) as (r & Hm & Hrow). rewrite Hm.
      split; [done|]. by apply table_repr_insert, repr_prompt.
    + by rewrite (table_repr_None _ _ _ HR Hdb).
  - destruct Hc as [(t & Hto & Hfrom) Hn].
    unfold Sqlite.set_pending_event, Memory.set_pending_event, Sqlite.update_where.
    destruct (db !! je_job_id e) as [row|] eqn:Hdb; simpl.
    + destruct (table_repr_Some _ _ _ _ HR Hdb) as (r & Hm & Hrow). rewrite Hm.
      rewrite (row_repr_head row r Hrow). simpl.
      destruct (validate_event_sequence _ _ _) as [[]|]; simpl; [|done].
      rewrite Hto, u64_to_i64_saturating_small by lia. simpl.
      destruct s as [s|]; simpl; [destruct (can_transition_to _ _); simpl; [|done]|];
        (split; [done|]); apply table_repr_insert, repr_event; auto using repr_state; lia.
    + by rewrite (table_repr_None _ _ _ HR Hdb).
  - unfold Sqlite.clear_pending_event, Memory.clear_pending_event.
    rewrite u64_to_i64_saturating_small by lia.
    destruct (db !! j) as [row|] eqn:Hdb; simpl.
    + destruct (table_repr_Some _ _ _ _ HR Hdb) as (r & Hm & Hrow). rewrite Hm.
      rewrite (proj1 (proj2 Hrow)). destruct (_ =? _)%Z; simpl; [|done].
      split; [done|]. by apply table_repr_insert, repr_clear.
    + by rewrite (table_repr_None _ _ _ HR Hdb).
Qed.

Lemma run_simulates cmds db m :
  Forall (λ c, storable c.1) cmds → table_repr db m →
  (j_run cmds db).1 = (j_run cmds m).1 ∧ table_repr (j_run cmds db).2 (j_run cmds m).2.
Proof.
  revert db m; induction cmds as [|[c now] cmds IH]; intros db m; simpl; [done|].
  rewrite Forall_cons. intros [Hc Hcs] HR.
  destruct (execute_simulates c now db m Hc HR) as [Hreply HR'].
  destruct (Sqlite.execute c now db) as [r1 db'], (Memory.execute c m) as [r2 m'].
  simpl in *. subst r2. destruct (IH db' m' Hcs HR') as [Hrs HR''].
  destruct (j_run cmds db') as [rs1 db''], (j_run cmds m') as [rs2 m'']. simpl in *.
  by subst.
Qed.

Lemma get_simulates db m k : table_repr db m → j_get k db = j_get k m.
Proof.
  intros HR. simpl. unfold Sqlite.get_job, Memory.get_job.
  destruct (db !! k) as [row|] eqn:Hdb.
  - destruct (table_repr_Some _ _ _ _ HR Hdb) as (r & -> & Hrow). by rewrite (proj1 Hrow).
  - by rewrite (table_repr_None _ _ _ HR Hdb).
Qed.

Lemma row_unfinished_repr row r : row_repr row r → Sqlite.row_unfinished row = unfinished r.
Proof.
  intros (_ & _ & Hst & Hpe). unfold Sqlite.row_unfinished, unfinished. rewrite Hst. f_equal.
  - f_equal. by destruct (jr_state r).
  - by apply bool_decide_ext.
Qed.

(** Rows and records in the enumeration order of the table. *)
Lemma table_repr_values db m :
  table_repr db m →
  ∃ l, Forall2 row_repr ((map_to_list db).*2) l ∧ l ≡ₚ (map_to_list m).*2.
Proof.
  revert m. induction db as [|k row db Hk Hfst IH] using map_first_key_ind; intros m HR.
  - exists []. rewrite map_to_list_empty. split; [constructor|].
    replace m with (∅ : gmap string JobRecord); [by rewrite map_to_list_empty|].
    symmetry. apply map_empty. intros k. by eapply table_repr_None.
  - destruct (table_repr_Some _ _ k row HR) as (r & Hm & Hrow); [apply lookup_insert_eq|].
    destruct (IH (delete k m)) as (l & Hl & Hperm).
    { intros k'. destruct (decide (k = k')) as [<-|Hne].
      - by rewrite Hk, lookup_delete_eq.
      - specialize (HR k'). rewrite lookup_insert_ne in HR by done. by rewrite lookup_delete_ne. }
    exists (r :: l). rewrite map_to_list_insert_first_key by done. simpl. split; [by constructor|].
    rewrite <- (insert_id m k r) by done. rewrite <- insert_delete_eq.
    rewrite map_to_list_insert by apply lookup_delete_eq. simpl. by rewrite Hperm.
Qed.

Lemma list_simulates db m :
  table_repr db m →
  ∃ l1 l2, j_list_unfinished db = Ok l1 ∧ j_list_unfinished m = Ok l2 ∧ l1 ≡ₚ l2.
Proof.
  intros HR. destruct (table_repr_values db m HR) as (l & Hl & Hperm).
  assert (Hf : Forall2 row_repr (List.filter Sqlite.row_unfinished ((map_to_list db).*2))
                 (List.filter unfinished l)).
  { clear HR Hperm. induction Hl as [|row r rows l Hrow _ IH]; simpl; [constructor|].
    rewrite (row_unfinished_repr row r Hrow). destruct (unfinished r); [by constructor|done]. }
  pose proof (merge_sort_Permutation Sqlite.older
    (List.filter Sqlite.row_unfinished ((map_to_list db).*2))) as Hsort.
  symmetry in Hsort. destruct (Permutation_Forall2 Hsort Hf) as (l1 & Hp1 & Hl1).
  exists l1. eexists. split_and!; [|done|].
  - simpl. unfold Sqlite.list_unfinished. apply try_map_Ok.
    eapply Forall2_impl; [exact Hl1|]. by intros row r [? _].
  - rewrite <- Hp1. apply filter_bool_perm. by rewrite Hperm, btree_iter_perm.
Qed.
End refinement.

(** C34: started on a table and a map that represent the same jobs, the SQLite
    and the in-memory journal answer every command sequence with the same
    replies, errors included, and afterwards agree on every job and on the
    recovery list up to order, provided the values carried survive their JSON
    text and sequences fit SQLite's 64-bit column. *)
Theorem sqlite_refines_memory {Txt} `{SerdeJson Txt} cmds
    (db : gmap string (Row Txt)) (m : gmap string JobRecord) :
  Forall (λ c, storable c.1) cmds → table_repr db m →
  (j_run cmds db).1 = (j_run cmds m).1
  ∧ (∀ k, j_get k (j_run cmds db).2 = j_get k (j_run cmds m).2)
  ∧ ∃ l1 l2, j_list_unfinished (j_run cmds db).2 = Ok l1
             ∧ j_list_unfinished (j_run cmds m).2 = Ok l2 ∧ l1 ≡ₚ l2.
Proof.
  intros Hcmds HR. destruct (run_simulates cmds db m Hcmds HR) as [Hreplies HR'].
  split_and!; [done|by intros k; apply get_simulates|by apply list_simulates].
Qed.

(** A serialization whose text is the value itself. *)
#[global] Instance plain_serde : SerdeJson (DispatchJob + JobEvent) := {|
  dispatch_to_string d := Some (inl d);
  dispatch_from_str t := match t with inl d => Some d | inr _ => None end;
  event_to_string e := Some (inr e);
  event_from_str t := match t with inr e => Some e | inl _ => None end;
|}.

Definition sample_commands : list (JournalCommand * Z) :=
  [(UpsertDispatch sample_dispatch, 1%Z);
   (SetPendingEvent (sample_event 1 EvAccepted) (Some Accepted), 2%Z);
   (ClearPendingEvent "job-1" 1, 3%Z);
   (SetJobState "job-1" Completed, 4%Z)].

Lemma sqlite_refines_memory_witness :
  (j_run sample_commands (∅ : gmap string (Row (DispatchJob + JobEvent)))).1
  = (j_run sample_commands (∅ : gmap string JobRecord)).1
  ∧ (∀ k, j_get k (j_run sample_commands (∅ : gmap string (Row (DispatchJob + JobEvent)))).2
          = j_get k (j_run sample_commands (∅ : gmap string JobRecord)).2)
  ∧ ∃ l1 l2,
      j_list_unfinished (j_run sample_commands (∅ : gmap string (Row (DispatchJob + JobEvent)))).2
      = Ok l1
      ∧ j_list_unfinished (j_run sample_commands (∅ : gmap string JobRecord)).2 = Ok l2
      ∧ l1 ≡ₚ l2.
Proof.
  apply (sqlite_refines_memory sample_commands).
  - unfold sample_commands. rewrite !Forall_cons, Forall_nil. simpl. unfold i64_max.
    split_and!; try lia; try done; by eexists.
  - intros k. by rewrite !lookup_empty.
Defined.

(** the names the journal stores for states are read back as the same
    states, and nothing else is accepted. *)
Theorem state_str_parse_state v s : parse_state v = Ok s ↔ v = state_str s.
Proof.
  split; [|intros ->; apply parse_state_str].
  unfold parse_state. repeat case_match; try discriminate; intros [= <-];
    match goal with H : String.eqb v _ = true |- _ => by apply String.eqb_eq in H end.
Qed.
