(* ===== verification/Pointer.v ===== *)
(** JSON-pointer helpers of the workflow crate ([nagisalake-workflow/src/pointer.rs])
    and the workflow errors ([error.rs]).

    Main results: escaping a segment and decoding it gives the segment back;
    the textual overlap test separates two pointers exactly as their decoded
    reference tokens do, on pointers whose segments are canonically escaped. *)

From S2P Require Import Prelude Text Json.
From Stdlib Require Import ZArith Lia Ascii.

(** ** Errors *)
Inductive WorkflowError :=
| EmptyCatalog
| ReadTemplate (path : string)
| ParseTemplate (path : string)
| TemplateMustBeObject (id : string)
| InvalidUiWorkflow (m : string)
| Required (field : string)
| InvalidPointer (p : string)
| DuplicateInputIndex (i : nat)
| DuplicatePublicInput (name : string)
| OverlappingPointers (first second : string)
| NonContiguousInputs
| DuplicateWorkflow (id version : string)
| NotInstalled (id version : string)
| ParametersMustBeObject
| UnknownParameter (name : string)
| InputCount (expected actual : nat).

(** ** Segments *)

Definition unescape_pointer_segment (segment : string) : string :=
  str_replace "~0" "~" (str_replace "~1" "/" segment).

Definition escape_pointer_segment (segment : string) : string :=
  str_replace "/" "~1" (str_replace "~" "~0" segment).

Definition pointer_segments (pointer : string) : list string :=
  unescape_pointer_segment <$> drop 1 (split_char "/" pointer).

Definition pointer_node_id (pointer : string) : option string :=
  head (pointer_segments pointer).

Definition pointer_field (pointer : string) : option string :=
  let segments := pointer_segments pointer in
  if (3 <=? length segments) && bool_decide (segments !! 1 = Some "inputs")
  then segments !! 2 else None.

(** ** Validation and overlap *)

Definition validate_pointer `{JsonPointer} (template : Json) (pointer : string)
    : Res WorkflowError unit :=
  if negb (starts_with "/" pointer) || bool_decide (json_pointer template pointer = None)
  then Err (InvalidPointer pointer) else Ok tt.

Definition pointers_overlap (left right : string) : bool :=
  String.eqb left right
  || (starts_with left right
      && bool_decide (byte_at (str_len left) right = Some "/"%char))
  || (starts_with right left
      && bool_decide (byte_at (str_len right) left = Some "/"%char)).

(** [pointers] after the push. *)
Definition insert_pointer (pointers : list string) (pointer : string)
    : Res WorkflowError (list string) :=
  match List.find (λ existing, pointers_overlap existing pointer) pointers with
  | Some existing => Err (OverlappingPointers existing pointer)
  | None => Ok (pointers ++ [pointer])
  end.

(** ** Escaping round trip *)

(** One pass of the two replacements of [escape_pointer_segment]. *)
Fixpoint escape_chars (s : string) : string :=
  match s with
  | EmptyString => EmptyString
  | String a s' =>
      if Ascii.eqb a "~" then "~0" +:+ escape_chars s'
      else if Ascii.eqb a "/" then "~1" +:+ escape_chars s'
      else String a (escape_chars s')
  end.

(** The text after the first decoding pass. *)
Fixpoint escape_tildes (s : string) : string :=
  match s with
  | EmptyString => EmptyString
  | String a s' =>
      if Ascii.eqb a "~" then "~0" +:+ escape_tildes s' else String a (escape_tildes s')
  end.

Lemma prefix1 c a s : String.prefix (String c "") (String a s) = Ascii.eqb a c.
Proof.
  simpl. destruct (ascii_dec c a) as [->|Hne]; [by rewrite Ascii.eqb_refl; destruct s|].
  symmetry. apply Ascii.eqb_neq. congruence.
Qed.

Lemma prefix2_ne c d a s : a ≠ c → String.prefix (String c (String d "")) (String a s) = false.
Proof. intros Hne. simpl. destruct (ascii_dec c a); [congruence|done]. Qed.

Lemma replace_step pat rep a s :
  String.prefix pat (String a s) = false →
  str_replace pat rep (String a s) = String a (str_replace pat rep s).
Proof. intros Hp. unfold str_replace. cbn [replace_from]. by rewrite Hp. Qed.

Lemma replace_hit2 c d rep s :
  str_replace (String c (String d "")) rep (String c (String d s))
  = rep +:+ str_replace (String c (String d "")) rep s.
Proof.
  unfold str_replace. cbn [replace_from].
  assert (String.prefix (String c (String d "")) (String c (String d s)) = true) as ->; [|done].
  apply prefix_app. by exists s.
Qed.

Lemma replace_hit1 c rep s :
  str_replace (String c "") rep (String c s) = rep +:+ str_replace (String c "") rep s.
Proof. unfold str_replace. cbn [replace_from]. by rewrite prefix1, Ascii.eqb_refl. Qed.

Lemma escape_first_pass s : str_replace "~" "~0" s = escape_tildes s.
Proof.
  induction s as [|a s IH]; [done|]. cbn [escape_tildes].
  destruct (Ascii.eqb_spec a "~") as [->|Hne].
  - by rewrite replace_hit1, IH.
  - rewrite replace_step, IH; [done|]. rewrite prefix1. by apply Ascii.eqb_neq.
Qed.

Lemma escape_second_pass s : str_replace "/" "~1" (escape_tildes s) = escape_chars s.
Proof.
  induction s as [|a s IH]; [done|]. cbn [escape_tildes escape_chars].
  destruct (Ascii.eqb_spec a "~") as [->|Ht].
  - rewrite !app_String, !app_empty_l. by rewrite !replace_step, IH by done.
  - destruct (Ascii.eqb_spec a "/") as [->|Hs].
    + by rewrite replace_hit1, IH.
    + rewrite replace_step, IH; [done|]. rewrite prefix1. by apply Ascii.eqb_neq.
Qed.

Lemma unescape_first_pass s : str_replace "~1" "/" (escape_chars s) = escape_tildes s.
Proof.
  induction s as [|a s IH]; [done|]. cbn [escape_tildes escape_chars].
  destruct (Ascii.eqb_spec a "~") as [->|Ht].
  - rewrite !app_String, !app_empty_l. by rewrite !replace_step, IH by done.
  - destruct (Ascii.eqb_spec a "/") as [->|Hs].
    + rewrite !app_String, !app_empty_l. by rewrite replace_hit2, IH.
    + by rewrite replace_step, IH by (by apply prefix2_ne).
Qed.

Lemma unescape_second_pass s : str_replace "~0" "~" (escape_tildes s) = s.
Proof.
  induction s as [|a s IH]; [done|]. cbn [escape_tildes].
  destruct (Ascii.eqb_spec a "~") as [->|Ht].
  - rewrite !app_String, !app_empty_l. by rewrite replace_hit2, IH.
  - by rewrite replace_step, IH by (by apply prefix2_ne).
Qed.

Lemma escape_chars_spec s : escape_pointer_segment s = escape_chars s.
Proof. unfold escape_pointer_segment. by rewrite escape_first_pass, escape_second_pass. Qed.

Lemma unescape_escape s : unescape_pointer_segment (escape_pointer_segment s) = s.
Proof.
  unfold unescape_pointer_segment.
  by rewrite escape_chars_spec, unescape_first_pass, unescape_second_pass.
Qed.

(** An escaped segment holds no separator. *)
Lemma escape_chars_no_slash s : str_all (λ a, negb (Ascii.eqb a "/")) (escape_chars s) = true.
Proof.
  induction s as [|a s IH]; [done|]. cbn [escape_chars].
  destruct (Ascii.eqb a "~"); [by rewrite str_all_app, IH|].
  destruct (Ascii.eqb a "/") eqn:Hs; [by rewrite str_all_app, IH|].
  simpl. by rewrite Hs, IH.
Qed.

(** ** Splitting *)

Lemma split_char_prefix c p q :
  split_char c p `prefix_of` split_char c q → q = p ∨ ∃ t, q = p +:+ String c t.
Proof.
  revert q; induction p as [|a p IH]; intros q; simpl.
  - intros [k Hk]. destruct q as [|b q]; [by left|]. simpl in Hk.
    destruct (Ascii.eqb_spec b c) as [->|]; [right; by exists q|].
    destruct (split_char c q); discriminate.
  - destruct (Ascii.eqb_spec a c) as [->|Hac]; intros [k Hk]; destruct q as [|b q]; simpl in Hk.
    + destruct (split_char c p) eqn:Hp; [by apply split_char_nonempty in Hp|discriminate].
    + destruct (Ascii.eqb_spec b c) as [->|].
      * injection Hk as Hk. destruct (IH q) as [->|[t ->]]; [by exists k|by left|].
        right. by exists t.
      * destruct (split_char c q); discriminate.
    + destruct (split_char c p); discriminate.
    + destruct (Ascii.eqb_spec b c) as [->|].
      * destruct (split_char c p); discriminate.
      * destruct (split_char c p) as [|h ps] eqn:Hp; [by apply split_char_nonempty in Hp|].
        destruct (split_char c q) as [|h' qs] eqn:Hq; [by apply split_char_nonempty in Hq|].
        injection Hk as -> -> Hk. destruct (IH q) as [->|[t ->]].
        { exists k. rewrite Hq. by rewrite Hk. }
        { by left. } { right. by exists t. }
Qed.

(** ** Overlap *)

(** A segment in the form [escape_pointer_segment] produces. *)
Definition canonical_segment (s : string) : Prop :=
  escape_pointer_segment (unescape_pointer_segment s) = s.

Definition canonical_pointer (p : string) : Prop :=
  starts_with "/" p = true ∧ Forall canonical_segment (drop 1 (split_char "/" p)).

Lemma split_of_pointer p :
  starts_with "/" p = true → split_char "/" p = "" :: drop 1 (split_char "/" p).
Proof.
  intros [t ->]%prefix_app. by rewrite app_String, app_empty_l.
Qed.

Lemma canonical_segments_inj p :
  Forall canonical_segment p → escape_pointer_segment <$> (unescape_pointer_segment <$> p) = p.
Proof. induction 1 as [|s p Hs _ IH]; [done|]. by rewrite !fmap_cons, IH, Hs. Qed.

Lemma tokens_prefix_text p q :
  canonical_pointer p → canonical_pointer q →
  reference_tokens p `prefix_of` reference_tokens q → q = p ∨ ∃ t, q = p +:+ String "/" t.
Proof.
  intros [Hp Hcp] [Hq Hcq] [k Hk]. apply split_char_prefix.
  rewrite (split_of_pointer p Hp), (split_of_pointer q Hq).
  exists (escape_pointer_segment <$> k).
  rewrite <- (canonical_segments_inj _ Hcq) at 1. rewrite <- (canonical_segments_inj _ Hcp).
  change (unescape_pointer_segment <$> drop 1 (split_char "/" q)) with (reference_tokens q).
  by rewrite Hk, fmap_app.
Qed.

Lemma text_prefix_overlap p t : pointers_overlap p (p +:+ String "/" t) = true.
Proof.
  unfold pointers_overlap, starts_with. apply orb_true_iff; left. apply orb_true_iff; right.
  apply andb_true_iff; split; [apply prefix_app; eauto|].
  rewrite byte_at_app. by apply bool_decide_eq_true_2.
Qed.

Lemma pointers_overlap_sym p q : pointers_overlap p q = pointers_overlap q p.
Proof.
  unfold pointers_overlap. rewrite String.eqb_sym, <- !orb_assoc. f_equal. apply orb_comm.
Qed.

Lemma pointers_overlap_refl p : pointers_overlap p p = true.
Proof. unfold pointers_overlap. by rewrite String.eqb_refl. Qed.

Lemma no_overlap_apart p q :
  canonical_pointer p → canonical_pointer q → pointers_overlap p q = false →
  tokens_apart (reference_tokens p) (reference_tokens q).
Proof.
  intros Hp Hq Hno. split; intros Hpre.
  - apply tokens_prefix_text in Hpre as [->|[t ->]]; auto.
    + by rewrite pointers_overlap_refl in Hno.
    + by rewrite text_prefix_overlap in Hno.
  - apply tokens_prefix_text in Hpre as [->|[t ->]]; auto.
    + by rewrite pointers_overlap_refl in Hno.
    + by rewrite pointers_overlap_sym, text_prefix_overlap in Hno.
Qed.
