(* ===== verification/Normalize.v ===== *)
(** Normalization of ComfyUI editor graphs ([nagisalake-workflow/src/normalize.rs]).

    [normalize_workflow] is the whole conversion: link table, nodes, inputs,
    widget values, metadata and warnings, with its loops as folds over the
    node and input arrays.  The lemmas say what a widget lookup returns, and
    that the pointer recorded for an input addresses that node and input. *)

From S2P Require Import Prelude Text Json Pointer.
From Stdlib Require Import ZArith Lia Ascii.

Record UiInputMetadata := mkUiInputMetadata {
  ui_input_type : string;
  ui_node_type : string;
}.

Record NormalizedWorkflow := mkNormalizedWorkflow {
  nw_template : Json;
  nw_ui_inputs : gmap string UiInputMetadata;
  nw_warnings : list string;
}.

(** [NormalizedWorkflow { template, ..Default::default() }]. *)
Definition normalized_default (template : Json) : NormalizedWorkflow :=
  mkNormalizedWorkflow template ∅ [].

(** ** Parts of a node *)

Definition node_id (node : Json) : Res WorkflowError string :=
  match json_get "id" node ≫= as_u64 with
  | Some id => Ok (pretty id)
  | None =>
      ok_or (InvalidUiWorkflow "node id is required")
        (s ← json_get "id" node ≫= as_str; if is_blank s then None else Some s)
  end.

(** A required non-blank string member. *)
Definition nonblank_member (key : string) (j : Json) : option string :=
  s ← json_get key j ≫= as_str; if is_blank s then None else Some s.

Definition widget_value_matches_type (value : Json) (input_type : string) : bool :=
  let t := to_ascii_uppercase input_type in
  if String.eqb t "INT" then bool_decide (is_Some (as_i64 value)) || bool_decide (is_Some (as_u64 value))
  else if String.eqb t "FLOAT" then is_number value
  else if String.eqb t "BOOLEAN" then is_boolean value
  else if String.eqb t "STRING" || String.eqb t "COMBO" then is_string value
  else true.

Definition node_input (node_id name : string) : string :=
  "node " +:+ node_id +:+ " input " +:+ name.

(** The value, the next array index and the warnings. *)
Definition next_widget_value `{JsonPointer} (node_id input_name input_type : string)
    (input : Json) (widgets : option Json) (array_index : nat) (warnings : list string)
    : option Json * nat * list string :=
  let finish (r : option Json * nat * list string) : option Json * nat * list string :=
    let '(value, index, warnings) := r in
    match value with
    | Some _ => r
    | None => (value, index, warnings ++
        [node_input node_id input_name +:+ " has no corresponding widgets_values entry"])
    end in
  match widgets with
  | Some (JObject values) =>
      let widget_name := default input_name (json_pointer input "/widget/name" ≫= as_str) in
      finish (option_or (obj_get widget_name values) (obj_get input_name values),
              array_index, warnings)
  | Some (JArray values) =>
      match position (λ value, widget_value_matches_type value input_type)
              (drop array_index values) with
      | None =>
          (None, array_index, warnings ++
             [node_input node_id input_name +:+ " has no type-compatible widgets_values entry"])
      | Some relative_index =>
          let warnings := if 0 <? relative_index
            then warnings ++ [node_input node_id input_name +:+ " skipped "
                   +:+ pretty relative_index +:+ " auxiliary widgets_values entries"]
            else warnings in
          let index := array_index + relative_index in
          finish (values !! index, index + 1, warnings)
      end
  | Some _ =>
      finish (None, array_index, warnings ++
        [node_input node_id input_name +:+ " has unsupported widgets_values shape"])
  | None => finish (None, array_index, warnings)
  end.

(** ** Links *)

Definition add_link (links : gmap Z (Z * Z)) (link : Json) : Res WorkflowError (gmap Z (Z * Z)) :=
  values ← ok_or (InvalidUiWorkflow "link must be an array") (as_array link);
  reject_if (length values <? 5)
    (InvalidUiWorkflow "link must contain id, origin node, and origin slot") ;;
  Ok (match values !! 0 ≫= as_u64, values !! 1 ≫= as_u64, values !! 2 ≫= as_u64 with
      | Some link_id, Some origin_node, Some origin_slot =>
          <[link_id := (origin_node, origin_slot)]> links
      | _, _, _ => links
      end).

(** ** Inputs of a node *)

(** The pointer of an input in the converted template. *)
Definition ui_pointer (node_id name : string) : string :=
  "/" +:+ escape_pointer_segment node_id +:+ "/inputs/" +:+ escape_pointer_segment name.

Record InputState := mkInputState {
  is_inputs : list (string * Json);
  is_ui : gmap string UiInputMetadata;
  is_widget_index : nat;
  is_warnings : list string;
}.

Definition add_input `{JsonPointer} (links : gmap Z (Z * Z)) (node_id node_type : string)
    (widgets : option Json) (st : InputState) (input : Json) : Res WorkflowError InputState :=
  name ← ok_or (InvalidUiWorkflow "node input name is required") (nonblank_member "name" input);
  let input_type := default "UNKNOWN" (json_get "type" input ≫= as_str) in
  let ui := <[ui_pointer node_id name := mkUiInputMetadata input_type node_type]> (is_ui st) in
  match json_get "link" input ≫= as_u64 with
  | Some link_id =>
      match links !! link_id with
      | None =>
          Ok (mkInputState (is_inputs st) ui (is_widget_index st)
                (is_warnings st ++ [node_input node_id name +:+ " references unknown link "
                                    +:+ pretty link_id]))
      | Some (origin_node, origin_slot) =>
          Ok (mkInputState
                (obj_insert name (JArray [JString (pretty origin_node);
                                          JNumber (PosInt origin_slot)]) (is_inputs st))
                ui (is_widget_index st) (is_warnings st))
      end
  | None =>
      if bool_decide (is_Some (json_get "widget" input)) then
        let '(value, index, warnings) :=
          next_widget_value node_id name input_type input widgets
            (is_widget_index st) (is_warnings st) in
        Ok (mkInputState (obj_insert name (default JNull value) (is_inputs st)) ui index warnings)
      else
        Ok (mkInputState (obj_insert name JNull (is_inputs st)) ui (is_widget_index st)
              (is_warnings st ++ [node_input node_id name
                 +:+ " is unlinked and has no static widget default"]))
  end.

(** ** Nodes *)

Record NodeState := mkNodeState {
  ns_template : list (string * Json);
  ns_ui : gmap string UiInputMetadata;
  ns_warnings : list string;
}.

(** [json!({"class_type": .., "inputs": ..})]. *)
Definition node_object (node_type : string) (inputs : list (string * Json)) : Json :=
  JObject [("class_type", JString node_type); ("inputs", JObject inputs)].

Definition add_node `{JsonPointer} (links : gmap Z (Z * Z)) (st : NodeState) (node : Json)
    : Res WorkflowError NodeState :=
  nid ← node_id node;
  node_type ← ok_or (InvalidUiWorkflow "node type is required") (nonblank_member "type" node);
  inner ← try_fold (add_input links nid node_type (json_get "widgets_values" node))
            (mkInputState [] (ns_ui st) 0 (ns_warnings st))
            (json_array_or_empty "inputs" node);
  Ok (mkNodeState (obj_insert nid (node_object node_type (is_inputs inner)) (ns_template st))
        (is_ui inner) (is_warnings inner)).

Definition conversion_warning : string :=
  "workflow was converted from ComfyUI editor format; verify widget defaults and exposed bindings".

Definition normalize_workflow `{JsonPointer} (raw : Json) : Res WorkflowError NormalizedWorkflow :=
  match json_get "nodes" raw with
  | None => Ok (normalized_default raw)
  | Some nodes_value =>
      nodes ← ok_or (InvalidUiWorkflow "nodes must be an array") (as_array nodes_value);
      links ← try_fold add_link ∅ (json_array_or_empty "links" raw);
      st ← try_fold (add_node links) (mkNodeState [] ∅ [conversion_warning]) nodes;
      reject_if (bool_decide (nodes = []))
        (InvalidUiWorkflow "nodes must contain at least one node") ;;
      Ok (mkNormalizedWorkflow (JObject (ns_template st)) (ns_ui st) (ns_warnings st))
  end.

(** ** Lemmas *)

(** The element at a position of a fold establishes what the later elements
    keep. *)
Lemma try_fold_pick {E S A} (Post : S → Prop) (f : S → A → Res E S) l i x s s' :
  l !! i = Some x →
  (∀ t t', f t x = Ok t' → Post t') →
  (∀ j y t t', i < j → l !! j = Some y → Post t → f t y = Ok t' → Post t') →
  try_fold f s l = Ok s' → Post s'.
Proof.
  intros Hi Hx Hlater Hf. rewrite <- (take_drop_middle l i x Hi), try_fold_app in Hf.
  inv_ok. simpl in *. inv_ok. eapply try_fold_ind; [eapply Hx; done| |done].
  intros t y t' Hy. apply list_elem_of_lookup in Hy as [j Hj]. rewrite lookup_drop in Hj.
  eapply Hlater; [|done]. lia.
Qed.

(** *** The recorded pointer *)

Lemma ui_pointer_split nid name :
  split_char "/" (ui_pointer nid name)
  = [""; escape_pointer_segment nid; "inputs"; escape_pointer_segment name].
Proof.
  unfold ui_pointer. rewrite !escape_chars_spec.
  change ("/" +:+ ?s) with ("" +:+ String "/" s). rewrite split_char_app_sep by done.
  change ("/inputs/" +:+ ?s) with (String "/" ("inputs" +:+ String "/" s)).
  rewrite split_char_app_sep by apply escape_chars_no_slash.
  rewrite split_char_app_sep by done.
  by rewrite split_char_none by apply escape_chars_no_slash.
Qed.

Lemma ui_pointer_segments nid name : pointer_segments (ui_pointer nid name) = [nid; "inputs"; name].
Proof.
  unfold pointer_segments. rewrite ui_pointer_split. simpl. by rewrite !unescape_escape.
Qed.

Lemma ui_pointer_inj nid name nid' name' :
  ui_pointer nid name = ui_pointer nid' name' → nid = nid' ∧ name = name'.
Proof.
  intros Heq. pose proof (ui_pointer_segments nid name) as H1.
  rewrite Heq, ui_pointer_segments in H1. by injection H1.
Qed.

Lemma ui_pointer_canonical nid name : canonical_pointer (ui_pointer nid name).
Proof.
  split; [apply prefix_app; unfold ui_pointer; eauto|].
  rewrite ui_pointer_split. simpl.
  repeat constructor; unfold canonical_segment; rewrite ?unescape_escape; done.
Qed.

(** *** Widgets *)

Section normalize.
Context `{JsonPointer}.

(** The positional lookup takes the first entry from [index] on that fits the
    declared type and moves past it; no earlier entry fits. *)
Lemma next_widget_array_spec nid name ty input values index warnings v index' warnings' :
  next_widget_value nid name ty input (Some (JArray values)) index warnings
  = (Some v, index', warnings') →
  index < index' ∧ values !! (index' - 1) = Some v ∧ widget_value_matches_type v ty = true
  ∧ ∀ k u, index ≤ k < index' - 1 → values !! k = Some u → widget_value_matches_type u ty = false.
Proof.
  unfold next_widget_value.
  destruct (position _ _) as [r|] eqn:Hpos; [|done].
  apply position_Some in Hpos as [(x & Hx & Hm) Hlt]. rewrite lookup_drop in Hx.
  rewrite Hx. intros [= <- <- <-].
  replace (index + r + 1 - 1) with (index + r) by lia.
  split; [lia|]. do 2 (split; [done|]). intros k u Hk Hu.
  apply (Hlt (k - index)); [lia|]. rewrite lookup_drop.
  by replace (index + (k - index)) with k by lia.
Qed.

(** *** One input *)

Definition input_name (input : Json) : option string := nonblank_member "name" input.

(** What [add_input] leaves behind for the input called [name]. *)
Definition input_linked (nid node_type : string) (name input_type : string)
    (origin_node origin_slot : Z) (st : InputState) : Prop :=
  obj_get name (is_inputs st)
    = Some (JArray [JString (pretty origin_node); JNumber (PosInt origin_slot)])
  ∧ is_ui st !! ui_pointer nid name = Some (mkUiInputMetadata input_type node_type).

Lemma add_input_frame links nid ty widgets st input st' name :
  add_input links nid ty widgets st input = Ok st' → input_name input ≠ Some name →
  obj_get name (is_inputs st') = obj_get name (is_inputs st)
  ∧ is_ui st' !! ui_pointer nid name = is_ui st !! ui_pointer nid name.
Proof.
  unfold add_input, input_name. intros Hadd Hne. inv_ok.
  assert (x ≠ name) as Hx by congruence.
  assert (ui_pointer nid x ≠ ui_pointer nid name) by (intros ?%ui_pointer_inj; tauto).
  assert (String.eqb name x = false) as Heqb by (apply String.eqb_neq; congruence).
  repeat (case_match; simplify_eq/=);
    rewrite ?obj_get_insert, ?Heqb, lookup_insert_ne by done; done.
Qed.

Lemma add_input_other_node links nid ty widgets st input st' nid' name :
  add_input links nid ty widgets st input = Ok st' → nid' ≠ nid →
  is_ui st' !! ui_pointer nid' name = is_ui st !! ui_pointer nid' name.
Proof.
  unfold add_input. intros Hadd Hne. inv_ok.
  assert (ui_pointer nid x ≠ ui_pointer nid' name) by (intros ?%ui_pointer_inj; naive_solver).
  repeat (case_match; simplify_eq/=); by rewrite lookup_insert_ne.
Qed.

Lemma add_input_linked links nid ty widgets st input st' name link_id origin :
  add_input links nid ty widgets st input = Ok st' →
  input_name input = Some name → json_get "link" input ≫= as_u64 = Some link_id →
  links !! link_id = Some origin →
  input_linked nid ty name (default "UNKNOWN" (json_get "type" input ≫= as_str)) origin.1 origin.2 st'.
Proof.
  unfold add_input, input_name, input_linked. intros Hadd Hname Hlink Horigin.
  rewrite Hname, Hlink in Hadd. simpl in Hadd. rewrite Horigin in Hadd.
  destruct origin as [o s]. injection Hadd as <-. simpl.
  by rewrite obj_get_insert, String.eqb_refl, lookup_insert_eq.
Qed.

(** The inputs of one node. *)
Lemma inputs_linked links nid ty widgets inputs st st' j input name link_id origin :
  try_fold (add_input links nid ty widgets) st inputs = Ok st' →
  inputs !! j = Some input →
  (∀ j' input', j < j' → inputs !! j' = Some input' → input_name input' ≠ Some name) →
  input_name input = Some name → json_get "link" input ≫= as_u64 = Some link_id →
  links !! link_id = Some origin →
  input_linked nid ty name (default "UNKNOWN" (json_get "type" input ≫= as_str)) origin.1 origin.2 st'.
Proof.
  intros Hf Hj Hlast Hname Hlink Horigin.
  eapply (try_fold_pick (input_linked _ _ _ _ _ _)); [exact Hj| | |exact Hf].
  - intros t t' Ht. eapply add_input_linked; done.
  - intros k y t t' Hk Hy [Hv Hu] Hstep.
    destruct (add_input_frame _ _ _ _ _ _ _ name Hstep (Hlast k y Hk Hy)) as [Hv' Hu'].
    unfold input_linked. by rewrite Hv', Hu'.
Qed.

Lemma inputs_other_node links nid ty widgets inputs st st' nid' name :
  try_fold (add_input links nid ty widgets) st inputs = Ok st' → nid' ≠ nid →
  is_ui st' !! ui_pointer nid' name = is_ui st !! ui_pointer nid' name.
Proof.
  intros Hf Hne.
  refine (try_fold_ind (λ t, is_ui t !! _ = is_ui st !! _) _ _ _ _ eq_refl _ Hf).
  intros t x t' _ <- Hstep. by eapply add_input_other_node.
Qed.

(** *** The whole graph *)

Definition node_linked (nid node_type name input_type : string) (origin : Z * Z) (st : NodeState)
    : Prop :=
  (∃ inputs, obj_get nid (ns_template st) = Some (node_object node_type inputs)
   ∧ obj_get name inputs
     = Some (JArray [JString (pretty origin.1); JNumber (PosInt origin.2)]))
  ∧ ns_ui st !! ui_pointer nid name = Some (mkUiInputMetadata input_type node_type).

Lemma add_node_frame links st node st' nid nid' ty name input_type origin :
  add_node links st node = Ok st' → node_id node = Ok nid' → nid' ≠ nid →
  node_linked nid ty name input_type origin st → node_linked nid ty name input_type origin st'.
Proof.
  unfold add_node, node_linked. intros Hadd Hid Hne [Hobj Hui]. inv_ok. simplify_eq/=.
  rewrite obj_get_insert, (proj2 (String.eqb_neq _ _)) by congruence.
  split; [done|]. erewrite inputs_other_node; [|done|congruence]. exact Hui.
Qed.

Lemma add_node_linked links st node st' nid ty j input name link_id origin :
  add_node links st node = Ok st' → node_id node = Ok nid → nonblank_member "type" node = Some ty →
  json_array_or_empty "inputs" node !! j = Some input →
  (∀ j' input', j < j' → json_array_or_empty "inputs" node !! j' = Some input' →
     input_name input' ≠ Some name) →
  input_name input = Some name → json_get "link" input ≫= as_u64 = Some link_id →
  links !! link_id = Some origin →
  node_linked nid ty name (default "UNKNOWN" (json_get "type" input ≫= as_str)) origin st'.
Proof.
  unfold add_node, node_linked. intros Hadd Hid Hty Hj Hlast Hname Hlink Horigin.
  rewrite Hid, Hty in Hadd. simpl in Hadd. inv_ok. simpl.
  edestruct inputs_linked as [Hv Hu]; [done..|].
  rewrite obj_get_insert, String.eqb_refl. eauto.
Qed.

(** Converting an editor graph keeps its wiring: a linked input of a node
    (the last of that name in the last node of that id) becomes the
    [[origin node, origin slot]] pair of its link in the API template, and its
    type is recorded under a pointer that names that node and that input. *)
Theorem normalize_keeps_links raw nw nodes links i node nid ty j input name link_id origin :
  normalize_workflow raw = Ok nw →
  json_get "nodes" raw = Some (JArray nodes) →
  try_fold add_link ∅ (json_array_or_empty "links" raw) = Ok links →
  nodes !! i = Some node → node_id node = Ok nid → nonblank_member "type" node = Some ty →
  (∀ i' node', i < i' → nodes !! i' = Some node' → node_id node' ≠ Ok nid) →
  json_array_or_empty "inputs" node !! j = Some input →
  (∀ j' input', j < j' → json_array_or_empty "inputs" node !! j' = Some input' →
     input_name input' ≠ Some name) →
  input_name input = Some name →
  json_get "link" input ≫= as_u64 = Some link_id → links !! link_id = Some origin →
  (∃ inputs, json_get nid (nw_template nw) = Some (node_object ty inputs)
   ∧ json_get name (JObject inputs)
     = Some (JArray [JString (pretty origin.1); JNumber (PosInt origin.2)]))
  ∧ nw_ui_inputs nw !! ui_pointer nid name
    = Some (mkUiInputMetadata (default "UNKNOWN" (json_get "type" input ≫= as_str)) ty)
  ∧ pointer_node_id (ui_pointer nid name) = Some nid
  ∧ pointer_field (ui_pointer nid name) = Some name.
Proof.
  unfold normalize_workflow. intros Hn Hnodes Hlinks Hi Hid Hty Hlastn Hj Hlasti Hname Hlink Horigin.
  rewrite Hnodes, Hlinks in Hn. simpl in Hn. inv_ok.
  assert (node_linked nid ty name (default "UNKNOWN" (json_get "type" input ≫= as_str)) origin x)
    as [Hobj Hui].
  { eapply (try_fold_pick (node_linked _ _ _ _ _)); [exact Hi| | |done].
    - intros t t' Ht. by eapply add_node_linked.
    - intros k y t t' Hk Hy Hpost Hstep.
      destruct (node_id y) as [nid'|e] eqn:Hidy;
        [|unfold add_node in Hstep; by rewrite Hidy in Hstep].
      eapply add_node_frame; [done..| |done]. intros ->. by eapply Hlastn. }
  split; [done|]. split; [done|]. unfold pointer_node_id, pointer_field.
  by rewrite ui_pointer_segments.
Qed.
End normalize.

(** ** Witness *)
Module NormalizeExample.
Definition num (n : Z) : Json := JNumber (PosInt n).
Definition linked_input : Json :=
  JObject [("link", num 7); ("name", JString "image"); ("type", JString "IMAGE")].
Definition node : Json :=
  JObject [("id", num 2); ("inputs", JArray [linked_input]); ("type", JString "Upscale")].
Definition graph : Json :=
  JObject [("links", JArray [JArray [num 7; num 1; num 0; num 2; num 0]]);
           ("nodes", JArray [JObject [("id", num 1); ("type", JString "LoadImage")]; node])].
Definition result : NormalizedWorkflow :=
  match @normalize_workflow Rfc6901.pointer graph with
  | Ok nw => nw | Err _ => normalized_default JNull end.
End NormalizeExample.

Lemma normalize_keeps_links_witness :
  pointer_field (ui_pointer "2" "image") = Some "image"
  ∧ ∃ inputs, json_get "2" (nw_template NormalizeExample.result)
              = Some (node_object "Upscale" inputs).
Proof.
  destruct (@normalize_keeps_links Rfc6901.pointer NormalizeExample.graph NormalizeExample.result
    [JObject [("id", NormalizeExample.num 1); ("type", JString "LoadImage")]; NormalizeExample.node]
    {[ 7%Z := (1, 0)%Z ]} 1 NormalizeExample.node "2" "Upscale" 0 NormalizeExample.linked_input
    "image" 7 (1, 0)%Z) as ((inputs & Hnode & _) & _ & _ & Hfield);
    try (vm_compute; reflexivity).
  - intros [|[|i]] node' Hi Hn; [lia|lia|discriminate].
  - intros [|j] input' Hj Hn; [lia|discriminate].
  - split; [exact Hfield|eauto].
Defined.
