(* ===== verification/Catalog.v ===== *)
(** The workflow catalog ([nagisalake-workflow/src/catalog.rs], [manifest.rs],
    [service.rs]): loading allowlisted templates, the manifests a worker
    advertises, and rendering a dispatch into a template.

    [insert] and [render] are the whole functions, with the panics of
    [render]'s [expect] calls as values.  [entry_ok] is what [insert] checks;
    a catalog keeps it, and it makes [render] total on well-formed dispatches
    (for canonically escaped pointers), with every write where it belongs. *)

From S2P Require Import Prelude Text Json Messages Validate Pointer Normalize.
From Stdlib Require Import ZArith Lia Ascii.

(** ** Data *)

Record InputBinding := mkInputBinding {
  ib_index : nat;
  ib_pointer : string;
  ib_name : option string;
  ib_content_type : option string;
}.

Record WorkflowConfig := mkWorkflowConfig {
  cfg_id : string;
  cfg_version : string;
  cfg_file : string;
  cfg_output_types : list string;
  cfg_parameters : gmap string string;
  cfg_inputs : list InputBinding;
}.

Record WorkflowDefinition := mkWorkflowDefinition {
  wd_config : WorkflowConfig;
  wd_template : Json;
  wd_manifest : WorkflowManifest;
}.

(** [BTreeMap<(String, String), WorkflowDefinition>]. *)
Definition WorkflowCatalog := gmap (string * string) WorkflowDefinition.

(** ** Manifests *)

Definition infer_value_type (value : option Json) : string :=
  match value with
  | Some (JBool _) => "boolean"
  | Some (JNumber (PosInt _)) | Some (JNumber (NegInt _)) => "integer"
  | Some (JNumber _) => "number"
  | Some (JString _) => "string"
  | Some (JArray _) => "array"
  | Some (JObject _) => "object"
  | _ => "unknown"
  end.

(** [.to_ascii_lowercase().replace([' ', '-'], "_")]. *)
Definition snake_case (s : string) : string :=
  str_map (λ a, if Ascii.eqb a " " || Ascii.eqb a "-" then "_"%char else a)
    (to_ascii_lowercase s).

Definition public_value_type (input_type : string) : string :=
  let other := to_ascii_uppercase input_type in
  if String.eqb other "INT" then "integer"
  else if String.eqb other "FLOAT" then "number"
  else if String.eqb other "BOOLEAN" then "boolean"
  else if String.eqb other "COMBO" then "enum"
  else if String.eqb other "STRING" then "string"
  else snake_case other.

Definition public_artifact_type (input_type : string) : string :=
  let other := to_ascii_uppercase input_type in
  if String.eqb other "IMAGE" then "image"
  else if String.eqb other "MASK" then "mask"
  else if String.eqb other "VIDEO" || String.eqb other "VHS_FILENAMES" then "video"
  else if String.eqb other "AUDIO" then "audio"
  else snake_case other.

Definition content_type_for_input_type (value_type : string) : option string :=
  if String.eqb value_type "image" then Some "image/*"
  else if String.eqb value_type "mask" then Some "image/*"
  else if String.eqb value_type "video" then Some "video/*"
  else if String.eqb value_type "audio" then Some "audio/*"
  else None.

Definition artifact_type_for_content_type (content_type : string) : option string :=
  kind ← (λ p, to_ascii_lowercase (trim p.1)) <$> split_once "/" content_type;
  if String.eqb kind "image" then Some "image"
  else if String.eqb kind "video" then Some "video"
  else if String.eqb kind "audio" then Some "audio"
  else None.

(** [Vec::dedup]. *)
Fixpoint dedup (l : list string) : list string :=
  match l with
  | x :: (y :: _) as l' => if String.eqb x y then dedup l' else x :: dedup l'
  | _ => l
  end.

(** The public name of an artifact input. *)
Definition public_name (binding : InputBinding) : string :=
  default ("input_" +:+ pretty (ib_index binding))
    (option_or (ib_name binding) (pointer_field (ib_pointer binding))).

Section catalog.
Context `{JsonPointer}.

Definition parameter_input (template : Json) (ui_inputs : gmap string UiInputMetadata)
    (name pointer : string) : WorkflowInput :=
  let metadata := ui_inputs !! pointer in
  let dflt := v ← json_pointer template pointer; if is_null v then None else Some v in
  {| wi_name := name;
     wi_kind := ParameterInput;
     wi_value_type := default (infer_value_type dflt)
                        ((λ m, public_value_type (ui_input_type m)) <$> metadata);
     wi_content_type := None;
     wi_pointer := pointer;
     wi_required := bool_decide (dflt = None);
     wi_default := dflt;
     wi_options := [];
     wi_node_id := pointer_node_id pointer;
     wi_node_type := ui_node_type <$> metadata;
     wi_field := pointer_field pointer |}.

Definition artifact_input (ui_inputs : gmap string UiInputMetadata) (binding : InputBinding)
    : WorkflowInput :=
  let metadata := ui_inputs !! ib_pointer binding in
  let value_type := default "artifact"
    (option_or (ib_content_type binding ≫= artifact_type_for_content_type)
               ((λ m, public_artifact_type (ui_input_type m)) <$> metadata)) in
  {| wi_name := public_name binding;
     wi_kind := ArtifactInput;
     wi_value_type := value_type;
     wi_content_type := option_or (ib_content_type binding)
                          (content_type_for_input_type value_type);
     wi_pointer := ib_pointer binding;
     wi_required := true;
     wi_default := None;
     wi_options := [];
     wi_node_id := pointer_node_id (ib_pointer binding);
     wi_node_type := ui_node_type <$> metadata;
     wi_field := pointer_field (ib_pointer binding) |}.

Definition build_manifest (config : WorkflowConfig) (template : Json)
    (ui_inputs : gmap string UiInputMetadata) (warnings : list string) : WorkflowManifest :=
  let warnings := if bool_decide (cfg_output_types config = [])
    then warnings ++ ["workflow has no declared output_types"] else warnings in
  {| wm_schema_version := 1;
     wm_display_name := cfg_id config;
     wm_description := None;
     wm_inputs :=
       ((λ kv, parameter_input template ui_inputs kv.1 kv.2) <$> btree_iter (cfg_parameters config))
       ++ (artifact_input ui_inputs <$> cfg_inputs config);
     wm_outputs := imap (λ index content_type,
                     mkWorkflowOutput ("output_" +:+ pretty index) content_type)
                     (cfg_output_types config);
     wm_warnings := dedup (merge_sort String.le warnings) |}.

(** ** Loading *)

Definition required (field value : string) : Res WorkflowError unit :=
  reject_if (is_blank value) (Required field).

Definition required_opt (field : string) (value : option string) : Res WorkflowError unit :=
  match value with Some v => required field v | None => Ok tt end.

(** [iter().copied().ne(0..set.len())] on a [BTreeSet<usize>]. *)
Definition indices_sorted (s : gset nat) : list nat := merge_sort (≤) (elements s).
Definition not_contiguous (s : gset nat) (len : nat) : bool :=
  negb (bool_decide (indices_sorted s = seq 0 len)).

Record Bound := mkBound {
  bd_pointers : list string;
  bd_public : gset string;
  bd_indices : gset nat;
}.

Definition insert_parameter (template : Json) (b : Bound) (kv : string * string)
    : Res WorkflowError Bound :=
  let '(name, pointer) := kv in
  required "parameter name" name ;;
  public ← insert_unique (DuplicatePublicInput name) (bd_public b) name;
  validate_pointer template pointer ;;
  pointers ← insert_pointer (bd_pointers b) pointer;
  Ok (mkBound pointers public (bd_indices b)).

Definition insert_binding (template : Json) (b : Bound) (binding : InputBinding)
    : Res WorkflowError Bound :=
  validate_pointer template (ib_pointer binding) ;;
  pointers ← insert_pointer (bd_pointers b) (ib_pointer binding);
  required_opt "input name" (ib_name binding) ;;
  required_opt "input content_type" (ib_content_type binding) ;;
  public ← insert_unique (DuplicatePublicInput (public_name binding)) (bd_public b)
             (public_name binding);
  indices ← insert_unique (DuplicateInputIndex (ib_index binding)) (bd_indices b)
              (ib_index binding);
  Ok (mkBound pointers public indices).

Definition insert (entries : WorkflowCatalog) (config : WorkflowConfig)
    (normalized : NormalizedWorkflow) : Res WorkflowError WorkflowCatalog :=
  required "id" (cfg_id config) ;;
  required "version" (cfg_version config) ;;
  let template := nw_template normalized in
  reject_if (negb (is_object template)) (TemplateMustBeObject (cfg_id config)) ;;
  b ← try_fold (insert_parameter template) (mkBound [] ∅ ∅) (btree_iter (cfg_parameters config));
  b ← try_fold (insert_binding template) b (cfg_inputs config);
  reject_if (not_contiguous (bd_indices b) (size (bd_indices b))) NonContiguousInputs ;;
  let key := (cfg_id config, cfg_version config) in
  let definition := mkWorkflowDefinition config template
    (build_manifest config template (nw_ui_inputs normalized) (nw_warnings normalized)) in
  reject_if (bool_decide (is_Some (entries !! key)))
    (DuplicateWorkflow (cfg_id config) (cfg_version config)) ;;
  Ok (<[key := definition]> entries).

(** [load], with the file system and the JSON parser as arguments. *)
Definition load_one (read_to_string : string → option string) (from_str : string → option Json)
    (entries : WorkflowCatalog) (config : WorkflowConfig) : Res WorkflowError WorkflowCatalog :=
  raw ← ok_or (ReadTemplate (cfg_file config)) (read_to_string (cfg_file config));
  raw_template ← ok_or (ParseTemplate (cfg_file config)) (from_str raw);
  normalized ← normalize_workflow raw_template;
  insert entries config normalized.

Definition finish_catalog (entries : WorkflowCatalog) : Res WorkflowError WorkflowCatalog :=
  reject_if (bool_decide (entries = ∅)) EmptyCatalog ;; Ok entries.

Definition load (read_to_string : string → option string) (from_str : string → option Json)
    (configs : list WorkflowConfig) : Res WorkflowError WorkflowCatalog :=
  entries ← try_fold (load_one read_to_string from_str) ∅ configs;
  finish_catalog entries.

Definition from_templates (templates : list (WorkflowConfig * Json))
    : Res WorkflowError WorkflowCatalog :=
  entries ← try_fold (λ entries ct, insert entries ct.1 (normalized_default ct.2)) ∅ templates;
  finish_catalog entries.

(** ** Using the catalog *)

(** Key order of [BTreeMap<(String, String), _>]. *)
Definition id_version_le (p q : (string * string) * WorkflowDefinition) : Prop :=
  if bool_decide (p.1.1 = q.1.1) then String.le p.1.2 q.1.2 else String.le p.1.1 q.1.1.

#[export] Instance id_version_le_dec p q : Decision (id_version_le p q).
Proof. unfold id_version_le. case_bool_decide; apply _. Defined.

Definition capability_of (entry : WorkflowDefinition) : WorkflowCapability :=
  mkWorkflowCapability (cfg_id (wd_config entry)) (cfg_version (wd_config entry))
    (cfg_output_types (wd_config entry)) (Some (wd_manifest entry)).

Definition capabilities (c : WorkflowCatalog) : list WorkflowCapability :=
  (λ kv, capability_of kv.2) <$> merge_sort id_version_le (map_to_list c).

Definition entry (c : WorkflowCatalog) (dispatch : DispatchJob) : Res WorkflowError WorkflowDefinition :=
  ok_or (NotInstalled (dj_workflow_id dispatch) (dj_workflow_version dispatch))
    (c !! (dj_workflow_id dispatch, dj_workflow_version dispatch)).

Definition validate_dispatch (c : WorkflowCatalog) (dispatch : DispatchJob) : Res WorkflowError unit :=
  e ← entry c dispatch;
  parameters ← ok_or ParametersMustBeObject (as_object (dj_parameters dispatch));
  try_each (λ kv, reject_if (bool_decide (cfg_parameters (wd_config e) !! kv.1 = None))
                    (UnknownParameter kv.1)) parameters ;;
  let bound : gset nat := list_to_set (ib_index <$> cfg_inputs (wd_config e)) in
  reject_if (negb (length (dj_inputs dispatch) =? size bound)
             || not_contiguous bound (length (dj_inputs dispatch)))
    (InputCount (size bound) (length (dj_inputs dispatch))).

(** A call returns an error or panics. *)
Inductive Failure := Returned (e : WorkflowError) | Panicked.

Definition returned {A} (r : Res WorkflowError A) : Res Failure A :=
  match r with Ok a => Ok a | Err e => Err (Returned e) end.

(** [.expect(..)]. *)
Definition expect {A} (o : option A) : Res Failure A := ok_or Panicked o.

Definition render_parameter (config : WorkflowConfig) (workflow : Json) (kv : string * Json)
    : Res Failure Json :=
  pointer ← expect (cfg_parameters config !! kv.1);
  expect (json_pointer_set workflow pointer kv.2).

Definition render_input (input_names : list string) (workflow : Json) (binding : InputBinding)
    : Res Failure Json :=
  name ← expect (input_names !! ib_index binding);
  expect (json_pointer_set workflow (ib_pointer binding) (JString name)).

Definition render (c : WorkflowCatalog) (dispatch : DispatchJob) (input_names : list string)
    : Res Failure Json :=
  returned (validate_dispatch c dispatch) ;;
  reject_if (negb (length input_names =? length (dj_inputs dispatch)))
    (Returned (InputCount (length (dj_inputs dispatch)) (length input_names))) ;;
  e ← returned (entry c dispatch);
  parameters ← expect (as_object (dj_parameters dispatch));
  workflow ← try_fold (render_parameter (wd_config e)) (wd_template e) parameters;
  try_fold (render_input input_names) workflow (cfg_inputs (wd_config e)).

(** [WorkflowService]: one render request. *)
Record RenderWorkflow := mkRenderWorkflow {
  rw_dispatch : DispatchJob;
  rw_input_names : list string;
}.

Definition WorkflowService_call (catalog : WorkflowCatalog) (request : RenderWorkflow)
    : Res Failure Json :=
  render catalog (rw_dispatch request) (rw_input_names request).

(** ** What a catalog entry guarantees *)

(** The pointers of a configuration, in the order [insert] visits them. *)
Definition bound_pointers (config : WorkflowConfig) : list string :=
  (snd <$> btree_iter (cfg_parameters config)) ++ (ib_pointer <$> cfg_inputs config).

(** The public input names, in the same order. *)
Definition public_names (config : WorkflowConfig) : list string :=
  (fst <$> btree_iter (cfg_parameters config)) ++ (public_name <$> cfg_inputs config).

Definition no_overlap (p q : string) : Prop := pointers_overlap p q = false.

Definition addresses (template : Json) (p : string) : Prop :=
  starts_with "/" p = true ∧ is_Some (json_pointer template p).

Record config_ok (config : WorkflowConfig) (template : Json) : Prop := {
  co_id : present (cfg_id config);
  co_version : present (cfg_version config);
  co_object : is_Some (as_object template);
  co_addresses : Forall (addresses template) (bound_pointers config);
  co_apart : pairwise no_overlap (bound_pointers config);
  co_names : NoDup (public_names config);
  co_params_present : ∀ n p, cfg_parameters config !! n = Some p → present n;
  co_bindings_present :
    Forall (λ b, (∀ n, ib_name b = Some n → present n)
                 ∧ ∀ t, ib_content_type b = Some t → present t) (cfg_inputs config);
  co_indices : ib_index <$> cfg_inputs config ≡ₚ seq 0 (length (cfg_inputs config));
}.

(** An entry: a checked configuration, and the manifest built from it. *)
Definition entry_ok (key : string * string) (e : WorkflowDefinition) : Prop :=
  key = (cfg_id (wd_config e), cfg_version (wd_config e))
  ∧ config_ok (wd_config e) (wd_template e)
  ∧ ∃ ui warnings, wd_manifest e = build_manifest (wd_config e) (wd_template e) ui warnings.

Definition catalog_ok (c : WorkflowCatalog) : Prop := map_Forall entry_ok c.

(** *** The checks of [insert] *)

Lemma validate_pointer_Ok template p :
  validate_pointer template p = Ok tt ↔ addresses template p.
Proof.
  unfold validate_pointer, addresses. destruct (starts_with "/" p); simpl.
  - case_bool_decide as Hn; [rewrite Hn|]; split; try done.
    + intros [_ [? [=]]].
    + intros _. split; [done|]. by apply not_eq_None_Some.
  - split; [done|by intros []].
Qed.

Lemma insert_pointer_Ok ps p ps' :
  insert_pointer ps p = Ok ps' ↔ ps' = ps ++ [p] ∧ ∀ q, q ∈ ps → no_overlap q p.
Proof.
  unfold insert_pointer. destruct (List.find _ ps) as [q|] eqn:Hf.
  - apply find_some in Hf as [Hin Hov]. split; [done|]. intros [_ Hall].
    apply list_elem_of_In in Hin. apply Hall in Hin. unfold no_overlap in Hin. congruence.
  - split; [intros [= <-]; split; [done|]|by intros [-> _]].
    intros q Hq. apply list_elem_of_In in Hq. exact (find_none _ _ Hf q Hq).
Qed.

(** What the two loops have established after the bindings [ps], [names],
    [ix]. *)
Definition bound_inv (template : Json) (ps names : list string) (ix : list nat) (b : Bound) : Prop :=
  bd_pointers b = ps ∧ Forall (addresses template) ps ∧ pairwise no_overlap ps
  ∧ bd_public b = list_to_set names ∧ NoDup names
  ∧ bd_indices b = list_to_set ix ∧ NoDup ix.

Lemma bound_inv_pointer template ps names ix b p ps' :
  bound_inv template ps names ix b → addresses template p →
  insert_pointer (bd_pointers b) p = Ok ps' →
  bound_inv template (ps ++ [p]) names ix (mkBound ps' (bd_public b) (bd_indices b)).
Proof.
  intros (<- & Ha & Hp & Hrest) Hap [-> Hno]%insert_pointer_Ok. split; [done|].
  split; [by apply Forall_app; split; [|repeat constructor; apply Hap]|]. split; [|exact Hrest].
  apply pairwise_app. split_and!; [done|by repeat constructor|].
  intros x y Hx ->%list_elem_of_singleton. auto.
Qed.

Lemma list_to_set_snoc {A} `{Countable A} (l : list A) x :
  {[ x ]} ∪ list_to_set l = (list_to_set (l ++ [x]) : gset A).
Proof. rewrite list_to_set_app_L. set_solver. Qed.

Lemma NoDup_snoc_fresh {A} `{Countable A} (l : list A) x :
  NoDup l → x ∉ (list_to_set l : gset A) → NoDup (l ++ [x]).
Proof.
  intros Hnd Hx. apply NoDup_app. split_and!; [done| |apply NoDup_singleton].
  intros y Hy ->%list_elem_of_singleton. apply Hx. by apply elem_of_list_to_set.
Qed.

Lemma insert_parameter_inv template ps names ix b n p b' :
  bound_inv template ps names ix b → insert_parameter template b (n, p) = Ok b' →
  bound_inv template (ps ++ [p]) (names ++ [n]) ix b' ∧ present n.
Proof.
  unfold insert_parameter. intros Hinv Hb. inv_ok.
  match goal with H : validate_pointer _ _ = _ |- _ => apply validate_pointer_Ok in H as Hv end.
  match goal with H : insert_unique _ _ _ = _ |- _ => apply insert_unique_Ok in H as [Hfresh ->] end.
  match goal with H : insert_pointer _ _ = _ |- _ =>
    destruct (bound_inv_pointer _ _ _ _ _ _ _ Hinv Hv H) as (A1 & A2 & A3 & A4 & A5 & A6) end.
  split; [|unfold required in *; by inv_ok]. simpl in *. rewrite A4 in *.
  split_and!; try done; [by apply list_to_set_snoc|by apply NoDup_snoc_fresh|tauto|tauto].
Qed.

Definition binding_present (b : InputBinding) : Prop :=
  (∀ n, ib_name b = Some n → present n) ∧ ∀ t, ib_content_type b = Some t → present t.

Lemma required_some_Ok f o : required_opt f o = Ok tt ↔ ∀ v, o = Some v → present v.
Proof.
  destruct o; simpl; [unfold required; rewrite reject_if_Ok|]; naive_solver.
Qed.

Lemma insert_binding_inv template ps names ix b i b' :
  bound_inv template ps names ix b → insert_binding template b i = Ok b' →
  bound_inv template (ps ++ [ib_pointer i]) (names ++ [public_name i]) (ix ++ [ib_index i]) b'
  ∧ binding_present i.
Proof.
  unfold insert_binding. intros Hinv Hb. inv_ok.
  match goal with H : validate_pointer _ _ = _ |- _ => apply validate_pointer_Ok in H as Hv end.
  repeat match goal with
  | H : insert_unique _ _ _ = _ |- _ => apply insert_unique_Ok in H as [? ->]
  | H : required_opt _ _ = Ok _ |- _ => rewrite required_some_Ok in H
  end.
  match goal with H : insert_pointer _ _ = _ |- _ =>
    destruct (bound_inv_pointer _ _ _ _ _ _ _ Hinv Hv H) as (A1 & A2 & A3 & A4 & A5 & A6 & A7) end.
  split; [|by split]. simpl in *. rewrite A4, A6 in *.
  split_and!; try done; first [apply list_to_set_snoc | by apply NoDup_snoc_fresh].
Qed.

Lemma parameters_inv template params b :
  try_fold (insert_parameter template) (mkBound [] ∅ ∅) params = Ok b →
  bound_inv template params.*2 params.*1 [] b ∧ Forall (λ kv, present kv.1) params.
Proof.
  apply (try_fold_prefix_ind (λ seen b, bound_inv template seen.*2 seen.*1 [] b
                              ∧ Forall (λ kv, present kv.1) seen)).
  - split; [|constructor]. repeat split; try constructor.
  - intros seen [n p] t t' [Hinv Hall] Hstep. rewrite !fmap_app, Forall_app. simpl.
    destruct (insert_parameter_inv _ _ _ _ _ _ _ _ Hinv Hstep).
    split; [done|]. split; [done|by constructor].
Qed.

Lemma bindings_inv template ps names ix b inputs b' :
  bound_inv template ps names ix b →
  try_fold (insert_binding template) b inputs = Ok b' →
  bound_inv template (ps ++ (ib_pointer <$> inputs)) (names ++ (public_name <$> inputs))
    (ix ++ (ib_index <$> inputs)) b'
  ∧ Forall binding_present inputs.
Proof.
  intros H0. apply (try_fold_prefix_ind (λ seen b,
    bound_inv template (ps ++ (ib_pointer <$> seen)) (names ++ (public_name <$> seen))
      (ix ++ (ib_index <$> seen)) b ∧ Forall binding_present seen)).
  - by rewrite !app_nil_r.
  - intros seen x t t' [Hinv Hall] Hstep. rewrite !fmap_app, Forall_app, !app_assoc. simpl.
    destruct (insert_binding_inv _ _ _ _ _ _ _ Hinv Hstep).
    split; [done|]. split; [done|by constructor].
Qed.

(** Distinct indices that read [0..n] in order are a permutation of it. *)
Lemma contiguous_perm (ix : list nat) n :
  NoDup ix → not_contiguous (list_to_set ix) n = false ↔ ix ≡ₚ seq 0 n.
Proof.
  intros Hnd. unfold not_contiguous, indices_sorted.
  rewrite negb_false_iff, bool_decide_eq_true.
  assert (elements (list_to_set ix : gset nat) ≡ₚ ix) as Hel by by apply elements_list_to_set.
  split.
  - intros Heq. rewrite <- Hel, <- Heq. symmetry. apply merge_sort_Permutation.
  - intros Hp. apply (Sorted_unique (≤)).
    + apply Sorted_merge_sort, _.
    + clear. generalize 0. induction n as [|n IH]; intros k; simpl; constructor; auto.
      destruct n; simpl; constructor. lia.
    + by rewrite merge_sort_Permutation, Hel.
Qed.

Lemma insert_entry_ok entries config normalized entries' :
  insert entries config normalized = Ok entries' →
  ∃ e, entries !! (cfg_id config, cfg_version config) = None
    ∧ entries' = <[(cfg_id config, cfg_version config) := e]> entries
    ∧ wd_config e = config ∧ wd_template e = nw_template normalized
    ∧ entry_ok (cfg_id config, cfg_version config) e.
Proof.
  unfold insert. intros Hins. inv_ok.
  match goal with H : try_fold (insert_parameter _) _ _ = _ |- _ =>
    apply parameters_inv in H as [Hp Hparams] end.
  match goal with H : try_fold (insert_binding _) _ _ = _ |- _ =>
    apply (bindings_inv _ _ _ _ _ _ _ Hp) in H as [(_ & Ha & Hap & _ & Hn & Hix & Hnd) Hb] end.
  unfold required in *. inv_ok. bool_cases. eexists.
  split; [by apply eq_None_not_Some|]. do 3 (split; [done|]).
  split; [done|]. split; [|by do 2 eexists]. simpl. simpl in Hix, Hnd. split; try done.
  - unfold is_object in *. by bool_cases.
  - intros n p Hnp. rewrite Forall_forall in Hparams. apply elem_of_btree_iter in Hnp.
    exact (Hparams _ Hnp).
  - rewrite Hix in *. rewrite <- (length_fmap ib_index).
    apply contiguous_perm; [done|]. by rewrite <- (size_list_to_set (C := gset nat)).
Qed.

Lemma insert_catalog_ok entries config normalized entries' :
  catalog_ok entries → insert entries config normalized = Ok entries' → catalog_ok entries'.
Proof.
  intros Hc (e & Hnew & -> & _ & _ & He)%insert_entry_ok. by apply map_Forall_insert_2.
Qed.

Lemma load_catalog_ok read_to_string from_str configs c :
  load read_to_string from_str configs = Ok c → catalog_ok c ∧ c ≠ ∅.
Proof.
  unfold load, finish_catalog. intros Hl. inv_ok. bool_cases. split; [|done].
  eapply (try_fold_ind catalog_ok); [apply map_Forall_empty| |done].
  unfold load_one. intros t cfg t' _ Ht Hstep. inv_ok. by eapply insert_catalog_ok.
Qed.

Lemma from_templates_catalog_ok templates c :
  from_templates templates = Ok c → catalog_ok c ∧ c ≠ ∅.
Proof.
  unfold from_templates, finish_catalog. intros Hl. inv_ok. bool_cases. split; [|done].
  eapply (try_fold_ind catalog_ok); [apply map_Forall_empty| |done].
  intros t ct t' _. apply insert_catalog_ok.
Qed.

(** *** Dispatch validation *)

Lemma entry_lookup c dispatch e :
  catalog_ok c → entry c dispatch = Ok e →
  config_ok (wd_config e) (wd_template e)
  ∧ cfg_id (wd_config e) = dj_workflow_id dispatch
  ∧ cfg_version (wd_config e) = dj_workflow_version dispatch.
Proof.
  unfold entry. intros Hc He. inv_ok. destruct (Hc _ _ He) as ([= Hi Hv] & Hok & _). done.
Qed.

Definition bound_indices (e : WorkflowDefinition) : gset nat :=
  list_to_set (ib_index <$> cfg_inputs (wd_config e)).

Lemma bound_indices_size e :
  config_ok (wd_config e) (wd_template e) →
  size (bound_indices e) = length (cfg_inputs (wd_config e)).
Proof.
  intros Hok. unfold bound_indices. rewrite size_list_to_set, length_fmap; [done|].
  rewrite (co_indices _ _ Hok). apply NoDup_seq.
Qed.

(** On an entry of a catalog, the two input checks come down to the number of
    inputs. *)
Lemma input_count_check e n :
  config_ok (wd_config e) (wd_template e) →
  negb (n =? size (bound_indices e)) || not_contiguous (bound_indices e) n = false
  ↔ n = length (cfg_inputs (wd_config e)).
Proof.
  intros Hok. rewrite bound_indices_size, orb_false_iff, negb_false_iff, Nat.eqb_eq by done.
  split; [tauto|]. intros ->. split; [done|].
  pose proof (co_indices _ _ Hok) as Hix. apply contiguous_perm; [|done].
  rewrite Hix. apply NoDup_seq.
Qed.

(** Which dispatches a worker accepts: the workflow is installed, the
    parameters are an object whose names are all exposed, and there is one
    input per binding. *)
Definition accepts (c : WorkflowCatalog) (dispatch : DispatchJob) (e : WorkflowDefinition)
    (params : list (string * Json)) : Prop :=
  c !! (dj_workflow_id dispatch, dj_workflow_version dispatch) = Some e
  ∧ dj_parameters dispatch = JObject params
  ∧ Forall (λ kv, is_Some (cfg_parameters (wd_config e) !! kv.1)) params
  ∧ length (dj_inputs dispatch) = length (cfg_inputs (wd_config e)).

Lemma as_object_Some j m : as_object j = Some m ↔ j = JObject m.
Proof. destruct j; simpl; naive_solver. Qed.

Lemma validate_dispatch_accepts c dispatch :
  catalog_ok c →
  validate_dispatch c dispatch = Ok tt ↔ ∃ e params, accepts c dispatch e params.
Proof.
  intros Hc. unfold validate_dispatch, accepts. rewrite bind_Ok. split.
  - intros (e & He & Hrest). pose proof (entry_lookup _ _ _ Hc He) as (Hok & _).
    unfold entry in He. inv_ok. exists e, x. split; [done|]. split; [by apply as_object_Some|].
    split.
    + match goal with H : try_each _ _ = _ |- _ => apply try_each_Ok in H;
        apply (Forall_impl _ _ _ H) end.
      intros kv Hkv. apply reject_if_Ok in Hkv. bool_cases.
      by apply not_eq_None_Some.
    + by apply input_count_check.
  - intros (e & params & He & Hp & Hall & Hlen). exists e. unfold entry.
    rewrite He. split; [done|]. rewrite Hp. simpl. apply bind_Ok_tt. split.
    + apply try_each_Ok. apply (Forall_impl _ _ _ Hall). by intros kv [p ->].
    + apply reject_if_Ok. apply (input_count_check e); [|done].
      by destruct (Hc _ _ He) as (_ & Hok & _).
Qed.

(** *** Rendering as a sequence of writes *)

Fixpoint apply_writes (t : Json) (ws : list (string * Json)) : option Json :=
  match ws with
  | [] => Some t
  | (p, v) :: ws' => t' ← json_pointer_set t p v; apply_writes t' ws'
  end.

Lemma apply_writes_app t ws1 ws2 :
  apply_writes t (ws1 ++ ws2) = (t' ← apply_writes t ws1; apply_writes t' ws2).
Proof.
  revert t; induction ws1 as [|[p v] ws1 IH]; intros t; simpl; [done|].
  destruct (json_pointer_set t p v); simpl; auto.
Qed.

Definition apart (p q : string) : Prop :=
  starts_with "/" p = true ∧ starts_with "/" q = true
  ∧ tokens_apart (reference_tokens p) (reference_tokens q).

(** Writes at separate places all take effect, and change nothing else. *)
Lemma apply_writes_spec `{!JsonPointerLaws _} t ws :
  Forall (λ w, is_Some (json_pointer t w.1)) ws →
  pairwise (λ w w', apart w.1 w'.1) ws →
  ∃ t', apply_writes t ws = Some t'
    ∧ (∀ p v, (p, v) ∈ ws → json_pointer t' p = Some v)
    ∧ ∀ q, (∀ p v, (p, v) ∈ ws → apart p q) → json_pointer t' q = json_pointer t q.
Proof.
  revert t; induction ws as [|[p v] ws IH]; intros t; simpl.
  { intros _ _. exists t. split_and!; [done| |done]. intros p v Hp. by apply not_elem_of_nil in Hp. }
  rewrite Forall_cons, Forall_forall. intros [Hp Hall] [Hfirst Hrest]. simpl in *.
  destruct (proj2 (pointer_set_defined t p v) Hp) as [t1 Ht1]. rewrite Ht1. simpl.
  assert (Hkeep : ∀ q, apart p q → json_pointer t1 q = json_pointer t q).
  { intros q (Hs1 & Hs2 & Hap). by eapply (pointer_set_apart t p q v). }
  destruct (IH t1) as (t' & Ht' & Hwritten & Hframe); [|done|].
  { apply Forall_forall. intros w Hw. rewrite Hkeep; [auto|].
    rewrite Forall_forall in Hfirst. apply (Hfirst _ Hw). }
  exists t'. split; [done|]. split.
  - intros p' v' [[= -> ->]|Hin]%elem_of_cons; [|eauto].
    rewrite Hframe; [by eapply pointer_set_same|].
    intros q w Hq. rewrite Forall_forall in Hfirst. destruct (Hfirst _ Hq) as (? & ? & [??]).
    by split_and!.
  - intros q Hq. rewrite Hframe; [apply Hkeep|]; [eapply Hq; by apply elem_of_cons; left|].
    intros p' v' Hin. eapply Hq. by apply elem_of_cons; right.
Qed.

Definition param_write (config : WorkflowConfig) (kv : string * Json) : string * Json :=
  (default "" (cfg_parameters config !! kv.1), kv.2).
Definition input_write (input_names : list string) (b : InputBinding) : string * Json :=
  (ib_pointer b, JString (default "" (input_names !! ib_index b))).

Lemma render_parameters_writes config t params :
  Forall (λ kv, is_Some (cfg_parameters config !! kv.1)) params →
  try_fold (render_parameter config) t params
  = expect (apply_writes t (param_write config <$> params)).
Proof.
  intros Hall. revert t. induction Hall as [|kv params [p Hp] _ IH]; intros t; simpl; [done|].
  assert (render_parameter config t kv = expect (json_pointer_set t p kv.2)) as ->
    by (unfold render_parameter; by rewrite Hp).
  rewrite Hp. simpl. destruct (json_pointer_set t p kv.2); simpl; [apply IH|done].
Qed.

Lemma render_inputs_writes input_names t inputs :
  Forall (λ b, is_Some (input_names !! ib_index b)) inputs →
  try_fold (render_input input_names) t inputs
  = expect (apply_writes t (input_write input_names <$> inputs)).
Proof.
  intros Hall. revert t. induction Hall as [|b inputs [n Hn] _ IH]; intros t; simpl; [done|].
  assert (render_input input_names t b
          = expect (json_pointer_set t (ib_pointer b) (JString n))) as ->
    by (unfold render_input; by rewrite Hn).
  rewrite Hn. simpl. destruct (json_pointer_set t _ _); simpl; [apply IH|done].
Qed.

Lemma render_is_writes config input_names t params :
  Forall (λ kv, is_Some (cfg_parameters config !! kv.1)) params →
  Forall (λ b, is_Some (input_names !! ib_index b)) (cfg_inputs config) →
  (t' ← try_fold (render_parameter config) t params;
   try_fold (render_input input_names) t' (cfg_inputs config))
  = expect (apply_writes t ((param_write config <$> params)
                            ++ (input_write input_names <$> cfg_inputs config))).
Proof.
  intros Hp Hi. rewrite apply_writes_app, render_parameters_writes by done.
  destruct (apply_writes t _); simpl; [by apply render_inputs_writes|done].
Qed.

Section writes.
Context (config : WorkflowConfig) (template : Json).
Hypothesis Hok : config_ok config template.
Hypothesis Hcanon : Forall canonical_pointer (bound_pointers config).

Lemma bound_apart p q :
  p ∈ bound_pointers config → q ∈ bound_pointers config → no_overlap p q → apart p q.
Proof.
  rewrite Forall_forall in Hcanon. intros Hp%Hcanon Hq%Hcanon Hno.
  split; [apply Hp|]. split; [apply Hq|]. by apply no_overlap_apart.
Qed.

Lemma param_bound n p : cfg_parameters config !! n = Some p → p ∈ bound_pointers config.
Proof.
  intros Hp. apply elem_of_app. left. apply elem_of_btree_iter in Hp.
  apply list_elem_of_fmap. by exists (n, p).
Qed.

Lemma input_bound b : b ∈ cfg_inputs config → ib_pointer b ∈ bound_pointers config.
Proof. intros Hb. apply elem_of_app. right. by apply list_elem_of_fmap_2. Qed.

Lemma no_overlap_sym p q : no_overlap p q → no_overlap q p.
Proof. unfold no_overlap. by rewrite pointers_overlap_sym. Qed.

Lemma params_apart n p m q :
  n ≠ m → cfg_parameters config !! n = Some p → cfg_parameters config !! m = Some q → apart p q.
Proof.
  intros Hne Hp Hq. apply bound_apart; [by eapply param_bound..|].
  destruct (proj1 (pairwise_app _ _ _) (co_apart _ _ Hok)) as (Hpw & _ & _).
  rewrite pairwise_fmap in Hpw.
  apply (pairwise_elem _ _ (n, p) (m, q) (λ u v, no_overlap_sym u.2 v.2) Hpw);
    [by apply elem_of_btree_iter..|congruence].
Qed.

Lemma param_input_apart n p b :
  cfg_parameters config !! n = Some p → b ∈ cfg_inputs config → apart p (ib_pointer b).
Proof.
  intros Hp Hb. apply bound_apart; [by eapply param_bound|by apply input_bound|].
  destruct (proj1 (pairwise_app _ _ _) (co_apart _ _ Hok)) as (_ & _ & Hcross).
  apply Hcross; [|by apply list_elem_of_fmap_2].
  apply list_elem_of_fmap. exists (n, p). split; [done|by apply elem_of_btree_iter].
Qed.

Lemma inputs_apart input_names :
  pairwise (λ w w', apart w.1 w'.1) (input_write input_names <$> cfg_inputs config).
Proof.
  destruct (proj1 (pairwise_app _ _ _) (co_apart _ _ Hok)) as (_ & Hpw & _).
  apply pairwise_fmap. rewrite pairwise_fmap in Hpw.
  assert (Hsub : ∀ b, b ∈ cfg_inputs config → ib_pointer b ∈ bound_pointers config)
    by apply input_bound.
  revert Hpw Hsub. generalize (cfg_inputs config) as l.
  induction l as [|b l IH]; simpl; [done|]. rewrite !Forall_forall. intros [Hb Hl] Hsub.
  setoid_rewrite elem_of_cons in Hsub. split; [|auto].
  intros b' Hb'. apply bound_apart; auto.
Qed.

Lemma render_writes_apart params input_names :
  NoDup params.*1 → Forall (λ kv, is_Some (cfg_parameters config !! kv.1)) params →
  pairwise (λ w w', apart w.1 w'.1)
    ((param_write config <$> params) ++ (input_write input_names <$> cfg_inputs config)).
Proof.
  intros Hnd Hall. rewrite Forall_forall in Hall.
  apply pairwise_app. split; [|split; [apply inputs_apart|]].
  - apply pairwise_fmap. apply (pairwise_NoDup _ fst); [done|].
    intros x y Hx Hy Hne. unfold param_write.
    destruct (Hall x Hx) as [p Hp], (Hall y Hy) as [q Hq]. rewrite Hp, Hq. simpl.
    by eapply params_apart.
  - intros w w' (kv & -> & Hkv)%list_elem_of_fmap (b & -> & Hb)%list_elem_of_fmap.
    unfold param_write. destruct (Hall kv Hkv) as [p Hp]. rewrite Hp. simpl.
    by eapply param_input_apart.
Qed.

Lemma render_writes_resolve params input_names :
  Forall (λ kv, is_Some (cfg_parameters config !! kv.1)) params →
  Forall (λ w, is_Some (json_pointer template w.1))
    ((param_write config <$> params) ++ (input_write input_names <$> cfg_inputs config)).
Proof.
  intros Hall. pose proof (co_addresses _ _ Hok) as Ha. rewrite Forall_forall in Hall.
  rewrite Forall_forall in Ha.
  apply Forall_forall.
  intros w [(kv & -> & Hkv)%list_elem_of_fmap|(b & -> & Hb)%list_elem_of_fmap]%elem_of_app; simpl.
  - destruct (Hall kv Hkv) as [p Hp]. rewrite Hp. apply (Ha p). by eapply param_bound.
  - by apply (Ha (ib_pointer b)), input_bound.
Qed.

Lemma indices_in_range (input_names : list string) b :
  length input_names = length (cfg_inputs config) → b ∈ cfg_inputs config →
  is_Some (input_names !! ib_index b).
Proof.
  intros Hlen Hb. apply lookup_lt_is_Some. rewrite Hlen.
  assert (ib_index b ∈ seq 0 (length (cfg_inputs config))) as Hin.
  { rewrite <- (co_indices _ _ Hok). by apply list_elem_of_fmap_2. }
  apply elem_of_seq in Hin. lia.
Qed.
End writes.

(** C37: Rendering never panics and writes exactly what the dispatch says.
    For a catalog that [load] accepted and a dispatch it accepts, with one file
    name per input, rendering returns a document in which each given parameter
    and each input's file name stands at its configured pointer, and every
    place apart from the written ones is as in the template.  The bound
    pointers are in the escaped form RFC 6901 writes. *)
Theorem render_writes_exactly `{!JsonPointerLaws _} read_to_string from_str configs c
    dispatch input_names e params :
  load read_to_string from_str configs = Ok c →
  accepts c dispatch e params → NoDup params.*1 →
  length input_names = length (dj_inputs dispatch) →
  Forall canonical_pointer (bound_pointers (wd_config e)) →
  ∃ w, render c dispatch input_names = Ok w
    ∧ (∀ name v p, (name, v) ∈ params → cfg_parameters (wd_config e) !! name = Some p →
         json_pointer w p = Some v)
    ∧ (∀ b n, b ∈ cfg_inputs (wd_config e) → input_names !! ib_index b = Some n →
         json_pointer w (ib_pointer b) = Some (JString n))
    ∧ ∀ q, (∀ name p, name ∈ params.*1 → cfg_parameters (wd_config e) !! name = Some p → apart p q) →
         (∀ b, b ∈ cfg_inputs (wd_config e) → apart (ib_pointer b) q) →
         json_pointer w q = json_pointer (wd_template e) q.
Proof.
  intros [Hc _]%load_catalog_ok Hacc Hnd Hlen Hcanon.
  pose proof (proj2 (validate_dispatch_accepts c dispatch Hc)
                (ex_intro _ e (ex_intro _ params Hacc))) as Hval.
  destruct Hacc as (He & Hp & Hknown & Hcount). destruct (Hc _ _ He) as (_ & Hok & _).
  unfold render. rewrite Hval, Hlen, Nat.eqb_refl. unfold entry. rewrite He, Hp. simpl.
  rewrite render_is_writes; [|done|].
  2: { apply Forall_forall. intros b. apply indices_in_range with (1 := Hok). congruence. }
  destruct (apply_writes_spec (wd_template e) _ (render_writes_resolve _ _ Hok params input_names Hknown)
              (render_writes_apart _ _ Hok Hcanon params input_names Hnd Hknown))
    as (w & Hw & Hwritten & Hframe).
  exists w. rewrite Hw. split; [done|]. rewrite Forall_forall in Hknown. split_and!.
  - intros name v p Hin Hname. apply Hwritten, elem_of_app. left.
    apply list_elem_of_fmap. exists (name, v). unfold param_write. simpl. by rewrite Hname.
  - intros b n Hb Hn. apply Hwritten, elem_of_app. right.
    apply list_elem_of_fmap. exists b. unfold input_write. by rewrite Hn.
  - intros q Hq1 Hq2. apply Hframe.
    intros p v [(kv & [= -> ->] & Hkv)%list_elem_of_fmap|(b & [= -> ->] & Hb)%list_elem_of_fmap]%elem_of_app;
      [|auto].
    destruct (Hknown kv Hkv) as [p Hkp]. rewrite Hkp. apply (Hq1 kv.1); [|done].
    by apply list_elem_of_fmap_2.
Qed.

(** A worker accepts exactly the dispatches its loaded catalog allows:
    the workflow is installed, the parameters are an object whose names are
    all exposed, and there is one input per configured binding. *)
Theorem load_accepts_iff read_to_string from_str configs c dispatch :
  load read_to_string from_str configs = Ok c →
  validate_dispatch c dispatch = Ok tt ↔ ∃ e params, accepts c dispatch e params.
Proof. intros [Hc _]%load_catalog_ok. by apply validate_dispatch_accepts. Qed.

(** *** Advertised capabilities *)

Lemma present_app_l s t : str_all not_graphic s = false → present (s +:+ t).
Proof. intros Hs. apply graphic_not_blank. by rewrite str_all_app, Hs. Qed.

Lemma pointer_present p : starts_with "/" p = true → present p.
Proof. intros [t ->]%prefix_app. by apply present_app_l. Qed.

Lemma manifest_input_names config template ui :
  wi_name <$> (((λ kv, parameter_input template ui kv.1 kv.2) <$> btree_iter (cfg_parameters config))
               ++ (artifact_input ui <$> cfg_inputs config))
  = public_names config.
Proof. unfold public_names. by rewrite fmap_app, <- !list_fmap_compose. Qed.

Lemma output_names_NoDup (types : list string) k :
  NoDup (wo_name <$> imap (λ index t, mkWorkflowOutput ("output_" +:+ pretty (k + index)) t) types).
Proof.
  rewrite fmap_imap. apply NoDup_alt. intros i j x. rewrite !list_lookup_imap.
  destruct (types !! i), (types !! j); simpl; try done. intros [= <-] [= Heq].
  apply pretty_nat_inj in Heq. lia.
Qed.

Lemma artifact_content_type ui b t :
  binding_present b → wi_content_type (artifact_input ui b) = Some t → present t.
Proof.
  intros [_ Hct]. simpl. destruct (ib_content_type b) as [u|] eqn:Hu; simpl; [naive_solver|].
  unfold content_type_for_input_type. repeat (case_match; [naive_solver|]). done.
Qed.

(** What the catalog does not check of an entry but the protocol does. *)
Definition advertisable (e : WorkflowDefinition) : Prop :=
  Forall present (cfg_output_types (wd_config e))
  ∧ Forall (λ i, present (wi_name i) ∧ present (wi_value_type i)) (wm_inputs (wd_manifest e)).

Lemma manifest_inputs_ok key e :
  entry_ok key e →
  Forall (λ i, present (wi_pointer i) ∧ ∀ c, wi_content_type i = Some c → present c)
    (wm_inputs (wd_manifest e)).
Proof.
  intros (_ & Hok & ui & ws & ->). simpl.
  pose proof (co_addresses _ _ Hok) as Ha. unfold bound_pointers in Ha.
  rewrite Forall_app, !Forall_fmap in Ha. destruct Ha as [Hap Hai].
  apply Forall_app. split; rewrite Forall_fmap.
  - apply (Forall_impl _ _ _ Hap). intros kv [Hs _]. split; [by apply pointer_present|done].
  - eapply Forall_impl; [apply Forall_and; split; [exact Hai|exact (co_bindings_present _ _ Hok)]|].
    intros b [[Hs _] Hb]. split; [by apply pointer_present|].
    intros c. by apply artifact_content_type.
Qed.

Lemma capability_valid_iff key e :
  entry_ok key e → valid_capability (capability_of e) ↔ advertisable e.
Proof.
  intros Hent. pose proof (manifest_inputs_ok _ _ Hent) as Hin.
  destruct Hent as (_ & Hok & ui & ws & Hm).
  unfold valid_capability, advertisable, valid_manifest, capability_of. simpl. split.
  - intros (_ & _ & Hout & Hman). split; [done|].
    destruct (Hman _ eq_refl) as (_ & _ & Hall & _). apply (Forall_impl _ _ _ Hall). tauto.
  - intros [Hout Hnames]. split_and!; [apply Hok|apply Hok|done|]. intros m [= <-].
    split_and!.
    + by rewrite Hm.
    + rewrite Hm. apply Hok.
    + eapply Forall_impl; [apply Forall_and; split; [exact Hnames|exact Hin]|]. simpl. tauto.
    + rewrite Hm. simpl. rewrite manifest_input_names. apply Hok.
    + rewrite Hm. simpl. apply Forall_forall. intros o Ho.
      apply list_elem_of_lookup in Ho as [i Hi]. rewrite list_lookup_imap in Hi.
      destruct (cfg_output_types (wd_config e) !! i) as [t|] eqn:Ht; [|done].
      injection Hi as <-. simpl. split; [by apply present_app_l|].
      by eapply Forall_lookup_1 in Hout.
    + rewrite Hm. apply (output_names_NoDup _ 0).
Qed.

Lemma capabilities_perm c : capabilities c ≡ₚ (λ kv, capability_of kv.2) <$> map_to_list c.
Proof. unfold capabilities. by rewrite merge_sort_Permutation. Qed.

(** What a worker advertises from a loaded catalog passes the Hub's
    registration check exactly when the configured output types, input names
    and value types are not blank: identifiers, duplicates, pointers, content
    types and output names are already settled by loading. *)
Theorem advertised_capabilities_valid read_to_string from_str configs c parallelism queue_depth cancel :
  load read_to_string from_str configs = Ok c →
  validate (mkWorkerCapabilities (capabilities c) parallelism queue_depth cancel ∅) = Ok tt
  ↔ parallelism ≠ 0%Z ∧ map_Forall (λ _ e, advertisable e) c.
Proof.
  intros [Hc Hne]%load_catalog_ok. rewrite validate_capabilities_iff.
  unfold valid_capabilities. simpl.
  assert (Hval : Forall valid_capability (capabilities c) ↔ map_Forall (λ _ e, advertisable e) c).
  { rewrite capabilities_perm, Forall_fmap, Forall_forall. split.
    - intros Hall k e Hke. apply (capability_valid_iff k e (Hc _ _ Hke)).
      apply (Hall (k, e)). by apply elem_of_map_to_list.
    - intros Hall [k e] Hke%elem_of_map_to_list.
      apply (capability_valid_iff k e (Hc _ _ Hke)), (Hall _ _ Hke). }
  assert (Hnd : NoDup ((λ w, (wc_id w, wc_version w)) <$> capabilities c)).
  { rewrite capabilities_perm, <- list_fmap_compose.
    erewrite (list_fmap_ext _ fst); [apply NoDup_fst_map_to_list|].
    intros i [k e] Hke. apply list_elem_of_lookup_2, elem_of_map_to_list in Hke.
    by destruct (Hc _ _ Hke) as (-> & _). }
  assert (Hnil : capabilities c ≠ []).
  { intros Heq. apply Hne, map_to_list_empty_iff.
    pose proof (capabilities_perm c) as Hp. rewrite Heq in Hp.
    apply Permutation_nil_l in Hp. symmetry in Hp. by apply fmap_nil_inv in Hp. }
  rewrite Hval. split; [tauto|]. intros [Hp Hadv]. by split_and!.
Qed.
End catalog.

(** ** Witnesses *)
Module CatalogExample.
Import Rfc6901.

Definition template : Json :=
  JObject [("1", JObject [("inputs", JObject [("image", JString "none"); ("seed", JNumber (PosInt 7));
                                              ("steps", JNumber (PosInt 20))])])].

Definition config : WorkflowConfig := {|
  cfg_id := "upscale"; cfg_version := "1"; cfg_file := "upscale.json";
  cfg_output_types := ["image/png"];
  cfg_parameters := {[ "seed" := "/1/inputs/seed" ]};
  cfg_inputs := [mkInputBinding 0 "/1/inputs/image" None (Some "image/png")];
|}.

Definition input : JobInput := mkJobInput "art" "a.png" "image/png" 1 "" (mkPresignedRequest "GET" "u" ∅ 0).

Definition dispatch : DispatchJob := {|
  dj_command_id := "c"; dj_job_id := "j"; dj_attempt := 1;
  dj_workflow_id := "upscale"; dj_workflow_version := "1";
  dj_parameters := JObject [("seed", JNumber (PosInt 42))];
  dj_inputs := [input];
|}.

Definition read_to_string (_ : string) : option string := Some "{}".
Definition from_str (_ : string) : option Json := Some template.

Definition definition : WorkflowDefinition :=
  mkWorkflowDefinition config template (build_manifest config template ∅ []).

Definition catalog : WorkflowCatalog := {[ ("upscale", "1") := definition ]}.

Lemma load_ok : load read_to_string from_str [config] = Ok catalog.
Proof. vm_cast_no_check (eq_refl (@Ok WorkflowError _ catalog)). Qed.

Lemma dispatch_accepted : accepts catalog dispatch definition [("seed", JNumber (PosInt 42))].
Proof. split_and!; [done|done| |done]. by repeat constructor. Qed.

(** A configuration whose pointers are textually apart but address nested
    places: ["/x~"] and ["/x~0/y"] both start at the member ["x~"]. *)
Definition tilde_template : Json := JObject [("x~", JObject [("y", JString "v")])].

Definition tilde_config : WorkflowConfig := {|
  cfg_id := "tilde"; cfg_version := "1"; cfg_file := "tilde.json";
  cfg_output_types := ["image/png"];
  cfg_parameters := {[ "whole" := "/x~" ]};
  cfg_inputs := [mkInputBinding 0 "/x~0/y" (Some "part") None];
|}.

Definition tilde_dispatch : DispatchJob := {|
  dj_command_id := "c"; dj_job_id := "j"; dj_attempt := 1;
  dj_workflow_id := "tilde"; dj_workflow_version := "1";
  dj_parameters := JObject [("whole", JString "text")];
  dj_inputs := [input];
|}.

Definition tilde_catalog : WorkflowCatalog :=
  {[ ("tilde", "1") := mkWorkflowDefinition tilde_config tilde_template
       (build_manifest tilde_config tilde_template ∅ []) ]}.
End CatalogExample.

Lemma render_writes_exactly_witness :
  ∃ w, @render Rfc6901.pointer CatalogExample.catalog CatalogExample.dispatch ["a.png"] = Ok w
  ∧ @json_pointer Rfc6901.pointer w "/1/inputs/seed" = Some (JNumber (PosInt 42)).
Proof.
  destruct (@render_writes_exactly Rfc6901.pointer Rfc6901.pointer_laws
              CatalogExample.read_to_string CatalogExample.from_str [CatalogExample.config]
              CatalogExample.catalog CatalogExample.dispatch ["a.png"] CatalogExample.definition
              [("seed", JNumber (PosInt 42))]) as (w & Hw & Hparam & _).
  - exact CatalogExample.load_ok.
  - exact CatalogExample.dispatch_accepted.
  - apply NoDup_singleton.
  - reflexivity.
  - unfold canonical_pointer, canonical_segment. apply (bool_decide_unpack _). vm_compute. exact I.
  - exists w. split; [exact Hw|]. apply (Hparam "seed"); [by apply list_elem_of_singleton|reflexivity].
Defined.

Lemma load_accepts_iff_witness :
  validate_dispatch CatalogExample.catalog CatalogExample.dispatch = Ok tt.
Proof.
  apply (@load_accepts_iff Rfc6901.pointer CatalogExample.read_to_string CatalogExample.from_str
           [CatalogExample.config] _ CatalogExample.dispatch CatalogExample.load_ok).
  do 2 eexists. exact CatalogExample.dispatch_accepted.
Defined.

Lemma advertised_capabilities_valid_witness :
  validate (mkWorkerCapabilities (capabilities CatalogExample.catalog) 1 4 true ∅) = Ok tt.
Proof.
  apply (@advertised_capabilities_valid Rfc6901.pointer CatalogExample.read_to_string
           CatalogExample.from_str [CatalogExample.config] _ 1 4 true CatalogExample.load_ok).
  split; [done|]. apply map_Forall_singleton. unfold advertisable, present.
  apply (bool_decide_unpack _). vm_compute. exact I.
Defined.

(** [pointers_overlap] compares pointers without decoding them, so a
    catalog may bind two pointers of which one addresses a part of the other;
    a dispatch the catalog accepts then makes rendering panic. *)
Theorem bare_tilde_render_panics :
  ∃ c, @load Rfc6901.pointer (λ _, Some "") (λ _, Some CatalogExample.tilde_template)
         [CatalogExample.tilde_config] = Ok c
    ∧ validate_dispatch c CatalogExample.tilde_dispatch = Ok tt
    ∧ @render Rfc6901.pointer c CatalogExample.tilde_dispatch ["a.png"] = Err Panicked.
Proof.
  exists CatalogExample.tilde_catalog.
  split; [vm_cast_no_check (eq_refl (@Ok WorkflowError _ CatalogExample.tilde_catalog))|].
  split; [vm_cast_no_check (eq_refl (@Ok WorkflowError _ tt))|].
  vm_cast_no_check (eq_refl (@Err Failure Json Panicked)).
Qed.
