(* ===== verification/HubTypes.v ===== *)
(** Data of the Hub: views and records held in memory
    ([nagisalake-hub/src/hub/state.rs]), persisted rows
    ([nagisalake-hub-store/src/models.rs]), errors, and the names states and
    event kinds are stored under.

    Main result: every stored name parses back to its value and nothing else
    parses. *)

From S2P Require Import Prelude Text Json Messages Core.
From Stdlib Require Import ZArith.

(** ** Errors *)

(** [StoreError]; a driver error is its text. *)
Inductive StoreError :=
| Database (m : string)
| Migration (m : string)
| StConflict (m : string)
| StNotFound (m : string)
| StQuotaExceeded (m : string)
| StInvalidConfig (m : string).

Inductive HubError :=
| ConfigIo (path : string)
| ConfigParse (m : string)
| InvalidConfig (m : string)
| Unauthorized (m : string)
| Forbidden (m : string)
| NotFound (m : string)
| InvalidRequest (m : string)
| Conflict (m : string)
| Unavailable (m : string)
| ObjectStoreError (m : string)
| QuotaExceeded (m : string)
| RateLimited (retry_after_seconds : Z)
| Store (e : StoreError)
| Transport (m : string)
| Io (m : string)
| Axum (m : string).

Definition map_store_error (e : StoreError) : HubError :=
  match e with
  | StNotFound v => NotFound v
  | StConflict v => Conflict v
  | StQuotaExceeded v => QuotaExceeded v
  | other => Store other
  end.

(** ** Artifacts and jobs in memory *)

Inductive ArtifactState := PendingUpload | Ready.

#[export] Instance ArtifactState_eq_dec : EqDecision ArtifactState.
Proof. solve_decision. Defined.

Record ArtifactView := mkArtifactView {
  av_id : string;
  av_job_id : option string;
  av_name : string;
  av_content_type : string;
  av_size_bytes : Z;
  av_sha256 : string;
  av_state : ArtifactState;
}.

Record ArtifactRecord := mkArtifactRecord {
  at_organization_id : string;
  at_view : ArtifactView;
  at_object_key : string;
}.

Record JobEventView := mkJobEventView {
  ev_sequence : Z;
  ev_kind : JobEventKind;
  ev_progress : option spec_float;
  ev_message : string;
  ev_unix_ms : Z;
}.

Record JobView := mkJobView {
  jv_id : string;
  jv_workflow_id : string;
  jv_workflow_version : string;
  jv_parameters : Json;
  jv_input_artifact_ids : list string;
  jv_output_artifact_ids : list string;
  jv_worker_id : string;
  jv_session_id : string;
  jv_state : JobState;
  jv_progress : option spec_float;
  jv_prompt_id : option string;
  jv_error : option string;
  jv_events : list JobEventView;
  jv_created_at_unix_ms : Z;
  jv_updated_at_unix_ms : Z;
}.

Record JobRecord := mkJobRecord {
  hj_organization_id : string;
  hj_actor_id : string;
  hj_actor_kind : string;
  hj_actor_user_id : option string;
  hj_worker_organization_id : string;
  hj_view : JobView;
  hj_dispatch : DispatchJob;
  hj_last_event : Z;
}.

(** ** Persisted rows *)

Record DeviceWorkflowRule := mkDeviceWorkflowRule {
  dr_id : string;
  dr_version : string;
}.

Definition device_workflow_allowed (rules : list DeviceWorkflowRule)
    (workflow_id workflow_version : string) : bool :=
  bool_decide (rules = [])
  || existsb (λ rule, String.eqb (dr_id rule) workflow_id
                      && String.eqb (dr_version rule) workflow_version) rules.

Record DeviceAccess := mkDeviceAccess {
  da_device_organization_id : string;
  da_device_id : string;
  da_access_kind : string;
  da_allowed_workflows : list DeviceWorkflowRule;
  da_max_concurrent_jobs : option Z;
  da_grant_expires_at : option Z;
}.

Record StoredArtifact := mkStoredArtifact {
  sa_organization_id : string;
  sa_id : string;
  sa_job_id : option string;
  sa_name : string;
  sa_content_type : string;
  sa_size_bytes : Z;
  sa_sha256 : string;
  sa_state : string;
  sa_object_key : string;
  sa_created_at : Z;
  sa_updated_at : Z;
}.

Record StoredJob := mkStoredJob {
  sj_organization_id : string;
  sj_id : string;
  sj_actor_id : string;
  sj_actor_kind : string;
  sj_actor_user_id : option string;
  sj_workflow_id : string;
  sj_workflow_version : string;
  sj_parameters_json : string;
  sj_input_artifact_ids_json : string;
  sj_output_artifact_ids_json : string;
  sj_worker_id : option string;
  sj_worker_organization_id : option string;
  sj_session_id : option string;
  sj_attempt : Z;
  sj_state : string;
  sj_progress : option spec_float;
  sj_prompt_id : option string;
  sj_error : option string;
  sj_last_event : Z;
  sj_created_at : Z;
  sj_updated_at : Z;
}.

Record StoredJobEvent := mkStoredJobEvent {
  se_organization_id : string;
  se_job_id : string;
  se_attempt : Z;
  se_sequence : Z;
  se_kind : string;
  se_progress : option spec_float;
  se_prompt_id : option string;
  se_message : string;
  se_unix_ms : Z;
}.

Record StoredUploadRequest := mkStoredUploadRequest {
  su_organization_id : string;
  su_request_id : string;
  su_artifact_id : string;
  su_job_id : option string;
  su_attempt : option Z;
  su_created_at : Z;
  su_completed_at : option Z;
}.

(** ** Stored names *)

Definition artifact_state_name (s : ArtifactState) : string :=
  match s with PendingUpload => "pending_upload" | Ready => "ready" end.

Definition parse_artifact_state (value : string) : Res HubError ArtifactState :=
  if String.eqb value "pending_upload" then Ok PendingUpload
  else if String.eqb value "ready" then Ok Ready
  else Err (InvalidConfig ("unknown persisted artifact state " +:+ value)).

Definition job_state_name (s : JobState) : string :=
  match s with
  | Queued => "queued"
  | Received => "received"
  | Accepted => "accepted"
  | Running => "running"
  | Uploading => "uploading"
  | Completed => "completed"
  | Failed => "failed"
  | Cancelled => "cancelled"
  end.

Definition parse_job_state (value : string) : Res HubError JobState :=
  if String.eqb value "queued" then Ok Queued
  else if String.eqb value "received" then Ok Received
  else if String.eqb value "accepted" then Ok Accepted
  else if String.eqb value "running" then Ok Running
  else if String.eqb value "uploading" then Ok Uploading
  else if String.eqb value "completed" then Ok Completed
  else if String.eqb value "failed" then Ok Failed
  else if String.eqb value "cancelled" then Ok Cancelled
  else Err (InvalidConfig ("unknown persisted job state " +:+ value)).

Definition event_kind_name (k : JobEventKind) : string :=
  match k with
  | EvAccepted => "accepted"
  | EvRunning => "running"
  | EvProgress => "progress"
  | EvUploading => "uploading"
  | EvCompleted => "completed"
  | EvFailed => "failed"
  | EvCancelled => "cancelled"
  end.

Definition parse_event_kind (value : string) : Res HubError JobEventKind :=
  if String.eqb value "accepted" then Ok EvAccepted
  else if String.eqb value "running" then Ok EvRunning
  else if String.eqb value "progress" then Ok EvProgress
  else if String.eqb value "uploading" then Ok EvUploading
  else if String.eqb value "completed" then Ok EvCompleted
  else if String.eqb value "failed" then Ok EvFailed
  else if String.eqb value "cancelled" then Ok EvCancelled
  else Err (InvalidConfig ("unknown persisted event kind " +:+ value)).

(** Runs through the comparisons of a parser. *)
Ltac parse_cases :=
  repeat match goal with |- context [String.eqb ?v ?s] => destruct (String.eqb_spec v s) end.

Lemma parse_artifact_state_iff v s : parse_artifact_state v = Ok s ↔ v = artifact_state_name s.
Proof.
  split; [|intros ->; by destruct s]. unfold parse_artifact_state. parse_cases; naive_solver.
Qed.

Lemma parse_job_state_iff v s : parse_job_state v = Ok s ↔ v = job_state_name s.
Proof.
  split; [|intros ->; by destruct s]. unfold parse_job_state. parse_cases; naive_solver.
Qed.

Lemma parse_event_kind_iff v k : parse_event_kind v = Ok k ↔ v = event_kind_name k.
Proof.
  split; [|intros ->; by destruct k]. unfold parse_event_kind. parse_cases; naive_solver.
Qed.

Lemma job_state_name_inj s t : job_state_name s = job_state_name t ↔ s = t.
Proof. split; [by destruct s, t|by intros ->]. Qed.

(** The Hub reads back the state and event names it stores, and rejects
    every other text: for each of the three name tables, parsing succeeds
    exactly on the name of the value. *)
Theorem stored_names_round_trip v :
  (∀ s, parse_job_state v = Ok s ↔ v = job_state_name s)
  ∧ (∀ k, parse_event_kind v = Ok k ↔ v = event_kind_name k)
  ∧ (∀ s, parse_artifact_state v = Ok s ↔ v = artifact_state_name s).
Proof.
  split_and!; intros x;
    [apply parse_job_state_iff|apply parse_event_kind_iff|apply parse_artifact_state_iff].
Qed.
