(* ===== verification/Principal.v ===== *)
(** Roles, permissions and principals ([nagisalake-hub-auth/src/principal.rs]).

    Main results: a higher role may do whatever a lower one may; an API key
    needs the scope of the permission besides its owner's role; a stored role
    name reads back to its role and no other text is a role. *)

From S2P Require Import Prelude Text.
From Stdlib Require Import Lia.

Inductive Role := Viewer | Member | Operator | Admin | Owner.

Inductive Permission :=
| WorkflowsRead
| WorkflowsPublish
| JobsReadOrganization
| JobsWrite
| JobsCancelOwn
| JobsCancelAny
| ArtifactsRead
| ArtifactsWrite
| WorkersManage
| MembersManage
| ApiKeysManageOwn
| ApiKeysManage
| QuotaRead
| QuotaManage
| AuditRead
| OrganizationDelete
| DevicesRead
| DevicesUse
| DevicesRegisterOwn
| DevicesShareOwn.

Inductive PrincipalKind := BrowserSession | ApiKey | WorkerCredential | LegacyToken.

#[export] Instance Role_eq_dec : EqDecision Role.
Proof. solve_decision. Defined.
#[export] Instance PrincipalKind_eq_dec : EqDecision PrincipalKind.
Proof. solve_decision. Defined.

Record Principal := mkPrincipal {
  pc_kind : PrincipalKind;
  pc_actor_id : string;
  pc_user_id : option string;
  pc_organization_id : string;
  pc_role : Role;
  pc_scopes : gset string;
}.

Definition rank (r : Role) : nat :=
  match r with Viewer => 0 | Member => 1 | Operator => 2 | Admin => 3 | Owner => 4 end.

(** [Role::allows]. *)
Definition role_allows (r : Role) (permission : Permission) : bool :=
  match permission with
  | WorkflowsRead | JobsReadOrganization | QuotaRead => rank Viewer <=? rank r
  | JobsWrite | JobsCancelOwn | ArtifactsRead | ArtifactsWrite | ApiKeysManageOwn | DevicesRead
  | DevicesUse | DevicesRegisterOwn | DevicesShareOwn => rank Member <=? rank r
  | JobsCancelAny | WorkersManage | WorkflowsPublish => rank Operator <=? rank r
  | MembersManage | ApiKeysManage | QuotaManage | AuditRead => rank Admin <=? rank r
  | OrganizationDelete => bool_decide (r = Owner)
  end.

(** [Display] and [FromStr] of a role; the error is [InvalidRole]'s text. *)
Definition role_name (r : Role) : string :=
  match r with
  | Viewer => "viewer"
  | Member => "member"
  | Operator => "operator"
  | Admin => "admin"
  | Owner => "owner"
  end.

Definition role_from_str (value : string) : Res string Role :=
  if String.eqb value "viewer" then Ok Viewer
  else if String.eqb value "member" then Ok Member
  else if String.eqb value "operator" then Ok Operator
  else if String.eqb value "admin" then Ok Admin
  else if String.eqb value "owner" then Ok Owner
  else Err value.

Definition scope (permission : Permission) : string :=
  match permission with
  | WorkflowsRead => "workflows:read"
  | WorkflowsPublish => "workflows:write"
  | JobsReadOrganization => "jobs:read"
  | JobsWrite => "jobs:write"
  | JobsCancelOwn | JobsCancelAny => "jobs:cancel"
  | ArtifactsRead => "artifacts:read"
  | ArtifactsWrite => "artifacts:write"
  | WorkersManage => "workers:manage"
  | MembersManage => "members:manage"
  | ApiKeysManageOwn | ApiKeysManage => "api_keys:manage"
  | QuotaRead => "quota:read"
  | QuotaManage => "quota:manage"
  | AuditRead => "audit:read"
  | OrganizationDelete => "organizations:delete"
  | DevicesRead => "devices:read"
  | DevicesUse => "devices:use"
  | DevicesRegisterOwn => "devices:register"
  | DevicesShareOwn => "devices:share"
  end.

(** [Principal::allows]. *)
Definition allows (p : Principal) (permission : Permission) : bool :=
  if negb (role_allows (pc_role p) permission) then false
  else negb (bool_decide (pc_kind p = ApiKey)) || bool_decide (scope permission ∈ pc_scopes p).

(** ** Lemmas *)

(** A role may do whatever a role of lower rank may. *)
Lemma role_allows_mono r s permission :
  rank r ≤ rank s → role_allows r permission = true → role_allows s permission = true.
Proof. destruct permission, r, s; simpl; intros; done || lia. Qed.

Lemma role_from_str_iff v r : role_from_str v = Ok r ↔ v = role_name r.
Proof.
  split; [|intros ->; by destruct r]. unfold role_from_str.
  repeat match goal with |- context [String.eqb v ?s] => destruct (String.eqb_spec v s) end; naive_solver.
Qed.

Lemma allows_role p permission : allows p permission = true → role_allows (pc_role p) permission = true.
Proof. unfold allows. by destruct (role_allows _ _). Qed.

Lemma allows_api_key p permission :
  allows p permission = true → pc_kind p = ApiKey → scope permission ∈ pc_scopes p.
Proof.
  unfold allows. destruct (role_allows _ _); simpl; [|done]. intros [Hk|Hs]%orb_true_iff ?; by bool_cases.
Qed.
