(* ===== verification/Helpers.v ===== *)
(** Request helpers of the Hub ([nagisalake-hub/src/hub/api_helpers.rs]) and
    the worker id built from a registration ([hub/worker.rs]).

    Main results: the constant-time comparison decides equality; a file name
    made safe is one path component; on validated registrations the
    sanitisation is the identity and distinct identities get distinct worker
    ids. *)

From S2P Require Import Prelude Text Json Messages Validate Core HubTypes.
From Stdlib Require Import ZArith Lia Ascii.

(** ** Tokens *)

(** [value.trim().strip_prefix("Bearer ").or_else(..)], trimmed and not empty;
    [None] also stands for an absent or non-UTF-8 header. *)
Definition bearer_token (authorization : option string) : option string :=
  value ← authorization;
  token ← trim <$> option_or (strip_prefix "Bearer " (trim value))
                             (strip_prefix "bearer " (trim value));
  if String.eqb token "" then None else Some token.

(** The bytes of a string. *)
Fixpoint bytes (s : string) : list N :=
  match s with
  | EmptyString => []
  | String a s' => byte_of a :: bytes s'
  end.

Definition constant_time_eq (left right : list N) : bool :=
  if negb (length left =? length right) then false
  else (foldl (λ difference lr, N.lor difference (N.lxor lr.1 lr.2)) 0%N (zip left right) =? 0)%N.

Definition require_consumer (authorization consumer_token : option string) : Res HubError unit :=
  token ← ok_or (Unauthorized "consumer bearer token is required") (bearer_token authorization);
  expected ← ok_or (InvalidConfig "consumer token is not configured") consumer_token;
  reject_if (negb (constant_time_eq (bytes token) (bytes expected)))
    (Unauthorized "invalid consumer token").

(** ** Artifacts *)

Definition MAX_NAME_CHARS : nat := 255.

Definition is_sha256 (value : string) : bool :=
  (str_len value =? 64) && str_all is_ascii_hexdigit value.

Definition validate_artifact_metadata (name content_type : string) (size_bytes : Z)
    (sha256 : string) (max_bytes : Z) : Res HubError unit :=
  reject_if (is_blank name || (MAX_NAME_CHARS <? chars_count name))
    (InvalidRequest "artifact name is invalid") ;;
  reject_if (is_blank content_type) (InvalidRequest "content_type must not be empty") ;;
  reject_if ((size_bytes =? 0) || (max_bytes <? size_bytes))%Z
    (InvalidRequest "artifact size is outside the configured limit") ;;
  reject_if (negb (is_sha256 sha256))
    (InvalidRequest "sha256 must be a 64-character hexadecimal digest").

Record ObjectMetadata := mkObjectMetadata {
  om_size_bytes : Z;
  om_content_type : option string;
  om_sha256 : option string;
}.

Definition object_metadata_matches (metadata : ObjectMetadata) (artifact : ArtifactView) : bool :=
  (om_size_bytes metadata =? av_size_bytes artifact)%Z
  && bool_decide (om_content_type metadata = Some (av_content_type artifact))
  && is_some_and (λ v, eq_ignore_ascii_case v (av_sha256 artifact)) (om_sha256 metadata).

(** ** Names *)

(** [Path::file_name]: the last component that is not empty or ["."], unless
    it is [".."]. *)
Definition file_name (value : string) : option string :=
  component ← last (List.filter (λ c, negb (String.eqb c "" || String.eqb c "."))
                      (split_char "/" value));
  if String.eqb component ".." then None else Some component.

Definition safe_char (a : ascii) : bool :=
  is_ascii_alphanumeric a || Ascii.eqb a "." || Ascii.eqb a "-" || Ascii.eqb a "_".

Definition safe_filename (value : string) : string :=
  let candidate := default "artifact.bin" (file_name value) in
  let result := chars_sanitize safe_char candidate in
  if String.eqb result "" || String.eqb result "." || String.eqb result ".."
  then "artifact.bin" else result.

Definition safe_component (value : string) : string :=
  let result := chars_sanitize safe_char value in
  if String.eqb result "" then "worker" else result.

Definition truncate (value : string) (max_chars : nat) : string := chars_take max_chars value.

(** [format!("{}/{}", safe_component(..), safe_component(..))]. *)
Definition worker_id_of (r : Register) : string :=
  safe_component (rg_namespace r) +:+ String "/" (safe_component (rg_node_name r)).

(** ** HTTP status of an error *)

(** [Display] of the errors. *)
Definition store_error_text (e : StoreError) : string :=
  match e with
  | Database m => "database error: " +:+ m
  | Migration m => "database migration failed: " +:+ m
  | StConflict m => "store conflict: " +:+ m
  | StNotFound m => "store resource not found: " +:+ m
  | StQuotaExceeded m => "quota exceeded: " +:+ m
  | StInvalidConfig m => "invalid store configuration: " +:+ m
  end.

Definition hub_error_text (e : HubError) : string :=
  match e with
  | ConfigIo path => "failed to read config " +:+ path
  | ConfigParse m => "failed to parse config: " +:+ m
  | InvalidConfig m => "invalid Hub configuration: " +:+ m
  | Unauthorized m => "unauthorized: " +:+ m
  | Forbidden m => "forbidden: " +:+ m
  | NotFound m => "not found: " +:+ m
  | InvalidRequest m => "invalid request: " +:+ m
  | Conflict m => "conflict: " +:+ m
  | Unavailable m => "worker unavailable: " +:+ m
  | ObjectStoreError m => "object store failed: " +:+ m
  | QuotaExceeded m => "quota exceeded: " +:+ m
  | RateLimited s => "too many requests; retry in " +:+ pretty s +:+ "s"
  | HubTypes.Store e => "persistent store failed: " +:+ store_error_text e
  | Transport m => "transport failed: " +:+ m
  | Io m => "I/O failed: " +:+ m
  | Axum m => "HTTP server failed: " +:+ m
  end.

Definition api_error_status (e : HubError) : Z :=
  match e with
  | Unauthorized _ => 401
  | NotFound _ => 404
  | InvalidRequest _ => 400
  | Conflict _ => 409
  | Unavailable _ | ObjectStoreError _ => 502
  | Forbidden _ => 403
  | QuotaExceeded _ | RateLimited _ => 429
  | InvalidConfig _ => 500
  | ConfigIo _ | ConfigParse _ | Store _ | Io _ | Axum _ => 500
  | Transport _ => 502
  end.

(** ** Lemmas *)

Lemma bytes_length s : length (bytes s) = str_len s.
Proof. induction s; simpl; [done|]. by f_equal. Qed.

Lemma bytes_inj s t : bytes s = bytes t ↔ s = t.
Proof.
  split; [|by intros ->]. revert t; induction s as [|a s IH]; intros [|b t]; simpl; try done.
  intros [= Hab Hst]. f_equal; [|auto]. unfold byte_of in Hab.
  by rewrite <- (ascii_N_embedding a), <- (ascii_N_embedding b), Hab.
Qed.

Lemma lor_fold_zero (l : list (N * N)) d :
  foldl (λ d lr, N.lor d (N.lxor lr.1 lr.2)) d l = 0%N ↔ d = 0%N ∧ Forall (λ lr, lr.1 = lr.2) l.
Proof.
  revert d; induction l as [|[x y] l IH]; intros d; simpl; [naive_solver|].
  rewrite IH, N.lor_eq_0_iff, N.lxor_eq_0_iff, Forall_cons. simpl. naive_solver.
Qed.

Lemma constant_time_eq_bytes left right : constant_time_eq left right = true ↔ left = right.
Proof.
  unfold constant_time_eq. destruct (Nat.eqb_spec (length left) (length right)) as [Hlen|Hne]; simpl.
  - rewrite N.eqb_eq, lor_fold_zero. revert right Hlen.
    induction left as [|x left IH]; intros [|y right] Hlen; simplify_eq/=; [naive_solver|].
    specialize (IH right Hlen). rewrite Forall_cons. simpl. naive_solver.
  - split; [done|]. by intros ->.
Qed.

Lemma safe_char_not_continuation a : safe_char a = true → is_continuation a = false.
Proof.
  intros Ha. apply (identity_char_ascii a) in Ha. unfold is_continuation, in_range.
  rewrite andb_false_iff, !N.leb_gt. lia.
Qed.

Lemma chars_sanitize_id s : str_all safe_char s = true → chars_sanitize safe_char s = s.
Proof.
  induction s as [|a s IH]; simpl; [done|]. rewrite andb_true_iff. intros [Ha Hs].
  by rewrite safe_char_not_continuation, Ha, IH.
Qed.

Lemma chars_sanitize_safe s : str_all safe_char (chars_sanitize safe_char s) = true.
Proof.
  induction s as [|a s IH]; simpl; [done|]. destruct (is_continuation a); [done|]. simpl.
  rewrite IH, andb_true_r. by destruct (safe_char a) eqn:Ha.
Qed.

Lemma safe_component_id s : identity_ok s → safe_component s = s.
Proof.
  intros (Hne & _ & Hall & _). unfold safe_component. rewrite chars_sanitize_id by done.
  by destruct (String.eqb_spec s "").
Qed.

(** The consumer API admits a caller exactly when it presents the
    configured token: the accumulated XOR comparison decides equality of the
    two byte strings, whatever their lengths. *)
Theorem consumer_token_exact authorization consumer_token :
  require_consumer authorization consumer_token = Ok tt
  ↔ ∃ t, bearer_token authorization = Some t ∧ consumer_token = Some t.
Proof.
  unfold require_consumer. split.
  - intros Hr. inv_ok. bool_cases.
    match goal with H : constant_time_eq _ _ = true |- _ =>
      apply constant_time_eq_bytes, bytes_inj in H; subst end. eauto.
  - intros (t & -> & ->). simpl. apply reject_if_Ok, negb_false_iff. by apply constant_time_eq_bytes.
Qed.

(** A name from [safe_filename] is one path component: visible ASCII
    letters, digits, dots, dashes and underscores only, never empty, ["."] or
    [".."]; and a name already of that form is kept. *)
Theorem safe_filename_component value :
  str_all safe_char (safe_filename value) = true
  ∧ safe_filename value ≠ "" ∧ safe_filename value ≠ "." ∧ safe_filename value ≠ ".."
  ∧ (str_all safe_char value = true → value ≠ "" → value ≠ "." → value ≠ ".." →
     safe_filename value = value).
Proof.
  assert (Hout : ∀ r, str_all safe_char r = true →
    let out := if String.eqb r "" || String.eqb r "." || String.eqb r ".." then "artifact.bin" else r in
    str_all safe_char out = true ∧ out ≠ "" ∧ out ≠ "." ∧ out ≠ "..").
  { intros r Hr. destruct (String.eqb_spec r ""), (String.eqb_spec r "."), (String.eqb_spec r "..");
      done. }
  destruct (Hout _ (chars_sanitize_safe (default "artifact.bin" (file_name value)))) as (H1 & H2 & H3 & H4).
  split_and!; [done..|]. intros Hs Hne Hdot Hdd.
  assert (file_name value = Some value) as Hf.
  { unfold file_name. rewrite split_char_none.
    - apply String.eqb_neq in Hne, Hdot, Hdd. simpl. rewrite Hne, Hdot. simpl. by rewrite Hdd.
    - revert Hs. apply str_all_impl. intros a Ha. by destruct (Ascii.eqb_spec a "/") as [->|]. }
  unfold safe_filename. rewrite Hf. simpl. rewrite chars_sanitize_id by done.
  apply String.eqb_neq in Hne, Hdot, Hdd. by rewrite Hne, Hdot, Hdd.
Qed.

(** Worker ids identify workers: two registrations that pass validation
    get the same id exactly when they report the same namespace and node
    name. *)
Theorem worker_id_injective r1 r2 :
  validate r1 = Ok tt → validate r2 = Ok tt →
  worker_id_of r1 = worker_id_of r2
  ↔ rg_namespace r1 = rg_namespace r2 ∧ rg_node_name r1 = rg_node_name r2.
Proof.
  rewrite !validate_register_iff. intros (_ & Hn1 & Hm1 & _) (_ & Hn2 & Hm2 & _).
  unfold worker_id_of. rewrite !safe_component_id by done. split; [|by intros [-> ->]].
  apply join_inj; [destruct Hn1 as (_ & _ & Hall & _)|destruct Hn2 as (_ & _ & Hall & _)];
    revert Hall; apply str_all_impl; intros a Ha; by destruct (Ascii.eqb_spec a "/") as [->|].
Qed.

(** ** Witness *)
Module RegisterExample.
Definition register (namespace node_name : string) : Register := {|
  rg_protocol_version := 2; rg_namespace := namespace; rg_node_name := node_name;
  rg_worker_version := "0.1"; rg_recovery_job_ids := [];
  rg_capabilities := mkWorkerCapabilities [mkWorkflowCapability "w" "1" [] None] 1 0 false ∅;
|}.
End RegisterExample.

Lemma worker_id_injective_witness :
  worker_id_of (RegisterExample.register "lab" "gpu-1")
  ≠ worker_id_of (RegisterExample.register "lab" "gpu_1").
Proof.
  intros Heq.
  apply (worker_id_injective (RegisterExample.register "lab" "gpu-1")
           (RegisterExample.register "lab" "gpu_1")) in Heq as [_ Hn];
    [discriminate Hn|vm_compute; reflexivity|vm_compute; reflexivity].
Defined.
