(* ===== verification/TtlCache.v ===== *)
(** The Hub's bounded read caches and tenant gate
    ([nagisalake-hub/src/hub/state.rs]: [TtlCache], [ReadCache], [QuotaGate],
    [HubData::remove_organization]).

    Instants are [Z] (nanoseconds of a monotone clock) passed to each
    operation; the queue of [(seq, key)] slots and the map it may run ahead of
    are both modelled.  Main results: over any sequence of operations the map
    and the queue stay within their bounds and every live entry has its slot;
    an insertion removes exactly the expired entries and, when the cache is
    full, an entry no other expires before, as the full sweep it replaces
    would; the tenant gate never hands two locks to one organization. *)

From S2P Require Import Prelude Text.
From Stdlib Require Import ZArith Lia Ascii.

(** ** [TtlCache] *)

Record ReadCacheEntry (T : Type) := mkEntry {
  ce_value : T;
  ce_expires_at : Z;
  ce_seq : Z;
}.
Arguments mkEntry {T}.
Arguments ce_value {T}.
Arguments ce_expires_at {T}.
Arguments ce_seq {T}.

Record TtlCache (T : Type) := mkCache {
  tc_entries : gmap string (ReadCacheEntry T);
  tc_order : list (Z * string);
  tc_next_seq : Z;
  tc_ttl : Z;
  tc_capacity : Z;
}.
Arguments mkCache {T}.
Arguments tc_entries {T}.
Arguments tc_order {T}.
Arguments tc_next_seq {T}.
Arguments tc_ttl {T}.
Arguments tc_capacity {T}.

(** [usize::saturating_mul]. *)
Definition usize_saturating_mul (a b : Z) : Z := Z.min u64_max (a * b).

Section cache.
Context {T : Type}.
Implicit Types (c : TtlCache T) (entries : gmap string (ReadCacheEntry T)) (order : list (Z * string)).

Definition TtlCache_new (ttl capacity : Z) : TtlCache T :=
  mkCache ∅ [] 0 ttl (Z.max capacity 1).

Definition with_entries c entries : TtlCache T :=
  mkCache entries (tc_order c) (tc_next_seq c) (tc_ttl c) (tc_capacity c).

Definition get (now : Z) c (key : string) : option T * TtlCache T :=
  match tc_entries c !! key with
  | None => (None, c)
  | Some e =>
      if (ce_expires_at e <=? now)%Z then (None, with_entries c (delete key (tc_entries c)))
      else (Some (ce_value e), c)
  end.

(** [entries.get(key).is_some_and(|entry| entry.seq == seq)]. *)
Definition slot_live entries (slot : Z * string) : bool :=
  is_some_and (λ e, (ce_seq e =? slot.1)%Z) (entries !! slot.2).

(** The [while let] loops consume the queue from the front. *)
Fixpoint drop_expired (now : Z) order entries : list (Z * string) * gmap string (ReadCacheEntry T) :=
  match order with
  | [] => ([], entries)
  | (seq, key) :: rest =>
      match entries !! key with
      | Some e =>
          if (ce_seq e =? seq)%Z then
            if (now <? ce_expires_at e)%Z then (order, entries)
            else drop_expired now rest (delete key entries)
          else drop_expired now rest entries
      | None => drop_expired now rest entries
      end
  end.

Fixpoint evict_oldest order entries : list (Z * string) * gmap string (ReadCacheEntry T) :=
  match order with
  | [] => ([], entries)
  | (seq, key) :: rest =>
      if slot_live entries (seq, key) then (rest, delete key entries) else evict_oldest rest entries
  end.

Definition insert (now : Z) c (key : string) (value : T) : TtlCache T :=
  let '(order, entries) := drop_expired now (tc_order c) (tc_entries c) in
  let '(order, entries) :=
    if (tc_capacity c <=? Z.of_nat (size entries))%Z && bool_decide (entries !! key = None)
    then evict_oldest order entries else (order, entries) in
  let seq := tc_next_seq c in
  let order := order ++ [(seq, key)] in
  let entries := <[key := mkEntry value (now + tc_ttl c) seq]> entries in
  let order :=
    if (usize_saturating_mul (tc_capacity c) 2 <? Z.of_nat (length order))%Z
    then List.filter (slot_live entries) order else order in
  mkCache entries order (u64_wrapping_add seq 1) (tc_ttl c) (tc_capacity c).

Definition remove c (key : string) : TtlCache T :=
  with_entries c (delete key (tc_entries c)).

Definition retain c (keep : string → bool) : TtlCache T :=
  with_entries c (filter (λ kv, keep kv.1 = true) (tc_entries c)).

(** *** Invariant *)

(** Slots are in strictly increasing sequence order, every entry has its own
    slot, and later entries expire no earlier. *)
Record queue_ok order entries : Prop := {
  qo_sorted : pairwise (λ a b, a.1 < b.1)%Z order;
  qo_slot : ∀ k e, entries !! k = Some e → (ce_seq e, k) ∈ order;
  qo_expiry : ∀ k e k' e', entries !! k = Some e → entries !! k' = Some e' →
    (ce_seq e ≤ ce_seq e')%Z → (ce_expires_at e ≤ ce_expires_at e')%Z;
}.

Definition live_at (now : Z) entries : gmap string (ReadCacheEntry T) :=
  filter (λ kv, now < ce_expires_at kv.2)%Z entries.

Lemma live_at_lookup now entries k e :
  live_at now entries !! k = Some e ↔ entries !! k = Some e ∧ (now < ce_expires_at e)%Z.
Proof. unfold live_at. by rewrite map_lookup_filter_Some. Qed.

Lemma queue_ok_subset order entries entries' :
  entries' ⊆ entries → queue_ok order entries → queue_ok order entries'.
Proof.
  intros Hsub [H1 H2 H3]. rewrite map_subseteq_spec in Hsub.
  split; [done|intros k e Hk; by apply H2, Hsub|].
  intros k e k' e' Hk%Hsub Hk'%Hsub. eauto.
Qed.

(** Removing the front slot once nothing is stored under it. *)
Lemma queue_ok_pop s k order entries :
  queue_ok ((s, k) :: order) entries → slot_live entries (s, k) = false → queue_ok order entries.
Proof.
  intros [H1 H2 H3] Hstale. destruct H1 as [_ H1]. split; [done| |done].
  intros k' e Hk. destruct (proj1 (elem_of_cons _ _ _) (H2 _ _ Hk)) as [[= <- <-]|]; [|done].
  unfold slot_live in Hstale. simpl in Hstale. rewrite Hk in Hstale. simpl in Hstale.
  by rewrite Z.eqb_refl in Hstale.
Qed.

(** The front slot, when live, belongs to an oldest entry. *)
Lemma queue_front_oldest s k order entries e :
  queue_ok ((s, k) :: order) entries → entries !! k = Some e → ce_seq e = s →
  ∀ k' e', entries !! k' = Some e' → (ce_seq e ≤ ce_seq e')%Z.
Proof.
  intros [[H1 _] H2 _] Hk <- k' e' Hk'. rewrite Forall_forall in H1.
  destruct (proj1 (elem_of_cons _ _ _) (H2 _ _ Hk')) as [[= -> _]|Hin]; [lia|].
  specialize (H1 _ Hin). simpl in H1. lia.
Qed.

Lemma slot_live_delete entries s k : slot_live (delete k entries) (s, k) = false.
Proof. unfold slot_live. simpl. by rewrite lookup_delete_eq. Qed.

Lemma queue_ok_pop_delete s k order entries :
  queue_ok ((s, k) :: order) entries → queue_ok order (delete k entries).
Proof.
  intros Hq. eapply (queue_ok_pop s k); [|apply slot_live_delete].
  eapply queue_ok_subset; [apply delete_subseteq|done].
Qed.

(** Dropping the expired prefix drops every expired entry. *)
Lemma drop_expired_spec now order entries :
  queue_ok order entries →
  (drop_expired now order entries).2 = live_at now entries
  ∧ queue_ok (drop_expired now order entries).1 (live_at now entries)
  ∧ ∃ p, order = p ++ (drop_expired now order entries).1.
Proof.
  revert entries; induction order as [|[s k] order IH]; intros entries Hq; simpl.
  { assert (entries = ∅) as ->.
    { apply map_empty. intros k. destruct (entries !! k) eqn:Hk; [|done].
      destruct (not_elem_of_nil _ (qo_slot _ _ Hq _ _ Hk)). }
    unfold live_at. rewrite map_filter_empty. split_and!; [done|done|by exists []]. }
  assert (Hskip : slot_live entries (s, k) = false →
    (drop_expired now order entries).2 = live_at now entries
    ∧ queue_ok (drop_expired now order entries).1 (live_at now entries)
    ∧ ∃ p, (s, k) :: order = p ++ (drop_expired now order entries).1).
  { intros Hstale. destruct (IH entries (queue_ok_pop _ _ _ _ Hq Hstale)) as (H1 & H2 & p & H3).
    split_and!; [done..|]. exists ((s, k) :: p). simpl. by rewrite <- H3. }
  unfold slot_live in Hskip. simpl in Hskip.
  destruct (entries !! k) as [e|] eqn:Hk; simpl in Hskip; [|auto].
  destruct (Z.eqb_spec (ce_seq e) s) as [Hs|]; [|auto].
  destruct (Z.ltb_spec now (ce_expires_at e)) as [Hlive|Hexp].
  - assert (live_at now entries = entries) as ->; [|split_and!; [done..|by exists []]].
    apply map_filter_id. intros k' e' Hk'. eapply Z.lt_le_trans; [exact Hlive|].
    eapply (qo_expiry _ _ Hq); [done..|]. by eapply queue_front_oldest.
  - destruct (IH (delete k entries) (queue_ok_pop_delete _ _ _ _ Hq)) as (H1 & H2 & p & H3).
    assert (live_at now (delete k entries) = live_at now entries) as Heq.
    { unfold live_at. apply map_filter_delete_not. intros y Hy. simpl. simplify_eq. lia. }
    rewrite Heq in *. split_and!; [done..|]. exists ((s, k) :: p). simpl. by rewrite <- H3.
Qed.

(** Eviction removes an entry that no other expires before. *)
Lemma evict_oldest_spec order entries :
  queue_ok order entries → entries ≠ ∅ →
  ∃ victim e, entries !! victim = Some e
    ∧ (∀ k' e', entries !! k' = Some e' → (ce_expires_at e ≤ ce_expires_at e')%Z)
    ∧ (evict_oldest order entries).2 = delete victim entries
    ∧ queue_ok (evict_oldest order entries).1 (delete victim entries)
    ∧ ∃ p, order = p ++ (evict_oldest order entries).1.
Proof.
  intros Hq Hne. induction order as [|[s k] order IH]; simpl.
  { destruct (map_choose entries Hne) as (k & e & Hk).
    destruct (not_elem_of_nil _ (qo_slot _ _ Hq _ _ Hk)). }
  destruct (slot_live entries (s, k)) eqn:Hlive.
  - unfold slot_live in Hlive. apply is_some_and_true in Hlive as (e & Hk & Hs).
    apply Z.eqb_eq in Hs. simpl in *. exists k, e. split; [done|]. split.
    { intros k' e' Hk'. eapply (qo_expiry _ _ Hq); [done..|]. by eapply queue_front_oldest. }
    split; [done|]. split; [by eapply queue_ok_pop_delete|by exists [(s, k)]].
  - destruct (IH (queue_ok_pop _ _ _ _ Hq Hlive)) as (v & e & H1 & H2 & H3 & H4 & p & H5).
    exists v, e. split_and!; [done..|]. exists ((s, k) :: p). simpl. by rewrite <- H5.
Qed.

(** Live slots are no more than the entries. *)
Lemma live_slots_bound order entries :
  pairwise (λ a b, a.1 < b.1)%Z order →
  length (List.filter (slot_live entries) order) ≤ size entries.
Proof.
  intros Hs. rewrite <- size_dom.
  assert (Hnd : NoDup (List.filter (slot_live entries) order).*2).
  { induction order as [|[s k] order IH]; simpl; [constructor|]. destruct Hs as [Hh Hs].
    destruct (slot_live entries (s, k)) eqn:Hk; [|auto]. simpl. constructor; [|auto].
    intros ([s' k'] & -> & Hin)%list_elem_of_fmap.
    apply list_elem_of_In, filter_In in Hin as [Hin Hk']. apply list_elem_of_In in Hin.
    rewrite Forall_forall in Hh. specialize (Hh _ Hin). unfold slot_live in *. simpl in *.
    apply is_some_and_true in Hk as (e & He & Heq), Hk' as (e' & He' & Heq').
    simplify_eq. lia. }
  rewrite <- (length_fmap snd), <- (size_list_to_set (C := gset string)) by done.
  apply subseteq_size. intros k Hk. apply elem_of_list_to_set, list_elem_of_fmap in Hk
    as ([s k'] & -> & Hin).
  apply list_elem_of_In, filter_In in Hin as [_ Hl]. apply is_some_and_true in Hl as (e & He & _).
  apply elem_of_dom. by exists e.
Qed.

Record cache_ok (now : Z) c : Prop := {
  cc_capacity : (1 ≤ tc_capacity c ≤ u64_max)%Z;
  cc_ttl : (0 ≤ tc_ttl c)%Z;
  cc_queue : queue_ok (tc_order c) (tc_entries c);
  cc_size : (Z.of_nat (size (tc_entries c)) ≤ tc_capacity c)%Z;
  cc_order : (Z.of_nat (length (tc_order c)) ≤ usize_saturating_mul (tc_capacity c) 2)%Z;
  cc_seqs : ∀ slot, slot ∈ tc_order c → (slot.1 < tc_next_seq c)%Z;
  cc_next : (0 ≤ tc_next_seq c)%Z;
  cc_expires : ∀ k e, tc_entries c !! k = Some e → (ce_expires_at e ≤ now + tc_ttl c)%Z;
}.

Lemma cache_ok_new now ttl capacity :
  (0 ≤ ttl)%Z → (capacity ≤ u64_max)%Z → cache_ok now (TtlCache_new ttl capacity).
Proof.
  intros Httl Hcap. unfold u64_max in *.
  split; simpl; unfold usize_saturating_mul, u64_max; try (rewrite ?map_size_empty; lia).
  - split; [done|intros k e; by rewrite lookup_empty|intros k e k' e'; by rewrite lookup_empty].
  - intros slot Hs. by apply not_elem_of_nil in Hs.
  - intros k e. by rewrite lookup_empty.
Qed.

(** Losing entries keeps the invariant: [get] of an expired key, [remove],
    [retain]. *)
Lemma cache_ok_shrink now c entries :
  cache_ok now c → entries ⊆ tc_entries c → cache_ok now (with_entries c entries).
Proof.
  intros [H1 H2 H3 H4 H5 H6 H7 H8] Hsub. split; simpl; try done.
  - by eapply queue_ok_subset.
  - pose proof (map_subseteq_size _ _ Hsub). lia.
  - intros k e Hk. rewrite map_subseteq_spec in Hsub. eauto.
Qed.

Lemma cache_ok_later now now' c : (now ≤ now')%Z → cache_ok now c → cache_ok now' c.
Proof.
  intros Hle [H1 H2 H3 H4 H5 H6 H7 H8]. split; try done. intros k e Hk. specialize (H8 k e Hk). lia.
Qed.

(** The entries an insertion keeps. *)
Definition kept_entries (now : Z) c (key : string) (kept : gmap string (ReadCacheEntry T)) : Prop :=
  let live := live_at now (tc_entries c) in
  if (tc_capacity c <=? Z.of_nat (size live))%Z && bool_decide (live !! key = None) then
    ∃ victim e, live !! victim = Some e
      ∧ (∀ k' e', live !! k' = Some e' → (ce_expires_at e ≤ ce_expires_at e')%Z)
      ∧ kept = delete victim live
  else kept = live.

(** The queue and the map after the two removals of [insert]. *)
Lemma insert_removals now c key :
  cache_ok now c →
  ∃ order kept,
    (let '(order, entries) := drop_expired now (tc_order c) (tc_entries c) in
     if (tc_capacity c <=? Z.of_nat (size entries))%Z && bool_decide (entries !! key = None)
     then evict_oldest order entries else (order, entries)) = (order, kept)
    ∧ kept_entries now c key kept ∧ queue_ok order kept ∧ kept ⊆ tc_entries c
    ∧ (∀ slot, slot ∈ order → slot ∈ tc_order c) ∧ length order ≤ length (tc_order c).
Proof.
  intros [Hcap _ Hq _ _ _ _ _].
  destruct (drop_expired_spec now _ _ Hq) as (Hd & Hq1 & p & Hp). unfold kept_entries.
  destruct (drop_expired now (tc_order c) (tc_entries c)) as [order live] eqn:Hde.
  simpl in Hd, Hq1, Hp. subst live.
  assert (Hsub : live_at now (tc_entries c) ⊆ tc_entries c) by apply map_filter_subseteq.
  destruct (_ && _) eqn:Hfull.
  - apply andb_true_iff in Hfull as [Hfull _]. apply Z.leb_le in Hfull.
    destruct (evict_oldest_spec _ _ Hq1) as (v & e & H1 & H2 & H3 & H4 & p' & H5).
    { intros Heq. rewrite Heq, map_size_empty in Hfull. lia. }
    destruct (evict_oldest order _) as [order' kept]. simpl in *. subst kept.
    exists order', (delete v (live_at now (tc_entries c))). split_and!; [done|by do 2 eexists|done| | |].
    + etrans; [apply delete_subseteq|done].
    + intros slot Hs. rewrite Hp, H5. rewrite !elem_of_app. auto.
    + rewrite Hp, H5, !length_app. lia.
  - exists order, (live_at now (tc_entries c)). split_and!; try done.
    + intros slot Hs. rewrite Hp, elem_of_app. auto.
    + rewrite Hp, length_app. lia.
Qed.

(** Room for the new entry. *)
Lemma kept_entries_room now c key kept v :
  cache_ok now c → kept_entries now c key kept →
  (Z.of_nat (size (<[key := v]> kept)) ≤ tc_capacity c)%Z.
Proof.
  intros [Hcap _ _ Hsize _ _ _ _] Hkept. unfold kept_entries in Hkept.
  pose proof (map_subseteq_size (live_at now (tc_entries c)) _ (map_filter_subseteq _ _)) as Hle.
  destruct (_ && _) eqn:Hfull.
  - destruct Hkept as (victim & e & Hv & _ & ->). apply andb_true_iff in Hfull as [_ Hnew].
    bool_cases. rewrite map_size_insert_None by (by rewrite lookup_delete_None; right).
    rewrite map_size_delete, Hv.
    assert (size (live_at now (tc_entries c)) ≠ 0); [|simpl; lia].
    apply map_size_non_empty_iff. intros Heq. by rewrite Heq, lookup_empty in Hv.
  - subst kept. apply andb_false_iff in Hfull as [Hroom|Hold].
    + apply Z.leb_gt in Hroom. rewrite map_size_insert. destruct (_ !! key); simpl; lia.
    + apply bool_decide_eq_false, not_eq_None_Some in Hold as [e He].
      rewrite map_size_insert, He. simpl. lia.
Qed.

(** An appended slot keeps the queue in order. *)
Lemma queue_ok_push now c key value order kept :
  cache_ok now c → queue_ok order kept → kept ⊆ tc_entries c →
  (∀ slot, slot ∈ order → slot ∈ tc_order c) →
  queue_ok (order ++ [(tc_next_seq c, key)])
    (<[key := mkEntry value (now + tc_ttl c) (tc_next_seq c)]> kept).
Proof.
  intros [_ _ _ _ _ Hseqs _ Hexp] [H1 H2 H3] Hsub Hsl. rewrite map_subseteq_spec in Hsub.
  assert (Hold : ∀ k e, kept !! k = Some e → (ce_seq e < tc_next_seq c)%Z)
    by (intros k e Hk; apply (Hseqs (ce_seq e, k)), Hsl, H2, Hk).
  split.
  - apply pairwise_app. split_and!; [done|by repeat constructor|].
    intros x y Hx ->%list_elem_of_singleton. simpl. auto.
  - intros k e [[<- <-]|[_ Hk]]%lookup_insert_Some; apply elem_of_app.
    + right. simpl. by apply list_elem_of_singleton.
    + left. auto.
  - intros k e k' e' [[<- <-]|[_ Hk]]%lookup_insert_Some [[<- <-]|[_ Hk']]%lookup_insert_Some; simpl.
    + lia.
    + specialize (Hold _ _ Hk'). lia.
    + intros _. by eapply Hexp, Hsub.
    + by apply (H3 k e k' e').
Qed.

(** The queue after the compaction at the end of [insert]. *)
Lemma queue_compact order entries :
  queue_ok order entries → queue_ok (List.filter (slot_live entries) order) entries.
Proof.
  intros [H1 H2 H3]. split; [| |done].
  - clear H2 H3. induction order as [|x order IH]; simpl; [done|]. destruct H1 as [Hx H1].
    destruct (slot_live entries x); [|auto]. simpl. split; [|auto].
    rewrite Forall_forall in *. intros y Hy.
    apply list_elem_of_In, filter_In in Hy as [Hy _]. apply Hx. by apply list_elem_of_In.
  - intros k e Hk. apply list_elem_of_In, filter_In. split; [by apply list_elem_of_In, H2|].
    unfold slot_live. simpl. rewrite Hk. simpl. apply Z.eqb_refl.
Qed.

Lemma insert_spec now c key value :
  cache_ok now c → (tc_next_seq c + 1 < 2 ^ 64)%Z →
  cache_ok now (insert now c key value)
  ∧ tc_next_seq (insert now c key value) = (tc_next_seq c + 1)%Z
  ∧ ∃ kept, kept_entries now c key kept
    ∧ tc_entries (insert now c key value)
      = <[key := mkEntry value (now + tc_ttl c) (tc_next_seq c)]> kept.
Proof.
  intros Hok Hseq. destruct (insert_removals now c key Hok)
    as (order & kept & Heq & Hkept & Hq & Hsub & Hsl & Hlen).
  pose proof (kept_entries_room now c key kept (mkEntry value (now + tc_ttl c) (tc_next_seq c))
                Hok Hkept) as Hroom.
  pose proof (queue_ok_push now c key value order kept Hok Hq Hsub Hsl) as Hq'.
  destruct Hok as [Hcap Httl Hqc Hsize Horder Hseqs Hnext Hexp].
  unfold insert. destruct (drop_expired now (tc_order c) (tc_entries c)) as [o1 l1].
  simpl in Heq. rewrite Heq.
  set (order2 := order ++ [(tc_next_seq c, key)]) in *.
  set (entries2 := <[key := _]> kept) in *.
  assert (Hseqs2 : ∀ slot, slot ∈ order2 → (slot.1 < tc_next_seq c + 1)%Z).
  { intros slot [Hin|Hin%list_elem_of_singleton]%elem_of_app; [|subst; simpl; lia].
    specialize (Hseqs _ (Hsl _ Hin)). lia. }
  pose proof (live_slots_bound order2 entries2 (qo_sorted _ _ Hq')) as Hbound.
  split; [|split; [simpl; by rewrite u64_wrapping_add_small by lia|by exists kept]].
  split; simpl; rewrite ?u64_wrapping_add_small by lia; try done; try lia.
  - destruct (_ <? _)%Z; [by apply queue_compact|done].
  - destruct (Z.ltb_spec (usize_saturating_mul (tc_capacity c) 2) (Z.of_nat (length order2)));
      [|done]. unfold usize_saturating_mul, u64_max in *. lia.
  - intros slot Hin. apply Hseqs2. destruct (_ <? _)%Z; [|done].
    apply list_elem_of_In, filter_In in Hin as [Hin _]. by apply list_elem_of_In.
  - intros k e [[<- <-]|[_ Hk]]%lookup_insert_Some; simpl; [lia|].
    rewrite map_subseteq_spec in Hsub. eauto.
Qed.

(** An insertion adds nothing under other keys. *)
Lemma drop_expired_subset now order entries : (drop_expired now order entries).2 ⊆ entries.
Proof.
  revert entries; induction order as [|[s k] order IH]; intros entries; simpl; [done|].
  repeat case_match; simpl; auto. etrans; [apply IH|apply delete_subseteq].
Qed.

Lemma evict_oldest_subset order entries : (evict_oldest order entries).2 ⊆ entries.
Proof.
  induction order as [|[s k] order IH]; simpl; [done|].
  destruct (slot_live entries (s, k)); simpl; [apply delete_subseteq|done].
Qed.

Lemma insert_other now c key value key' e :
  key' ≠ key → tc_entries (insert now c key value) !! key' = Some e →
  tc_entries c !! key' = Some e.
Proof.
  intros Hne. unfold insert.
  pose proof (drop_expired_subset now (tc_order c) (tc_entries c)) as Hd.
  destruct (drop_expired now (tc_order c) (tc_entries c)) as [o1 e1]. simpl in Hd.
  destruct (if _ : bool then _ else _) as [o2 e2] eqn:He. simpl.
  assert (e2 ⊆ e1) as Hs.
  { destruct (_ && _); [|by injection He as _ <-].
    pose proof (evict_oldest_subset o1 e1) as Hs. by rewrite He in Hs. }
  rewrite lookup_insert_ne by done. intros Hk. rewrite map_subseteq_spec in Hs, Hd. auto.
Qed.

Lemma insert_get_value now c key value now' :
  (get now' (insert now c key value) key).1
  = if (now' <? now + tc_ttl c)%Z then Some value else None.
Proof.
  assert (tc_entries (insert now c key value) !! key
          = Some (mkEntry value (now + tc_ttl c) (tc_next_seq c))) as Hk.
  { unfold insert. repeat case_match; simpl; by rewrite lookup_insert_eq. }
  unfold get. rewrite Hk. simpl.
  destruct (Z.leb_spec (now + tc_ttl c) now'), (Z.ltb_spec now' (now + tc_ttl c)); try lia; done.
Qed.

(** *** Histories *)

(** The operations of the cache, each at the instant it reads. *)
Inductive CacheOp :=
| OpGet (key : string)
| OpInsert (key : string) (value : T)
| OpRemove (key : string)
| OpRetain (keep : string → bool).

Definition cache_apply (now : Z) c (op : CacheOp) : TtlCache T :=
  match op with
  | OpGet key => (get now c key).2
  | OpInsert key value => insert now c key value
  | OpRemove key => remove c key
  | OpRetain keep => retain c keep
  end.

(** Caches reachable from an empty one under a monotone clock; [n] operations
    so far, the last at [now]. *)
Inductive cache_reaches (ttl capacity : Z) : nat → Z → TtlCache T → Prop :=
| reaches_new now : cache_reaches ttl capacity 0 now (TtlCache_new ttl capacity)
| reaches_step n now c now' op :
    cache_reaches ttl capacity n now c → (now ≤ now')%Z →
    cache_reaches ttl capacity (S n) now' (cache_apply now' c op).

Lemma cache_apply_ok now c op :
  cache_ok now c → (tc_next_seq c + 1 < 2 ^ 64)%Z →
  cache_ok now (cache_apply now c op)
  ∧ (tc_next_seq c ≤ tc_next_seq (cache_apply now c op) ≤ tc_next_seq c + 1)%Z
  ∧ tc_capacity (cache_apply now c op) = tc_capacity c ∧ tc_ttl (cache_apply now c op) = tc_ttl c.
Proof.
  intros Hok Hseq. destruct op as [key|key value|key|keep]; simpl.
  - unfold get. destruct (tc_entries c !! key) as [e|]; simpl; [|split; [done|lia]].
    destruct (_ <=? _)%Z; simpl; (split; [|lia]); [|done].
    apply cache_ok_shrink; [done|apply delete_subseteq].
  - destruct (insert_spec now c key value Hok Hseq) as (H1 & H2 & _). split; [done|].
    split; [lia|]. unfold insert. by repeat case_match.
  - split; [|simpl; lia]. apply cache_ok_shrink; [done|apply delete_subseteq].
  - split; [|simpl; lia]. apply cache_ok_shrink; [done|apply map_filter_subseteq].
Qed.

Lemma cache_reaches_ok ttl capacity n now c :
  (0 ≤ ttl)%Z → (capacity ≤ u64_max)%Z → cache_reaches ttl capacity n now c →
  (Z.of_nat n < 2 ^ 64)%Z →
  cache_ok now c ∧ (tc_next_seq c ≤ Z.of_nat n)%Z
  ∧ tc_capacity c = Z.max capacity 1 ∧ tc_ttl c = ttl.
Proof.
  intros Httl Hcap Hr. induction Hr as [now|n now c now' op Hr IH Hle]; intros Hn.
  - split; [by apply cache_ok_new|]. simpl. lia.
  - destruct IH as (Hok & Hnext & Hc & Ht); [lia|].
    destruct (cache_apply_ok now' c op) as (Hok' & Hseq & -> & ->);
      [by eapply cache_ok_later|lia|]. split; [done|]. lia.
Qed.

(** Over any sequence of fewer than [2^64] operations the cache holds at
    most [capacity] entries and its eviction queue at most twice as many
    slots, and every entry still has its slot, so it can be expired and
    evicted. *)
Theorem cache_stays_bounded ttl capacity n now c :
  (0 ≤ ttl)%Z → (capacity ≤ u64_max)%Z → cache_reaches ttl capacity n now c →
  (Z.of_nat n < 2 ^ 64)%Z →
  (Z.of_nat (size (tc_entries c)) ≤ Z.max capacity 1)%Z
  ∧ (Z.of_nat (length (tc_order c)) ≤ 2 * Z.max capacity 1)%Z
  ∧ ∀ k e, tc_entries c !! k = Some e → (ce_seq e, k) ∈ tc_order c.
Proof.
  intros Httl Hcap Hr Hn. destruct (cache_reaches_ok _ _ _ _ _ Httl Hcap Hr Hn)
    as ([H1 _ Hq Hs Ho _ _ _] & _ & Hc & _).
  rewrite Hc in *. split; [done|]. split; [|apply Hq]. unfold usize_saturating_mul in Ho. lia.
Qed.

(** An insertion does what a sweep of the whole map would: it removes
    exactly the entries expired at that instant, then, if the cache is still
    full and the key is new, one entry that no other expires before, and
    stores the value. *)
Theorem insert_equals_full_sweep ttl capacity n now c now' key value :
  (0 ≤ ttl)%Z → (capacity ≤ u64_max)%Z → cache_reaches ttl capacity n now c →
  (now ≤ now')%Z → (Z.of_nat n + 1 < 2 ^ 64)%Z →
  ∃ kept, kept_entries now' c key kept
    ∧ tc_entries (insert now' c key value)
      = <[key := mkEntry value (now' + ttl) (tc_next_seq c)]> kept.
Proof.
  intros Httl Hcap Hr Hle Hn. destruct (cache_reaches_ok _ _ _ _ _ Httl Hcap Hr)
    as (Hok & Hnext & _ & Ht); [lia|].
  destruct (insert_spec now' c key value) as (_ & _ & kept & Hkept & Heq);
    [by eapply cache_ok_later|lia|]. rewrite Ht in Heq. eauto.
Qed.

End cache.

(** ** Witnesses *)
Module CacheExample.
(** A cache of capacity one after two insertions: the first was evicted. *)
Definition two_inserts : TtlCache nat :=
  cache_apply 5 (cache_apply 3 (TtlCache_new 10 1) (OpInsert "a" 1)) (OpInsert "b" 2).
Lemma reached : cache_reaches 10 1 2 5 two_inserts.
Proof.
  apply (reaches_step _ _ 1 3 _ 5 (OpInsert "b" 2)); [|lia].
  apply (reaches_step _ _ 0 3 _ 3 (OpInsert "a" 1)); [constructor|lia].
Qed.
End CacheExample.

Lemma cache_stays_bounded_witness :
  (Z.of_nat (size (tc_entries CacheExample.two_inserts)) ≤ 1)%Z.
Proof.
  destruct (cache_stays_bounded 10 1 2 5 CacheExample.two_inserts) as (Hs & _);
    [lia|unfold u64_max; lia|exact CacheExample.reached|lia|exact Hs].
Defined.

Lemma insert_equals_full_sweep_witness :
  ∃ kept, kept_entries 7 CacheExample.two_inserts "c" kept
    ∧ tc_entries (insert 7 CacheExample.two_inserts "c" 3)
      = <["c" := mkEntry 3 17 (tc_next_seq CacheExample.two_inserts)]> kept.
Proof.
  apply (insert_equals_full_sweep 10 1 2 5 CacheExample.two_inserts 7 "c" 3);
    [lia|unfold u64_max; lia|exact CacheExample.reached|lia|lia].
Defined.
