(* ===== verification/HubState.v ===== *)
(** State shared by the Hub's requests ([nagisalake-hub/src/hub/state.rs]): the
    read caches, the tenant gate, the scheduling data held in memory and its
    hydration from the store.

    Main results: a cached value is visible under its own organization and id
    only, and the invalidations remove exactly the keys of their user or
    organization; the tenant gate keeps one lock per organization while
    anybody holds or awaits it, and its map stays within its sweep bound;
    removing an organization removes exactly its entries; hydration gives each
    unfinished job the newest 256 of its own events, as filtering all events
    per job would. *)

From S2P Require Import Prelude Text Json Messages Core HubTypes TtlCache.
From Stdlib Require Import ZArith Lia Ascii.

(** ** [ReadCache] *)

Definition second : Z := 1000000000.
Definition READ_CACHE_TTL : Z := 10 * second.
Definition READ_CACHE_CAPACITY : Z := 1024.
Definition DEVICE_ACCESS_CACHE_TTL : Z := 2 * second.
Definition DEVICE_ACCESS_CACHE_CAPACITY : Z := 2048.

Record ReadCache := mkReadCache {
  rc_terminal_jobs : TtlCache JobView;
  rc_ready_artifacts : TtlCache ArtifactRecord;
  rc_device_access : TtlCache (list DeviceAccess);
}.

Definition ReadCache_default : ReadCache :=
  mkReadCache (TtlCache_new READ_CACHE_TTL READ_CACHE_CAPACITY)
    (TtlCache_new READ_CACHE_TTL READ_CACHE_CAPACITY)
    (TtlCache_new DEVICE_ACCESS_CACHE_TTL DEVICE_ACCESS_CACHE_CAPACITY).

Definition read_cache_key (organization_id resource_id : string) : string :=
  nul_join organization_id resource_id.

Definition with_jobs (r : ReadCache) c := mkReadCache c (rc_ready_artifacts r) (rc_device_access r).
Definition with_artifacts (r : ReadCache) c := mkReadCache (rc_terminal_jobs r) c (rc_device_access r).
Definition with_access (r : ReadCache) c := mkReadCache (rc_terminal_jobs r) (rc_ready_artifacts r) c.

(** The [AppState] wrappers build the key; the hit counters are left out. *)
Definition cached_job (now : Z) (r : ReadCache) (organization_id job_id : string)
    : option JobView * ReadCache :=
  let '(v, c) := TtlCache.get now (rc_terminal_jobs r) (read_cache_key organization_id job_id) in
  (v, with_jobs r c).

Definition cache_job (now : Z) (r : ReadCache) (organization_id job_id : string) (value : JobView)
    : ReadCache :=
  with_jobs r (TtlCache.insert now (rc_terminal_jobs r) (read_cache_key organization_id job_id) value).

Definition cached_artifact (now : Z) (r : ReadCache) (organization_id artifact_id : string)
    : option ArtifactRecord * ReadCache :=
  let '(v, c) := TtlCache.get now (rc_ready_artifacts r) (read_cache_key organization_id artifact_id) in
  (v, with_artifacts r c).

Definition cache_artifact (now : Z) (r : ReadCache) (organization_id artifact_id : string)
    (value : ArtifactRecord) : ReadCache :=
  with_artifacts r
    (TtlCache.insert now (rc_ready_artifacts r) (read_cache_key organization_id artifact_id) value).

Definition invalidate_cached_artifact (r : ReadCache) (organization_id artifact_id : string) : ReadCache :=
  with_artifacts r (TtlCache.remove (rc_ready_artifacts r) (read_cache_key organization_id artifact_id)).

Definition cached_device_access (now : Z) (r : ReadCache) (organization_id user_id : string)
    : option (list DeviceAccess) * ReadCache :=
  let '(v, c) := TtlCache.get now (rc_device_access r) (read_cache_key organization_id user_id) in
  (v, with_access r c).

Definition cache_device_access (now : Z) (r : ReadCache) (organization_id user_id : string)
    (value : list DeviceAccess) : ReadCache :=
  with_access r (TtlCache.insert now (rc_device_access r) (read_cache_key organization_id user_id) value).

Definition remove_device_access_for_user (r : ReadCache) (user_id : string) : ReadCache :=
  let suffix := String nul user_id in
  with_access r (TtlCache.retain (rc_device_access r) (λ key, negb (ends_with suffix key))).

Definition remove_device_access_for_organization (r : ReadCache) (organization_id : string)
    : ReadCache :=
  let prefix := organization_id +:+ String nul "" in
  with_access r (TtlCache.retain (rc_device_access r) (λ key, negb (starts_with prefix key))).

(** ** [QuotaGate]

    Locks are numbered; [qg_clones] lists the [Arc] clones that acquirers hold
    outside the map (waiting or holding the guard), with the organization each
    was taken for. *)
Record QuotaGate := mkQuotaGate {
  qg_entries : gmap string nat;
  qg_sweep_at : nat;
  qg_clones : list (string * nat);
  qg_next_lock : nat;
}.

Definition QuotaGate_default : QuotaGate := mkQuotaGate ∅ 0 [] 0.

Definition QUOTA_GATE_MIN_SWEEP : nat := 64.

(** [Arc::strong_count] of a lock stored in the map. *)
Definition strong_count (clones : list (string * nat)) (lock : nat) : nat :=
  1 + length (List.filter (λ c, Nat.eqb c.2 lock) clones).

(** [acquire], up to awaiting the lock it returns. *)
Definition acquire (g : QuotaGate) (organization_id : string) : nat * QuotaGate :=
  let '(entries, sweep_at) :=
    if Nat.max (qg_sweep_at g) QUOTA_GATE_MIN_SWEEP <=? size (qg_entries g) then
      let entries := filter (λ kv, 1 < strong_count (qg_clones g) kv.2) (qg_entries g) in
      (entries, size entries * 2)
    else (qg_entries g, qg_sweep_at g) in
  match entries !! organization_id with
  | Some lock =>
      (lock, mkQuotaGate entries sweep_at ((organization_id, lock) :: qg_clones g) (qg_next_lock g))
  | None =>
      let lock := qg_next_lock g in
      (lock, mkQuotaGate (<[organization_id := lock]> entries) sweep_at
               ((organization_id, lock) :: qg_clones g) (S lock))
  end.

(** Dropping a guard, or a waiter that gives up. *)
Definition release (g : QuotaGate) (i : nat) : QuotaGate :=
  mkQuotaGate (qg_entries g) (qg_sweep_at g) (delete i (qg_clones g)) (qg_next_lock g).

(** ** [HubData] *)

Record HubData := mkHubData {
  hd_artifacts : gmap string ArtifactRecord;
  hd_pending_uploads : gmap string string;
  hd_jobs : gmap string JobRecord;
  hd_idempotency : gmap string string;
}.

Definition HubData_default : HubData := mkHubData ∅ ∅ ∅ ∅.

Definition pending_upload_key (organization_id request_id : string) : string :=
  nul_join organization_id request_id.

Definition remove_organization (d : HubData) (organization_id : string) : HubData :=
  let prefix := organization_id +:+ String nul "" in
  mkHubData
    (filter (λ kv, at_organization_id kv.2 ≠ organization_id) (hd_artifacts d))
    (filter (λ kv, starts_with prefix kv.1 = false) (hd_pending_uploads d))
    (filter (λ kv, hj_organization_id kv.2 ≠ organization_id) (hd_jobs d))
    (filter (λ kv, starts_with prefix kv.1 = false) (hd_idempotency d)).

(** ** Hydration *)

Definition hydrate_artifact (data : gmap string ArtifactRecord) (a : StoredArtifact)
    : Res HubError (gmap string ArtifactRecord) :=
  size_bytes ← ok_or (InvalidConfig ("artifact " +:+ sa_id a +:+ " has a negative persisted size"))
                 (u64_try_from (sa_size_bytes a));
  state ← parse_artifact_state (sa_state a);
  Ok (<[sa_id a := mkArtifactRecord (sa_organization_id a)
          (mkArtifactView (sa_id a) (sa_job_id a) (sa_name a) (sa_content_type a) size_bytes
             (sa_sha256 a) state) (sa_object_key a)]> data).

(** [events_by_org]: organization, then job, then its events in order. *)
Abbreviation EventIndex := (gmap string (gmap string (list StoredJobEvent))).

Definition index_event (idx : EventIndex) (e : StoredJobEvent) : EventIndex :=
  let jobs := default ∅ (idx !! se_organization_id e) in
  <[se_organization_id e :=
      <[se_job_id e := default [] (jobs !! se_job_id e) ++ [e]]> jobs]> idx.

(** [events.get_mut(org).and_then(|events| events.remove(id)).unwrap_or_default()]. *)
Definition take_events (idx : EventIndex) (organization_id job_id : string)
    : list StoredJobEvent * EventIndex :=
  match idx !! organization_id with
  | None => ([], idx)
  | Some jobs => (default [] (jobs !! job_id), <[organization_id := delete job_id jobs]> idx)
  end.

Definition MAX_JOB_EVENTS : nat := 256.

Definition hydrate_event (e : StoredJobEvent) : Res HubError JobEventView :=
  sequence ← ok_or (InvalidConfig "persisted event sequence is invalid") (u64_try_from (se_sequence e));
  kind ← parse_event_kind (se_kind e);
  Ok (mkJobEventView sequence kind (se_progress e) (se_message e) (se_unix_ms e)).

Section hydrate.
Context (from_str_strings : string → Res string (list string)) (from_str_json : string → Res string Json)
        (uuid : string → string).

Definition parse_persisted {A} (what : string) (r : Res string A) : Res HubError A :=
  match r with
  | Ok a => Ok a
  | Err error => Err (InvalidConfig ("invalid persisted job " +:+ what +:+ ": " +:+ error))
  end.

(** The record of one unfinished job. *)
Definition hydrate_record (job : StoredJob) (events : list StoredJobEvent) : Res HubError JobRecord :=
  state ← parse_job_state (sj_state job);
  let worker_organization_id := default "" (sj_worker_organization_id job) in
  let worker_id := default "" (sj_worker_id job) in
  let session_id := default "" (sj_session_id job) in
  reject_if (negb (bool_decide (state = Queued))
             && (String.eqb worker_organization_id "" || String.eqb worker_id ""
                 || String.eqb session_id ""))
    (InvalidConfig ("persisted " +:+ sj_state job +:+ " job " +:+ sj_id job
                    +:+ " has no complete worker binding")) ;;
  input_artifact_ids ← parse_persisted "inputs" (from_str_strings (sj_input_artifact_ids_json job));
  output_artifact_ids ← parse_persisted "outputs" (from_str_strings (sj_output_artifact_ids_json job));
  parameters ← parse_persisted "parameters" (from_str_json (sj_parameters_json job));
  attempt ← ok_or (InvalidConfig "persisted job attempt is invalid") (u32_try_from (sj_attempt job));
  job_events ← try_map hydrate_event (keep_last MAX_JOB_EVENTS events);
  Ok {| hj_organization_id := sj_organization_id job;
        hj_actor_id := sj_actor_id job;
        hj_actor_kind := sj_actor_kind job;
        hj_actor_user_id := sj_actor_user_id job;
        hj_worker_organization_id := worker_organization_id;
        hj_view := {|
          jv_id := sj_id job;
          jv_workflow_id := sj_workflow_id job;
          jv_workflow_version := sj_workflow_version job;
          jv_parameters := parameters;
          jv_input_artifact_ids := input_artifact_ids;
          jv_output_artifact_ids := output_artifact_ids;
          jv_worker_id := worker_id;
          jv_session_id := session_id;
          jv_state := state;
          jv_progress := sj_progress job;
          jv_prompt_id := sj_prompt_id job;
          jv_error := sj_error job;
          jv_events := job_events;
          jv_created_at_unix_ms := sj_created_at job;
          jv_updated_at_unix_ms := sj_updated_at job;
        |};
        hj_dispatch := {|
          dj_command_id := uuid (sj_id job);
          dj_job_id := sj_id job;
          dj_attempt := attempt;
          dj_workflow_id := sj_workflow_id job;
          dj_workflow_version := sj_workflow_version job;
          dj_parameters := parameters;
          dj_inputs := [];
        |};
        hj_last_event := default 0%Z (u64_try_from (sj_last_event job)) |}.

Definition hydrate_job (st : EventIndex * gmap string JobRecord) (job : StoredJob)
    : Res HubError (EventIndex * gmap string JobRecord) :=
  let '(events, idx) := take_events st.1 (sj_organization_id job) (sj_id job) in
  record ← hydrate_record job events;
  Ok (idx, <[sj_id job := record]> st.2).

Definition hydrate_hub_data (pending_artifacts : list StoredArtifact)
    (events_for_unfinished_jobs : list StoredJobEvent) (unfinished_jobs : list StoredJob)
    (all_upload_requests : list StoredUploadRequest) : Res HubError HubData :=
  artifacts ← try_fold hydrate_artifact ∅ pending_artifacts;
  let events_by_org := foldl index_event ∅ events_for_unfinished_jobs in
  jobs ← try_fold hydrate_job (events_by_org, ∅) unfinished_jobs;
  let pending_uploads := foldl (λ m u,
    <[pending_upload_key (su_organization_id u) (su_request_id u) := su_artifact_id u]> m)
    ∅ all_upload_requests in
  Ok (mkHubData artifacts pending_uploads jobs.2 ∅).
End hydrate.

(** ** The tenant gate *)

Inductive gate_reaches : QuotaGate → Prop :=
| gate_default : gate_reaches QuotaGate_default
| gate_acquire g o : gate_reaches g → gate_reaches (acquire g o).2
| gate_release g i : gate_reaches g → gate_reaches (release g i).

Record gate_ok (g : QuotaGate) : Prop := {
  go_clones : ∀ o l, (o, l) ∈ qg_clones g → qg_entries g !! o = Some l;
  go_inj : ∀ o o' l, qg_entries g !! o = Some l → qg_entries g !! o' = Some l → o = o';
  go_fresh : ∀ o l, qg_entries g !! o = Some l → l < qg_next_lock g;
  go_bound : size (qg_entries g) ≤ Nat.max (qg_sweep_at g) QUOTA_GATE_MIN_SWEEP;
}.

Lemma strong_count_clone clones o l : (o, l) ∈ clones → 1 < strong_count clones l.
Proof.
  intros Hin. unfold strong_count.
  assert ((o, l) ∈ List.filter (λ c, Nat.eqb c.2 l) clones) as Hf.
  { apply list_elem_of_In, filter_In. split; [by apply list_elem_of_In|apply Nat.eqb_refl]. }
  destruct (List.filter _ clones); simpl; [by apply not_elem_of_nil in Hf|lia].
Qed.

(** What the sweep leaves: a sub-map that still has every organization with a
    clone outside, and room for one more. *)
Lemma sweep_ok g entries sweep_at :
  gate_ok g →
  (if Nat.max (qg_sweep_at g) QUOTA_GATE_MIN_SWEEP <=? size (qg_entries g) then
     let entries := filter (λ kv, 1 < strong_count (qg_clones g) kv.2) (qg_entries g) in
     (entries, size entries * 2)
   else (qg_entries g, qg_sweep_at g)) = (entries, sweep_at) →
  entries ⊆ qg_entries g
  ∧ (∀ o l, (o, l) ∈ qg_clones g → entries !! o = Some l)
  ∧ size entries < Nat.max sweep_at QUOTA_GATE_MIN_SWEEP.
Proof.
  intros [Hc _ _ Hb]. unfold QUOTA_GATE_MIN_SWEEP in *. destruct (Nat.leb_spec (Nat.max (qg_sweep_at g) 64) (size (qg_entries g))).
  - intros [= <- <-]. split; [apply map_filter_subseteq|]. split.
    + intros o l Hin. apply map_lookup_filter_Some. split; [auto|]. by eapply strong_count_clone.
    + lia.
  - intros [= <- <-]. split; [done|]. split; [done|lia].
Qed.

Lemma gate_ok_acquire g o : gate_ok g → gate_ok (acquire g o).2.
Proof.
  intros Hok. unfold acquire. destruct (if _ : bool then _ else _) as [entries sweep_at] eqn:Hs.
  apply (sweep_ok g entries sweep_at Hok) in Hs as (Hsub & Hcl & Hsize).
  rewrite map_subseteq_spec in Hsub. destruct Hok as [_ Hinj Hfresh _].
  destruct (entries !! o) as [lock|] eqn:Ho; split; simpl.
  - intros o' l [[= -> ->]|Hin]%elem_of_cons; auto.
  - intros o1 o2 l H1%Hsub H2%Hsub. eauto.
  - intros o' l H1%Hsub. eauto.
  - lia.
  - intros o' l [[= -> ->]|Hin]%elem_of_cons; [by rewrite lookup_insert_eq|].
    apply Hcl in Hin. rewrite lookup_insert_ne; [done|]. intros ->. congruence.
  - intros o1 o2 l. rewrite !lookup_insert_Some.
    intros [[<- <-]|[_ H1%Hsub]] [[<- H2]|[_ H2%Hsub]]; try done; try eauto.
    + apply Hfresh in H2. lia.
    + subst l. apply Hfresh in H1. lia.
  - intros o' l [[<- <-]|[_ H1%Hsub]]%lookup_insert_Some; [lia|]. apply Hfresh in H1. lia.
  - rewrite map_size_insert_None by done. lia.
Qed.

Lemma gate_reaches_ok g : gate_reaches g → gate_ok g.
Proof.
  induction 1 as [|g o _ IH|g i _ IH]; [|by apply gate_ok_acquire|].
  - split; simpl; try by (intros; lia).
    + intros o l Hin. by apply not_elem_of_nil in Hin.
    + intros o o' l. by rewrite lookup_empty.
    + intros o l. by rewrite lookup_empty.
    + rewrite map_size_empty. lia.
  - destruct IH as [H1 H2 H3 H4]. split; simpl; try done.
    intros o l Hin. apply H1. eapply elem_of_submseteq; [done|].
    apply sublist_submseteq, sublist_delete.
Qed.

(** Quota mutations of one organization are serialized: in every reachable
    gate, whoever waits for or holds an organization's lock waits for or holds
    the same lock as everybody else of that organization, and no other
    organization shares it; the sweep of idle entries never replaces a live
    lock and keeps the map within its bound. *)
Theorem quota_gate_one_lock_per_organization g o1 l1 o2 l2 :
  gate_reaches g → (o1, l1) ∈ qg_clones g → (o2, l2) ∈ qg_clones g →
  (o1 = o2 ↔ l1 = l2)
  ∧ size (qg_entries g) ≤ Nat.max (qg_sweep_at g) QUOTA_GATE_MIN_SWEEP.
Proof.
  intros [Hc Hinj _ Hb]%gate_reaches_ok H1%Hc H2%Hc. split; [|done].
  split; [intros ->; congruence|intros ->; eauto].
Qed.

(** ** Keys *)


Lemma retain_lookup {V} (m : gmap string V) (f : string → bool) k (P : Prop) `{!Decision P} :
  (f k = true ↔ P) →
  filter (λ kv, negb (f kv.1) = true) m !! k = if bool_decide P then None else m !! k.
Proof.
  intros Hf. case_bool_decide as HP.
  - apply map_lookup_filter_None. right. intros v _. simpl. by rewrite (proj2 Hf HP).
  - destruct (m !! k) as [v|] eqn:Hk.
    + apply map_lookup_filter_Some. split; [done|]. simpl. apply negb_true_iff.
      apply not_true_iff_false. by rewrite Hf.
    + apply map_lookup_filter_None. by left.
Qed.

(** A cached value is visible under its own organization and id only:
    caching a job view changes no other organization's or job's lookup, except
    that an older entry may have expired or been evicted, and reading it back
    gives it until it expires. *)
Theorem job_cache_scoped now now' r org id v org' id' w :
  nul_free org = true → nul_free org' = true →
  (cached_job now' (cache_job now r org id v) org' id').1 = Some w →
  (org' = org ∧ id' = id ∧ w = v) ∨ (cached_job now' r org' id').1 = Some w.
Proof.
  unfold cached_job, cache_job. intros Ho Ho'.
  destruct (decide (read_cache_key org' id' = read_cache_key org id)) as [Heq|Hne].
  - rewrite Heq. apply nul_join_inj in Heq as [-> ->]; [|done..].
    pose proof (insert_get_value now (rc_terminal_jobs r) (read_cache_key org id) v now') as Hg.
    simpl. destruct (TtlCache.get now' _ _) as [x c]. simpl in *. intros ->.
    destruct (_ <? _)%Z; naive_solver.
  - simpl. intros Hw. right. revert Hw. unfold TtlCache.get.
    destruct (tc_entries (TtlCache.insert _ _ _ _) !! _) as [e|] eqn:He; [|done].
    apply insert_other in He; [|done]. rewrite He. by destruct (_ <=? _)%Z.
Qed.

(** Invalidation is exact: dropping a user's (an organization's) cached
    device access removes the entries under that user (organization) and
    leaves every other entry as it was. *)
Theorem device_access_invalidation_exact r org user target :
  nul_free org = true → nul_free user = true → nul_free target = true →
  tc_entries (rc_device_access (remove_device_access_for_user r target)) !! read_cache_key org user
  = (if bool_decide (user = target) then None
     else tc_entries (rc_device_access r) !! read_cache_key org user)
  ∧ tc_entries (rc_device_access (remove_device_access_for_organization r target))
      !! read_cache_key org user
  = (if bool_decide (org = target) then None
     else tc_entries (rc_device_access r) !! read_cache_key org user).
Proof.
  intros Ho Hu Ht. unfold read_cache_key. split; simpl.
  - pose proof (nul_join_suffix_iff target org user Ht Hu) as Hs. by apply retain_lookup; rewrite Hs.
  - pose proof (nul_join_prefix_iff target user org Ht Ho) as Hs. by apply retain_lookup; rewrite Hs.
Qed.

(** Deleting an organization clears its scheduling state and nobody
    else's: its artifacts, jobs, pending uploads and idempotency keys are gone
    and every other organization's entries are untouched. *)
Theorem remove_organization_exact d target org id rest :
  nul_free org = true → nul_free target = true →
  hd_artifacts (remove_organization d target) !! id
  = (a ← hd_artifacts d !! id; if bool_decide (at_organization_id a = target) then None else Some a)
  ∧ hd_jobs (remove_organization d target) !! id
  = (j ← hd_jobs d !! id; if bool_decide (hj_organization_id j = target) then None else Some j)
  ∧ hd_pending_uploads (remove_organization d target) !! nul_join org rest
  = (if bool_decide (org = target) then None else hd_pending_uploads d !! nul_join org rest)
  ∧ hd_idempotency (remove_organization d target) !! nul_join org rest
  = (if bool_decide (org = target) then None else hd_idempotency d !! nul_join org rest).
Proof.
  intros Ho Ht.
  assert (Hval : ∀ {V} (m : gmap string V) (f : V → string),
    filter (λ kv, f kv.2 ≠ target) m !! id
    = (v ← m !! id; if bool_decide (f v = target) then None else Some v)).
  { intros V m f. rewrite map_lookup_filter. destruct (m !! id) as [v|]; simpl; [|done].
    case_bool_decide; [by rewrite option_guard_False by naive_solver|by rewrite option_guard_True]. }
  assert (Hkey : ∀ (m : gmap string string),
    filter (λ kv, starts_with (target +:+ String nul "") kv.1 = false) m !! nul_join org rest
    = if bool_decide (org = target) then None else m !! nul_join org rest).
  { intros m. rewrite map_lookup_filter. pose proof (nul_join_prefix_iff target rest org Ht Ho) as Hs.
    destruct (m !! nul_join org rest) as [v|]; simpl; [|by case_bool_decide].
    case_bool_decide as Heq.
    - rewrite option_guard_False; [done|]. rewrite (proj2 Hs) by done. done.
    - rewrite option_guard_True; [done|]. apply not_true_iff_false. rewrite Hs. congruence. }
  unfold remove_organization. simpl. split; [apply Hval|]. split; [apply Hval|].
  split; apply Hkey.
Qed.

(** ** Hydration *)

Definition events_of (idx : EventIndex) (o j : string) : list StoredJobEvent :=
  default [] (idx !! o ≫= (λ jobs, jobs !! j)).

(** The events of one job, by scanning them all. *)
Definition belongs_to (o j : string) (e : StoredJobEvent) : bool :=
  String.eqb (se_organization_id e) o && String.eqb (se_job_id e) j.

Lemma events_of_insert idx o jobs o' j :
  events_of (<[o := jobs]> idx) o' j
  = if bool_decide (o = o') then default [] (jobs !! j) else events_of idx o' j.
Proof.
  unfold events_of. case_bool_decide as Ho; [subst; by rewrite lookup_insert_eq|].
  by rewrite lookup_insert_ne.
Qed.

Lemma events_of_default idx o j : default [] (default ∅ (idx !! o) !! j) = events_of idx o j.
Proof. unfold events_of. destruct (idx !! o); simpl; [done|]. by rewrite lookup_empty. Qed.

Lemma index_event_spec idx e o j :
  events_of (index_event idx e) o j
  = events_of idx o j ++ (if belongs_to o j e then [e] else []).
Proof.
  unfold index_event, belongs_to. rewrite events_of_insert.
  case_bool_decide as Ho; destruct (String.eqb_spec (se_organization_id e) o); try done;
    simpl; [|by rewrite app_nil_r].
  subst. destruct (String.eqb_spec (se_job_id e) j) as [<-|Hj].
  - by rewrite lookup_insert_eq, events_of_default.
  - by rewrite lookup_insert_ne, events_of_default, app_nil_r.
Qed.

Lemma index_events_spec es idx o j :
  events_of (foldl index_event idx es) o j
  = events_of idx o j ++ List.filter (belongs_to o j) es.
Proof.
  revert idx; induction es as [|e es IH]; intros idx; simpl; [by rewrite app_nil_r|].
  rewrite IH, index_event_spec, <- app_assoc. f_equal. by destruct (belongs_to o j e).
Qed.

Lemma take_events_spec idx o j :
  (take_events idx o j).1 = events_of idx o j
  ∧ ∀ o' j', j' ≠ j → events_of (take_events idx o j).2 o' j' = events_of idx o' j'.
Proof.
  unfold take_events. destruct (idx !! o) as [jobs|] eqn:Ho; simpl.
  - split; [unfold events_of; by rewrite Ho|]. intros o' j' Hj. rewrite events_of_insert.
    case_bool_decide as Heq; [subst o'|done]. rewrite lookup_delete_ne by done.
    unfold events_of. by rewrite Ho.
  - split; [unfold events_of; by rewrite Ho|done].
Qed.

Section hydrate_proofs.
Context (from_str_strings : string → Res string (list string)) (from_str_json : string → Res string Json)
        (uuid : string → string).

Abbreviation hydrate_job := (hydrate_job from_str_strings from_str_json uuid).
Abbreviation hydrate_record := (hydrate_record from_str_strings from_str_json uuid).

Lemma hydrate_jobs_spec jobs idx m st :
  try_fold hydrate_job (idx, m) jobs = Ok st → NoDup (sj_id <$> jobs) →
  (∀ job, job ∈ jobs → ∃ r, st.2 !! sj_id job = Some r
     ∧ hydrate_record job (events_of idx (sj_organization_id job) (sj_id job)) = Ok r)
  ∧ ∀ k, k ∉ sj_id <$> jobs → st.2 !! k = m !! k.
Proof.
  revert idx m; induction jobs as [|job jobs IH]; intros idx m; simpl.
  { intros [= <-] _. split; [|done]. intros job Hj. by apply not_elem_of_nil in Hj. }
  rewrite NoDup_cons. intros Hf [Hfresh Hnd]. apply bind_Ok in Hf as ([idx1 m1] & Hstep & Hrest).
  unfold HubState.hydrate_job in Hstep. simpl in Hstep.
  pose proof (take_events_spec idx (sj_organization_id job) (sj_id job)) as [Hev Hkeep].
  destruct (take_events idx _ _) as [events idx'] eqn:Ht. simpl in Hev, Hkeep.
  apply bind_Ok in Hstep as (r & Hr & [= <- <-]). rewrite Hev in Hr.
  destruct (IH _ _ Hrest Hnd) as [Hin Hout]. split.
  - intros job' [->|Hj]%elem_of_cons.
    + exists r. split; [|done]. rewrite Hout by done. by rewrite lookup_insert_eq.
    + destruct (Hin job' Hj) as (r' & Hl & Hr'). exists r'. split; [done|].
      rewrite Hkeep in Hr'; [done|]. intros Heq. apply Hfresh. rewrite <- Heq.
      by apply list_elem_of_fmap_2.
  - intros k Hk. rewrite not_elem_of_cons in Hk. destruct Hk as [Hk1 Hk2].
    rewrite Hout by done. by rewrite lookup_insert_ne.
Qed.

(** Recovery rebuilds every unfinished job from its own rows: the job's
    stored state, with a complete worker binding unless it is queued, and the
    newest 256 of exactly its events in stored order; and no other job. *)
Theorem hydrate_jobs_exact artifacts events jobs uploads d job :
  hydrate_hub_data from_str_strings from_str_json uuid artifacts events jobs uploads = Ok d →
  NoDup (sj_id <$> jobs) → job ∈ jobs →
  (∀ k, is_Some (hd_jobs d !! k) → k ∈ sj_id <$> jobs)
  ∧ ∃ r, hd_jobs d !! sj_id job = Some r
    ∧ hj_organization_id r = sj_organization_id job
    ∧ sj_state job = job_state_name (jv_state (hj_view r))
    ∧ (jv_state (hj_view r) ≠ Queued →
       hj_worker_organization_id r ≠ "" ∧ jv_worker_id (hj_view r) ≠ ""
       ∧ jv_session_id (hj_view r) ≠ "")
    ∧ Forall2 (λ e v, hydrate_event e = Ok v)
        (keep_last MAX_JOB_EVENTS
           (List.filter (belongs_to (sj_organization_id job) (sj_id job)) events))
        (jv_events (hj_view r)).
Proof.
  unfold hydrate_hub_data. intros Hh Hnd Hjob. inv_ok. simpl.
  match goal with H : try_fold hydrate_job _ _ = Ok _ |- _ =>
    destruct (hydrate_jobs_spec _ _ _ _ H Hnd) as [Hin Hout] end.
  split.
  - intros k [r Hr]. destruct (decide (k ∈ sj_id <$> jobs)) as [|Hk]; [done|].
    rewrite Hout in Hr by done. by rewrite lookup_empty in Hr.
  - destruct (Hin job Hjob) as (r & Hl & Hr). exists r. split; [done|].
    rewrite index_events_spec in Hr. simpl in Hr. unfold HubState.hydrate_record in Hr. inv_ok. simpl.
    split; [done|]. split; [by apply parse_job_state_iff|]. split; [|by apply try_map_Ok].
    intros Hq. match goal with H : _ && _ = false |- _ =>
      rewrite bool_decide_eq_false_2 in H by done; simpl in H end.
    bool_cases. by split_and!; apply String.eqb_neq.
Qed.
End hydrate_proofs.

(** ** Witnesses *)
Module HubStateExample.
(** Two tasks of one tenant and one of another. *)
Definition gate : QuotaGate :=
  (acquire (acquire (acquire QuotaGate_default "acme").2 "beta").2 "acme").2.

Definition job : StoredJob := {|
  sj_organization_id := "acme"; sj_id := "j1"; sj_actor_id := "u"; sj_actor_kind := "user";
  sj_actor_user_id := None; sj_workflow_id := "w"; sj_workflow_version := "1";
  sj_parameters_json := "{}"; sj_input_artifact_ids_json := "[]"; sj_output_artifact_ids_json := "[]";
  sj_worker_id := Some "lab/gpu"; sj_worker_organization_id := Some "acme"; sj_session_id := Some "s";
  sj_attempt := 1; sj_state := "running"; sj_progress := None; sj_prompt_id := None; sj_error := None;
  sj_last_event := 2; sj_created_at := 0; sj_updated_at := 0 |}.

Definition event (job_id : string) (sequence : Z) : StoredJobEvent :=
  mkStoredJobEvent "acme" job_id 1 sequence "running" None None "" 0.

Definition strings (_ : string) : Res string (list string) := Ok [].
Definition json (_ : string) : Res string Json := Ok (JObject []).
Definition uuid (id : string) : string := "cmd-" +:+ id.

Definition hydrated : HubData :=
  match hydrate_hub_data strings json uuid [] [event "j1" 1; event "j2" 1; event "j1" 2] [job] [] with
  | Ok d => d | Err _ => HubData_default end.

Definition view : JobView := {|
  jv_id := "j"; jv_workflow_id := "w"; jv_workflow_version := "1"; jv_parameters := JNull;
  jv_input_artifact_ids := []; jv_output_artifact_ids := []; jv_worker_id := "lab/gpu";
  jv_session_id := "s"; jv_state := Completed; jv_progress := None; jv_prompt_id := None;
  jv_error := None; jv_events := []; jv_created_at_unix_ms := 0; jv_updated_at_unix_ms := 0 |}.
End HubStateExample.

Lemma quota_gate_one_lock_per_organization_witness : (0 = 1 ↔ "acme" = "beta").
Proof.
  destruct (quota_gate_one_lock_per_organization HubStateExample.gate "acme" 0 "beta" 1) as [Hiff _].
  - repeat constructor.
  - vm_compute. by left.
  - vm_compute. right. by left.
  - by rewrite <- Hiff.
Defined.

Lemma job_cache_scoped_witness :
  ("acme" = "acme" ∧ "j" = "j" ∧ HubStateExample.view = HubStateExample.view)
  ∨ (cached_job 5 ReadCache_default "acme" "j").1 = Some HubStateExample.view.
Proof.
  apply (job_cache_scoped 3 5 ReadCache_default "acme" "j" HubStateExample.view "acme" "j");
    reflexivity.
Defined.

Lemma device_access_invalidation_exact_witness :
  tc_entries (rc_device_access (remove_device_access_for_user
    (cache_device_access 0 ReadCache_default "acme" "ann" []) "ann")) !! read_cache_key "acme" "ann"
  = None.
Proof.
  destruct (device_access_invalidation_exact
    (cache_device_access 0 ReadCache_default "acme" "ann" []) "acme" "ann" "ann") as [Hu _];
    [reflexivity..|exact Hu].
Defined.

Lemma remove_organization_exact_witness :
  hd_jobs (remove_organization HubStateExample.hydrated "acme") !! "j1" = None.
Proof.
  destruct (remove_organization_exact HubStateExample.hydrated "acme" "beta" "j1" "r")
    as (_ & Hj & _); [reflexivity..|]. rewrite Hj. vm_compute. reflexivity.
Defined.

Lemma hydrate_jobs_exact_witness :
  ∃ r, hd_jobs HubStateExample.hydrated !! "j1" = Some r ∧ length (jv_events (hj_view r)) = 2.
Proof.
  destruct (hydrate_jobs_exact HubStateExample.strings HubStateExample.json HubStateExample.uuid []
    [HubStateExample.event "j1" 1; HubStateExample.event "j2" 1; HubStateExample.event "j1" 2]
    [HubStateExample.job] [] HubStateExample.hydrated HubStateExample.job)
    as (_ & r & Hr & _ & _ & _ & Hev).
  - vm_compute. reflexivity.
  - apply NoDup_singleton.
  - by apply list_elem_of_singleton.
  - exists r. split; [exact Hr|]. by rewrite <- (Forall2_length _ _ _ Hev).
Defined.
