(* ===== verification/Sessions.v ===== *)
(** The directory of connected workers ([nagisalake-hub/src/hub/sessions.rs]).

    A session is the registry's record of one connection: the view it reported,
    its credential, its two sets of capacity reservations, the commands waiting
    for an ACK and when it was last heard.  Cancelling a connection and sending
    it a message are effects addressed to the session id.  The order in which a
    [HashMap] is visited is a parameter that permutes its entries.

    Main results: under the lock discipline of the source no session of a
    revoked credential is ever registered; reservations never oversubscribe a
    worker between heartbeats, and the least loaded eligible worker is chosen;
    a dispatch stays charged until it is known whether the worker took it;
    operations of a replaced connection do not touch its successor. *)

From S2P Require Import Prelude Text Json Messages Core HubTypes HubState.
From Stdlib Require Import ZArith Lia Ascii.

(** ** Data *)

Record WorkerView := mkWorkerView {
  vw_organization_id : string;
  vw_owner_user_id : option string;
  vw_worker_id : string;
  vw_session_id : string;
  vw_namespace : string;
  vw_node_name : string;
  vw_capabilities : WorkerCapabilities;
  vw_active_jobs : Z;
  vw_queued_jobs : Z;
  vw_connected_at : Z;
}.

Record WorkerSession := mkWorkerSession {
  ws_view : WorkerView;
  ws_credential_id : option string;
  ws_pending : gset string;
  ws_pending_reservations : gset string;
  ws_confirmed_reservations : gset string;
  ws_last_seen : Z;
}.

Record SessionRegistry := mkSessionRegistry {
  sr_inner : gmap string WorkerSession;
  sr_revoked_credentials : gset string;
}.

Definition SessionRegistry_default : SessionRegistry := mkSessionRegistry ∅ ∅.

(** What an operation does to connections. *)
Inductive SessionEffect :=
| CancelConnection (session_id : string)
| TrySend (session_id : string) (m : HubMessage).

Definition session_key (organization_id worker_id : string) : string :=
  nul_join organization_id worker_id.

Definition with_inner (r : SessionRegistry) inner : SessionRegistry :=
  mkSessionRegistry inner (sr_revoked_credentials r).

Definition set_reservations (s : WorkerSession) (pending confirmed : gset string) : WorkerSession :=
  mkWorkerSession (ws_view s) (ws_credential_id s) (ws_pending s) pending confirmed (ws_last_seen s).

Definition set_pending (s : WorkerSession) (pending : gset string) : WorkerSession :=
  mkWorkerSession (ws_view s) (ws_credential_id s) pending (ws_pending_reservations s)
    (ws_confirmed_reservations s) (ws_last_seen s).

(** ** Load *)

Definition capacity_reservation_count (s : WorkerSession) : Z :=
  let n := Z.of_nat (size (ws_pending_reservations s) + size (ws_confirmed_reservations s)) in
  default u32_max (u32_try_from n).

Definition worker_capacity_load (s : WorkerSession) : Z :=
  u32_saturating_add (u32_saturating_add (vw_active_jobs (ws_view s)) (vw_queued_jobs (ws_view s)))
    (capacity_reservation_count s).

(** [u16::try_from]. *)
Definition u16_try_from (n : Z) : option Z :=
  if ((n <? 0) || (u16_max <? n))%Z then None else Some n.

Definition worker_view_with_reservations_and_workflows (s : WorkerSession)
    (workflows : list WorkflowCapability) : WorkerView :=
  let view := ws_view s in
  let c := vw_capabilities view in
  mkWorkerView (vw_organization_id view) (vw_owner_user_id view) (vw_worker_id view)
    (vw_session_id view) (vw_namespace view) (vw_node_name view)
    (mkWorkerCapabilities workflows (cap_parallelism c) (cap_queue_depth c)
       (cap_supports_queued_job_cancellation c) (cap_labels c))
    (vw_active_jobs view)
    (default u16_max (u16_try_from
       (u32_saturating_add (vw_queued_jobs view) (capacity_reservation_count s))))
    (vw_connected_at view).

Definition worker_view_with_reservations (s : WorkerSession) : WorkerView :=
  let view := ws_view s in
  mkWorkerView (vw_organization_id view) (vw_owner_user_id view) (vw_worker_id view)
    (vw_session_id view) (vw_namespace view) (vw_node_name view) (vw_capabilities view)
    (vw_active_jobs view)
    (default u16_max (u16_try_from
       (u32_saturating_add (vw_queued_jobs view) (capacity_reservation_count s))))
    (vw_connected_at view).

(** ** Connections *)

Definition protocol_error (code message : string) (retryable : bool) : HubMessage :=
  HError (mkProtocolError code message retryable).

(** The check of [insert], made under the read guard on the revoked set. *)
Definition credential_revoked (r : SessionRegistry) (session : WorkerSession) : bool :=
  is_some_and (λ c, bool_decide (c ∈ sr_revoked_credentials r)) (ws_credential_id session).

(** The write of [insert], made while the guard is still held. *)
Definition insert_write (r : SessionRegistry) (session : WorkerSession)
    : SessionRegistry * list SessionEffect :=
  let key := session_key (vw_organization_id (ws_view session)) (vw_worker_id (ws_view session)) in
  (with_inner r (<[key := session]> (sr_inner r)),
   match sr_inner r !! key with
   | Some previous =>
       let sid := vw_session_id (ws_view previous) in
       [CancelConnection sid;
        TrySend sid (protocol_error "session_replaced"
          "a newer connection replaced this worker session" true)]
   | None => []
   end).

(** [insert]; the answer tells whether the session was registered. *)
Definition insert (r : SessionRegistry) (session : WorkerSession)
    : bool * SessionRegistry * list SessionEffect :=
  if credential_revoked r session then (false, r, [])
  else let '(r', effects) := insert_write r session in (true, r', effects).

(** Entries of the map a sweep removes, as connection effects. *)
Definition dismissal (code message : string) (kv : string * WorkerSession) : list SessionEffect :=
  let sid := vw_session_id (ws_view kv.2) in
  [CancelConnection sid; TrySend sid (protocol_error code message false)].

Definition current (r : SessionRegistry) (organization_id worker_id session_id : string)
    : option WorkerSession :=
  s ← sr_inner r !! session_key organization_id worker_id;
  if String.eqb (vw_session_id (ws_view s)) session_id then Some s else None.

(** [.get_mut(&key).filter(|session| session.view.session_id == session_id)]
    and an update of what it finds. *)
Definition update_current (r : SessionRegistry) (organization_id worker_id session_id : string)
    (f : WorkerSession → WorkerSession) : SessionRegistry :=
  match current r organization_id worker_id session_id with
  | Some s => with_inner r (<[session_key organization_id worker_id := f s]> (sr_inner r))
  | None => r
  end.

Definition remove_if_current (r : SessionRegistry) (organization_id worker_id session_id : string)
    : SessionRegistry :=
  match current r organization_id worker_id session_id with
  | Some _ => with_inner r (delete (session_key organization_id worker_id) (sr_inner r))
  | None => r
  end.

Definition current_session_id (r : SessionRegistry) (organization_id worker_id : string)
    : option string :=
  (λ s, vw_session_id (ws_view s)) <$> sr_inner r !! session_key organization_id worker_id.

Definition guard_current_session (r : SessionRegistry) (organization_id worker_id session_id : string)
    : bool :=
  bool_decide (is_Some (current r organization_id worker_id session_id)).

Definition heartbeat_session (s : WorkerSession) (now active_jobs queued_jobs : Z) : WorkerSession :=
  let v := ws_view s in
  mkWorkerSession
    (mkWorkerView (vw_organization_id v) (vw_owner_user_id v) (vw_worker_id v) (vw_session_id v)
       (vw_namespace v) (vw_node_name v) (vw_capabilities v) active_jobs queued_jobs
       (vw_connected_at v))
    (ws_credential_id s) (ws_pending s) (ws_pending_reservations s) ∅ now.

Definition update_heartbeat (r : SessionRegistry) (now : Z)
    (organization_id worker_id session_id : string) (active_jobs queued_jobs : Z)
    : Res HubError SessionRegistry :=
  match current r organization_id worker_id session_id with
  | None => Err (Conflict "worker session is stale")
  | Some _ => Ok (update_current r organization_id worker_id session_id
                    (λ s, heartbeat_session s now active_jobs queued_jobs))
  end.

(** ** Capacity *)

(** [Iterator::min_by_key]: the first of the smallest. *)
Fixpoint min_by_key {A} (f : A → Z) (l : list A) : option A :=
  match l with
  | [] => None
  | x :: l' =>
      match min_by_key f l' with
      | Some y => if (f y <? f x)%Z then Some y else Some x
      | None => Some x
      end
  end.

Definition has_room (s : WorkerSession) : bool :=
  (worker_capacity_load s <? total_capacity (vw_capabilities (ws_view s)))%Z.

Definition ensure_capacity_reservation (r : SessionRegistry)
    (organization_id worker_id session_id command_id : string) : bool * SessionRegistry :=
  match current r organization_id worker_id session_id with
  | None => (false, r)
  | Some s =>
      if bool_decide (command_id ∈ ws_pending_reservations s)
         || bool_decide (command_id ∈ ws_confirmed_reservations s) then (true, r)
      else if negb (has_room s) then (false, r)
      else (true, update_current r organization_id worker_id session_id
                    (λ s, set_reservations s ({[ command_id ]} ∪ ws_pending_reservations s)
                            (ws_confirmed_reservations s)))
  end.

Definition release_capacity_reservation (r : SessionRegistry)
    (organization_id worker_id session_id command_id : string) : SessionRegistry :=
  update_current r organization_id worker_id session_id
    (λ s, set_reservations s (ws_pending_reservations s ∖ {[ command_id ]})
            (ws_confirmed_reservations s ∖ {[ command_id ]})).

Definition mark_uncertain (command_id : string) (s : WorkerSession) : WorkerSession :=
  if bool_decide (command_id ∈ ws_pending_reservations s)
  then set_reservations s (ws_pending_reservations s ∖ {[ command_id ]})
         ({[ command_id ]} ∪ ws_confirmed_reservations s)
  else s.

Definition mark_capacity_reservation_uncertain (r : SessionRegistry)
    (organization_id worker_id session_id command_id : string) : SessionRegistry :=
  update_current r organization_id worker_id session_id (mark_uncertain command_id).

Definition settle (command_id : string) (accepted : bool) (s : WorkerSession) : WorkerSession :=
  let held := bool_decide (command_id ∈ ws_pending_reservations s) in
  let pending := ws_pending_reservations s ∖ {[ command_id ]} in
  if held && accepted then
    set_reservations s pending ({[ command_id ]} ∪ ws_confirmed_reservations s)
  else if negb accepted then
    set_reservations s pending (ws_confirmed_reservations s ∖ {[ command_id ]})
  else set_reservations s pending (ws_confirmed_reservations s).

Definition settle_capacity_reservation (r : SessionRegistry)
    (organization_id worker_id session_id command_id : string) (accepted : bool) : SessionRegistry :=
  update_current r organization_id worker_id session_id (settle command_id accepted).

(** Takes one slot of a session for a command; [None] when the command already
    has one. *)
Definition take_slot (command_id : string) (s : WorkerSession) : option WorkerSession :=
  if bool_decide (command_id ∈ ws_pending_reservations s) then None
  else Some (set_reservations s ({[ command_id ]} ∪ ws_pending_reservations s)
               (ws_confirmed_reservations s)).

Definition reserve_capacity_on (r : SessionRegistry) (organization_id worker_id command_id : string)
    (predicate : WorkerView → bool) : option WorkerView * SessionRegistry :=
  let key := session_key organization_id worker_id in
  match sr_inner r !! key with
  | None => (None, r)
  | Some s =>
      if negb (predicate (ws_view s)) || negb (has_room s) then (None, r)
      else match take_slot command_id s with
           | None => (None, r)
           | Some s' =>
               (Some (worker_view_with_reservations s'), with_inner r (<[key := s']> (sr_inner r)))
           end
  end.

(** ** Commands *)

(** How a command ends: the outbound queue, then the ACK. *)
Inductive CommandOutcome :=
| NotSent
| Acked (ack : CommandAck)
| ClosedBeforeAck
| AckTimedOut.

(** [send_command] up to handing the message to the connection. *)
Definition send_command_begin (r : SessionRegistry)
    (organization_id worker_id session_id command_id : string) (m : HubMessage)
    : Res HubError (SessionRegistry * list SessionEffect) :=
  match current r organization_id worker_id session_id with
  | None => Err (Conflict "worker session is not connected")
  | Some _ =>
      Ok (update_current r organization_id worker_id session_id
            (λ s, set_pending s ({[ command_id ]} ∪ ws_pending s)),
          [TrySend session_id m])
  end.

(** [send_command] from there on. *)
Definition send_command_finish (r : SessionRegistry)
    (organization_id worker_id session_id command_id : string) (outcome : CommandOutcome)
    : Res HubError CommandAck * SessionRegistry :=
  let forget r := update_current r organization_id worker_id session_id
                    (λ s, set_pending s (ws_pending s ∖ {[ command_id ]})) in
  match outcome with
  | NotSent =>
      (Err (Unavailable "worker socket is closed or congested"),
       release_capacity_reservation (forget r) organization_id worker_id session_id command_id)
  | Acked ack => (Ok ack, r)
  | ClosedBeforeAck =>
      (Err (Unavailable "worker closed before command ACK"),
       mark_capacity_reservation_uncertain r organization_id worker_id session_id command_id)
  | AckTimedOut =>
      (Err (Unavailable "worker command ACK timed out"),
       mark_capacity_reservation_uncertain (forget r) organization_id worker_id session_id command_id)
  end.

(** ** Operations that visit every session *)
Section visiting.
(** The visiting order of the map. *)
Context (iter : gmap string WorkerSession → list (string * WorkerSession)).

Definition disconnect_credential (r : SessionRegistry) (credential_id : string)
    : SessionRegistry * list SessionEffect :=
  let hit (kv : string * WorkerSession) := bool_decide (ws_credential_id kv.2 = Some credential_id) in
  (mkSessionRegistry (filter (λ kv, hit kv = false) (sr_inner r))
     ({[ credential_id ]} ∪ sr_revoked_credentials r),
   mjoin (dismissal "credential_revoked" "the worker credential has been revoked"
          <$> List.filter hit (iter (sr_inner r)))).

Definition reap_revoked_credentials (r : SessionRegistry) : nat * SessionRegistry :=
  if bool_decide (sr_revoked_credentials r = ∅) then (0, r)
  else
    let live : gset string :=
      list_to_set (omap (λ kv, ws_credential_id kv.2) (iter (sr_inner r))) in
    let kept := filter (λ c, c ∈ live) (sr_revoked_credentials r) in
    (size (sr_revoked_credentials r) - size kept, mkSessionRegistry (sr_inner r) kept).

Definition disconnect_organization (r : SessionRegistry) (organization_id : string)
    : SessionRegistry * list SessionEffect :=
  let hit (kv : string * WorkerSession) :=
    String.eqb (vw_organization_id (ws_view kv.2)) organization_id in
  (with_inner r (filter (λ kv, hit kv = false) (sr_inner r)),
   mjoin (dismissal "organization_deleted" "the worker organization has been deleted"
          <$> List.filter hit (iter (sr_inner r)))).

Definition reserve_capacity (r : SessionRegistry) (command_id : string)
    (predicate : WorkerView → bool) : option WorkerView * SessionRegistry :=
  let eligible := List.filter (λ kv, has_room kv.2)
                    (List.filter (λ kv, predicate (ws_view kv.2)) (iter (sr_inner r))) in
  match min_by_key (λ kv, worker_capacity_load kv.2) eligible with
  | None => (None, r)
  | Some (key, _) =>
      match s ← sr_inner r !! key; take_slot command_id s with
      | None => (None, r)
      | Some s' =>
          (Some (worker_view_with_reservations s'), with_inner r (<[key := s']> (sr_inner r)))
      end
  end.

Definition list_matching (r : SessionRegistry) (predicate : WorkerView → bool) : list WorkerView :=
  (λ kv, worker_view_with_reservations kv.2)
  <$> List.filter (λ kv, predicate (ws_view kv.2)) (iter (sr_inner r)).

Definition list_matching_workflows (r : SessionRegistry) (predicate : WorkerView → bool)
    (workflow_filter : WorkerView → WorkflowCapability → bool) : list WorkerView :=
  omap (λ kv,
      let s := kv.2 in
      let workflows := List.filter (workflow_filter (ws_view s))
                         (cap_workflows (vw_capabilities (ws_view s))) in
      if bool_decide (workflows = []) then None
      else Some (worker_view_with_reservations_and_workflows s workflows))
    (List.filter (λ kv, predicate (ws_view kv.2)) (iter (sr_inner r))).

Definition list_for_org (r : SessionRegistry) (organization_id : string) : list WorkerView :=
  list_matching r (λ view, String.eqb (vw_organization_id view) organization_id).

Definition connected_identities (r : SessionRegistry) : gmap string (gset string) :=
  foldl (λ connected kv,
      let v := ws_view kv.2 in
      <[vw_organization_id v :=
          {[ vw_worker_id v ]} ∪ default ∅ (connected !! vw_organization_id v)]> connected)
    ∅ (iter (sr_inner r)).

(** [now.saturating_duration_since(last_seen) > max_silence]. *)
Definition is_stale (now max_silence : Z) (s : WorkerSession) : bool :=
  (max_silence <? Z.max 0 (now - ws_last_seen s))%Z.

Definition reap_step (st : gmap string WorkerSession * list string * list SessionEffect)
    (kw : string * string) : gmap string WorkerSession * list string * list SessionEffect :=
  let '(inner, reaped, effects) := st in
  match inner !! kw.1 with
  | None => st
  | Some s => (delete kw.1 inner, reaped ++ [kw.2],
               effects ++ [CancelConnection (vw_session_id (ws_view s))])
  end.

Definition reap_stale (r : SessionRegistry) (now max_silence : Z)
    : list string * SessionRegistry * list SessionEffect :=
  let stale := (λ kv : string * WorkerSession, (kv.1, vw_worker_id (ws_view kv.2)))
               <$> List.filter (λ kv, is_stale now max_silence kv.2) (iter (sr_inner r)) in
  let '(inner, reaped, effects) := foldl reap_step (sr_inner r, [], []) stale in
  (reaped, with_inner r inner, effects).

Definition count (r : SessionRegistry) : nat := size (sr_inner r).
End visiting.

(** ** Lemmas *)

Lemma min_by_key_None {A} (f : A → Z) l : min_by_key f l = None ↔ l = [].
Proof. destruct l; simpl; [done|]. repeat case_match; done. Qed.

Lemma min_by_key_Some {A} (f : A → Z) l x :
  min_by_key f l = Some x → x ∈ l ∧ ∀ y, y ∈ l → (f x ≤ f y)%Z.
Proof.
  revert x; induction l as [|z l IH]; intros x; simpl; [done|].
  destruct (min_by_key f l) as [y|] eqn:Hl.
  - destruct (IH y eq_refl) as [Hy Hmin].
    destruct (Z.ltb_spec (f y) (f z)); intros [= <-]; split;
      try (apply elem_of_cons; auto; fail); intros w [->|Hw]%elem_of_cons; try lia; auto.
    specialize (Hmin w Hw). lia.
  - apply min_by_key_None in Hl as ->. intros [= <-].
    split; [by apply list_elem_of_singleton|]. intros w ->%list_elem_of_singleton. lia.
Qed.

Lemma current_Some r o w sid s :
  current r o w sid = Some s ↔
  sr_inner r !! session_key o w = Some s ∧ vw_session_id (ws_view s) = sid.
Proof.
  unfold current. destruct (sr_inner r !! _) as [s'|]; simpl; [|naive_solver].
  destruct (String.eqb_spec (vw_session_id (ws_view s')) sid); naive_solver.
Qed.

(** An update only ever rewrites the session it is addressed to. *)
Lemma update_current_lookup r o w sid f k s :
  sr_inner (update_current r o w sid f) !! k = Some s →
  sr_inner r !! k = Some s
  ∨ k = session_key o w ∧ ∃ s0, current r o w sid = Some s0 ∧ s = f s0.
Proof.
  unfold update_current. destruct (current r o w sid) as [s0|] eqn:Hc; [|auto].
  simpl. intros [[<- <-]|[_ Hk]]%lookup_insert_Some; eauto.
Qed.

Lemma update_current_revoked r o w sid f :
  sr_revoked_credentials (update_current r o w sid f) = sr_revoked_credentials r.
Proof. unfold update_current. by destruct (current r o w sid). Qed.

(** ** Operations on registered sessions *)

Inductive SessionOp :=
| OpDisconnectOrganization (o : string)
| OpRemoveIfCurrent (o w sid : string)
| OpHeartbeat (o w sid : string) (now active queued : Z)
| OpReserve (cmd : string) (predicate : WorkerView → bool)
| OpReserveOn (o w cmd : string) (predicate : WorkerView → bool)
| OpEnsure (o w sid cmd : string)
| OpRelease (o w sid cmd : string)
| OpUncertain (o w sid cmd : string)
| OpSettle (o w sid cmd : string) (accepted : bool)
| OpReapStale (now max_silence : Z)
| OpSendBegin (o w sid cmd : string) (m : HubMessage)
| OpSendFinish (o w sid cmd : string) (outcome : CommandOutcome).

Section registry.
Context (iter : gmap string WorkerSession → list (string * WorkerSession)).
Hypothesis iter_perm : ∀ m, iter m ≡ₚ map_to_list m.

Definition apply_op (r : SessionRegistry) (op : SessionOp) : SessionRegistry :=
  match op with
  | OpDisconnectOrganization o => (disconnect_organization iter r o).1
  | OpRemoveIfCurrent o w sid => remove_if_current r o w sid
  | OpHeartbeat o w sid now a q =>
      match update_heartbeat r now o w sid a q with Ok r' => r' | Err _ => r end
  | OpReserve cmd p => (reserve_capacity iter r cmd p).2
  | OpReserveOn o w cmd p => (reserve_capacity_on r o w cmd p).2
  | OpEnsure o w sid cmd => (ensure_capacity_reservation r o w sid cmd).2
  | OpRelease o w sid cmd => release_capacity_reservation r o w sid cmd
  | OpUncertain o w sid cmd => mark_capacity_reservation_uncertain r o w sid cmd
  | OpSettle o w sid cmd a => settle_capacity_reservation r o w sid cmd a
  | OpReapStale now ms => (reap_stale iter r now ms).1.2
  | OpSendBegin o w sid cmd m =>
      match send_command_begin r o w sid cmd m with Ok (r', _) => r' | Err _ => r end
  | OpSendFinish o w sid cmd outcome => (send_command_finish r o w sid cmd outcome).2
  end.

Lemma elem_of_iter m k (s : WorkerSession) : (k, s) ∈ iter m ↔ m !! k = Some s.
Proof. by rewrite iter_perm, elem_of_map_to_list. Qed.

Lemma take_slot_Some cmd s s' :
  take_slot cmd s = Some s' ↔
  cmd ∉ ws_pending_reservations s
  ∧ s' = set_reservations s ({[ cmd ]} ∪ ws_pending_reservations s) (ws_confirmed_reservations s).
Proof. unfold take_slot. case_bool_decide; naive_solver. Qed.

(** *** Reaping *)

(** Removing the collected keys one by one removes the stale sessions. *)
Lemma reap_fold_spec (l : list (string * WorkerSession)) inner reaped effects :
  NoDup l.*1 → (∀ k s, (k, s) ∈ l → inner !! k = Some s) →
  foldl reap_step (inner, reaped, effects) ((λ kv, (kv.1, vw_worker_id (ws_view kv.2))) <$> l)
  = (filter (λ kv, kv.1 ∉ l.*1) inner,
     reaped ++ ((λ kv, vw_worker_id (ws_view kv.2)) <$> l),
     effects ++ ((λ kv, CancelConnection (vw_session_id (ws_view kv.2))) <$> l)).
Proof.
  revert inner reaped effects. induction l as [|[k s] l IH]; intros inner reaped effects; simpl.
  { intros _ _. rewrite !app_nil_r. f_equal. f_equal. symmetry. apply map_filter_id.
    intros i x _. apply not_elem_of_nil. }
  rewrite NoDup_cons. intros [Hk Hnd] Hin.
  rewrite (Hin k s) by (apply elem_of_cons; auto). rewrite IH; [|done|].
  - rewrite <- !app_assoc. f_equal. f_equal. apply map_eq. intros i.
    rewrite !map_lookup_filter. destruct (decide (i = k)) as [->|Hne].
    + rewrite lookup_delete_eq. simpl. destruct (inner !! k); simpl; [|done].
      rewrite option_guard_False; [done|]. set_solver.
    + rewrite lookup_delete_ne by done. destruct (inner !! i); simpl; [|done].
      apply option_guard_iff. set_solver.
  - intros k' s' Hk'. rewrite lookup_delete_ne; [apply Hin; by apply elem_of_cons; right|].
    intros <-. apply Hk, list_elem_of_fmap. by exists (k, s').
Qed.

Definition stale_sessions (r : SessionRegistry) (now max_silence : Z) : list (string * WorkerSession) :=
  List.filter (λ kv, is_stale now max_silence kv.2) (iter (sr_inner r)).

Lemma stale_sessions_elem r now ms k s :
  (k, s) ∈ stale_sessions r now ms ↔ sr_inner r !! k = Some s ∧ is_stale now ms s = true.
Proof. unfold stale_sessions. by rewrite list_elem_of_In, filter_In, <- list_elem_of_In, elem_of_iter. Qed.

Lemma NoDup_stale_keys r now ms : NoDup (stale_sessions r now ms).*1.
Proof.
  unfold stale_sessions. assert (NoDup (iter (sr_inner r)).*1) as Hnd.
  { rewrite iter_perm. apply NoDup_fst_map_to_list. }
  induction (iter (sr_inner r)) as [|[k s] l IH]; simpl; [constructor|].
  rewrite fmap_cons, NoDup_cons in Hnd. destruct Hnd as [Hk Hnd].
  destruct (is_stale now ms s); simpl; [|auto]. constructor; [|auto].
  intros ([k' s'] & -> & Hin)%list_elem_of_fmap. apply Hk, list_elem_of_fmap.
  exists (k', s'). split; [done|]. apply list_elem_of_In in Hin. apply filter_In in Hin as [Hin _].
  by apply list_elem_of_In.
Qed.

Lemma reap_stale_spec r now ms :
  reap_stale iter r now ms
  = ((λ kv, vw_worker_id (ws_view kv.2)) <$> stale_sessions r now ms,
     with_inner r (filter (λ kv, is_stale now ms kv.2 = false) (sr_inner r)),
     (λ kv, CancelConnection (vw_session_id (ws_view kv.2))) <$> stale_sessions r now ms).
Proof.
  unfold reap_stale. fold (stale_sessions r now ms).
  rewrite reap_fold_spec; [|apply NoDup_stale_keys|by intros k s [Hk _]%stale_sessions_elem].
  simpl. f_equal. f_equal. f_equal. apply map_filter_ext. intros k s Hk. simpl. split.
  - intros Hout. apply not_true_iff_false. intros Hst. apply Hout, list_elem_of_fmap.
    exists (k, s). split; [done|]. by apply stale_sessions_elem.
  - intros Hst ([k' s'] & Heq & Hin)%list_elem_of_fmap. simpl in Heq. subst k'.
    apply stale_sessions_elem in Hin as [Hk' Hst']. congruence.
Qed.

(** *** Credentials *)

(** Every session after an operation was there before with the same
    credential. *)
Definition same_credentials (r r' : SessionRegistry) : Prop :=
  sr_revoked_credentials r' = sr_revoked_credentials r
  ∧ ∀ k s', sr_inner r' !! k = Some s' →
      ∃ s, sr_inner r !! k = Some s ∧ ws_credential_id s' = ws_credential_id s.

Lemma same_credentials_refl r : same_credentials r r.
Proof. split; [done|eauto]. Qed.

Lemma same_credentials_trans r1 r2 r3 :
  same_credentials r1 r2 → same_credentials r2 r3 → same_credentials r1 r3.
Proof.
  intros [H1 H2] [H3 H4]. split; [by rewrite H3|]. intros k s (s2 & Hs2 & ->)%H4.
  destruct (H2 _ _ Hs2) as (s1 & Hs1 & ->). eauto.
Qed.

Lemma same_credentials_update r o w sid f :
  (∀ s, ws_credential_id (f s) = ws_credential_id s) →
  same_credentials r (update_current r o w sid f).
Proof.
  intros Hf. split; [apply update_current_revoked|].
  intros k s' [Hk|(-> & s0 & Hc & ->)]%update_current_lookup; [eauto|].
  apply current_Some in Hc as [Hc _]. eauto.
Qed.

Lemma same_credentials_shrink r inner :
  inner ⊆ sr_inner r → same_credentials r (with_inner r inner).
Proof. intros Hsub. rewrite map_subseteq_spec in Hsub. split; [done|]. simpl. eauto. Qed.

Lemma same_credentials_insert r k s s' :
  sr_inner r !! k = Some s → ws_credential_id s' = ws_credential_id s →
  same_credentials r (with_inner r (<[k := s']> (sr_inner r))).
Proof.
  intros Hk Hc. split; [done|]. simpl.
  intros k' s2 [[<- <-]|[_ Hk']]%lookup_insert_Some; eauto.
Qed.

Lemma settle_credential cmd a s : ws_credential_id (settle cmd a s) = ws_credential_id s.
Proof. unfold settle. by repeat case_match. Qed.

Lemma uncertain_credential cmd s : ws_credential_id (mark_uncertain cmd s) = ws_credential_id s.
Proof. unfold mark_uncertain. by case_match. Qed.

Lemma apply_op_credentials r op : same_credentials r (apply_op r op).
Proof.
  destruct op as [o|o w sid|o w sid now a q|cmd p|o w cmd p|o w sid cmd|o w sid cmd|o w sid cmd
    |o w sid cmd acc|now ms|o w sid cmd m|o w sid cmd out]; simpl.
  - apply same_credentials_shrink, map_filter_subseteq.
  - unfold remove_if_current. case_match; [|apply same_credentials_refl].
    apply same_credentials_shrink, delete_subseteq.
  - unfold update_heartbeat. destruct (current r o w sid); [|apply same_credentials_refl].
    by apply same_credentials_update.
  - unfold reserve_capacity. destruct (min_by_key _ _) as [[key s0]|]; [|apply same_credentials_refl].
    destruct (sr_inner r !! key) as [s|] eqn:Hk; simpl; [|apply same_credentials_refl].
    destruct (take_slot cmd s) as [s'|] eqn:Ht; simpl; [|apply same_credentials_refl].
    apply take_slot_Some in Ht as [_ ->]. by eapply same_credentials_insert.
  - unfold reserve_capacity_on. destruct (sr_inner r !! _) as [s|] eqn:Hk;
      [|apply same_credentials_refl].
    destruct (_ || _); [apply same_credentials_refl|].
    destruct (take_slot cmd s) as [s'|] eqn:Ht; simpl; [|apply same_credentials_refl].
    apply take_slot_Some in Ht as [_ ->]. by eapply same_credentials_insert.
  - unfold ensure_capacity_reservation. repeat case_match; simpl; try apply same_credentials_refl.
    by apply same_credentials_update.
  - by apply same_credentials_update.
  - apply same_credentials_update, uncertain_credential.
  - apply same_credentials_update. intros s. apply settle_credential.
  - rewrite reap_stale_spec. apply same_credentials_shrink, map_filter_subseteq.
  - unfold send_command_begin. destruct (current r o w sid); [|apply same_credentials_refl].
    by apply same_credentials_update.
  - destruct out; simpl; try apply same_credentials_refl;
      try (eapply same_credentials_trans; apply same_credentials_update; try done;
           apply uncertain_credential).
    apply same_credentials_update, uncertain_credential.
Qed.

(** *** The lock discipline of registration

    The registry with the registrations that hold the read guard on the revoked
    set: they passed the check and have not written yet.  Revoking and reaping
    take the write side, so they wait until nobody holds the guard. *)
Definition Shared : Type := SessionRegistry * list WorkerSession.

Inductive shared_step : Shared → Shared → Prop :=
| step_insert_check r l s :
    credential_revoked r s = false → shared_step (r, l) (r, s :: l)
| step_insert_write r l1 s l2 :
    shared_step (r, l1 ++ s :: l2) ((insert_write r s).1, l1 ++ l2)
| step_disconnect_credential r c :
    shared_step (r, []) ((disconnect_credential iter r c).1, [])
| step_reap_revoked r :
    shared_step (r, []) ((reap_revoked_credentials iter r).2, [])
| step_op r l op : shared_step (r, l) (apply_op r op, l).

Definition no_revoked (st : Shared) : Prop :=
  map_Forall (λ _ s, credential_revoked st.1 s = false) (sr_inner st.1)
  ∧ Forall (λ s, credential_revoked st.1 s = false) st.2.

Lemma credential_revoked_false r s :
  credential_revoked r s = false ↔
  ∀ c, ws_credential_id s = Some c → c ∉ sr_revoked_credentials r.
Proof.
  unfold credential_revoked. destruct (ws_credential_id s) as [c|]; simpl; [|naive_solver].
  rewrite bool_decide_eq_false. naive_solver.
Qed.

Lemma reap_revoked_subset r :
  sr_revoked_credentials (reap_revoked_credentials iter r).2 ⊆ sr_revoked_credentials r
  ∧ sr_inner (reap_revoked_credentials iter r).2 = sr_inner r.
Proof. unfold reap_revoked_credentials. case_bool_decide; simpl; split; try done. set_solver. Qed.

Lemma no_revoked_step st st' : shared_step st st' → no_revoked st → no_revoked st'.
Proof.
  unfold no_revoked. intros Hs [Hin Hfl].
  destruct Hs as [r l s Hc|r l1 s l2|r c|r|r l op]; simpl in *.
  - by split; [|constructor].
  - apply Forall_app in Hfl as [Hl1 [Hs Hl2]%Forall_cons].
    split; [|by apply Forall_app]. by apply map_Forall_insert_2.
  - split; [|done]. intros k s Hk. apply map_lookup_filter_Some in Hk as [Hk Hne].
    apply bool_decide_eq_false in Hne. simpl in Hne. specialize (Hin _ _ Hk).
    rewrite !credential_revoked_false in *. simpl. set_solver.
  - split; [|done]. destruct (reap_revoked_subset r) as [Hsub ->]. intros k s Hk.
    specialize (Hin _ _ Hk). rewrite !credential_revoked_false in *. set_solver.
  - destruct (apply_op_credentials r op) as [Hrev Hcred]. split.
    + intros k s Hk. destruct (Hcred _ _ Hk) as (s0 & Hs0 & Hc0). specialize (Hin _ _ Hs0).
      rewrite !credential_revoked_false in *. by rewrite Hrev, Hc0.
    + apply (Forall_impl _ _ _ Hfl). intros s. rewrite !credential_revoked_false. by rewrite Hrev.
Qed.

Lemma no_revoked_reachable st :
  rtc shared_step (SessionRegistry_default, []) st → no_revoked st.
Proof.
  intros Hr. refine (rtc_ind_r no_revoked _ _ _ _ Hr); [|intros y z _ Hyz; by apply no_revoked_step].
  split; [apply map_Forall_empty|by constructor].
Qed.

(** However registrations, revocations, reaping and the other operations
    interleave, no registered session carries a revoked credential: the guard
    held from the check to the write leaves no gap. *)
Theorem revoked_credential_never_connected r inserting k s c :
  rtc shared_step (SessionRegistry_default, []) (r, inserting) →
  sr_inner r !! k = Some s → ws_credential_id s = Some c →
  c ∉ sr_revoked_credentials r.
Proof.
  intros [Hin _]%no_revoked_reachable Hk Hc. specialize (Hin _ _ Hk).
  rewrite credential_revoked_false in Hin. auto.
Qed.

(** Reaping forgets every revocation, not only some: since no live session
    has a revoked credential, the set is emptied, and from then on only the
    store can refuse such a credential. *)
Theorem reap_revoked_forgets_all r inserting s c :
  rtc shared_step (SessionRegistry_default, []) (r, inserting) →
  ws_credential_id s = Some c →
  sr_revoked_credentials (reap_revoked_credentials iter r).2 = ∅
  ∧ (insert (reap_revoked_credentials iter r).2 s).1.1 = true.
Proof.
  intros [Hin _]%no_revoked_reachable Hc.
  assert (Hempty : sr_revoked_credentials (reap_revoked_credentials iter r).2 = ∅).
  { unfold reap_revoked_credentials. case_bool_decide as He; [done|]. simpl.
    apply set_eq. intros x. rewrite elem_of_filter, elem_of_list_to_set, list_elem_of_omap.
    split; [|set_solver]. intros [([k s'] & Hks & Hx) Hrev]. apply elem_of_iter in Hks.
    specialize (Hin _ _ Hks). rewrite credential_revoked_false in Hin. by destruct (Hin x Hx). }
  split; [done|]. unfold insert. rewrite (proj2 (credential_revoked_false _ _)); [done|].
  intros x _. rewrite Hempty. set_solver.
Qed.

(** *** Capacity *)

Definition reservations (s : WorkerSession) : nat :=
  size (ws_pending_reservations s) + size (ws_confirmed_reservations s).

Lemma capacity_reservation_count_min s :
  capacity_reservation_count s = Z.min u32_max (Z.of_nat (reservations s)).
Proof.
  unfold capacity_reservation_count, u32_try_from. fold (reservations s).
  destruct (Z.ltb_spec (Z.of_nat (reservations s)) 0); [lia|].
  destruct (Z.ltb_spec u32_max (Z.of_nat (reservations s))); simpl; lia.
Qed.

(** A load grows by no more than the reservations do. *)
Lemma load_le s s' n :
  ws_view s' = ws_view s → reservations s' ≤ reservations s + n →
  (worker_capacity_load s' ≤ worker_capacity_load s + Z.of_nat n)%Z.
Proof.
  intros Hv Hn. unfold worker_capacity_load, u32_saturating_add.
  rewrite !capacity_reservation_count_min, Hv. lia.
Qed.

Lemma reservations_set s p c : reservations (set_reservations s p c) = size p + size c.
Proof. done. Qed.

Lemma size_add (c : string) (X : gset string) : size ({[ c ]} ∪ X) ≤ S (size X).
Proof. pose proof (size_union_alt {[ c ]} X). rewrite size_singleton in *.
  assert (size (X ∖ {[ c ]}) ≤ size X) by (apply subseteq_size; set_solver). lia. Qed.

Lemma size_remove (c : string) (X : gset string) :
  size (X ∖ {[ c ]}) + (if decide (c ∈ X) then 1 else 0) = size X.
Proof.
  case_decide as Hc.
  - rewrite size_difference, size_singleton by set_solver.
    assert (size X ≠ 0) by (intros H0%size_empty_inv; set_solver). lia.
  - rewrite Nat.add_0_r. f_equal. set_solver.
Qed.

Lemma reservations_take cmd s s' :
  take_slot cmd s = Some s' → ws_view s' = ws_view s ∧ reservations s' ≤ reservations s + 1.
Proof.
  intros [_ ->]%take_slot_Some. split; [done|]. rewrite reservations_set. unfold reservations.
  pose proof (size_add cmd (ws_pending_reservations s)). lia.
Qed.

Lemma reservations_uncertain cmd s :
  ws_view (mark_uncertain cmd s) = ws_view s ∧ reservations (mark_uncertain cmd s) ≤ reservations s + 0.
Proof.
  unfold mark_uncertain. case_bool_decide as Hc; [|split; [done|lia]]. split; [done|].
  rewrite reservations_set. unfold reservations.
  pose proof (size_add cmd (ws_confirmed_reservations s)).
  pose proof (size_remove cmd (ws_pending_reservations s)). rewrite decide_True in * by done. lia.
Qed.

Lemma reservations_settle cmd a s :
  ws_view (settle cmd a s) = ws_view s ∧ reservations (settle cmd a s) ≤ reservations s + 0.
Proof.
  unfold settle.
  pose proof (size_add cmd (ws_confirmed_reservations s)).
  pose proof (size_remove cmd (ws_pending_reservations s)).
  pose proof (size_remove cmd (ws_confirmed_reservations s)).
  case_bool_decide as Hc; [rewrite (decide_True _ _ Hc) in *|rewrite (decide_False _ _ Hc) in *];
    destruct a; simpl; (split; [done|]); rewrite reservations_set; unfold reservations;
    repeat case_decide; lia.
Qed.

Definition within_capacity (s : WorkerSession) : Prop :=
  (worker_capacity_load s ≤ total_capacity (vw_capabilities (ws_view s)))%Z.

Definition capacity_ok (r : SessionRegistry) : Prop := map_Forall (λ _ s, within_capacity s) (sr_inner r).

Lemma within_capacity_shrink s s' :
  ws_view s' = ws_view s → reservations s' ≤ reservations s + 0 → within_capacity s → within_capacity s'.
Proof. intros Hv Hr. unfold within_capacity. pose proof (load_le s s' 0 Hv Hr). rewrite Hv. lia. Qed.

Lemma within_capacity_take cmd s s' :
  has_room s = true → take_slot cmd s = Some s' → within_capacity s'.
Proof.
  unfold has_room, within_capacity. intros Hroom%Z.ltb_lt [Hv Hr]%reservations_take.
  pose proof (load_le s s' 1 Hv Hr). rewrite Hv. lia.
Qed.

Lemma capacity_ok_update r o w sid f :
  (∀ s, current r o w sid = Some s → within_capacity s → within_capacity (f s)) →
  capacity_ok r → capacity_ok (update_current r o w sid f).
Proof.
  intros Hf Hok k s [Hk|(-> & s0 & Hc & ->)]%update_current_lookup; [by eapply Hok|].
  apply (Hf _ Hc). apply current_Some in Hc as [Hc _]. by eapply Hok.
Qed.

Lemma capacity_ok_subset r inner : inner ⊆ sr_inner r → capacity_ok r → capacity_ok (with_inner r inner).
Proof.
  rewrite map_subseteq_spec. intros Hsub Hok k s Hk. simpl in Hk. eapply Hok, Hsub, Hk.
Qed.

(** A heartbeat that counts at least the jobs in flight leaves the worker
    within its capacity. *)
Definition reported_within (r : SessionRegistry) (op : SessionOp) : Prop :=
  match op with
  | OpHeartbeat o w sid now a q =>
      ∀ s, current r o w sid = Some s → within_capacity (heartbeat_session s now a q)
  | _ => True
  end.

Lemma min_eligible r predicate key s0 :
  min_by_key (λ kv, worker_capacity_load kv.2)
    (List.filter (λ kv, has_room kv.2)
       (List.filter (λ kv, predicate (ws_view kv.2)) (iter (sr_inner r)))) = Some (key, s0) →
  sr_inner r !! key = Some s0 ∧ predicate (ws_view s0) = true ∧ has_room s0 = true
  ∧ ∀ k s, sr_inner r !! k = Some s → predicate (ws_view s) = true → has_room s = true →
      (worker_capacity_load s0 ≤ worker_capacity_load s)%Z.
Proof.
  assert (Hmem : ∀ k s, (k, s) ∈ List.filter (λ kv, has_room kv.2)
       (List.filter (λ kv, predicate (ws_view kv.2)) (iter (sr_inner r)))
     ↔ sr_inner r !! k = Some s ∧ predicate (ws_view s) = true ∧ has_room s = true).
  { intros k s. rewrite list_elem_of_In, !filter_In, <- list_elem_of_In, elem_of_iter. tauto. }
  intros [Hin Hmin]%min_by_key_Some. apply Hmem in Hin as (H1 & H2 & H3). split_and!; [done..|].
  intros k s Hk Hp Hr. apply (Hmin (k, s)). by apply Hmem.
Qed.

Lemma capacity_ok_release r o w sid cmd :
  capacity_ok r → capacity_ok (release_capacity_reservation r o w sid cmd).
Proof.
  apply capacity_ok_update. intros s _. apply within_capacity_shrink; [done|].
  rewrite reservations_set. unfold reservations.
  pose proof (size_remove cmd (ws_pending_reservations s)).
  pose proof (size_remove cmd (ws_confirmed_reservations s)). lia.
Qed.

Lemma capacity_ok_uncertain r o w sid cmd :
  capacity_ok r → capacity_ok (mark_capacity_reservation_uncertain r o w sid cmd).
Proof.
  apply capacity_ok_update. intros s _. destruct (reservations_uncertain cmd s).
  by apply within_capacity_shrink.
Qed.

Lemma capacity_ok_settle r o w sid cmd a :
  capacity_ok r → capacity_ok (settle_capacity_reservation r o w sid cmd a).
Proof.
  apply capacity_ok_update. intros s _. destruct (reservations_settle cmd a s).
  by apply within_capacity_shrink.
Qed.

Lemma capacity_ok_reserve r cmd p :
  capacity_ok r → capacity_ok (reserve_capacity iter r cmd p).2.
Proof.
  intros Hok. unfold reserve_capacity. destruct (min_by_key _ _) as [[key s0]|] eqn:Hm; [|done].
  apply min_eligible in Hm as (Hk & _ & Hroom & _). rewrite Hk. simpl.
  destruct (take_slot cmd s0) as [s'|] eqn:Ht; [|done]. simpl.
  apply map_Forall_insert_2; [by eapply within_capacity_take|done].
Qed.

Lemma capacity_ok_reserve_on r o w cmd p :
  capacity_ok r → capacity_ok (reserve_capacity_on r o w cmd p).2.
Proof.
  intros Hok. unfold reserve_capacity_on. destruct (sr_inner r !! _) as [s|] eqn:Hk; [|done].
  destruct (negb (p (ws_view s)) || negb (has_room s)) eqn:Hg; [done|]. bool_cases.
  destruct (take_slot cmd s) as [s'|] eqn:Ht; [|done]. simpl.
  apply map_Forall_insert_2; [by eapply within_capacity_take|done].
Qed.

Lemma capacity_ok_ensure r o w sid cmd :
  capacity_ok r → capacity_ok (ensure_capacity_reservation r o w sid cmd).2.
Proof.
  intros Hok. unfold ensure_capacity_reservation.
  destruct (current r o w sid) as [s|] eqn:Hc; [|done].
  destruct (_ || _) eqn:Hheld; [done|]. destruct (has_room s) eqn:Hroom; simpl; [|done].
  apply capacity_ok_update; [|done]. intros s' Hs' _. simplify_eq. bool_cases.
  eapply within_capacity_take; [done|]. by apply take_slot_Some.
Qed.

Lemma capacity_ok_op r op : capacity_ok r → reported_within r op → capacity_ok (apply_op r op).
Proof.
  intros Hok Hrep.
  destruct op as [o|o w sid|o w sid now a q|cmd p|o w cmd p|o w sid cmd|o w sid cmd|o w sid cmd
    |o w sid cmd acc|now ms|o w sid cmd m|o w sid cmd out]; simpl in *.
  - apply capacity_ok_subset; [apply map_filter_subseteq|done].
  - unfold remove_if_current. case_match; [|done].
    apply capacity_ok_subset; [apply delete_subseteq|done].
  - unfold update_heartbeat. destruct (current r o w sid) eqn:Hc; [|done].
    apply capacity_ok_update; [|done]. intros s Hs _. apply Hrep. congruence.
  - by apply capacity_ok_reserve.
  - by apply capacity_ok_reserve_on.
  - by apply capacity_ok_ensure.
  - by apply capacity_ok_release.
  - by apply capacity_ok_uncertain.
  - by apply capacity_ok_settle.
  - rewrite reap_stale_spec. apply capacity_ok_subset; [apply map_filter_subseteq|done].
  - unfold send_command_begin. destruct (current r o w sid); [|done].
    by apply capacity_ok_update.
  - destruct out; simpl; [apply capacity_ok_release|done|apply capacity_ok_uncertain; done
      |apply capacity_ok_uncertain]; by apply capacity_ok_update.
Qed.

(** Histories of a registry: registrations of workers within capacity, and
    operations whose heartbeats report within capacity. *)
Inductive registry_run : SessionRegistry → Prop :=
| run_default : registry_run SessionRegistry_default
| run_insert r s : registry_run r → within_capacity s → registry_run (insert r s).1.2
| run_disconnect_credential r c : registry_run r → registry_run (disconnect_credential iter r c).1
| run_op r op : registry_run r → reported_within r op → registry_run (apply_op r op).

(** Dispatching never oversubscribes a worker: as long as workers report
    within their capacity, reported jobs plus reserved slots stay within
    [parallelism + queue_depth] for every session, however reservations are
    taken, ensured, released, settled and left uncertain. *)
Theorem capacity_never_oversubscribed r k s :
  registry_run r → sr_inner r !! k = Some s →
  (worker_capacity_load s ≤ total_capacity (vw_capabilities (ws_view s)))%Z.
Proof.
  intros Hr. assert (capacity_ok r) as Hok.
  { induction Hr as [|r s0 _ IH Hs|r c _ IH|r op _ IH Hop].
    - apply map_Forall_empty.
    - unfold insert. destruct (credential_revoked r s0); simpl; [done|].
      by apply map_Forall_insert_2.
    - intros k' s' Hk. apply map_lookup_filter_Some in Hk as [Hk _]. by eapply IH.
    - by apply capacity_ok_op. }
  apply Hok.
Qed.

(** Admission picks a connected worker that satisfies the caller's
    predicate and has a free slot, with the least load among all such workers,
    and reserves exactly one slot for the command on it. *)
Theorem reserve_capacity_least_loaded r cmd predicate v r' :
  reserve_capacity iter r cmd predicate = (Some v, r') →
  ∃ key s s', sr_inner r !! key = Some s ∧ predicate (ws_view s) = true
    ∧ (worker_capacity_load s < total_capacity (vw_capabilities (ws_view s)))%Z
    ∧ (∀ k t, sr_inner r !! k = Some t → predicate (ws_view t) = true →
         (worker_capacity_load t < total_capacity (vw_capabilities (ws_view t)))%Z →
         (worker_capacity_load s ≤ worker_capacity_load t)%Z)
    ∧ take_slot cmd s = Some s' ∧ v = worker_view_with_reservations s'
    ∧ sr_inner r' = <[key := s']> (sr_inner r).
Proof.
  unfold reserve_capacity. destruct (min_by_key _ _) as [[key s]|] eqn:Hm; [|done].
  apply min_eligible in Hm as (Hk & Hp & Hroom & Hmin). rewrite Hk. simpl.
  destruct (take_slot cmd s) as [s'|] eqn:Ht; [|done]. intros [= <- <-].
  exists key, s, s'. unfold has_room in *. apply Z.ltb_lt in Hroom.
  split_and!; try done. intros k t Hkt Hpt Hrt. apply (Hmin k t); [done..|]. by apply Z.ltb_lt.
Qed.

(** *** One command *)

Definition charged (cmd : string) (s : WorkerSession) : Prop :=
  cmd ∈ ws_pending_reservations s ∨ cmd ∈ ws_confirmed_reservations s.

Lemma update_current_current r o w sid f :
  (∀ s, vw_session_id (ws_view (f s)) = vw_session_id (ws_view s)) →
  current (update_current r o w sid f) o w sid = f <$> current r o w sid.
Proof.
  intros Hf. unfold update_current. destruct (current r o w sid) as [s|] eqn:Hc; [|by rewrite Hc].
  simpl. apply current_Some. apply current_Some in Hc as [_ Hs]. simpl.
  by rewrite lookup_insert_eq, Hf.
Qed.

(** A dispatch stays charged to its worker until it is known not to run
    there: a message that could not be sent or was rejected gives the slot
    back, even when the rejection arrives after the caller timed out; a lost or
    late ACK and an accepted one keep it; and only a heartbeat, whose report
    then counts the job, clears it. *)
Theorem dispatch_charged_until_resolved r o w sid cmd s ack now a q :
  current r o w sid = Some s → cmd ∈ ws_pending_reservations s →
  (∀ out t, current (send_command_finish r o w sid cmd out).2 o w sid = Some t →
     charged cmd t ↔ out ≠ NotSent)
  ∧ (send_command_finish r o w sid cmd (Acked ack)).1 = Ok ack
  ∧ (∀ accepted t, current (settle_capacity_reservation r o w sid cmd accepted) o w sid = Some t →
       charged cmd t ↔ accepted = true)
  ∧ (∀ t, current (settle_capacity_reservation
               (send_command_finish r o w sid cmd AckTimedOut).2 o w sid cmd false) o w sid = Some t →
       ¬ charged cmd t)
  ∧ (∀ t, current (apply_op (mark_capacity_reservation_uncertain r o w sid cmd)
               (OpHeartbeat o w sid now a q)) o w sid = Some t → ¬ charged cmd t).
Proof.
  intros Hs Hcmd. unfold charged.
  assert (Hsettle : ∀ acc x, vw_session_id (ws_view (settle cmd acc x)) = vw_session_id (ws_view x))
    by (intros acc x; by rewrite (proj1 (reservations_settle cmd acc x))).
  assert (Hunc : ∀ x, vw_session_id (ws_view (mark_uncertain cmd x)) = vw_session_id (ws_view x))
    by (intros x; by rewrite (proj1 (reservations_uncertain cmd x))).
  split_and!.
  - intros out t. destruct out; simpl;
      unfold release_capacity_reservation, mark_capacity_reservation_uncertain;
      rewrite ?update_current_current, Hs by done; simpl; intros [= <-].
    + simpl. set_solver.
    + set_solver.
    + unfold mark_uncertain. rewrite bool_decide_eq_true_2 by done. simpl. set_solver.
    + unfold mark_uncertain. simpl. rewrite bool_decide_eq_true_2 by done. simpl. set_solver.
  - done.
  - intros acc t. unfold settle_capacity_reservation. rewrite update_current_current, Hs by done.
    intros [= <-]. unfold settle. rewrite bool_decide_eq_true_2 by done. destruct acc; simpl; set_solver.
  - intros t. simpl. unfold settle_capacity_reservation, mark_capacity_reservation_uncertain.
    rewrite !update_current_current, Hs by done. intros [= <-].
    unfold settle. rewrite andb_false_r. simpl. set_solver.
  - intros t. simpl. unfold update_heartbeat, mark_capacity_reservation_uncertain.
    rewrite update_current_current, Hs by done. simpl.
    rewrite !update_current_current, Hs by done. intros [= <-]. simpl.
    unfold mark_uncertain. rewrite bool_decide_eq_true_2 by done. simpl. set_solver.
Qed.

(** A replaced connection is inert: once the registry holds another
    session for a worker, nothing done in the name of the old session id
    changes the registry, and its heartbeats and commands are refused. *)
Theorem stale_session_inert r o w sid cmd acc out now a q m :
  current r o w sid = None →
  remove_if_current r o w sid = r
  ∧ release_capacity_reservation r o w sid cmd = r
  ∧ mark_capacity_reservation_uncertain r o w sid cmd = r
  ∧ settle_capacity_reservation r o w sid cmd acc = r
  ∧ ensure_capacity_reservation r o w sid cmd = (false, r)
  ∧ (send_command_finish r o w sid cmd out).2 = r
  ∧ update_heartbeat r now o w sid a q = Err (Conflict "worker session is stale")
  ∧ send_command_begin r o w sid cmd m = Err (Conflict "worker session is not connected").
Proof.
  intros Hc. assert (Hu : ∀ f, update_current r o w sid f = r)
    by (intros f; unfold update_current; by rewrite Hc).
  unfold remove_if_current, release_capacity_reservation, mark_capacity_reservation_uncertain,
    settle_capacity_reservation, ensure_capacity_reservation, update_heartbeat, send_command_begin.
  rewrite Hc, !Hu. split_and!; try done.
  destruct out; simpl; unfold release_capacity_reservation, mark_capacity_reservation_uncertain;
    by rewrite ?Hu.
Qed.

(** Reaping drops exactly the sessions silent for longer than allowed,
    cancels each of their connections, and reports their worker ids. *)
Theorem reap_stale_exact r now ms k :
  sr_inner (reap_stale iter r now ms).1.2 !! k
  = (s ← sr_inner r !! k; if is_stale now ms s then None else Some s)
  ∧ (∀ s, sr_inner r !! k = Some s → is_stale now ms s = true →
       CancelConnection (vw_session_id (ws_view s)) ∈ (reap_stale iter r now ms).2
       ∧ vw_worker_id (ws_view s) ∈ (reap_stale iter r now ms).1.1).
Proof.
  rewrite reap_stale_spec. simpl. split.
  - rewrite map_lookup_filter. destruct (sr_inner r !! k) as [s|]; simpl; [|done].
    by destruct (is_stale now ms s).
  - intros s Hk Hst. assert ((k, s) ∈ stale_sessions r now ms) as Hin by by apply stale_sessions_elem.
    split; apply list_elem_of_fmap; by exists (k, s).
Qed.
End registry.

(** ** Witnesses *)
Module SessionExample.
Definition view (worker session : string) (active : Z) : WorkerView := {|
  vw_organization_id := "acme"; vw_owner_user_id := None; vw_worker_id := worker;
  vw_session_id := session; vw_namespace := "lab"; vw_node_name := worker;
  vw_capabilities := mkWorkerCapabilities [] 1 1 false ∅;
  vw_active_jobs := active; vw_queued_jobs := 0; vw_connected_at := 0 |}.
Definition session (worker session_id : string) (active : Z) : WorkerSession :=
  mkWorkerSession (view worker session_id active) (Some "cred") ∅ ∅ ∅ 0.
Definition iter : gmap string WorkerSession → list (string * WorkerSession) := map_to_list.
Lemma iter_perm m : iter m ≡ₚ map_to_list m.
Proof. done. Qed.
Definition registry : SessionRegistry :=
  (insert SessionRegistry_default (session "gpu" "s1" 1)).1.2.
Definition reserved : SessionRegistry := (reserve_capacity_on registry "acme" "gpu" "c1" (λ _, true)).2.
Lemma reachable : rtc (shared_step iter) (SessionRegistry_default, []) (registry, []).
Proof.
  eapply rtc_l; [apply (step_insert_check _ _ _ (session "gpu" "s1" 1)); reflexivity|].
  apply rtc_once. apply (step_insert_write _ SessionRegistry_default [] (session "gpu" "s1" 1) []).
Qed.
Lemma run : registry_run iter reserved.
Proof.
  apply (run_op iter registry (OpReserveOn "acme" "gpu" "c1" (λ _, true))); [|done].
  apply (run_insert iter SessionRegistry_default (session "gpu" "s1" 1)); [constructor|].
  vm_compute. done.
Qed.
End SessionExample.

Lemma revoked_credential_never_connected_witness :
  "cred" ∉ sr_revoked_credentials SessionExample.registry.
Proof.
  apply (revoked_credential_never_connected SessionExample.iter SessionExample.iter_perm
           SessionExample.registry [] (session_key "acme" "gpu")
           (SessionExample.session "gpu" "s1" 1) "cred" SessionExample.reachable);
    vm_compute; reflexivity.
Defined.

Lemma reap_revoked_forgets_all_witness :
  sr_revoked_credentials (reap_revoked_credentials SessionExample.iter SessionExample.registry).2 = ∅.
Proof.
  apply (reap_revoked_forgets_all SessionExample.iter SessionExample.iter_perm
           SessionExample.registry [] (SessionExample.session "gpu" "s1" 1) "cred"
           SessionExample.reachable). reflexivity.
Defined.

Lemma capacity_never_oversubscribed_witness :
  ∃ s, sr_inner SessionExample.reserved !! session_key "acme" "gpu" = Some s
    ∧ (worker_capacity_load s ≤ total_capacity (vw_capabilities (ws_view s)))%Z.
Proof.
  eexists. split; [vm_compute; reflexivity|].
  apply (capacity_never_oversubscribed SessionExample.iter SessionExample.iter_perm
           SessionExample.reserved (session_key "acme" "gpu") _ SessionExample.run).
  vm_compute. reflexivity.
Defined.

Lemma reserve_capacity_least_loaded_witness :
  ∃ v r' key s, reserve_capacity SessionExample.iter SessionExample.registry "c1" (λ _, true) = (Some v, r')
    ∧ sr_inner SessionExample.registry !! key = Some s.
Proof.
  do 2 eexists.
  destruct (reserve_capacity_least_loaded SessionExample.iter SessionExample.iter_perm
    SessionExample.registry "c1" (λ _, true) _ _ ltac:(vm_compute; reflexivity))
    as (key & s & s' & Hk & _).
  exists key, s. split; [vm_compute; reflexivity|exact Hk].
Defined.

Lemma dispatch_charged_until_resolved_witness :
  ∃ t, current (send_command_finish SessionExample.reserved "acme" "gpu" "s1" "c1" AckTimedOut).2
         "acme" "gpu" "s1" = Some t ∧ charged "c1" t.
Proof.
  eexists. split; [vm_compute; reflexivity|].
  eapply (dispatch_charged_until_resolved SessionExample.iter SessionExample.iter_perm
    SessionExample.reserved "acme" "gpu" "s1" "c1"
    (set_reservations (SessionExample.session "gpu" "s1" 1) ({[ "c1" ]} ∪ ∅) ∅)
    (mkCommandAck "c1" true "") 0 0 0) with (out := AckTimedOut); [vm_compute; reflexivity| |vm_compute; reflexivity|done].
  apply (bool_decide_unpack _). vm_compute. exact I.
Defined.

Lemma stale_session_inert_witness :
  remove_if_current SessionExample.registry "acme" "gpu" "s0" = SessionExample.registry.
Proof.
  apply (stale_session_inert SessionExample.registry "acme" "gpu" "s0" "c1" true NotSent 0 0 0
           (protocol_error "" "" false)). vm_compute. reflexivity.
Defined.

Lemma reap_stale_exact_witness :
  sr_inner (reap_stale SessionExample.iter SessionExample.registry 100 30).1.2
    !! session_key "acme" "gpu" = None.
Proof.
  destruct (reap_stale_exact SessionExample.iter SessionExample.iter_perm SessionExample.registry
    100 30 (session_key "acme" "gpu")) as [Hk _].
  rewrite Hk. vm_compute. reflexivity.
Defined.
