(* ===== verification/Store.v ===== *)
(** The control-plane store ([nagisalake-hub-store/src/jobs.rs], [quota.rs], and
    the admission policy of [devices.rs]).

    A table is a finite map under its primary key; a nullable column is an
    [option], and a comparison with it is true only for [Some]; a statement
    that updates by primary key reads, tests its WHERE clause and writes one
    row; a transaction is one function that returns the new database or, when
    it rolls back, an error and no database.  Transactions of PostgreSQL lock
    the rows they update, so they are taken one after another.

    Main results: the active-job counter of an organization is the number of
    its unfinished jobs over any sequence of transactions, so admission never
    exceeds its concurrency quota; a retried submission is admitted once; a job
    event and the job's row change together or not at all; a claimed dispatch
    is not handed out again while its lease runs; reconciliation restores the
    counters from the jobs whatever they were. *)

From S2P Require Import Prelude Text Json Messages Core HubTypes.
From Stdlib Require Import ZArith Lia.

(** ** Tables *)

(** A row of [jobs]: the columns the Hub reads, and the batch it belongs to. *)
Record JobTableRow := mkJobTableRow {
  jt_job : StoredJob;
  jt_batch_id : option string;
  jt_batch_index : option Z;
  jt_client_item_id : option string;
}.

(** A row of [artifacts]: with the deadline of a pending upload. *)
Record ArtifactTableRow := mkArtifactTableRow {
  art_artifact : StoredArtifact;
  art_expires_at : option Z;
}.

Record QuotaPolicy := mkQuotaPolicy {
  qp_max_concurrent_jobs : Z;
  qp_max_storage_bytes : Z;
  qp_max_jobs_per_period : Z;
  qp_period_seconds : Z;
  qp_max_batch_jobs : Z;
  qp_updated_at : Z;
}.

Record QuotaUsage := mkQuotaUsage {
  qu_active_jobs : Z;
  qu_storage_bytes : Z;
  qu_period_jobs : Z;
  qu_period_started_at : Z;
  qu_updated_at : Z;
}.

Record OutboxRow := mkOutboxRow {
  ob_status : string;
  ob_attempts : Z;
  ob_available_at : Z;
  ob_claimed_at : option Z;
  ob_last_error : option string;
}.

(** A row of [device_grants], by device and grantee. *)
Record GrantRow := mkGrantRow {
  gr_id : string;
  gr_owner_user_id : string;
  gr_invite_id : string;
  gr_created_at : Z;
  gr_allowed_workflows_json : string;
  gr_max_concurrent_jobs : option Z;
  gr_expires_at : option Z;
  gr_revoked_at : option Z;
}.

Record StoredJobBatch := mkStoredJobBatch {
  sb_id : string;
  sb_organization_id : string;
  sb_actor_id : string;
  sb_actor_kind : string;
  sb_actor_user_id : option string;
  sb_workflow_id : string;
  sb_workflow_version : string;
  sb_workflow_content_digest : option string;
  sb_base_parameters_json : string;
  sb_variation_spec_json : string;
  sb_device_organization_id : option string;
  sb_device_id : option string;
  sb_total_jobs : Z;
  sb_retry_of_batch_id : option string;
  sb_cancel_requested_at : option Z;
  sb_created_at : Z;
  sb_updated_at : Z;
}.

(** A row of [job_dispatch_queue]. *)
Record QueueRow := mkQueueRow {
  qr_available_at : Z;
  qr_priority : Z;
  qr_created_at : Z;
  qr_lease_owner : option string;
  qr_lease_until : option Z;
}.

(** A row of [workers]: who registered it, its last connection and when it was
    last heard.  What it announced is not read by the operations modelled. *)
Record WorkerTableRow := mkWorkerTableRow {
  wt_owner_user_id : option string;
  wt_last_session_id : option string;
  wt_last_seen_at : Z;
  wt_namespace : string;
  wt_node_name : string;
  wt_worker_version : string;
  wt_capabilities_json : string;
}.

Definition JobKey : Type := string * string.
Definition EventKey : Type := string * string * Z * Z.
Definition OutboxKey : Type := string * string * Z.
Definition IdempotencyKey : Type := string * string * string * string * string.

Record Db := mkDb {
  db_jobs : gmap (string * string) JobTableRow;
  db_events : gmap (string * string * Z * Z) StoredJobEvent;
  db_artifacts : gmap (string * string) ArtifactTableRow;
  (** [artifact_upload_requests]. *)
  db_uploads : gmap (string * string) StoredUploadRequest;
  db_policies : gmap string QuotaPolicy;
  db_usage : gmap string QuotaUsage;
  (** [usage_ledger] entries of metric ['concurrency_release'], by
      organization and idempotency key. *)
  db_releases : gset (string * string);
  db_outbox : gmap (string * string * Z) OutboxRow;
  db_idempotency : gmap (string * string * string * string * string) (string * string);
  db_workers : gmap (string * string) WorkerTableRow;
  db_grants : gmap (string * string * string) GrantRow;
  db_batches : gmap (string * string) StoredJobBatch;
  db_queue : gmap (string * string) QueueRow;
  (** [job_batch_idempotency_records]. *)
  db_batch_idempotency : gmap (string * string * string * string * string) (string * string);
}.

Definition set_jobs (d : Db) v := mkDb v (db_events d) (db_artifacts d) (db_uploads d) (db_policies d) (db_usage d)
  (db_releases d) (db_outbox d) (db_idempotency d) (db_workers d) (db_grants d) (db_batches d)
  (db_queue d) (db_batch_idempotency d).
Definition set_events (d : Db) v := mkDb (db_jobs d) v (db_artifacts d) (db_uploads d) (db_policies d) (db_usage d)
  (db_releases d) (db_outbox d) (db_idempotency d) (db_workers d) (db_grants d) (db_batches d)
  (db_queue d) (db_batch_idempotency d).
Definition set_artifacts (d : Db) v := mkDb (db_jobs d) (db_events d) v (db_uploads d) (db_policies d) (db_usage d)
  (db_releases d) (db_outbox d) (db_idempotency d) (db_workers d) (db_grants d) (db_batches d)
  (db_queue d) (db_batch_idempotency d).
Definition set_uploads (d : Db) v := mkDb (db_jobs d) (db_events d) (db_artifacts d) v (db_policies d) (db_usage d)
  (db_releases d) (db_outbox d) (db_idempotency d) (db_workers d) (db_grants d) (db_batches d)
  (db_queue d) (db_batch_idempotency d).
Definition set_policies (d : Db) v := mkDb (db_jobs d) (db_events d) (db_artifacts d) (db_uploads d) v (db_usage d)
  (db_releases d) (db_outbox d) (db_idempotency d) (db_workers d) (db_grants d) (db_batches d)
  (db_queue d) (db_batch_idempotency d).
Definition set_usage (d : Db) v := mkDb (db_jobs d) (db_events d) (db_artifacts d) (db_uploads d) (db_policies d) v
  (db_releases d) (db_outbox d) (db_idempotency d) (db_workers d) (db_grants d) (db_batches d)
  (db_queue d) (db_batch_idempotency d).
Definition set_releases (d : Db) v := mkDb (db_jobs d) (db_events d) (db_artifacts d) (db_uploads d) (db_policies d) (db_usage d)
  v (db_outbox d) (db_idempotency d) (db_workers d) (db_grants d) (db_batches d)
  (db_queue d) (db_batch_idempotency d).
Definition set_outbox (d : Db) v := mkDb (db_jobs d) (db_events d) (db_artifacts d) (db_uploads d) (db_policies d) (db_usage d)
  (db_releases d) v (db_idempotency d) (db_workers d) (db_grants d) (db_batches d)
  (db_queue d) (db_batch_idempotency d).
Definition set_idempotency (d : Db) v := mkDb (db_jobs d) (db_events d) (db_artifacts d) (db_uploads d) (db_policies d) (db_usage d)
  (db_releases d) (db_outbox d) v (db_workers d) (db_grants d) (db_batches d)
  (db_queue d) (db_batch_idempotency d).
Definition set_workers (d : Db) v := mkDb (db_jobs d) (db_events d) (db_artifacts d) (db_uploads d) (db_policies d) (db_usage d)
  (db_releases d) (db_outbox d) (db_idempotency d) v (db_grants d) (db_batches d)
  (db_queue d) (db_batch_idempotency d).
Definition set_grants (d : Db) v := mkDb (db_jobs d) (db_events d) (db_artifacts d) (db_uploads d) (db_policies d) (db_usage d)
  (db_releases d) (db_outbox d) (db_idempotency d) (db_workers d) v (db_batches d)
  (db_queue d) (db_batch_idempotency d).
Definition set_batches (d : Db) v := mkDb (db_jobs d) (db_events d) (db_artifacts d) (db_uploads d) (db_policies d) (db_usage d)
  (db_releases d) (db_outbox d) (db_idempotency d) (db_workers d) (db_grants d) v
  (db_queue d) (db_batch_idempotency d).
Definition set_queue (d : Db) v := mkDb (db_jobs d) (db_events d) (db_artifacts d) (db_uploads d) (db_policies d) (db_usage d)
  (db_releases d) (db_outbox d) (db_idempotency d) (db_workers d) (db_grants d) (db_batches d)
  v (db_batch_idempotency d).
Definition set_batch_idempotency (d : Db) v := mkDb (db_jobs d) (db_events d) (db_artifacts d) (db_uploads d) (db_policies d) (db_usage d)
  (db_releases d) (db_outbox d) (db_idempotency d) (db_workers d) (db_grants d) (db_batches d)
  (db_queue d) v.

(** ** SQL fragments *)

(** [state IN ('completed','failed','cancelled')]. *)
Definition terminal_name (s : string) : bool :=
  String.eqb s "completed" || String.eqb s "failed" || String.eqb s "cancelled".

Definition row_state (r : JobTableRow) : string := sj_state (jt_job r).
Definition unfinished (r : JobTableRow) : bool := negb (terminal_name (row_state r)).

(** [column=$1] on a nullable column. *)
Definition sql_eq (column : option string) (v : string) : bool := bool_decide (column = Some v).

(** [a IS NOT DISTINCT FROM b] on [REAL]: NaN equals itself in PostgreSQL. *)
Definition real_eqb (a b : spec_float) : bool :=
  match a, b with S754_nan, S754_nan => true | _, _ => float_eqb a b end.
Definition not_distinct_real (a b : option spec_float) : bool :=
  match a, b with Some x, Some y => real_eqb x y | None, None => true | _, _ => false end.

(** [i64::saturating_mul]. *)
Definition i64_saturating_mul (a b : Z) : Z := Z.max i64_min (Z.min i64_max (a * b)).

(** Updates of the columns a statement sets. *)
Definition with_job (r : JobTableRow) (j : StoredJob) : JobTableRow := 
  mkJobTableRow j (jt_batch_id r) (jt_batch_index r) (jt_client_item_id r).

Definition set_session (j : StoredJob) (session_id : string) (updated_at : Z) : StoredJob := {|
  sj_organization_id := sj_organization_id j; sj_id := sj_id j; sj_actor_id := sj_actor_id j;
  sj_actor_kind := sj_actor_kind j; sj_actor_user_id := sj_actor_user_id j;
  sj_workflow_id := sj_workflow_id j; sj_workflow_version := sj_workflow_version j;
  sj_parameters_json := sj_parameters_json j;
  sj_input_artifact_ids_json := sj_input_artifact_ids_json j;
  sj_output_artifact_ids_json := sj_output_artifact_ids_json j; sj_worker_id := sj_worker_id j;
  sj_worker_organization_id := sj_worker_organization_id j; sj_session_id := Some session_id;
  sj_attempt := sj_attempt j; sj_state := sj_state j; sj_progress := sj_progress j;
  sj_prompt_id := sj_prompt_id j; sj_error := sj_error j; sj_last_event := sj_last_event j;
  sj_created_at := sj_created_at j; sj_updated_at := updated_at |}.

Definition set_state (j : StoredJob) (state : string) (error : option string) (updated_at : Z)
    : StoredJob := {|
  sj_organization_id := sj_organization_id j; sj_id := sj_id j; sj_actor_id := sj_actor_id j;
  sj_actor_kind := sj_actor_kind j; sj_actor_user_id := sj_actor_user_id j;
  sj_workflow_id := sj_workflow_id j; sj_workflow_version := sj_workflow_version j;
  sj_parameters_json := sj_parameters_json j;
  sj_input_artifact_ids_json := sj_input_artifact_ids_json j;
  sj_output_artifact_ids_json := sj_output_artifact_ids_json j; sj_worker_id := sj_worker_id j;
  sj_worker_organization_id := sj_worker_organization_id j; sj_session_id := sj_session_id j;
  sj_attempt := sj_attempt j; sj_state := state; sj_progress := sj_progress j;
  sj_prompt_id := sj_prompt_id j; sj_error := error; sj_last_event := sj_last_event j;
  sj_created_at := sj_created_at j; sj_updated_at := updated_at |}.

Definition set_active (u : QuotaUsage) (active now : Z) : QuotaUsage :=
  mkQuotaUsage active (qu_storage_bytes u) (qu_period_jobs u) (qu_period_started_at u) now.
Definition set_storage (u : QuotaUsage) (bytes now : Z) : QuotaUsage :=
  mkQuotaUsage (qu_active_jobs u) bytes (qu_period_jobs u) (qu_period_started_at u) now.

(** ** Quota *)

(** Inserts the release of a terminal job into the ledger, and gives its slot
    back when the ledger had none. *)
Definition release_job_for_terminal_tx (d : Db) (organization_id job_id : string) (now : Z) : Db :=
  match db_jobs d !! (organization_id, job_id) with
  | Some r =>
      if terminal_name (row_state r) && bool_decide ((organization_id, job_id) ∉ db_releases d) then
        let d := set_releases d ({[ (organization_id, job_id) ]} ∪ db_releases d) in
        set_usage d (alter (λ u, set_active u (Z.max 0 (qu_active_jobs u - 1)) now)
                       organization_id (db_usage d))
      else d
  | None => d
  end.

Definition reserve_storage (d : Db) (now : Z) (organization_id : string) (bytes : Z)
    : Res StoreError Db :=
  quota ← ok_or (StNotFound "quota policy") (db_policies d !! organization_id);
  usage ← ok_or (Database "no rows returned by a query that expected to return at least one row")
            (db_usage d !! organization_id);
  reject_if ((bytes <? 0)
             || (qp_max_storage_bytes quota <? i64_saturating_add (qu_storage_bytes usage) bytes))%Z
    (StQuotaExceeded "storage_bytes") ;;
  Ok (set_usage d (<[organization_id := set_storage usage (qu_storage_bytes usage + bytes) now]>
                     (db_usage d))).

Definition release_storage (d : Db) (now : Z) (organization_id : string) (bytes : Z) : Db :=
  set_usage d (alter (λ u, set_storage u (Z.max 0 (qu_storage_bytes u - Z.max bytes 0)) now)
                 organization_id (db_usage d)).

(** [period_jobs] of the current period. *)
Definition period_jobs_at (quota : QuotaPolicy) (usage : QuotaUsage) (now : Z) : Z :=
  if (i64_saturating_mul (qp_period_seconds quota) 1000
      <=? i64_saturating_sub now (qu_period_started_at usage))%Z
  then 0%Z else qu_period_jobs usage.

(** [UPDATE quota_usage SET active_jobs=active_jobs+1,period_jobs=..]. *)
Definition charge_job (u : QuotaUsage) (period_jobs now : Z) : QuotaUsage :=
  mkQuotaUsage (qu_active_jobs u + 1) (qu_storage_bytes u) (period_jobs + 1)
    (if (period_jobs =? 0)%Z then now else qu_period_started_at u) now.

Definition reserve_job (d : Db) (now : Z) (organization_id : string) : Res StoreError Db :=
  quota ← ok_or (StNotFound "quota policy") (db_policies d !! organization_id);
  usage ← ok_or (Database "no rows returned by a query that expected to return at least one row")
            (db_usage d !! organization_id);
  let period_jobs := period_jobs_at quota usage now in
  reject_if ((qp_max_concurrent_jobs quota <=? qu_active_jobs usage)
             || (qp_max_jobs_per_period quota <=? period_jobs))%Z (StQuotaExceeded "jobs") ;;
  Ok (set_usage d (<[organization_id := charge_job usage period_jobs now]> (db_usage d))).

Definition release_job (d : Db) (now : Z) (organization_id : string) : Db :=
  set_usage d (alter (λ u, set_active u (Z.max 0 (qu_active_jobs u - 1)) now)
                 organization_id (db_usage d)).

Definition release_job_for_terminal (d : Db) (now : Z) (organization_id job_id : string) : Db :=
  release_job_for_terminal_tx d organization_id job_id now.

Definition update_quota_policy (d : Db) (now : Z) (organization_id : string)
    (max_concurrent_jobs max_storage_bytes max_jobs_per_period period_seconds : Z)
    : Res StoreError Db :=
  reject_if ((max_concurrent_jobs <=? 0) || (max_storage_bytes <=? 0)
             || (max_jobs_per_period <=? 0) || (period_seconds <=? 0))%Z
    (StInvalidConfig "quota policy values must be greater than zero") ;;
  policy ← ok_or (StNotFound "quota policy") (db_policies d !! organization_id);
  _ ← ok_or (Database "no rows returned by a query that expected to return at least one row")
        (db_usage d !! organization_id);
  Ok (set_policies d (<[organization_id := mkQuotaPolicy max_concurrent_jobs max_storage_bytes
                          max_jobs_per_period period_seconds (qp_max_batch_jobs policy) now]> (db_policies d))).

(** Unfinished jobs of an organization. *)
Definition unfinished_of (jobs : gmap (string * string) JobTableRow) (organization_id : string)
    : gmap (string * string) JobTableRow :=
  filter (λ kv, kv.1.1 = organization_id ∧ unfinished kv.2 = true) jobs.
Definition unfinished_count (jobs : gmap (string * string) JobTableRow) (organization_id : string) : Z :=
  Z.of_nat (size (unfinished_of jobs organization_id)).

Definition worker_alive (d : Db) (cutoff : Z) (j : StoredJob) : bool :=
  match sj_worker_organization_id j, sj_worker_id j with
  | Some o, Some w => is_some_and (λ row, (cutoff <? wt_last_seen_at row)%Z) (db_workers d !! (o, w))
  | _, _ => false
  end.

Definition is_stale_job (d : Db) (cutoff : Z) (r : JobTableRow) : bool :=
  unfinished r && (sj_updated_at (jt_job r) <=? cutoff)%Z && negb (worker_alive d cutoff (jt_job r)).

(** [reconcile_active_job_quota], the database after it. *)
Definition reconcile_active_job_quota (d : Db) (now stale_after_ms : Z) : Db :=
  let cutoff := i64_saturating_sub now (Z.max stale_after_ms 1000) in
  let jobs := (λ r, if is_stale_job d cutoff r
                    then with_job r (set_state (jt_job r) "failed"
                           (Some "worker session unavailable during quota reconciliation") now)
                    else r) <$> db_jobs d in
  let stale := dom (filter (λ kv, is_stale_job d cutoff kv.2 = true) (db_jobs d)) in
  let usage := map_imap (λ o u, Some (
      let actual := unfinished_count jobs o in
      if (qu_active_jobs u =? actual)%Z then u else set_active u actual now)) (db_usage d) in
  set_usage (set_releases (set_jobs d jobs) (stale ∪ db_releases d)) usage.

(** ** Admission to shared devices *)

Record DeviceUseAdmission := mkDeviceUseAdmission {
  ad_organization_id : string;
  ad_user_id : string;
  ad_device_organization_id : string;
  ad_device_id : string;
  ad_workflow_id : string;
  ad_workflow_version : string;
  ad_requested_jobs : Z;
  ad_now : Z;
}.

(** The jobs that count against a grant's limit: bound to the device, or queued
    in a batch aimed at it. *)
Definition counts_against_grant (d : Db) (a : DeviceUseAdmission) (key : string * string)
    (r : JobTableRow) : bool :=
  let j := jt_job r in
  let batch := b ← jt_batch_id r; db_batches d !! (sj_organization_id j, b) in
  String.eqb key.1 (ad_organization_id a)
  && sql_eq (sj_actor_user_id j) (ad_user_id a)
  && unfinished r
  && ((sql_eq (sj_worker_organization_id j) (ad_device_organization_id a)
       && sql_eq (sj_worker_id j) (ad_device_id a))
      || (String.eqb (sj_state j) "queued"
          && sql_eq (batch ≫= sb_device_organization_id) (ad_device_organization_id a)
          && sql_eq (batch ≫= sb_device_id) (ad_device_id a))).

Definition grant_active_jobs (d : Db) (a : DeviceUseAdmission) : Z :=
  Z.of_nat (size (filter (λ kv, counts_against_grant d a kv.1 kv.2 = true) (db_jobs d))).

Section admission.
(** [serde_json::from_str] of a rule list. *)
Context (parse_rules : string → Res string (list DeviceWorkflowRule)).

Definition enforce_device_use_policy_tx (d : Db) (a : DeviceUseAdmission) : Res StoreError unit :=
  let requested_jobs := Z.max (ad_requested_jobs a) 1 in
  if String.eqb (ad_device_organization_id a) (ad_organization_id a) then
    reject_if (negb (bool_decide (is_Some (db_workers d !! (ad_device_organization_id a, ad_device_id a)))))
      (StNotFound "organization device")
  else
    grant ← ok_or (StConflict "shared pool device grant is not active")
      (g ← db_grants d !! (ad_device_organization_id a, ad_device_id a, ad_user_id a);
       if bool_decide (gr_revoked_at g = None)
          && match gr_expires_at g with None => true | Some e => (ad_now a <? e)%Z end
       then Some g else None);
    rules ← match parse_rules (gr_allowed_workflows_json grant) with
            | Ok rules => Ok rules
            | Err error => Err (StInvalidConfig ("invalid device grant policy: " +:+ error))
            end;
    reject_if (negb (device_workflow_allowed rules (ad_workflow_id a) (ad_workflow_version a)))
      (StConflict "shared pool device grant does not allow this workflow version") ;;
    match gr_max_concurrent_jobs grant with
    | Some limit =>
        reject_if (limit <? i64_saturating_add (grant_active_jobs d a) requested_jobs)%Z
          (StQuotaExceeded "shared_device_concurrency")
    | None => Ok tt
    end.

(** ** Jobs *)

Record IdempotencyInsert := mkIdempotencyInsert {
  ii_organization_id : string;
  ii_actor_kind : string;
  ii_actor_id : string;
  ii_endpoint : string;
  ii_key : string;
  ii_request_hash : string;
  ii_job_id : string;
  ii_now : Z;
}.

Definition idempotency_key (i : IdempotencyInsert) : IdempotencyKey :=
  (ii_organization_id i, ii_actor_kind i, ii_actor_id i, ii_endpoint i, ii_key i).

Inductive CommitJobResult := Created | Existing (job_id : string).

Definition INITIAL_DISPATCH_DELAY_MS : Z := 5000.

(** [UPDATE artifacts SET job_id=.. WHERE id=ANY($4) AND state='ready' AND
    job_id IS NULL RETURNING id]: the ids it returns. *)
Definition claimable (d : Db) (organization_id : string) (id : string) : bool :=
  is_some_and (λ a, String.eqb (sa_state (art_artifact a)) "ready"
                    && bool_decide (sa_job_id (art_artifact a) = None))
    (db_artifacts d !! (organization_id, id)).

Definition claimed_ids (d : Db) (organization_id : string) (ids : list string) : gset string :=
  list_to_set (List.filter (claimable d organization_id) ids).

Definition claim_artifact (job_id : string) (now : Z) (r : ArtifactTableRow) : ArtifactTableRow :=
  let a := art_artifact r in
  mkArtifactTableRow
    (mkStoredArtifact (sa_organization_id a) (sa_id a) (Some job_id) (sa_name a) (sa_content_type a)
       (sa_size_bytes a) (sa_sha256 a) (sa_state a) (sa_object_key a) (sa_created_at a) now)
    (art_expires_at r).

Definition claim_artifacts (d : Db) (organization_id job_id : string) (now : Z) (ids : list string)
    : Res StoreError Db :=
  let claimed := claimed_ids d organization_id ids in
  if size claimed =? length ids then
    Ok (set_artifacts d (map_imap (λ k a,
      Some (if bool_decide (k.1 = organization_id ∧ k.2 ∈ claimed)
            then claim_artifact job_id now a else a)) (db_artifacts d)))
  else
    match List.find (λ id, negb (bool_decide (id ∈ claimed))) ids with
    | None => Err (StConflict "input artifact ids must be unique")
    | Some unclaimed =>
        Err (StConflict ("input artifact " +:+ unclaimed
                         +:+ " is not ready or was claimed concurrently"))
    end.

(** The look-up of an idempotent retry. *)
Definition existing_submission (d : Db) (i : option IdempotencyInsert)
    : Res StoreError (option string) :=
  match i with
  | None => Ok None
  | Some i =>
      match db_idempotency d !! idempotency_key i with
      | None => Ok None
      | Some (request_hash, job_id) =>
          if String.eqb request_hash (ii_request_hash i) then Ok (Some job_id)
          else Err (StConflict "idempotency key was used for a different request")
      end
  end.

(** [commit_new_job]; [row] is the job to insert, with [created_at] and
    [updated_at] its [now].  The second look-up sees what the first saw, since
    the transaction runs alone. *)
Definition commit_new_job (d : Db) (row : StoredJob) (input_artifact_ids : list string)
    (idempotency : option IdempotencyInsert) (device_admission : option DeviceUseAdmission)
    : Res StoreError (CommitJobResult * Db) :=
  let o := sj_organization_id row in
  let now := sj_created_at row in
  existing ← existing_submission d idempotency;
  match existing with
  | Some job_id => Ok (Existing job_id, d)
  | None =>
      quota ← ok_or (StNotFound "quota policy") (db_policies d !! o);
      usage ← ok_or (Database "no rows returned by a query that expected to return at least one row")
                (db_usage d !! o);
      match device_admission with
      | Some a => enforce_device_use_policy_tx d a
      | None => Ok tt
      end ;;
      let period_jobs := period_jobs_at quota usage now in
      reject_if ((qp_max_concurrent_jobs quota <=? qu_active_jobs usage)
                 || (qp_max_jobs_per_period quota <=? period_jobs))%Z (StQuotaExceeded "jobs") ;;
      d1 ← (if bool_decide (input_artifact_ids = []) then Ok d
            else claim_artifacts d o (sj_id row) now input_artifact_ids);
      reject_if (bool_decide (is_Some (db_jobs d !! (o, sj_id row))))
        (Database "duplicate key value violates unique constraint") ;;
      let d2 := set_jobs d1 (<[(o, sj_id row) := mkJobTableRow row None None None]> (db_jobs d1)) in
      let d3 := set_usage d2 (<[o := charge_job usage period_jobs now]> (db_usage d2)) in
      reject_if (bool_decide (is_Some (db_outbox d !! (o, sj_id row, sj_attempt row))))
        (Database "duplicate key value violates unique constraint") ;;
      let d4 := set_outbox d3 (<[(o, sj_id row, sj_attempt row) :=
          mkOutboxRow "pending" 0 (i64_saturating_add now INITIAL_DISPATCH_DELAY_MS) None None]>
          (db_outbox d3)) in
      let d5 := match idempotency with
                | Some i => set_idempotency d4
                    (<[idempotency_key i := (ii_request_hash i, sj_id row)]> (db_idempotency d4))
                | None => d4
                end in
      Ok (Created, d5)
  end.
End admission.

Definition job (d : Db) (organization_id id : string) : option StoredJob :=
  jt_job <$> db_jobs d !! (organization_id, id).

Definition rebind_job_session (d : Db) (organization_id job_id : string) (attempt : Z)
    (expected_session_id new_session_id : string) (now : Z) : bool * Db :=
  match db_jobs d !! (organization_id, job_id) with
  | None => (false, d)
  | Some r =>
      let j := jt_job r in
      if (sj_attempt j =? attempt)%Z && unfinished r
         && (sql_eq (sj_session_id j) expected_session_id || sql_eq (sj_session_id j) new_session_id)
      then (true, set_jobs d (<[(organization_id, job_id) :=
              with_job r (set_session j new_session_id (Z.max (sj_updated_at j) now))]> (db_jobs d)))
      else (false, d)
  end.

Record ConditionalJobUpdate := mkConditionalJobUpdate {
  cu_organization_id : string;
  cu_id : string;
  cu_attempt : Z;
  cu_expected_state : string;
  cu_expected_last_event : Z;
  cu_state : option string;
  cu_error : option string;
  cu_now : Z;
}.

Definition update_job_if_current (d : Db) (input : ConditionalJobUpdate) : bool * Db :=
  let key := (cu_organization_id input, cu_id input) in
  match db_jobs d !! key with
  | None => (false, d)
  | Some r =>
      let j := jt_job r in
      if (sj_attempt j =? cu_attempt input)%Z && String.eqb (sj_state j) (cu_expected_state input)
         && (sj_last_event j =? cu_expected_last_event input)%Z
      then
        let d := set_jobs d (<[key := with_job r
          (set_state j (default (sj_state j) (cu_state input)) (cu_error input)
             (Z.max (sj_updated_at j) (cu_now input)))]> (db_jobs d)) in
        (true, if is_some_and terminal_name (cu_state input)
               then release_job_for_terminal_tx d (cu_organization_id input) (cu_id input) (cu_now input)
               else d)
      else (false, d)
  end.

Record EventInsert := mkEventInsert {
  ei_organization_id : string;
  ei_job_id : string;
  ei_attempt : Z;
  ei_sequence : Z;
  ei_kind : string;
  ei_progress : option spec_float;
  ei_prompt_id : option string;
  ei_message : string;
  ei_unix_ms : Z;
  ei_now : Z;
}.

Record JobEventUpdate := mkJobEventUpdate {
  eu_session_id : string;
  eu_expected_session_id : string;
  eu_expected_state : string;
  eu_expected_last_event : Z;
  eu_state : string;
  eu_error : option string;
}.

Definition event_row (e : EventInsert) : StoredJobEvent :=
  mkStoredJobEvent (ei_organization_id e) (ei_job_id e) (ei_attempt e) (ei_sequence e) (ei_kind e)
    (ei_progress e) (ei_prompt_id e) (ei_message e) (ei_unix_ms e).

(** The WHERE of ON CONFLICT .. DO UPDATE: the stored event has the same
    payload. *)
Definition same_payload (stored : StoredJobEvent) (e : EventInsert) : bool :=
  String.eqb (se_kind stored) (ei_kind e)
  && not_distinct_real (se_progress stored) (ei_progress e)
  && bool_decide (se_prompt_id stored = ei_prompt_id e)
  && String.eqb (se_message stored) (ei_message e)
  && (se_unix_ms stored =? ei_unix_ms e)%Z.

Definition event_key (e : EventInsert) : EventKey :=
  (ei_organization_id e, ei_job_id e, ei_attempt e, ei_sequence e).

(** The job row after the event. *)
Definition set_event (j : StoredJob) (e : EventInsert) (u : JobEventUpdate) : StoredJob := {|
  sj_organization_id := sj_organization_id j; sj_id := sj_id j; sj_actor_id := sj_actor_id j;
  sj_actor_kind := sj_actor_kind j; sj_actor_user_id := sj_actor_user_id j;
  sj_workflow_id := sj_workflow_id j; sj_workflow_version := sj_workflow_version j;
  sj_parameters_json := sj_parameters_json j;
  sj_input_artifact_ids_json := sj_input_artifact_ids_json j;
  sj_output_artifact_ids_json := sj_output_artifact_ids_json j; sj_worker_id := sj_worker_id j;
  sj_worker_organization_id := sj_worker_organization_id j; sj_session_id := Some (eu_session_id u);
  sj_attempt := sj_attempt j; sj_state := eu_state u;
  sj_progress := option_or (ei_progress e) (sj_progress j);
  sj_prompt_id := option_or (ei_prompt_id e) (sj_prompt_id j); sj_error := eu_error u;
  sj_last_event := Z.max (sj_last_event j) (ei_sequence e);
  sj_created_at := sj_created_at j; sj_updated_at := Z.max (sj_updated_at j) (ei_now e) |}.

Definition event_applies (j : StoredJob) (e : EventInsert) (u : JobEventUpdate) : bool :=
  (sj_attempt j =? ei_attempt e)%Z && String.eqb (sj_state j) (eu_expected_state u)
  && (sj_last_event j =? eu_expected_last_event u)%Z
  && (sql_eq (sj_session_id j) (eu_expected_session_id u) || sql_eq (sj_session_id j) (eu_session_id u)).

(** [apply_job_event] of the store.  The foreign key of [job_events] makes an
    event of an unknown job a database error. *)
Definition apply_job_event (d : Db) (e : EventInsert) (u : JobEventUpdate) : Res StoreError (bool * Db) :=
  let key := (ei_organization_id e, ei_job_id e) in
  events ← match db_events d !! event_key e with
           | Some stored =>
               if same_payload stored e then Ok (db_events d)
               else Err (StConflict "job event sequence was reused with a different payload")
           | None =>
               if bool_decide (is_Some (db_jobs d !! key))
               then Ok (<[event_key e := event_row e]> (db_events d))
               else Err (Database "insert violates foreign key constraint")
           end;
  match db_jobs d !! key with
  | Some r =>
      if event_applies (jt_job r) e u then
        let d := set_jobs (set_events d events)
                   (<[key := with_job r (set_event (jt_job r) e u)]> (db_jobs d)) in
        Ok (true, if terminal_name (eu_state u)
                  then release_job_for_terminal_tx d (ei_organization_id e) (ei_job_id e) (ei_now e)
                  else d)
      else Ok (false, d)
  | None => Ok (false, d)
  end.

(** ** The dispatch outbox *)
Section outbox.
(** The order in which a statement without a total ORDER BY visits its rows. *)
Context (scan : gmap (string * string * Z) OutboxRow → list ((string * string * Z) * OutboxRow)).

Definition DISPATCH_LEASE_MS : Z := 30000.

Definition dispatch_due (now : Z) (r : OutboxRow) : bool :=
  (String.eqb (ob_status r) "pending" && (ob_available_at r <=? now)%Z)
  || (String.eqb (ob_status r) "claimed"
      && is_some_and (λ c, (c <=? now - DISPATCH_LEASE_MS)%Z) (ob_claimed_at r)).

Definition available_le (p q : (string * string * Z) * OutboxRow) : Prop :=
  (ob_available_at p.2 ≤ ob_available_at q.2)%Z.

#[export] Instance available_le_dec p q : Decision (available_le p q).
Proof. unfold available_le. apply _. Defined.

Definition claim_row (now : Z) (r : OutboxRow) : OutboxRow :=
  mkOutboxRow "claimed" (ob_attempts r) (ob_available_at r) (Some now) (ob_last_error r).

Definition claim_dispatches (d : Db) (now limit : Z) : list (string * string * Z) * Db :=
  let n := Z.to_nat (Z.max 1 (Z.min 100 limit)) in
  let candidates :=
    (take n (merge_sort available_le (List.filter (λ kv, dispatch_due now kv.2)
               (scan (db_outbox d))))).*1 in
  (candidates, set_outbox d (map_imap (λ k r,
     Some (if bool_decide (k ∈ candidates) then claim_row now r else r)) (db_outbox d))).
End outbox.

Definition mark_dispatch_delivered (d : Db) (now : Z) (organization_id job_id : string) (attempt : Z)
    : Db :=
  set_outbox d (alter (λ r, mkOutboxRow "delivered" (ob_attempts r) (ob_available_at r) (Some now) None)
                  (organization_id, job_id, attempt) (db_outbox d)).

Definition record_dispatch_error (d : Db) (now : Z) (organization_id job_id : string) (attempt : Z)
    (error : string) : Db :=
  set_outbox d (alter (λ r, mkOutboxRow "pending" (ob_attempts r + 1) (i64_saturating_add now 5000)
                              (ob_claimed_at r) (Some error))
                  (organization_id, job_id, attempt) (db_outbox d)).

(** [events_for_job]: ORDER BY sequence. *)
Definition sequence_le (a b : StoredJobEvent) : Prop := (se_sequence a ≤ se_sequence b)%Z.
#[export] Instance sequence_le_dec a b : Decision (sequence_le a b).
Proof. unfold sequence_le. apply _. Defined.

Definition events_for_job (scan : gmap (string * string * Z * Z) StoredJobEvent → list StoredJobEvent)
    (d : Db) (organization_id job_id : string) : list StoredJobEvent :=
  merge_sort sequence_le
    (List.filter (λ e, String.eqb (se_organization_id e) organization_id
                       && String.eqb (se_job_id e) job_id) (scan (db_events d))).

(** ** Counting unfinished jobs *)

Lemma unfinished_of_lookup jobs o k r :
  unfinished_of jobs o !! k = Some r ↔ jobs !! k = Some r ∧ k.1 = o ∧ unfinished r = true.
Proof. unfold unfinished_of. by rewrite map_lookup_filter_Some. Qed.

(** How one row contributes to an organization's count. *)
Definition counts_for (o : string) (k : string * string) (r : option JobTableRow) : Z :=
  if bool_decide (k.1 = o) && is_some_and unfinished r then 1 else 0.

Lemma unfinished_count_insert jobs o k r :
  unfinished_count (<[k := r]> jobs) o
  = (unfinished_count jobs o - counts_for o k (jobs !! k) + counts_for o k (Some r))%Z.
Proof.
  unfold unfinished_count, counts_for.
  assert (Hdel : unfinished_of jobs o = (if bool_decide (k.1 = o) && is_some_and unfinished (jobs !! k)
     then unfinished_of jobs o else delete k (unfinished_of jobs o))).
  { destruct (_ && _) eqn:Hc; [done|]. symmetry. apply delete_id.
    destruct (unfinished_of jobs o !! k) as [r'|] eqn:Hk; [|done].
    apply unfinished_of_lookup in Hk as (Hk & Ho & Hu). rewrite Hk in Hc. simpl in Hc.
    by rewrite Hu, bool_decide_eq_true_2 in Hc. }
  assert (Hsize : Z.of_nat (size (delete k (unfinished_of jobs o)))
     = (Z.of_nat (size (unfinished_of jobs o))
        - (if bool_decide (k.1 = o) && is_some_and unfinished (jobs !! k) then 1 else 0))%Z).
  { rewrite map_size_delete. destruct (_ && _) eqn:Hc.
    - apply andb_true_iff in Hc as [Ho Hu]. bool_cases. apply is_some_and_true in Hu as (r' & Hr & Hu).
      assert (unfinished_of jobs o !! k = Some r') as Hk by by apply unfinished_of_lookup.
      rewrite Hk. assert (size (unfinished_of jobs o) ≠ 0); [|simpl; lia].
      apply map_size_non_empty_iff. intros Heq. by rewrite Heq in Hk.
    - assert (unfinished_of jobs o !! k = None) as ->; [|simpl; lia].
      rewrite Hdel. apply lookup_delete_eq. }
  assert (Hins : unfinished_of (<[k := r]> jobs) o
     = if bool_decide (k.1 = o) && unfinished r then <[k := r]> (delete k (unfinished_of jobs o))
       else delete k (unfinished_of jobs o)).
  { unfold unfinished_of. rewrite map_filter_insert, map_filter_delete, insert_delete_eq. simpl.
    case_bool_decide; destruct (unfinished r); simpl; case_decide; naive_solver. }
  rewrite Hins. simpl. destruct (bool_decide (k.1 = o) && unfinished r).
  - rewrite map_size_insert_None by apply lookup_delete_eq. lia.
  - lia.
Qed.

(** ** The quota invariant *)

Record quota_ok (d : Db) : Prop := {
  qk_active : ∀ o u, db_usage d !! o = Some u → qu_active_jobs u = unfinished_count (db_jobs d) o;
  qk_released : ∀ k, k ∈ db_releases d → ∃ r, db_jobs d !! k = Some r ∧ unfinished r = false;
  qk_terminal : ∀ k r, db_jobs d !! k = Some r → unfinished r = false → k ∈ db_releases d;
}.

(** Between the update that ends a job and its release in the same
    transaction, the one job [k] may be terminal and unreleased. *)
Record quota_pending (k : string * string) (d : Db) : Prop := {
  qd_active : ∀ o u, db_usage d !! o = Some u →
    qu_active_jobs u = (unfinished_count (db_jobs d) o
      + if bool_decide (k.1 = o) && bool_decide (k ∉ db_releases d)
           && is_some_and (λ r, negb (unfinished r)) (db_jobs d !! k) then 1 else 0)%Z;
  qd_released : ∀ k', k' ∈ db_releases d → ∃ r, db_jobs d !! k' = Some r ∧ unfinished r = false;
  qd_terminal : ∀ k' r, k' ≠ k → db_jobs d !! k' = Some r → unfinished r = false →
    k' ∈ db_releases d;
}.

Lemma quota_pending_release d o j now :
  quota_pending (o, j) d → quota_ok (release_job_for_terminal_tx d o j now).
Proof.
  intros [Ha Hr Ht]. unfold release_job_for_terminal_tx.
  destruct (db_jobs d !! (o, j)) as [r|] eqn:Hj.
  2: { split; [|done|].
       - intros o' u Hu. rewrite (Ha _ _ Hu). simpl. rewrite andb_false_r. lia.
       - intros k r' Hk. apply Ht; [|done]. intros ->. congruence. }
  assert (Hterm : terminal_name (row_state r) = negb (unfinished r))
    by (unfold unfinished; by rewrite negb_involutive).
  rewrite Hterm. destruct (unfinished r) eqn:Hun; simpl.
  - split; [|done|].
    + intros o' u Hu. rewrite (Ha _ _ Hu). simpl. rewrite Hun, andb_false_r. lia.
    + intros k r' Hk Hu'. apply (Ht k r'); [|done..]. intros ->. congruence.
  - case_bool_decide as Hin; simpl.
    + split; simpl.
      * intros o' u Hu. apply lookup_alter_Some in Hu as [(<- & u0 & Hu0 & ->)|[Hne Hu]]; simpl.
        -- rewrite (Ha _ _ Hu0). simpl. rewrite !bool_decide_eq_true_2, Hun by done. simpl.
           unfold unfinished_count. lia.
        -- rewrite (Ha _ _ Hu). simpl. rewrite bool_decide_eq_false_2 by congruence. simpl. lia.
      * intros k [->%elem_of_singleton|Hk]%elem_of_union; eauto.
      * intros k r' Hk Hu'. destruct (decide (k = (o, j))) as [->|Hne]; [set_solver|].
        apply elem_of_union_r. eauto.
    + split; [|done|].
      * intros o' u Hu. rewrite (Ha _ _ Hu). simpl.
        rewrite andb_false_r. simpl. lia.
      * intros k r' Hk Hu'. destruct (decide (k = (o, j))) as [->|Hne]; eauto.
Qed.

(** Rewriting one row without ending or reviving its job. *)
Lemma quota_ok_same_state d k r r' :
  quota_ok d → db_jobs d !! k = Some r → unfinished r' = unfinished r →
  quota_ok (set_jobs d (<[k := r']> (db_jobs d))).
Proof.
  intros [Ha Hr Ht] Hk Hu. split; simpl.
  - intros o u Hou. rewrite (Ha _ _ Hou), unfinished_count_insert, Hk.
    unfold counts_for. simpl. rewrite Hu. lia.
  - intros k' Hk'. destruct (Hr _ Hk') as (r0 & Hr0 & Hu0). destruct (decide (k' = k)) as [->|Hne].
    + exists r'. rewrite lookup_insert_eq. split; [done|]. congruence.
    + exists r0. by rewrite lookup_insert_ne.
  - intros k' r0 [[<- <-]|[_ Hk']]%lookup_insert_Some Hun; eauto.
Qed.

(** Rewriting one row that was unfinished, or stays terminal. *)
Lemma quota_pending_update d k r r' :
  quota_ok d → db_jobs d !! k = Some r → (unfinished r = false → unfinished r' = false) →
  quota_pending k (set_jobs d (<[k := r']> (db_jobs d))).
Proof.
  intros [Ha Hr Ht] Hk Hu. split; simpl.
  - intros o u Hou. rewrite (Ha _ _ Hou), unfinished_count_insert, Hk, lookup_insert_eq.
    unfold counts_for. simpl. case_bool_decide as Ho; simpl; [|lia].
    destruct (unfinished r) eqn:Hur.
    + assert (k ∉ db_releases d) as Hnr
        by (intros (r0 & Hr0 & Hu0)%Hr; congruence).
      rewrite bool_decide_eq_true_2 by done. simpl. destruct (unfinished r'); simpl; lia.
    + rewrite (Hu eq_refl), (bool_decide_eq_false_2 (k ∉ db_releases d)) by (intros Hn; by apply Hn, (Ht k r)).
      simpl. lia.
  - intros k' Hk'. destruct (Hr _ Hk') as (r0 & Hr0 & Hu0). destruct (decide (k' = k)) as [->|Hne].
    + exists r'. rewrite lookup_insert_eq. split; [done|]. apply Hu. congruence.
    + exists r0. by rewrite lookup_insert_ne.
  - intros k' r0 Hne [[<- _]|[_ Hk']]%lookup_insert_Some; [done|eauto].
Qed.

(** Without a release, the row must not have ended. *)
Lemma quota_pending_ok d k r :
  quota_pending k d → db_jobs d !! k = Some r → unfinished r = true → quota_ok d.
Proof.
  intros [Ha Hr Ht] Hk Hu. split; [|done|].
  - intros o u Hou. rewrite (Ha _ _ Hou), Hk. simpl. rewrite Hu, andb_false_r. lia.
  - intros k' r' Hk' Hu'. apply (Ht k' r'); [|done..]. intros ->. congruence.
Qed.

(** The invariant reads three tables only. *)
Lemma quota_ok_ext d d' :
  db_jobs d' = db_jobs d → db_releases d' = db_releases d →
  (∀ o u, db_usage d' !! o = Some u →
     ∃ u0, db_usage d !! o = Some u0 ∧ qu_active_jobs u = qu_active_jobs u0) →
  quota_ok d → quota_ok d'.
Proof.
  intros Hj Hr Hu [H1 H2 H3]. split; rewrite ?Hj, ?Hr; try done.
  intros o u Hou. destruct (Hu _ _ Hou) as (u0 & Hu0 & ->). eauto.
Qed.

Lemma quota_ok_new_job d d' o j row u u' :
  quota_ok d → db_jobs d !! (o, j) = None → unfinished row = true → db_usage d !! o = Some u →
  qu_active_jobs u' = (qu_active_jobs u + 1)%Z →
  db_jobs d' = <[(o, j) := row]> (db_jobs d) → db_usage d' = <[o := u']> (db_usage d) →
  db_releases d' = db_releases d → quota_ok d'.
Proof.
  intros [Ha Hr Ht] Hnew Hun Hu Hu' Hjobs Husage Hrel. split; rewrite ?Hjobs, ?Husage, ?Hrel.
  - intros o' v Hv. rewrite unfinished_count_insert, Hnew. unfold counts_for. simpl.
    rewrite andb_false_r, Hun, andb_true_r.
    apply lookup_insert_Some in Hv as [[<- <-]|[Hne Hv]].
    + rewrite Hu', (Ha _ _ Hu), bool_decide_eq_true_2 by done. lia.
    + rewrite (Ha _ _ Hv), bool_decide_eq_false_2 by done. lia.
  - intros k Hk. destruct (Hr k Hk) as (r & Hr' & Hur). exists r.
    rewrite lookup_insert_ne; [done|]. intros <-. congruence.
  - intros k r [[<- <-]|[_ Hk]]%lookup_insert_Some Hur; [congruence|eauto].
Qed.

Lemma claim_artifacts_frame d o j now ids d1 :
  claim_artifacts d o j now ids = Ok d1 →
  db_jobs d1 = db_jobs d ∧ db_usage d1 = db_usage d ∧ db_releases d1 = db_releases d
  ∧ db_outbox d1 = db_outbox d ∧ db_idempotency d1 = db_idempotency d
  ∧ db_policies d1 = db_policies d.
Proof. unfold claim_artifacts. repeat case_match; [by intros [= <-]|done|done]. Qed.

Section commit.
Context (parse_rules : string → Res string (list DeviceWorkflowRule)).

(** What a submission that creates a job found and did. *)
Lemma commit_created d row ids idem adm d' :
  commit_new_job parse_rules d row ids idem adm = Ok (Created, d') →
  ∃ quota usage,
    existing_submission d idem = Ok None
    ∧ db_policies d !! sj_organization_id row = Some quota
    ∧ db_usage d !! sj_organization_id row = Some usage
    ∧ (qu_active_jobs usage < qp_max_concurrent_jobs quota)%Z
    ∧ db_jobs d !! (sj_organization_id row, sj_id row) = None
    ∧ db_jobs d' = <[(sj_organization_id row, sj_id row) := mkJobTableRow row None None None]> (db_jobs d)
    ∧ db_usage d' = <[sj_organization_id row :=
          charge_job usage (period_jobs_at quota usage (sj_created_at row)) (sj_created_at row)]>
        (db_usage d)
    ∧ db_releases d' = db_releases d ∧ db_policies d' = db_policies d
    ∧ (∀ i, idem = Some i →
         db_idempotency d' !! idempotency_key i = Some (ii_request_hash i, sj_id row)).
Proof.
  unfold commit_new_job. intros Hc. apply bind_Ok in Hc as (ex & Hex & Hc).
  destruct ex as [j|]; [done|].
  apply bind_Ok in Hc as (quota & Hq%ok_or_Ok & Hc). apply bind_Ok in Hc as (usage & Hu%ok_or_Ok & Hc).
  apply bind_Ok_tt in Hc as [_ Hc]. apply bind_Ok_tt in Hc as [Hlim Hc].
  apply bind_Ok in Hc as (d1 & Hd1 & Hc). apply bind_Ok_tt in Hc as [Hfresh Hc].
  apply bind_Ok_tt in Hc as [_ Hc]. injection Hc as Hd'.
  apply reject_if_Ok in Hlim, Hfresh. apply orb_false_iff in Hlim as [Hlim _].
  apply Z.leb_gt in Hlim. bool_cases.
  assert (Hfr : db_jobs d1 = db_jobs d ∧ db_usage d1 = db_usage d ∧ db_releases d1 = db_releases d
     ∧ db_policies d1 = db_policies d).
  { case_bool_decide; [by injection Hd1 as ->|]. apply claim_artifacts_frame in Hd1. tauto. }
  destruct Hfr as (F1 & F2 & F3 & F4). exists quota, usage.
  split_and!; try done; [by apply eq_None_not_Some|..]; subst d'; destruct idem as [i|]; simpl;
    rewrite ?F1, ?F2, ?F3, ?F4; try done.
  intros i' [= <-]. by rewrite lookup_insert_eq.
Qed.

(** One transaction of the Hub on the store.  A job is created unfinished, and
    an update names a state that a terminal job already has. *)
Definition keeps_terminal (from to : string) : Prop := terminal_name from = true → to = from.

Inductive store_step (d : Db) : Db → Prop :=
| st_commit row ids idem adm res d' :
    terminal_name (sj_state row) = false →
    commit_new_job parse_rules d row ids idem adm = Ok (res, d') → store_step d d'
| st_rebind o j attempt old new now : store_step d (rebind_job_session d o j attempt old new now).2
| st_update input :
    (∀ s, cu_state input = Some s → keeps_terminal (cu_expected_state input) s) →
    store_step d (update_job_if_current d input).2
| st_event e u applied d' :
    keeps_terminal (eu_expected_state u) (eu_state u) →
    apply_job_event d e u = Ok (applied, d') → store_step d d'
| st_release o j now : store_step d (release_job_for_terminal d now o j)
| st_reserve_storage now o bytes d' : reserve_storage d now o bytes = Ok d' → store_step d d'
| st_release_storage now o bytes : store_step d (release_storage d now o bytes)
| st_policy now o a b c e d' : update_quota_policy d now o a b c e = Ok d' → store_step d d'
| st_claim scan now limit : store_step d (claim_dispatches scan d now limit).2
| st_delivered now o j attempt : store_step d (mark_dispatch_delivered d now o j attempt)
| st_error now o j attempt error : store_step d (record_dispatch_error d now o j attempt error)
| st_reconcile now stale : store_step d (reconcile_active_job_quota d now stale).

Lemma quota_ok_pending k d : quota_ok d → quota_pending k d.
Proof.
  intros [Ha Hr Ht]. split; [|done|eauto].
  intros o u Hou. rewrite (Ha _ _ Hou). case_bool_decide as Ho; simpl; [|lia].
  destruct (db_jobs d !! k) as [r|] eqn:Hk; simpl; [|rewrite andb_false_r; lia].
  destruct (unfinished r) eqn:Hu; simpl; [rewrite andb_false_r; lia|].
  rewrite bool_decide_eq_false_2 by (intros Hn; by apply Hn, (Ht k r)). simpl. lia.
Qed.

Lemma quota_ok_rebind d o j attempt old new now :
  quota_ok d → quota_ok (rebind_job_session d o j attempt old new now).2.
Proof.
  intros Hok. unfold rebind_job_session. destruct (db_jobs d !! (o, j)) as [r|] eqn:Hk; [|done].
  destruct (_ && _); [|done]. by eapply quota_ok_same_state.
Qed.

Lemma quota_ok_update d input :
  (∀ s, cu_state input = Some s → keeps_terminal (cu_expected_state input) s) →
  quota_ok d → quota_ok (update_job_if_current d input).2.
Proof.
  intros Hkeep Hok. unfold update_job_if_current.
  destruct (db_jobs d !! _) as [r|] eqn:Hk; [|done].
  destruct (_ && _) eqn:Hcond; [|done]. simpl. bool_cases.
  match goal with H : String.eqb _ _ = true |- _ => apply String.eqb_eq in H as Hst end.
  assert (Hun : unfinished r = false → terminal_name (default (sj_state (jt_job r)) (cu_state input)) = true).
  { intros Hu. apply negb_false_iff in Hu. unfold row_state in Hu. rewrite Hst in Hu.
    destruct (cu_state input) as [s|] eqn:Hs; simpl; [|congruence].
    by rewrite (Hkeep s eq_refl Hu). }
  destruct (is_some_and terminal_name (cu_state input)) eqn:Hterm.
  - apply quota_pending_release. eapply quota_pending_update; [done..|].
    intros Hu. apply negb_false_iff. by apply Hun.
  - destruct (cu_state input) as [s|] eqn:Hs; simpl in *.
    + eapply quota_pending_ok; [eapply quota_pending_update; [done..|]|by simpl; rewrite lookup_insert_eq|].
      * intros Hu. apply Hun in Hu. congruence.
      * unfold unfinished, row_state. simpl. by rewrite Hterm.
    + by eapply quota_ok_same_state.
Qed.

Lemma quota_ok_event d e u applied d' :
  keeps_terminal (eu_expected_state u) (eu_state u) → quota_ok d →
  apply_job_event d e u = Ok (applied, d') → quota_ok d'.
Proof.
  intros Hkeep Hok. unfold apply_job_event. intros (events & _ & Hc)%bind_Ok.
  destruct (db_jobs d !! _) as [r|] eqn:Hk; [|by injection Hc as _ <-].
  destruct (event_applies (jt_job r) e u) eqn:Happ; [|by injection Hc as _ <-].
  injection Hc as _ <-. unfold event_applies in Happ. bool_cases.
  match goal with H : String.eqb _ _ = true |- _ => apply String.eqb_eq in H as Hst end.
  assert (Hun : unfinished r = false → terminal_name (eu_state u) = true).
  { intros Hu. apply negb_false_iff in Hu. unfold row_state in Hu. rewrite Hst in Hu.
    by rewrite (Hkeep Hu). }
  assert (Hok' : quota_ok (set_events d events)) by (by eapply quota_ok_ext; [..|exact Hok]; eauto).
  assert (Hpend : quota_pending (ei_organization_id e, ei_job_id e)
    (set_jobs (set_events d events)
       (<[(ei_organization_id e, ei_job_id e) := with_job r (set_event (jt_job r) e u)]> (db_jobs d)))).
  { apply (quota_pending_update (set_events d events) _ r); [done..|].
    intros Hu. apply negb_false_iff. by apply Hun. }
  destruct (terminal_name (eu_state u)) eqn:Hterm; [by apply quota_pending_release|].
  eapply quota_pending_ok; [done|by simpl; rewrite lookup_insert_eq|].
  unfold unfinished, row_state. simpl. by rewrite Hterm.
Qed.

Definition ledger_ok (d : Db) : Prop :=
  ∀ k, k ∈ db_releases d ↔ ∃ r, db_jobs d !! k = Some r ∧ unfinished r = false.

(** Reconciliation restores the counters whatever they were. *)
Lemma reconcile_quota_ok d now stale :
  ledger_ok d → quota_ok (reconcile_active_job_quota d now stale).
Proof.
  intros Hl. unfold reconcile_active_job_quota.
  set (cutoff := i64_saturating_sub now (Z.max stale 1000)).
  split; simpl.
  - intros o u Hu. rewrite map_lookup_imap in Hu.
    destruct (db_usage d !! o) as [u0|]; simpl in Hu; [|done]. injection Hu as <-.
    match goal with |- context [(?a =? ?b)%Z] => destruct (Z.eqb_spec a b) as [Heq|Hne] end; done.
  - intros k [Hk|Hk]%elem_of_union; setoid_rewrite lookup_fmap.
    + apply elem_of_dom in Hk as [r Hr]. apply map_lookup_filter_Some in Hr as [Hr Hst].
      simpl in Hst. rewrite Hr. simpl. rewrite Hst. eexists. by split.
    + apply Hl in Hk as (r & Hr & Hu). rewrite Hr. simpl.
      destruct (is_stale_job d cutoff r) eqn:Hst; eexists; by split.
  - intros k r Hk Hu. rewrite lookup_fmap in Hk.
    destruct (db_jobs d !! k) as [r0|] eqn:Hr0; simpl in Hk; [|done].
    destruct (is_stale_job d cutoff r0) eqn:Hst; apply elem_of_union.
    + left. apply elem_of_dom. exists r0. by apply map_lookup_filter_Some.
    + right. injection Hk as ->. apply Hl. eauto.
Qed.

Lemma quota_ok_ledger d : quota_ok d → ledger_ok d.
Proof. intros [_ Hr Ht] k. split; [apply Hr|]. intros (r & Hk & Hu). eauto. Qed.

Lemma store_step_quota_ok d d' : store_step d d' → quota_ok d → quota_ok d'.
Proof.
  intros Hs Hok. destruct Hs as [row ids idem adm res d' Hst Hc|o j a old new now|input Hk
    |e u ap d' Hk He|o j now|now o b d' Hr|now o b|now o a b c e d' Hp|scan now l|now o j a
    |now o j a er|now st].
  - destruct res as [|j].
    + apply commit_created in Hc as (q & u & _ & _ & Hu & _ & Hnew & Hj & Hus & Hrel & _).
      eapply quota_ok_new_job; [done|exact Hnew| |exact Hu| |exact Hj|exact Hus|done]; [|done].
      unfold unfinished, row_state. simpl. by rewrite Hst.
    + unfold commit_new_job in Hc. apply bind_Ok in Hc as (ex & _ & Hc).
      destruct ex as [j'|]; [by injection Hc as _ <-|]. by inv_ok.
  - by apply quota_ok_rebind.
  - by apply quota_ok_update.
  - by eapply quota_ok_event.
  - apply quota_pending_release. by apply quota_ok_pending.
  - unfold reserve_storage in Hr. inv_ok. apply (quota_ok_ext d _); [done..| |exact Hok]. simpl.
    intros o' u [[<- <-]|[_ Hu]]%lookup_insert_Some; eauto.
  - apply (quota_ok_ext d _); [done..| |exact Hok]. simpl.
    intros o' u [(<- & u0 & Hu0 & ->)|[_ Hu]]%lookup_alter_Some; eauto.
  - unfold update_quota_policy in Hp. inv_ok. apply (quota_ok_ext d _); [done..| |exact Hok]. eauto.
  - apply (quota_ok_ext d _); [done..| |exact Hok]. eauto.
  - apply (quota_ok_ext d _); [done..| |exact Hok]. eauto.
  - apply (quota_ok_ext d _); [done..| |exact Hok]. eauto.
  - by apply reconcile_quota_ok, quota_ok_ledger.
Qed.

(** The active-job counter is exact: over any sequence of submissions,
    rebindings, job events, cancellations, repeated releases and
    reconciliations, every organization's counter is the number of its
    unfinished jobs, each terminal job having given its slot back once. *)
Theorem quota_counts_unfinished_jobs d d' o u :
  quota_ok d → rtc store_step d d' → db_usage d' !! o = Some u →
  qu_active_jobs u = unfinished_count (db_jobs d') o.
Proof.
  intros Hok Hr. cut (quota_ok d'); [intros [Ha _ _]; apply Ha|].
  refine (rtc_ind_r quota_ok _ _ _ _ Hr); [done|]. intros y z _ Hyz. by apply store_step_quota_ok.
Qed.

(** Admission respects the concurrency quota: a submission that creates a
    job leaves the organization with at most [max_concurrent_jobs] unfinished
    jobs. *)
Theorem admission_within_quota d row ids idem adm d' quota :
  quota_ok d → terminal_name (sj_state row) = false →
  db_policies d !! sj_organization_id row = Some quota →
  commit_new_job parse_rules d row ids idem adm = Ok (Created, d') →
  (unfinished_count (db_jobs d') (sj_organization_id row) ≤ qp_max_concurrent_jobs quota)%Z.
Proof.
  intros [Ha _ _] Hst Hq (q & u & _ & Hq' & Hu & Hlim & Hnew & Hj & _)%commit_created.
  rewrite Hj, unfinished_count_insert, Hnew, <- (Ha _ _ Hu). unfold counts_for. simpl.
  rewrite bool_decide_eq_true_2 by done. simpl. unfold unfinished, row_state. simpl. rewrite Hst. simpl.
  simplify_eq. lia.
Qed.

(** A submission is admitted once: after one that created a job under an
    idempotency key, any submission under that key, whatever else it says,
    returns that job and changes nothing if its request hash is the same, and
    is refused if it differs. *)
Theorem idempotent_submission d row ids i adm d' row' ids' i' adm' :
  commit_new_job parse_rules d row ids (Some i) adm = Ok (Created, d') →
  idempotency_key i' = idempotency_key i →
  commit_new_job parse_rules d' row' ids' (Some i') adm'
  = if String.eqb (ii_request_hash i) (ii_request_hash i') then Ok (Existing (sj_id row), d')
    else Err (StConflict "idempotency key was used for a different request").
Proof.
  intros (q & u & _ & _ & _ & _ & _ & _ & _ & _ & _ & Hid)%commit_created Hkey.
  unfold commit_new_job, existing_submission. rewrite Hkey, (Hid i eq_refl).
  by destruct (String.eqb _ _).
Qed.
End commit.

(** Reconciliation repairs: from any counters, provided the release ledger
    matches the terminal jobs, every organization's counter is the number of
    its unfinished jobs afterwards. *)
Theorem reconcile_restores_counters d now stale o u :
  ledger_ok d → db_usage (reconcile_active_job_quota d now stale) !! o = Some u →
  qu_active_jobs u = unfinished_count (db_jobs (reconcile_active_job_quota d now stale)) o.
Proof. intros Hl Hu. by apply (reconcile_quota_ok d now stale Hl). Qed.

Lemma release_frame d o j now :
  db_jobs (release_job_for_terminal_tx d o j now) = db_jobs d
  ∧ db_events (release_job_for_terminal_tx d o j now) = db_events d.
Proof. unfold release_job_for_terminal_tx. by repeat case_match. Qed.

(** What the store holds after an event was applied. *)
Lemma apply_job_event_applied d e u d' :
  apply_job_event d e u = Ok (true, d') →
  ∃ r stored, db_jobs d !! (ei_organization_id e, ei_job_id e) = Some r
    ∧ event_applies (jt_job r) e u = true
    ∧ db_events d' !! event_key e = Some stored
    ∧ (stored = event_row e ∨ same_payload stored e = true)
    ∧ db_jobs d' = <[(ei_organization_id e, ei_job_id e) :=
                       with_job r (set_event (jt_job r) e u)]> (db_jobs d).
Proof.
  unfold apply_job_event. intros (events & Hev & Hc)%bind_Ok.
  destruct (db_jobs d !! _) as [r|] eqn:Hk; [|done].
  destruct (event_applies (jt_job r) e u) eqn:Happ; [|done]. injection Hc as <-.
  assert (∃ stored, events !! event_key e = Some stored
            ∧ (stored = event_row e ∨ same_payload stored e = true)) as (stored & Hs & Hp).
  { destruct (db_events d !! event_key e) as [s0|] eqn:Hs0.
    - destruct (same_payload s0 e) eqn:Hp; [|done]. injection Hev as <-. eauto.
    - rewrite bool_decide_eq_true_2 in Hev by eauto. injection Hev as <-.
      eexists. rewrite lookup_insert_eq. eauto. }
  exists r, stored. split_and!; try done.
  - destruct (terminal_name (eu_state u)); [by rewrite (proj2 (release_frame _ _ _ _))|done].
  - destruct (terminal_name (eu_state u)); [by rewrite (proj1 (release_frame _ _ _ _))|done].
Qed.

(** A job event and its job change together: the transaction either
    records the event (or finds it recorded with the same payload) and moves
    exactly that job's row, whose expected state, sequence and session still
    held, or leaves the database as it was; a sequence reused with another
    payload is refused. *)
Theorem job_event_atomic d e u applied d' :
  apply_job_event d e u = Ok (applied, d') →
  if applied then
    (∃ stored, db_events d' !! event_key e = Some stored
       ∧ (stored = event_row e ∨ same_payload stored e = true))
    ∧ (∃ r, db_jobs d !! (ei_organization_id e, ei_job_id e) = Some r
        ∧ sj_state (jt_job r) = eu_expected_state u ∧ sj_last_event (jt_job r) = eu_expected_last_event u
        ∧ sj_attempt (jt_job r) = ei_attempt e
        ∧ db_jobs d' = <[(ei_organization_id e, ei_job_id e) :=
                           with_job r (set_event (jt_job r) e u)]> (db_jobs d))
  else d' = d.
Proof.
  intros He. destruct applied.
  - apply apply_job_event_applied in He as (r & stored & Hr & Happ & Hs & Hp & Hj).
    unfold event_applies in Happ. bool_cases.
    repeat match goal with
    | H : String.eqb _ _ = true |- _ => apply String.eqb_eq in H
    | H : (_ =? _)%Z = true |- _ => apply Z.eqb_eq in H
    end. split; [eauto|]. exists r. by split_and!.
  - unfold apply_job_event in He. apply bind_Ok in He as (events & _ & Hc).
    destruct (db_jobs d !! _) as [r|]; [|by injection Hc as <-].
    destruct (event_applies _ _ _); [done|by injection Hc as <-].
Qed.

(** A claimed dispatch is leased: whatever order the rows are visited in,
    what one consumer claims is not claimed again before the lease of thirty
    seconds has run out. *)
Theorem dispatch_lease_exclusive scan1 scan2 d now limit now' limit' k :
  (∀ m, scan1 m ≡ₚ map_to_list m) → (∀ m, scan2 m ≡ₚ map_to_list m) →
  (now' < now + DISPATCH_LEASE_MS)%Z →
  k ∈ (claim_dispatches scan1 d now limit).1 →
  k ∉ (claim_dispatches scan2 (claim_dispatches scan1 d now limit).2 now' limit').1.
Proof.
  intros Hscan1 Hscan2 Hlt Hk Hk'.
  assert (Hin : is_Some (db_outbox d !! k)).
  { simpl in Hk. apply list_elem_of_fmap in Hk as ([k0 r] & -> & Hr).
    apply elem_of_take in Hr as (i & Hi & _). apply list_elem_of_lookup_2 in Hi.
    rewrite merge_sort_Permutation in Hi. apply list_elem_of_In, filter_In in Hi as [Hi _].
    apply list_elem_of_In in Hi. rewrite Hscan1, elem_of_map_to_list in Hi. by exists r. }
  destruct Hin as [r Hr]. simpl in Hk'.
  apply list_elem_of_fmap in Hk' as ([k0 r'] & -> & Hr'). simpl in *.
  apply elem_of_take in Hr' as (i & Hi & _). apply list_elem_of_lookup_2 in Hi.
  rewrite merge_sort_Permutation in Hi. apply list_elem_of_In, filter_In in Hi as [Hi Hdue].
  apply list_elem_of_In in Hi. rewrite Hscan2, elem_of_map_to_list, map_lookup_imap, Hr in Hi.
  simpl in Hi. rewrite bool_decide_eq_true_2 in Hi by done. injection Hi as <-.
  unfold dispatch_due in Hdue. simpl in Hdue. apply Z.leb_le in Hdue. lia.
Qed.

(** ** Witnesses *)
Module StoreExample.
Definition row : StoredJob := {|
  sj_organization_id := "acme"; sj_id := "j1"; sj_actor_id := "u"; sj_actor_kind := "user";
  sj_actor_user_id := None; sj_workflow_id := "w"; sj_workflow_version := "1";
  sj_parameters_json := "{}"; sj_input_artifact_ids_json := "[]"; sj_output_artifact_ids_json := "[]";
  sj_worker_id := Some "lab/gpu"; sj_worker_organization_id := Some "acme"; sj_session_id := Some "s1";
  sj_attempt := 1; sj_state := "received"; sj_progress := None; sj_prompt_id := None; sj_error := None;
  sj_last_event := 0; sj_created_at := 1000; sj_updated_at := 1000 |}.

Definition policy : QuotaPolicy := mkQuotaPolicy 1 100 10 60 10 0.
Definition empty : Db :=
  mkDb ∅ ∅ ∅ ∅ {[ "acme" := policy ]} {[ "acme" := mkQuotaUsage 0 0 0 0 0 ]} ∅ ∅ ∅ ∅ ∅ ∅ ∅ ∅.
Definition rules (_ : string) : Res string (list DeviceWorkflowRule) := Ok [].
Definition submission (hash : string) : IdempotencyInsert :=
  mkIdempotencyInsert "acme" "user" "u" "/jobs" "key" hash "j1" 1000.

Definition submitted : Db :=
  match commit_new_job rules empty row [] (Some (submission "h1")) None with
  | Ok (_, d) => d | Err _ => empty end.
Lemma submit_ok :
  commit_new_job rules empty row [] (Some (submission "h1")) None = Ok (Created, submitted).
Proof. vm_compute. reflexivity. Qed.

Lemma empty_ok : quota_ok empty.
Proof.
  split.
  - intros o u. simpl. rewrite lookup_singleton_Some. intros [<- <-]. reflexivity.
  - intros k Hk. simpl in Hk. set_solver.
  - intros k r. simpl. by rewrite lookup_empty.
Qed.

Definition event : EventInsert := mkEventInsert "acme" "j1" 1 1 "failed" None None "gone" 5 2000.
Definition update : JobEventUpdate := mkJobEventUpdate "s1" "s1" "received" 0 "failed" (Some "gone").
Definition ended : Db :=
  match apply_job_event submitted event update with Ok (_, d) => d | Err _ => empty end.
Definition scan := map_to_list (K := string * string * Z) (A := OutboxRow)
                     (M := gmap (string * string * Z) OutboxRow).
End StoreExample.

Lemma quota_counts_unfinished_jobs_witness :
  ∃ u, db_usage StoreExample.ended !! "acme" = Some u
    ∧ qu_active_jobs u = unfinished_count (db_jobs StoreExample.ended) "acme".
Proof.
  eexists. split; [vm_compute; reflexivity|].
  apply (quota_counts_unfinished_jobs StoreExample.rules StoreExample.empty _ _ _ StoreExample.empty_ok);
    [|vm_compute; reflexivity].
  eapply rtc_l; [eapply st_commit; [|exact StoreExample.submit_ok]; reflexivity|].
  apply rtc_once. apply (st_event _ _ StoreExample.event StoreExample.update true).
  - done.
  - vm_compute. reflexivity.
Defined.

Lemma admission_within_quota_witness :
  (unfinished_count (db_jobs StoreExample.submitted) "acme" ≤ 1)%Z.
Proof.
  apply (admission_within_quota StoreExample.rules StoreExample.empty StoreExample.row []
           (Some (StoreExample.submission "h1")) None StoreExample.submitted StoreExample.policy
           StoreExample.empty_ok); [reflexivity|reflexivity|exact StoreExample.submit_ok].
Defined.

Lemma idempotent_submission_witness :
  commit_new_job StoreExample.rules StoreExample.submitted StoreExample.row []
    (Some (StoreExample.submission "h1")) None = Ok (Existing "j1", StoreExample.submitted).
Proof.
  rewrite (idempotent_submission StoreExample.rules StoreExample.empty StoreExample.row []
    (StoreExample.submission "h1") None StoreExample.submitted StoreExample.row []
    (StoreExample.submission "h1") None StoreExample.submit_ok eq_refl). reflexivity.
Defined.

Lemma reconcile_restores_counters_witness :
  ∃ u, db_usage (reconcile_active_job_quota StoreExample.empty 5000 1000) !! "acme" = Some u
    ∧ qu_active_jobs u = 0%Z.
Proof.
  eexists. split; [vm_compute; reflexivity|].
  rewrite (reconcile_restores_counters StoreExample.empty 5000 1000 "acme");
    [reflexivity| |vm_compute; reflexivity].
  apply quota_ok_ledger, StoreExample.empty_ok.
Defined.

Lemma job_event_atomic_witness :
  ∃ stored, db_events StoreExample.ended !! event_key StoreExample.event = Some stored.
Proof.
  destruct (job_event_atomic StoreExample.submitted StoreExample.event StoreExample.update true
    StoreExample.ended) as [(stored & Hs & _) _]; [vm_compute; reflexivity|eauto].
Defined.

Lemma dispatch_lease_exclusive_witness :
  ("acme", "j1", 1%Z) ∉ (claim_dispatches StoreExample.scan
     (claim_dispatches StoreExample.scan StoreExample.submitted 10000 5).2 20000 5).1.
Proof.
  apply (dispatch_lease_exclusive StoreExample.scan StoreExample.scan).
  - done.
  - done.
  - unfold DISPATCH_LEASE_MS. lia.
  - apply (bool_decide_unpack _). vm_compute. exact I.
Defined.
