(* ===== verification/HubJobs.v ===== *)
(** Job events on the Hub ([nagisalake-hub/src/hub/worker.rs], and the stored
    views of [hub/jobs.rs]).

    The Hub holds its scheduling data, the session registry and, when a control
    plane is configured, the store.  [apply_job_event] is the whole handler of
    a worker's job event: it plans the change from a snapshot of the cached job
    ([event_plan]), writes it to the store, and merges it into the cache as it
    is then ([merge_event]); the last two see whatever other tasks did in
    between.

    Main results: an acknowledged new event is durable; events move a job only
    forward along the state machine, never out of a terminal state; events of a
    worker that does not own the job, or of a superseded connection, change
    nothing; the cache keeps at most 256 events of a job, in order; and for a
    job of another organization a replayed terminal event is not recognised. *)

From S2P Require Import Prelude Text Json Messages Core HubTypes Helpers TtlCache HubState Sessions Store.
From Stdlib Require Import ZArith Lia.

(** ** State *)

Record Hub := mkHub {
  hb_data : HubData;
  hb_sessions : SessionRegistry;
  hb_read_cache : ReadCache;
  hb_store : option Db;
}.

Definition with_data (h : Hub) (d : HubData) : Hub :=
  mkHub d (hb_sessions h) (hb_read_cache h) (hb_store h).
Definition with_sessions (h : Hub) (r : SessionRegistry) : Hub :=
  mkHub (hb_data h) r (hb_read_cache h) (hb_store h).
Definition with_read_cache (h : Hub) (c : ReadCache) : Hub :=
  mkHub (hb_data h) (hb_sessions h) c (hb_store h).
Definition with_store (h : Hub) (d : Db) : Hub :=
  mkHub (hb_data h) (hb_sessions h) (hb_read_cache h) (Some d).

Definition set_hub_jobs (d : HubData) jobs : HubData :=
  mkHubData (hd_artifacts d) (hd_pending_uploads d) jobs (hd_idempotency d).

(** Drops a finished job and its artifacts from memory. *)
Definition evict_job (d : HubData) (job_id : string) : HubData :=
  mkHubData (filter (λ kv, av_job_id (at_view kv.2) ≠ Some job_id) (hd_artifacts d))
    (hd_pending_uploads d) (delete job_id (hd_jobs d)) (hd_idempotency d).

Definition with_view (j : JobRecord) (v : JobView) (last_event : Z) : JobRecord :=
  mkJobRecord (hj_organization_id j) (hj_actor_id j) (hj_actor_kind j) (hj_actor_user_id j)
    (hj_worker_organization_id j) v (hj_dispatch j) last_event.

(** The fields of a view that events change. *)
Definition set_view (v : JobView) (session_id : string) (state : JobState)
    (progress : option spec_float) (prompt_id error : option string) (events : list JobEventView)
    (updated_at : Z) : JobView :=
  mkJobView (jv_id v) (jv_workflow_id v) (jv_workflow_version v) (jv_parameters v)
    (jv_input_artifact_ids v) (jv_output_artifact_ids v) (jv_worker_id v) session_id state progress
    prompt_id error events (jv_created_at_unix_ms v) updated_at.

(** ** Transitions *)

Definition event_state (kind : JobEventKind) : JobState :=
  match kind with
  | EvAccepted => Accepted
  | EvRunning | EvProgress => Running
  | EvUploading => Uploading
  | EvCompleted => Completed
  | EvFailed => Failed
  | EvCancelled => Cancelled
  end.

Definition can_recover_forward_transition (current next : JobState) : bool :=
  match current, next with
  | Received, (Running | Uploading | Completed)
  | Accepted, (Uploading | Completed)
  | Running, Completed => true
  | _, _ => false
  end.

Definition may_advance (current next : JobState) : bool :=
  can_transition_to current next || can_recover_forward_transition current next.

Definition MAX_RESIDENT_JOB_EVENTS : nat := 256.

Definition view_of_event (e : JobEvent) : JobEventView :=
  mkJobEventView (je_sequence e) (je_kind e) (je_progress e) (je_message e) (je_unix_ms e).

(** [events.push(..)] and the [drain] of the oldest. *)
Definition push_event (events : list JobEventView) (e : JobEventView) : list JobEventView :=
  keep_last MAX_RESIDENT_JOB_EVENTS (events ++ [e]).

(** ** Planning *)

Inductive EventPlan :=
| NotOwner
| StaleSession
| InvalidTransition (from to : JobState)
| Duplicate
| Advance (append : bool) (updated : JobRecord).

(** The error an event carries. *)
Definition event_error (e : JobEvent) : option string :=
  match je_kind e with
  | EvFailed | EvCancelled => if String.eqb (je_message e) "" then None else Some (je_message e)
  | _ => None
  end.

(** The snapshot after the event, in the session that sent it. *)
Definition updated_record (job : JobRecord) (session_id : string) (e : JobEvent) (append : bool)
    (now : Z) : JobRecord :=
  let v := hj_view job in
  with_view job
    (set_view v session_id (event_state (je_kind e)) (option_or (je_progress e) (jv_progress v))
       (option_or (je_prompt_id e) (jv_prompt_id v)) (event_error e)
       (if append then push_event (jv_events v) (view_of_event e) else jv_events v) now)
    (if append then je_sequence e else hj_last_event job).

Definition event_plan (current_session : option string) (job : JobRecord)
    (organization_id worker_id session_id : string) (e : JobEvent) (now : Z) : EventPlan :=
  let state := jv_state (hj_view job) in
  let next_state := event_state (je_kind e) in
  if negb (String.eqb (hj_worker_organization_id job) organization_id)
     || negb (String.eqb (jv_worker_id (hj_view job)) worker_id)
     || negb (je_attempt e =? dj_attempt (hj_dispatch job))%Z then NotOwner
  else if negb (bool_decide (current_session = Some session_id)) then StaleSession
  else if (je_sequence e <=? hj_last_event job)%Z then
    if negb (bool_decide (state = next_state)) && may_advance state next_state
    then Advance false (updated_record job session_id e false now)
    else Duplicate
  else if negb (may_advance state next_state) then InvalidTransition state next_state
  else Advance true (updated_record job session_id e true now).

(** ** Merging into the cache *)

Definition cache_matches (data : HubData) (e : JobEvent) (previous_state : JobState)
    (previous_last_event : Z) : bool :=
  is_some_and (λ current,
    (dj_attempt (hj_dispatch current) =? je_attempt e)%Z
    && bool_decide (jv_state (hj_view current) = previous_state)
    && (hj_last_event current =? previous_last_event)%Z) (hd_jobs data !! je_job_id e).

(** The cached record after the event, from the snapshot [updated]. *)
Definition merged_record (current updated : JobRecord) (e : JobEvent) (append adopt : bool)
    (session_id previous_session_id : string) : JobRecord :=
  let c := hj_view current in
  let u := hj_view updated in
  let session := if adopt && String.eqb (jv_session_id c) previous_session_id then session_id
                 else jv_session_id c in
  let events :=
    if append && negb (existsb (λ entry, (ev_sequence entry =? je_sequence e)%Z) (jv_events c))
    then match last (jv_events u) with
         | Some entry => push_event (jv_events c) entry
         | None => jv_events c
         end
    else jv_events c in
  with_view current
    (set_view c session (jv_state u) (jv_progress u) (jv_prompt_id u) (jv_error u) events
       (Z.max (jv_updated_at_unix_ms c) (jv_updated_at_unix_ms u)))
    (hj_last_event updated).

Definition merge_event (data : HubData) (has_store session_current : bool) (job updated : JobRecord)
    (e : JobEvent) (append : bool) (session_id : string) : HubData :=
  if cache_matches data e (jv_state (hj_view job)) (hj_last_event job) then
    if is_terminal (jv_state (hj_view updated)) && has_store then evict_job data (je_job_id e)
    else
      match hd_jobs data !! je_job_id e with
      | Some current =>
          set_hub_jobs data (<[je_job_id e :=
            merged_record current updated e append session_current session_id
              (jv_session_id (hj_view job))]> (hd_jobs data))
      | None => data
      end
  else data.

(** [merge_adopted_job_session]. *)
Definition merge_adopted_job_session (h : Hub) (organization_id worker_id job_id : string)
    (expected_attempt : Z) (session_id : string) (now : Z) : Hub :=
  if guard_current_session (hb_sessions h) organization_id worker_id session_id then
    match hd_jobs (hb_data h) !! job_id with
    | Some job =>
        let v := hj_view job in
        if negb (dj_attempt (hj_dispatch job) =? expected_attempt)%Z || is_terminal (jv_state v)
        then h
        else with_data h (set_hub_jobs (hb_data h) (<[job_id :=
               with_view job (set_view v session_id (jv_state v) (jv_progress v) (jv_prompt_id v)
                 (jv_error v) (jv_events v) (Z.max (jv_updated_at_unix_ms v) now))
                 (hj_last_event job)]> (hd_jobs (hb_data h))))
    | None => h
    end
  else h.

(** ** Reconciling with the store *)
Section hub.
Context (from_str_strings : string → Res string (list string)) (from_str_json : string → Res string Json)
        (scan : gmap (string * string * Z * Z) StoredJobEvent → list StoredJobEvent).

Definition job_view_from_stored (job : StoredJob) (events : list StoredJobEvent) : Res HubError JobView :=
  input_artifact_ids ← parse_persisted "inputs" (from_str_strings (sj_input_artifact_ids_json job));
  output_artifact_ids ← parse_persisted "outputs" (from_str_strings (sj_output_artifact_ids_json job));
  parameters ← parse_persisted "parameters" (from_str_json (sj_parameters_json job));
  events ← try_map hydrate_event (List.filter (λ e, String.eqb (se_job_id e) (sj_id job)) events);
  state ← parse_job_state (sj_state job);
  Ok (mkJobView (sj_id job) (sj_workflow_id job) (sj_workflow_version job) parameters
        input_artifact_ids output_artifact_ids (default "" (sj_worker_id job))
        (default "" (sj_session_id job)) state (sj_progress job) (sj_prompt_id job) (sj_error job)
        events (sj_created_at job) (sj_updated_at job)).

(** The cached job does not need the durable view. *)
Definition cache_is_ahead (current : JobRecord) (persisted_last_event : Z) (durable : JobState) : bool :=
  (persisted_last_event <? hj_last_event current)%Z
  || ((hj_last_event current =? persisted_last_event)%Z
      && (bool_decide (jv_state (hj_view current) = durable)
          || negb (may_advance (jv_state (hj_view current)) durable))).

Definition refresh_from_store (current : JobRecord) (durable : JobView) (persisted_last_event : Z)
    : JobRecord :=
  let v := hj_view current in
  with_view current
    (set_view v (jv_session_id v) (jv_state durable) (jv_progress durable) (jv_prompt_id durable)
       (jv_error durable) (jv_events durable)
       (Z.max (jv_updated_at_unix_ms v) (jv_updated_at_unix_ms durable))) persisted_last_event.

Definition reconcile_persisted_job_event (db : Db) (data : HubData) (now : Z)
    (organization_id job_id : string) (sequence : Z) : Res HubError (bool * Db * HubData) :=
  match job db organization_id job_id with
  | None => Ok (false, db, data)
  | Some stored =>
      persisted_state ← parse_job_state (sj_state stored);
      persisted_last_event ← ok_or (InvalidConfig "persisted job sequence is invalid")
                               (u64_try_from (sj_last_event stored));
      if is_terminal persisted_state then
        Ok (true, release_job_for_terminal db now organization_id job_id, evict_job data job_id)
      else if (persisted_last_event <? sequence)%Z then Ok (false, db, data)
      else
        durable_view ← job_view_from_stored stored (events_for_job scan db organization_id job_id);
        Ok (true, db,
          match hd_jobs data !! job_id with
          | None => data
          | Some current =>
              if cache_is_ahead current persisted_last_event (jv_state durable_view) then data
              else set_hub_jobs data (<[job_id :=
                     refresh_from_store current durable_view persisted_last_event]> (hd_jobs data))
          end)
  end.

(** ** The handler *)

Definition event_insert (job : JobRecord) (e : JobEvent) (now : Z) : EventInsert :=
  mkEventInsert (hj_organization_id job) (je_job_id e) (je_attempt e)
    (u64_to_i64_saturating (je_sequence e)) (event_kind_name (je_kind e)) (je_progress e)
    (je_prompt_id e) (je_message e) (je_unix_ms e) now.

Definition event_update (job : JobRecord) (e : JobEvent) (session_id : string) : JobEventUpdate :=
  mkJobEventUpdate session_id (jv_session_id (hj_view job)) (job_state_name (jv_state (hj_view job)))
    (u64_to_i64_saturating (hj_last_event job)) (job_state_name (event_state (je_kind e)))
    (event_error e).

(** Reconciliation after the cache or the store turned out to differ. *)
Definition reconcile_step (h : Hub) (db : Db) (now : Z) (organization_id job_id : string) (sequence : Z)
    : Res HubError (bool * Hub) :=
  '(done, db', data') ← reconcile_persisted_job_event db (hb_data h) now organization_id job_id sequence;
  Ok (done, with_store (with_data h data') db').

Definition apply_job_event (h : Hub) (now : Z) (organization_id worker_id session_id : string)
    (e : JobEvent) : Res HubError (JobEventAck * Hub) :=
  let ack := mkJobEventAck (je_job_id e) (je_sequence e) in
  match hd_jobs (hb_data h) !! je_job_id e with
  | None =>
      match hb_store h with
      | None => Err (NotFound "job")
      | Some db =>
          '(done, h') ← reconcile_step h db now organization_id (je_job_id e) (je_sequence e);
          if done : bool then Ok (ack, h') else Err (NotFound "job")
      end
  | Some job =>
      match event_plan (current_session_id (hb_sessions h) organization_id worker_id) job
              organization_id worker_id session_id e now with
      | NotOwner => Ok (ack, h)
      | StaleSession => Err (Conflict "stale worker session")
      | InvalidTransition from to =>
          Err (Conflict ("invalid event transition from " +:+ job_state_name from +:+ " to "
                         +:+ job_state_name to))
      | Duplicate =>
          let previous := jv_session_id (hj_view job) in
          if String.eqb previous session_id then Ok (ack, h)
          else
            let attempt := dj_attempt (hj_dispatch job) in
            let merge h := merge_adopted_job_session h organization_id worker_id (je_job_id e)
                             attempt session_id now in
            match hb_store h with
            | None => Ok (ack, merge h)
            | Some db =>
                let '(rebound, db') := rebind_job_session db (hj_organization_id job)
                  (jv_id (hj_view job)) attempt previous session_id now in
                if rebound then Ok (ack, merge (with_store h db'))
                else Err (Conflict "job changed while adopting the worker session")
            end
      | Advance append updated =>
          let finish h' :=
            Ok (ack, with_data h'
              (merge_event (hb_data h') (bool_decide (is_Some (hb_store h')))
                 (guard_current_session (hb_sessions h') organization_id worker_id session_id)
                 job updated e append session_id)) in
          match hb_store h with
          | None => finish h
          | Some db =>
              match Store.apply_job_event db (event_insert job e now) (event_update job e session_id) with
              | Err error => Err (HubTypes.Store error)
              | Ok (true, db') => finish (with_store h db')
              | Ok (false, _) =>
                  '(done, h') ← reconcile_step h db now organization_id (je_job_id e) (je_sequence e);
                  if done : bool then Ok (ack, h')
                  else Err (Conflict "job changed while applying an event; retry the event")
              end
          end
      end
  end.

(** [update_job_error]; [terminal] is [mark_job_failed]. *)
Definition update_job_error (h : Hub) (now : Z) (job_id message : string) (terminal : bool) : Hub :=
  match hd_jobs (hb_data h) !! job_id with
  | None => h
  | Some job =>
      let v := hj_view job in
      if is_terminal (jv_state v) then h
      else
        let error_message := truncate message 1000 in
        let finish (h' : Hub) :=
          let data := hb_data h' in
          match hd_jobs data !! job_id with
          | Some current =>
              let c := hj_view current in
              if (dj_attempt (hj_dispatch current) =? dj_attempt (hj_dispatch job))%Z
                 && bool_decide (jv_state c = jv_state v)
                 && (hj_last_event current =? hj_last_event job)%Z then
                if terminal && bool_decide (is_Some (hb_store h'))
                then with_data h' (set_hub_jobs data (delete job_id (hd_jobs data)))
                else with_data h' (set_hub_jobs data (<[job_id :=
                  with_view current
                    (set_view c (jv_session_id c) (if terminal then Failed else jv_state c)
                       (jv_progress c) (jv_prompt_id c) (Some error_message) (jv_events c)
                       (Z.max (jv_updated_at_unix_ms c) now)) (hj_last_event current)]> (hd_jobs data)))
              else h'
          | None => h'
          end in
        match hb_store h with
        | None => finish h
        | Some db =>
            let '(updated, db') := update_job_if_current db
              (mkConditionalJobUpdate (hj_organization_id job) job_id (dj_attempt (hj_dispatch job))
                 (job_state_name (jv_state v)) (u64_to_i64_saturating (hj_last_event job))
                 (if terminal then Some "failed" else None) (Some error_message) now) in
            if updated then finish (with_store h db') else h
        end
  end.

(** ** Lemmas *)

Lemma terminal_name_state s : terminal_name (job_state_name s) = is_terminal s.
Proof. by destruct s. Qed.

Lemma may_advance_terminal s t : may_advance s t = true → is_terminal s = true → t = s.
Proof. by destruct s, t. Qed.

(** An advancing event names the state a terminal job already has. *)
Lemma event_update_keeps_terminal job e session_id :
  may_advance (jv_state (hj_view job)) (event_state (je_kind e)) = true →
  keeps_terminal (eu_expected_state (event_update job e session_id))
    (eu_state (event_update job e session_id)).
Proof.
  unfold keeps_terminal. simpl. rewrite terminal_name_state. intros Hadv Hterm.
  by rewrite (may_advance_terminal _ _ Hadv Hterm).
Qed.

(** What an [Advance] plan found. *)
Lemma event_plan_advance cur job o w sid e now append updated :
  event_plan cur job o w sid e now = Advance append updated →
  hj_worker_organization_id job = o ∧ jv_worker_id (hj_view job) = w
  ∧ je_attempt e = dj_attempt (hj_dispatch job) ∧ cur = Some sid
  ∧ may_advance (jv_state (hj_view job)) (event_state (je_kind e)) = true
  ∧ updated = updated_record job sid e append now
  ∧ (if append then hj_last_event job < je_sequence e else je_sequence e ≤ hj_last_event job)%Z.
Proof.
  unfold event_plan. destruct (_ || _) eqn:Hown; [done|].
  apply orb_false_iff in Hown as [[Ho Hw]%orb_false_iff Ha].
  apply negb_false_iff in Ho, Hw, Ha. apply String.eqb_eq in Ho, Hw. apply Z.eqb_eq in Ha.
  case_bool_decide as Hc; simpl; [|done].
  destruct (Z.leb_spec (je_sequence e) (hj_last_event job)).
  - destruct (negb _ && may_advance _ _) eqn:Hadv; [|done].
    apply andb_true_iff in Hadv as [_ Hadv]. intros [= <- <-]. by split_and!.
  - destruct (may_advance _ _) eqn:Hadv; simpl; [|done]. intros [= <- <-]. by split_and!.
Qed.

(** A plan other than refusing or ignoring: the sender owns the job and is the
    worker's current connection. *)
Lemma event_plan_owner cur job o w sid e now :
  event_plan cur job o w sid e now ≠ NotOwner → event_plan cur job o w sid e now ≠ StaleSession →
  hj_worker_organization_id job = o ∧ jv_worker_id (hj_view job) = w
  ∧ je_attempt e = dj_attempt (hj_dispatch job) ∧ cur = Some sid.
Proof.
  unfold event_plan. destruct (_ || _) eqn:Hown; [done|]. intros _.
  apply orb_false_iff in Hown as [[Ho Hw]%orb_false_iff Ha].
  apply negb_false_iff in Ho, Hw, Ha. apply String.eqb_eq in Ho, Hw. apply Z.eqb_eq in Ha.
  by case_bool_decide.
Qed.

Lemma length_push_event events e : length (push_event events e) ≤ MAX_RESIDENT_JOB_EVENTS.
Proof. unfold push_event. rewrite length_keep_last. lia. Qed.

(** *** Durability *)

(** The store has the event, or a job that is past it. *)
Definition durable (db : Db) (organization_id job_id : string) (sequence : Z) : Prop :=
  ∃ r, job db organization_id job_id = Some r
    ∧ (sequence ≤ sj_last_event r ∨ terminal_name (sj_state r) = true)%Z.

Lemma reconcile_durable db data now o j sequence db' data' :
  reconcile_persisted_job_event db data now o j sequence = Ok (true, db', data') →
  durable db' o j sequence.
Proof.
  unfold reconcile_persisted_job_event. destruct (job db o j) as [stored|] eqn:Hj; [|done].
  intros (st & Hst & Hc)%bind_Ok. apply bind_Ok in Hc as (last & Hlast%ok_or_Ok & Hc).
  destruct (is_terminal st) eqn:Hterm.
  - injection Hc as <- <-. exists stored. split.
    + unfold job, release_job_for_terminal. by rewrite (proj1 (release_frame db o j now)).
    + right. apply parse_job_state_iff in Hst. by rewrite Hst, terminal_name_state.
  - destruct (Z.ltb_spec last sequence) as [|Hle]; [done|].
    apply bind_Ok in Hc as (view & _ & Hc). injection Hc as <- _. exists stored. split; [done|].
    left. unfold u64_try_from in Hlast. destruct (sj_last_event stored <? 0)%Z; naive_solver lia.
Qed.

Lemma store_event_durable db e now job sid db' :
  (je_sequence e ≤ i64_max)%Z →
  Store.apply_job_event db (event_insert job e now) (event_update job e sid) = Ok (true, db') →
  durable db' (hj_organization_id job) (je_job_id e) (je_sequence e).
Proof.
  intros Hseq (r & stored & Hr & _ & _ & _ & Hj)%apply_job_event_applied.
  eexists. unfold Store.job. rewrite Hj. simpl. rewrite lookup_insert_eq. split; [done|].
  left. simpl. rewrite u64_to_i64_saturating_small by done. lia.
Qed.


(** *** What the merge may do to the cache *)

(** How an event may change a cached record. *)
Record moved_forward (before after : JobRecord) : Prop := {
  mf_identity : hj_organization_id after = hj_organization_id before
    ∧ hj_worker_organization_id after = hj_worker_organization_id before
    ∧ jv_worker_id (hj_view after) = jv_worker_id (hj_view before)
    ∧ hj_dispatch after = hj_dispatch before;
  mf_state : may_advance (jv_state (hj_view before)) (jv_state (hj_view after)) = true;
  mf_last_event : (hj_last_event before ≤ hj_last_event after)%Z;
  mf_events : length (jv_events (hj_view after))
    ≤ length (jv_events (hj_view before)) `max` MAX_RESIDENT_JOB_EVENTS;
  mf_updated : (jv_updated_at_unix_ms (hj_view before) ≤ jv_updated_at_unix_ms (hj_view after))%Z;
}.

Lemma last_push_event events e : last (push_event events e) = Some e.
Proof.
  unfold push_event, keep_last. rewrite drop_app_le; [by rewrite last_snoc|].
  rewrite length_app. unfold MAX_RESIDENT_JOB_EVENTS. simpl. lia.
Qed.

(** The merged record of an [Advance] plan, on a cache that still matches the
    snapshot. *)
Lemma merged_record_forward (current job : JobRecord) e (append adopt : bool) sid prev now :
  may_advance (jv_state (hj_view job)) (event_state (je_kind e)) = true →
  (if append then hj_last_event job < je_sequence e else je_sequence e ≤ hj_last_event job)%Z →
  jv_state (hj_view current) = jv_state (hj_view job) → hj_last_event current = hj_last_event job →
  moved_forward current (merged_record current (updated_record job sid e append now) e append adopt sid prev).
Proof.
  intros Hadv Hseq Hst Hlast. split; simpl.
  - done.
  - by rewrite Hst.
  - rewrite Hlast. destruct append; lia.
  - destruct (append && _) eqn:Hc; [|lia]. apply andb_true_iff in Hc as [-> _].
    rewrite last_push_event. pose proof (length_push_event (jv_events (hj_view current)) (view_of_event e)). lia.
  - lia.
Qed.

(** C31: Events move a job only forward: when the worker's event was planned as
    an advance from a snapshot, merging it into the cache as other tasks have
    left it changes no other job, and leaves the event's own job as it is,
    evicts it (only when it is finished and the store has it), or moves it
    along the state machine, never out of a terminal state, with the sequence
    and the time never lowered, the identity kept and at most 256 events
    resident unless there were more already. *)
Theorem event_moves_job_forward cur (job : JobRecord) o w sid e now append updated data
    (has_store session_current : bool) :
  event_plan cur job o w sid e now = Advance append updated →
  let data' := merge_event data has_store session_current job updated e append sid in
  (∀ j, j ≠ je_job_id e → hd_jobs data' !! j = hd_jobs data !! j)
  ∧ match hd_jobs data !! je_job_id e, hd_jobs data' !! je_job_id e with
    | before, None => before = None ∨ has_store = true ∧ is_terminal (event_state (je_kind e)) = true
    | None, Some _ => False
    | Some before, Some after => after = before ∨ moved_forward before after
    end.
Proof.
  intros (_ & _ & _ & _ & Hadv & -> & Hseq)%event_plan_advance data'. unfold data', merge_event.
  destruct (cache_matches _ _ _ _) eqn:Hm; [|split; [done|by destruct (hd_jobs data !! je_job_id e) as [b|]; [left|left]]].
  apply is_some_and_true in Hm as (current & Hcur & Hm). apply andb_true_iff in Hm as [[_ Hst]%andb_true_iff Hlast].
  apply bool_decide_eq_true in Hst. apply Z.eqb_eq in Hlast.
  destruct (is_terminal _ && has_store) eqn:Hterm.
  - apply andb_true_iff in Hterm as [Hterm ->]. simpl. split.
    + intros j Hj. by rewrite lookup_delete_ne.
    + rewrite lookup_delete_eq. destruct (hd_jobs data !! _); right; by split.
  - rewrite Hcur. simpl. split.
    + intros j Hj. by rewrite lookup_insert_ne.
    + rewrite lookup_insert_eq. right. by apply merged_record_forward.
Qed.

(** *** Ownership and scope *)

Lemma reconcile_scope db data now o j sequence done db' data' :
  reconcile_persisted_job_event db data now o j sequence = Ok (done, db', data') →
  (∀ j', j' ≠ j → hd_jobs data' !! j' = hd_jobs data !! j') ∧ db_jobs db' = db_jobs db.
Proof.
  unfold reconcile_persisted_job_event. destruct (job db o j) as [stored|]; [|by intros [= <- <- <-]].
  intros (st & _ & Hc)%bind_Ok. apply bind_Ok in Hc as (last & _ & Hc). destruct (is_terminal st).
  - injection Hc as <- <- <-. split; [intros j' Hj'; simpl; by rewrite lookup_delete_ne|].
    apply (release_frame db o j now).
  - destruct (last <? sequence)%Z; [by injection Hc as <- <- <-|].
    apply bind_Ok in Hc as (view & _ & Hc). injection Hc as <- <- <-. split; [|done].
    intros j' Hj'. destruct (hd_jobs data !! j); [|done]. destruct (cache_is_ahead _ _ _); [done|].
    simpl. by rewrite lookup_insert_ne.
Qed.

Lemma reconcile_step_scope h db now o j sequence done h' :
  reconcile_step h db now o j sequence = Ok (done, h') →
  hb_sessions h' = hb_sessions h
  ∧ (∀ j', j' ≠ j → hd_jobs (hb_data h') !! j' = hd_jobs (hb_data h) !! j')
  ∧ ∃ db', hb_store h' = Some db' ∧ db_jobs db' = db_jobs db.
Proof.
  unfold reconcile_step. intros ([[d db'] data'] & Hrec & Hc)%bind_Ok. injection Hc as <- <-. simpl.
  apply reconcile_scope in Hrec as [H1 H2]. eauto.
Qed.

Lemma merge_adopted_scope h o w j attempt sid now :
  hb_sessions (merge_adopted_job_session h o w j attempt sid now) = hb_sessions h
  ∧ hb_store (merge_adopted_job_session h o w j attempt sid now) = hb_store h
  ∧ ∀ j', j' ≠ j → hd_jobs (hb_data (merge_adopted_job_session h o w j attempt sid now)) !! j'
                   = hd_jobs (hb_data h) !! j'.
Proof.
  unfold merge_adopted_job_session. repeat case_match; try done. split_and!; try done.
  intros j' Hj'. simpl. by rewrite lookup_insert_ne.
Qed.

Lemma merge_event_scope data st cur job updated e append sid j :
  j ≠ je_job_id e → hd_jobs (merge_event data st cur job updated e append sid) !! j = hd_jobs data !! j.
Proof.
  intros Hj. unfold merge_event. repeat case_match; simpl;
    by rewrite ?lookup_delete_ne, ?lookup_insert_ne.
Qed.

(** The rows of a store event, and of a rebinding, of other jobs. *)
Lemma store_event_scope db ei u db' k :
  Store.apply_job_event db ei u = Ok (true, db') → k ≠ (ei_organization_id ei, ei_job_id ei) →
  db_jobs db' !! k = db_jobs db !! k.
Proof.
  intros (r & stored & _ & _ & _ & _ & Hj)%apply_job_event_applied Hk. by rewrite Hj, lookup_insert_ne.
Qed.

Lemma rebind_scope db o j a old new now b db' k :
  rebind_job_session db o j a old new now = (b, db') → k ≠ (o, j) → db_jobs db' !! k = db_jobs db !! k.
Proof.
  unfold rebind_job_session. intros Heq Hk. repeat case_match; simplify_eq; try done.
  simpl. by rewrite lookup_insert_ne.
Qed.

(** The ways the handler ends well for a cached job. *)
Inductive handled (h : Hub) (now : Z) (o w sid : string) (e : JobEvent) (job : JobRecord) : Hub → Prop :=
| handled_ignored :
    event_plan (current_session_id (hb_sessions h) o w) job o w sid e now = NotOwner →
    handled h now o w sid e job h
| handled_duplicate :
    event_plan (current_session_id (hb_sessions h) o w) job o w sid e now = Duplicate →
    handled h now o w sid e job h
| handled_adopted h1 :
    event_plan (current_session_id (hb_sessions h) o w) job o w sid e now = Duplicate →
    h1 = h ∧ hb_store h = None
    ∨ (∃ db db', hb_store h = Some db ∧ h1 = with_store h db'
         ∧ rebind_job_session db (hj_organization_id job) (jv_id (hj_view job))
             (dj_attempt (hj_dispatch job)) (jv_session_id (hj_view job)) sid now = (true, db')) →
    handled h now o w sid e job
      (merge_adopted_job_session h1 o w (je_job_id e) (dj_attempt (hj_dispatch job)) sid now)
| handled_advanced append updated h1 has_store session_current :
    event_plan (current_session_id (hb_sessions h) o w) job o w sid e now = Advance append updated →
    h1 = h ∧ hb_store h = None
    ∨ (∃ db db', hb_store h = Some db ∧ h1 = with_store h db'
         ∧ Store.apply_job_event db (event_insert job e now) (event_update job e sid) = Ok (true, db')) →
    handled h now o w sid e job
      (with_data h1 (merge_event (hb_data h1) has_store session_current job updated e append sid))
| handled_reconciled append updated db h' :
    event_plan (current_session_id (hb_sessions h) o w) job o w sid e now = Advance append updated →
    hb_store h = Some db →
    reconcile_step h db now o (je_job_id e) (je_sequence e) = Ok (true, h') →
    handled h now o w sid e job h'.

Lemma apply_job_event_handled h now o w sid e job ack h' :
  hd_jobs (hb_data h) !! je_job_id e = Some job → apply_job_event h now o w sid e = Ok (ack, h') →
  ack = mkJobEventAck (je_job_id e) (je_sequence e) ∧ handled h now o w sid e job h'.
Proof.
  intros Hjob. unfold apply_job_event. rewrite Hjob.
  destruct (event_plan _ _ _ _ _ _ _) as [| |from to| |append updated] eqn:Hplan; try done.
  - intros [= <- <-]. split; [done|]. by constructor.
  - destruct (String.eqb _ _); [intros [= <- <-]; split; [done|]; by constructor|].
    destruct (hb_store h) as [db|] eqn:Hst.
    + destruct (rebind_job_session _ _ _ _ _ _ _) as [[] db'] eqn:Hr; [|done].
      intros [= <- <-]. split; [done|]. refine (handled_adopted _ _ _ _ _ _ _ (with_store h db') Hplan _). right. eauto 10.
    + intros [= <- <-]. split; [done|]. refine (handled_adopted _ _ _ _ _ _ _ h Hplan _). by left.
  - destruct (hb_store h) as [db|] eqn:Hst.
    + destruct (Store.apply_job_event _ _ _) as [[[] db']|er] eqn:Happ; [| |done].
      * intros [= <- <-]. split; [done|]. refine (handled_advanced _ _ _ _ _ _ _ _ _ (with_store h db') _ _ Hplan _). right. eauto 10.
      * intros ([done h1] & Hrec & Hc)%bind_Ok. destruct done; [|done]. injection Hc as <- <-.
        split; [done|]. by eapply handled_reconciled.
    + intros [= <- <-]. split; [done|]. refine (handled_advanced _ _ _ _ _ _ _ _ _ h _ _ Hplan _). by left.
Qed.

(** A stored job row changes only for the event's job, which the Hub had in
    its cache under its owner. *)
Definition store_changes_only (before after : option Db) (o j : string) : Prop :=
  match before, after with
  | Some db, Some db' => ∀ k, k ≠ (o, j) → db_jobs db' !! k = db_jobs db !! k
  | None, None => True
  | _, _ => False
  end.

(** An event touches its own job only, and only for its owner: when the
    Hub acknowledges an event, the sessions, every other cached job and every
    other job row are as they were; an event of a worker that does not own the
    job, or of another attempt, changes nothing at all; and otherwise the
    sending connection is the worker's current one. *)
Theorem event_scoped_to_owner h now o w sid e job ack h' :
  hd_jobs (hb_data h) !! je_job_id e = Some job →
  apply_job_event h now o w sid e = Ok (ack, h') →
  ack = mkJobEventAck (je_job_id e) (je_sequence e)
  ∧ hb_sessions h' = hb_sessions h
  ∧ (∀ j, j ≠ je_job_id e → hd_jobs (hb_data h') !! j = hd_jobs (hb_data h) !! j)
  ∧ (jv_id (hj_view job) = je_job_id e →
     store_changes_only (hb_store h) (hb_store h') (hj_organization_id job) (je_job_id e))
  ∧ (h' = h
     ∨ hj_worker_organization_id job = o ∧ jv_worker_id (hj_view job) = w
       ∧ je_attempt e = dj_attempt (hj_dispatch job)
       ∧ current_session_id (hb_sessions h) o w = Some sid).
Proof.
  intros Hjob [-> Hh]%(apply_job_event_handled _ _ _ _ _ _ job); [|done]. split; [done|].
  assert (Hown : h' = h ∨ hj_worker_organization_id job = o ∧ jv_worker_id (hj_view job) = w
    ∧ je_attempt e = dj_attempt (hj_dispatch job) ∧ current_session_id (hb_sessions h) o w = Some sid)
    by (inversion_clear Hh; [by left|by left|right..]; (apply (event_plan_owner _ job o w sid e now); congruence)).
  destruct Hh as [Hp|Hp|h1 Hp Hs|append updated h1 st cur Hp Hs|append updated db h1 Hp Hs Hr].
  - by split_and!; [..|left]; try done; intros; destruct (hb_store h).
  - by split_and!; [..|left]; try done; intros; destruct (hb_store h).
  - destruct (merge_adopted_scope h1 o w (je_job_id e) (dj_attempt (hj_dispatch job)) sid now)
      as (-> & -> & Hj). destruct Hs as [[-> Hst]|(db & db' & Hst & -> & Hr)]; rewrite Hst.
    + by split_and!.
    + split_and!; try done. intros Hid k Hk. rewrite <- Hid in Hk. by eapply rebind_scope.
  - destruct Hs as [[-> Hst]|(db & db' & Hst & -> & Hr)]; rewrite Hst; simpl in *.
    + split_and!; try done; [|by rewrite Hst]. intros j Hj. by apply merge_event_scope.
    + split_and!; try done; [intros j Hj; by apply merge_event_scope|].
      intros _ k Hk. by eapply store_event_scope.
  - apply reconcile_step_scope in Hr as (Hse & Hj & db' & Hst & Heq). rewrite Hs, Hst.
    split_and!; try done. intros _ k _. simpl. by rewrite Heq.
Qed.

(** *** Quota *)

Lemma reconcile_step_quota h db now o j sequence done h' :
  quota_ok db → reconcile_step h db now o j sequence = Ok (done, h') →
  ∃ db', hb_store h' = Some db' ∧ quota_ok db'.
Proof.
  intros Hok. unfold reconcile_step. intros ([[d db'] data'] & Hrec & Hc)%bind_Ok.
  injection Hc as <- <-. exists db'. split; [done|]. revert Hrec. unfold reconcile_persisted_job_event.
  destruct (job db o j) as [stored|]; [|by intros [= <- <- <-]].
  intros (st & _ & Hc)%bind_Ok. apply bind_Ok in Hc as (last & _ & Hc). destruct (is_terminal st).
  - injection Hc as <- <- <-. by apply quota_pending_release, quota_ok_pending.
  - destruct (last <? sequence)%Z; [by injection Hc as <- <- <-|].
    apply bind_Ok in Hc as (view & _ & Hc). by injection Hc as <- <- <-.
Qed.

Lemma handled_quota h now o w sid e job h' db :
  handled h now o w sid e job h' → hb_store h = Some db → quota_ok db →
  ∃ db', hb_store h' = Some db' ∧ quota_ok db'.
Proof.
  intros Hh Hst Hok.
  destruct Hh as [Hp|Hp|h1 Hp Hs|append updated h1 st cur Hp Hs|append updated db1 h1 Hp Hs Hr].
  - eauto.
  - eauto.
  - rewrite (proj1 (proj2 (merge_adopted_scope h1 o w (je_job_id e) (dj_attempt (hj_dispatch job)) sid now))).
    destruct Hs as [[_ Hn]|(db0 & db' & Hst' & -> & Hr)]; [congruence|]. exists db'. split; [done|].
    simplify_eq. change db' with (true, db').2. rewrite <- Hr. by apply quota_ok_rebind.
  - destruct Hs as [[_ Hn]|(db0 & db' & Hst' & -> & Hr)]; [congruence|]. exists db'. split; [done|].
    simplify_eq. apply event_plan_advance in Hp as (_ & _ & _ & _ & Hadv & _).
    by eapply quota_ok_event; [apply event_update_keeps_terminal| |].
  - simplify_eq. by eapply reconcile_step_quota.
Qed.

(** The handler keeps the quota counters exact: whatever a worker sends,
    if the organizations' counters matched their unfinished jobs before the
    event they do after it, whether it was applied, adopted, ignored or
    reconciled with the store. *)
Theorem event_keeps_quota h now o w sid e ack h' db :
  hb_store h = Some db → quota_ok db → apply_job_event h now o w sid e = Ok (ack, h') →
  ∃ db', hb_store h' = Some db' ∧ quota_ok db'.
Proof.
  intros Hst Hok Happ. destruct (hd_jobs (hb_data h) !! je_job_id e) as [job|] eqn:Hjob.
  - destruct (apply_job_event_handled _ _ _ _ _ _ _ _ _ Hjob Happ) as [_ Hh].
    by eapply handled_quota.
  - revert Happ. unfold apply_job_event. rewrite Hjob, Hst.
    intros ([done h1] & Hrec & Hc)%bind_Ok. destruct done; [|done]. injection Hc as <- <-.
    by eapply reconcile_step_quota.
Qed.

(** Failing a job on the Hub's side keeps the counters exact as well, and
    never touches a job that has already finished. *)
Theorem job_failure_keeps_quota h now job_id message terminal db :
  hb_store h = Some db → quota_ok db →
  (∃ db', hb_store (update_job_error h now job_id message terminal) = Some db' ∧ quota_ok db')
  ∧ (∀ job, hd_jobs (hb_data h) !! job_id = Some job → is_terminal (jv_state (hj_view job)) = true →
     update_job_error h now job_id message terminal = h).
Proof.
  intros Hst Hok. unfold update_job_error. split.
  - destruct (hd_jobs (hb_data h) !! job_id) as [job|] eqn:Hjob; [|eauto].
    destruct (is_terminal (jv_state (hj_view job))) eqn:Hterm; [eauto|]. rewrite Hst.
    destruct (update_job_if_current _ _) as [updated db'] eqn:Hu.
    assert (quota_ok db') as Hok'.
    { change db' with (updated, db').2. rewrite <- Hu. apply quota_ok_update; [|done].
      intros s _. unfold keeps_terminal. simpl. by rewrite terminal_name_state, Hterm. }
    destruct updated; [|eauto]. exists db'. split; [|done]. by repeat case_match.
  - intros job -> Hterm. by rewrite Hterm.
Qed.

(** *** Replays *)

Lemma reconcile_step_terminal h db now o j sequence stored :
  job db o j = Some stored → terminal_name (sj_state stored) = true → (0 ≤ sj_last_event stored)%Z →
  reconcile_step h db now o j sequence
  = Ok (true, with_store (with_data h (evict_job (hb_data h) j)) (release_job_for_terminal db now o j)).
Proof.
  intros Hj Hterm Hlast. unfold reconcile_step, reconcile_persisted_job_event. rewrite Hj.
  assert (∃ st, sj_state stored = job_state_name st ∧ is_terminal st = true) as (st & Hname & Hst).
  { unfold terminal_name in Hterm. apply orb_true_iff in Hterm as [[H|H]%orb_true_iff|H];
      apply String.eqb_eq in H; [by exists Completed|by exists Failed|by exists Cancelled]. }
  apply parse_job_state_iff in Hname. rewrite Hname. simpl.
  unfold u64_try_from. destruct (Z.ltb_spec (sj_last_event stored) 0); [lia|]. simpl. by rewrite Hst.
Qed.

(** A lost acknowledgement is repaired: when a finished job has left the
    cache and its worker, of the job's own organization, sends an event of it
    again, the Hub acknowledges it and changes no job. *)
Theorem replay_after_eviction_acked h now o w sid e db stored :
  hb_store h = Some db → hd_jobs (hb_data h) !! je_job_id e = None →
  job db o (je_job_id e) = Some stored → terminal_name (sj_state stored) = true →
  (0 ≤ sj_last_event stored)%Z →
  ∃ h' db', apply_job_event h now o w sid e = Ok (mkJobEventAck (je_job_id e) (je_sequence e), h')
    ∧ hb_store h' = Some db' ∧ db_jobs db' = db_jobs db
    ∧ hd_jobs (hb_data h') = hd_jobs (hb_data h).
Proof.
  intros Hst Hjob Hj Hterm Hlast. unfold apply_job_event. rewrite Hjob, Hst.
  rewrite (reconcile_step_terminal _ _ _ _ _ _ stored) by done. simpl.
  eexists _, _. split_and!; [done|done|apply (release_frame db o (je_job_id e) now)|].
  simpl. by rewrite delete_id.
Qed.
End hub.

(** ** Witnesses *)
Module HubExample.
Definition strings (_ : string) : Res string (list string) := Ok [].
Definition json (_ : string) : Res string Json := Ok JNull.
Definition scan (m : gmap (string * string * Z * Z) StoredJobEvent) : list StoredJobEvent :=
  (map_to_list m).*2.

(** A job of organization [o], received by the device "gpu" of "acme". *)
Definition row (o : string) : StoredJob := {|
  sj_organization_id := o; sj_id := "j1"; sj_actor_id := "u"; sj_actor_kind := "user";
  sj_actor_user_id := None; sj_workflow_id := "w"; sj_workflow_version := "1";
  sj_parameters_json := "null"; sj_input_artifact_ids_json := "[]";
  sj_output_artifact_ids_json := "[]"; sj_worker_id := Some "gpu";
  sj_worker_organization_id := Some "acme"; sj_session_id := Some "s1"; sj_attempt := 1;
  sj_state := "received"; sj_progress := None; sj_prompt_id := None; sj_error := None;
  sj_last_event := 0; sj_created_at := 1000; sj_updated_at := 1000 |}.
Definition record (o : string) : JobRecord := mkJobRecord o "u" "user" None "acme"
  (mkJobView "j1" "w" "1" JNull [] [] "gpu" "s1" Received None None None [] 1000 1000)
  (mkDispatchJob "c1" "j1" 1 "w" "1" JNull []) 0.
Definition db (o : string) : Db :=
  mkDb {[ (o, "j1") := mkJobTableRow (row o) None None None ]} ∅ ∅ ∅ ∅
    {[ o := mkQuotaUsage 1 0 1 0 0 ]} ∅ ∅ ∅ ∅ ∅ ∅ ∅ ∅.
Definition hub (o : string) : Hub :=
  mkHub (mkHubData ∅ ∅ {[ "j1" := record o ]} ∅) SessionExample.registry ReadCache_default (Some (db o)).
Definition event (kind : JobEventKind) (sequence : Z) : JobEvent :=
  mkJobEvent "j1" 1 sequence kind None None "" 5.
Definition handle (h : Hub) (e : JobEvent) : Res HubError (JobEventAck * Hub) :=
  apply_job_event strings json scan h 2000 "acme" "gpu" "s1" e.
(** The Hub after the event, where it was acknowledged. *)
Definition after (h : Hub) (e : JobEvent) : Hub :=
  match handle h e with Ok (_, h') => h' | Err _ => h end.
Definition accepted : Hub := after (hub "acme") (event EvAccepted 1).
Definition failed : Hub := after (hub "acme") (event EvFailed 1).

Lemma db_ok : quota_ok (db "acme").
Proof.
  split.
  - intros o u. simpl. rewrite lookup_singleton_Some. intros [<- <-]. vm_compute. reflexivity.
  - intros k Hk. simpl in Hk. set_solver.
  - intros k r. simpl. rewrite lookup_singleton_Some. by intros [<- <-].
Qed.
End HubExample.

(** A replay of another organization's job is not recognised: the device
    "gpu" of "acme" finishes a job of "tenant", the Hub acknowledges it and
    evicts the job, and when the worker sends the same event again because the
    acknowledgement was lost, the Hub looks the job up under the worker's own
    organization and answers that it does not exist; for a job of "acme" the
    same replay is acknowledged. *)
Theorem shared_device_replay_rejected :
  let finish := HubExample.event EvFailed 1 in
  let replay o :=
    '(_, h) ← HubExample.handle (HubExample.hub o) finish;
    '(ack, _) ← HubExample.handle h finish;
    Ok ack in
  replay "tenant" = Err (NotFound "job") ∧ replay "acme" = Ok (mkJobEventAck "j1" 1).
Proof. split; vm_compute; reflexivity. Qed.


Lemma event_moves_job_forward_witness :
  let before := HubExample.record "acme" in
  let event := HubExample.event EvAccepted 1 in
  ∃ after, hd_jobs (merge_event (hb_data (HubExample.hub "acme")) true true before
             (updated_record before "s1" event true 2000) event true "s1") !! "j1" = Some after
    ∧ jv_state (hj_view after) = Accepted ∧ (after = before ∨ moved_forward before after).
Proof.
  intros before event.
  pose proof (event_moves_job_forward (Some "s1") before "acme" "gpu" "s1" event 2000 true
    (updated_record before "s1" event true 2000) (hb_data (HubExample.hub "acme")) true true eq_refl) as [_ H].
  eexists. split_and!; [vm_compute; reflexivity|vm_compute; reflexivity|exact H].
Defined.

Lemma event_scoped_to_owner_witness :
  hb_sessions HubExample.accepted = hb_sessions (HubExample.hub "acme").
Proof.
  apply (event_scoped_to_owner HubExample.strings HubExample.json HubExample.scan
    (HubExample.hub "acme") 2000 "acme" "gpu" "s1" (HubExample.event EvAccepted 1)
    (HubExample.record "acme") (mkJobEventAck "j1" 1) HubExample.accepted);
    [reflexivity|vm_compute; reflexivity].
Defined.

Lemma event_keeps_quota_witness :
  ∃ db', hb_store HubExample.failed = Some db' ∧ quota_ok db'.
Proof.
  apply (event_keeps_quota HubExample.strings HubExample.json HubExample.scan
    (HubExample.hub "acme") 2000 "acme" "gpu" "s1" (HubExample.event EvFailed 1)
    (mkJobEventAck "j1" 1) HubExample.failed (HubExample.db "acme"));
    [reflexivity|exact HubExample.db_ok|vm_compute; reflexivity].
Defined.

Lemma job_failure_keeps_quota_witness :
  ∃ db', hb_store (update_job_error (HubExample.hub "acme") 2000 "j1" "gone" true) = Some db'
    ∧ quota_ok db'.
Proof.
  apply (job_failure_keeps_quota (HubExample.hub "acme") 2000 "j1" "gone" true (HubExample.db "acme"));
    [reflexivity|exact HubExample.db_ok].
Defined.

Lemma replay_after_eviction_acked_witness :
  ∃ h' db', HubExample.handle HubExample.failed (HubExample.event EvFailed 1)
            = Ok (mkJobEventAck "j1" 1, h')
    ∧ hb_store h' = Some db' ∧ hd_jobs (hb_data h') !! "j1" = None.
Proof.
  assert (∃ d stored, hb_store HubExample.failed = Some d ∧ job d "acme" "j1" = Some stored
    ∧ terminal_name (sj_state stored) = true ∧ sj_last_event stored = 1%Z)
    as (d & stored & Hd & Hj & Hs & Hl)
    by (eexists _, _; split_and!; vm_compute; reflexivity).
  destruct (replay_after_eviction_acked HubExample.strings HubExample.json HubExample.scan
    HubExample.failed 2000 "acme" "gpu" "s1" (HubExample.event EvFailed 1) d stored) as (h' & db' & H1 & H2 & _ & H4);
    [done|vm_compute; reflexivity|done|done|lia|].
  exists h', db'. rewrite H4. split_and!; [exact H1|done|vm_compute; reflexivity].
Defined.
