(* ===== verification/Artifacts.v ===== *)
(** Artifacts and their uploads ([nagisalake-hub-store/src/artifacts.rs], the
    upload handlers of [hub/worker.rs] and [hub/api.rs], and the upload reaper
    of [hub/maintenance.rs]).

    Creating an upload reserves its size against the organization's storage
    quota, presigns the PUT, stores a pending row with a deadline and, for a
    worker's output, the request that makes a retry find it again.  Completing
    it checks the object's metadata and marks the row ready.  The reaper
    deletes pending rows past their deadline and gives their bytes back.

    The object store is the class [ObjectStore]; a failing statement of the
    database is the [Faults] argument of the handler.  A handler returns its
    answer and the Hub after it, since a refused upload has also changed it.

    Main results: the storage counter of an organization is the number of bytes
    of its artifact rows over any sequence of uploads, completions and reaper
    runs, with one exception, which is a theorem of its own; an acknowledged
    output is durable, verified and listed on its job; a retried upload request
    gets the same artifact and is charged once. *)

From S2P Require Import Prelude Text Json Messages Core HubTypes Helpers TtlCache HubState Sessions Store HubJobs.
From Stdlib Require Import ZArith Lia.

(** ** The store *)

Record ArtifactUpsert := mkArtifactUpsert {
  xu_organization_id : string;
  xu_id : string;
  xu_job_id : option string;
  xu_name : string;
  xu_content_type : string;
  xu_size_bytes : Z;
  xu_sha256 : string;
  xu_state : string;
  xu_object_key : string;
  xu_now : Z;
  xu_expires_at : option Z;
}.

(** [n as i64]. *)
Definition u64_as_i64 (n : Z) : Z := if (i64_max <? n)%Z then n - 2 ^ 64 else n.

(** INSERT .. ON CONFLICT DO UPDATE, which keeps [created_at]. *)
Definition create_artifact (d : Db) (input : ArtifactUpsert) : Db :=
  let key := (xu_organization_id input, xu_id input) in
  let created_at := match db_artifacts d !! key with
                    | Some r => sa_created_at (art_artifact r)
                    | None => xu_now input
                    end in
  set_artifacts d (<[key := mkArtifactTableRow
    (mkStoredArtifact (xu_organization_id input) (xu_id input) (xu_job_id input) (xu_name input)
       (xu_content_type input) (u64_as_i64 (xu_size_bytes input)) (xu_sha256 input)
       (xu_state input) (xu_object_key input) created_at (xu_now input))
    (xu_expires_at input)]> (db_artifacts d)).

Definition artifact (d : Db) (organization_id id : string) : option StoredArtifact :=
  art_artifact <$> db_artifacts d !! (organization_id, id).

Definition set_stored_state (a : StoredArtifact) (state : string) (updated_at : Z) : StoredArtifact :=
  mkStoredArtifact (sa_organization_id a) (sa_id a) (sa_job_id a) (sa_name a) (sa_content_type a)
    (sa_size_bytes a) (sa_sha256 a) state (sa_object_key a) (sa_created_at a) updated_at.

Definition set_artifact_state (d : Db) (organization_id id state : string) (now : Z) : bool * Db :=
  match db_artifacts d !! (organization_id, id) with
  | None => (false, d)
  | Some r =>
      (true, set_artifacts d (<[(organization_id, id) :=
         mkArtifactTableRow (set_stored_state (art_artifact r) state now)
           (if String.eqb state "pending_upload" then art_expires_at r else None)]> (db_artifacts d)))
  end.

Definition bind_artifact_job (d : Db) (organization_id id job_id : string) (now : Z) : bool * Db :=
  match db_artifacts d !! (organization_id, id) with
  | Some r =>
      if bool_decide (sa_job_id (art_artifact r) = None) then
        (true, set_artifacts d (<[(organization_id, id) := claim_artifact job_id now r]> (db_artifacts d)))
      else (false, d)
  | None => (false, d)
  end.

Record UploadRequestUpsert := mkUploadRequestUpsert {
  ur_organization_id : string;
  ur_request_id : string;
  ur_artifact_id : string;
  ur_job_id : option string;
  ur_attempt : option Z;
  ur_now : Z;
}.

Definition upsert_upload_request (d : Db) (input : UploadRequestUpsert) : Db :=
  let key := (ur_organization_id input, ur_request_id input) in
  match db_uploads d !! key with
  | Some _ => d
  | None => set_uploads d (<[key := mkStoredUploadRequest (ur_organization_id input)
      (ur_request_id input) (ur_artifact_id input) (ur_job_id input) (ur_attempt input)
      (ur_now input) None]> (db_uploads d))
  end.

Definition upload_request_artifact (d : Db) (organization_id request_id : string) : option string :=
  su_artifact_id <$> db_uploads d !! (organization_id, request_id).

(** *** Reclaiming *)

Record ReclaimedUpload := mkReclaimedUpload {
  ru_organization_id : string;
  ru_id : string;
  ru_object_key : string;
  ru_size_bytes : Z;
}.

Definition upload_expired (now : Z) (r : ArtifactTableRow) : bool :=
  String.eqb (sa_state (art_artifact r)) "pending_upload"
  && is_some_and (λ e, (e <=? now)%Z) (art_expires_at r).

Definition expires_le (p q : (string * string) * ArtifactTableRow) : Prop :=
  (default 0 (art_expires_at p.2) ≤ default 0 (art_expires_at q.2))%Z.

#[export] Instance expires_le_dec p q : Decision (expires_le p q).
Proof. unfold expires_le. apply _. Defined.

Definition reclaimed_of (kv : (string * string) * ArtifactTableRow) : ReclaimedUpload :=
  mkReclaimedUpload kv.1.1 kv.1.2 (sa_object_key (art_artifact kv.2)) (sa_size_bytes (art_artifact kv.2)).

Section reclaim.
(** The order in which the table is visited. *)
Context (scan : gmap (string * string) ArtifactTableRow → list ((string * string) * ArtifactTableRow)).

Definition reclaim_candidates (d : Db) (now limit : Z) : list ((string * string) * ArtifactTableRow) :=
  take (Z.to_nat (Z.max limit 1))
    (merge_sort expires_le (List.filter (λ kv, upload_expired now kv.2) (scan (db_artifacts d)))).

Definition release_reclaimed (now : Z) (usage : gmap string QuotaUsage) (u : ReclaimedUpload)
    : gmap string QuotaUsage :=
  alter (λ q, set_storage q (Z.max 0 (qu_storage_bytes q - Z.max (ru_size_bytes u) 0)) now)
    (ru_organization_id u) usage.

Definition reclaim_expired_uploads (d : Db) (now limit : Z) : list ReclaimedUpload * Db :=
  let expired := reclaim_candidates d now limit in
  let uploads := map reclaimed_of expired in
  let artifacts := foldl (λ m kv, delete kv.1 m) (db_artifacts d) expired in
  let usage := foldl (release_reclaimed now) (db_usage d) uploads in
  let requests := filter (λ kv, (kv.1.1, su_artifact_id kv.2) ∉ expired.*1) (db_uploads d) in
  (uploads, set_uploads (set_usage (set_artifacts d artifacts) usage) requests).
End reclaim.

(** *** Completing a worker's output *)

(** [jsonb ? text] and [(jsonb || jsonb_build_array(text))::text] on the text
    column of output ids. *)
Class JsonbArray := {
  jsonb_has : string → string → bool;
  jsonb_append : string → string → string;
}.

Record CompleteJobOutputUpload := mkCompleteJobOutputUpload {
  co_organization_id : string;
  co_request_id : string;
  co_artifact_id : string;
  co_job_id : string;
  co_attempt : Z;
  co_session_id : string;
  co_now : Z;
}.

Definition set_outputs (j : StoredJob) (outputs : string) (updated_at : Z) : StoredJob := {|
  sj_organization_id := sj_organization_id j; sj_id := sj_id j; sj_actor_id := sj_actor_id j;
  sj_actor_kind := sj_actor_kind j; sj_actor_user_id := sj_actor_user_id j;
  sj_workflow_id := sj_workflow_id j; sj_workflow_version := sj_workflow_version j;
  sj_parameters_json := sj_parameters_json j;
  sj_input_artifact_ids_json := sj_input_artifact_ids_json j;
  sj_output_artifact_ids_json := outputs; sj_worker_id := sj_worker_id j;
  sj_worker_organization_id := sj_worker_organization_id j; sj_session_id := sj_session_id j;
  sj_attempt := sj_attempt j; sj_state := sj_state j; sj_progress := sj_progress j;
  sj_prompt_id := sj_prompt_id j; sj_error := sj_error j; sj_last_event := sj_last_event j;
  sj_created_at := sj_created_at j; sj_updated_at := updated_at |}.

Section outputs.
Context `{!JsonbArray}.

Definition append_output (outputs artifact_id : string) : string :=
  if jsonb_has outputs artifact_id then outputs else jsonb_append outputs artifact_id.

Definition append_job_output_artifact (d : Db) (organization_id job_id : string) (attempt : Z)
    (artifact_id session_id : string) (now : Z) : bool * Db :=
  match db_jobs d !! (organization_id, job_id) with
  | Some r =>
      let j := jt_job r in
      if (sj_attempt j =? attempt)%Z && sql_eq (sj_session_id j) session_id then
        (true, set_jobs d (<[(organization_id, job_id) := with_job r
           (set_outputs j (append_output (sj_output_artifact_ids_json j) artifact_id)
              (Z.max (sj_updated_at j) now))]> (db_jobs d)))
      else (false, d)
  | None => (false, d)
  end.

(** [state IN ("pending_upload","ready")] and bound to the job. *)
Definition output_open (a : StoredArtifact) (job_id : string) : bool :=
  bool_decide (sa_job_id a = Some job_id)
  && (String.eqb (sa_state a) "pending_upload" || String.eqb (sa_state a) "ready").

Definition request_matches (u : StoredUploadRequest) (input : CompleteJobOutputUpload) : bool :=
  String.eqb (su_artifact_id u) (co_artifact_id input)
  && bool_decide (su_job_id u = Some (co_job_id input))
  && bool_decide (su_attempt u = Some (co_attempt input)).

Definition complete_job_output_upload (d : Db) (input : CompleteJobOutputUpload) : bool * Db :=
  let akey := (co_organization_id input, co_artifact_id input) in
  let ukey := (co_organization_id input, co_request_id input) in
  match db_artifacts d !! akey, db_uploads d !! ukey with
  | Some r, Some u =>
      if output_open (art_artifact r) (co_job_id input) && request_matches u input then
        let '(updated, d1) := append_job_output_artifact d (co_organization_id input)
          (co_job_id input) (co_attempt input) (co_artifact_id input) (co_session_id input)
          (co_now input) in
        if updated then
          let d2 := set_artifacts d1 (<[akey := mkArtifactTableRow
            (set_stored_state (art_artifact r) "ready"
               (Z.max (sa_updated_at (art_artifact r)) (co_now input))) None]> (db_artifacts d1)) in
          (true, set_uploads d2 (<[ukey := mkStoredUploadRequest (su_organization_id u)
             (su_request_id u) (su_artifact_id u) (su_job_id u) (su_attempt u) (su_created_at u)
             (Some (default (co_now input) (su_completed_at u)))]> (db_uploads d2)))
        else (false, d)
      else (false, d)
  | _, _ => (false, d)
  end.
End outputs.

(** ** The Hub's handlers *)

(** The object store as the Hub uses it; an error is its text. *)
Class ObjectStore := {
  presign_put : string → string → Z → string → Res string PresignedRequest;
  presign_get : string → Res string PresignedRequest;
  object_head : string → Res string ObjectMetadata;
  presign_ttl_ms : Z;
}.

(** The statements of a handler that fail. *)
Record Faults := mkFaults {
  fl_persist : option StoreError;
  fl_request : option StoreError;
}.
Definition no_faults : Faults := mkFaults None None.

Definition with_artifact_map (d : HubData) artifacts : HubData :=
  mkHubData artifacts (hd_pending_uploads d) (hd_jobs d) (hd_idempotency d).
Definition with_pending (d : HubData) pending : HubData :=
  mkHubData (hd_artifacts d) pending (hd_jobs d) (hd_idempotency d).

Definition PENDING_UPLOAD_TTL_FACTOR : Z := 2.

Record CreateUploadRequest := mkCreateUploadRequest {
  cr_name : string;
  cr_content_type : string;
  cr_size_bytes : Z;
  cr_sha256 : string;
}.

Record CreateUploadResponse := mkCreateUploadResponse {
  rs_artifact : ArtifactView;
  rs_upload : PresignedRequest;
}.

Record CompleteUploadRequest := mkCompleteUploadRequest {
  cq_artifact_id : string;
  cq_size_bytes : Z;
  cq_sha256 : string;
}.

Section handlers.
Context `{!ObjectStore, !JsonbArray}.
Context (max_artifact_bytes : Z) (legacy_organization_id : string).

Definition expires_at_of (state : ArtifactState) (now : Z) : option Z :=
  match state with
  | PendingUpload => Some (now + Z.min (presign_ttl_ms * PENDING_UPLOAD_TTL_FACTOR) i64_max)%Z
  | Ready => None
  end.

Definition upsert_of (a : ArtifactRecord) (now : Z) : ArtifactUpsert :=
  let v := at_view a in
  mkArtifactUpsert (at_organization_id a) (av_id v) (av_job_id v) (av_name v) (av_content_type v)
    (av_size_bytes v) (av_sha256 v) (artifact_state_name (av_state v)) (at_object_key a) now
    (expires_at_of (av_state v) now).

Definition persist_artifact (h : Hub) (now : Z) (a : ArtifactRecord) (fault : option StoreError)
    : Res HubError Hub :=
  match hb_store h, fault with
  | None, _ => Ok h
  | Some _, Some error => Err (HubTypes.Store error)
  | Some db, None => Ok (with_store h (create_artifact db (upsert_of a now)))
  end.

(** [AppState::release_storage], whose result the callers drop. *)
Definition hub_release_storage (h : Hub) (now : Z) (organization_id : string) (bytes : Z) : Hub :=
  match hb_store h with
  | Some db => with_store h (release_storage db now organization_id bytes)
  | None => h
  end.

Definition hub_reserve_storage (h : Hub) (now : Z) (organization_id : string) (bytes : Z)
    : Res HubError Hub :=
  match hb_store h with
  | None => Ok h
  | Some db =>
      match reserve_storage db now organization_id bytes with
      | Ok db' => Ok (with_store h db')
      | Err error => Err (map_store_error error)
      end
  end.

(** What creating an upload does up to and including the stored row: reserve,
    presign, persist, with the release when a later one fails. *)
Definition stage_upload (h : Hub) (now : Z) (record : ArtifactRecord) (sha256 : string)
    (fault : option StoreError) : Res HubError PresignedRequest * Hub :=
  let v := at_view record in
  let bytes := u64_to_i64_saturating (av_size_bytes v) in
  let release h := hub_release_storage h now (at_organization_id record) bytes in
  match hub_reserve_storage h now (at_organization_id record) bytes with
  | Err error => (Err error, h)
  | Ok h1 =>
      match presign_put (at_object_key record) (av_content_type v) (av_size_bytes v) sha256 with
      | Err error => (Err (ObjectStoreError error), release h1)
      | Ok upload =>
          match persist_artifact h1 now record fault with
          | Err error => (Err error, release h1)
          | Ok h2 => (Ok upload, h2)
          end
      end
  end.

(** *** A worker's output *)

Definition owns_job (job : JobRecord) (worker_organization_id worker_id session_id : string)
    (attempt : Z) : bool :=
  String.eqb (hj_worker_organization_id job) worker_organization_id
  && String.eqb (jv_worker_id (hj_view job)) worker_id
  && String.eqb (jv_session_id (hj_view job)) session_id
  && (dj_attempt (hj_dispatch job) =? attempt)%Z.

Definition same_upload (existing : ArtifactRecord) (organization_id : string) (ready : ArtifactReady)
    : bool :=
  let v := at_view existing in
  String.eqb (at_organization_id existing) organization_id
  && bool_decide (av_job_id v = Some (ar_job_id ready))
  && (av_size_bytes v =? ar_size_bytes ready)%Z
  && String.eqb (av_content_type v) (ar_content_type ready)
  && eq_ignore_ascii_case (av_sha256 v) (ar_sha256 ready).

Definition output_record (job : JobRecord) (artifact_id : string) (ready : ArtifactReady)
    : ArtifactRecord :=
  let name := safe_filename (ar_name ready) in
  let job_id := jv_id (hj_view job) in
  mkArtifactRecord (hj_organization_id job)
    (mkArtifactView artifact_id (Some job_id) name (ar_content_type ready) (ar_size_bytes ready)
       (to_ascii_lowercase (ar_sha256 ready)) PendingUpload)
    ("organizations/" +:+ hj_organization_id job +:+ "/outputs/" +:+ job_id +:+ "/" +:+ artifact_id
     +:+ "/" +:+ name).

Definition request_of (job : JobRecord) (artifact_id : string) (ready : ArtifactReady) (now : Z)
    : UploadRequestUpsert :=
  mkUploadRequestUpsert (hj_organization_id job) (ar_request_id ready) artifact_id
    (Some (jv_id (hj_view job))) (Some (ar_attempt ready)) now.

Definition remember_upload (d : HubData) (organization_id request_id : string) (a : ArtifactRecord)
    : HubData :=
  let id := av_id (at_view a) in
  with_artifact_map
    (with_pending d (<[pending_upload_key organization_id request_id := id]> (hd_pending_uploads d)))
    (<[id := a]> (hd_artifacts d)).

(** [prepare_artifact_upload]; [uuid] is the fresh artifact id. *)
Definition prepare_artifact_upload (h : Hub) (now : Z) (uuid : string) (faults : Faults)
    (worker_organization_id worker_id session_id : string) (ready : ArtifactReady)
    : Res HubError ArtifactUpload * Hub :=
  if (ar_size_bytes ready =? 0)%Z || (max_artifact_bytes <? ar_size_bytes ready)%Z then
    (Err (InvalidRequest "output exceeds the configured size limit"), h)
  else if negb (is_sha256 (ar_sha256 ready)) || is_blank (ar_content_type ready) then
    (Err (InvalidRequest "output metadata is invalid"), h)
  else
    match hd_jobs (hb_data h) !! ar_job_id ready with
    | None => (Err (NotFound "job"), h)
    | Some job =>
        if negb (owns_job job worker_organization_id worker_id session_id (ar_attempt ready)) then
          (Err (Conflict "stale worker session"), h)
        else
          let o := hj_organization_id job in
          match hd_pending_uploads (hb_data h) !! pending_upload_key o (ar_request_id ready) with
          | Some existing_id =>
              match hd_artifacts (hb_data h) !! existing_id with
              | None => (Err (NotFound "artifact"), h)
              | Some existing =>
                  if negb (same_upload existing o ready) then
                    (Err (Conflict "upload request metadata changed on retry"), h)
                  else
                    let v := at_view existing in
                    match presign_put (at_object_key existing) (av_content_type v) (av_size_bytes v)
                            (av_sha256 v) with
                    | Err error => (Err (ObjectStoreError error), h)
                    | Ok upload => (Ok (mkArtifactUpload (ar_request_id ready) existing_id upload), h)
                    end
              end
          | None =>
              let record := output_record job uuid ready in
              match stage_upload h now record (ar_sha256 ready) (fl_persist faults) with
              | (Err error, h1) => (Err error, h1)
              | (Ok upload, h1) =>
                  let finish h2 :=
                    (Ok (mkArtifactUpload (ar_request_id ready) uuid upload),
                     with_data h2 (remember_upload (hb_data h2) o (ar_request_id ready) record)) in
                  match hb_store h1, fl_request faults with
                  | Some _, Some error =>
                      (Err (HubTypes.Store error),
                       hub_release_storage h1 now o (u64_to_i64_saturating (ar_size_bytes ready)))
                  | Some db, None => finish (with_store h1 (upsert_upload_request db (request_of job uuid ready now)))
                  | None, _ => finish h1
                  end
              end
          end
    end.

(** An artifact that is not in memory: the cache of ready artifacts, then the
    store.  [tick] is the monotonic clock of the cache. *)
Definition stored_record (stored : StoredArtifact) : Res HubError ArtifactRecord :=
  size_bytes ← ok_or (InvalidConfig "persisted artifact size is negative")
                 (u64_try_from (sa_size_bytes stored));
  state ← parse_artifact_state (sa_state stored);
  Ok (mkArtifactRecord (sa_organization_id stored)
        (mkArtifactView (sa_id stored) (sa_job_id stored) (sa_name stored) (sa_content_type stored)
           size_bytes (sa_sha256 stored) state) (sa_object_key stored)).

Definition load_artifact (h : Hub) (tick : Z) (organization_id artifact_id : string)
    : Res HubError ArtifactRecord * Hub :=
  let '(cached, cache) := cached_artifact tick (hb_read_cache h) organization_id artifact_id in
  let h := with_read_cache h cache in
  match cached with
  | Some a => (Ok a, h)
  | None =>
      match hb_store h ≫= λ db, artifact db organization_id artifact_id with
      | None => (Err (NotFound "artifact"), h)
      | Some stored =>
          match stored_record stored with
          | Err error => (Err error, h)
          | Ok record =>
              (Ok record,
               if bool_decide (av_state (at_view record) = Ready)
               then with_read_cache h (cache_artifact tick cache organization_id artifact_id record)
               else h)
          end
      end
  end.

Definition artifact_record (h : Hub) (tick : Z) (organization_id artifact_id : string)
    : Res HubError ArtifactRecord * Hub :=
  match hd_artifacts (hb_data h) !! artifact_id with
  | Some a =>
      if String.eqb (at_organization_id a) organization_id then (Ok a, h)
      else load_artifact h tick organization_id artifact_id
  | None => load_artifact h tick organization_id artifact_id
  end.

Definition with_state (a : ArtifactRecord) (state : ArtifactState) : ArtifactRecord :=
  let v := at_view a in
  mkArtifactRecord (at_organization_id a)
    (mkArtifactView (av_id v) (av_job_id v) (av_name v) (av_content_type v) (av_size_bytes v)
       (av_sha256 v) state) (at_object_key a).

(** The job after an output was added to it. *)
Definition add_output (job : JobRecord) (artifact_id : string) (attempt now : Z) : JobRecord :=
  let v := hj_view job in
  if (dj_attempt (hj_dispatch job) =? attempt)%Z
     && negb (bool_decide (artifact_id ∈ jv_output_artifact_ids v)) then
    with_view job
      (mkJobView (jv_id v) (jv_workflow_id v) (jv_workflow_version v) (jv_parameters v)
         (jv_input_artifact_ids v) (jv_output_artifact_ids v ++ [artifact_id]) (jv_worker_id v)
         (jv_session_id v) (jv_state v) (jv_progress v) (jv_prompt_id v) (jv_error v) (jv_events v)
         (jv_created_at_unix_ms v) (Z.max (jv_updated_at_unix_ms v) now)) (hj_last_event job)
  else job.

Definition finish_output (h : Hub) (now : Z) (organization_id job_id artifact_id : string)
    (uploaded : ArtifactUploaded) (artifact : ArtifactRecord) : Hub :=
  let h := with_read_cache h (invalidate_cached_artifact (hb_read_cache h) organization_id artifact_id) in
  let d := hb_data h in
  let d := with_pending d (<[pending_upload_key organization_id (ad_request_id uploaded) := artifact_id]>
                             (hd_pending_uploads d)) in
  let d := with_artifact_map d (<[artifact_id := with_state artifact Ready]> (hd_artifacts d)) in
  with_data h (set_hub_jobs d
    (alter (λ job, add_output job artifact_id (ad_attempt uploaded) now) job_id (hd_jobs d))).

Definition complete_artifact_upload (h : Hub) (now tick : Z)
    (worker_organization_id worker_id session_id : string) (uploaded : ArtifactUploaded)
    : Res HubError ArtifactUploadedAck * Hub :=
  match hd_jobs (hb_data h) !! ad_job_id uploaded with
  | None => (Err (NotFound "job"), h)
  | Some job =>
      if negb (owns_job job worker_organization_id worker_id session_id (ad_attempt uploaded)) then
        (Err (Conflict "stale worker session"), h)
      else
        let o := hj_organization_id job in
        let request_id := ad_request_id uploaded in
        match option_or (hd_pending_uploads (hb_data h) !! pending_upload_key o request_id)
                (hb_store h ≫= λ db, upload_request_artifact db o request_id) with
        | None => (Err (NotFound "upload request"), h)
        | Some artifact_id =>
            if negb (String.eqb artifact_id (ad_artifact_id uploaded)) then
              (Err (Conflict "artifact id does not match upload request"), h)
            else
              match artifact_record h tick o artifact_id with
              | (Err error, h1) => (Err error, h1)
              | (Ok a, h1) =>
                  if negb (String.eqb (at_organization_id a) o) then (Err (NotFound "artifact"), h1)
                  else
                    match av_job_id (at_view a) with
                    | None => (Err (Conflict "output artifact has no job"), h1)
                    | Some job_id =>
                        if negb (String.eqb (ad_job_id uploaded) job_id) then
                          (Err (Conflict "uploaded artifact job does not match"), h1)
                        else
                          match object_head (at_object_key a) with
                          | Err error => (Err (ObjectStoreError error), h1)
                          | Ok metadata =>
                              if negb (object_metadata_matches metadata (at_view a)) then
                                (Err (Conflict "uploaded output failed size, content type, or SHA-256 verification"), h1)
                              else
                                let ack := mkArtifactUploadedAck request_id artifact_id in
                                let finish h := (Ok ack, finish_output h now o job_id artifact_id uploaded a) in
                                match hb_store h1 with
                                | None => finish h1
                                | Some db =>
                                    let '(done, db') := complete_job_output_upload db
                                      (mkCompleteJobOutputUpload o request_id artifact_id job_id
                                         (ad_attempt uploaded) session_id now) in
                                    if done then finish (with_store h1 db')
                                    else (Err (Conflict "job changed while completing the output artifact"), h1)
                                end
                          end
                    end
              end
        end
  end.

(** *** A client's input *)

Definition input_record (organization_id artifact_id : string) (request : CreateUploadRequest)
    : ArtifactRecord :=
  mkArtifactRecord organization_id
    (mkArtifactView artifact_id None (cr_name request) (cr_content_type request)
       (cr_size_bytes request) (to_ascii_lowercase (cr_sha256 request)) PendingUpload)
    ("organizations/" +:+ organization_id +:+ "/inputs/" +:+ artifact_id +:+ "/"
     +:+ safe_filename (cr_name request)).

(** The part [create_upload] and [create_upload_for_principal] share. *)
Definition create_input (h : Hub) (now : Z) (uuid : string) (fault : option StoreError)
    (organization_id : string) (request : CreateUploadRequest)
    : Res HubError CreateUploadResponse * Hub :=
  let record := input_record organization_id uuid request in
  match stage_upload h now record (cr_sha256 request) fault with
  | (Err error, h1) => (Err error, h1)
  | (Ok upload, h1) =>
      (Ok (mkCreateUploadResponse (at_view record) upload),
       with_data h1 (with_artifact_map (hb_data h1) (<[uuid := record]> (hd_artifacts (hb_data h1)))))
  end.

Definition validate_upload (request : CreateUploadRequest) : Res HubError unit :=
  validate_artifact_metadata (cr_name request) (cr_content_type request) (cr_size_bytes request)
    (cr_sha256 request) max_artifact_bytes.

Definition create_upload_for_principal (h : Hub) (now : Z) (uuid : string) (fault : option StoreError)
    (organization_id : string) (request : CreateUploadRequest)
    : Res HubError CreateUploadResponse * Hub :=
  match validate_upload request with
  | Err error => (Err error, h)
  | Ok _ =>
      if bool_decide (hb_store h = None) then
        (Err (Unavailable "PostgreSQL control plane is not configured"), h)
      else create_input h now uuid fault organization_id request
  end.

(** [create_upload], after the caller's token was accepted. *)
Definition create_upload (h : Hub) (now : Z) (uuid : string) (fault : option StoreError)
    (request : CreateUploadRequest) : Res HubError CreateUploadResponse * Hub :=
  match validate_upload request with
  | Err error => (Err error, h)
  | Ok _ => create_input h now uuid fault legacy_organization_id request
  end.

Definition declaration_matches (metadata : ObjectMetadata) (request : CompleteUploadRequest)
    (v : ArtifactView) : bool :=
  (om_size_bytes metadata =? cq_size_bytes request)%Z && (cq_size_bytes request =? av_size_bytes v)%Z
  && eq_ignore_ascii_case (cq_sha256 request) (av_sha256 v) && object_metadata_matches metadata v.

Definition resident_artifact (h : Hub) (organization_id artifact_id : string) : option ArtifactRecord :=
  a ← hd_artifacts (hb_data h) !! artifact_id;
  if String.eqb (at_organization_id a) organization_id then Some a else None.

Definition mismatch : HubError :=
  Conflict "object size, content type, or SHA-256 does not match the upload declaration".

Definition complete_upload_for_principal (h : Hub) (now : Z) (fault : option StoreError)
    (organization_id artifact_id : string) (request : CompleteUploadRequest)
    : Res HubError ArtifactView * Hub :=
  if negb (String.eqb artifact_id (cq_artifact_id request)) then
    (Err (InvalidRequest "artifact id does not match path"), h)
  else
    match resident_artifact h organization_id artifact_id with
    | None => (Err (NotFound "artifact"), h)
    | Some a =>
        if negb (bool_decide (av_state (at_view a) = PendingUpload)) then (Ok (at_view a), h)
        else
          match object_head (at_object_key a) with
          | Err error => (Err (ObjectStoreError error), h)
          | Ok metadata =>
              if negb (declaration_matches metadata request (at_view a)) then
                let h := hub_release_storage h now organization_id
                           (u64_to_i64_saturating (av_size_bytes (at_view a))) in
                (Err mismatch,
                 with_data h (with_artifact_map (hb_data h) (delete artifact_id (hd_artifacts (hb_data h)))))
              else
                let completed := with_state a Ready in
                match persist_artifact h now completed fault with
                | Err error => (Err error, h)
                | Ok h =>
                    let h := with_read_cache h (invalidate_cached_artifact (hb_read_cache h)
                                                  (at_organization_id completed) artifact_id) in
                    (Ok (at_view completed),
                     with_data h (with_artifact_map (hb_data h)
                       (<[artifact_id := completed]> (hd_artifacts (hb_data h)))))
                end
          end
    end.

(** [complete_upload], after the caller's token was accepted. *)
Definition complete_upload (h : Hub) (now : Z) (artifact_id : string) (request : CompleteUploadRequest)
    : Res HubError ArtifactView * Hub :=
  if negb (String.eqb artifact_id (cq_artifact_id request)) then
    (Err (InvalidRequest "artifact id does not match path"), h)
  else
    match resident_artifact h legacy_organization_id artifact_id with
    | None => (Err (NotFound "artifact"), h)
    | Some a =>
        if negb (bool_decide (av_state (at_view a) = PendingUpload)) then
          (Err (Conflict "artifact is already completed"), h)
        else
          match object_head (at_object_key a) with
          | Err error => (Err (ObjectStoreError error), h)
          | Ok metadata =>
              if negb (declaration_matches metadata request (at_view a)) then (Err mismatch, h)
              else
                let h := match hb_store h with
                         | Some db => with_store h (set_artifact_state db (at_organization_id a)
                                                      artifact_id "ready" now).2
                         | None => h
                         end in
                let h := with_read_cache h (invalidate_cached_artifact (hb_read_cache h)
                                              (at_organization_id a) artifact_id) in
                (Ok (at_view (with_state a Ready)),
                 with_data h (with_artifact_map (hb_data h)
                   (<[artifact_id := with_state a Ready]> (hd_artifacts (hb_data h)))))
          end
    end.

(** *** The reaper *)

Definition UPLOAD_REAP_BATCH : Z := 200.

Section reaper.
Context (scan : gmap (string * string) ArtifactTableRow → list ((string * string) * ArtifactTableRow)).

(** One tick of [reap_expired_uploads]. *)
Definition reap_expired_uploads (h : Hub) (now : Z) : Hub :=
  match hb_store h with
  | None => h
  | Some db =>
      let '(reclaimed, db') := reclaim_expired_uploads scan db now UPLOAD_REAP_BATCH in
      let h := with_store h db' in
      with_data h (with_artifact_map (hb_data h)
        (foldl (λ m u, delete (ru_id u) m) (hd_artifacts (hb_data h)) reclaimed))
  end.
End reaper.
End handlers.

(** ** Storage accounting *)

Definition row_size (r : ArtifactTableRow) : Z := sa_size_bytes (art_artifact r).

(** The bytes an organization's artifact rows declare. *)
Definition row_bytes (o : string) (k : string * string) (r : ArtifactTableRow) : Z :=
  if bool_decide (k.1 = o) then row_size r else 0.

Definition storage_of (artifacts : gmap (string * string) ArtifactTableRow) (o : string) : Z :=
  map_fold (λ k r acc, (row_bytes o k r + acc)%Z) 0%Z artifacts.

Lemma storage_of_insert_None m o k r :
  m !! k = None → storage_of (<[k := r]> m) o = (storage_of m o + row_bytes o k r)%Z.
Proof.
  intros Hk. unfold storage_of. rewrite map_fold_insert_L; [lia| |done]. intros. lia.
Qed.

Lemma storage_of_delete m o k r :
  m !! k = Some r → storage_of (delete k m) o = (storage_of m o - row_bytes o k r)%Z.
Proof.
  intros Hk. unfold storage_of.
  rewrite (map_fold_delete_L (λ k r acc, (row_bytes o k r + acc)%Z) 0%Z k r m); [lia| |done].
  intros. lia.
Qed.

Lemma storage_of_insert m o k r :
  storage_of (<[k := r]> m) o
  = (storage_of m o - default 0 (row_bytes o k <$> m !! k) + row_bytes o k r)%Z.
Proof.
  destruct (m !! k) as [r0|] eqn:Hk; simpl.
  - rewrite <- insert_delete_eq, storage_of_insert_None by apply lookup_delete_eq.
    by rewrite (storage_of_delete _ _ _ r0).
  - rewrite storage_of_insert_None by done. lia.
Qed.

(** The counters match the rows, up to reservations [pending o] of other
    handlers that have reserved and not yet stored their row. *)
Record storage_ok (pending : string → Z) (d : Db) : Prop := {
  so_usage : ∀ o u, db_usage d !! o = Some u →
    qu_storage_bytes u = (storage_of (db_artifacts d) o + pending o)%Z;
  so_sizes : ∀ k r, db_artifacts d !! k = Some r → (0 ≤ row_size r)%Z;
}.

Definition add_pending (pending : string → Z) (o : string) (bytes : Z) : string → Z :=
  λ o', (pending o' + if bool_decide (o' = o) then bytes else 0)%Z.

Lemma storage_of_nonneg m o : (∀ k r, m !! k = Some r → 0 ≤ row_size r)%Z → (0 ≤ storage_of m o)%Z.
Proof.
  induction m as [|k r m Hk IH] using map_ind; intros Hm; [done|].
  rewrite storage_of_insert_None by done.
  assert (0 ≤ storage_of m o)%Z.
  { apply IH. intros k' r' Hk'. apply (Hm k'). apply lookup_insert_Some. right. split; [|done].
    intros ->. congruence. }
  specialize (Hm k r (lookup_insert_eq _ _ _)). unfold row_bytes. case_bool_decide; lia.
Qed.

Lemma storage_ok_ext f d d' :
  db_usage d' = db_usage d → db_artifacts d' = db_artifacts d → storage_ok f d → storage_ok f d'.
Proof. intros Hu Ha [H1 H2]. split; by rewrite ?Hu, Ha. Qed.

Lemma storage_ok_reserve f d now o bytes d' :
  storage_ok f d → reserve_storage d now o bytes = Ok d' →
  (0 ≤ bytes)%Z ∧ storage_ok (add_pending f o bytes) d'.
Proof.
  intros [H1 H2]. unfold reserve_storage. intros (q & _ & Hc)%bind_Ok.
  apply bind_Ok in Hc as (u & Hu%ok_or_Ok & Hc). apply bind_Ok_tt in Hc as [Hrej Hc].
  injection Hc as <-. apply reject_if_Ok, orb_false_iff in Hrej as [Hneg%Z.ltb_ge _].
  split; [lia|]. split; simpl; [|done]. unfold add_pending.
  intros o' u' [[<- <-]|[Hne Hu']]%lookup_insert_Some; simpl.
  - rewrite bool_decide_eq_true_2, (H1 _ _ Hu) by done. lia.
  - rewrite bool_decide_eq_false_2, (H1 _ _ Hu') by congruence. lia.
Qed.

Lemma storage_ok_release f d now o bytes :
  (0 ≤ bytes)%Z → (∀ o', 0 ≤ f o')%Z → storage_ok (add_pending f o bytes) d →
  storage_ok f (release_storage d now o bytes).
Proof.
  intros Hb Hf [H1 H2]. split; simpl; [|done].
  intros o' u [(<- & u0 & Hu0 & ->)|[Hne Hu]]%lookup_alter_Some; simpl.
  - rewrite (H1 _ _ Hu0). unfold add_pending. rewrite bool_decide_eq_true_2 by done.
    pose proof (storage_of_nonneg _ o H2). specialize (Hf o). lia.
  - rewrite (H1 _ _ Hu). unfold add_pending. rewrite bool_decide_eq_false_2 by congruence. lia.
Qed.

(** Storing a new row takes over the reservation. *)
Lemma storage_ok_create f d input :
  (0 ≤ xu_size_bytes input ≤ i64_max)%Z →
  db_artifacts d !! (xu_organization_id input, xu_id input) = None →
  storage_ok (add_pending f (xu_organization_id input) (xu_size_bytes input)) d →
  storage_ok f (create_artifact d input).
Proof.
  intros Hs Hnew [H1 H2].
  assert (Hcast : u64_as_i64 (xu_size_bytes input) = xu_size_bytes input)
    by (unfold u64_as_i64; destruct (Z.ltb_spec i64_max (xu_size_bytes input)); lia).
  split; simpl.
  - intros o u Hu. rewrite (H1 _ _ Hu), storage_of_insert_None by done.
    unfold row_bytes, row_size, add_pending. simpl. rewrite Hcast.
    destruct (decide (xu_organization_id input = o)) as [->|Hne].
    + rewrite !bool_decide_eq_true_2 by done. lia.
    + rewrite !bool_decide_eq_false_2 by congruence. lia.
  - intros k r [[<- <-]|[_ Hk]]%lookup_insert_Some; [|eauto]. unfold row_size. simpl. lia.
Qed.

(** Rewriting a row without changing its size. *)
Lemma storage_ok_rewrite f d d' k r r' :
  storage_ok f d → db_artifacts d !! k = Some r → row_size r' = row_size r →
  db_usage d' = db_usage d → db_artifacts d' = <[k := r']> (db_artifacts d) → storage_ok f d'.
Proof.
  intros [H1 H2] Hk Hs Hu Ha. split; rewrite Ha.
  - intros o u Hou. rewrite Hu in Hou. rewrite (H1 _ _ Hou), storage_of_insert, Hk. simpl.
    unfold row_bytes. rewrite Hs. lia.
  - intros k' r0 [[<- <-]|[_ Hk']]%lookup_insert_Some; [rewrite Hs|]; eauto.
Qed.

(** *** Reclaiming *)

Lemma storage_ok_reclaim_fold f now d expired : ∀ arts usage,
  (∀ o, 0 ≤ f o)%Z → NoDup expired.*1 → (∀ k r, (k, r) ∈ expired → arts !! k = Some r) →
  storage_ok f (set_usage (set_artifacts d arts) usage) →
  storage_ok f (set_usage (set_artifacts d (foldl (λ m kv, delete kv.1 m) arts expired))
                  (foldl (release_reclaimed now) usage (map reclaimed_of expired))).
Proof.
  induction expired as [|[k r] expired IH]; intros arts usage Hf Hnd Hin [H1 H2]; [done|].
  simpl in *. apply NoDup_cons in Hnd as [Hnot Hnd].
  assert (Hk : arts !! k = Some r) by (apply Hin; left).
  apply IH; [done|done| |].
  - intros k' r' Hk'. rewrite lookup_delete_ne; [apply Hin; by right|].
    intros ->. apply Hnot. apply list_elem_of_fmap. by exists (k', r').
  - split; simpl.
    + intros o u Hu. unfold release_reclaimed, reclaimed_of in Hu. simpl in Hu.
      apply lookup_alter_Some in Hu as [(<- & u0 & Hu0 & ->)|[Hne Hu]]; simpl.
      * rewrite (H1 _ _ Hu0), (storage_of_delete _ _ _ r) by done. specialize (Hf k.1).
        pose proof (storage_of_nonneg _ k.1 H2) as Hn. pose proof (H2 _ _ Hk) as Hr. simpl in *.
        assert (0 ≤ storage_of (delete k arts) k.1)%Z as Hd.
        { apply storage_of_nonneg. intros k' r' [_ Hk']%lookup_delete_Some. eauto. }
        rewrite (storage_of_delete _ _ _ r) in Hd by done. unfold row_bytes, row_size in *.
        rewrite bool_decide_eq_true_2 in * by done. lia.
      * rewrite (H1 _ _ Hu), (storage_of_delete _ _ _ r) by done. unfold row_bytes.
        rewrite bool_decide_eq_false_2 by done. lia.
    + intros k' r' [_ Hk']%lookup_delete_Some. eauto.
Qed.

Lemma foldl_delete_lookup (expired : list ((string * string) * ArtifactTableRow))
    (m : gmap (string * string) ArtifactTableRow) k :
  foldl (λ m kv, delete kv.1 m) m expired !! k = if bool_decide (k ∈ expired.*1) then None else m !! k.
Proof.
  revert m. induction expired as [|[k0 r0] expired IH]; intros m; simpl; [done|]. rewrite IH.
  destruct (decide (k = k0)) as [->|Hne].
  - rewrite lookup_delete_eq. repeat case_bool_decide; set_solver.
  - rewrite lookup_delete_ne by done. repeat case_bool_decide; set_solver.
Qed.
Section reclaim_spec.
Context (scan : gmap (string * string) ArtifactTableRow → list ((string * string) * ArtifactTableRow)).
Hypothesis scan_perm : ∀ m, scan m ≡ₚ map_to_list m.

Lemma reclaim_candidates_in d now limit k r :
  (k, r) ∈ reclaim_candidates scan d now limit →
  db_artifacts d !! k = Some r ∧ upload_expired now r = true.
Proof.
  intros Hr. unfold reclaim_candidates in Hr. apply elem_of_take in Hr as (i & Hi & _).
  apply list_elem_of_lookup_2 in Hi. rewrite merge_sort_Permutation in Hi.
  apply list_elem_of_In, filter_In in Hi as [Hi Hx]. apply list_elem_of_In in Hi.
  by rewrite scan_perm, elem_of_map_to_list in Hi.
Qed.

Lemma reclaim_candidates_nodup d now limit : NoDup (reclaim_candidates scan d now limit).*1.
Proof.
  unfold reclaim_candidates. eapply sublist_NoDup; [|apply fmap_sublist, sublist_take].
  rewrite merge_sort_Permutation. eapply sublist_NoDup; [|apply fmap_sublist, sublist_list_filter].
  rewrite scan_perm. apply NoDup_fst_map_to_list.
Qed.

Lemma storage_ok_reclaim f d now limit :
  (∀ o, 0 ≤ f o)%Z → storage_ok f d → storage_ok f (reclaim_expired_uploads scan d now limit).2.
Proof.
  intros Hf Hok. unfold reclaim_expired_uploads. simpl.
  apply (storage_ok_ext _ (set_usage (set_artifacts d
    (foldl (λ m kv, delete kv.1 m) (db_artifacts d) (reclaim_candidates scan d now limit)))
    (foldl (release_reclaimed now) (db_usage d) (map reclaimed_of (reclaim_candidates scan d now limit)))));
    [done|done|].
  apply storage_ok_reclaim_fold; [done|apply reclaim_candidates_nodup| |].
  - intros k r Hk. by apply reclaim_candidates_in in Hk as [Hk _].
  - by apply (storage_ok_ext _ d).
Qed.
End reclaim_spec.

(** *** The handlers *)

(** The store's counters match its rows, and every pending upload in memory has
    its row. *)
Record uploads_ok (f : string → Z) (h : Hub) : Prop := {
  uo_storage : ∀ db, hb_store h = Some db → storage_ok f db;
  uo_resident : ∀ db id a, hb_store h = Some db → hd_artifacts (hb_data h) !! id = Some a →
    av_state (at_view a) = PendingUpload →
    av_id (at_view a) = id
    ∧ ∃ r, db_artifacts db !! (at_organization_id a, id) = Some r
         ∧ row_size r = u64_as_i64 (av_size_bytes (at_view a));
}.

(** A fresh uuid: no row and no resident artifact has it. *)
Definition fresh_artifact (h : Hub) (uuid : string) : Prop :=
  hd_artifacts (hb_data h) !! uuid = None
  ∧ ∀ db o, hb_store h = Some db → db_artifacts db !! (o, uuid) = None.

Lemma u64_as_i64_small n : (n ≤ i64_max)%Z → u64_as_i64 n = n.
Proof. unfold u64_as_i64. destruct (Z.ltb_spec i64_max n); lia. Qed.

(** Changing only the store, without touching rows' sizes or dropping any. *)
Lemma uploads_ok_store f h db db' :
  hb_store h = Some db → uploads_ok f h → storage_ok f db' →
  (∀ k r, db_artifacts db !! k = Some r → ∃ r', db_artifacts db' !! k = Some r' ∧ row_size r' = row_size r) →
  uploads_ok f (with_store h db').
Proof.
  intros Hst [_ H2] Hok Hrows. split; simpl; [by intros ? [= <-]|].
  intros db0 id a [= <-] Ha Hp. destruct (H2 _ _ _ Hst Ha Hp) as (Hid & r & Hr & Hs).
  split; [done|]. destruct (Hrows _ _ Hr) as (r' & Hr' & Hs'). exists r'. split; [done|congruence].
Qed.

Lemma uploads_ok_cache f h c : uploads_ok f h → uploads_ok f (with_read_cache h c).
Proof. intros [H1 H2]. by split. Qed.

(** Changing only memory: every pending artifact was there, or has its row. *)
Lemma uploads_ok_data f h d :
  uploads_ok f h →
  (∀ id a, hd_artifacts d !! id = Some a → av_state (at_view a) = PendingUpload →
     hd_artifacts (hb_data h) !! id = Some a
     ∨ av_id (at_view a) = id
       ∧ ∀ db, hb_store h = Some db → ∃ r, db_artifacts db !! (at_organization_id a, id) = Some r
            ∧ row_size r = u64_as_i64 (av_size_bytes (at_view a))) →
  uploads_ok f (with_data h d).
Proof.
  intros [H1 H2] Hd. split; simpl; [done|]. intros db id a Hst Ha Hp.
  destruct (Hd _ _ Ha Hp) as [Ha'|[Hid Hr]]; eauto.
Qed.

Section handler_specs.
Context `{!ObjectStore, !JsonbArray} (max_artifact_bytes : Z) (legacy_organization_id : string).
Hypothesis max_in_range : (max_artifact_bytes ≤ i64_max)%Z.
Context (f : string → Z).
Hypothesis f_nonneg : ∀ o, (0 ≤ f o)%Z.

Lemma hub_release_ok h now o bytes db :
  hb_store h = Some db → (0 ≤ bytes)%Z → uploads_ok (add_pending f o bytes) h →
  uploads_ok f (hub_release_storage h now o bytes).
Proof.
  intros Hst Hb [H1 H2]. unfold hub_release_storage. rewrite Hst. split; simpl.
  - intros ? [= <-]. apply storage_ok_release; [done|done|eauto].
  - intros ? id a [= <-] Ha Hp. simpl. eauto.
Qed.

Lemma stage_upload_ok h now record sha fault res h1 :
  uploads_ok f h → fresh_artifact h (av_id (at_view record)) →
  (0 ≤ av_size_bytes (at_view record) ≤ i64_max)%Z →
  stage_upload h now record sha fault = (res, h1) →
  uploads_ok f h1 ∧ hb_data h1 = hb_data h
  ∧ ∀ upload db, res = Ok upload → hb_store h1 = Some db →
      ∃ r, db_artifacts db !! (at_organization_id record, av_id (at_view record)) = Some r
         ∧ row_size r = u64_as_i64 (av_size_bytes (at_view record)).
Proof.
  intros Hok [Hmem Hrow] Hs. unfold stage_upload, hub_reserve_storage.
  rewrite u64_to_i64_saturating_small by lia.
  destruct (hb_store h) as [db|] eqn:Hst.
  2: { unfold persist_artifact, hub_release_storage. rewrite Hst.
       destruct (presign_put _ _ _ _); intros [= <- <-]; (split_and!; [done..|congruence]). }
  destruct (reserve_storage db now _ _) as [db1|error] eqn:Hres; [|by intros [= <- <-]].
  destruct (storage_ok_reserve f _ _ _ _ _ (uo_storage _ _ Hok _ Hst) Hres) as [Hb Hok1].
  assert (Harts : db_artifacts db1 = db_artifacts db).
  { unfold reserve_storage in Hres. by inv_ok. }
  assert (Hpend : uploads_ok (add_pending f (at_organization_id record) (av_size_bytes (at_view record)))
                    (with_store h db1)).
  { split; simpl; [by intros ? [= <-]|]. intros ? id a [= <-] Ha Hp. rewrite Harts.
    by eapply (uo_resident _ _ Hok). }
  assert (Hrel : uploads_ok f (hub_release_storage (with_store h db1) now (at_organization_id record)
                                 (av_size_bytes (at_view record))))
    by (eapply hub_release_ok; [done|lia|done]).
  destruct (presign_put _ _ _ _) as [upload|error]; [|by intros [= <- <-]].
  unfold persist_artifact. simpl. destruct fault as [error|]; [by intros [= <- <-]|].
  intros [= <- <-]. split_and!; [|done|].
  - split; simpl.
    + intros ? [= <-]. apply storage_ok_create; simpl; [done| |done]. rewrite Harts. eauto.
    + intros ? id a [= <-] Ha Hp. simpl. destruct (uo_resident _ _ Hpend _ _ _ eq_refl Ha Hp) as (Hid & r & Hr & Hsz).
      split; [done|]. exists r. split; [|done]. rewrite lookup_insert_ne; [done|]. intros [= _ Heq]. congruence.
  - intros ? ? _ [= <-]. simpl. eexists. rewrite lookup_insert_eq. by split.
Qed.

(** Memory after a staged upload was recorded. *)
Lemma staged_resident h1 d record o :
  uploads_ok f h1 →
  (∀ db, hb_store h1 = Some db → ∃ r, db_artifacts db !! (at_organization_id record, av_id (at_view record)) = Some r
       ∧ row_size r = u64_as_i64 (av_size_bytes (at_view record))) →
  o = at_organization_id record →
  hd_artifacts d = <[av_id (at_view record) := record]> (hd_artifacts (hb_data h1)) →
  uploads_ok f (with_data h1 d).
Proof.
  intros Hok Hrow -> Hd. apply uploads_ok_data; [done|]. rewrite Hd.
  intros id a [[<- <-]|[_ Ha]]%lookup_insert_Some Hp; [right; eauto|by left].
Qed.

Lemma prepare_ok h now uuid fault o w sid ready :
  uploads_ok f h → fresh_artifact h uuid → (0 ≤ ar_size_bytes ready)%Z →
  uploads_ok f (prepare_artifact_upload max_artifact_bytes h now uuid (mkFaults fault None) o w sid ready).2.
Proof.
  intros Hok Hfresh Hsz. unfold prepare_artifact_upload.
  destruct (_ || _) eqn:Hlim; [done|]. apply orb_false_iff in Hlim as [_ Hmax%Z.ltb_ge].
  destruct (_ || _); [done|]. destruct (hd_jobs _ !! _) as [job|]; [|done].
  destruct (negb _); [done|]. destruct (hd_pending_uploads _ !! _) as [existing_id|].
  - repeat case_match; done.
  - simpl. destruct (stage_upload _ _ _ _ _) as [res h1] eqn:Hstage.
    eapply stage_upload_ok in Hstage as (Hok1 & Hdata & Hrow); [|done|done|simpl; lia].
    destruct res as [upload|error]; [|done].
    assert (Hdone : ∀ h2, uploads_ok f h2 →
      (∀ db, hb_store h2 = Some db → ∃ r, db_artifacts db !! (hj_organization_id job, uuid) = Some r
        ∧ row_size r = u64_as_i64 (ar_size_bytes ready)) →
      uploads_ok f (with_data h2 (remember_upload (hb_data h2) (hj_organization_id job)
        (ar_request_id ready) (output_record job uuid ready))))
      by (intros h2 Hok2 Hr2; by eapply (staged_resident h2 _ (output_record job uuid ready))).
    destruct (hb_store h1) as [db|] eqn:Hst; simpl.
    + apply (Hdone (with_store h1 (upsert_upload_request db (request_of job uuid ready now)))).
      * eapply uploads_ok_store; [done|done| |].
        -- apply (storage_ok_ext _ db); [| |by eapply uo_storage]; unfold upsert_upload_request; by case_match.
        -- intros k r Hk. exists r. split; [|done]. unfold upsert_upload_request. by case_match.
      * intros ? [= <-]. destruct (Hrow _ _ eq_refl eq_refl) as (r & Hr & Hs). exists r.
        split; [|done]. unfold upsert_upload_request. by case_match.
    + apply Hdone; [done|congruence].
Qed.

Lemma create_input_ok h now uuid fault o request :
  uploads_ok f h → fresh_artifact h uuid → (0 ≤ cr_size_bytes request ≤ i64_max)%Z →
  uploads_ok f (create_input h now uuid fault o request).2.
Proof.
  intros Hok Hfresh Hsz. unfold create_input.
  destruct (stage_upload _ _ _ _ _) as [res h1] eqn:Hstage.
  eapply stage_upload_ok in Hstage as (Hok1 & Hdata & Hrow); [|done|done|simpl; lia].
  destruct res as [upload|error]; [|done]. simpl.
  eapply (staged_resident h1 _ (input_record o uuid request)); [done| |done|done].
  intros db Hst. by eapply Hrow.
Qed.

Lemma validate_upload_size request :
  validate_upload max_artifact_bytes request = Ok tt → (cr_size_bytes request ≤ i64_max)%Z.
Proof.
  unfold validate_upload, validate_artifact_metadata. intros Hv. inv_ok. bool_cases.
  repeat match goal with H : (_ <? _)%Z = false |- _ => apply Z.ltb_ge in H end. lia.
Qed.

Lemma load_artifact_ok h tick o id : uploads_ok f h → uploads_ok f (artifact_record h tick o id).2.
Proof.
  intros Hok. assert (uploads_ok f (load_artifact h tick o id).2).
  { unfold load_artifact. destruct (cached_artifact _ _ _ _) as [cached cache].
    repeat case_match; simpl; by repeat apply uploads_ok_cache. }
  unfold artifact_record. by repeat case_match.
Qed.

(** A completed output keeps every row's size. *)
Lemma complete_job_output_rows d input d' :
  complete_job_output_upload d input = (true, d') →
  db_usage d' = db_usage d
  ∧ ∃ r r', db_artifacts d !! (co_organization_id input, co_artifact_id input) = Some r
      ∧ row_size r' = row_size r ∧ sa_state (art_artifact r') = "ready"
      ∧ sa_job_id (art_artifact r') = Some (co_job_id input)
      ∧ db_artifacts d' = <[(co_organization_id input, co_artifact_id input) := r']> (db_artifacts d).
Proof.
  unfold complete_job_output_upload, append_job_output_artifact.
  destruct (db_artifacts d !! _) as [r|] eqn:Hr; [|done]. destruct (db_uploads d !! _) as [u|]; [|done].
  destruct (output_open _ _ && _) eqn:Hopen; [|done]. apply andb_true_iff in Hopen as [Hopen _].
  destruct (db_jobs d !! _) as [j|]; [|done]. destruct (_ && _); [|done].
  intros [= <-]. split; [done|]. eexists r, _. split_and!; [done| |..|reflexivity]; try done.
  unfold output_open in Hopen. by bool_cases.
Qed.

Lemma complete_artifact_upload_ok h now tick o w sid uploaded :
  uploads_ok f h → uploads_ok f (complete_artifact_upload h now tick o w sid uploaded).2.
Proof.
  intros Hok. unfold complete_artifact_upload.
  destruct (hd_jobs _ !! _) as [job|]; [|done]. destruct (negb _); [done|].
  destruct (option_or _ _) as [id|]; [|done]. destruct (negb _); [done|].
  pose proof (load_artifact_ok h tick (hj_organization_id job) id Hok) as Hok1.
  destruct (artifact_record _ _ _ _) as [[a|error] h1]; [|done]. simpl in Hok1.
  destruct (negb _); [done|]. destruct (av_job_id _) as [job_id|]; [|done].
  destruct (negb _); [done|]. destruct (object_head _) as [metadata|]; [|done]. destruct (negb _); [done|].
  assert (Hfin : ∀ h2, uploads_ok f h2 →
    uploads_ok f (finish_output h2 now (hj_organization_id job) job_id id uploaded a)).
  { intros h2 Hok2. unfold finish_output. apply uploads_ok_data; [by apply uploads_ok_cache|].
    simpl. intros id' a' [[<- <-]|[_ Ha]]%lookup_insert_Some Hp; [done|by left]. }
  destruct (hb_store h1) as [db|] eqn:Hst; [|by apply Hfin].
  destruct (complete_job_output_upload _ _) as [[] db'] eqn:Hc; [|done]. apply Hfin.
  apply complete_job_output_rows in Hc as (Hu & r & r' & Hr & Hs & _ & _ & Ha).
  eapply uploads_ok_store; [done|done| |].
  - eapply storage_ok_rewrite; [by eapply uo_storage|done|done|done|done].
  - intros k r0 Hk. rewrite Ha. destruct (decide (k = (hj_organization_id job, id))) as [->|Hne].
    + exists r'. rewrite lookup_insert_eq. simpl in Hr. split; [done|congruence].
    + exists r0. by rewrite lookup_insert_ne.
Qed.

Lemma resident_artifact_Some h o id a :
  resident_artifact h o id = Some a → hd_artifacts (hb_data h) !! id = Some a ∧ at_organization_id a = o.
Proof.
  unfold resident_artifact. intros Hr. apply bind_Some in Hr as (a' & Ha & Hc).
  destruct (String.eqb_spec (at_organization_id a') o); naive_solver.
Qed.

(** A resident artifact marked ready. *)
Lemma ready_resident h id a :
  uploads_ok f h →
  uploads_ok f (with_data h
    (with_artifact_map (hb_data h) (<[id := with_state a Ready]> (hd_artifacts (hb_data h))))).
Proof.
  intros Hok. apply uploads_ok_data; [done|]. simpl.
  intros id' a' [[<- <-]|[_ Ha]]%lookup_insert_Some Hp; [done|by left].
Qed.

Local Ltac ready_tac :=
  cbn [snd]; lazymatch goal with
  | |- uploads_ok _ (with_data ?h _) => apply (ready_resident h), uploads_ok_cache
  end.

(** Rewriting a row of the store with the size it had. *)
Lemma rewrite_row_ok h db db' k r r' :
  hb_store h = Some db → uploads_ok f h → db_artifacts db !! k = Some r → row_size r' = row_size r →
  db_usage db' = db_usage db → db_artifacts db' = <[k := r']> (db_artifacts db) →
  uploads_ok f (with_store h db').
Proof.
  intros Hst Hok Hk Hs Hu Ha. eapply uploads_ok_store; [done|done| |].
  - eapply storage_ok_rewrite; [by eapply uo_storage|done..].
  - intros k' r0 Hk'. rewrite Ha. destruct (decide (k' = k)) as [->|Hne].
    + exists r'. rewrite lookup_insert_eq. split; [done|congruence].
    + exists r0. by rewrite lookup_insert_ne.
Qed.

Lemma complete_for_principal_ok h now fault o id request :
  uploads_ok f h → (complete_upload_for_principal h now fault o id request).1 ≠ Err mismatch →
  uploads_ok f (complete_upload_for_principal h now fault o id request).2.
Proof.
  intros Hok. unfold complete_upload_for_principal. destruct (negb _); [done|].
  destruct (resident_artifact _ _ _) as [a|] eqn:Ha; [|done].
  apply resident_artifact_Some in Ha as [Ha <-].
  case_bool_decide as Hp; simpl; [|done]. destruct (object_head _) as [metadata|]; [|done].
  destruct (negb _); [done|]. intros _. unfold persist_artifact.
  destruct (hb_store h) as [db|] eqn:Hst.
  - destruct fault as [error|]; [done|]. ready_tac.
    destruct (uo_resident _ _ Hok _ _ _ Hst Ha Hp) as (Hid & r & Hr & Hs).
    eapply (rewrite_row_ok h db _ (at_organization_id a, id) r); [done..| | |].
    2: done. 2: { unfold create_artifact. simpl. rewrite Hid. reflexivity. }
    unfold row_size. simpl. done.
  - by destruct fault; ready_tac.
Qed.

Lemma complete_upload_ok h now id request :
  uploads_ok f h → uploads_ok f (complete_upload legacy_organization_id h now id request).2.
Proof.
  intros Hok. unfold complete_upload. destruct (negb _); [done|].
  destruct (resident_artifact _ _ _) as [a|] eqn:Ha; [|done].
  destruct (negb _); [done|]. destruct (object_head _) as [metadata|]; [|done].
  destruct (negb _); [done|]. ready_tac.
  destruct (hb_store h) as [db|] eqn:Hst; [|done]. unfold set_artifact_state.
  destruct (db_artifacts db !! _) as [r|] eqn:Hr; simpl.
  - eapply (rewrite_row_ok h db _ _ r); [done|done|exact Hr| |reflexivity|reflexivity]. done.
  - eapply uploads_ok_store; [done|done|by eapply uo_storage|eauto].
Qed.

Section reap.
Context (scan : gmap (string * string) ArtifactTableRow → list ((string * string) * ArtifactTableRow)).
Hypothesis scan_perm : ∀ m, scan m ≡ₚ map_to_list m.

Lemma foldl_delete_id (l : list ReclaimedUpload) (m : gmap string ArtifactRecord) id a :
  foldl (λ m u, delete (ru_id u) m) m l !! id = Some a → m !! id = Some a ∧ id ∉ map ru_id l.
Proof.
  revert m. induction l as [|u l IH]; intros m; simpl; [set_solver|].
  intros [[Hne Ha]%lookup_delete_Some Hnot]%IH. set_solver.
Qed.

Lemma reap_ok h now : uploads_ok f h → uploads_ok f (reap_expired_uploads scan h now).
Proof.
  intros Hok. unfold reap_expired_uploads. destruct (hb_store h) as [db|] eqn:Hst; [|done].
  destruct (reclaim_expired_uploads scan db now UPLOAD_REAP_BATCH) as [reclaimed db'] eqn:Hr.
  pose proof (storage_ok_reclaim scan scan_perm f db now UPLOAD_REAP_BATCH f_nonneg (uo_storage _ _ Hok _ Hst)) as Hs.
  rewrite Hr in Hs. simpl in Hs. unfold reclaim_expired_uploads in Hr. injection Hr as <- <-.
  split; simpl; [by intros ? [= <-]|]. intros ? id a [= <-] [Ha Hnot]%foldl_delete_id Hp. simpl.
  destruct (uo_resident _ _ Hok _ _ _ Hst Ha Hp) as (Hid & r & Hrow & Hsz). split; [done|].
  exists r. split; [|done]. rewrite foldl_delete_lookup. rewrite bool_decide_eq_false_2; [done|].
  intros Hin. apply Hnot. apply list_elem_of_fmap in Hin as ([k r'] & Heq & Hin).
  simpl in Heq. subst k.
  apply list_elem_of_In, in_map_iff. exists (reclaimed_of (at_organization_id a, id, r')). split; [done|].
  apply in_map_iff. exists (at_organization_id a, id, r'). split; [done|]. by apply list_elem_of_In.
Qed.

(** The operations on uploads.  A completion that finds the uploaded object
    different from its declaration is left out here. *)
Inductive upload_step (h : Hub) : Hub → Prop :=
| up_prepare now uuid fault o w sid ready :
    fresh_artifact h uuid → (0 ≤ ar_size_bytes ready)%Z →
    upload_step h
      (prepare_artifact_upload max_artifact_bytes h now uuid (mkFaults fault None) o w sid ready).2
| up_complete_output now tick o w sid uploaded :
    upload_step h (complete_artifact_upload h now tick o w sid uploaded).2
| up_create now uuid fault o request :
    fresh_artifact h uuid → (0 ≤ cr_size_bytes request)%Z →
    upload_step h (create_upload_for_principal max_artifact_bytes h now uuid fault o request).2
| up_create_legacy now uuid fault request :
    fresh_artifact h uuid → (0 ≤ cr_size_bytes request)%Z →
    upload_step h (create_upload max_artifact_bytes legacy_organization_id h now uuid fault request).2
| up_complete now fault o id request :
    (complete_upload_for_principal h now fault o id request).1 ≠ Err mismatch →
    upload_step h (complete_upload_for_principal h now fault o id request).2
| up_complete_legacy now id request :
    upload_step h (complete_upload legacy_organization_id h now id request).2
| up_reap now : upload_step h (reap_expired_uploads scan h now).

Lemma upload_step_ok h h' : upload_step h h' → uploads_ok f h → uploads_ok f h'.
Proof.
  intros Hs Hok. destruct Hs.
  - by apply prepare_ok.
  - by apply complete_artifact_upload_ok.
  - unfold create_upload_for_principal. destruct (validate_upload _ _) as [[]|] eqn:Hv; [|done].
    apply validate_upload_size in Hv. case_bool_decide; [done|]. by apply create_input_ok.
  - unfold create_upload. destruct (validate_upload _ _) as [[]|] eqn:Hv; [|done].
    apply validate_upload_size in Hv. by apply create_input_ok.
  - by apply complete_for_principal_ok.
  - by apply complete_upload_ok.
  - by apply reap_ok.
Qed.

End reap.
End handler_specs.

(** ** Outputs *)

(** [jsonb || array] contains what was appended. *)
Class JsonbArrayLaws `{!JsonbArray} : Prop :=
  jsonb_has_append outputs id : jsonb_has (jsonb_append outputs id) id = true.

Lemma append_output_has `{!JsonbArray, !JsonbArrayLaws} outputs id :
  jsonb_has (append_output outputs id) id = true.
Proof. unfold append_output. destruct (jsonb_has outputs id) eqn:Hin; [done|apply jsonb_has_append]. Qed.

(** What the transaction leaves when it succeeds. *)
Lemma complete_job_output_done `{!JsonbArray, !JsonbArrayLaws} d input d' :
  complete_job_output_upload d input = (true, d') →
  ∃ r j, db_artifacts d' !! (co_organization_id input, co_artifact_id input) = Some r
    ∧ sa_state (art_artifact r) = "ready" ∧ sa_job_id (art_artifact r) = Some (co_job_id input)
    ∧ art_expires_at r = None
    ∧ job d' (co_organization_id input) (co_job_id input) = Some j
    ∧ jsonb_has (sj_output_artifact_ids_json j) (co_artifact_id input) = true.
Proof.
  unfold complete_job_output_upload, append_job_output_artifact.
  destruct (db_artifacts d !! _) as [r|] eqn:Hr; [|done]. destruct (db_uploads d !! _) as [u|]; [|done].
  destruct (output_open _ _ && _) eqn:Hopen; [|done]. apply andb_true_iff in Hopen as [Hopen _].
  destruct (db_jobs d !! _) as [j|]; [|done]. destruct (_ && _); [|done].
  intros [= <-]. unfold job. simpl. rewrite !lookup_insert_eq. eexists _, _. split_and!; try done.
  - unfold output_open in Hopen. by bool_cases.
  - apply append_output_has.
Qed.

(** The object a Hub accepted for an artifact matches its declaration. *)
Definition object_verified `{!ObjectStore} (a : ArtifactRecord) : Prop :=
  ∃ metadata, object_head (at_object_key a) = Ok metadata
    ∧ om_size_bytes metadata = av_size_bytes (at_view a)
    ∧ om_content_type metadata = Some (av_content_type (at_view a)).

Lemma object_metadata_verified `{!ObjectStore} a metadata :
  object_head (at_object_key a) = Ok metadata → object_metadata_matches metadata (at_view a) = true →
  object_verified a.
Proof.
  intros Hh Hm. exists metadata. unfold object_metadata_matches in Hm. bool_cases.
  split_and!; [done|by apply Z.eqb_eq|done].
Qed.


(** A retried upload request is served once: after an upload was prepared,
    the same request leaves the Hub as it is and, if the object store signs
    again, answers with the same artifact; the bytes are not charged again. *)
Theorem upload_retry_same_artifact `{!ObjectStore} max h now uuid faults o w sid ready upload h' now2 uuid2 faults2 :
  (∀ job, hd_jobs (hb_data h) !! ar_job_id ready = Some job → jv_id (hj_view job) = ar_job_id ready) →
  hd_pending_uploads (hb_data h) !! pending_upload_key
    (default "" (hj_organization_id <$> hd_jobs (hb_data h) !! ar_job_id ready)) (ar_request_id ready) = None →
  prepare_artifact_upload max h now uuid faults o w sid ready = (Ok upload, h') →
  au_artifact_id upload = uuid
  ∧ (prepare_artifact_upload max h' now2 uuid2 faults2 o w sid ready).2 = h'
  ∧ ∀ upload2, (prepare_artifact_upload max h' now2 uuid2 faults2 o w sid ready).1 = Ok upload2 →
      au_artifact_id upload2 = uuid ∧ au_request_id upload2 = ar_request_id ready.
Proof.
  intros Hid Hnone. unfold prepare_artifact_upload.
  destruct (_ || _); [done|]. destruct (_ || _); [done|].
  destruct (hd_jobs _ !! _) as [job|] eqn:Hjob; [|done]. simpl in Hnone.
  destruct (owns_job _ _ _ _ _) eqn:Hown; simpl; [|done]. rewrite Hnone.
  destruct (stage_upload _ _ _ _ _) as [[up|error] h1] eqn:Hstage; [|done].
  assert (Hdata : hb_data h1 = hb_data h).
  { revert Hstage. unfold stage_upload, hub_reserve_storage, persist_artifact, hub_release_storage.
    intros. repeat case_match; simplify_eq; done. }
  intros Hfin.
  assert (au_artifact_id upload = uuid
    ∧ hb_data h' = remember_upload (hb_data h) (hj_organization_id job) (ar_request_id ready) (output_record job uuid ready))
    as [Hup Hd'].
  { repeat case_match; simplify_eq; simpl; by rewrite ?Hdata. }
  split; [done|]. rewrite Hd'. simpl. rewrite Hjob, Hown. simpl. rewrite !lookup_insert_eq.
  assert (same_upload (output_record job uuid ready) (hj_organization_id job) ready = true) as ->.
  { unfold same_upload, eq_ignore_ascii_case. simpl. rewrite (Hid _ eq_refl), String.eqb_refl, Z.eqb_refl, String.eqb_refl.
    rewrite bool_decide_eq_true_2 by done. rewrite to_ascii_lowercase_idemp. by rewrite String.eqb_refl. }
  simpl. destruct (presign_put _ _ _ _); simpl; split; try done. intros ? [= <-]. done.
Qed.

(** ** Witnesses *)
Module ArtifactExample.
Definition sha : string := "aaaaaaaaaaaaaaaaaaaaaaaaaaaaaaaaaaaaaaaaaaaaaaaaaaaaaaaaaaaaaaaa".
#[global] Instance objects : ObjectStore := {
  presign_put key _ _ _ := Ok (mkPresignedRequest "PUT" key ∅ 0);
  presign_get key := Ok (mkPresignedRequest "GET" key ∅ 0);
  object_head _ := Ok (mkObjectMetadata 10 (Some "image/png") (Some sha));
  presign_ttl_ms := 1000;
}.
(** Ids, each followed by a comma, stand for the arrays. *)
#[global] Instance jsonb : JsonbArray := {
  jsonb_has outputs id := contains (id +:+ ",") outputs;
  jsonb_append outputs id := (id +:+ ",") +:+ outputs;
}.
#[global] Instance jsonb_laws : JsonbArrayLaws.
Proof.
  intros outputs id. simpl. assert (starts_with (id +:+ ",") ((id +:+ ",") +:+ outputs) = true) as Hp
    by (apply prefix_app; by exists outputs).
  unfold starts_with in Hp.
  destruct ((id +:+ ",") +:+ outputs); unfold contains; fold contains; by rewrite Hp.
Qed.

Definition scan (m : gmap (string * string) ArtifactTableRow) := map_to_list m.

(** "acme" may store 100 bytes and has stored none; its job runs on "gpu". *)
Definition db : Db :=
  mkDb {[ ("acme", "j1") := mkJobTableRow (HubExample.row "acme") None None None ]} ∅ ∅ ∅
    {[ "acme" := mkQuotaPolicy 1 100 10 60 10 0 ]} {[ "acme" := mkQuotaUsage 1 0 1 0 0 ]} ∅ ∅ ∅ ∅ ∅ ∅ ∅ ∅.
Definition hub : Hub :=
  mkHub (mkHubData ∅ ∅ {[ "j1" := HubExample.record "acme" ]} ∅) SessionExample.registry
    ReadCache_default (Some db).
Definition request : CreateUploadRequest := mkCreateUploadRequest "cat.png" "image/png" 10 sha.
Definition ready : ArtifactReady := mkArtifactReady "r1" "j1" 1 "out.png" "image/png" 10 sha.
Definition uploaded : ArtifactUploaded := mkArtifactUploaded "r1" "a1" "j1" 1.
Definition prepare (h : Hub) (uuid : string) := prepare_artifact_upload 50 h 1000 uuid no_faults "acme" "gpu" "s1" ready.
Definition prepared : Hub := (prepare hub "a1").2.
Definition completed : Hub := (complete_artifact_upload prepared 1500 0 "acme" "gpu" "s1" uploaded).2.
Definition create (h : Hub) (uuid : string) : Hub :=
  (create_upload_for_principal 50 h 1000 uuid None "acme" request).2.
Definition complete (h : Hub) (id : string) (size : Z) : Hub :=
  (complete_upload_for_principal h 1500 None "acme" id (mkCompleteUploadRequest id size sha)).2.

(** The storage counter of "acme", and the bytes of its rows. *)
Definition counter (h : Hub) : option Z :=
  db ← hb_store h; qu_storage_bytes <$> db_usage db !! "acme".
Definition bytes (h : Hub) : option Z := (λ db, storage_of (db_artifacts db) "acme") <$> hb_store h.

Lemma hub_ok : uploads_ok (λ _, 0%Z) hub.
Proof.
  split.
  - intros ? [= <-]. split; simpl.
    + intros o u. rewrite lookup_singleton_Some. by intros [<- <-].
    + intros k r. by rewrite lookup_empty.
  - intros ? id a _. simpl. by rewrite lookup_empty.
Qed.

Lemma hub_fresh uuid : fresh_artifact hub uuid.
Proof. split; [done|]. by intros ? o [= <-]. Qed.
End ArtifactExample.

(** A rejected completion gives its bytes back twice: two inputs of ten
    bytes are created and the second is completed; completing the first with a
    wrong size releases its ten bytes but leaves its row pending, so the reaper
    releases them again, and the counter is zero while ten bytes are stored.
    Completed as declared, both inputs stay charged. *)
Theorem rejected_completion_released_twice :
  let created := ArtifactExample.create (ArtifactExample.create ArtifactExample.hub "a1") "a2" in
  let stored := ArtifactExample.complete created "a2" 10 in
  let after (size : Z) := reap_expired_uploads ArtifactExample.scan (ArtifactExample.complete stored "a1" size) 9000 in
  ArtifactExample.counter stored = Some 20%Z
  ∧ (ArtifactExample.counter (after 11%Z) = Some 0%Z ∧ ArtifactExample.bytes (after 11%Z) = Some 10%Z)
  ∧ (ArtifactExample.counter (after 10%Z) = Some 20%Z ∧ ArtifactExample.bytes (after 10%Z) = Some 20%Z).
Proof. split_and!; vm_compute; reflexivity. Qed.



Lemma upload_retry_same_artifact_witness :
  (ArtifactExample.prepare ArtifactExample.prepared "a2").2 = ArtifactExample.prepared.
Proof.
  apply (upload_retry_same_artifact 50 ArtifactExample.hub 1000 "a1" no_faults "acme" "gpu" "s1"
    ArtifactExample.ready (mkArtifactUpload "r1" "a1" (mkPresignedRequest "PUT"
      "organizations/acme/outputs/j1/a1/out.png" ∅ 0)) ArtifactExample.prepared 1000 "a2" no_faults).
  - intros job. vm_compute. by intros [= <-].
  - vm_compute. reflexivity.
  - vm_compute. reflexivity.
Defined.
