(* ===== verification/Batches.v ===== *)
(** Batches and the scheduler ([nagisalake-hub-store/src/batches.rs] and
    [nagisalake-hub/src/hub/scheduler.rs]).

    A batch is admitted in one transaction that inserts its child jobs in state
    ['queued'], a row of the dispatch queue for each, and charges the quota for
    all of them.  The scheduler leases the oldest available queue row, reserves
    capacity on the batch's device and binds the job to its session, which
    creates the outbox row and removes the queue row.

    The links of [job_input_artifacts] are written and never read; only their
    foreign key is modelled.

    Main results: a batch is admitted whole and within every quota limit; the
    active-job counter stays exact with batches, bindings and cancellations
    among the transactions; a queue row belongs to a queued job as long as the
    quota reconciliation does not run, which is shown to break it; a leased
    queue row is not leased again before the lease ends; the scheduler binds a
    job to the device its batch names and to no other, and holds capacity only
    for a job it bound. *)

From S2P Require Import Prelude Text Json Messages Core HubTypes Helpers TtlCache HubState Sessions Store HubJobs.
From Stdlib Require Import ZArith Lia.

(** ** Admission *)

Record BatchInsert := mkBatchInsert {
  bi_batch_id : string;
  bi_organization_id : string;
  bi_actor_id : string;
  bi_actor_kind : string;
  bi_actor_user_id : option string;
  bi_workflow_id : string;
  bi_workflow_version : string;
  bi_workflow_content_digest : option string;
  bi_base_parameters_json : string;
  bi_variation_spec_json : string;
  bi_device_organization_id : option string;
  bi_device_id : option string;
  bi_total_jobs : Z;
  bi_retry_of_batch_id : option string;
}.

Record BatchChildJob := mkBatchChildJob {
  bc_job_id : string;
  bc_batch_index : Z;
  bc_client_item_id : option string;
  bc_parameters_json : string;
  bc_input_artifact_ids : list string;
}.

Record BatchIdempotencyInsert := mkBatchIdempotencyInsert {
  bk_organization_id : string;
  bk_actor_kind : string;
  bk_actor_id : string;
  bk_endpoint : string;
  bk_key : string;
  bk_request_hash : string;
  bk_batch_id : string;
}.

Inductive CommitBatchResult := BatchCreated | BatchExisting (batch_id : string).

Definition no_rows : StoreError :=
  Database "no rows returned by a query that expected to return at least one row".
Definition unique_violation : StoreError := Database "duplicate key value violates unique constraint".

Definition batch_key (i : BatchIdempotencyInsert) : IdempotencyKey :=
  (bk_organization_id i, bk_actor_kind i, bk_actor_id i, bk_endpoint i, bk_key i).

Definition existing_batch (d : Db) (i : option BatchIdempotencyInsert) : Res StoreError (option string) :=
  match i with
  | None => Ok None
  | Some i =>
      match db_batch_idempotency d !! batch_key i with
      | None => Ok None
      | Some (request_hash, batch_id) =>
          if String.eqb request_hash (bk_request_hash i) then Ok (Some batch_id)
          else Err (StConflict "idempotency key conflict: request hash mismatch")
      end
  end.

Definition check_shared_input (d : Db) (organization_id artifact_id : string) : Res StoreError unit :=
  reject_if (negb (is_some_and (λ r, String.eqb (sa_state (art_artifact r)) "ready")
                     (db_artifacts d !! (organization_id, artifact_id))))
    (StConflict ("shared input artifact " +:+ artifact_id +:+ " is not ready or not found")).

Definition batch_row (b : BatchInsert) (now : Z) : StoredJobBatch :=
  mkStoredJobBatch (bi_batch_id b) (bi_organization_id b) (bi_actor_id b) (bi_actor_kind b)
    (bi_actor_user_id b) (bi_workflow_id b) (bi_workflow_version b) (bi_workflow_content_digest b)
    (bi_base_parameters_json b) (bi_variation_spec_json b) (bi_device_organization_id b)
    (bi_device_id b) (bi_total_jobs b) (bi_retry_of_batch_id b) None now now.

Section admission.
(** [serde_json::to_string] of the ids, and [from_str] of a rule list. *)
Context (to_string_ids : list string → string)
        (parse_rules : string → Res string (list DeviceWorkflowRule)).

Definition child_job (b : BatchInsert) (c : BatchChildJob) (now : Z) : StoredJob := {|
  sj_organization_id := bi_organization_id b; sj_id := bc_job_id c; sj_actor_id := bi_actor_id b;
  sj_actor_kind := bi_actor_kind b; sj_actor_user_id := bi_actor_user_id b;
  sj_workflow_id := bi_workflow_id b; sj_workflow_version := bi_workflow_version b;
  sj_parameters_json := bc_parameters_json c;
  sj_input_artifact_ids_json := to_string_ids (bc_input_artifact_ids c);
  sj_output_artifact_ids_json := "[]"; sj_worker_id := None; sj_worker_organization_id := None;
  sj_session_id := None; sj_attempt := 1; sj_state := "queued"; sj_progress := None;
  sj_prompt_id := None; sj_error := None; sj_last_event := 0; sj_created_at := now;
  sj_updated_at := now |}.

Definition child_row (b : BatchInsert) (c : BatchChildJob) (now : Z) : JobTableRow :=
  mkJobTableRow (child_job b c now) (Some (bi_batch_id b)) (Some (bc_batch_index c))
    (bc_client_item_id c).

Definition insert_child (b : BatchInsert) (now : Z) (d : Db) (c : BatchChildJob) : Res StoreError Db :=
  let key := (bi_organization_id b, bc_job_id c) in
  reject_if (bool_decide (is_Some (db_jobs d !! key))) unique_violation ;;
  reject_if (negb (forallb (λ a, bool_decide (is_Some (db_artifacts d !! (bi_organization_id b, a))))
                     (bc_input_artifact_ids c)))
    (Database "insert violates foreign key constraint") ;;
  reject_if (bool_decide (is_Some (db_queue d !! key))) unique_violation ;;
  Ok (set_queue (set_jobs d (<[key := child_row b c now]> (db_jobs d)))
        (<[key := mkQueueRow now 0 now None None]> (db_queue d))).

(** [UPDATE quota_usage SET active_jobs=active_jobs+n,..]. *)
Definition charge_batch (quota : QuotaPolicy) (u : QuotaUsage) (n now : Z) : QuotaUsage :=
  let expired := (i64_saturating_mul (qp_period_seconds quota) 1000
                  <=? i64_saturating_sub now (qu_period_started_at u))%Z in
  mkQuotaUsage (qu_active_jobs u + n) (qu_storage_bytes u) (period_jobs_at quota u now + n)
    (if expired then now else qu_period_started_at u) now.

Definition commit_new_batch (d : Db) (batch : BatchInsert) (children : list BatchChildJob)
    (shared_input_artifact_ids : list string) (idempotency : option BatchIdempotencyInsert)
    (device_admission : option DeviceUseAdmission) (now : Z) : Res StoreError (CommitBatchResult * Db) :=
  let o := bi_organization_id batch in
  existing ← existing_batch d idempotency;
  match existing with
  | Some batch_id => Ok (BatchExisting batch_id, d)
  | None =>
      policy ← ok_or no_rows (db_policies d !! o);
      usage ← ok_or no_rows (db_usage d !! o);
      match device_admission with
      | Some a => enforce_device_use_policy_tx parse_rules d a
      | None => Ok tt
      end ;;
      let n := bi_total_jobs batch in
      reject_if (qp_max_batch_jobs policy <? n)%Z (StQuotaExceeded "batch_limit") ;;
      reject_if (qp_max_concurrent_jobs policy <? qu_active_jobs usage + n)%Z
        (StQuotaExceeded "inflight_limit") ;;
      reject_if (qp_max_jobs_per_period policy <? period_jobs_at policy usage now + n)%Z
        (StQuotaExceeded "period_limit") ;;
      _ ← try_map (check_shared_input d o) shared_input_artifact_ids;
      reject_if (negb (size (filter (λ kv, kv.1.2 = bi_batch_id batch) (db_batches d)) =? 0))
        unique_violation ;;
      let d1 := set_batches d (<[(o, bi_batch_id batch) := batch_row batch now]> (db_batches d)) in
      d2 ← try_fold (insert_child batch now) d1 children;
      let d3 := set_usage d2 (<[o := charge_batch policy usage n now]> (db_usage d2)) in
      Ok (BatchCreated,
        match idempotency with
        | Some i => set_batch_idempotency d3
            (<[batch_key i := (bk_request_hash i, bk_batch_id i)]> (db_batch_idempotency d3))
        | None => d3
        end)
  end.
End admission.

Definition job_batch (d : Db) (organization_id batch_id : string) : option StoredJobBatch :=
  db_batches d !! (organization_id, batch_id).

(** ** The dispatch queue *)
Section queue.
(** The order in which the table is visited. *)
Context (scan : gmap (string * string) QueueRow → list ((string * string) * QueueRow)).

Definition queue_ready (now : Z) (r : QueueRow) : bool :=
  (qr_available_at r <=? now)%Z
  && match qr_lease_until r with None => true | Some l => (l <? now)%Z end.

(** ORDER BY available_at, priority DESC, created_at (then the key). *)
Definition queue_le (p q : (string * string) * QueueRow) : Prop :=
  (qr_available_at p.2 < qr_available_at q.2
   ∨ qr_available_at p.2 = qr_available_at q.2
     ∧ (qr_priority q.2 < qr_priority p.2
        ∨ qr_priority p.2 = qr_priority q.2 ∧ qr_created_at p.2 ≤ qr_created_at q.2))%Z.

#[export] Instance queue_le_dec p q : Decision (queue_le p q).
Proof. unfold queue_le. apply _. Defined.

Definition claim_dispatch_queue_job (d : Db) (lease_owner : string) (lease_seconds now : Z)
    : option (string * string) * Db :=
  let lease_until := i64_saturating_add now (i64_saturating_mul (Z.max lease_seconds 0) 1000) in
  match head (merge_sort queue_le (List.filter (λ kv, queue_ready now kv.2) (scan (db_queue d)))) with
  | None => (None, d)
  | Some (key, _) =>
      (Some key, set_queue d (alter (λ r, mkQueueRow (qr_available_at r) (qr_priority r)
         (qr_created_at r) (Some lease_owner) (Some lease_until)) key (db_queue d)))
  end.
End queue.

Definition remove_from_dispatch_queue (d : Db) (organization_id job_id : string) : Db :=
  set_queue d (delete (organization_id, job_id) (db_queue d)).

Definition bind_job (j : StoredJob) (worker_organization_id worker_id session_id : string) (now : Z)
    : StoredJob := {|
  sj_organization_id := sj_organization_id j; sj_id := sj_id j; sj_actor_id := sj_actor_id j;
  sj_actor_kind := sj_actor_kind j; sj_actor_user_id := sj_actor_user_id j;
  sj_workflow_id := sj_workflow_id j; sj_workflow_version := sj_workflow_version j;
  sj_parameters_json := sj_parameters_json j;
  sj_input_artifact_ids_json := sj_input_artifact_ids_json j;
  sj_output_artifact_ids_json := sj_output_artifact_ids_json j; sj_worker_id := Some worker_id;
  sj_worker_organization_id := Some worker_organization_id; sj_session_id := Some session_id;
  sj_attempt := sj_attempt j; sj_state := "received"; sj_progress := sj_progress j;
  sj_prompt_id := sj_prompt_id j; sj_error := sj_error j; sj_last_event := sj_last_event j;
  sj_created_at := sj_created_at j; sj_updated_at := now |}.

Definition bind_queued_job (d : Db) (organization_id job_id worker_organization_id worker_id
    session_id : string) (now : Z) : bool * Db :=
  let key := (organization_id, job_id) in
  match db_jobs d !! key with
  | Some r =>
      if String.eqb (row_state r) "queued" then
        let okey := (organization_id, job_id, sj_attempt (jt_job r)) in
        let d1 := set_jobs d (<[key := with_job r
          (bind_job (jt_job r) worker_organization_id worker_id session_id now)]> (db_jobs d)) in
        let d2 := match db_outbox d !! okey with
                  | Some _ => d1
                  | None => set_outbox d1 (<[okey := mkOutboxRow "pending" 0 now None None]> (db_outbox d1))
                  end in
        (true, remove_from_dispatch_queue d2 organization_id job_id)
      else (false, d)
  | None => (false, d)
  end.

Definition cancel_queued_job (d : Db) (organization_id job_id : string) (now : Z) : bool * Db :=
  let key := (organization_id, job_id) in
  match db_jobs d !! key with
  | Some r =>
      if String.eqb (row_state r) "queued" then
        let d1 := set_jobs d (<[key := with_job r (Store.set_state (jt_job r) "cancelled"
          (Some "cancelled before worker dispatch") now)]> (db_jobs d)) in
        (true, release_job_for_terminal_tx (remove_from_dispatch_queue d1 organization_id job_id)
                 organization_id job_id now)
      else (false, d)
  | None => (false, d)
  end.

(** Workflow, version, target device and attempt of a queued batch child. *)
Definition queued_job_info (d : Db) (organization_id job_id : string)
    : option (string * string * string * string * Z) :=
  r ← db_jobs d !! (organization_id, job_id);
  b ← jt_batch_id r;
  batch ← db_batches d !! (organization_id, b);
  device_organization ← sb_device_organization_id batch;
  device ← sb_device_id batch;
  if String.eqb (row_state r) "queued" then
    Some (sj_workflow_id (jt_job r), sj_workflow_version (jt_job r), device_organization, device,
          sj_attempt (jt_job r))
  else None.

(** State counts of a batch's children. *)
Definition batch_count (d : Db) (organization_id batch_id state : string) : Z :=
  Z.of_nat (size (filter (λ kv, kv.1.1 = organization_id ∧ jt_batch_id kv.2 = Some batch_id
                               ∧ row_state kv.2 = state) (db_jobs d))).

Record BatchJobCounts := mkBatchJobCounts {
  ct_queued : Z;
  ct_received : Z;
  ct_accepted : Z;
  ct_running : Z;
  ct_uploading : Z;
  ct_completed : Z;
  ct_failed : Z;
  ct_cancelled : Z;
}.

Definition batch_job_counts (d : Db) (organization_id batch_id : string) : BatchJobCounts :=
  let count := batch_count d organization_id batch_id in
  mkBatchJobCounts (count "queued") (count "received") (count "accepted") (count "running")
    (count "uploading") (count "completed") (count "failed") (count "cancelled").

(** ** The scheduler *)

(** [format!("dispatch:{job_id}:{attempt}")]. *)
Definition dispatch_command_id (job_id : string) (attempt : Z) : string :=
  "dispatch:" +:+ job_id +:+ ":" +:+ pretty attempt.

Definition SCHEDULER_LEASE_SECONDS : Z := 30.

Definition offers_workflow (workflow_id workflow_version : string) (w : WorkerView) : bool :=
  existsb (λ wf, String.eqb (wc_id wf) workflow_id && String.eqb (wc_version wf) workflow_version)
    (cap_workflows (vw_capabilities w)).

(** [dispatch_queued_job] on the registry and the store. *)
Definition dispatch_queued_job (r : SessionRegistry) (d : Db) (organization_id job_id : string) (now : Z)
    : Res HubError (SessionRegistry * Db) :=
  match queued_job_info d organization_id job_id with
  | None => Ok (r, d)
  | Some (workflow_id, workflow_version, target_org, target_device, attempt) =>
      attempt ← ok_or (InvalidConfig "persisted dispatch attempt is invalid") (u32_try_from attempt);
      let command_id := dispatch_command_id job_id attempt in
      let '(selected, r1) := reserve_capacity_on r target_org target_device command_id
                               (offers_workflow workflow_id workflow_version) in
      match selected with
      | None => Ok (r1, d)
      | Some w =>
          let '(bound, d1) := bind_queued_job d organization_id job_id (vw_organization_id w)
                                (vw_worker_id w) (vw_session_id w) now in
          if bound then Ok (r1, d1)
          else Ok (release_capacity_reservation r1 (vw_organization_id w) (vw_worker_id w)
                     (vw_session_id w) command_id, d)
      end
  end.

(** [schedule_pass]: at most 32 claims; a failed dispatch is logged. *)
Fixpoint schedule_loop (scan : gmap (string * string) QueueRow → list ((string * string) * QueueRow))
    (n : nat) (r : SessionRegistry) (d : Db) (now : Z) : SessionRegistry * Db :=
  match n with
  | 0 => (r, d)
  | S n =>
      match claim_dispatch_queue_job scan d "hub-scheduler" SCHEDULER_LEASE_SECONDS now with
      | (None, d1) => (r, d1)
      | (Some (o, j), d1) =>
          match dispatch_queued_job r d1 o j now with
          | Ok (r2, d2) => schedule_loop scan n r2 d2 now
          | Err _ => schedule_loop scan n r d1 now
          end
      end
  end.

Definition schedule_pass scan r d now := schedule_loop scan 32 r d now.

(** ** What admission leaves *)

(** The database after some children of a batch were inserted into [d0]. *)
Record children_inserted to_string_ids (b : BatchInsert) (now : Z) (d0 : Db) (cs : list BatchChildJob)
    (d : Db) : Prop := {
  ci_child : ∀ c, c ∈ cs →
    db_jobs d0 !! (bi_organization_id b, bc_job_id c) = None
    ∧ db_jobs d !! (bi_organization_id b, bc_job_id c) = Some (child_row to_string_ids b c now)
    ∧ db_queue d !! (bi_organization_id b, bc_job_id c) = Some (mkQueueRow now 0 now None None);
  ci_other : ∀ k, (∀ c, c ∈ cs → k ≠ (bi_organization_id b, bc_job_id c)) →
    db_jobs d !! k = db_jobs d0 !! k ∧ db_queue d !! k = db_queue d0 !! k;
  ci_count : ∀ o, unfinished_count (db_jobs d) o
    = (unfinished_count (db_jobs d0) o
       + if bool_decide (bi_organization_id b = o) then Z.of_nat (length cs) else 0)%Z;
  ci_frame : db_usage d = db_usage d0 ∧ db_releases d = db_releases d0 ∧ db_policies d = db_policies d0
    ∧ db_batch_idempotency d = db_batch_idempotency d0;
}.

Lemma insert_child_inserted ser b now d0 cs d c d' :
  children_inserted ser b now d0 cs d → insert_child ser b now d c = Ok d' →
  children_inserted ser b now d0 (cs ++ [c]) d'.
Proof.
  intros [H1 H2 H3 H4]. unfold insert_child. intros Hc.
  apply bind_Ok_tt in Hc as [Hnew%reject_if_Ok Hc]. apply bind_Ok_tt in Hc as [_ Hc].
  apply bind_Ok_tt in Hc as [_ Hc]. injection Hc as <-. apply bool_decide_eq_false in Hnew.
  assert (Hnone : db_jobs d !! (bi_organization_id b, bc_job_id c) = None)
    by (destruct (db_jobs d !! _); [exfalso; apply Hnew; eauto|done]).
  assert (Hne : ∀ c', c' ∈ cs → bc_job_id c' ≠ bc_job_id c).
  { intros c' Hc' Heq. destruct (H1 _ Hc') as (_ & Hs & _). rewrite Heq in Hs. congruence. }
  split; simpl; [| | |done].
  - intros c' [Hc'|Hc']%elem_of_app.
    + rewrite !lookup_insert_ne by (intros [= Heq]; by apply (Hne c' Hc')). eauto.
    + apply list_elem_of_singleton in Hc' as ->. rewrite !lookup_insert_eq. split_and!; [|done..].
      rewrite <- Hnone. symmetry. apply H2. intros c' Hc' [= Heq]. by apply (Hne c' Hc').
  - intros k Hk. assert (k ≠ (bi_organization_id b, bc_job_id c)) by (apply Hk; set_solver).
    rewrite !lookup_insert_ne by done. apply H2. intros c' Hc'. apply Hk. set_solver.
  - intros o. rewrite unfinished_count_insert, Hnone, H3, length_app. unfold counts_for. simpl.
    rewrite andb_false_r. case_bool_decide; simpl; lia.
Qed.

Lemma insert_children_inserted ser b now d0 cs d :
  try_fold (insert_child ser b now) d0 cs = Ok d → children_inserted ser b now d0 cs d.
Proof.
  apply try_fold_prefix_ind.
  - split; [set_solver|done| |done]. intros o. simpl. case_bool_decide; lia.
  - intros seen x s s' HP Hs. by eapply insert_child_inserted.
Qed.

Section batch_specs.
Context (ser : list string → string) (parse_rules : string → Res string (list DeviceWorkflowRule)).

Lemma commit_batch_created d batch children shared idem adm now d' :
  commit_new_batch ser parse_rules d batch children shared idem adm now = Ok (BatchCreated, d') →
  ∃ policy usage d1 d2,
    db_policies d !! bi_organization_id batch = Some policy
    ∧ db_usage d !! bi_organization_id batch = Some usage
    ∧ (bi_total_jobs batch ≤ qp_max_batch_jobs policy)%Z
    ∧ (qu_active_jobs usage + bi_total_jobs batch ≤ qp_max_concurrent_jobs policy)%Z
    ∧ (period_jobs_at policy usage now + bi_total_jobs batch ≤ qp_max_jobs_per_period policy)%Z
    ∧ d1 = set_batches d (<[(bi_organization_id batch, bi_batch_id batch) := batch_row batch now]> (db_batches d))
    ∧ children_inserted ser batch now d1 children d2
    ∧ db_jobs d' = db_jobs d2 ∧ db_queue d' = db_queue d2 ∧ db_releases d' = db_releases d
    ∧ db_usage d' = <[bi_organization_id batch := charge_batch policy usage (bi_total_jobs batch) now]> (db_usage d)
    ∧ (∀ i, idem = Some i → db_batch_idempotency d' !! batch_key i = Some (bk_request_hash i, bk_batch_id i)).
Proof.
  unfold commit_new_batch. intros Hc. apply bind_Ok in Hc as (ex & Hex & Hc). destruct ex; [done|].
  apply bind_Ok in Hc as (policy & Hp%ok_or_Ok & Hc). apply bind_Ok in Hc as (usage & Hu%ok_or_Ok & Hc).
  apply bind_Ok_tt in Hc as [_ Hc].
  apply bind_Ok_tt in Hc as [H1%reject_if_Ok%Z.ltb_ge Hc]. apply bind_Ok_tt in Hc as [H2%reject_if_Ok%Z.ltb_ge Hc].
  apply bind_Ok_tt in Hc as [H3%reject_if_Ok%Z.ltb_ge Hc]. apply bind_Ok in Hc as (_l & _ & Hc).
  apply bind_Ok_tt in Hc as [_ Hc]. apply bind_Ok in Hc as (d2 & Hd2 & Hc). injection Hc as <-.
  apply insert_children_inserted in Hd2. pose proof (ci_frame _ _ _ _ _ _ Hd2) as (F1 & F2 & F3 & F4).
  simpl in *. eexists policy, usage, _, d2. split_and!; try done.
  - by destruct idem.
  - by destruct idem.
  - by destruct idem.
  - destruct idem; simpl; by rewrite F1.
  - intros i ->. simpl. by rewrite lookup_insert_eq.
Qed.

(** A batch is admitted whole and within quota: when a batch is created,
    each of its jobs is new, queued under the batch, unbound and in the
    dispatch queue, no other job or queue row changed, and the batch, the
    organization's unfinished jobs and its jobs of the period are within their
    limits. *)
Theorem batch_admitted_whole d batch children shared idem adm now d' policy :
  quota_ok d → bi_total_jobs batch = Z.of_nat (length children) →
  db_policies d !! bi_organization_id batch = Some policy →
  commit_new_batch ser parse_rules d batch children shared idem adm now = Ok (BatchCreated, d') →
  (∀ c, c ∈ children →
     db_jobs d !! (bi_organization_id batch, bc_job_id c) = None
     ∧ db_jobs d' !! (bi_organization_id batch, bc_job_id c) = Some (child_row ser batch c now)
     ∧ is_Some (db_queue d' !! (bi_organization_id batch, bc_job_id c)))
  ∧ (∀ k, (∀ c, c ∈ children → k ≠ (bi_organization_id batch, bc_job_id c)) →
       db_jobs d' !! k = db_jobs d !! k ∧ db_queue d' !! k = db_queue d !! k)
  ∧ (Z.of_nat (length children) ≤ qp_max_batch_jobs policy)%Z
  ∧ (unfinished_count (db_jobs d') (bi_organization_id batch) ≤ qp_max_concurrent_jobs policy)%Z.
Proof.
  intros [Ha _ _] Hn Hp (p & u & d1 & d2 & Hp' & Hu & L1 & L2 & _ & -> & [C1 C2 C3 _] & Hj & Hq & _)%commit_batch_created.
  simplify_eq. rewrite Hj, Hq. simpl in *. split_and!.
  - intros c Hc. destruct (C1 c Hc) as (? & ? & ?). eauto.
  - done.
  - lia.
  - rewrite C3, bool_decide_eq_true_2, <- (Ha _ _ Hu) by done. lia.
Qed.

(** A batch is submitted once: after one that created a batch under an
    idempotency key, a submission under that key returns that batch and changes
    nothing if its hash is the same, and is refused if it differs. *)
Theorem idempotent_batch d batch children shared i adm now d' batch' children' shared' i' adm' now' :
  commit_new_batch ser parse_rules d batch children shared (Some i) adm now = Ok (BatchCreated, d') →
  batch_key i' = batch_key i →
  commit_new_batch ser parse_rules d' batch' children' shared' (Some i') adm' now'
  = if String.eqb (bk_request_hash i) (bk_request_hash i') then Ok (BatchExisting (bk_batch_id i), d')
    else Err (StConflict "idempotency key conflict: request hash mismatch").
Proof.
  intros (p & u & d1 & d2 & _ & _ & _ & _ & _ & _ & _ & _ & _ & _ & _ & Hid)%commit_batch_created Hkey.
  unfold commit_new_batch, existing_batch. rewrite Hkey, (Hid i eq_refl). by destruct (String.eqb _ _).
Qed.

(** *** Quota *)

Lemma quota_ok_batch d batch children shared idem adm now res d' :
  quota_ok d → bi_total_jobs batch = Z.of_nat (length children) →
  commit_new_batch ser parse_rules d batch children shared idem adm now = Ok (res, d') → quota_ok d'.
Proof.
  intros Hok Hn Hc. destruct res as [|b].
  2: { unfold commit_new_batch in Hc. apply bind_Ok in Hc as (ex & _ & Hc).
       destruct ex; [by injection Hc as _ <-|]. by inv_ok. }
  apply commit_batch_created in Hc as (p & u & d1 & d2 & _ & Hu & _ & _ & _ & -> & [C1 C2 C3 _] & Hj & _ & Hrel & Hus & _).
  destruct Hok as [Ha Hr Ht]. simpl in *. split; rewrite ?Hj, ?Hus, ?Hrel.
  - intros o u' [[<- <-]|[Hne Hu']]%lookup_insert_Some; rewrite C3; simpl.
    + rewrite bool_decide_eq_true_2, (Ha _ _ Hu) by done. lia.
    + rewrite bool_decide_eq_false_2, (Ha _ _ Hu') by done. lia.
  - intros k Hk. destruct (Hr k Hk) as (r & Hr' & Hur). exists r. split; [|done].
    rewrite (proj1 (C2 k ltac:(intros c Hc ->; destruct (C1 c Hc); congruence))). done.
  - intros k r Hk Hur. apply (Ht k r); [|done]. rewrite <- Hk. symmetry. apply (proj1 (C2 k ltac:(
      intros c Hc ->; destruct (C1 c Hc) as (_ & Hs & _); rewrite Hs in Hk; injection Hk as <-; done))).
Qed.

Lemma quota_ok_bind d o j wo w sid now : quota_ok d → quota_ok (bind_queued_job d o j wo w sid now).2.
Proof.
  intros Hok. unfold bind_queued_job. destruct (db_jobs d !! (o, j)) as [r|] eqn:Hk; [|done].
  destruct (String.eqb_spec (row_state r) "queued") as [Hq|]; [|done]. simpl.
  apply (quota_ok_ext (set_jobs d (<[(o, j) := with_job r (bind_job (jt_job r) wo w sid now)]> (db_jobs d))) _).
  - by destruct (db_outbox d !! _).
  - by destruct (db_outbox d !! _).
  - destruct (db_outbox d !! _); simpl; eauto.
  - apply (quota_ok_same_state d _ r); [done..|]. unfold unfinished. by rewrite Hq.
Qed.

Lemma quota_ok_cancel d o j now : quota_ok d → quota_ok (cancel_queued_job d o j now).2.
Proof.
  intros Hok. unfold cancel_queued_job. destruct (db_jobs d !! (o, j)) as [r|] eqn:Hk; [|done].
  destruct (String.eqb (row_state r) "queued"); [|done]. simpl. apply quota_pending_release.
  destruct (quota_pending_update d (o, j) r (with_job r (Store.set_state (jt_job r) "cancelled"
    (Some "cancelled before worker dispatch") now)) Hok Hk ltac:(done)) as [H1 H2 H3].
  by split.
Qed.

(** The store's transactions, with those of batches and the queue. *)
Inductive batch_step (d : Db) : Db → Prop :=
| bs_store d' : store_step parse_rules d d' → batch_step d d'
| bs_commit batch children shared idem adm now res d' :
    bi_total_jobs batch = Z.of_nat (length children) →
    commit_new_batch ser parse_rules d batch children shared idem adm now = Ok (res, d') →
    batch_step d d'
| bs_claim scan owner seconds now : batch_step d (claim_dispatch_queue_job scan d owner seconds now).2
| bs_bind o j wo w sid now : batch_step d (bind_queued_job d o j wo w sid now).2
| bs_cancel o j now : batch_step d (cancel_queued_job d o j now).2.

Lemma batch_step_quota_ok d d' : batch_step d d' → quota_ok d → quota_ok d'.
Proof.
  intros Hs Hok. destruct Hs.
  - by eapply store_step_quota_ok.
  - by eapply quota_ok_batch.
  - unfold claim_dispatch_queue_job. destruct (head _) as [[key q]|]; [|done].
    apply (quota_ok_ext d _); [done..| |done]. eauto.
  - by apply quota_ok_bind.
  - by apply quota_ok_cancel.
Qed.

(** The active-job counter stays exact with batches: over any sequence of
    batch admissions, claims, bindings and cancellations of queued jobs, and of
    the store's other transactions, every organization's counter is the number
    of its unfinished jobs. *)
Theorem quota_exact_with_batches d d' o u :
  quota_ok d → rtc batch_step d d' → db_usage d' !! o = Some u →
  qu_active_jobs u = unfinished_count (db_jobs d') o.
Proof.
  intros Hok Hr. cut (quota_ok d'); [intros [Ha _ _]; apply Ha|].
  refine (rtc_ind_r quota_ok _ _ _ _ Hr); [done|]. intros y z _ Hyz. by apply batch_step_quota_ok.
Qed.
End batch_specs.

(** ** The queue and the jobs *)

(** A queue row belongs to a queued job, and no queued job lacks one. *)
Record queue_ok (d : Db) : Prop := {
  qo_row : ∀ k q, db_queue d !! k = Some q → ∃ r, db_jobs d !! k = Some r ∧ row_state r = "queued";
  qo_job : ∀ k r, db_jobs d !! k = Some r → row_state r = "queued" → is_Some (db_queue d !! k);
}.

Lemma commit_new_job_queue parse_rules d row ids idem adm res d' :
  commit_new_job parse_rules d row ids idem adm = Ok (res, d') → db_queue d' = db_queue d.
Proof.
  unfold commit_new_job. intros Hc. apply bind_Ok in Hc as (ex & _ & Hc).
  destruct ex; [by injection Hc as _ <-|].
  apply bind_Ok in Hc as (q & _ & Hc). apply bind_Ok in Hc as (u & _ & Hc).
  apply bind_Ok_tt in Hc as [_ Hc]. apply bind_Ok_tt in Hc as [_ Hc].
  apply bind_Ok in Hc as (d1 & Hd1 & Hc). apply bind_Ok_tt in Hc as [_ Hc].
  apply bind_Ok_tt in Hc as [_ Hc]. injection Hc as _ <-.
  assert (db_queue d1 = db_queue d) as Hq.
  { unfold claim_artifacts in Hd1. repeat case_match; simplify_eq; done. }
  by destruct idem.
Qed.

(** Changing one job that is not queued before or after. *)
Lemma queue_ok_update d d' k r r' :
  queue_ok d → db_queue d' = db_queue d → db_jobs d' = <[k := r']> (db_jobs d) →
  db_jobs d !! k = Some r ∨ db_jobs d !! k = None →
  (db_jobs d !! k = Some r → row_state r ≠ "queued") → row_state r' ≠ "queued" → queue_ok d'.
Proof.
  intros [H1 H2] Hq Hj Hk Hr Hr'. split; rewrite Hq, Hj.
  - intros k' q Hk'. destruct (H1 _ _ Hk') as (r0 & Hr0 & Hs). exists r0. split; [|done].
    rewrite lookup_insert_ne; [done|]. intros <-. destruct Hk as [Hk|Hk]; [|congruence].
    apply Hr; congruence.
  - intros k' r0 [[<- <-]|[_ Hk']]%lookup_insert_Some Hs; [done|eauto].
Qed.

Lemma release_queue d o j now :
  db_queue (release_job_for_terminal_tx d o j now) = db_queue d.
Proof. unfold release_job_for_terminal_tx. by repeat case_match. Qed.

(** A queued job that leaves the queue with its row. *)
Lemma queue_ok_leave d d' k r' :
  queue_ok d → row_state r' ≠ "queued" → db_queue d' = delete k (db_queue d) →
  db_jobs d' = <[k := r']> (db_jobs d) → queue_ok d'.
Proof.
  intros [H1 H2] Hr' Hq Hj. split; rewrite Hq, Hj.
  - intros k' q [Hne Hk']%lookup_delete_Some. destruct (H1 _ _ Hk') as (r0 & Hr0 & Hs). exists r0.
    by rewrite lookup_insert_ne.
  - intros k' r0 [[<- <-]|[Hne Hk']]%lookup_insert_Some Hs; [done|]. rewrite lookup_delete_ne by done. eauto.
Qed.

(** A key is one of the batch's children, or of none. *)
Lemma child_or_other o (cs : list BatchChildJob) (k : string * string) :
  (∃ c, c ∈ cs ∧ k = (o, bc_job_id c)) ∨ (∀ c, c ∈ cs → k ≠ (o, bc_job_id c)).
Proof.
  destruct (decide (k ∈ (λ c, (o, bc_job_id c)) <$> cs)) as [Hin|Hno].
  - left. apply list_elem_of_fmap in Hin as (c & -> & Hc). eauto.
  - right. intros c Hc ->. apply Hno. apply list_elem_of_fmap. eauto.
Qed.

Section queue_specs.
Context (ser : list string → string) (parse_rules : string → Res string (list DeviceWorkflowRule)).

(** The transactions that create, lease, bind, cancel and advance jobs. *)
Inductive queue_step (d : Db) : Db → Prop :=
| qs_commit_job row ids idem adm res d' :
    sj_state row ≠ "queued" → commit_new_job parse_rules d row ids idem adm = Ok (res, d') →
    queue_step d d'
| qs_commit_batch batch children shared idem adm now res d' :
    commit_new_batch ser parse_rules d batch children shared idem adm now = Ok (res, d') →
    queue_step d d'
| qs_claim scan owner seconds now : queue_step d (claim_dispatch_queue_job scan d owner seconds now).2
| qs_bind o j wo w sid now : queue_step d (bind_queued_job d o j wo w sid now).2
| qs_cancel o j now : queue_step d (cancel_queued_job d o j now).2
| qs_event e u applied d' :
    eu_expected_state u ≠ "queued" → eu_state u ≠ "queued" →
    Store.apply_job_event d e u = Ok (applied, d') → queue_step d d'.

Lemma queue_ok_event d e u applied d' :
  queue_ok d → eu_expected_state u ≠ "queued" → eu_state u ≠ "queued" →
  Store.apply_job_event d e u = Ok (applied, d') → queue_ok d'.
Proof.
  intros Hok Hexp Hst He. unfold Store.apply_job_event in He. apply bind_Ok in He as (events & _ & Hc).
  destruct (db_jobs d !! _) as [r|] eqn:Hk; [|by injection Hc as _ <-].
  destruct (event_applies (jt_job r) e u) eqn:Happ; [|by injection Hc as _ <-]. injection Hc as _ <-.
  assert (row_state r ≠ "queued").
  { unfold event_applies in Happ. bool_cases. unfold row_state.
    match goal with H : String.eqb _ _ = true |- _ => apply String.eqb_eq in H; by rewrite H end. }
  apply (queue_ok_update d _ (ei_organization_id e, ei_job_id e) r (with_job r (set_event (jt_job r) e u)));
    [done| | |by left|done|done].
  - destruct (terminal_name _); [by rewrite release_queue|done].
  - destruct (terminal_name _); [by rewrite (proj1 (release_frame _ _ _ _))|done].
Qed.

Lemma queue_ok_batch d batch children shared idem adm now res d' :
  queue_ok d → commit_new_batch ser parse_rules d batch children shared idem adm now = Ok (res, d') →
  queue_ok d'.
Proof.
  intros Hok Hc. destruct res as [|b].
  2: { unfold commit_new_batch in Hc. apply bind_Ok in Hc as (ex & _ & Hc).
       destruct ex; [by injection Hc as _ <-|]. by inv_ok. }
  apply commit_batch_created in Hc as (p & u & d1 & d2 & _ & _ & _ & _ & _ & -> & [C1 C2 _ _] & Hj & Hq & _).
  destruct Hok as [H1 H2]. simpl in *. split; rewrite Hj, Hq.
  - intros k q Hk. destruct (child_or_other (bi_organization_id batch) children k) as [(c & Hc & ->)|Hno].
    + destruct (C1 c Hc) as (_ & Hs & _). rewrite Hs. eauto.
    + destruct (C2 k Hno) as [Ej Eq]. rewrite Ej. rewrite Eq in Hk. eauto.
  - intros k r Hk Hs. destruct (child_or_other (bi_organization_id batch) children k) as [(c & Hc & ->)|Hno].
    + destruct (C1 c Hc) as (_ & _ & Hq'). rewrite Hq'. eauto.
    + destruct (C2 k Hno) as [Ej Eq]. rewrite Eq. rewrite Ej in Hk. eauto.
Qed.

Lemma queue_step_ok d d' : queue_step d d' → queue_ok d → queue_ok d'.
Proof.
  intros Hs Hok. destruct Hs as [row ids idem adm res d' Hst Hc|batch children shared idem adm now res d' Hc
    |scan owner seconds now|o j wo w sid now|o j now|e u applied d' Hexp Hst He].
  - pose proof (commit_new_job_queue _ _ _ _ _ _ _ _ Hc) as Hq. destruct res as [|j].
    + apply commit_created in Hc as (q & u & _ & _ & _ & _ & Hnew & Hj & _).
      apply (queue_ok_update d d' _ (mkJobTableRow row None None None) _ Hok Hq Hj);
        [by right|congruence|done].
    + unfold commit_new_job in Hc. apply bind_Ok in Hc as (ex & _ & Hc).
      destruct ex; [by injection Hc as _ <-|]. by inv_ok.
  - by eapply queue_ok_batch.
  - unfold claim_dispatch_queue_job. destruct (head _) as [[key q]|]; [|done]. destruct Hok as [H1 H2].
    split; simpl.
    + intros k q' [(-> & q0 & Hq0 & _)|[_ Hk]]%lookup_alter_Some; eauto.
    + intros k r Hk Hs. rewrite lookup_alter_is_Some. eauto.
  - unfold bind_queued_job. destruct (db_jobs d !! (o, j)) as [r|] eqn:Hk; [|done].
    destruct (String.eqb_spec (row_state r) "queued") as [Hq|]; [|done]. simpl.
    eapply (queue_ok_leave d _ (o, j) (with_job r (bind_job (jt_job r) wo w sid now))); [done|done| |];
      by destruct (db_outbox d !! _).
  - unfold cancel_queued_job. destruct (db_jobs d !! (o, j)) as [r|] eqn:Hk; [|done].
    destruct (String.eqb (row_state r) "queued"); [|done]. simpl.
    eapply (queue_ok_leave d _ (o, j)); [done| |by rewrite release_queue|by rewrite (proj1 (release_frame _ _ _ _))].
    done.
  - by eapply queue_ok_event.
Qed.

(** No queued job is stranded: over any sequence of submissions, batch
    admissions, leases, bindings, cancellations and job events, the dispatch
    queue holds exactly the queued jobs. *)
Theorem queue_holds_queued_jobs d d' k :
  queue_ok d → rtc queue_step d d' →
  is_Some (db_queue d' !! k) ↔ ∃ r, db_jobs d' !! k = Some r ∧ row_state r = "queued".
Proof.
  intros Hok Hr. assert (queue_ok d') as [H1 H2].
  { refine (rtc_ind_r queue_ok _ _ _ _ Hr); [done|]. intros y z _ Hyz. by apply queue_step_ok. }
  split; [intros [q Hq]; eauto|]. intros (r & Hr' & Hs). eauto.
Qed.
End queue_specs.

(** A queue lease is exclusive: whatever order the rows are visited in, a
    queue row that was leased is not leased again before the lease has run
    out. *)
Theorem queue_lease_exclusive scan1 scan2 d owner owner' seconds seconds' now now' k d1 :
  (∀ m, scan1 m ≡ₚ map_to_list m) → (∀ m, scan2 m ≡ₚ map_to_list m) →
  (0 ≤ seconds)%Z → (now + seconds * 1000 ≤ i64_max)%Z → (0 ≤ now)%Z → (now' ≤ now + seconds * 1000)%Z →
  claim_dispatch_queue_job scan1 d owner seconds now = (Some k, d1) →
  (claim_dispatch_queue_job scan2 d1 owner' seconds' now').1 ≠ Some k.
Proof.
  intros Hs1 Hs2 Hsec Hmax Hnow Hlt. unfold claim_dispatch_queue_job at 1.
  destruct (head _) as [[key q]|] eqn:Hh; [|done]. intros [= -> <-].
  unfold claim_dispatch_queue_job. destruct (head (merge_sort _ (List.filter _ (scan2 _)))) as [[key' q']|] eqn:Hh';
    [|done]. simpl. intros [= ->].
  assert (Hin : (k, q') ∈ List.filter (λ kv, queue_ready now' kv.2) (scan2 (db_queue
    (set_queue d (alter (λ r, mkQueueRow (qr_available_at r) (qr_priority r) (qr_created_at r) (Some owner)
      (Some (i64_saturating_add now (i64_saturating_mul (Z.max seconds 0) 1000)))) k (db_queue d)))))).
  { apply head_Some_elem_of in Hh'. by rewrite merge_sort_Permutation in Hh'. }
  apply list_elem_of_In, filter_In in Hin as [Hin Hready]. apply list_elem_of_In in Hin.
  rewrite Hs2, elem_of_map_to_list in Hin. simpl in Hin.
  apply lookup_alter_Some in Hin as [(_ & q0 & _ & ->)|[Hne _]]; [|done].
  unfold queue_ready in Hready. simpl in Hready. apply andb_true_iff in Hready as [_ Hl%Z.ltb_lt].
  unfold i64_saturating_add, i64_saturating_mul, i64_max, i64_min in *. lia.
Qed.

(** ** The scheduler *)

Lemma queued_job_info_Some d o j wf ver target_org target_device attempt :
  queued_job_info d o j = Some (wf, ver, target_org, target_device, attempt) →
  ∃ row b batch, db_jobs d !! (o, j) = Some row ∧ row_state row = "queued"
    ∧ jt_batch_id row = Some b ∧ db_batches d !! (o, b) = Some batch
    ∧ sb_device_organization_id batch = Some target_org ∧ sb_device_id batch = Some target_device
    ∧ wf = sj_workflow_id (jt_job row) ∧ ver = sj_workflow_version (jt_job row)
    ∧ attempt = sj_attempt (jt_job row).
Proof.
  unfold queued_job_info. intros Hi. apply bind_Some in Hi as (row & Hrow & Hi).
  apply bind_Some in Hi as (b & Hb & Hi). apply bind_Some in Hi as (batch & Hbatch & Hi).
  apply bind_Some in Hi as (t & Ht & Hi). apply bind_Some in Hi as (dev & Hdev & Hi).
  destruct (String.eqb_spec (row_state row) "queued"); [|done]. simplify_eq. eauto 15.
Qed.

(** The scheduler binds a job to the device its batch names: dispatching a
    leased job leaves registry and store as they were, or the job was queued,
    the session of exactly that device offers its workflow and had room, and
    then the job is received by that session, holds one reservation there,
    waits in the outbox and has left the queue. *)
Theorem scheduler_binds_target r d o j now r' d' :
  dispatch_queued_job r d o j now = Ok (r', d') →
  (r' = r ∧ d' = d)
  ∨ ∃ row b batch target_org target_device s s',
      db_jobs d !! (o, j) = Some row ∧ row_state row = "queued"
      ∧ jt_batch_id row = Some b ∧ db_batches d !! (o, b) = Some batch
      ∧ sb_device_organization_id batch = Some target_org ∧ sb_device_id batch = Some target_device
      ∧ sr_inner r !! session_key target_org target_device = Some s
      ∧ offers_workflow (sj_workflow_id (jt_job row)) (sj_workflow_version (jt_job row)) (ws_view s) = true
      ∧ has_room s = true
      ∧ sr_inner r' !! session_key target_org target_device = Some s'
      ∧ ws_pending_reservations s'
        = {[ dispatch_command_id j (sj_attempt (jt_job row)) ]} ∪ ws_pending_reservations s
      ∧ db_jobs d' !! (o, j) = Some (with_job row (bind_job (jt_job row)
          (vw_organization_id (ws_view s)) (vw_worker_id (ws_view s)) (vw_session_id (ws_view s)) now))
      ∧ is_Some (db_outbox d' !! (o, j, sj_attempt (jt_job row)))
      ∧ db_queue d' !! (o, j) = None.
Proof.
  unfold dispatch_queued_job. destruct (queued_job_info d o j) as [[[[[wf ver] torg] tdev] attempt]|] eqn:Hi;
    [|by intros [= <- <-]; left].
  apply queued_job_info_Some in Hi as (row & b & batch & Hrow & Hq & Hb & Hbatch & Ht & Hdev & -> & -> & ->).
  intros (a & Ha%ok_or_Ok & Hc)%bind_Ok.
  assert (a = sj_attempt (jt_job row)) as -> by (revert Ha; unfold u32_try_from; destruct (_ || _); congruence).
  unfold reserve_capacity_on in Hc. destruct (sr_inner r !! _) as [s|] eqn:Hs; [|by injection Hc as <- <-; left].
  destruct (_ || _) eqn:Hroom; [by injection Hc as <- <-; left|]. bool_cases.
  destruct (take_slot _ s) as [s'|] eqn:Htake; [|by injection Hc as <- <-; left].
  apply take_slot_Some in Htake as [_ ->]. unfold bind_queued_job in Hc. rewrite Hrow, Hq in Hc. simpl in Hc.
  injection Hc as <- <-. right. exists row, b, batch, torg, tdev, s. eexists. simpl.
  rewrite lookup_insert_eq. split_and!; try done.
  - destruct (db_outbox d !! _); simpl; by rewrite lookup_insert_eq.
  - destruct (db_outbox d !! _) eqn:Ho; simpl; [by rewrite Ho|]. rewrite lookup_insert_eq. eauto.
  - destruct (db_outbox d !! _); simpl; by rewrite lookup_delete_eq.
Qed.

(** ** Witnesses *)
Module BatchExample.
Definition ser (_ : list string) : string := "[]".
Definition batch : BatchInsert := mkBatchInsert "b1" "acme" "u" "user" (Some "u") "w" "1" None "{}" "{}"
  (Some "acme") (Some "gpu") 2 None.
Definition child (id : string) (index : Z) : BatchChildJob := mkBatchChildJob id index None "{}" [].
Definition children : list BatchChildJob := [child "j1" 0; child "j2" 1].
Definition idem (hash : string) : BatchIdempotencyInsert :=
  mkBatchIdempotencyInsert "acme" "user" "u" "/batches" "key" hash "b1".
Definition policy : QuotaPolicy := mkQuotaPolicy 5 100 10 60 10 0.
(** "acme" has no jobs; its device "gpu" was last seen at [seen]. *)
Definition db (seen : Z) : Db :=
  mkDb ∅ ∅ ∅ ∅ {[ "acme" := policy ]} {[ "acme" := mkQuotaUsage 0 0 0 0 0 ]} ∅ ∅ ∅
    {[ ("acme", "gpu") := mkWorkerTableRow None (Some "s1") seen "acme" "gpu" "1" "{}" ]} ∅ ∅ ∅ ∅.
Definition commit (d : Db) (hash : string) :=
  commit_new_batch ser StoreExample.rules d batch children [] (Some (idem hash)) None 1000.
Definition submitted (seen : Z) : Db :=
  match commit (db seen) "h1" with Ok (_, d) => d | Err _ => db seen end.
Lemma commit_ok : commit (db 0) "h1" = Ok (BatchCreated, submitted 0).
Proof. vm_compute. reflexivity. Qed.

Definition scan (m : gmap (string * string) QueueRow) := map_to_list m.
(** The device offers the workflow and has room for two jobs, or is full. *)
Definition registry (active : Z) : SessionRegistry :=
  (Sessions.insert SessionRegistry_default (mkWorkerSession
    (mkWorkerView "acme" None "gpu" "s1" "lab" "gpu"
       (mkWorkerCapabilities [mkWorkflowCapability "w" "1" [] None] 1 1 false ∅) active 0 0)
    None ∅ ∅ ∅ 0)).1.2.
Definition leased : Db := (claim_dispatch_queue_job scan (submitted 0) "hub-scheduler" 30 2000).2.

Lemma db_quota_ok seen : quota_ok (db seen).
Proof.
  split.
  - intros o u. simpl. rewrite lookup_singleton_Some. by intros [<- <-].
  - intros k Hk. simpl in Hk. set_solver.
  - intros k r. simpl. by rewrite lookup_empty.
Qed.
Lemma db_queue_ok seen : queue_ok (db seen).
Proof. split; intros k x; simpl; by rewrite lookup_empty. Qed.

(** The state of a job, and whether it has a queue row. *)
Definition job_state (d : Db) (j : string) : option string := sj_state <$> job d "acme" j.
Definition in_queue (d : Db) (j : string) : bool := bool_decide (is_Some (db_queue d !! ("acme", j))).
End BatchExample.

(** Quota reconciliation fails jobs that are only waiting: a batch waits
    for its device, which is connected, was seen a moment ago and is busy; when
    its jobs have waited for the thirty minutes' grace, reconciliation fails
    them although no worker ever had them, and their queue rows stay behind, to
    be leased again by every later pass of the scheduler; before the grace ends
    they keep waiting. *)
Theorem waiting_batch_failed_by_reconciliation :
  let grace := 1800000%Z in
  let after now := reconcile_active_job_quota (BatchExample.submitted now) now grace in
  let scheduled now := (schedule_pass BatchExample.scan (BatchExample.registry 2) (after now) now).2 in
  let early := (1000 + grace - 1)%Z in
  let late := (1000 + grace)%Z in
  (BatchExample.job_state (after early) "j1" = Some "queued"
   ∧ BatchExample.in_queue (after early) "j1" = true)
  ∧ (BatchExample.job_state (after late) "j1" = Some "failed"
     ∧ BatchExample.in_queue (scheduled late) "j1" = true).
Proof. split_and!; vm_compute; reflexivity. Qed.

Lemma batch_admitted_whole_witness :
  db_jobs (BatchExample.submitted 0) !! ("acme", "j2")
  = Some (child_row BatchExample.ser BatchExample.batch (BatchExample.child "j2" 1) 1000)
  ∧ (unfinished_count (db_jobs (BatchExample.submitted 0)) "acme" ≤ 5)%Z.
Proof.
  destruct (batch_admitted_whole BatchExample.ser StoreExample.rules (BatchExample.db 0) BatchExample.batch
    BatchExample.children [] (Some (BatchExample.idem "h1")) None 1000 (BatchExample.submitted 0)
    BatchExample.policy (BatchExample.db_quota_ok 0) eq_refl eq_refl BatchExample.commit_ok)
    as (Hc & _ & _ & Hn).
  split; [|exact Hn]. apply (Hc (BatchExample.child "j2" 1)). right. left.
Defined.

Lemma idempotent_batch_witness :
  BatchExample.commit (BatchExample.submitted 0) "h1" = Ok (BatchExisting "b1", BatchExample.submitted 0).
Proof.
  unfold BatchExample.commit.
  rewrite (idempotent_batch BatchExample.ser StoreExample.rules (BatchExample.db 0) BatchExample.batch
    BatchExample.children [] (BatchExample.idem "h1") None 1000 (BatchExample.submitted 0)
    BatchExample.batch BatchExample.children [] (BatchExample.idem "h1") None 1000
    BatchExample.commit_ok eq_refl). reflexivity.
Defined.

Lemma quota_exact_with_batches_witness :
  ∃ u, db_usage (cancel_queued_job (BatchExample.submitted 0) "acme" "j1" 3000).2 !! "acme" = Some u
    ∧ qu_active_jobs u
      = unfinished_count (db_jobs (cancel_queued_job (BatchExample.submitted 0) "acme" "j1" 3000).2) "acme".
Proof.
  eexists. split; [vm_compute; reflexivity|].
  apply (quota_exact_with_batches BatchExample.ser StoreExample.rules (BatchExample.db 0) _ "acme" _
    (BatchExample.db_quota_ok 0)); [|vm_compute; reflexivity].
  eapply rtc_l; [apply (bs_commit BatchExample.ser StoreExample.rules (BatchExample.db 0) BatchExample.batch
    BatchExample.children [] (Some (BatchExample.idem "h1")) None 1000 BatchCreated
    (BatchExample.submitted 0) eq_refl BatchExample.commit_ok)|].
  apply rtc_once. apply (bs_cancel BatchExample.ser StoreExample.rules (BatchExample.submitted 0) "acme" "j1" 3000).
Defined.

Lemma queue_holds_queued_jobs_witness :
  is_Some (db_queue (BatchExample.submitted 0) !! ("acme", "j1"))
  ↔ ∃ r, db_jobs (BatchExample.submitted 0) !! ("acme", "j1") = Some r ∧ row_state r = "queued".
Proof.
  apply (queue_holds_queued_jobs BatchExample.ser StoreExample.rules (BatchExample.db 0) _ ("acme", "j1")
    (BatchExample.db_queue_ok 0)).
  apply rtc_once. apply (qs_commit_batch BatchExample.ser StoreExample.rules (BatchExample.db 0)
    BatchExample.batch BatchExample.children [] (Some (BatchExample.idem "h1")) None 1000 BatchCreated
    (BatchExample.submitted 0) BatchExample.commit_ok).
Defined.

Lemma queue_lease_exclusive_witness :
  (claim_dispatch_queue_job BatchExample.scan BatchExample.leased "other" 30 20000).1 ≠ Some ("acme", "j1").
Proof.
  apply (queue_lease_exclusive BatchExample.scan BatchExample.scan (BatchExample.submitted 0) "hub-scheduler"
    "other" 30 30 2000 20000 ("acme", "j1") BatchExample.leased);
    [done|done|lia|unfold i64_max; lia|lia|lia|vm_compute; reflexivity].
Defined.

Lemma scheduler_binds_target_witness :
  ∃ r' d', dispatch_queued_job (BatchExample.registry 0) (BatchExample.submitted 0) "acme" "j1" 2000 = Ok (r', d')
    ∧ db_queue d' !! ("acme", "j1") = None.
Proof.
  destruct (dispatch_queued_job (BatchExample.registry 0) (BatchExample.submitted 0) "acme" "j1" 2000)
    as [[r' d']|] eqn:Hd; [|vm_compute in Hd; discriminate]. exists r', d'. split; [done|].
  destruct (scheduler_binds_target _ _ _ _ _ _ _ Hd) as [[_ Heq]|(? & ? & ? & ? & ? & ? & ? & H)].
  - exfalso. apply (f_equal (λ x, match x with Ok (_, d) => BatchExample.in_queue d "j1" | _ => true end)) in Hd.
    rewrite Heq in Hd. vm_compute in Hd. discriminate.
  - apply H.
Defined.
