(* ===== verification/Dispatch.v ===== *)
(** Delivery and cancellation ([nagisalake-hub/src/hub/dispatch.rs], and the
    cancellation of [hub/jobs.rs]).

    The outbox consumer takes one claimed row at a time: it reads the job,
    presigns its inputs, makes the cached job agree with the binding, takes a
    capacity slot and sends the command.  The handler is split at the wait for
    the worker's ACK: [dispatch_outbox_begin] runs up to the wait,
    [dispatch_outbox_finish] continues on whatever the Hub is by then.  The
    same split is made of a cancellation that is sent to a worker.  Between two
    waits a handler runs without interference; the connection to the database
    does not fail.

    Main results: a claimed row is given back for a later attempt or waits for
    the worker, and is marked delivered only for a job that is gone or finished
    or once the worker has answered; what is sent is the stored job, with its
    inputs ready and in the job's order, to the current session of its worker,
    under a reservation; a cancellation touches only jobs the principal may
    cancel, and ends the job in the store, the queue, the quota and the cache
    together. *)

From S2P Require Import Prelude Text Json Messages Core HubTypes Principal Helpers TtlCache HubState Sessions Store HubJobs Artifacts Batches.
From Stdlib Require Import ZArith Lia.

(** ** Rebinding to the current session *)

(** The two attempts to rebind a stored job: from the session the cache knows,
    then from the one the row has. *)
Definition rebind_stored (db : Db) (organization_id job_id : string) (attempt : Z)
    (expected_session_id session_id : string) (now : Z) : bool * Db :=
  let '(rebound, db1) :=
    rebind_job_session db organization_id job_id attempt expected_session_id session_id now in
  if rebound then (true, db1)
  else
    match job db organization_id job_id ≫= sj_session_id with
    | None => (false, db)
    | Some stored_session_id =>
        rebind_job_session db organization_id job_id attempt stored_session_id session_id now
    end.

Definition merge_cached_outbox_job (h : Hub) (job_id : string) (expected_attempt : Z)
    (session_id : string) (dispatch : DispatchJob) (now : Z) : bool * Hub :=
  match hd_jobs (hb_data h) !! job_id with
  | None => (false, h)
  | Some cached =>
      let v := hj_view cached in
      if is_terminal (jv_state v) || negb (dj_attempt (hj_dispatch cached) =? expected_attempt)%Z
      then (false, h)
      else
        let v' := set_view v session_id (jv_state v) (jv_progress v) (jv_prompt_id v) (jv_error v)
                    (jv_events v) (Z.max (jv_updated_at_unix_ms v) now) in
        (true, with_data h (set_hub_jobs (hb_data h) (<[job_id :=
           mkJobRecord (hj_organization_id cached) (hj_actor_id cached) (hj_actor_kind cached)
             (hj_actor_user_id cached) (hj_worker_organization_id cached) v' dispatch
             (hj_last_event cached)]> (hd_jobs (hb_data h)))))
  end.

Definition rebind_cached_outbox_job (h : Hub) (now : Z) (job_id session_id : string)
    (dispatch : DispatchJob) : bool * Hub :=
  match hd_jobs (hb_data h) !! job_id with
  | None => (false, h)
  | Some binding =>
      let attempt := dj_attempt (hj_dispatch binding) in
      let current := current_session_id (hb_sessions h) (hj_worker_organization_id binding)
                       (jv_worker_id (hj_view binding)) in
      if negb (attempt =? dj_attempt dispatch)%Z then (false, h)
      else if negb (bool_decide (current = Some session_id)) then (false, h)
      else
        let merge h' := merge_cached_outbox_job h' job_id attempt session_id dispatch now in
        match hb_store h with
        | None => merge h
        | Some db =>
            let '(rebound, db') := rebind_stored db (hj_organization_id binding) job_id attempt
                                     (jv_session_id (hj_view binding)) session_id now in
            if rebound then merge (with_store h db') else (false, with_store h db')
        end
  end.

(** ** The consumer *)

(** [artifacts_by_ids] and its collection into a map by id. *)
Definition artifacts_by_ids (d : Db) (organization_id : string) (ids : list string)
    : gmap string StoredArtifact :=
  list_to_map (omap (λ id, pair id <$> artifact d organization_id id) ids).

(** What a pass over one row has come to. *)
Inductive DispatchProgress :=
| Settled (delivered : bool) (h : Hub)
| AwaitingAck (worker_organization_id worker_id session_id command_id : string)
    (effects : list SessionEffect) (h : Hub).

Definition outbox_delivered (h : Hub) (db : Db) (now : Z) (key : string * string * Z) : Hub :=
  with_store h (mark_dispatch_delivered db now key.1.1 key.1.2 key.2).
Definition outbox_retry (h : Hub) (db : Db) (now : Z) (key : string * string * Z) (error : string) : Hub :=
  with_store h (Store.record_dispatch_error db now key.1.1 key.1.2 key.2 error).

Section consumer.
Context `{!ObjectStore}.
(** [serde_json::from_str] at the two types, and the order of the event table. *)
Context (from_str_strings : string → Res string (list string)) (from_str_json : string → Res string Json)
        (scan : gmap (string * string * Z * Z) StoredJobEvent → list StoredJobEvent).

(** The inputs in the job's order; an id that was taken is not there again. *)
Fixpoint dispatch_inputs (by_id : gmap string StoredArtifact) (ids : list string)
    : Res string (list JobInput) :=
  match ids with
  | [] => Ok []
  | artifact_id :: rest =>
      match by_id !! artifact_id with
      | Some a =>
          if String.eqb (sa_state a) "ready" then
            size_bytes ← ok_or ("input artifact " +:+ artifact_id +:+ " has an invalid size")
                           (u64_try_from (sa_size_bytes a));
            download ← presign_get (sa_object_key a);
            inputs ← dispatch_inputs (delete artifact_id by_id) rest;
            Ok (mkJobInput artifact_id (sa_name a) (sa_content_type a) size_bytes (sa_sha256 a) download
                  :: inputs)
          else Err ("input artifact " +:+ artifact_id +:+ " is not ready")
      | None => Err ("input artifact " +:+ artifact_id +:+ " is not ready")
      end
  end.

Definition cache_bound_outbox_job (h : Hub) (db : Db) (j : StoredJob) (dispatch : DispatchJob)
    : Res HubError (bool * Hub) :=
  match sj_worker_organization_id j, sj_worker_id j, sj_session_id j with
  | Some worker_organization_id, Some worker_id, Some session_id =>
      state ← parse_job_state (sj_state j);
      if bool_decide (state = Queued) || is_terminal state then Ok (false, h)
      else
        view ← job_view_from_stored from_str_strings from_str_json j
                 (events_for_job scan db (sj_organization_id j) (sj_id j));
        last_event ← ok_or (InvalidConfig "persisted job sequence is invalid")
                       (u64_try_from (sj_last_event j));
        let record := mkJobRecord (sj_organization_id j) (sj_actor_id j) (sj_actor_kind j)
                        (sj_actor_user_id j) worker_organization_id view dispatch last_event in
        if negb (String.eqb (jv_worker_id view) worker_id)
           || negb (String.eqb (jv_session_id view) session_id) then Ok (false, h)
        else
          let inserted := with_data h (set_hub_jobs (hb_data h)
                            (<[sj_id j := record]> (hd_jobs (hb_data h)))) in
          match hd_jobs (hb_data h) !! sj_id j with
          | None => Ok (true, inserted)
          | Some existing =>
              if (dj_attempt (hj_dispatch existing) =? dj_attempt dispatch)%Z
                 && bool_decide (jv_state (hj_view existing) = Queued) then Ok (true, inserted)
              else
                Ok (negb (is_terminal (jv_state (hj_view existing)))
                    && (dj_attempt (hj_dispatch existing) =? dj_attempt dispatch)%Z
                    && String.eqb (hj_organization_id existing) (sj_organization_id j)
                    && String.eqb (hj_worker_organization_id existing) worker_organization_id
                    && String.eqb (jv_worker_id (hj_view existing)) worker_id
                    && String.eqb (jv_session_id (hj_view existing)) session_id, h)
          end
  | _, _, _ => Ok (false, h)
  end.

(** The message of a row: everything that is read before the cache is touched. *)
Definition outbox_dispatch (db : Db) (key : string * string * Z) (j : StoredJob) : Res string DispatchJob :=
  parameters ← match from_str_json (sj_parameters_json j) with
               | Ok v => Ok v
               | Err e => Err ("invalid persisted job parameters: " +:+ e)
               end;
  input_ids ← match from_str_strings (sj_input_artifact_ids_json j) with
              | Ok v => Ok v
              | Err e => Err ("invalid persisted job inputs: " +:+ e)
              end;
  inputs ← dispatch_inputs (artifacts_by_ids db key.1.1 input_ids) input_ids;
  attempt ← ok_or "persisted dispatch attempt is invalid" (u32_try_from key.2);
  Ok (mkDispatchJob (dispatch_command_id (sj_id j) attempt) (sj_id j) attempt (sj_workflow_id j)
        (sj_workflow_version j) parameters inputs).

(** The cached job is made to agree with the row's binding; [db] is the store
    of a Hub that has one. *)
Definition bind_cached (h : Hub) (db : Db) (now : Z) (j : StoredJob) (session_id : string)
    (dispatch : DispatchJob) : Res string unit * Hub :=
  let '(rebound, h1) := rebind_cached_outbox_job h now (sj_id j) session_id dispatch in
  if rebound then (Ok tt, h1)
  else
    match cache_bound_outbox_job h1 (default db (hb_store h1)) j dispatch with
    | Ok (true, h2) => (Ok tt, h2)
    | Ok (false, _) => (Err "bound outbox job is not dispatchable", h1)
    | Err error => (Err (hub_error_text error), h1)
    end.

Definition dispatch_outbox_begin (h : Hub) (db : Db) (now : Z) (key : string * string * Z)
    : DispatchProgress :=
  match job db key.1.1 key.1.2 with
  | None => Settled true (outbox_delivered h db now key)
  | Some j =>
      if terminal_name (sj_state j) then Settled true (outbox_delivered h db now key)
      else
        match sj_worker_organization_id j, sj_worker_id j, sj_session_id j with
        | Some worker_organization_id, Some worker_id, Some _ =>
            match current_session_id (hb_sessions h) worker_organization_id worker_id with
            | None => Settled false (outbox_retry h db now key "no local worker session is available")
            | Some session_id =>
                match outbox_dispatch db key j with
                | Err message => Settled false (outbox_retry h db now key message)
                | Ok dispatch =>
                    let '(bound, h1) := bind_cached h db now j session_id dispatch in
                    let db1 := default db (hb_store h1) in
                    match bound with
                    | Err message => Settled false (outbox_retry h1 db1 now key message)
                    | Ok _ =>
                        let command_id := dj_command_id dispatch in
                        let '(reserved, r2) := ensure_capacity_reservation (hb_sessions h1)
                          worker_organization_id worker_id session_id command_id in
                        let h2 := with_sessions h1 r2 in
                        if negb reserved then
                          Settled false
                            (outbox_retry h2 db1 now key "bound worker session has no dispatch capacity")
                        else
                          match send_command_begin (hb_sessions h2) worker_organization_id worker_id
                                  session_id command_id (HDispatchJob dispatch) with
                          | Ok (r3, effects) =>
                              AwaitingAck worker_organization_id worker_id session_id command_id effects
                                (with_sessions h2 r3)
                          | Err error =>
                              let h3 := update_job_error h2 now key.1.2 (hub_error_text error) false in
                              Settled false
                                (outbox_retry h3 (default db1 (hb_store h3)) now key (hub_error_text error))
                          end
                    end
                end
            end
        | _, _, _ =>
            Settled false (outbox_retry h db now key "outbox job has no complete worker binding")
        end
  end.

(** From the ACK, or the failure to get one, on. *)
Definition dispatch_outbox_finish (h : Hub) (now : Z) (key : string * string * Z)
    (worker_organization_id worker_id session_id command_id : string) (outcome : CommandOutcome)
    : bool * Hub :=
  let '(res, r1) := send_command_finish (hb_sessions h) worker_organization_id worker_id session_id
                      command_id outcome in
  let h1 := with_sessions h r1 in
  let deliver h' := match hb_store h' with Some db => outbox_delivered h' db now key | None => h' end in
  match res with
  | Ok ack =>
      if ca_accepted ack then (true, deliver h1)
      else (true, deliver (update_job_error h1 now key.1.2 (ca_message ack) true))
  | Err error =>
      let h2 := update_job_error h1 now key.1.2 (hub_error_text error) false in
      (false, match hb_store h2 with
              | Some db => outbox_retry h2 db now key (hub_error_text error)
              | None => h2
              end)
  end.
End consumer.

(** ** Cancellation *)

Definition principal_can_cancel (p : Principal) (actor_user_id : option string) : bool :=
  allows p JobsCancelAny || (allows p JobsCancelOwn && bool_decide (pc_user_id p = actor_user_id)).

Definition principal_can_cancel_job (p : Principal) (record : JobRecord) : bool :=
  principal_can_cancel p (hj_actor_user_id record).

Definition cancelled_view (v : JobView) (message : string) (now : Z) : JobView :=
  set_view v (jv_session_id v) Cancelled (jv_progress v) (jv_prompt_id v) (Some message) (jv_events v)
    (Z.max (jv_updated_at_unix_ms v) now).

(** The transaction of a local cancellation. *)
Definition commit_cancellation (db : Db) (now : Z) (job_id : string) (current : JobRecord)
    (message : string) : bool * Db :=
  if bool_decide (jv_state (hj_view current) = Queued)
  then cancel_queued_job db (hj_organization_id current) job_id now
  else update_job_if_current db (mkConditionalJobUpdate (hj_organization_id current) job_id
         (dj_attempt (hj_dispatch current)) (job_state_name (jv_state (hj_view current)))
         (u64_to_i64_saturating (hj_last_event current)) (Some "cancelled") (Some message) now).

(** Its effect on the cache, which other tasks may have changed since. *)
Definition merge_cancellation (h : Hub) (now : Z) (job_id : string) (current : JobRecord)
    (message : string) : Res HubError JobView * Hub :=
  match hd_jobs (hb_data h) !! job_id with
  | Some found =>
      if (dj_attempt (hj_dispatch found) =? dj_attempt (hj_dispatch current))%Z
         && bool_decide (jv_state (hj_view found) = jv_state (hj_view current))
         && (hj_last_event found =? hj_last_event current)%Z then
        let view := cancelled_view (hj_view found) message now in
        (Ok view, with_data h (set_hub_jobs (hb_data h)
          (if bool_decide (is_Some (hb_store h)) then delete job_id (hd_jobs (hb_data h))
           else <[job_id := with_view found view (hj_last_event found)]> (hd_jobs (hb_data h)))))
      else (Err (Conflict "job advanced while cancellation was being applied"), h)
  | None => (Err (Conflict "job advanced while cancellation was being applied"), h)
  end.

Definition cancel_job_locally (h : Hub) (now : Z) (record : JobRecord) : Res HubError JobView * Hub :=
  let job_id := jv_id (hj_view record) in
  match hd_jobs (hb_data h) !! job_id with
  | None => (Err (Conflict "job changed while cancellation was pending"), h)
  | Some current =>
      if is_terminal (jv_state (hj_view current)) then (Ok (hj_view current), h)
      else
        let message := if bool_decide (jv_state (hj_view current) = Queued)
                       then "cancelled before worker dispatch"
                       else "cancelled while the worker was disconnected" in
        match hb_store h with
        | None => merge_cancellation h now job_id current message
        | Some db =>
            let '(cancelled, db') := commit_cancellation db now job_id current message in
            if cancelled then merge_cancellation (with_store h db') now job_id current message
            else (Err (Conflict "job advanced while cancellation was being committed"), h)
        end
  end.

Inductive CancelProgress :=
| CancelDone (answer : Res HubError JobView) (h : Hub)
| CancelAwaitingAck (record : JobRecord) (session_id command_id : string)
    (effects : list SessionEffect) (h : Hub).

Definition done_of (r : Res HubError JobView * Hub) : CancelProgress := CancelDone r.1 r.2.

Definition send_job_cancellation (h : Hub) (now : Z) (uuid : string) (record : JobRecord) : CancelProgress :=
  let o := hj_worker_organization_id record in
  let w := jv_worker_id (hj_view record) in
  if bool_decide (jv_state (hj_view record) = Queued) then done_of (cancel_job_locally h now record)
  else
    match current_session_id (hb_sessions h) o w with
    | None => done_of (cancel_job_locally h now record)
    | Some session_id =>
        match send_command_begin (hb_sessions h) o w session_id uuid
                (HCancelJob (mkCancelJob uuid (jv_id (hj_view record)) "consumer requested cancellation")) with
        | Ok (r, effects) => CancelAwaitingAck record session_id uuid effects (with_sessions h r)
        | Err (Conflict _ | Unavailable _) => done_of (cancel_job_locally h now record)
        | Err error => CancelDone (Err error) h
        end
    end.

Definition send_job_cancellation_finish (h : Hub) (now : Z) (record : JobRecord)
    (session_id command_id : string) (outcome : CommandOutcome) : Res HubError JobView * Hub :=
  let '(res, r) := send_command_finish (hb_sessions h) (hj_worker_organization_id record)
                     (jv_worker_id (hj_view record)) session_id command_id outcome in
  let h1 := with_sessions h r in
  match res with
  | Ok ack =>
      (if ca_accepted ack then Ok (hj_view record)
       else Err (Conflict (if String.eqb (ca_message ack) "" then "worker rejected cancellation"
                           else ca_message ack)), h1)
  | Err (Conflict _ | Unavailable _) => cancel_job_locally h1 now record
  | Err error => (Err error, h1)
  end.

Definition role_refusal : HubError := Forbidden "role can only cancel jobs created by the same user".
Definition too_late : HubError := Conflict "job cannot be cancelled after output upload begins".

Section cancel.
Context (from_str_strings : string → Res string (list string)) (from_str_json : string → Res string Json)
        (scan : gmap (string * string * Z * Z) StoredJobEvent → list StoredJobEvent).

(** A job that is not resident. *)
Definition cancel_stored (h : Hub) (db : Db) (now : Z) (p : Principal) (job_id : string) : Res HubError JobView * Hub :=
  let o := pc_organization_id p in
  match job db o job_id with
  | None => (Err (NotFound "job"), h)
  | Some stored =>
      if String.eqb (sj_state stored) "queued" then
        if negb (principal_can_cancel p (sj_actor_user_id stored)) then (Err role_refusal, h)
        else
          let '(cancelled, db') := cancel_queued_job db o job_id now in
          if cancelled then
            (match job db' o job_id with
             | Some stored' => job_view_from_stored from_str_strings from_str_json stored'
                                 (events_for_job scan db' o job_id)
             | None => Err (NotFound "job")
             end, with_store h db')
          else (Err (Conflict "job advanced while cancellation was being committed"), h)
      else (Err too_late, h)
  end.

Definition cancel_job_for_principal (h : Hub) (now : Z) (uuid : string) (p : Principal) (job_id : string)
    : CancelProgress :=
  let stored := match hb_store h with
                | None => (Err (NotFound "job"), h)
                | Some db => cancel_stored h db now p job_id
                end in
  match hd_jobs (hb_data h) !! job_id with
  | Some record =>
      if String.eqb (hj_organization_id record) (pc_organization_id p) then
        if negb (principal_can_cancel_job p record) then CancelDone (Err role_refusal) h
        else if is_terminal (jv_state (hj_view record))
                || bool_decide (jv_state (hj_view record) = Uploading) then CancelDone (Err too_late) h
        else send_job_cancellation h now uuid record
      else done_of stored
  | None => done_of stored
  end.
End cancel.

(** ** What a pass does to the outbox *)

Definition row_delivered (now : Z) (r : OutboxRow) : OutboxRow :=
  mkOutboxRow "delivered" (ob_attempts r) (ob_available_at r) (Some now) None.
Definition row_retry (now : Z) (error : string) (r : OutboxRow) : OutboxRow :=
  mkOutboxRow "pending" (ob_attempts r + 1) (i64_saturating_add now 5000) (ob_claimed_at r) (Some error).

(** The Hub's store is [db'], whose outbox is [outbox]. *)
Definition outbox_is (h : Hub) (outbox : gmap (string * string * Z) OutboxRow) : Prop :=
  ∃ db, hb_store h = Some db ∧ db_outbox db = outbox.

Lemma outbox_delivered_is h db now key :
  outbox_is (outbox_delivered h db now key) (alter (row_delivered now) key (db_outbox db)).
Proof. destruct key as [[o j] a]. by eexists. Qed.

Lemma outbox_retry_is h db now key e :
  outbox_is (outbox_retry h db now key e) (alter (row_retry now e) key (db_outbox db)).
Proof. destruct key as [[o j] a]. by eexists. Qed.

Lemma rebind_outbox db o j a old new now : db_outbox (rebind_job_session db o j a old new now).2 = db_outbox db.
Proof. unfold rebind_job_session. destruct (db_jobs db !! _); [|done]. by destruct (_ && _). Qed.

Lemma rebind_stored_outbox db o j a old new now : db_outbox (rebind_stored db o j a old new now).2 = db_outbox db.
Proof.
  unfold rebind_stored. pose proof (rebind_outbox db o j a old new now) as H1.
  destruct (rebind_job_session db o j a old new now) as [[] db1]; [done|].
  destruct (job db o j ≫= sj_session_id); [apply rebind_outbox|done].
Qed.

Lemma release_tx_outbox db o j now : db_outbox (release_job_for_terminal_tx db o j now) = db_outbox db.
Proof. unfold release_job_for_terminal_tx. destruct (db_jobs db !! _); [|done]. by destruct (_ && _). Qed.

Lemma update_if_current_outbox db u : db_outbox (update_job_if_current db u).2 = db_outbox db.
Proof.
  unfold update_job_if_current. destruct (db_jobs db !! _); [|done]. destruct (_ && _); [|done]. simpl.
  destruct (is_some_and _ _); [|done]. by rewrite release_tx_outbox.
Qed.

Lemma outbox_is_data h d m : outbox_is (with_data h d) m ↔ outbox_is h m.
Proof. done. Qed.
Lemma outbox_is_sessions h r m : outbox_is (with_sessions h r) m ↔ outbox_is h m.
Proof. done. Qed.

Lemma merge_cached_outbox h j a sid d now m :
  outbox_is h m → outbox_is (merge_cached_outbox_job h j a sid d now).2 m.
Proof. unfold merge_cached_outbox_job. destruct (hd_jobs _ !! _); [|done]. by destruct (_ || _). Qed.

Lemma rebind_cached_outbox h now j sid d m :
  outbox_is h m → outbox_is (rebind_cached_outbox_job h now j sid d).2 m.
Proof.
  intros (db & Hs & <-). unfold rebind_cached_outbox_job.
  destruct (hd_jobs _ !! _) as [b|]; [|by eexists]. destruct (negb _); [by eexists|].
  destruct (negb _); [by eexists|]. rewrite Hs.
  pose proof (rebind_stored_outbox db (hj_organization_id b) j (dj_attempt (hj_dispatch b))
    (jv_session_id (hj_view b)) sid now) as Ho.
  destruct (rebind_stored _ _ _ _ _ _ _) as [[] db']; [apply merge_cached_outbox|]; by eexists.
Qed.

Lemma update_job_error_outbox h now j message terminal m :
  outbox_is h m → outbox_is (update_job_error h now j message terminal) m.
Proof.
  intros (db & Hs & <-). unfold update_job_error. destruct (hd_jobs _ !! _) as [r|] eqn:Hj; [|by eexists].
  destruct (is_terminal _); [by eexists|]. rewrite Hs.
  match goal with |- context [update_job_if_current db ?u] =>
    pose proof (update_if_current_outbox db u) as Ho; destruct (update_job_if_current db u) as [[] db'] end;
    [|by eexists].
  simpl in *. rewrite Hj. destruct (_ && _); [|by eexists]. destruct (terminal && _); by eexists.
Qed.

(** A live job is cached under the id, at the dispatch's attempt. *)
Definition cached_live (h : Hub) (job_id : string) (attempt : Z) : Prop :=
  ∃ record, hd_jobs (hb_data h) !! job_id = Some record
    ∧ is_terminal (jv_state (hj_view record)) = false
    ∧ dj_attempt (hj_dispatch record) = attempt.

Lemma merge_cached_true h j a sid d now h' :
  merge_cached_outbox_job h j a sid d now = (true, h') →
  cached_live h' j (dj_attempt d) ∧ hb_sessions h' = hb_sessions h.
Proof.
  unfold merge_cached_outbox_job. destruct (hd_jobs (hb_data h) !! j) as [c|] eqn:Hj; [|done].
  destruct (_ || _) eqn:Hc; [done|]. intros [= <-]. bool_cases.
  split; [|done]. eexists. simpl. by rewrite lookup_insert_eq.
Qed.

Lemma merge_cached_sessions h j a sid d now :
  hb_sessions (merge_cached_outbox_job h j a sid d now).2 = hb_sessions h.
Proof. unfold merge_cached_outbox_job. destruct (hd_jobs _ !! _); [|done]. by destruct (_ || _). Qed.

Lemma rebind_cached_sessions h now j sid d :
  hb_sessions (rebind_cached_outbox_job h now j sid d).2 = hb_sessions h.
Proof.
  unfold rebind_cached_outbox_job. destruct (hd_jobs _ !! _); [|done]. destruct (negb _); [done|].
  destruct (negb _); [done|]. destruct (hb_store h); [|apply merge_cached_sessions].
  destruct (rebind_stored _ _ _ _ _ _ _) as [[] db']; [by rewrite merge_cached_sessions|done].
Qed.

Lemma rebind_cached_true h now j sid d h' :
  rebind_cached_outbox_job h now j sid d = (true, h') → cached_live h' j (dj_attempt d).
Proof.
  unfold rebind_cached_outbox_job. destruct (hd_jobs _ !! _); [|done]. destruct (negb _); [done|].
  destruct (negb _); [done|]. destruct (hb_store h); [|by intros [? _]%merge_cached_true].
  destruct (rebind_stored _ _ _ _ _ _ _) as [[] db']; [|done]. by intros [? _]%merge_cached_true.
Qed.

Section consumer_specs.
Context `{!ObjectStore}.
Context (from_str_strings : string → Res string (list string)) (from_str_json : string → Res string Json)
        (scan : gmap (string * string * Z * Z) StoredJobEvent → list StoredJobEvent).

Lemma cache_bound_spec h db j d b h' :
  cache_bound_outbox_job from_str_strings from_str_json scan h db j d = Ok (b, h') →
  (∃ data, h' = with_data h data) ∧ (b = true → cached_live h' (sj_id j) (dj_attempt d)).
Proof.
  assert (∃ data, h = with_data h data) as Hid by (exists (hb_data h); by destruct h).
  unfold cache_bound_outbox_job. destruct (sj_worker_organization_id j) as [wo|]; [|by intros [= <- <-]].
  destruct (sj_worker_id j) as [w|]; [|by intros [= <- <-]].
  destruct (sj_session_id j) as [s|]; [|by intros [= <- <-]].
  intros (st & Hst & Hc)%bind_Ok. destruct (_ || _) eqn:Ht; [by injection Hc as <- <-|]. bool_cases.
  apply bind_Ok in Hc as (view & Hview & Hc). apply bind_Ok in Hc as (le & _ & Hc).
  destruct (_ || _); [by injection Hc as <- <-|].
  assert (jv_state view = st) as Hs.
  { unfold job_view_from_stored in Hview. inv_ok. simpl. congruence. }
  destruct (hd_jobs (hb_data h) !! sj_id j) as [ex|] eqn:Hex.
  - destruct (_ && _) eqn:Hq.
    + injection Hc as <- <-. split; [by eexists|]. intros _. eexists. simpl.
      rewrite lookup_insert_eq. split_and!; [done|simpl; congruence|done].
    + injection Hc as <- <-. split; [done|]. intros Hb. bool_cases. exists ex.
      split_and!; [done|done|by apply Z.eqb_eq].
  - injection Hc as <- <-. split; [by eexists|]. intros _. eexists. simpl.
    rewrite lookup_insert_eq. split_and!; [done|simpl; congruence|done].
Qed.

Lemma bind_cached_spec h db now j sid d m :
  outbox_is h m →
  let '(bound, h') := bind_cached from_str_strings from_str_json scan h db now j sid d in
  outbox_is h' m ∧ hb_sessions h' = hb_sessions h
  ∧ (bound = Ok tt → cached_live h' (sj_id j) (dj_attempt d)).
Proof.
  intros Hm. unfold bind_cached. pose proof (rebind_cached_outbox h now (sj_id j) sid d m Hm) as Ho.
  pose proof (rebind_cached_sessions h now (sj_id j) sid d) as Hs.
  destruct (rebind_cached_outbox_job h now (sj_id j) sid d) as [[] h1] eqn:Hr.
  { split_and!; [done|done|]. intros _. by eapply rebind_cached_true. }
  destruct (cache_bound_outbox_job _ _ _ _ _ _ _) as [[[] h2]|e] eqn:Hc; [|by split_and!..].
  apply cache_bound_spec in Hc as [[data ->] Hl]. simpl in *. by split_and!; auto.
Qed.

(** How a pass up to the ACK leaves the outbox. *)
Definition begin_outcome (h : Hub) (db : Db) (now : Z) (key : string * string * Z) (p : DispatchProgress)
    : Prop :=
  match p with
  | Settled true h' =>
      (∀ j, job db key.1.1 key.1.2 = Some j → terminal_name (sj_state j) = true)
      ∧ outbox_is h' (alter (row_delivered now) key (db_outbox db))
  | Settled false h' => ∃ error, outbox_is h' (alter (row_retry now error) key (db_outbox db))
  | AwaitingAck _ _ _ _ _ h' => outbox_is h' (db_outbox db)
  end.

Lemma dispatch_begin_outcome h db now key :
  hb_store h = Some db →
  begin_outcome h db now key (dispatch_outbox_begin from_str_strings from_str_json scan h db now key).
Proof.
  intros Hdb. assert (Hm : outbox_is h (db_outbox db)) by by eexists.
  assert (Hretry : ∀ h' e, outbox_is h' (db_outbox db) → begin_outcome h db now key
    (Settled false (outbox_retry h' (default db (hb_store h')) now key e))).
  { intros h' e (d & Hs & Hd). exists e. rewrite Hs, <- Hd. apply outbox_retry_is. }
  assert (Hearly : ∀ e, begin_outcome h db now key (Settled false (outbox_retry h db now key e)))
    by (intros e; exists e; apply outbox_retry_is).
  unfold dispatch_outbox_begin. destruct (job db _ _) as [j|] eqn:Hj.
  2: { split; [congruence|apply outbox_delivered_is]. }
  destruct (terminal_name (sj_state j)) eqn:Ht.
  { split; [congruence|apply outbox_delivered_is]. }
  destruct (sj_worker_organization_id j) as [wo|]; [|apply Hearly].
  destruct (sj_worker_id j) as [w|]; [|apply Hearly].
  destruct (sj_session_id j) as [s|]; [|apply Hearly].
  destruct (current_session_id _ wo w) as [sid|]; [|apply Hearly].
  destruct (outbox_dispatch _ _ _ _ _) as [d|]; [|apply Hearly].
  pose proof (bind_cached_spec h db now j sid d _ Hm) as Hb.
  destruct (bind_cached _ _ _ _ _ _ _ _ _) as [[[]|e] h1]; destruct Hb as (Ho & _ & _); [|by apply Hretry].
  destruct (ensure_capacity_reservation _ _ _ _ _) as [[] r2].
  2: { by apply (Hretry (with_sessions h1 r2)). }
  simpl. destruct (send_command_begin _ _ _ _ _ _) as [[r3 eff]|e]; simpl; [done|].
  pose proof (update_job_error_outbox (with_sessions h1 r2) now key.1.2 (hub_error_text e) false _ Ho) as Hu.
  destruct Hu as (d2 & Hs2 & Hd2). rewrite Hs2. simpl. exists (hub_error_text e). rewrite <- Hd2. apply outbox_retry_is.
Qed.

(** C28: A claimed dispatch is never lost.  Up to the wait for the worker, a pass
    over a claimed row marks it delivered only if its job is gone or finished,
    or gives it back for another attempt, or leaves it claimed while it waits;
    after the wait, whatever else happened meanwhile, it marks the row
    delivered exactly if the worker answered, and otherwise gives it back.  No
    other row changes. *)
Theorem dispatch_delivered_or_retried h db now key :
  hb_store h = Some db →
  begin_outcome h db now key (dispatch_outbox_begin from_str_strings from_str_json scan h db now key)
  ∧ ∀ h1 db1 later wo w sid cmd outcome delivered h2,
      hb_store h1 = Some db1 →
      dispatch_outbox_finish h1 later key wo w sid cmd outcome = (delivered, h2) →
      if delivered : bool
      then (∃ ack, outcome = Acked ack) ∧ outbox_is h2 (alter (row_delivered later) key (db_outbox db1))
      else (∀ ack, outcome ≠ Acked ack)
           ∧ ∃ error, outbox_is h2 (alter (row_retry later error) key (db_outbox db1)).
Proof.
  intros Hdb. split; [by apply dispatch_begin_outcome|]. intros h1 db1 later wo w sid cmd outcome delivered h2 Hs1.
  assert (Hm : ∀ r, outbox_is (with_sessions h1 r) (db_outbox db1)) by (intros r; by eexists).
  assert (Hretry : ∀ r e, ∃ error, outbox_is (let h' := update_job_error (with_sessions h1 r) later key.1.2 e false in
    match hb_store h' with Some db => outbox_retry h' db later key e | None => h' end)
    (alter (row_retry later error) key (db_outbox db1))).
  { intros r e. destruct (update_job_error_outbox (with_sessions h1 r) later key.1.2 e false _ (Hm r))
      as (d2 & Hs2 & Hd2). exists e. simpl. rewrite Hs2, <- Hd2. apply outbox_retry_is. }
  unfold dispatch_outbox_finish. destruct outcome as [|ack| |]; simpl; try (intros [= <- <-]; split; [done|apply Hretry]).
  destruct (ca_accepted ack); intros [= <- <-]; (split; [by eexists|]).
  - simpl. rewrite Hs1. apply outbox_delivered_is.
  - destruct (update_job_error_outbox (with_sessions h1 (hb_sessions h1)) later key.1.2 (ca_message ack) true _ (Hm _))
      as (d2 & Hs2 & Hd2). rewrite Hs2, <- Hd2. apply outbox_delivered_is.
Qed.

(** ** What is sent *)

Lemma artifacts_by_ids_lookup db o ids id a :
  artifacts_by_ids db o ids !! id = Some a → artifact db o id = Some a.
Proof.
  intros Hl%elem_of_list_to_map_2. apply list_elem_of_omap in Hl as (x & _ & Hx).
  destruct (artifact db o x) eqn:Ha; [|done]. simpl in Hx. by simplify_eq.
Qed.

(** An input describes a ready artifact and a way to read it. *)
Definition input_of (i : JobInput) (a : StoredArtifact) : Prop :=
  sa_state a = "ready" ∧ ji_name i = sa_name a ∧ ji_content_type i = sa_content_type a
  ∧ ji_size_bytes i = sa_size_bytes a ∧ ji_sha256 i = sa_sha256 a
  ∧ presign_get (sa_object_key a) = Ok (ji_download i).

Lemma dispatch_inputs_spec by_id ids inputs :
  dispatch_inputs by_id ids = Ok inputs →
  ji_artifact_id <$> inputs = ids ∧ NoDup ids
  ∧ Forall (λ i, ∃ a, by_id !! ji_artifact_id i = Some a ∧ input_of i a) inputs.
Proof.
  revert by_id inputs. induction ids as [|id ids IH]; intros by_id inputs; simpl.
  { intros [= <-]. split_and!; [done|constructor|constructor]. }
  destruct (by_id !! id) as [a|] eqn:Ha; [|done]. destruct (String.eqb_spec (sa_state a) "ready"); [|done].
  intros (size & Hsize%ok_or_Ok & Hc)%bind_Ok. apply bind_Ok in Hc as (dl & Hdl & Hc).
  apply bind_Ok in Hc as (rest & Hrest & [= <-]). apply IH in Hrest as (Hids & Hnd & Hall). simpl.
  unfold u64_try_from in Hsize. destruct (_ <? _)%Z; [done|]. injection Hsize as <-.
  split_and!; [by f_equal| |].
  - apply NoDup_cons. split; [|done]. rewrite <- Hids. intros (i & Heq & Hi)%list_elem_of_fmap.
    rewrite Forall_forall in Hall. destruct (Hall i Hi) as (b & Hb & _). by rewrite <- Heq, lookup_delete_eq in Hb.
  - constructor; [by exists a|]. eapply Forall_impl; [exact Hall|]. intros i (b & Hb & Hin). exists b.
    split; [|done]. by apply lookup_delete_Some in Hb as [_ ?].
Qed.

(** A dispatch message carries the stored job of the row. *)
Record carries (db : Db) (o : string) (attempt : Z) (j : StoredJob) (d : DispatchJob) : Prop := {
  cr_command : dj_command_id d = dispatch_command_id (sj_id j) attempt;
  cr_job : dj_job_id d = sj_id j ∧ dj_attempt d = attempt;
  cr_workflow : dj_workflow_id d = sj_workflow_id j ∧ dj_workflow_version d = sj_workflow_version j;
  cr_parameters : from_str_json (sj_parameters_json j) = Ok (dj_parameters d);
  cr_inputs : from_str_strings (sj_input_artifact_ids_json j) = Ok (ji_artifact_id <$> dj_inputs d);
  cr_unique : NoDup (ji_artifact_id <$> dj_inputs d);
  cr_ready : Forall (λ i, ∃ a, artifact db o (ji_artifact_id i) = Some a ∧ input_of i a) (dj_inputs d);
}.

Lemma outbox_dispatch_carries db o j attempt stored d :
  outbox_dispatch from_str_strings from_str_json db (o, j, attempt) stored = Ok d →
  carries db o attempt stored d.
Proof.
  unfold outbox_dispatch. destruct (from_str_json _) as [ps|] eqn:Hp; simpl; [|done].
  destruct (from_str_strings _) as [ids|] eqn:Hi; simpl; [|done].
  intros (inputs & Hin & Hc)%bind_Ok. apply bind_Ok in Hc as (a & Ha%ok_or_Ok & [= <-]).
  assert (a = attempt) as -> by (revert Ha; unfold u32_try_from; destruct (_ || _); congruence).
  apply dispatch_inputs_spec in Hin as (Hids & Hnd & Hall).
  split; simpl; rewrite ?Hids; try done. eapply Forall_impl; [exact Hall|].
  intros i (art & Hart & Hof). eauto using artifacts_by_ids_lookup.
Qed.

Lemma ensure_charged r o w sid cmd r' :
  ensure_capacity_reservation r o w sid cmd = (true, r') →
  ∃ s, current r' o w sid = Some s ∧ charged cmd s.
Proof.
  unfold ensure_capacity_reservation. destruct (current r o w sid) as [s|] eqn:Hc; [|done].
  destruct (_ || _) eqn:Hin.
  - intros [= <-]. exists s. split; [done|]. apply orb_true_iff in Hin as [?|?]; bool_cases; [by left|by right].
  - destruct (negb _); [done|]. intros [= <-]. rewrite update_current_current, Hc by done.
    eexists. split; [done|]. left. simpl. set_solver.
Qed.

Lemma send_begin_spec r o w sid cmd m r' effects s :
  send_command_begin r o w sid cmd m = Ok (r', effects) → current r o w sid = Some s →
  effects = [TrySend sid m] ∧ current r' o w sid = Some (set_pending s ({[ cmd ]} ∪ ws_pending s)).
Proof.
  unfold send_command_begin. intros Hb Hs. rewrite Hs in Hb. injection Hb as <- <-.
  by rewrite update_current_current, Hs by done.
Qed.

(** What the consumer sends is the stored job: the message goes to the
    current session of the worker the row is bound to, carries the stored
    workflow and parameters and the inputs in the job's order, every input
    ready, under the command id of the job's attempt; the command holds a
    capacity slot of that session and is waited for, and the job is cached and
    live at that attempt, so the worker's events will find it. *)
Theorem dispatch_sends_stored_job h db now o j attempt wo w sid cmd effects h' :
  hb_store h = Some db →
  dispatch_outbox_begin from_str_strings from_str_json scan h db now (o, j, attempt)
    = AwaitingAck wo w sid cmd effects h' →
  ∃ stored d s, job db o j = Some stored ∧ terminal_name (sj_state stored) = false
    ∧ sj_worker_organization_id stored = Some wo ∧ sj_worker_id stored = Some w
    ∧ current_session_id (hb_sessions h) wo w = Some sid
    ∧ effects = [TrySend sid (HDispatchJob d)] ∧ cmd = dj_command_id d ∧ carries db o attempt stored d
    ∧ current (hb_sessions h') wo w sid = Some s ∧ charged cmd s ∧ cmd ∈ ws_pending s
    ∧ cached_live h' (sj_id stored) attempt.
Proof.
  intros Hdb. unfold dispatch_outbox_begin. simpl. destruct (job db o j) as [stored|] eqn:Hj; [|done].
  destruct (terminal_name _) eqn:Ht; [done|].
  destruct (sj_worker_organization_id stored) as [wo'|] eqn:Hwo; [|done].
  destruct (sj_worker_id stored) as [w'|] eqn:Hw; [|done]. destruct (sj_session_id stored) as [?|]; [|done].
  destruct (current_session_id _ wo' w') as [sid'|] eqn:Hcur; [|done].
  destruct (outbox_dispatch _ _ _ _ _) as [d|] eqn:Hd; [|done].
  apply outbox_dispatch_carries in Hd as Hcar.
  pose proof (bind_cached_spec h db now stored sid' d (db_outbox db) ltac:(by eexists)) as Hb.
  destruct (bind_cached _ _ _ _ _ _ _ _ _) as [[[]|e] h1]; [|done]. destruct Hb as (_ & _ & Hl).
  destruct (ensure_capacity_reservation _ _ _ _ _) as [[] r2] eqn:He; simpl; [|done].
  apply ensure_charged in He as (s1 & Hs & Hch).
  destruct (send_command_begin _ _ _ _ _ _) as [[r3 eff]|] eqn:Hsend; [|done]. intros [= <- <- <- <- <- <-].
  destruct (send_begin_spec _ _ _ _ _ _ _ _ _ Hsend Hs) as [-> Hs3].
  exists stored, d, (set_pending s1 ({[ dj_command_id d ]} ∪ ws_pending s1)). split_and!; try done.
  - simpl. set_solver.
  - destruct (Hl eq_refl) as (rec & ? & ? & Hatt). exists rec. split_and!; [done|done|].
    by rewrite Hatt, (proj2 (cr_job _ _ _ _ _ Hcar)).
Qed.
End consumer_specs.

(** ** What a cancellation does *)

Lemma release_tx_jobs db o j now : db_jobs (release_job_for_terminal_tx db o j now) = db_jobs db.
Proof. unfold release_job_for_terminal_tx. destruct (db_jobs db !! _); [|done]. by destruct (_ && _). Qed.

(** The transaction ends the job's row, releases its slot and takes it out of
    the queue. *)
Record cancelled_row (o job_id : string) (db db' : Db) : Prop := {
  cx_row : ∃ r r', db_jobs db !! (o, job_id) = Some r ∧ unfinished r = true
    ∧ row_state r' = "cancelled" ∧ db_jobs db' = <[(o, job_id) := r']> (db_jobs db);
  cx_quota : quota_ok db';
  cx_queue : ∀ r, db_jobs db !! (o, job_id) = Some r → row_state r = "queued" →
    db_queue db' !! (o, job_id) = None;
}.

Lemma commit_cancellation_spec db now id current message db' :
  quota_ok db → is_terminal (jv_state (hj_view current)) = false →
  commit_cancellation db now id current message = (true, db') →
  cancelled_row (hj_organization_id current) id db db'.
Proof.
  intros Hok Ht. unfold commit_cancellation. case_bool_decide as Hq.
  - intros Hc. pose proof (quota_ok_cancel db (hj_organization_id current) id now Hok) as Hok'.
    rewrite Hc in Hok'. unfold cancel_queued_job in Hc.
    destruct (db_jobs db !! _) as [r|] eqn:Hr; [|done].
    destruct (String.eqb_spec (row_state r) "queued") as [Hs|]; [|done]. injection Hc as <-.
    split; [|done|].
    + eexists r, _. split_and!; [done|by unfold unfinished; rewrite Hs| |by rewrite release_tx_jobs]. done.
    + intros r0 _ _. rewrite release_queue. simpl. apply lookup_delete_eq.
  - intros Hc. match type of Hc with update_job_if_current db ?u = _ =>
      assert (quota_ok (update_job_if_current db u).2) as Hok' end.
    { apply quota_ok_update; [|done]. intros s [= <-]. intros Hk. simpl in Hk.
      by rewrite terminal_name_state, Ht in Hk. }
    rewrite Hc in Hok'. unfold update_job_if_current in Hc. simpl in Hc.
    destruct (db_jobs db !! _) as [r|] eqn:Hr; [|done].
    destruct (_ && _) eqn:Hm; [|done]. injection Hc as <-. bool_cases.
    assert (sj_state (jt_job r) = job_state_name (jv_state (hj_view current))) as Hst by by apply String.eqb_eq.
    split; [|done|].
    + eexists r, _. split_and!; [done| | |by rewrite release_tx_jobs]; [|done].
      unfold unfinished, row_state. by rewrite Hst, terminal_name_state, Ht.
    + rewrite Hr. intros ? [= <-] Hs. exfalso. apply Hq. apply job_state_name_inj. by rewrite <- Hst.
Qed.

(** A cancellation that reports success has ended the job everywhere: the
    job was already finished and nothing changes, or its row is cancelled and
    no other row changes, its quota slot is released with the counters exact,
    it is out of the dispatch queue and out of the cache. *)
Theorem cancellation_ends_job h now record db view h' :
  hb_store h = Some db → quota_ok db →
  cancel_job_locally h now record = (Ok view, h') →
  ∃ current, hd_jobs (hb_data h) !! jv_id (hj_view record) = Some current
    ∧ (is_terminal (jv_state (hj_view current)) = true ∧ view = hj_view current ∧ h' = h
       ∨ jv_state view = Cancelled ∧ hd_jobs (hb_data h') !! jv_id (hj_view record) = None
         ∧ ∃ db', hb_store h' = Some db'
             ∧ cancelled_row (hj_organization_id current) (jv_id (hj_view record)) db db').
Proof.
  intros Hdb Hok. unfold cancel_job_locally.
  destruct (hd_jobs (hb_data h) !! _) as [c|] eqn:Hc; [|done]. intros Hr. exists c. split; [done|].
  destruct (is_terminal _) eqn:Ht; [by injection Hr as <- <-; left|]. right. rewrite Hdb in Hr.
  destruct (commit_cancellation _ _ _ _ _) as [[] db'] eqn:Hcommit; [|done].
  apply commit_cancellation_spec in Hcommit; [|done..].
  unfold merge_cancellation in Hr. simpl in Hr. rewrite Hc in Hr. destruct (_ && _); [|done].
  injection Hr as <- <-. split_and!; [done|simpl; apply lookup_delete_eq|]. by exists db'.
Qed.

(** The Hub when a cancellation has answered or waits for the worker. *)
Definition cancel_hub (p : CancelProgress) : Hub :=
  match p with CancelDone _ h | CancelAwaitingAck _ _ _ _ h => h end.

(** The job under an id that a principal of the organization sees. *)
Inductive cancellable (h : Hub) (o job_id : string) : option string → Prop :=
| cancellable_cached record :
    hd_jobs (hb_data h) !! job_id = Some record → hj_organization_id record = o →
    is_terminal (jv_state (hj_view record)) = false → jv_state (hj_view record) ≠ Uploading →
    cancellable h o job_id (hj_actor_user_id record)
| cancellable_queued db stored :
    hb_store h = Some db → job db o job_id = Some stored → sj_state stored = "queued" →
    cancellable h o job_id (sj_actor_user_id stored).

Lemma principal_can_cancel_spec p user :
  principal_can_cancel p user = true →
  (rank Operator ≤ rank (pc_role p) ∨ rank Member ≤ rank (pc_role p) ∧ pc_user_id p = user)
  ∧ (pc_kind p = ApiKey → "jobs:cancel" ∈ pc_scopes p).
Proof.
  unfold principal_can_cancel. intros [Ha|Ha]%orb_true_iff.
  - split; [left|exact (allows_api_key p JobsCancelAny Ha)].
    apply allows_role in Ha. by apply Nat.leb_le.
  - apply andb_true_iff in Ha as [Ha Hu]. bool_cases. split; [right|exact (allows_api_key p JobsCancelOwn Ha)].
    split; [|done]. apply allows_role in Ha. by apply Nat.leb_le.
Qed.

(** Only who may cancel a job changes anything by asking: when the request
    of a principal changes the Hub or sends a command, the job is one of the
    principal's organization, is not finished and not uploading its outputs,
    and the principal is an operator, or a member who submitted it; with an API
    key, the key also has the scope for cancelling. *)
Theorem cancellation_authorized from_str_strings from_str_json scan h now uuid p job_id :
  cancel_hub (cancel_job_for_principal from_str_strings from_str_json scan h now uuid p job_id) ≠ h →
  ∃ user, cancellable h (pc_organization_id p) job_id user
    ∧ (rank Operator ≤ rank (pc_role p) ∨ rank Member ≤ rank (pc_role p) ∧ pc_user_id p = user)
    ∧ (pc_kind p = ApiKey → "jobs:cancel" ∈ pc_scopes p).
Proof.
  unfold cancel_job_for_principal.
  assert (Hst : cancel_hub (done_of match hb_store h with
      | Some db => cancel_stored from_str_strings from_str_json scan h db now p job_id
      | None => (Err (NotFound "job"), h) end) ≠ h →
    ∃ user, cancellable h (pc_organization_id p) job_id user ∧ principal_can_cancel p user = true).
  { destruct (hb_store h) as [db|] eqn:Hdb; [|done]. unfold cancel_stored.
    destruct (job db _ job_id) as [stored|] eqn:Hj; [|done].
    destruct (String.eqb_spec (sj_state stored) "queued"); [|done].
    destruct (principal_can_cancel p _) eqn:Hp; [|done]. intros _.
    exists (sj_actor_user_id stored). split; [by eapply cancellable_queued|done]. }
  intros Hne. cut (∃ user, cancellable h (pc_organization_id p) job_id user ∧ principal_can_cancel p user = true).
  { intros (user & Hc & Hp). exists user. split; [done|]. by apply principal_can_cancel_spec. }
  destruct (hd_jobs (hb_data h) !! job_id) as [record|] eqn:Hr; [|by apply Hst].
  destruct (String.eqb_spec (hj_organization_id record) (pc_organization_id p)) as [Ho|]; [|by apply Hst].
  destruct (principal_can_cancel_job p record) eqn:Hp; [|done]. simpl in Hne.
  destruct (_ || _) eqn:Ht; [done|]. bool_cases.
  exists (hj_actor_user_id record). split; [by eapply cancellable_cached|done].
Qed.

(** ** Witnesses *)
Module DispatchExample.
(** A batch of two jobs for the device "gpu", before and after the scheduler
    has bound the first; the Hub has not cached either. *)
Definition bound : SessionRegistry * Db :=
  match dispatch_queued_job (BatchExample.registry 0) (BatchExample.submitted 0) "acme" "j1" 2000 with
  | Ok p => p
  | Err _ => (BatchExample.registry 0, BatchExample.submitted 0)
  end.
Definition waiting : Hub :=
  mkHub HubData_default (BatchExample.registry 0) ReadCache_default (Some (BatchExample.submitted 0)).
Definition hub : Hub := mkHub HubData_default bound.1 ReadCache_default (Some bound.2).
Definition key : string * string * Z := ("acme", "j1", 1%Z).
Definition pass (h : Hub) : DispatchProgress :=
  dispatch_outbox_begin HubExample.strings HubExample.json HubExample.scan h bound.2 2500 key.
Definition sent : Hub := match pass hub with AwaitingAck _ _ _ _ _ h => h | Settled _ h => h end.
Definition operator : Principal := mkPrincipal BrowserSession "u" (Some "u") "acme" Operator ∅.
Definition cancel (h : Hub) (p : Principal) : CancelProgress :=
  cancel_job_for_principal HubExample.strings HubExample.json HubExample.scan h 3000 "c1" p "j1".
Definition cached : option JobRecord := hd_jobs (hb_data sent) !! "j1".
Definition record : JobRecord := default (HubExample.record "acme") cached.
(** The worker went away after the dispatch. *)
Definition gone : Hub := with_sessions sent SessionRegistry_default.

Lemma gone_store : hb_store gone
  = Some (bind_queued_job (BatchExample.submitted 0) "acme" "j1" "acme" "gpu" "s1" 2000).2.
Proof. vm_compute. reflexivity. Qed.
Lemma gone_ok : quota_ok (bind_queued_job (BatchExample.submitted 0) "acme" "j1" "acme" "gpu" "s1" 2000).2.
Proof.
  apply quota_ok_bind. apply (quota_ok_batch BatchExample.ser StoreExample.rules (BatchExample.db 0)
    BatchExample.batch BatchExample.children [] (Some (BatchExample.idem "h1")) None 1000 BatchCreated
    (BatchExample.submitted 0) (BatchExample.db_quota_ok 0) eq_refl BatchExample.commit_ok).
Qed.
(** The answer to a cancellation, as far as the caller reads it. *)
Definition answer (p : CancelProgress) : option string :=
  match p with
  | CancelDone (Ok v) _ => jv_error v
  | CancelDone (Err e) _ => Some (hub_error_text e)
  | CancelAwaitingAck _ s _ _ _ => Some ("sent to " +:+ s)
  end.
End DispatchExample.

(** A job the scheduler has just bound cannot be cancelled: while a batch
    job waits in the queue the request cancels it, and once the consumer has
    cached it the request is sent to its worker; in between, when the job is
    bound and not yet cached, the same request is refused with the message for
    a job that uploads its outputs, although the job has not been sent. *)
Theorem bound_job_not_cancellable :
  DispatchExample.answer (DispatchExample.cancel DispatchExample.waiting DispatchExample.operator)
    = Some "cancelled before worker dispatch"
  ∧ DispatchExample.answer (DispatchExample.cancel DispatchExample.hub DispatchExample.operator)
    = Some "conflict: job cannot be cancelled after output upload begins"
  ∧ DispatchExample.answer (DispatchExample.cancel DispatchExample.sent DispatchExample.operator)
    = Some "sent to s1".
Proof. split_and!; vm_compute; reflexivity. Qed.

Lemma dispatch_delivered_or_retried_witness :
  outbox_is (dispatch_outbox_finish DispatchExample.sent 2600%Z DispatchExample.key "acme" "gpu" "s1"
               "dispatch:j1:1" (Acked (mkCommandAck "dispatch:j1:1" true ""))).2
    (alter (row_delivered 2600%Z) DispatchExample.key (db_outbox DispatchExample.bound.2)).
Proof.
  apply (proj2 (dispatch_delivered_or_retried HubExample.strings HubExample.json HubExample.scan
    DispatchExample.hub DispatchExample.bound.2 2500%Z DispatchExample.key eq_refl)
    DispatchExample.sent DispatchExample.bound.2 2600%Z "acme" "gpu" "s1" "dispatch:j1:1"
    (Acked (mkCommandAck "dispatch:j1:1" true "")) true); [vm_compute; reflexivity|reflexivity].
Defined.

Lemma dispatch_sends_stored_job_witness :
  ∃ s, current (hb_sessions DispatchExample.sent) "acme" "gpu" "s1" = Some s ∧ charged "dispatch:j1:1" s.
Proof.
  assert (∃ effects, DispatchExample.pass DispatchExample.hub
    = AwaitingAck "acme" "gpu" "s1" "dispatch:j1:1" effects DispatchExample.sent) as [effects Hp]
    by (eexists; vm_compute; reflexivity).
  destruct (dispatch_sends_stored_job HubExample.strings HubExample.json HubExample.scan
    DispatchExample.hub DispatchExample.bound.2 2500%Z "acme" "j1" 1 "acme" "gpu" "s1" "dispatch:j1:1" effects
    DispatchExample.sent eq_refl Hp) as (_ & _ & s & _ & _ & _ & _ & _ & _ & _ & _ & Hs & Hc & _).
  exact (ex_intro _ s (conj Hs Hc)).
Defined.

Lemma cancellation_ends_job_witness :
  ∃ view h', cancel_job_locally DispatchExample.gone 3000 DispatchExample.record = (Ok view, h')
    ∧ jv_state view = Cancelled.
Proof.
  destruct (cancel_job_locally DispatchExample.gone 3000 DispatchExample.record) as [[view|e] h'] eqn:Hc;
    [|vm_compute in Hc; discriminate]. exists view, h'. split; [done|].
  destruct (cancellation_ends_job DispatchExample.gone 3000 DispatchExample.record _ view h'
    DispatchExample.gone_store DispatchExample.gone_ok Hc) as (c & Hcur & [(Ht & _)|(Hs & _)]); [|done].
  vm_compute in Hcur. injection Hcur as <-. discriminate.
Defined.

Lemma cancellation_authorized_witness :
  ∃ user, cancellable DispatchExample.waiting "acme" "j1" user.
Proof.
  destruct (cancellation_authorized HubExample.strings HubExample.json HubExample.scan
    DispatchExample.waiting 3000 "c1" DispatchExample.operator "j1") as (user & Hc & _); [|by exists user].
  intros Heq. apply (f_equal (λ h, d ← hb_store h; BatchExample.job_state d "j1")) in Heq.
  vm_compute in Heq. discriminate.
Defined.

