(* ===== verification/Submission.v ===== *)
(** Submitting a job ([submit_job_for_principal] and [submit_job] of
    [nagisalake-hub/src/hub/api.rs], reading a job in [hub/jobs.rs],
    [commit_job_record] of [hub/state.rs], and the devices a user may use in
    [nagisalake-hub-store/src/devices.rs]).

    A submission reads its inputs, reserves a slot on the least loaded device
    the caller may use, commits the job in one transaction, caches it and sends
    the dispatch; it is split at the wait for the worker's ACK like the
    handlers of [Dispatch].  The digest of a request and the texts of JSON
    values are parameters.

    Main results: a submission that is refused, and one that repeats an earlier
    one, leave store, cache and registry as they were; a submission that is
    sent has its job, its outbox row and its slot, runs on a device of the
    organization or one shared with the user for that workflow, and sends what
    it stored. *)

From S2P Require Import Prelude Text Json Messages Core HubTypes Principal Helpers TtlCache HubState Sessions Store HubJobs Artifacts Batches Dispatch.
From Stdlib Require Import ZArith Lia.

Record SubmitJobRequest := mkSubmitJobRequest {
  rq_workflow_id : string;
  rq_workflow_version : string;
  rq_parameters : Json;
  rq_input_artifact_ids : list string;
  rq_device_organization_id : option string;
  rq_device_id : option string;
}.

Definition principal_kind_name (k : PrincipalKind) : string :=
  match k with
  | BrowserSession => "browser_session"
  | ApiKey => "api_key"
  | WorkerCredential => "worker_credential"
  | LegacyToken => "legacy_token"
  end.

(** The checks on the request itself. *)
Definition validate_submission (request : SubmitJobRequest) : Res HubError unit :=
  reject_if (negb (is_object (rq_parameters request)))
    (InvalidRequest "parameters must be a JSON object") ;;
  reject_if (is_blank (rq_workflow_id request) || is_blank (rq_workflow_version request))
    (InvalidRequest "workflow_id and workflow_version are required").

(** ** Reading a job *)
Section read.
Context (from_str_strings : string → Res string (list string)) (from_str_json : string → Res string Json)
        (scan : gmap (string * string * Z * Z) StoredJobEvent → list StoredJobEvent).

(** A job that is not resident: the read cache, then the store. *)
Definition load_job (h : Hub) (tick : Z) (organization_id job_id : string) : Res HubError JobView * Hub :=
  let '(cached, cache) := cached_job tick (hb_read_cache h) organization_id job_id in
  let h := with_read_cache h cache in
  match cached with
  | Some view => (Ok view, h)
  | None =>
      match hb_store h with
      | None => (Err (NotFound "job"), h)
      | Some db =>
          match job db organization_id job_id with
          | None => (Err (NotFound "job"), h)
          | Some stored =>
              match job_view_from_stored from_str_strings from_str_json stored
                      (events_for_job scan db organization_id job_id) with
              | Err error => (Err error, h)
              | Ok view =>
                  (Ok view,
                   if is_terminal (jv_state view)
                   then with_read_cache h (cache_job tick cache organization_id job_id view) else h)
              end
          end
      end
  end.

Definition job_for_principal (h : Hub) (tick : Z) (p : Principal) (job_id : string)
    : Res HubError JobView * Hub :=
  let o := pc_organization_id p in
  match hd_jobs (hb_data h) !! job_id with
  | Some record =>
      if String.eqb (hj_organization_id record) o then (Ok (hj_view record), h) else load_job h tick o job_id
  | None => load_job h tick o job_id
  end.
End read.

(** ** Devices a user may use *)

Definition device_le (a b : DeviceAccess) : Prop :=
  (da_device_organization_id a ≠ da_device_organization_id b
   ∧ String.le (da_device_organization_id a) (da_device_organization_id b))
  ∨ (da_device_organization_id a = da_device_organization_id b
     ∧ String.le (da_device_id a) (da_device_id b)).

#[export] Instance device_le_dec a b : Decision (device_le a b).
Proof. unfold device_le. apply _. Defined.

Section devices.
Context (parse_rules : string → Res string (list DeviceWorkflowRule)).

Definition parse_workflow_rules (value : string) : list DeviceWorkflowRule :=
  match parse_rules value with Ok rules => rules | Err _ => [] end.

(** A grant of another organization's device that is in force. *)
Definition grant_in_force (d : Db) (now : Z) (user_id organization_id : string)
    (key : string * string * string) (g : GrantRow) : bool :=
  String.eqb key.2 user_id && negb (String.eqb key.1.1 organization_id)
  && bool_decide (is_Some (db_workers d !! key.1))
  && bool_decide (gr_revoked_at g = None)
  && match gr_expires_at g with None => true | Some e => (now <? e)%Z end.

Definition device_access_for_user (d : Db) (now : Z) (user_id organization_id : string) : list DeviceAccess :=
  let own := map_to_list (filter (λ kv, kv.1.1 = organization_id) (db_workers d)) in
  let shared := map_to_list (filter (λ kv, grant_in_force d now user_id organization_id kv.1 kv.2 = true)
                               (db_grants d)) in
  merge_sort device_le
    (((λ kv : (string * string) * WorkerTableRow, mkDeviceAccess kv.1.1 kv.1.2 "organization_device" (parse_workflow_rules "[]") None None) <$> own)
     ++ ((λ kv : (string * string * string) * GrantRow, mkDeviceAccess kv.1.1.1 kv.1.1.2 "shared_pool_device"
                  (parse_workflow_rules (gr_allowed_workflows_json kv.2)) (gr_max_concurrent_jobs kv.2)
                  (gr_expires_at kv.2)) <$> shared)).

Definition device_access_for_principal (h : Hub) (now tick : Z) (p : Principal)
    : Res HubError (list DeviceAccess) * Hub :=
  match pc_user_id p with
  | None => (Err (Forbidden "device access requires a user identity"), h)
  | Some user_id =>
      match hb_store h with
      | None => (Err (Unavailable "PostgreSQL control plane is not configured"), h)
      | Some db =>
          let o := pc_organization_id p in
          let '(cached, cache) := cached_device_access tick (hb_read_cache h) o user_id in
          let h := with_read_cache h cache in
          match cached with
          | Some devices => (Ok devices, h)
          | None =>
              let devices := device_access_for_user db now user_id o in
              (Ok devices, with_read_cache h (cache_device_access tick cache o user_id devices))
          end
      end
  end.

Definition allowed_devices (devices : list DeviceAccess) : gmap (string * string) DeviceAccess :=
  foldl (λ m d, <[(da_device_organization_id d, da_device_id d) := d]> m) ∅ devices.

Section visiting.
Context (iter : gmap string WorkerSession → list (string * WorkerSession)).

Definition accessible_workers_for (h : Hub) (now tick : Z) (p : Principal)
    : Res HubError (list WorkerView) * Hub :=
  let '(res, h) := device_access_for_principal h now tick p in
  match res with
  | Err error => (Err error, h)
  | Ok devices =>
      let allowed := allowed_devices devices in
      let access (w : WorkerView) := allowed !! (vw_organization_id w, vw_worker_id w) in
      (Ok (list_matching_workflows iter (hb_sessions h)
             (λ w, bool_decide (is_Some (access w)))
             (λ w wf, is_some_and (λ a, device_workflow_allowed (da_allowed_workflows a) (wc_id wf) (wc_version wf))
                        (access w))), h)
  end.
End visiting.
End devices.

(** ** Submitting *)

Inductive SubmitProgress :=
| Answered (answer : Res HubError JobView) (h : Hub)
| SubmitAwaitingAck (record : JobRecord) (session_id : string) (effects : list SessionEffect) (h : Hub).

Definition answered (r : Res HubError JobView * Hub) : SubmitProgress := Answered r.1 r.2.

(** The job of a request, on the chosen worker. *)
Definition new_job (organization_id actor_id actor_kind : string) (actor_user_id : option string)
    (worker_organization_id : string) (worker : WorkerView) (request : SubmitJobRequest)
    (inputs : list JobInput) (job_id command_id : string) (now : Z) : JobRecord :=
  mkJobRecord organization_id actor_id actor_kind actor_user_id worker_organization_id
    (mkJobView job_id (rq_workflow_id request) (rq_workflow_version request) (rq_parameters request)
       (rq_input_artifact_ids request) [] (vw_worker_id worker) (vw_session_id worker) Received None None
       None [] now now)
    (mkDispatchJob command_id job_id 1 (rq_workflow_id request) (rq_workflow_version request)
       (rq_parameters request) inputs) 0.

(** The cache after the job was committed. *)
Definition cache_submission (data : HubData) (record : JobRecord) (inputs : list ArtifactRecord) : HubData :=
  let id := jv_id (hj_view record) in
  let bind (m : gmap string ArtifactRecord) (a : ArtifactRecord) :=
    alter (λ stored, let v := at_view stored in
      mkArtifactRecord (at_organization_id stored)
        (mkArtifactView (av_id v) (Some id) (av_name v) (av_content_type v) (av_size_bytes v)
           (av_sha256 v) (av_state v)) (at_object_key stored)) (av_id (at_view a)) m in
  mkHubData (foldl bind (hd_artifacts data) inputs) (hd_pending_uploads data)
    (<[id := record]> (hd_jobs data)) (hd_idempotency data).

Section submit.
Context `{!ObjectStore}.
Context (from_str_strings : string → Res string (list string)) (from_str_json : string → Res string Json)
        (scan : gmap (string * string * Z * Z) StoredJobEvent → list StoredJobEvent)
        (parse_rules : string → Res string (list DeviceWorkflowRule))
        (iter : gmap string WorkerSession → list (string * WorkerSession)).
(** [serde_json::to_string] of parameters and of ids, and the digest of a
    request. *)
Context (to_string_json : Json → string) (to_string_ids : list string → string)
        (request_hash : SubmitJobRequest → string).

(** The row of a new job. *)
Definition stored_of (record : JobRecord) : StoredJob :=
  let v := hj_view record in {|
  sj_organization_id := hj_organization_id record; sj_id := jv_id v; sj_actor_id := hj_actor_id record;
  sj_actor_kind := hj_actor_kind record; sj_actor_user_id := hj_actor_user_id record;
  sj_workflow_id := jv_workflow_id v; sj_workflow_version := jv_workflow_version v;
  sj_parameters_json := to_string_json (jv_parameters v);
  sj_input_artifact_ids_json := to_string_ids (jv_input_artifact_ids v);
  sj_output_artifact_ids_json := to_string_ids (jv_output_artifact_ids v);
  sj_worker_id := Some (jv_worker_id v); sj_worker_organization_id := Some (hj_worker_organization_id record);
  sj_session_id := Some (jv_session_id v); sj_attempt := dj_attempt (hj_dispatch record);
  sj_state := job_state_name (jv_state v); sj_progress := jv_progress v; sj_prompt_id := jv_prompt_id v;
  sj_error := jv_error v; sj_last_event := u64_to_i64_saturating (hj_last_event record);
  sj_created_at := jv_created_at_unix_ms v; sj_updated_at := jv_created_at_unix_ms v |}.

Definition commit_job_record (h : Hub) (record : JobRecord) (endpoint : string)
    (idempotency_key : option string) (hash : string) (device_admission : option DeviceUseAdmission)
    : Res HubError (CommitJobResult * Hub) :=
  match hb_store h with
  | None => Ok (Created, h)
  | Some db =>
      let idempotency := (λ key, mkIdempotencyInsert (hj_organization_id record) (hj_actor_kind record)
        (hj_actor_id record) endpoint key hash (jv_id (hj_view record))
        (jv_created_at_unix_ms (hj_view record))) <$> idempotency_key in
      match commit_new_job parse_rules db (stored_of record) (jv_input_artifact_ids (hj_view record))
              idempotency device_admission with
      | Ok (res, db') => Ok (res, with_store h db')
      | Err error => Err (map_store_error error)
      end
  end.

(** An input must be ready and not claimed. *)
Definition check_input (artifact_id : string) (a : ArtifactRecord) : Res HubError unit :=
  reject_if (negb (bool_decide (av_state (at_view a) = Ready))
             || bool_decide (is_Some (av_job_id (at_view a))))
    (Conflict ("input artifact " +:+ artifact_id +:+ " is not ready")).

Fixpoint load_inputs (h : Hub) (tick : Z) (organization_id : string) (ids : list string)
    : Res HubError (list ArtifactRecord) * Hub :=
  match ids with
  | [] => (Ok [], h)
  | id :: ids' =>
      let '(res, h1) := artifact_record h tick organization_id id in
      match res with
      | Err _ => (Err (NotFound ("input artifact " +:+ id)), h1)
      | Ok a =>
          match check_input id a with
          | Err error => (Err error, h1)
          | Ok _ =>
              let '(rest, h2) := load_inputs h1 tick organization_id ids' in
              (match rest with Ok records => Ok (a :: records) | Err error => Err error end, h2)
          end
      end
  end.

Definition job_input (a : ArtifactRecord) : Res HubError JobInput :=
  match presign_get (at_object_key a) with
  | Err error => Err (ObjectStoreError error)
  | Ok download =>
      let v := at_view a in
      Ok (mkJobInput (av_id v) (av_name v) (av_content_type v) (av_size_bytes v) (av_sha256 v) download)
  end.

Definition actor_id_of (p : Principal) : string :=
  if bool_decide (pc_kind p = BrowserSession) then default (pc_actor_id p) (pc_user_id p) else pc_actor_id p.

(** Workers the request may run on. *)
Definition eligible (accessible : list WorkerView) (request : SubmitJobRequest) (w : WorkerView) : bool :=
  bool_decide ((vw_organization_id w, vw_worker_id w)
               ∈ (λ v, (vw_organization_id v, vw_worker_id v)) <$> accessible)
  && match rq_device_organization_id request with None => true | Some o => String.eqb o (vw_organization_id w) end
  && match rq_device_id request with None => true | Some d => String.eqb d (vw_worker_id w) end
  && offers_workflow (rq_workflow_id request) (rq_workflow_version request) w.

(** From the committed job up to the wait for its ACK. *)
Definition send_submission (h : Hub) (now : Z) (record : JobRecord) (worker : WorkerView)
    (inputs : list ArtifactRecord) : SubmitProgress :=
  let h1 := with_data h (cache_submission (hb_data h) record inputs) in
  let dispatch := hj_dispatch record in
  match send_command_begin (hb_sessions h1) (hj_worker_organization_id record) (vw_worker_id worker)
          (vw_session_id worker) (dj_command_id dispatch) (HDispatchJob dispatch) with
  | Ok (r, effects) => SubmitAwaitingAck record (vw_session_id worker) effects (with_sessions h1 r)
  | Err error =>
      let h2 := update_job_error h1 now (jv_id (hj_view record)) (hub_error_text error) false in
      Answered (Err error)
        match hb_store h2 with
        | Some db => with_store h2 (Store.record_dispatch_error db now (hj_organization_id record)
                       (jv_id (hj_view record)) 1 (hub_error_text error))
        | None => h2
        end
  end.

Definition submit_job_for_principal (h : Hub) (now tick : Z) (job_id command_id : string) (p : Principal)
    (idempotency_key : option string) (request : SubmitJobRequest) : SubmitProgress :=
  let o := pc_organization_id p in
  let actor_id := actor_id_of p in
  let actor_kind := principal_kind_name (pc_kind p) in
  let hash := request_hash request in
  let refuse error h := Answered (Err error) h in
  match validate_submission request with
  | Err error => refuse error h
  | Ok _ =>
  if negb (Bool.eqb (bool_decide (is_Some (rq_device_id request)))
             (bool_decide (is_Some (rq_device_organization_id request)))) then
    refuse (InvalidRequest "device_id and device_organization_id must be provided together") h
  else
  match hb_store h with
  | None => refuse (Unavailable "PostgreSQL control plane is not configured") h
  | Some db =>
  match key ← idempotency_key; db_idempotency db !! (o, actor_kind, actor_id, "/api/v1/jobs", key) with
  | Some (stored_hash, existing) =>
      if negb (String.eqb stored_hash hash) then
        refuse (Conflict "idempotency key was already used for a different request") h
      else answered (job_for_principal from_str_strings from_str_json scan h tick p existing)
  | None =>
  let '(workers, h1) := accessible_workers_for parse_rules iter h now tick p in
  match workers with
  | Err error => refuse error h1
  | Ok accessible =>
  let '(records, h2) := load_inputs h1 tick o (rq_input_artifact_ids request) in
  match records with
  | Err error => refuse error h2
  | Ok input_records =>
  match try_map job_input input_records with
  | Err error => refuse error h2
  | Ok inputs =>
  let '(selected, r) := reserve_capacity iter (hb_sessions h2) command_id (eligible accessible request) in
  let h3 := with_sessions h2 r in
  match selected with
  | None => refuse (Unavailable "no accessible connected device has the requested workflow and capacity") h3
  | Some worker =>
  match pc_user_id p with
  | None => refuse (Forbidden "device access requires a user identity") h3
  | Some user_id =>
  let record := new_job o actor_id actor_kind (pc_user_id p) (vw_organization_id worker) worker request
                  inputs job_id command_id now in
  let admission := mkDeviceUseAdmission o user_id (vw_organization_id worker) (vw_worker_id worker)
                     (rq_workflow_id request) (rq_workflow_version request) 1 now in
  let release h := with_sessions h (release_capacity_reservation (hb_sessions h) (vw_organization_id worker)
                     (vw_worker_id worker) (vw_session_id worker) command_id) in
  match commit_job_record h3 record "/api/v1/jobs" idempotency_key hash (Some admission) with
  | Err error => refuse error (release h3)
  | Ok (Existing existing, h4) =>
      answered (job_for_principal from_str_strings from_str_json scan (release h4) tick p existing)
  | Ok (Created, h4) => send_submission h4 now record worker input_records
  end end end end end end end end end.

(** From the ACK, or the failure to get one, on. *)
Definition submit_job_finish (h : Hub) (now : Z) (record : JobRecord) (session_id : string)
    (outcome : CommandOutcome) : Res HubError JobView * Hub :=
  let o := hj_organization_id record in
  let id := jv_id (hj_view record) in
  let '(res, r) := send_command_finish (hb_sessions h) (hj_worker_organization_id record)
                     (jv_worker_id (hj_view record)) session_id (dj_command_id (hj_dispatch record)) outcome in
  let h1 := with_sessions h r in
  match res with
  | Ok ack =>
      if ca_accepted ack then
        (Ok (hj_view record),
         match hb_store h1 with
         | Some db => with_store h1 (mark_dispatch_delivered db now o id 1)
         | None => h1
         end)
      else (Err (Conflict "worker rejected the job"), update_job_error h1 now id (ca_message ack) true)
  | Err error =>
      let h2 := update_job_error h1 now id (hub_error_text error) false in
      (Err error,
       match hb_store h2 with
       | Some db => with_store h2 (Store.record_dispatch_error db now o id 1 (hub_error_text error))
       | None => h2
       end)
  end.
(** ** The legacy endpoint *)

Definition legacy_map_key (legacy key : string) : string :=
  nul_join legacy (nul_join "legacy_token" (nul_join "legacy_consumer" (nul_join "/v1/jobs" key))).

(** The inputs of the legacy endpoint must be resident. *)
Definition resident_input (data : HubData) (legacy artifact_id : string) : Res HubError ArtifactRecord :=
  match hd_artifacts data !! artifact_id with
  | Some a =>
      if String.eqb (at_organization_id a) legacy then check_input artifact_id a ;; Ok a
      else Err (NotFound ("input artifact " +:+ artifact_id))
  | None => Err (NotFound ("input artifact " +:+ artifact_id))
  end.

Definition remember_key (data : HubData) (key : option string) (job_id : string) : HubData :=
  match key with
  | Some k => mkHubData (hd_artifacts data) (hd_pending_uploads data) (hd_jobs data)
                (<[k := job_id]> (hd_idempotency data))
  | None => data
  end.

Definition resident_view (h : Hub) (job_id : string) (missing : HubError) : Res HubError JobView :=
  match hd_jobs (hb_data h) !! job_id with Some j => Ok (hj_view j) | None => Err missing end.

Definition submit_job (legacy : string) (h : Hub) (now : Z) (job_id command_id : string)
    (key : option string) (request : SubmitJobRequest) : SubmitProgress :=
  let hash := request_hash request in
  let map_key := legacy_map_key legacy <$> key in
  let not_loaded := Conflict "persisted job is not loaded" in
  let refuse error h := Answered (Err error) h in
  match validate_submission request with
  | Err error => refuse error h
  | Ok _ =>
  match db ← hb_store h; k ← key; db_idempotency db !! (legacy, "legacy_token", "legacy_consumer", "/v1/jobs", k) with
  | Some (stored_hash, existing) =>
      if negb (String.eqb stored_hash hash) then
        refuse (Conflict "idempotency key was already used for a different request") h
      else Answered (resident_view h existing not_loaded) h
  | None =>
  match k ← map_key; hd_idempotency (hb_data h) !! k with
  | Some existing => Answered (resident_view h existing (Conflict "idempotency record is stale")) h
  | None =>
  match try_map (resident_input (hb_data h) legacy) (rq_input_artifact_ids request) with
  | Err error => refuse error h
  | Ok input_records =>
  match try_map job_input input_records with
  | Err error => refuse error h
  | Ok inputs =>
  let '(selected, r) := reserve_capacity iter (hb_sessions h) command_id
    (λ w, String.eqb (vw_organization_id w) legacy
          && offers_workflow (rq_workflow_id request) (rq_workflow_version request) w) in
  let h1 := with_sessions h r in
  match selected with
  | None => refuse (Unavailable "no connected worker has the requested workflow and capacity") h1
  | Some worker =>
  let record := new_job legacy "legacy_consumer" "legacy_token" None legacy worker request inputs
                  job_id command_id now in
  let release h := with_sessions h (release_capacity_reservation (hb_sessions h) (vw_organization_id worker)
                     (vw_worker_id worker) (vw_session_id worker) command_id) in
  match commit_job_record h1 record "/v1/jobs" key hash None with
  | Err error => refuse error (release h1)
  | Ok (Existing existing, h2) => Answered (resident_view h2 existing not_loaded) (release h2)
  | Ok (Created, h2) =>
      send_submission (with_data h2 (remember_key (hb_data h2) map_key job_id)) now record worker input_records
  end end end end end end end.
End submit.

(** ** Reading changes the read cache only *)

Definition same_but_cache (h h' : Hub) : Prop :=
  hb_store h' = hb_store h ∧ hb_data h' = hb_data h ∧ hb_sessions h' = hb_sessions h.

#[export] Instance same_but_cache_preorder : PreOrder same_but_cache.
Proof. split; [done|]. unfold same_but_cache. intros x y z (?&?&?) (?&?&?). by split_and!; etrans. Qed.

Lemma load_job_same strings json scan h tick o id :
  same_but_cache h (load_job strings json scan h tick o id).2.
Proof.
  unfold load_job. destruct (cached_job _ _ _ _) as [[v|] c]; [done|]. simpl.
  destruct (hb_store h) as [db|]; [|done]. destruct (job db o id); [|done].
  destruct (job_view_from_stored _ _ _ _) as [v|]; [|done]. by destruct (is_terminal _).
Qed.

Lemma job_for_principal_same strings json scan h tick p id :
  same_but_cache h (job_for_principal strings json scan h tick p id).2.
Proof.
  unfold job_for_principal. destruct (hd_jobs _ !! _) as [r|]; [|apply load_job_same].
  destruct (String.eqb _ _); [done|apply load_job_same].
Qed.

Lemma accessible_same rules iter h now tick p :
  same_but_cache h (accessible_workers_for rules iter h now tick p).2.
Proof.
  unfold accessible_workers_for, device_access_for_principal. destruct (pc_user_id p); [|done].
  destruct (hb_store h) as [db|] eqn:Hdb; [|done]. destruct (cached_device_access _ _ _ _) as [[v|] c]; done.
Qed.

Lemma accessible_user rules iter h now tick p workers h' :
  accessible_workers_for rules iter h now tick p = (Ok workers, h') → is_Some (pc_user_id p).
Proof. unfold accessible_workers_for, device_access_for_principal. destruct (pc_user_id p); [by eexists|done]. Qed.

Lemma artifact_record_same h tick o id : same_but_cache h (artifact_record h tick o id).2.
Proof.
  assert (same_but_cache h (load_artifact h tick o id).2) as Hl.
  { unfold load_artifact. destruct (cached_artifact _ _ _ _) as [[a|] c]; [done|]. simpl.
    destruct (hb_store h ≫= _) as [stored|]; [|done]. destruct (stored_record stored); [|done].
    by case_bool_decide. }
  unfold artifact_record. destruct (hd_artifacts _ !! _) as [a|]; [|done]. by destruct (String.eqb _ _).
Qed.

Lemma load_inputs_same h tick o ids : same_but_cache h (load_inputs h tick o ids).2.
Proof.
  revert h. induction ids as [|id ids IH]; intros h; simpl; [done|].
  pose proof (artifact_record_same h tick o id) as H1. destruct (artifact_record h tick o id) as [[a|] h1]; [|done].
  destruct (check_input id a); [|done]. specialize (IH h1). destruct (load_inputs h1 tick o ids) as [rest h2].
  by etrans.
Qed.

(** ** Reserving and releasing *)

(** Every session is registered under its own identity. *)
Definition registry_keyed (r : SessionRegistry) : Prop :=
  map_Forall (λ k s, k = session_key (vw_organization_id (ws_view s)) (vw_worker_id (ws_view s))) (sr_inner r).

(** A command id no session has charged, as a new UUID. *)
Definition fresh_command (r : SessionRegistry) (cmd : string) : Prop :=
  map_Forall (λ _ s, ¬ charged cmd s) (sr_inner r).

Section specs.
Context `{!ObjectStore}.
Context (strings : string → Res string (list string)) (json : string → Res string Json)
        (scan : gmap (string * string * Z * Z) StoredJobEvent → list StoredJobEvent)
        (rules : string → Res string (list DeviceWorkflowRule))
        (iter : gmap string WorkerSession → list (string * WorkerSession))
        (to_string_json : Json → string) (to_string_ids : list string → string)
        (request_hash : SubmitJobRequest → string).
Hypothesis iter_perm : ∀ m, iter m ≡ₚ map_to_list m.

Lemma reserve_capacity_None r cmd pred r' : reserve_capacity iter r cmd pred = (None, r') → r' = r.
Proof.
  unfold reserve_capacity. destruct (min_by_key _ _) as [[k s]|]; [|congruence].
  destruct (sr_inner r !! k ≫= _); congruence.
Qed.

(** What a reservation found, and that releasing it restores the registry. *)
Lemma reserve_capacity_spec r cmd pred v r' :
  registry_keyed r → fresh_command r cmd → reserve_capacity iter r cmd pred = (Some v, r') →
  let o := vw_organization_id v in let w := vw_worker_id v in let sid := vw_session_id v in
  ∃ s s', sr_inner r !! session_key o w = Some s ∧ pred (ws_view s) = true
    ∧ current r' o w sid = Some s' ∧ charged cmd s' ∧ ws_view s' = ws_view s
    ∧ vw_organization_id (ws_view s) = o ∧ vw_worker_id (ws_view s) = w
    ∧ release_capacity_reservation r' o w sid cmd = r.
Proof.
  intros Hkey Hfresh. unfold reserve_capacity. destruct (min_by_key _ _) as [[k s]|] eqn:Hm; [|done].
  apply (min_eligible iter iter_perm) in Hm as (Hk & Hp & _ & _). rewrite Hk. simpl.
  destruct (take_slot cmd s) as [s'|] eqn:Ht; [|done]. apply take_slot_Some in Ht as [Hn ->].
  intros [= <- <-]. simpl. pose proof (Hkey k s Hk) as ->. pose proof (Hfresh _ s Hk) as Hc. unfold charged in Hc.
  set (s' := set_reservations s _ _).
  assert (Hcur : current (with_inner r (<[session_key (vw_organization_id (ws_view s)) (vw_worker_id (ws_view s)) := s']>
      (sr_inner r))) (vw_organization_id (ws_view s)) (vw_worker_id (ws_view s)) (vw_session_id (ws_view s)) = Some s').
  { apply current_Some. simpl. by rewrite lookup_insert_eq. }
  exists s, s'. split_and!; try done; [left; simpl; set_solver|].
  unfold release_capacity_reservation, update_current. rewrite Hcur. unfold with_inner. simpl.
  rewrite insert_insert_eq, insert_id; [by destruct r|]. rewrite Hk. f_equal.
  destruct s as [vw cr pd pr cf ls]. unfold set_reservations. simpl in *. f_equal; set_solver.
Qed.

(** The user may run the workflow on the device. *)
Definition may_use (db : Db) (now : Z) (user organization_id : string) (device : string * string)
    (workflow_id workflow_version : string) : Prop :=
  device.1 = organization_id ∧ is_Some (db_workers db !! device)
  ∨ ∃ g allowed, db_grants db !! (device, user) = Some g ∧ gr_revoked_at g = None
      ∧ (∀ e, gr_expires_at g = Some e → (now < e)%Z)
      ∧ rules (gr_allowed_workflows_json g) = Ok allowed
      ∧ device_workflow_allowed allowed workflow_id workflow_version = true.

Lemma enforce_may_use db o user wo w wf ver n now :
  enforce_device_use_policy_tx rules db (mkDeviceUseAdmission o user wo w wf ver n now) = Ok tt →
  may_use db now user o (wo, w) wf ver.
Proof.
  unfold enforce_device_use_policy_tx. simpl. destruct (String.eqb_spec wo o) as [->|].
  - intros Hw%reject_if_Ok. bool_cases. left. by split.
  - intros (g & Hg%ok_or_Ok & Hc)%bind_Ok. apply bind_Ok in Hc as (rs & Hrs & Hc).
    apply bind_Ok_tt in Hc as [Hallow%reject_if_Ok _]. bool_cases.
    apply bind_Some in Hg as (g' & Hg' & Hif). destruct (_ && _) eqn:Hb; [|done]. injection Hif as ->. bool_cases.
    right. exists g, rs. split_and!; try done.
    + intros e He. rewrite He in *. lia.
    + by destruct (rules _) as [rs'|]; [injection Hrs as ->|].
Qed.

Lemma commit_existing d row ids idem adm j d' :
  commit_new_job rules d row ids idem adm = Ok (Existing j, d') → d' = d.
Proof. unfold commit_new_job. intros Hc. apply bind_Ok in Hc as ([k|] & _ & Hc); [congruence|]. inv_ok. done. Qed.

Lemma commit_created_dispatch d row ids idem adm d' :
  commit_new_job rules d row ids idem adm = Ok (Created, d') →
  db_outbox d' = <[(sj_organization_id row, sj_id row, sj_attempt row) := mkOutboxRow "pending" 0
      (i64_saturating_add (sj_created_at row) INITIAL_DISPATCH_DELAY_MS) None None]> (db_outbox d)
  ∧ ∀ a, adm = Some a → enforce_device_use_policy_tx rules d a = Ok tt.
Proof.
  unfold commit_new_job. intros Hc. apply bind_Ok in Hc as ([k|] & _ & Hc); [done|].
  apply bind_Ok in Hc as (quota & _ & Hc). apply bind_Ok in Hc as (usage & _ & Hc).
  apply bind_Ok_tt in Hc as [Hadm Hc]. apply bind_Ok_tt in Hc as [_ Hc].
  apply bind_Ok in Hc as (d1 & Hd1 & Hc). apply bind_Ok_tt in Hc as [_ Hc]. apply bind_Ok_tt in Hc as [_ Hc].
  injection Hc as <-. split; [|by intros a ->].
  assert (db_outbox d1 = db_outbox d) as <-.
  { case_bool_decide; [by injection Hd1 as <-|]. apply claim_artifacts_frame in Hd1. tauto. }
  by destruct idem.
Qed.

(** A job that was committed and sent. *)
Record submitted (h : Hub) (db : Db) (now : Z) (id cmd : string) (p : Principal) (request : SubmitJobRequest)
    (record : JobRecord) (sid : string) (effects : list SessionEffect) (h' : Hub) : Prop := {
  sm_owner : hj_organization_id record = pc_organization_id p ∧ hj_actor_user_id record = pc_user_id p;
  sm_view : jv_id (hj_view record) = id ∧ jv_workflow_id (hj_view record) = rq_workflow_id request
    ∧ jv_workflow_version (hj_view record) = rq_workflow_version request
    ∧ jv_parameters (hj_view record) = rq_parameters request
    ∧ jv_input_artifact_ids (hj_view record) = rq_input_artifact_ids request;
  sm_store : ∃ db', hb_store h' = Some db'
    ∧ db_jobs db' = <[(pc_organization_id p, id) :=
        mkJobTableRow (stored_of to_string_json to_string_ids record) None None None]> (db_jobs db)
    ∧ db_outbox db' = <[(pc_organization_id p, id, 1%Z) :=
        mkOutboxRow "pending" 0 (i64_saturating_add now 5000) None None]> (db_outbox db);
  sm_cache : hd_jobs (hb_data h') = <[id := record]> (hd_jobs (hb_data h));
  sm_sent : effects = [TrySend sid (HDispatchJob (hj_dispatch record))] ∧ dj_command_id (hj_dispatch record) = cmd;
  sm_slot : ∃ s, current (hb_sessions h') (hj_worker_organization_id record) (jv_worker_id (hj_view record)) sid = Some s
    ∧ charged cmd s ∧ offers_workflow (rq_workflow_id request) (rq_workflow_version request) (ws_view s) = true;
  sm_device : (∀ o, rq_device_organization_id request = Some o → hj_worker_organization_id record = o)
    ∧ (∀ d, rq_device_id request = Some d → jv_worker_id (hj_view record) = d);
  sm_allowed : ∃ user, pc_user_id p = Some user
    ∧ may_use db now user (pc_organization_id p) (hj_worker_organization_id record, jv_worker_id (hj_view record))
        (rq_workflow_id request) (rq_workflow_version request);
}.

(** C27: A submission happens whole or not at all.  When it is refused for
    whatever reason, or repeats an earlier one, store, cache and registry are
    what they were, the slot it had reserved included.  Otherwise exactly one
    job row and one outbox row are added, the job is cached, its slot is
    charged on the current session of a worker that offers the workflow, is the
    device the request names, and belongs to the organization or is shared with
    the user for this workflow, and the dispatch of the stored job is sent to
    that session. *)
Theorem submission_all_or_nothing h now tick id cmd p key request db :
  hb_store h = Some db → registry_keyed (hb_sessions h) → fresh_command (hb_sessions h) cmd →
  match submit_job_for_principal strings json scan rules iter to_string_json to_string_ids request_hash
          h now tick id cmd p key request with
  | Answered _ h' => same_but_cache h h'
  | SubmitAwaitingAck record sid effects h' => submitted h db now id cmd p request record sid effects h'
  end.
Proof.
  intros Hdb Hkey Hfresh. unfold submit_job_for_principal.
  destruct (validate_submission request); [|done]. destruct (negb _); [done|]. rewrite Hdb.
  destruct (key ≫= _) as [[hash existing]|].
  { destruct (negb _); [done|]. apply job_for_principal_same. }
  pose proof (accessible_same rules iter h now tick p) as H1.
  destruct (accessible_workers_for _ _ _ _ _ _) as [[acc|e] h1] eqn:Hacc; [|done]. simpl in H1.
  apply accessible_user in Hacc as Hu.
  pose proof (load_inputs_same h1 tick (pc_organization_id p) (rq_input_artifact_ids request)) as H2.
  destruct (load_inputs _ _ _ _) as [[recs|e] h2]; [|by etrans]. simpl in H2.
  assert (H12 : same_but_cache h h2) by by etrans. clear H1 H2. destruct H12 as (Hst & Hda & Hse).
  destruct (try_map job_input recs) as [inputs|e]; [|done].
  destruct (reserve_capacity _ _ _ _) as [[worker|] r] eqn:Hres.
  2: { apply reserve_capacity_None in Hres as ->. by split_and!; simpl. }
  rewrite Hse in Hres. apply reserve_capacity_spec in Hres; [|done..].
  destruct Hres as (s & s' & Hs & Hpred & Hcur & Hch & Hview & Ho & Hw & Hrel).
  destruct Hu as [user Huser]. rewrite Huser. unfold commit_job_record. simpl. rewrite Hst, Hdb.
  destruct (commit_new_job _ _ _ _ _ _) as [[[|existing] db']|error] eqn:Hcommit.
  - apply commit_created in Hcommit as Hc1. apply commit_created_dispatch in Hcommit as Hc2.
    destruct Hc1 as (_ & _ & _ & _ & _ & _ & _ & Hjobs & _). destruct Hc2 as [Hout Hadm].
    specialize (Hadm _ eq_refl). apply enforce_may_use in Hadm. unfold send_submission. simpl.
    destruct (send_command_begin r _ _ _ _ _) as [[r3 effects]|] eqn:Hsend.
    2: { unfold send_command_begin in Hsend. by rewrite Hcur in Hsend. }
    destruct (send_begin_spec _ _ _ _ _ _ _ _ _ Hsend Hcur) as [-> Hcur3].
    apply andb_true_iff in Hpred as [Hpred Hoffer]. apply andb_true_iff in Hpred as [Hpred Hdev].
    apply andb_true_iff in Hpred as [_ Horg]. rewrite Ho in Horg. rewrite Hw in Hdev.
    split; simpl; rewrite ?Huser; try done.
    + by exists db'.
    + by rewrite Hda.
    + eexists. split_and!; [done|done|]. simpl. by rewrite Hview.
    + split; [intros o' Ho'; rewrite Ho' in Horg|intros d Hd; rewrite Hd in Hdev]; by apply eq_sym, String.eqb_eq.
    + by exists user.
  - apply commit_existing in Hcommit as ->. unfold answered. etrans; [|apply job_for_principal_same].
    split_and!; simpl; congruence.
  - split_and!; simpl; congruence.
Qed.
End specs.

(** ** Witnesses *)
Module SubmissionExample.
(** The device "gpu" of "acme" is idle and has room for two jobs. *)
Definition hub : Hub :=
  mkHub HubData_default (BatchExample.registry 0) ReadCache_default (Some (BatchExample.db 0)).
Definition member : Principal := mkPrincipal BrowserSession "u" (Some "u") "acme" Member ∅.
Definition request (workflow : string) : SubmitJobRequest := mkSubmitJobRequest workflow "1" (JObject []) [] None None.
Definition submit (h : Hub) (id cmd : string) (p : Principal) (r : SubmitJobRequest) : SubmitProgress :=
  submit_job_for_principal HubExample.strings HubExample.json HubExample.scan StoreExample.rules
    SessionExample.iter (λ _, "{}") (λ _, "[]") (λ _, "hash") h 1000 0 id cmd p (Some id) r.
Definition sent : Hub := match submit hub "j1" "c1" member (request "w") with
  | SubmitAwaitingAck _ _ _ h => h | Answered _ h => h end.
Definition record : JobRecord := default (HubExample.record "acme") (hd_jobs (hb_data sent) !! "j1").
(** The ACK does not arrive, and five seconds later the consumer sends again. *)
Definition timed_out : Hub := (submit_job_finish sent 2000 record "s1" AckTimedOut).2.
Definition retried : Hub :=
  match hb_store timed_out with
  | Some db =>
      match dispatch_outbox_begin HubExample.strings HubExample.json HubExample.scan timed_out db 7000 ("acme", "j1", 1%Z) with
      | AwaitingAck _ _ _ _ _ h => h
      | Settled _ h => h
      end
  | None => timed_out
  end.
Definition is_answered (p : SubmitProgress) : bool := match p with Answered _ _ => true | _ => false end.
(** How many slots of "gpu" are taken. *)
Definition load (h : Hub) : option Z :=
  worker_capacity_load <$> sr_inner (hb_sessions h) !! session_key "acme" "gpu".

Lemma keyed : registry_keyed (hb_sessions hub).
Proof. unfold registry_keyed. apply (bool_decide_unpack _). vm_compute. exact I. Qed.
Lemma fresh : fresh_command (hb_sessions hub) "c1".
Proof. unfold fresh_command, charged. apply (bool_decide_unpack _). vm_compute. exact I. Qed.
End SubmissionExample.

(** A dispatch that is sent again is charged twice: a job submitted directly
    takes one of its worker's two slots; when its ACK is late and the outbox
    consumer sends it again, it does so under another command id, for which a
    second slot is reserved, so that the worker counts as full, and another
    submission is refused, while it has one job. *)
Theorem resent_submission_charged_twice :
  let refused h := match SubmissionExample.submit h "j2" "c2" SubmissionExample.member
                           (SubmissionExample.request "w") with
                   | Answered (Err e) _ => Some e | _ => None end in
  SubmissionExample.load SubmissionExample.sent = Some 1%Z
  ∧ SubmissionExample.load SubmissionExample.timed_out = Some 1%Z
  ∧ SubmissionExample.load SubmissionExample.retried = Some 2%Z
  ∧ refused SubmissionExample.sent = None
  ∧ refused SubmissionExample.retried
    = Some (Unavailable "no accessible connected device has the requested workflow and capacity")
  ∧ option_map (λ db, size (db_jobs db)) (hb_store SubmissionExample.retried) = Some 1.
Proof. split_and!; vm_compute; reflexivity. Qed.

Lemma submission_all_or_nothing_witness :
  same_but_cache SubmissionExample.hub
    (match SubmissionExample.submit SubmissionExample.hub "j1" "c1" SubmissionExample.member
             (SubmissionExample.request "other") with
     | Answered _ h => h | SubmitAwaitingAck _ _ _ h => h end)
  ∧ ∃ db', hb_store SubmissionExample.sent = Some db' ∧ is_Some (db_outbox db' !! ("acme", "j1", 1%Z)).
Proof.
  pose proof (submission_all_or_nothing HubExample.strings HubExample.json HubExample.scan StoreExample.rules
    SessionExample.iter (λ _, "{}") (λ _, "[]") (λ _, "hash") SessionExample.iter_perm SubmissionExample.hub
    1000 0 "j1" "c1" SubmissionExample.member (Some "j1") (SubmissionExample.request "other")
    (BatchExample.db 0) eq_refl SubmissionExample.keyed SubmissionExample.fresh) as H1.
  pose proof (submission_all_or_nothing HubExample.strings HubExample.json HubExample.scan StoreExample.rules
    SessionExample.iter (λ _, "{}") (λ _, "[]") (λ _, "hash") SessionExample.iter_perm SubmissionExample.hub
    1000 0 "j1" "c1" SubmissionExample.member (Some "j1") (SubmissionExample.request "w")
    (BatchExample.db 0) eq_refl SubmissionExample.keyed SubmissionExample.fresh) as H2.
  assert (E1 : SubmissionExample.is_answered (SubmissionExample.submit SubmissionExample.hub "j1" "c1"
    SubmissionExample.member (SubmissionExample.request "other")) = true) by (vm_compute; reflexivity).
  assert (E2 : SubmissionExample.is_answered (SubmissionExample.submit SubmissionExample.hub "j1" "c1"
    SubmissionExample.member (SubmissionExample.request "w")) = false) by (vm_compute; reflexivity).
  unfold SubmissionExample.sent. unfold SubmissionExample.submit in *.
  split; (destruct (submit_job_for_principal _ _ _ _ _ _ _ _ _ _ _ _ _ _ _ (SubmissionExample.request "other"));
    [|discriminate E1]); [exact H1|].
  destruct (submit_job_for_principal _ _ _ _ _ _ _ _ _ _ _ _ _ _ _ _); [discriminate E2|].
  destruct (sm_store _ _ _ _ _ _ _ _ _ _ _ _ _ _ H2) as (db' & Hdb & _ & Hout). exists db'. split; [exact Hdb|].
  rewrite Hout. rewrite lookup_insert_eq. eexists. reflexivity.
Defined.
