(* ===== verification/Connection.v ===== *)
(** A worker's connection to the Hub ([nagisalake-hub/src/hub/worker.rs]:
    registration, the rebinding of its jobs after a reconnect, and the messages
    it sends; [upsert_worker], [touch_worker_heartbeat] and
    [terminal_recovery_jobs_for_worker] of the store).

    [serve_worker] is split where it waits: registration up to the answer
    ([register_worker]), the replay of one dispatch ([replay_dispatch]), one
    received message ([handle_worker_message]) and the end of the connection
    ([Sessions.remove_if_current]).  The tables of advertised workflows are not
    modelled, and a frame that cannot be written only ends the connection.

    Main results: after a reconnect every live job of the worker is bound to
    the new session, in the cache and in the store, and is sent again, and
    nothing else is; a superseded connection cannot keep its worker alive;
    whatever the Hub does, over any sequence of its handlers, the quota
    counters stay exact. *)

From S2P Require Import Prelude Text Json Messages Validate Core HubTypes Principal Helpers TtlCache HubState Sessions Store HubJobs Artifacts Batches Dispatch Submission.
From Stdlib Require Import ZArith Lia.

(** ** The store's worker rows *)

Definition upsert_worker (d : Db) (organization_id worker_id : string) (owner_user_id : option string)
    (register : Register) (capabilities_json session_id : string) (now : Z) : Res StoreError Db :=
  let key := (organization_id, worker_id) in
  let row := mkWorkerTableRow owner_user_id (Some session_id) now (rg_namespace register) (rg_node_name register)
               (rg_worker_version register) capabilities_json in
  match db_workers d !! key with
  | Some existing =>
      if bool_decide (wt_owner_user_id existing = owner_user_id)
      then Ok (set_workers d (<[key := row]> (db_workers d)))
      else Err (StConflict "worker identity belongs to another user")
  | None => Ok (set_workers d (<[key := row]> (db_workers d)))
  end.

Definition touch_worker_heartbeat (d : Db) (organization_id worker_id session_id : string) (now : Z) : Db :=
  set_workers d (alter (λ r,
    if sql_eq (wt_last_session_id r) session_id
    then mkWorkerTableRow (wt_owner_user_id r) (wt_last_session_id r) now (wt_namespace r) (wt_node_name r)
           (wt_worker_version r) (wt_capabilities_json r) else r)
    (organization_id, worker_id) (db_workers d)).

(** SELECT DISTINCT id .. ORDER BY id. *)
Definition terminal_recovery_jobs_for_worker (d : Db) (worker_organization_id worker_id : string)
    (recovery_job_ids : list string) : list string :=
  merge_sort String.le (elements (list_to_set ((λ kv, kv.1.2) <$> map_to_list (filter (λ kv,
    sj_worker_organization_id (jt_job kv.2) = Some worker_organization_id
    ∧ sj_worker_id (jt_job kv.2) = Some worker_id
    ∧ kv.1.2 ∈ recovery_job_ids ∧ unfinished kv.2 = false) (db_jobs d))) : gset string)).

(** ** Rebinding after a reconnect *)

(** What the loop does with one job. *)
Inductive RebindStep :=
| SkipJob
| StopRebinding
| ReplayJob (dispatch : DispatchJob).

(** The record of a job that is sent again. *)
Definition rebound_record (current : JobRecord) (session_id command_id : string) (inputs : list JobInput)
    (now : Z) : JobRecord :=
  let v := hj_view current in
  let d := hj_dispatch current in
  mkJobRecord (hj_organization_id current) (hj_actor_id current) (hj_actor_kind current)
    (hj_actor_user_id current) (hj_worker_organization_id current)
    (set_view v session_id (jv_state v) (jv_progress v) (jv_prompt_id v) (jv_error v) (jv_events v)
       (Z.max (jv_updated_at_unix_ms v) now))
    (mkDispatchJob command_id (dj_job_id d) (dj_attempt d) (dj_workflow_id d) (dj_workflow_version d)
       (dj_parameters d) inputs) (hj_last_event current).

Definition of_worker (organization_id worker_id : string) (j : JobRecord) : bool :=
  String.eqb (hj_worker_organization_id j) organization_id
  && String.eqb (jv_worker_id (hj_view j)) worker_id
  && negb (is_terminal (jv_state (hj_view j))).

Section rebind.
Context `{!ObjectStore}.
(** The order of the job table in memory, and the new command ids. *)
Context (job_order : gmap string JobRecord → list JobRecord) (new_command : string → string).

Fixpoint load_artifacts (h : Hub) (tick : Z) (organization_id : string) (ids : list string)
    : Res HubError (list ArtifactRecord) * Hub :=
  match ids with
  | [] => (Ok [], h)
  | id :: ids' =>
      let '(res, h1) := artifact_record h tick organization_id id in
      match res with
      | Err error => (Err error, h1)
      | Ok a =>
          let '(rest, h2) := load_artifacts h1 tick organization_id ids' in
          (match rest with Ok l => Ok (a :: l) | Err error => Err error end, h2)
      end
  end.

(** The write to the cache, under the session guard. *)
Definition merge_rebound (h : Hub) (now : Z) (organization_id worker_id session_id job_id : string)
    (snapshot : JobRecord) (inputs : list JobInput) : RebindStep * Hub :=
  match hd_jobs (hb_data h) !! job_id with
  | None => (SkipJob, h)
  | Some current =>
      if negb (of_worker organization_id worker_id current)
         || negb (dj_attempt (hj_dispatch current) =? dj_attempt (hj_dispatch snapshot))%Z
      then (SkipJob, h)
      else
        let record := rebound_record current session_id (new_command job_id) inputs now in
        (ReplayJob (hj_dispatch record),
         with_data h (set_hub_jobs (hb_data h) (<[job_id := record]> (hd_jobs (hb_data h)))))
  end.

Definition rebind_job (h : Hub) (now tick : Z) (organization_id worker_id session_id job_id : string)
    : Res HubError RebindStep * Hub :=
  match hd_jobs (hb_data h) !! job_id with
  | None => (Ok SkipJob, h)
  | Some job =>
      let '(res, h1) := load_artifacts h tick (hj_organization_id job) (jv_input_artifact_ids (hj_view job)) in
      match (artifacts ← res; try_map job_input artifacts) with
      | Err error => (Err error, h1)
      | Ok inputs =>
          if negb (bool_decide (current_session_id (hb_sessions h1) organization_id worker_id = Some session_id))
          then (Ok StopRebinding, h1)
          else
            let '(rebound, h2) :=
              match hb_store h1 with
              | None => (true, h1)
              | Some db =>
                  let '(rebound, db') := rebind_stored db (hj_organization_id job) (jv_id (hj_view job))
                    (dj_attempt (hj_dispatch job)) (jv_session_id (hj_view job)) session_id now in
                  (rebound, with_store h1 db')
              end in
            if negb rebound then (Ok SkipJob, h2)
            else if guard_current_session (hb_sessions h2) organization_id worker_id session_id then
              let '(step, h3) := merge_rebound h2 now organization_id worker_id session_id job_id job inputs in
              (Ok step, h3)
            else (Ok StopRebinding, h2)
      end
  end.

Fixpoint rebind_loop (h : Hub) (now tick : Z) (organization_id worker_id session_id : string)
    (job_ids : list string) : Res HubError (list DispatchJob) * Hub :=
  match job_ids with
  | [] => (Ok [], h)
  | id :: ids =>
      let '(res, h1) := rebind_job h now tick organization_id worker_id session_id id in
      match res with
      | Err error => (Err error, h1)
      | Ok StopRebinding => (Ok [], h1)
      | Ok SkipJob => rebind_loop h1 now tick organization_id worker_id session_id ids
      | Ok (ReplayJob d) =>
          let '(rest, h2) := rebind_loop h1 now tick organization_id worker_id session_id ids in
          (match rest with Ok l => Ok (d :: l) | Err error => Err error end, h2)
      end
  end.

Definition rebind_jobs_for_session (h : Hub) (now tick : Z) (organization_id worker_id session_id : string)
    : Res HubError (list DispatchJob) * Hub :=
  rebind_loop h now tick organization_id worker_id session_id
    ((λ j, jv_id (hj_view j)) <$> List.filter (of_worker organization_id worker_id) (job_order (hd_jobs (hb_data h)))).

(** ** Registration *)

Record WorkerAuth := mkWorkerAuth {
  wa_organization_id : string;
  wa_owner_user_id : option string;
  wa_allowed_namespace : option string;
  wa_credential_id : option string;
}.

Definition new_session (auth : WorkerAuth) (register : Register) (session_id : string) (now tick : Z)
    : WorkerSession :=
  mkWorkerSession
    (mkWorkerView (wa_organization_id auth) (wa_owner_user_id auth) (worker_id_of register) session_id
       (rg_namespace register) (rg_node_name register) (rg_capabilities register) 0 0 now)
    (wa_credential_id auth) ∅ ∅ ∅ tick.

(** The frames that follow [Registered]: the cancellations of jobs that are
    already finished; their command ids are those of the pairs. *)
Definition recovery_cancel (uuid : string → string) (job_id : string) : HubMessage :=
  HCancelJob (mkCancelJob (uuid job_id) job_id "Hub already recorded this recovered job as terminal").

(** Up to the answer; [None] when the connection is refused.  The replay is
    what [replay_dispatch] sends after it.  [capabilities_text] is
    [serde_json::to_string]. *)
Definition register_worker (capabilities_text : WorkerCapabilities → Res string string) (h : Hub) (now tick : Z) (session_id : string) (uuid : string → string)
    (heartbeat_interval_seconds : Z) (auth : WorkerAuth) (register : Register)
    : option (list HubMessage * list DispatchJob) * list SessionEffect * Hub :=
  let o := wa_organization_id auth in
  let w := worker_id_of register in
  if negb (is_ok (validate register)) then (None, [], h)
  else if is_some_and (λ allowed, negb (String.eqb allowed (rg_namespace register))) (wa_allowed_namespace auth)
  then (None, [], h)
  else
    match
      match hb_store h with
      | None => Ok h
      | Some db =>
          capabilities_json ← match capabilities_text (rg_capabilities register) with Ok t => Ok t | Err e => Err (Database e) end;
          db' ← upsert_worker db o w (wa_owner_user_id auth) register capabilities_json session_id now;
          Ok (with_read_cache (with_store h db')
                (remove_device_access_for_organization (hb_read_cache h) o))
      end
    with
    | Err _ => (None, [], h)
    | Ok h1 =>
        let '(registered, r, effects) := Sessions.insert (hb_sessions h1) (new_session auth register session_id now tick) in
        let h2 := with_sessions h1 r in
        if negb registered then (None, effects, h2)
        else
          let recovered := match hb_store h2 with
                           | Some db => terminal_recovery_jobs_for_worker db o w (rg_recovery_job_ids register)
                           | None => []
                           end in
          match rebind_jobs_for_session h2 now tick o w session_id with
          | (Ok replay, h3) =>
              (Some (HRegistered (mkRegistered w session_id heartbeat_interval_seconds now)
                       :: (recovery_cancel uuid <$> recovered), replay), effects, h3)
          | (Err _, h3) => (None, effects, with_sessions h3 (remove_if_current (hb_sessions h3) o w session_id))
          end
    end.

(** One dispatch of the replay is handed to the connection and its row marked. *)
Definition replay_dispatch (h : Hub) (now : Z) (organization_id worker_id session_id : string)
    (dispatch : DispatchJob) : list SessionEffect * Hub :=
  if negb (bool_decide (current_session_id (hb_sessions h) organization_id worker_id = Some session_id))
  then ([], h)
  else
    ([TrySend session_id (HDispatchJob dispatch)],
     match hb_store h with
     | Some db => with_store h (mark_dispatch_delivered db now organization_id (dj_job_id dispatch) (dj_attempt dispatch))
     | None => h
     end).
End rebind.

(** ** Messages *)
Section messages.
Context `{!ObjectStore, !JsonbArray}.
Context (from_str_strings : string → Res string (list string)) (from_str_json : string → Res string Json)
        (scan : gmap (string * string * Z * Z) StoredJobEvent → list StoredJobEvent)
        (max_artifact_bytes : Z).

(** The answer is the frame to send, if any; an ACK also wakes the command
    that waits for it. *)
Definition handle_worker_message (h : Hub) (now tick : Z) (uuid : string) (faults : Faults)
    (organization_id worker_id session_id : string) (message : WorkerMessage)
    : Res HubError (option HubMessage) * Hub :=
  match message with
  | WRegister _ => (Err (Conflict "worker is already registered"), h)
  | WHeartbeat beat =>
      if negb (String.eqb (hb_session_id beat) session_id) then
        (Err (Conflict "heartbeat session does not match socket"), h)
      else
        match update_heartbeat (hb_sessions h) tick organization_id worker_id session_id
                (hb_active_jobs beat) (hb_queued_jobs beat) with
        | Err error => (Err error, h)
        | Ok r =>
            let h1 := with_sessions h r in
            (Ok None, match hb_store h1 with
                      | Some db => with_store h1 (touch_worker_heartbeat db organization_id worker_id session_id now)
                      | None => h1
                      end)
        end
  | WCommandAck ack =>
      let r := settle_capacity_reservation (hb_sessions h) organization_id worker_id session_id
                 (ca_command_id ack) (ca_accepted ack) in
      (Ok None, with_sessions h (update_current r organization_id worker_id session_id
                  (λ s, set_pending s (ws_pending s ∖ {[ ca_command_id ack ]}))))
  | WJobEvent event =>
      match apply_job_event from_str_strings from_str_json scan h now organization_id worker_id session_id event with
      | Ok (ack, h') => (Ok (Some (HJobEventAck ack)), h')
      | Err error => (Err error, h)
      end
  | WArtifactReady ready =>
      let '(res, h') := prepare_artifact_upload max_artifact_bytes h now uuid faults organization_id worker_id
                          session_id ready in
      (match res with Ok upload => Ok (Some (HArtifactUpload upload)) | Err error => Err error end, h')
  | WArtifactUploaded uploaded =>
      let '(res, h') := complete_artifact_upload h now tick organization_id worker_id session_id uploaded in
      (match res with Ok ack => Ok (Some (HArtifactUploadedAck ack)) | Err error => Err error end, h')
  | WPong _ => (Ok None, h)
  end.
End messages.

(** ** Resuming after a reconnect *)

(** The store has the cached job live, at its attempt, and bound. *)
Definition resumable (db : Db) (j : JobRecord) : Prop :=
  ∃ r, db_jobs db !! (hj_organization_id j, jv_id (hj_view j)) = Some r ∧ unfinished r = true
    ∧ sj_attempt (jt_job r) = dj_attempt (hj_dispatch j) ∧ is_Some (sj_session_id (jt_job r)).

(** The job was bound to the session, in the cache and in the store, and [d] is
    its dispatch. *)
Definition resumed (h : Hub) (sid : string) (j : JobRecord) (d : DispatchJob) : Prop :=
  ∃ cmd inputs now db r,
    hd_jobs (hb_data h) !! jv_id (hj_view j) = Some (rebound_record j sid cmd inputs now)
    ∧ d = hj_dispatch (rebound_record j sid cmd inputs now)
    ∧ hb_store h = Some db
    ∧ db_jobs db !! (hj_organization_id j, jv_id (hj_view j)) = Some r
    ∧ unfinished r = true ∧ sj_session_id (jt_job r) = Some sid.

Lemma rebind_row db o id a old new now b db' :
  rebind_job_session db o id a old new now = (b, db') →
  if b : bool
  then ∃ r r', db_jobs db !! (o, id) = Some r ∧ unfinished r = true ∧ sj_attempt (jt_job r) = a
    ∧ sj_session_id (jt_job r') = Some new ∧ unfinished r' = true
    ∧ db' = set_jobs db (<[(o, id) := r']> (db_jobs db))
  else db' = db ∧ ∀ r, db_jobs db !! (o, id) = Some r → unfinished r = true →
    sj_attempt (jt_job r) = a → sj_session_id (jt_job r) ≠ Some old.
Proof.
  unfold rebind_job_session. destruct (db_jobs db !! _) as [r|] eqn:Hr; [|by intros [= <- <-]].
  destruct (_ && _) eqn:Hc; intros [= <- <-].
  - apply andb_true_iff in Hc as [[Ha Hu]%andb_true_iff _]. apply Z.eqb_eq in Ha. exists r. eexists.
    split_and!; [done|done|done|..|done]; done.
  - split; [done|]. intros ? [= <-] Hu Ha Hs. rewrite Hu, Ha, Z.eqb_refl in Hc. unfold sql_eq in Hc.
    by rewrite (bool_decide_eq_true_2 _ Hs) in Hc.
Qed.

Lemma rebind_stored_row db j sid now b db' :
  rebind_stored db (hj_organization_id j) (jv_id (hj_view j)) (dj_attempt (hj_dispatch j))
    (jv_session_id (hj_view j)) sid now = (b, db') →
  if b : bool
  then ∃ r, sj_session_id (jt_job r) = Some sid ∧ unfinished r = true
    ∧ db' = set_jobs db (<[(hj_organization_id j, jv_id (hj_view j)) := r]> (db_jobs db))
  else db' = db ∧ ¬ resumable db j.
Proof.
  unfold rebind_stored. destruct (rebind_job_session _ _ _ _ _ _ _) as [[] db1] eqn:H1; apply rebind_row in H1.
  { intros [= <- <-]. naive_solver. }
  destruct H1 as [-> _]. unfold job. destruct (db_jobs db !! _) as [r|] eqn:Hr; simpl.
  - destruct (sj_session_id (jt_job r)) as [s|] eqn:Hs; simpl.
    + intros H2. apply rebind_row in H2. destruct b; [naive_solver|]. destruct H2 as [-> Hno]. split; [done|].
      intros (r' & Hr' & Hu & Ha & _). assert (r' = r) as -> by congruence. by apply (Hno r).
    + intros [= <- <-]. split; [done|]. intros (r' & Hr' & _ & _ & [s' Hs']). congruence.
  - intros [= <- <-]. split; [done|]. intros (r' & Hr' & _). congruence.
Qed.

Section resume.
Context `{!ObjectStore}.
Context (job_order : gmap string JobRecord → list JobRecord) (new_command : string → string).
Hypothesis job_order_perm : ∀ m, job_order m ≡ₚ (map_to_list m).*2.

Lemma load_artifacts_same h tick o ids : same_but_cache h (load_artifacts h tick o ids).2.
Proof.
  revert h. induction ids as [|id ids IH]; intros h; simpl; [done|].
  pose proof (artifact_record_same h tick o id) as H1. destruct (artifact_record h tick o id) as [[a|] h1]; [|done].
  specialize (IH h1). destruct (load_artifacts h1 tick o ids) as [rest h2]. by etrans.
Qed.

(** One job of the loop, which stops at none while the session is current. *)
Lemma rebind_job_spec h now tick o w sid j db step h' :
  hb_store h = Some db → current_session_id (hb_sessions h) o w = Some sid →
  hd_jobs (hb_data h) !! jv_id (hj_view j) = Some j → of_worker o w j = true →
  rebind_job new_command h now tick o w sid (jv_id (hj_view j)) = (Ok step, h') →
  hb_sessions h' = hb_sessions h
  ∧ (∀ id, id ≠ jv_id (hj_view j) → hd_jobs (hb_data h') !! id = hd_jobs (hb_data h) !! id)
  ∧ (∃ db', hb_store h' = Some db' ∧ ∀ k, k.2 ≠ jv_id (hj_view j) → db_jobs db' !! k = db_jobs db !! k)
  ∧ match step with
    | ReplayJob d => resumed h' sid j d
    | SkipJob => ¬ resumable db j ∧ hd_jobs (hb_data h') !! jv_id (hj_view j) = Some j
    | StopRebinding => False
    end.
Proof.
  intros Hdb Hcur Hj Hof. unfold rebind_job. rewrite Hj.
  pose proof (load_artifacts_same h tick (hj_organization_id j) (jv_input_artifact_ids (hj_view j))) as Hs.
  destruct (load_artifacts _ _ _ _) as [res h1]. destruct Hs as (Hst & Hda & Hse). simpl in Hst, Hda, Hse.
  destruct (res ≫= _) as [inputs|]; [|done]. rewrite Hse, bool_decide_eq_true_2 by done. simpl.
  rewrite Hst, Hdb. destruct (rebind_stored _ _ _ _ _ _ _) as [b db'] eqn:Hreb.
  apply rebind_stored_row in Hreb. destruct b; simpl.
  2: { destruct Hreb as [-> Hno]. intros [= <- <-]. simpl. rewrite Hse, Hda. split_and!; try done. by exists db. }
  destruct Hreb as (r & Hrs & Hru & ->).
  assert (guard_current_session (hb_sessions h1) o w sid = true) as ->.
  { apply bool_decide_eq_true_2. unfold current_session_id in Hcur. rewrite Hse.
    apply fmap_Some in Hcur as (s & Hs & ->). exists s. by apply current_Some. }
  unfold merge_rebound. simpl. rewrite Hda, Hj, Hof, Z.eqb_refl. simpl. intros [= <- <-]. simpl.
  split_and!; [done|by intros id ?; rewrite lookup_insert_ne| |].
  - eexists. split; [done|]. intros k Hk. simpl. rewrite lookup_insert_ne; [done|]. by intros <-.
  - exists (new_command (jv_id (hj_view j))), inputs, now. eexists _, r.
    split_and!; [simpl; apply lookup_insert_eq|done|done|simpl; apply lookup_insert_eq|done|done].
Qed.

(** What the loop over some jobs has done. *)
Record rebound_all (h : Hub) (db : Db) (sid : string) (js : list JobRecord) (replay : list DispatchJob)
    (h' : Hub) : Prop := {
  ra_sessions : hb_sessions h' = hb_sessions h;
  ra_jobs : ∀ id, id ∉ (λ j, jv_id (hj_view j)) <$> js → hd_jobs (hb_data h') !! id = hd_jobs (hb_data h) !! id;
  ra_rows : ∃ db', hb_store h' = Some db'
    ∧ ∀ k, k.2 ∉ (λ j, jv_id (hj_view j)) <$> js → db_jobs db' !! k = db_jobs db !! k;
  ra_done : ∀ j, j ∈ js → (∃ d, d ∈ replay ∧ resumed h' sid j d) ∨ ¬ resumable db j;
  ra_sent : ∀ d, d ∈ replay → ∃ j, j ∈ js ∧ resumed h' sid j d;
}.

(** Later jobs of the loop do not undo what was done for an earlier one. *)
Lemma resumed_frame h h' db sid j d js replay :
  rebound_all h db sid js replay h' → jv_id (hj_view j) ∉ (λ j, jv_id (hj_view j)) <$> js →
  hb_store h = Some db → resumed h sid j d → resumed h' sid j d.
Proof.
  intros [_ Hj (db' & Hst & Hrow) _ _] Hn Hdb (cmd & inputs & t & db0 & r & H1 & H2 & H3 & H4 & H5).
  exists cmd, inputs, t, db', r. assert (db0 = db) as -> by congruence.
  split_and!; [by rewrite Hj|done|done|by rewrite Hrow|apply H5|apply H5].
Qed.

Lemma rebind_loop_spec h now tick o w sid db js replay h' :
  hb_store h = Some db → current_session_id (hb_sessions h) o w = Some sid →
  NoDup ((λ j, jv_id (hj_view j)) <$> js) →
  (∀ j, j ∈ js → hd_jobs (hb_data h) !! jv_id (hj_view j) = Some j ∧ of_worker o w j = true) →
  rebind_loop new_command h now tick o w sid ((λ j, jv_id (hj_view j)) <$> js) = (Ok replay, h') →
  rebound_all h db sid js replay h'.
Proof.
  revert h db replay h'. induction js as [|j js IH]; intros h db replay h' Hdb Hcur Hnd Hjs; simpl.
  { intros [= <- <-]. split; try done; [by exists db|by intros j ?%not_elem_of_nil|by intros d ?%not_elem_of_nil]. }
  rewrite fmap_cons, NoDup_cons in Hnd. destruct Hnd as [Hn Hnd].
  destruct (Hjs j ltac:(left)) as [Hj Hof].
  destruct (rebind_job _ _ _ _ _ _ _ _) as [[step|] h1] eqn:Hstep; [|done].
  apply (rebind_job_spec _ _ _ _ _ _ _ db) in Hstep; [|done..].
  destruct Hstep as (Hse & Hother & (db1 & Hdb1 & Hrows) & Hcase). intros Hloop.
  assert (∃ rest, rebind_loop new_command h1 now tick o w sid ((λ j, jv_id (hj_view j)) <$> js) = (Ok rest, h')
    ∧ match step with ReplayJob d => replay = d :: rest | _ => replay = rest end) as (rest & Hrest & Hrep).
  { destruct step as [| |d]; [by exists replay|done|]. destruct (rebind_loop _ _ _ _ _ _ _ _) as [[rest|] h2]; [|done].
    injection Hloop as <- <-. by exists rest. }
  assert (Hne : ∀ j', j' ∈ js → jv_id (hj_view j') ≠ jv_id (hj_view j)).
  { intros j' Hj' Heq. apply Hn. rewrite <- Heq. by apply (list_elem_of_fmap_2 (λ j, jv_id (hj_view j))). }
  apply (IH h1 db1) in Hrest as Hall; [|done|by rewrite Hse|done|].
  2: { intros j' Hj'. destruct (Hjs j' ltac:(by right)) as [? ?]. by rewrite Hother by auto. }
  destruct (Hall) as [Rse Rj (db' & Hdb' & Rrow) Rdone Rsent]. split.
  - by rewrite Rse.
  - intros id [Hid1 Hid2]%not_elem_of_cons. by rewrite Rj, Hother.
  - exists db'. split; [done|]. intros k [Hk1 Hk2]%not_elem_of_cons. by rewrite Rrow, Hrows.
  - intros j' [->|Hj']%elem_of_cons.
    + destruct step as [| |d]; [right; by destruct Hcase|done|]. left. exists d. subst replay.
      split; [left|]. by eapply resumed_frame.
    + destruct (Rdone j' Hj') as [(d & Hd & Hr)|Hno].
      * left. exists d. split; [|done]. destruct step; subst; [done|done|by right].
      * right. intros (r & Hr & Hrest'). apply Hno. exists r. split; [|done]. rewrite Hrows by (by apply Hne). done.
  - intros d Hd. assert (d ∈ rest ∨ step = ReplayJob d) as [Hd'| ->].
    { destruct step as [| |d']; subst; [by left|done|]. apply elem_of_cons in Hd as [-> |]; auto. }
    + destruct (Rsent d Hd') as (j' & Hj' & Hr). exists j'. split; [by right|done].
    + exists j. split; [left|]. by eapply resumed_frame.
Qed.

(** Jobs are kept in memory under their own ids. *)
Definition jobs_keyed (m : gmap string JobRecord) : Prop := map_Forall (λ id j, jv_id (hj_view j) = id) m.

Lemma NoDup_job_ids m f : jobs_keyed m → NoDup ((λ j, jv_id (hj_view j)) <$> List.filter f (job_order m)).
Proof.
  intros Hk. eapply sublist_NoDup; [|apply fmap_sublist, sublist_list_filter].
  rewrite job_order_perm, <- list_fmap_compose.
  rewrite (list_fmap_ext _ fst) ; [apply NoDup_fst_map_to_list|].
  intros i [id j] Hi. simpl. apply Hk, elem_of_map_to_list. by eapply list_elem_of_lookup_2.
Qed.

Lemma elem_of_job_order m f j :
  jobs_keyed m → j ∈ List.filter f (job_order m) ↔ m !! jv_id (hj_view j) = Some j ∧ f j = true.
Proof.
  intros Hk. rewrite list_elem_of_In, filter_In, <- list_elem_of_In, job_order_perm.
  split; intros [Hj Hf]; (split; [|done]).
  - apply list_elem_of_fmap in Hj as ([id j'] & -> & Hid%elem_of_map_to_list). simpl.
    by rewrite (Hk _ _ Hid).
  - apply list_elem_of_fmap. exists (jv_id (hj_view j), j). split; [done|]. by apply elem_of_map_to_list.
Qed.

(** C29: A reconnect loses no job: once the Hub has rebuilt a worker's dispatches
    for its new session, every job of that worker that is live in memory and,
    at the same attempt, in the store is bound to the new session in both, and
    its dispatch, for the same attempt and with the same parameters, is among
    those sent again; nothing else is sent; and jobs of other workers are
    untouched. *)
Theorem reconnect_resumes_jobs h now tick o w sid db replay h' :
  hb_store h = Some db → current_session_id (hb_sessions h) o w = Some sid →
  jobs_keyed (hd_jobs (hb_data h)) →
  rebind_jobs_for_session job_order new_command h now tick o w sid = (Ok replay, h') →
  (∀ j, hd_jobs (hb_data h) !! jv_id (hj_view j) = Some j → of_worker o w j = true → resumable db j →
     ∃ d, d ∈ replay ∧ resumed h' sid j d)
  ∧ (∀ d, d ∈ replay → ∃ j, hd_jobs (hb_data h) !! jv_id (hj_view j) = Some j ∧ of_worker o w j = true
       ∧ resumed h' sid j d)
  ∧ (∀ id j, hd_jobs (hb_data h) !! id = Some j → of_worker o w j = false →
       hd_jobs (hb_data h') !! id = Some j).
Proof.
  intros Hdb Hcur Hk Hreb. eapply rebind_loop_spec in Hreb as [_ Hj _ Hdone Hsent]; [|done|done|by apply NoDup_job_ids|].
  2: { intros j Hin. by apply elem_of_job_order in Hin. }
  split_and!.
  - intros j Hcache Hof Hres. destruct (Hdone j) as [?|Hno]; [by apply elem_of_job_order|done|done].
  - intros d Hd. destruct (Hsent d Hd) as (j & Hin & Hr). apply elem_of_job_order in Hin as [??]; [|done]. by exists j.
  - intros id j Hid Hof. rewrite Hj; [done|]. intros (j' & Heq & Hin)%list_elem_of_fmap.
    apply elem_of_job_order in Hin as [Hin Hof']; [|done]. rewrite <- Heq, Hid in Hin. congruence.
Qed.
End resume.

(** ** Witnesses *)
Module ConnectionExample.
Definition job_order (m : gmap string JobRecord) : list JobRecord := (map_to_list m).*2.
Definition new_command (id : string) : string := "replay-" +:+ id.
(** The device "gpu" of "acme" runs a job of organization [o], whose dispatch
    is still in the outbox, and has just connected again as "s2". *)
Definition db (o : string) : Db :=
  set_outbox (HubExample.db o) {[ (o, "j1", 1%Z) := mkOutboxRow "pending" 0 1500 None None ]}.
Definition registry : SessionRegistry :=
  mkSessionRegistry {[ session_key "acme" "gpu" := SessionExample.session "gpu" "s2" 0 ]} ∅.
Definition hub (o : string) : Hub :=
  mkHub (mkHubData ∅ ∅ {[ "j1" := HubExample.record o ]} ∅) registry ReadCache_default (Some (db o)).
Definition rebind (h : Hub) : Res HubError (list DispatchJob) * Hub :=
  rebind_jobs_for_session job_order new_command h 2000 0 "acme" "gpu" "s2".
Definition replayed (o : string) : Hub :=
  match rebind (hub o) with
  | (Ok replay, h) => foldl (λ h d, (replay_dispatch h 2000 "acme" "gpu" "s2" d).2) h replay
  | (Err _, h) => h
  end.
Definition status (h : Hub) (o : string) : option string :=
  d ← hb_store h; ob_status <$> db_outbox d !! (o, "j1", 1%Z).
Definition claimed (h : Hub) : list (string * string * Z) :=
  match hb_store h with Some d => (claim_dispatches map_to_list d 9000 32).1 | None => [] end.

Lemma hub_jobs_keyed : jobs_keyed (hd_jobs (hb_data (hub "acme"))).
Proof. unfold jobs_keyed. apply (bool_decide_unpack _). vm_compute. exact I. Qed.
Lemma job_order_perm m : job_order m ≡ₚ (map_to_list m).*2.
Proof. done. Qed.
End ConnectionExample.

(** A replayed job of another organization is sent twice: after a reconnect
    the dispatch of the device's own organization is sent again and its outbox
    row is marked delivered; for a job another organization runs on the shared
    device, the row is looked for under the device's organization, stays
    pending, and the outbox consumer claims it and sends it once more. *)
Theorem shared_replay_stays_pending :
  (ConnectionExample.status (ConnectionExample.replayed "acme") "acme" = Some "delivered"
   ∧ ConnectionExample.claimed (ConnectionExample.replayed "acme") = [])
  ∧ (ConnectionExample.status (ConnectionExample.replayed "beta") "beta" = Some "pending"
     ∧ ConnectionExample.claimed (ConnectionExample.replayed "beta") = [("beta", "j1", 1%Z)]).
Proof. split_and!; vm_compute; reflexivity. Qed.

Lemma reconnect_resumes_jobs_witness :
  ∃ replay h' d, ConnectionExample.rebind (ConnectionExample.hub "acme") = (Ok replay, h')
    ∧ d ∈ replay ∧ resumed h' "s2" (HubExample.record "acme") d.
Proof.
  assert (∃ replay h', ConnectionExample.rebind (ConnectionExample.hub "acme") = (Ok replay, h')) as (replay & h' & Hr)
    by (eexists _, _; vm_compute; reflexivity).
  exists replay, h'.
  destruct (reconnect_resumes_jobs ConnectionExample.job_order ConnectionExample.new_command
    ConnectionExample.job_order_perm (ConnectionExample.hub "acme") 2000 0 "acme" "gpu" "s2"
    (ConnectionExample.db "acme") replay h' eq_refl eq_refl ConnectionExample.hub_jobs_keyed Hr) as (Hres & _ & _).
  destruct (Hres (HubExample.record "acme")) as (d & Hd & Hs); [reflexivity|reflexivity| |].
  - eexists. split; [vm_compute; reflexivity|]. split; [reflexivity|]. split; [reflexivity|]. eexists. reflexivity.
  - exists d. exact (conj Hr (conj Hd Hs)).
Defined.
