(* ===== verification/System.v ===== *)
(** The Hub as a whole: every handler of the previous files as one transition
    system, and what holds over any interleaving of them.

    [tx] are the transactions of the store.  The Hub refines them: whatever a
    handler does, and in whatever order handlers and the parts of the handlers
    that wait run, the database moves by transactions only ([hub_step] is
    simulated by [rtc tx]).  What every transaction keeps therefore holds of
    the running Hub: the quota counters are exact, and a job that has finished
    keeps its state for ever. *)

From S2P Require Import Prelude Text Json Messages Validate Core HubTypes Principal Helpers TtlCache HubState Sessions Store HubJobs Artifacts Batches Dispatch Submission Connection.
From Stdlib Require Import ZArith Lia.

(** ** Transactions *)

(** A transaction on other tables: artifacts, upload requests, workers. *)
Record side_rows (d d' : Db) : Prop := {
  sd_jobs : db_jobs d' = db_jobs d;
  sd_releases : db_releases d' = db_releases d;
  sd_active : ∀ o u, db_usage d' !! o = Some u →
    ∃ u0, db_usage d !! o = Some u0 ∧ qu_active_jobs u = qu_active_jobs u0;
}.

Section tx.
Context `{!JsonbArray}.
Context (ser : list string → string) (rules : string → Res string (list DeviceWorkflowRule)).

Inductive tx (d : Db) : Db → Prop :=
| tx_batch d' : batch_step ser rules d d' → tx d d'
| tx_side d' : side_rows d d' → tx d d'
| tx_output input : tx d (complete_job_output_upload d input).2.

(** *** What every transaction keeps *)

Lemma side_rows_quota d d' : side_rows d d' → quota_ok d → quota_ok d'.
Proof. intros [H1 H2 H3]. by apply quota_ok_ext. Qed.

(** What completing an output does to the job's row. *)
Lemma complete_output_cases d input :
  side_rows d (complete_job_output_upload d input).2
  ∨ ∃ k r r', db_jobs d !! k = Some r ∧ row_state r' = row_state r
      ∧ side_rows (set_jobs d (<[k := r']> (db_jobs d))) (complete_job_output_upload d input).2.
Proof.
  assert (Hrefl : ∀ x, side_rows x x) by (intros x; split; eauto).
  unfold complete_job_output_upload. destruct (db_artifacts d !! _) as [a|]; [|by left].
  destruct (db_uploads d !! _) as [u|]; [|by left]. destruct (_ && _); [|by left].
  unfold append_job_output_artifact. destruct (db_jobs d !! _) as [r|] eqn:Hr; [|by left].
  destruct (_ && _); [|by left]. right. eexists _, r, _. split_and!; [done| |split; [done|done|eauto]]. done.
Qed.

Lemma tx_quota d d' : tx d d' → quota_ok d → quota_ok d'.
Proof.
  intros [d1 Hb|d1 Hs|input] Hok.
  - by eapply batch_step_quota_ok.
  - by eapply side_rows_quota.
  - destruct (complete_output_cases d input) as [Hs|(k & r & r' & Hk & Hst & Hs)].
    + by eapply side_rows_quota.
    + eapply side_rows_quota; [exact Hs|]. eapply quota_ok_same_state; [done|done|].
      unfold unfinished. by rewrite Hst.
Qed.

(** A finished job is still there, in the same state. *)
Definition finished_kept (d d' : Db) : Prop :=
  ∀ k r, db_jobs d !! k = Some r → unfinished r = false →
    ∃ r', db_jobs d' !! k = Some r' ∧ row_state r' = row_state r.

#[local] Instance finished_kept_preorder : PreOrder finished_kept.
Proof.
  split; [by intros d k r Hk _; exists r|]. intros x y z Hxy Hyz k r Hk Hu.
  destruct (Hxy k r Hk Hu) as (r1 & Hr1 & Hs1). destruct (Hyz k r1 Hr1) as (r2 & Hr2 & Hs2).
  - unfold unfinished in *. by rewrite Hs1.
  - exists r2. split; [done|]. congruence.
Qed.

(** Rewriting one row that is unfinished, or keeps its state, or is new. *)
Lemma finished_kept_row d d' k r' :
  db_jobs d' = <[k := r']> (db_jobs d) →
  (∀ r, db_jobs d !! k = Some r → unfinished r = false → row_state r' = row_state r) → finished_kept d d'.
Proof.
  intros Hj Hrow k' r Hk Hu. rewrite Hj. destruct (decide (k' = k)) as [->|Hne].
  - exists r'. rewrite lookup_insert_eq. auto.
  - exists r. by rewrite lookup_insert_ne.
Qed.

Lemma finished_kept_jobs d d' : db_jobs d' = db_jobs d → finished_kept d d'.
Proof. intros Hj k r Hk _. exists r. by rewrite Hj. Qed.

Lemma finished_kept_event d e u applied d' :
  keeps_terminal (eu_expected_state u) (eu_state u) →
  Store.apply_job_event d e u = Ok (applied, d') → finished_kept d d'.
Proof.
  intros Hkeep. unfold Store.apply_job_event. intros (ev & _ & Hc)%bind_Ok.
  destruct (db_jobs d !! _) as [r|] eqn:Hr; [|by injection Hc as <- <-].
  destruct (event_applies _ _ _) eqn:Ha; [|by injection Hc as <- <-].
  assert (Hd : db_jobs d' = <[(ei_organization_id e, ei_job_id e) := with_job r (set_event (jt_job r) e u)]> (db_jobs d)).
  { injection Hc as _ <-. destruct (terminal_name _); [by rewrite release_tx_jobs|done]. }
  eapply finished_kept_row; [exact Hd|]. rewrite Hr. intros ? [= <-] Hu.
  apply negb_false_iff in Hu. unfold event_applies in Ha. bool_cases. unfold row_state in *. simpl.
  assert (sj_state (jt_job r) = eu_expected_state u) as Hs by by apply String.eqb_eq.
  rewrite Hs in *. by apply Hkeep.
Qed.

Lemma finished_kept_update d input :
  (∀ s, cu_state input = Some s → keeps_terminal (cu_expected_state input) s) →
  finished_kept d (update_job_if_current d input).2.
Proof.
  intros Hkeep. unfold update_job_if_current. destruct (db_jobs d !! _) as [r|] eqn:Hr; [|done].
  destruct (_ && _) eqn:Hc; [|done]. bool_cases. simpl.
  assert (sj_state (jt_job r) = cu_expected_state input) as Hs by by apply String.eqb_eq.
  eapply (finished_kept_row _ _ (cu_organization_id input, cu_id input)).
  { destruct (is_some_and _ _); [by rewrite release_tx_jobs|done]. }
  rewrite Hr. intros ? [= <-] Hu. unfold row_state. simpl. destruct (cu_state input) as [s|] eqn:Hst; [|done].
  simpl. rewrite Hs. apply (Hkeep s); [done|]. apply negb_false_iff in Hu. by rewrite <- Hs.
Qed.

Lemma finished_kept_store d d' : store_step rules d d' → finished_kept d d'.
Proof.
  intros Hs. destruct Hs as [row ids idem adm res d' Hst Hc|o j a old new now|input Hk
    |e u ap d' Hk He|o j now|now o b d' Hr|now o b|now o a b c e d' Hp|scan now l|now o j a
    |now o j a er|now st]; try (by apply finished_kept_jobs).
  - destruct res as [|j]; [|by apply commit_existing in Hc as ->].
    apply commit_created in Hc as (_ & _ & _ & _ & _ & _ & Hnew & Hj & _).
    eapply finished_kept_row; [exact Hj|]. rewrite Hnew. done.
  - destruct (rebind_job_session d o j a old new now) as [b d1] eqn:Hb. simpl.
    apply rebind_row in Hb. destruct b; [|by destruct Hb as [-> _]].
    destruct Hb as (r & r' & Hr & Hu & _ & _ & _ & ->). eapply finished_kept_row; [done|]. rewrite Hr.
    intros ? [= <-]. congruence.
  - by apply finished_kept_update.
  - by eapply finished_kept_event.
  - apply finished_kept_jobs. apply release_tx_jobs.
  - unfold reserve_storage in Hr. inv_ok. by apply finished_kept_jobs.
  - unfold update_quota_policy in Hp. inv_ok. by apply finished_kept_jobs.
  - intros k r Hk Hu. simpl. rewrite lookup_fmap, Hk. simpl.
    unfold is_stale_job. rewrite Hu. simpl. eauto.
Qed.

Lemma tx_finished d d' : tx d d' → finished_kept d d'.
Proof.
  intros [d1 Hb|d1 Hs|input].
  - destruct Hb as [d1 Hs|batch children shared idem adm now res d1 _ Hc|scan owner seconds now|o j wo w sid now|o j now].
    + by apply finished_kept_store.
    + destruct res as [|b].
      * apply commit_batch_created in Hc as (_ & _ & d1' & d2 & _ & _ & _ & _ & _ & -> & Hin & Hj & _).
        intros k r Hk Hu. exists r. split; [|done]. rewrite Hj.
        assert (db_jobs d2 !! k = db_jobs d !! k) as ->; [|done].
        apply (ci_other _ _ _ _ _ _ Hin). intros c Hc ->. destruct (ci_child _ _ _ _ _ _ Hin c Hc) as [Hnone _]. simpl in Hnone. congruence.
      * unfold commit_new_batch in Hc. apply bind_Ok in Hc as ([x|] & _ & Hc); [by injection Hc as _ <-|]. by inv_ok.
    + unfold claim_dispatch_queue_job. destruct (head _) as [[k q]|]; [|done]. by apply finished_kept_jobs.
    + unfold bind_queued_job. destruct (db_jobs d !! _) as [r|] eqn:Hr; [|done].
      destruct (String.eqb_spec (row_state r) "queued") as [Hq|]; [|done].
      eapply (finished_kept_row _ _ (o, j)); [by destruct (db_outbox d !! _)|]. rewrite Hr. intros ? [= <-] Hu.
      unfold unfinished in Hu. by rewrite Hq in Hu.
    + unfold cancel_queued_job. destruct (db_jobs d !! _) as [r|] eqn:Hr; [|done].
      destruct (String.eqb_spec (row_state r) "queued") as [Hq|]; [|done].
      eapply (finished_kept_row _ _ (o, j)); [simpl; by rewrite release_tx_jobs|]. rewrite Hr. intros ? [= <-] Hu.
      unfold unfinished in Hu. by rewrite Hq in Hu.
  - apply finished_kept_jobs. apply Hs.
  - destruct (complete_output_cases d input) as [Hs|(k & r & r' & Hk & Hst & Hs)].
    + apply finished_kept_jobs. apply Hs.
    + eapply (finished_kept_row _ _ k r'); [by rewrite (sd_jobs _ _ Hs)|]. rewrite Hk. by intros ? [= <-].
Qed.
End tx.

(** ** The Hub's handlers run transactions *)
Section run.
Context `{!ObjectStore, !JsonbArray}.
Context (strings : string → Res string (list string)) (json : string → Res string Json)
        (scan : gmap (string * string * Z * Z) StoredJobEvent → list StoredJobEvent)
        (ser : list string → string) (rules : string → Res string (list DeviceWorkflowRule)).

(** The store after a handler, by transactions from the store before. *)
Definition store_run (h h' : Hub) : Prop :=
  match hb_store h, hb_store h' with
  | Some d, Some d' => rtc (tx ser rules) d d'
  | None, None => True
  | _, _ => False
  end.

#[local] Instance store_run_preorder : PreOrder store_run.
Proof.
  unfold store_run. split.
  - intros h. by destruct (hb_store h).
  - intros x y z. destruct (hb_store x), (hb_store y), (hb_store z); try done. intros. by etrans.
Qed.

Lemma run_same h h' : hb_store h' = hb_store h → store_run h h'.
Proof. unfold store_run. intros ->. by destruct (hb_store h). Qed.

Lemma run_to h h' d d' : hb_store h = Some d → hb_store h' = Some d' → rtc (tx ser rules) d d' → store_run h h'.
Proof. unfold store_run. by intros -> ->. Qed.

Lemma run_tx h h' d d' : hb_store h = Some d → hb_store h' = Some d' → tx ser rules d d' → store_run h h'.
Proof. intros ???. eapply run_to; [done|done|by apply rtc_once]. Qed.

(** A transaction of the job store. *)
Lemma run_store h h' d d' :
  hb_store h = Some d → hb_store h' = Some d' → store_step rules d d' → store_run h h'.
Proof. intros ???. eapply run_tx; [done|done|]. by apply tx_batch, bs_store. Qed.

Lemma run_side h h' d d' : hb_store h = Some d → hb_store h' = Some d' → side_rows d d' → store_run h h'.
Proof. intros ???. eapply run_tx; [done|done|]. by apply tx_side. Qed.

Lemma update_job_error_run h now id message terminal : store_run h (update_job_error h now id message terminal).
Proof.
  unfold update_job_error. destruct (hd_jobs (hb_data h) !! id) as [j|] eqn:Hj; [|done].
  destruct (is_terminal (jv_state (hj_view j))) eqn:Ht; [done|]. destruct (hb_store h) as [db|] eqn:Hdb.
  - destruct (update_job_if_current _ _) as [updated db'] eqn:Hu. destruct updated; [|done].
    eapply (run_store h _ db db'); [done|by repeat case_match|].
    change db' with (true, db').2. rewrite <- Hu. apply st_update. intros s _. unfold keeps_terminal. simpl.
    by rewrite terminal_name_state, Ht.
  - apply run_same. by repeat case_match.
Qed.

Lemma reconcile_run h db now o j sequence done h' :
  hb_store h = Some db → reconcile_step strings json scan h db now o j sequence = Ok (done, h') → store_run h h'.
Proof.
  intros Hdb. unfold reconcile_step. intros ([[dn db'] data] & Hrec & [= <- <-])%bind_Ok.
  assert (db' = db ∨ db' = release_job_for_terminal db now o j) as [->| ->].
  { revert Hrec. unfold reconcile_persisted_job_event. destruct (job db o j) as [stored|]; [|intros [= <- <- <-]; auto].
    intros (st & _ & Hc)%bind_Ok. apply bind_Ok in Hc as (le & _ & Hc). destruct (is_terminal st).
    - injection Hc as <- <- <-. auto.
    - destruct (_ <? _)%Z; [injection Hc as <- <- <-; auto|]. apply bind_Ok in Hc as (v & _ & Hc).
      injection Hc as <- <- <-. auto. }
  - by apply run_same.
  - eapply run_store; [done|done|]. constructor.
Qed.

Lemma apply_job_event_run h now o w sid e ack h' :
  HubJobs.apply_job_event strings json scan h now o w sid e = Ok (ack, h') → store_run h h'.
Proof.
  intros Happ. destruct (hd_jobs (hb_data h) !! je_job_id e) as [job|] eqn:Hjob.
  - destruct (apply_job_event_handled _ _ _ _ _ _ _ _ _ _ _ _ Hjob Happ) as [_ Hh].
    destruct Hh as [Hp|Hp|h1 Hp Hs|append updated h1 st cur Hp Hs|append updated db1 h1 Hp Hs Hr]; [done|done|..].
    + assert (hb_store (merge_adopted_job_session h1 o w (je_job_id e) (dj_attempt (hj_dispatch job)) sid now)
        = hb_store h1) as Hm by apply merge_adopted_scope.
      destruct Hs as [[-> Hn]|(db & db' & Hst & -> & Hr)]; [by apply run_same|].
      eapply (run_store h _ db db'); [done|done|]. change db' with (true, db').2. rewrite <- Hr. constructor.
    + destruct Hs as [[-> Hn]|(db & db' & Hst & -> & Hr)]; [by apply run_same|].
      apply event_plan_advance in Hp as (_ & _ & _ & _ & Hadv & _).
      eapply (run_store h _ db db'); [done|done|]. eapply st_event; [|done]. by apply event_update_keeps_terminal.
    + by eapply reconcile_run.
  - revert Happ. unfold HubJobs.apply_job_event. rewrite Hjob. destruct (hb_store h) as [db|] eqn:Hst; [|done].
    intros ([done h1] & Hrec & Hc)%bind_Ok. destruct done; [|done]. injection Hc as <- <-.
    by eapply reconcile_run.
Qed.

(** *** Delivery and cancellation *)

Lemma rebind_stored_run db o j a old new now : rtc (tx ser rules) db (rebind_stored db o j a old new now).2.
Proof.
  assert (Hone : ∀ old', rtc (tx ser rules) db (rebind_job_session db o j a old' new now).2)
    by (intros old'; apply rtc_once, tx_batch, bs_store; constructor).
  unfold rebind_stored. pose proof (Hone old) as H1. destruct (rebind_job_session db o j a old new now) as [[] db1]; [done|].
  destruct (job db o j ≫= _); [apply Hone|done].
Qed.

Lemma merge_cached_store h j a sid d now :
  hb_store (merge_cached_outbox_job h j a sid d now).2 = hb_store h.
Proof. unfold merge_cached_outbox_job. destruct (hd_jobs _ !! _); [|done]. by destruct (_ || _). Qed.

Lemma rebind_cached_run h now j sid d : store_run h (rebind_cached_outbox_job h now j sid d).2.
Proof.
  unfold rebind_cached_outbox_job. destruct (hd_jobs _ !! _) as [b|]; [|done].
  destruct (negb _); [done|]. destruct (negb _); [done|]. destruct (hb_store h) as [db|] eqn:Hdb.
  2: { apply run_same, merge_cached_store. }
  pose proof (rebind_stored_run db (hj_organization_id b) j (dj_attempt (hj_dispatch b))
    (jv_session_id (hj_view b)) sid now) as Hr.
  destruct (rebind_stored _ _ _ _ _ _ _) as [[] db']; (eapply run_to; [done| |exact Hr]); [by rewrite merge_cached_store|done].
Qed.

Lemma bind_cached_run h db now j sid d : store_run h (bind_cached strings json scan h db now j sid d).2.
Proof.
  unfold bind_cached. pose proof (rebind_cached_run h now (sj_id j) sid d) as Hr.
  destruct (rebind_cached_outbox_job _ _ _ _ _) as [[] h1]; [done|].
  destruct (cache_bound_outbox_job _ _ _ _ _ _ _) as [[[] h2]|] eqn:Hc; [|done..].
  apply cache_bound_spec in Hc as [[data ->] _]. etrans; [exact Hr|]. by apply run_same.
Qed.

Lemma delivered_run h h' db now key : hb_store h = Some db → hb_store h' = hb_store h →
  store_run h (outbox_delivered h' db now key).
Proof. intros Hdb Hh. eapply run_store; [done|done|]. constructor. Qed.

Lemma retry_run h h' db now key e : hb_store h = Some db → hb_store h' = hb_store h →
  store_run h (outbox_retry h' db now key e).
Proof. intros Hdb Hh. eapply run_store; [done|done|]. constructor. Qed.

(** The Hub after a pass up to the ACK. *)
Definition dispatch_hub (p : DispatchProgress) : Hub :=
  match p with Settled _ h | AwaitingAck _ _ _ _ _ h => h end.

Lemma dispatch_begin_run h db now key :
  hb_store h = Some db → store_run h (dispatch_hub (dispatch_outbox_begin strings json scan h db now key)).
Proof.
  intros Hdb. assert (Hearly : ∀ e, store_run h (outbox_retry h db now key e)) by (intros e; by apply retry_run).
  assert (Hlater : ∀ h1 e, store_run h h1 → store_run h (outbox_retry h1 (default db (hb_store h1)) now key e)).
  { intros h1 e Hr. unfold store_run in Hr. rewrite Hdb in Hr. destruct (hb_store h1) as [db1|] eqn:H1; [|done].
    etrans; [eapply (run_to h h1); done|]. simpl. by apply retry_run. }
  unfold dispatch_outbox_begin. destruct (job db _ _) as [j|]; [|by apply delivered_run].
  destruct (terminal_name _); [by apply delivered_run|].
  destruct (sj_worker_organization_id j), (sj_worker_id j), (sj_session_id j); try apply Hearly.
  destruct (current_session_id _ _ _) as [sid|]; [|apply Hearly].
  destruct (outbox_dispatch _ _ _ _ _) as [d|]; [|apply Hearly].
  pose proof (bind_cached_run h db now j sid d) as Hb.
  destruct (bind_cached _ _ _ _ _ _ _ _ _) as [[[]|e] h1]; [|by apply Hlater].
  destruct (ensure_capacity_reservation _ _ _ _ _) as [[] r2]; [|by apply (Hlater (with_sessions h1 r2))].
  simpl. destruct (send_command_begin _ _ _ _ _ _) as [[r3 eff]|e]; simpl; [done|].
  assert (Hu : store_run h (update_job_error (with_sessions h1 r2) now key.1.2 (hub_error_text e) false)).
  { etrans; [exact Hb|]. apply (update_job_error_run (with_sessions h1 r2)). }
  unfold store_run in Hu. rewrite Hdb in Hu. destruct (hb_store (update_job_error _ _ _ _ _)) as [d2|] eqn:H2; [|done].
  etrans; [eapply run_to; [done|exact H2|done]|]. simpl. by apply retry_run.
Qed.

Lemma dispatch_finish_run h now key wo w sid cmd outcome :
  store_run h (dispatch_outbox_finish h now key wo w sid cmd outcome).2.
Proof.
  unfold dispatch_outbox_finish. destruct (send_command_finish _ _ _ _ _ _) as [res r].
  assert (Hu : ∀ m t, store_run h (update_job_error (with_sessions h r) now key.1.2 m t))
    by (intros m t; apply (update_job_error_run (with_sessions h r))).
  assert (Hd : ∀ h', store_run h h' →
    store_run h (match hb_store h' with Some db => outbox_delivered h' db now key | None => h' end)).
  { intros h' Hr. destruct (hb_store h') as [db|] eqn:Hdb; [|done]. etrans; [exact Hr|]. by apply delivered_run. }
  destruct res as [ack|e].
  - destruct (ca_accepted ack); apply Hd; [by apply run_same|apply Hu].
  - simpl. pose proof (Hu (hub_error_text e) false) as Hr. destruct (hb_store (update_job_error _ _ _ _ _)) as [db|] eqn:Hdb; [|done].
    etrans; [exact Hr|]. by apply retry_run.
Qed.

Lemma commit_cancellation_run db now id current message :
  is_terminal (jv_state (hj_view current)) = false →
  rtc (tx ser rules) db (commit_cancellation db now id current message).2.
Proof.
  intros Ht. unfold commit_cancellation. apply rtc_once, tx_batch. case_bool_decide; [apply bs_cancel|].
  apply bs_store, st_update. intros s _. unfold keeps_terminal. simpl. by rewrite terminal_name_state, Ht.
Qed.

Lemma merge_cancellation_store h now id current m : hb_store (merge_cancellation h now id current m).2 = hb_store h.
Proof. unfold merge_cancellation. destruct (hd_jobs _ !! _); [|done]. by destruct (_ && _). Qed.

Lemma cancel_locally_run h now record : store_run h (cancel_job_locally h now record).2.
Proof.
  unfold cancel_job_locally. destruct (hd_jobs _ !! _) as [c|]; [|done]. destruct (is_terminal _) eqn:Ht; [done|].
  destruct (hb_store h) as [db|] eqn:Hdb; [|apply run_same, merge_cancellation_store].
  match goal with |- context [commit_cancellation db now ?id c ?m] =>
    pose proof (commit_cancellation_run db now id c m Ht) as Hc; destruct (commit_cancellation db now id c m) as [[] db'] end;
    [|done]. eapply run_to; [done|by rewrite merge_cancellation_store|exact Hc].
Qed.

Lemma send_cancellation_run h now uuid record : store_run h (cancel_hub (send_job_cancellation h now uuid record)).
Proof.
  unfold send_job_cancellation. case_bool_decide; [apply cancel_locally_run|].
  destruct (current_session_id _ _ _) as [sid|]; [|apply cancel_locally_run].
  destruct (send_command_begin _ _ _ _ _ _) as [[r eff]|e]; [by apply run_same|].
  destruct e; try done; apply cancel_locally_run.
Qed.

Lemma cancel_run h now uuid p id :
  store_run h (cancel_hub (cancel_job_for_principal strings json scan h now uuid p id)).
Proof.
  unfold cancel_job_for_principal.
  assert (Hs : store_run h (cancel_hub (done_of match hb_store h with
      | Some db => cancel_stored strings json scan h db now p id
      | None => (Err (NotFound "job"), h) end))).
  { destruct (hb_store h) as [db|] eqn:Hdb; [|by apply run_same]. unfold cancel_stored.
    destruct (job db _ _) as [st|]; [|done]. destruct (String.eqb _ _); [|done]. destruct (negb _); [done|].
    destruct (cancel_queued_job db (pc_organization_id p) id now) as [[] db'] eqn:Hc; [|done].
    eapply (run_tx h _ db db'); [done|done|]. change db' with (true, db').2. rewrite <- Hc. apply tx_batch, bs_cancel. }
  destruct (hd_jobs _ !! _) as [record|]; [|done]. destruct (String.eqb _ _); [|done].
  destruct (negb _); [done|]. destruct (_ || _); [done|]. apply send_cancellation_run.
Qed.

Lemma cancel_finish_run h now record sid cmd outcome :
  store_run h (send_job_cancellation_finish h now record sid cmd outcome).2.
Proof.
  unfold send_job_cancellation_finish. destruct (send_command_finish _ _ _ _ _ _) as [res r].
  assert (Hl : store_run h (cancel_job_locally (with_sessions h r) now record).2)
    by apply (cancel_locally_run (with_sessions h r)).
  destruct res as [ack|e]; [by apply run_same|]. destruct e; try done; by apply run_same.
Qed.

(** *** Submission *)
Section submission.
Context (iter : gmap string WorkerSession → list (string * WorkerSession))
        (to_string_json : Json → string) (to_string_ids : list string → string)
        (request_hash : SubmitJobRequest → string).

Lemma same_but_cache_run h h' : same_but_cache h h' → store_run h h'.
Proof. intros (Hs & _). by apply run_same. Qed.

Lemma commit_record_run h record endpoint key hash adm res h' :
  is_terminal (jv_state (hj_view record)) = false →
  commit_job_record rules to_string_json to_string_ids h record endpoint key hash adm = Ok (res, h') → store_run h h'.
Proof.
  intros Ht. unfold commit_job_record. destruct (hb_store h) as [db|] eqn:Hdb; [|by intros [= <- <-]].
  destruct (commit_new_job _ _ _ _ _ _) as [[res' db']|] eqn:Hc; [|done]. intros [= <- <-].
  eapply run_store; [done|done|]. eapply st_commit; [|done]. simpl. by rewrite terminal_name_state.
Qed.

(** The Hub after a submission up to the ACK. *)
Definition submit_hub (p : SubmitProgress) : Hub :=
  match p with Answered _ h | SubmitAwaitingAck _ _ _ h => h end.

Lemma send_submission_run h now record worker inputs :
  store_run h (submit_hub (send_submission h now record worker inputs)).
Proof.
  unfold send_submission. destruct (send_command_begin _ _ _ _ _ _) as [[r eff]|e]; [by apply run_same|]. simpl.
  match goal with |- context [update_job_error ?x ?n ?j ?m ?t] =>
    assert (store_run h (update_job_error x n j m t)) as Hu by apply (update_job_error_run x);
    destruct (hb_store (update_job_error x n j m t)) as [db|] eqn:Hdb end; [|done].
  etrans; [exact Hu|]. eapply run_store; [done|done|]. constructor.
Qed.

Lemma submit_run h now tick id cmd p key request :
  store_run h (submit_hub (submit_job_for_principal strings json scan rules iter to_string_json to_string_ids
    request_hash h now tick id cmd p key request)).
Proof.
  unfold submit_job_for_principal. destruct (validate_submission request); [|done]. destruct (negb _); [done|].
  destruct (hb_store h) as [db|] eqn:Hdb; [|done]. destruct (key ≫= _) as [[hash ex]|].
  { destruct (negb _); [done|]. apply same_but_cache_run, job_for_principal_same. }
  pose proof (same_but_cache_run _ _ (accessible_same rules iter h now tick p)) as H1.
  destruct (accessible_workers_for _ _ _ _ _ _) as [[acc|e] h1]; [|done].
  pose proof (same_but_cache_run _ _ (load_inputs_same h1 tick (pc_organization_id p) (rq_input_artifact_ids request))) as H2.
  assert (H12 := transitivity H1 H2). clear H1 H2.
  destruct (load_inputs _ _ _ _) as [[recs|e] h2]; [|done].
  destruct (try_map job_input recs) as [inputs|e]; [|done].
  destruct (reserve_capacity _ _ _ _) as [[worker|] r]; [|done]. destruct (pc_user_id p) as [user|]; [|done].
  match goal with |- context [commit_job_record ?a ?b ?c ?x ?rec ?ep ?k ?hh ?ad] =>
    assert (Hc : ∀ res h4, commit_job_record a b c x rec ep k hh ad = Ok (res, h4) → store_run h h4)
      by (intros res h4 Hc; etrans; [exact H12|]; by apply (commit_record_run x rec ep k hh ad res h4));
    destruct (commit_job_record a b c x rec ep k hh ad) as [[[|ex] h4]|e] eqn:Hcommit end; [| |done].
  - etrans; [by eapply Hc|]. apply send_submission_run.
  - etrans; [by eapply Hc|]. etrans; [|apply same_but_cache_run, job_for_principal_same]. by apply run_same.
Qed.

Lemma submit_finish_run h now record sid outcome : store_run h (submit_job_finish h now record sid outcome).2.
Proof.
  unfold submit_job_finish. destruct (send_command_finish _ _ _ _ _ _) as [res r].
  destruct res as [ack|e].
  - destruct (ca_accepted ack); simpl; [|apply (update_job_error_run (with_sessions h r))].
    destruct (hb_store h) as [db|] eqn:Hdb; [|by apply run_same]. eapply run_store; [done|done|]. constructor.
  - simpl. match goal with |- context [update_job_error ?x ?n ?j ?m ?t] =>
      assert (store_run h (update_job_error x n j m t)) as Hu by apply (update_job_error_run x);
      destruct (hb_store (update_job_error x n j m t)) as [db|] eqn:Hdb end; [|done].
    etrans; [exact Hu|]. eapply run_store; [done|done|]. constructor.
Qed.

Lemma submit_legacy_run legacy h now id cmd key request :
  store_run h (submit_hub (submit_job rules iter to_string_json to_string_ids request_hash legacy h now id cmd key request)).
Proof.
  unfold submit_job. destruct (validate_submission request); [|done].
  destruct (hb_store h ≫= _) as [[hash ex]|]; [by destruct (negb _)|].
  destruct (_ ≫= _) as [ex|]; [done|]. destruct (try_map _ _) as [recs|e]; [|done].
  destruct (try_map job_input recs) as [inputs|e]; [|done].
  destruct (reserve_capacity _ _ _ _) as [[worker|] r]; [|by apply run_same].
  match goal with |- context [commit_job_record ?a ?b ?c ?x ?rec ?ep ?k ?hh ?ad] =>
    assert (Hc : ∀ res h4, commit_job_record a b c x rec ep k hh ad = Ok (res, h4) → store_run h h4)
      by (intros res h4 Hc; by apply (commit_record_run x rec ep k hh ad res h4));
    destruct (commit_job_record a b c x rec ep k hh ad) as [[[|ex] h4]|e] eqn:Hcommit end; [| |by apply run_same].
  - etrans; [by eapply Hc|]. apply (send_submission_run (with_data h4 _)).
  - etrans; [by eapply Hc|]. by apply run_same.
Qed.
End submission.

(** *** Uploads *)

Lemma reserve_side d now o bytes d' : reserve_storage d now o bytes = Ok d' → side_rows d d'.
Proof.
  unfold reserve_storage. intros. inv_ok. split; [done|done|]. simpl.
  intros o' u [[<- <-]|[_ Hu]]%lookup_insert_Some; eauto.
Qed.

Lemma release_side d now o bytes : side_rows d (release_storage d now o bytes).
Proof.
  split; [done|done|]. simpl. intros o' u [(<- & u0 & Hu0 & ->)|[_ Hu]]%lookup_alter_Some; eauto.
Qed.

Lemma hub_release_run h now o bytes : store_run h (hub_release_storage h now o bytes).
Proof.
  unfold hub_release_storage. destruct (hb_store h) as [db|] eqn:Hdb; [|done].
  eapply run_side; [done|done|apply release_side].
Qed.

Lemma persist_run h now a fault h' : persist_artifact h now a fault = Ok h' → store_run h h'.
Proof.
  unfold persist_artifact. destruct (hb_store h) as [db|] eqn:Hdb; [|by intros [= <-]].
  destruct fault; [done|]. intros [= <-]. eapply run_side; [done|done|]. by split; eauto.
Qed.

Lemma stage_upload_run h now record sha fault : store_run h (stage_upload h now record sha fault).2.
Proof.
  unfold stage_upload. destruct (hub_reserve_storage _ _ _ _) as [h1|e] eqn:Hres; [|done].
  assert (Hr : store_run h h1).
  { revert Hres. unfold hub_reserve_storage. destruct (hb_store h) as [db|] eqn:Hdb; [|by intros [= <-]].
    destruct (reserve_storage _ _ _ _) as [db'|] eqn:Hs; [|done]. intros [= <-].
    eapply run_side; [done|done|by eapply reserve_side]. }
  assert (Hrel : ∀ o b, store_run h (hub_release_storage h1 now o b)) by (intros; etrans; [exact Hr|apply hub_release_run]).
  destruct (presign_put _ _ _ _); [|apply Hrel]. destruct (persist_artifact _ _ _ _) as [h2|] eqn:Hp; [|apply Hrel].
  etrans; [exact Hr|]. by eapply persist_run.
Qed.

Lemma prepare_run max h now uuid faults o w sid ready :
  store_run h (prepare_artifact_upload max h now uuid faults o w sid ready).2.
Proof.
  unfold prepare_artifact_upload. destruct (_ || _); [done|]. destruct (_ || _); [done|].
  destruct (hd_jobs _ !! _) as [job|]; [|done]. destruct (negb _); [done|].
  destruct (hd_pending_uploads _ !! _) as [ex|].
  { destruct (hd_artifacts _ !! _); [|done]. destruct (negb _); [done|]. by destruct (presign_put _ _ _ _). }
  match goal with |- context [stage_upload h now ?r ?s ?f] =>
    pose proof (stage_upload_run h now r s f) as Hs; destruct (stage_upload h now r s f) as [[up|e] h1] end; [|done].
  simpl in Hs. destruct (hb_store h1) as [db1|] eqn:H1.
  - destruct (fl_request faults); [etrans; [exact Hs|apply hub_release_run]|].
    etrans; [exact Hs|]. eapply run_side; [done|done|]. unfold upsert_upload_request. destruct (db_uploads db1 !! _); by split; eauto.
  - etrans; [exact Hs|]. by apply run_same.
Qed.

Lemma complete_output_run h now tick o w sid uploaded :
  store_run h (complete_artifact_upload h now tick o w sid uploaded).2.
Proof.
  unfold complete_artifact_upload. destruct (hd_jobs _ !! _) as [job|]; [|done]. destruct (negb _); [done|].
  destruct (option_or _ _) as [id|]; [|done]. destruct (negb _); [done|].
  pose proof (same_but_cache_run _ _ (artifact_record_same h tick (hj_organization_id job) id)) as Hs.
  destruct (artifact_record _ _ _ _) as [[a|e] h1]; [|done]. simpl in Hs. destruct (negb _); [done|].
  destruct (av_job_id _); [|done]. destruct (negb _); [done|]. destruct (object_head _); [|done].
  destruct (negb _); [done|]. destruct (hb_store h1) as [db1|] eqn:H1.
  - destruct (complete_job_output_upload db1 _) as [[] db'] eqn:Hc; [|done].
    etrans; [exact Hs|]. eapply (run_tx h1 _ db1 db'); [done|done|]. change db' with (true, db').2. rewrite <- Hc.
    apply tx_output.
  - etrans; [exact Hs|]. by apply run_same.
Qed.

Lemma create_input_run h now uuid fault o request : store_run h (create_input h now uuid fault o request).2.
Proof.
  unfold create_input. match goal with |- context [stage_upload h now ?r ?s ?f] =>
    pose proof (stage_upload_run h now r s f) as Hs; destruct (stage_upload h now r s f) as [[up|e] h1] end; [|done].
  etrans; [exact Hs|]. by apply run_same.
Qed.

Lemma complete_for_principal_run h now fault o id request :
  store_run h (complete_upload_for_principal h now fault o id request).2.
Proof.
  unfold complete_upload_for_principal. destruct (negb _); [done|]. destruct (resident_artifact _ _ _) as [a|]; [|done].
  destruct (negb _); [done|]. destruct (object_head _); [|done]. destruct (negb _).
  - etrans; [apply (hub_release_run h now o)|]. by apply run_same.
  - destruct (persist_artifact _ _ _ _) as [h1|] eqn:Hp; [|done]. etrans; [by eapply persist_run|]. by apply run_same.
Qed.

Lemma complete_upload_run legacy h now id request : store_run h (complete_upload legacy h now id request).2.
Proof.
  unfold complete_upload. destruct (negb _); [done|]. destruct (resident_artifact _ _ _) as [a|]; [|done].
  destruct (negb _); [done|]. destruct (object_head _); [|done]. destruct (negb _); [done|].
  destruct (hb_store h) as [db|] eqn:Hdb; [|by apply run_same].
  eapply run_side; [done|done|]. unfold set_artifact_state. destruct (db_artifacts db !! _); by split; eauto.
Qed.

Lemma reclaim_side order d now limit : side_rows d (reclaim_expired_uploads order d now limit).2.
Proof.
  split; [done|done|]. simpl. generalize (map reclaimed_of (reclaim_candidates order d now limit)).
  intros l. generalize (db_usage d). induction l as [|u l IH]; intros m o q Hq; simpl in Hq; [eauto|].
  destruct (IH _ _ _ Hq) as (u1 & Hu1 & Ha). unfold release_reclaimed in Hu1.
  apply lookup_alter_Some in Hu1 as [(_ & u0 & Hu0 & ->)|[_ Hu0]]; eauto.
Qed.

Lemma reap_run order h now : store_run h (reap_expired_uploads order h now).
Proof.
  unfold reap_expired_uploads. destruct (hb_store h) as [db|] eqn:Hdb; [|done].
  pose proof (reclaim_side order db now UPLOAD_REAP_BATCH) as Hs. destruct (reclaim_expired_uploads _ _ _ _) as [l db'].
  by eapply run_side.
Qed.

(** *** Connections *)
Section connections.
Context (job_order : gmap string JobRecord → list JobRecord) (new_command : string → string).

Lemma rebind_job_run h now tick o w sid id : store_run h (rebind_job new_command h now tick o w sid id).2.
Proof.
  unfold rebind_job. destruct (hd_jobs _ !! _) as [j|]; [|done].
  pose proof (same_but_cache_run _ _ (load_artifacts_same h tick (hj_organization_id j) (jv_input_artifact_ids (hj_view j)))) as Hs.
  destruct (load_artifacts _ _ _ _) as [res h1]. simpl in Hs. destruct (res ≫= _) as [inputs|]; [|done].
  destruct (negb _); [done|].
  assert (Hm : ∀ h2, store_run h h2 → store_run h (merge_rebound new_command h2 now o w sid id j inputs).2).
  { intros h2 Hr. etrans; [exact Hr|]. apply run_same. unfold merge_rebound. destruct (hd_jobs _ !! _); [|done]. by destruct (_ || _). }
  destruct (hb_store h1) as [db1|] eqn:H1.
  - match goal with |- context [rebind_stored ?a ?b ?c ?d ?e ?f ?g] =>
      pose proof (rebind_stored_run a b c d e f g) as Hr; destruct (rebind_stored a b c d e f g) as [rb db'] end.
    assert (H2 : store_run h (with_store h1 db')) by (etrans; [exact Hs|]; by eapply run_to).
    destruct rb; simpl; [|done]. destruct (guard_current_session _ _ _ _); [|done].
    specialize (Hm _ H2). by destruct (merge_rebound _ _ _ _ _ _ _ _ _).
  - simpl. destruct (guard_current_session _ _ _ _); [|done]. specialize (Hm _ Hs).
    by destruct (merge_rebound _ _ _ _ _ _ _ _ _).
Qed.

Lemma rebind_loop_run h now tick o w sid ids : store_run h (rebind_loop new_command h now tick o w sid ids).2.
Proof.
  revert h. induction ids as [|id ids IH]; intros h; simpl; [done|].
  pose proof (rebind_job_run h now tick o w sid id) as H1. destruct (rebind_job _ _ _ _ _ _ _ _) as [[step|e] h1]; [|done].
  destruct step as [| |d]; [etrans; [exact H1|apply IH]|done|]. specialize (IH h1).
  destruct (rebind_loop _ _ _ _ _ _ _ _) as [rest h2]. by etrans.
Qed.

Lemma register_run text h now tick sid uuid interval auth register :
  store_run h (register_worker job_order new_command text h now tick sid uuid interval auth register).2.
Proof.
  unfold register_worker. destruct (negb _); [done|]. destruct (is_some_and _ _); [done|].
  destruct (match hb_store h with Some _ => _ | None => _ end) as [h1|e] eqn:Hup; [|done].
  assert (H1 : store_run h h1).
  { destruct (hb_store h) as [db|] eqn:Hdb; [|by injection Hup as <-].
    apply bind_Ok in Hup as (t & _ & Hup). apply bind_Ok in Hup as (db' & Hu & [= <-]). eapply run_side; [done|done|].
    revert Hu. unfold upsert_worker. destruct (db_workers db !! _); [case_bool_decide; [|done]|]; intros [= <-]; by split; eauto. }
  destruct (Sessions.insert _ _) as [[registered r] effects]. destruct (negb registered); [etrans; [exact H1|by apply run_same]|].
  pose proof (rebind_loop_run (with_sessions h1 r) now tick (wa_organization_id auth) (worker_id_of register) sid
    ((λ j, jv_id (hj_view j)) <$> List.filter (of_worker (wa_organization_id auth) (worker_id_of register))
       (job_order (hd_jobs (hb_data (with_sessions h1 r)))))) as H2.
  unfold rebind_jobs_for_session. destruct (rebind_loop _ _ _ _ _ _ _ _) as [[replay|e] h3];
    (etrans; [exact H1|]; etrans; [|exact H2 || (etrans; [exact H2|]; by apply run_same)]; by apply run_same).
Qed.

Lemma replay_run h now o w sid d : store_run h (replay_dispatch h now o w sid d).2.
Proof.
  unfold replay_dispatch. destruct (negb _); [done|]. destruct (hb_store h) as [db|] eqn:Hdb; simpl; [|done].
  eapply run_store; [done|done|]. constructor.
Qed.
End connections.

Lemma message_run max h now tick uuid faults o w sid m :
  store_run h (handle_worker_message strings json scan max h now tick uuid faults o w sid m).2.
Proof.
  destruct m as [r|beat|ack|event|ready|uploaded|pong]; simpl; try done.
  - destruct (negb _); [done|]. destruct (update_heartbeat _ _ _ _ _ _ _) as [r|]; [|done]. simpl.
    destruct (hb_store h) as [db|] eqn:Hdb; [|by apply run_same]. eapply run_side; [done|done|]. by split; eauto.
  - by apply run_same.
  - destruct (HubJobs.apply_job_event _ _ _ _ _ _ _ _ _) as [[ack h']|] eqn:Happ; [|done]. by eapply apply_job_event_run.
  - pose proof (prepare_run max h now uuid faults o w sid ready) as Hp. by destruct (prepare_artifact_upload _ _ _ _ _ _ _ _ _).
  - pose proof (complete_output_run h now tick o w sid uploaded) as Hp. by destruct (complete_artifact_upload _ _ _ _ _ _ _).
Qed.

(** *** The scheduler *)

Lemma dispatch_queued_run r db o j now r' db' :
  dispatch_queued_job r db o j now = Ok (r', db') → rtc (tx ser rules) db db'.
Proof.
  unfold dispatch_queued_job. destruct (queued_job_info db o j) as [[[[[wf ver] torg] tdev] attempt]|]; [|by intros [= <- <-]].
  intros (a & _ & Hc)%bind_Ok. destruct (reserve_capacity_on _ _ _ _ _) as [[w|] r1]; [|by injection Hc as <- <-].
  destruct (bind_queued_job db o j (vw_organization_id w) (vw_worker_id w) (vw_session_id w) now) as [[] d1] eqn:Hb;
    injection Hc as <- <-; [|done].
  change d1 with (true, d1).2. rewrite <- Hb. apply rtc_once, tx_batch, bs_bind.
Qed.

Lemma schedule_run queue_order n r db now : rtc (tx ser rules) db (schedule_loop queue_order n r db now).2.
Proof.
  revert r db. induction n as [|n IH]; intros r db; simpl; [done|].
  assert (Hclaim : tx ser rules db (claim_dispatch_queue_job queue_order db "hub-scheduler" SCHEDULER_LEASE_SECONDS now).2)
    by (apply tx_batch, bs_claim).
  destruct (claim_dispatch_queue_job _ _ _ _ _) as [[[o j]|] d1]; [|by apply rtc_once].
  eapply rtc_l; [exact Hclaim|]. simpl. destruct (dispatch_queued_job r d1 o j now) as [[r2 d2]|] eqn:Hd; [|apply IH].
  etrans; [by eapply dispatch_queued_run|apply IH].
Qed.
End run.

(** ** The Hub as a transition system *)

(** The handlers, each up to its wait and from there on; what happens to the
    registry besides does not touch the store. *)
Section system.
Context `{!ObjectStore, !JsonbArray}.
Context (strings : string → Res string (list string)) (json : string → Res string Json)
        (scan : gmap (string * string * Z * Z) StoredJobEvent → list StoredJobEvent)
        (ser : list string → string) (rules : string → Res string (list DeviceWorkflowRule))
        (iter : gmap string WorkerSession → list (string * WorkerSession))
        (to_string_json : Json → string) (request_hash : SubmitJobRequest → string)
        (job_order : gmap string JobRecord → list JobRecord)
        (queue_order : gmap (string * string) QueueRow → list ((string * string) * QueueRow))
        (upload_order : gmap (string * string) ArtifactTableRow → list ((string * string) * ArtifactTableRow))
        (max_artifact_bytes : Z) (legacy : string).

Inductive hub_step (h : Hub) : Hub → Prop :=
| hs_register text new_command now tick sid uuid interval auth register :
    hub_step h (register_worker job_order new_command text h now tick sid uuid interval auth register).2
| hs_replay now o w sid d : hub_step h (replay_dispatch h now o w sid d).2
| hs_message now tick uuid faults o w sid m :
    hub_step h (handle_worker_message strings json scan max_artifact_bytes h now tick uuid faults o w sid m).2
| hs_sessions r : hub_step h (with_sessions h r)
| hs_submit now tick id cmd p key request :
    hub_step h (submit_hub (submit_job_for_principal strings json scan rules iter to_string_json ser
      request_hash h now tick id cmd p key request))
| hs_submit_legacy now id cmd key request :
    hub_step h (submit_hub (submit_job rules iter to_string_json ser request_hash legacy h now id cmd key request))
| hs_submit_finish now record sid outcome : hub_step h (submit_job_finish h now record sid outcome).2
| hs_dispatch db now key :
    hb_store h = Some db → hub_step h (dispatch_hub (dispatch_outbox_begin strings json scan h db now key))
| hs_dispatch_finish now key wo w sid cmd outcome :
    hub_step h (dispatch_outbox_finish h now key wo w sid cmd outcome).2
| hs_cancel now uuid p id : hub_step h (cancel_hub (cancel_job_for_principal strings json scan h now uuid p id))
| hs_cancel_finish now record sid cmd outcome :
    hub_step h (send_job_cancellation_finish h now record sid cmd outcome).2
| hs_create_upload now uuid fault o request :
    hub_step h (create_upload_for_principal max_artifact_bytes h now uuid fault o request).2
| hs_create_upload_legacy now uuid fault request :
    hub_step h (create_upload max_artifact_bytes legacy h now uuid fault request).2
| hs_complete_upload now fault o id request :
    hub_step h (complete_upload_for_principal h now fault o id request).2
| hs_complete_upload_legacy now id request : hub_step h (complete_upload legacy h now id request).2
| hs_reap now : hub_step h (reap_expired_uploads upload_order h now)
| hs_schedule db now :
    hb_store h = Some db →
    hub_step h (with_store (with_sessions h (schedule_pass queue_order (hb_sessions h) db now).1)
                  (schedule_pass queue_order (hb_sessions h) db now).2)
| hs_batch db batch children shared idem adm now res db' :
    hb_store h = Some db → bi_total_jobs batch = Z.of_nat (length children) →
    commit_new_batch ser rules db batch children shared idem adm now = Ok (res, db') →
    hub_step h (with_store h db')
| hs_claim db order now limit :
    hb_store h = Some db → hub_step h (with_store h (claim_dispatches order db now limit).2)
| hs_reconcile db now grace :
    hb_store h = Some db → hub_step h (with_store h (reconcile_active_job_quota db now grace)).

Lemma hub_step_run h h' : hub_step h h' → store_run ser rules h h'.
Proof.
  assert (Hrefl : store_run ser rules h h) by by apply run_same. intros Hs. destruct Hs.
  - apply register_run.
  - apply replay_run.
  - apply message_run.
  - by apply run_same.
  - apply submit_run.
  - apply submit_legacy_run.
  - apply submit_finish_run.
  - by apply dispatch_begin_run.
  - apply dispatch_finish_run.
  - apply cancel_run.
  - apply cancel_finish_run.
  - unfold create_upload_for_principal. destruct (validate_upload _ _); [|done]. case_bool_decide; [done|]. apply create_input_run.
  - unfold create_upload. destruct (validate_upload _ _); [|done]. apply create_input_run.
  - apply complete_for_principal_run.
  - apply complete_upload_run.
  - apply reap_run.
  - eapply run_to; [done|done|]. apply schedule_run.
  - eapply run_tx; [done|done|]. by eapply tx_batch, bs_commit.
  - eapply run_store; [done|done|]. constructor.
  - eapply run_store; [done|done|]. constructor.
Qed.

Lemma rtc_hub_run h h' : rtc hub_step h h' → store_run ser rules h h'.
Proof.
  induction 1 as [h|h h1 h2 Hs _ IH]; [by apply run_same|]. apply hub_step_run in Hs. unfold store_run in *.
  destruct (hb_store h), (hb_store h1), (hb_store h2); try done. by etrans.
Qed.


(** C2: Over the whole Hub, quotas are exact: from a state in which every
    organization's active-job counter is the number of its unfinished jobs, and
    finished jobs are released, any sequence of handlers leads to states in
    which they are. *)
Theorem hub_quota_exact h h' db db' o u :
  hb_store h = Some db → quota_ok db → rtc hub_step h h' → hb_store h' = Some db' →
  db_usage db' !! o = Some u → qu_active_jobs u = unfinished_count (db_jobs db') o.
Proof.
  intros Hdb Hok Hr%rtc_hub_run Hdb'. unfold store_run in Hr. rewrite Hdb, Hdb' in Hr.
  cut (quota_ok db'); [intros [Ha _ _]; apply Ha|]. refine (rtc_ind_r quota_ok _ _ _ _ Hr); [done|].
  intros y z _ Hyz. by eapply tx_quota.
Qed.

End system.

(** ** Witnesses *)
Module SystemExample.
Definition step : Hub → Hub → Prop :=
  hub_step HubExample.strings HubExample.json HubExample.scan BatchExample.ser StoreExample.rules
    SessionExample.iter (λ _, "{}") (λ _, "h") (λ m, (map_to_list m).*2) BatchExample.scan ArtifactExample.scan
    50 "legacy".
Definition message (h : Hub) (e : JobEvent) : Hub :=
  (handle_worker_message HubExample.strings HubExample.json HubExample.scan 50 h 2000 0 "u1" no_faults
     "acme" "gpu" "s1" (WJobEvent e)).2.
(** The job fails, and a late event says it is running. *)
Definition failed : Hub := message (HubExample.hub "acme") (HubExample.event EvFailed 1).
Definition late : Hub := message failed (HubExample.event EvRunning 2).
Lemma run_failed : rtc step (HubExample.hub "acme") failed.
Proof. apply rtc_once. apply hs_message. Qed.
Lemma run_late : rtc step failed late.
Proof. apply rtc_once. apply hs_message. Qed.
Definition database (h : Hub) : Db := default (HubExample.db "acme") (hb_store h).
End SystemExample.


Lemma hub_quota_exact_witness :
  ∃ u, db_usage (SystemExample.database SystemExample.failed) !! "acme" = Some u
    ∧ qu_active_jobs u = unfinished_count (db_jobs (SystemExample.database SystemExample.failed)) "acme".
Proof.
  eexists. split; [vm_compute; reflexivity|].
  apply (hub_quota_exact HubExample.strings HubExample.json HubExample.scan BatchExample.ser
    StoreExample.rules SessionExample.iter (λ _, "{}") (λ _, "h") (λ m, (map_to_list m).*2) BatchExample.scan
    ArtifactExample.scan 50 "legacy" (HubExample.hub "acme") SystemExample.failed (HubExample.db "acme") _ "acme" _
    eq_refl HubExample.db_ok SystemExample.run_failed); vm_compute; reflexivity.
Defined.

