(* ===== verification/Transfer.v ===== *)
(** The worker's byte transfers and their errors ([nagisalake-runtime]:
    [error.rs], [artifacts.rs], [util.rs]).

    [reqwest] is a third-party client: of its errors the model has what the
    code asks of them ([ReqwestError]), of a response its status and the chunks
    of its body.  SHA-256 is a parameter.

    Main results: no text built from an HTTP failure carries a URL, a signature
    or a token, whatever the client reports; a downloaded input has the size
    and digest its dispatch declares; an upload ends before its ticket does. *)

From S2P Require Import Prelude Text Messages Helpers.
From Stdlib Require Import ZArith Lia Ascii.
From stdpp Require Import pretty.

(** ** Failures ([error.rs]) *)

Inductive HttpFailureClass :=
| ClassTimeout | ClassConnect | ClassRequest | ClassBody | ClassStatus
| ClassRedirect | ClassBuilder | ClassDecode | ClassTicketExpired | ClassUnknown.

Definition class_as_str (c : HttpFailureClass) : string :=
  match c with
  | ClassTimeout => "timeout"
  | ClassConnect => "connect"
  | ClassRequest => "request"
  | ClassBody => "body"
  | ClassStatus => "status"
  | ClassRedirect => "redirect"
  | ClassBuilder => "builder"
  | ClassDecode => "decode"
  | ClassTicketExpired => "ticket_expired"
  | ClassUnknown => "unknown"
  end.

Definition class_is_transient (c : HttpFailureClass) : bool :=
  match c with ClassTimeout | ClassConnect | ClassRequest | ClassBody => true | _ => false end.

Record HttpFailure := mkHttpFailure {
  hf_operation : string;
  hf_class : HttpFailureClass;
  hf_status : option Z;
  hf_transient : bool;
  hf_attempts : Z;
  hf_causes : list string;
}.

Inductive RuntimeError :=
| RtInvalidConfig (m : string)
| RtConnectionClosed
| RtCapacityExhausted (max_jobs : Z)
| RtCancelled
| RtJournal (m : string)
| RtWorkflow (m : string)
| RtComfy (m : string)
| RtArtifact (m : string)
| RtHttp (f : HttpFailure)
| RtIo (m : string).

Definition retryable_http_status (status : Z) : bool :=
  existsb (Z.eqb status) [408; 425; 429; 500; 502; 503; 504]%Z.

Definition HttpFailure_status (operation : string) (attempts status : Z) : HttpFailure :=
  mkHttpFailure operation ClassStatus (Some status) (retryable_http_status status) attempts
    ["upstream returned HTTP status " +:+ pretty status].

(** [char::is_control] characters become a space: U+0000..U+001F and
    U+007F..U+009F, the last by their two bytes. *)
Fixpoint control_to_space (s : string) : string :=
  match s with
  | EmptyString => EmptyString
  | String a s1 =>
      if (byte_of a <? 32)%N || (byte_of a =? 127)%N then String " "%char (control_to_space s1)
      else match s1 with
           | String b s2 =>
               if (byte_of a =? 194)%N && in_range 128 159 (byte_of b)
               then String " "%char (control_to_space s2) else String a (control_to_space s1)
           | EmptyString => String a EmptyString
           end
  end.

(** [str::split_whitespace]; [word] is the word read so far. *)
Definition flush_word (word : string) : list string := if String.eqb word "" then [] else [word].
Fixpoint words (fuel : nat) (word s : string) : list string :=
  match fuel with
  | 0 => flush_word word
  | S fuel' =>
      match strip_ws true s with
      | Some s' => flush_word word ++ words fuel' "" s'
      | None =>
          match s with
          | EmptyString => flush_word word
          | String a s' => words fuel' (word +:+ String a "") s'
          end
      end
  end.
Definition split_whitespace (s : string) : list string := words (S (str_len s)) "" s.

(** [<[String]>::join]. *)
Fixpoint join (sep : string) (l : list string) : string :=
  match l with
  | [] => ""
  | [x] => x
  | x :: rest => x +:+ sep +:+ join sep rest
  end.

Definition sensitive_markers : list string :=
  ["://"; "x-amz-"; "signature="; "credential="; "authorization="; "authorization:"; "token="].

Definition HTTP_CAUSE_LIMIT : nat := 6.
Definition HTTP_CAUSE_CHARS : nat := 240.
Definition HTTP_CAUSES_TOTAL_CHARS : nat := 700.

Definition sanitize_http_cause (value : string) : string :=
  let normalized := join " " (split_whitespace (control_to_space value)) in
  let lower := to_ascii_lowercase normalized in
  if existsb (λ marker, contains marker lower) sensitive_markers
  then "<redacted sensitive HTTP detail>"
  else truncate normalized HTTP_CAUSE_CHARS.

(** The texts of an error and of its sources, outermost first; [usize] additions
    of a few hundred do not saturate. *)
Fixpoint sanitize_causes (causes : list string) (total_chars : nat) (errors : list string) : list string :=
  match errors with
  | [] => causes
  | cause :: source =>
      if (HTTP_CAUSE_LIMIT <=? length causes)%nat || (HTTP_CAUSES_TOTAL_CHARS <=? total_chars)%nat
      then causes
      else
        let value := sanitize_http_cause cause in
        if negb (String.eqb value "") && negb (bool_decide (last causes = Some value))
        then sanitize_causes (causes ++ [value]) (total_chars + chars_count value) source
        else sanitize_causes causes total_chars source
  end.
Definition sanitized_http_causes (errors : list string) : list string := sanitize_causes [] 0 errors.

(** What the code asks of a [reqwest::Error]; the texts are those of
    [error.without_url()] and its sources. *)
Record ReqwestError := mkReqwestError {
  re_is_timeout : bool;
  re_is_connect : bool;
  re_is_body : bool;
  re_is_redirect : bool;
  re_is_builder : bool;
  re_is_decode : bool;
  re_is_request : bool;
  re_status : option Z;
  re_texts : list string;
}.

Definition error_class (e : ReqwestError) : HttpFailureClass :=
  if re_is_timeout e then ClassTimeout
  else if re_is_connect e then ClassConnect
  else if re_is_body e then ClassBody
  else if re_is_redirect e then ClassRedirect
  else if re_is_builder e then ClassBuilder
  else if re_is_decode e then ClassDecode
  else if re_is_request e then ClassRequest
  else ClassUnknown.

Definition http_failure (operation : string) (attempts : Z) (e : ReqwestError) : RuntimeError :=
  let class := error_class e in
  RtHttp (mkHttpFailure operation class (re_status e) (class_is_transient class) attempts
            (sanitized_http_causes (re_texts e))).

(** [Display]. *)
Definition bool_text (b : bool) : string := if b then "true" else "false".
Definition http_failure_text (f : HttpFailure) : string :=
  ("operation=" +:+ hf_operation f +:+ " class=" +:+ class_as_str (hf_class f)
   +:+ " transient=" +:+ bool_text (hf_transient f) +:+ " attempts=" +:+ pretty (hf_attempts f))
  +:+ match hf_status f with Some status => " status=" +:+ pretty status | None => "" end
  +:+ match hf_causes f with
      | [] => ""
      | causes => " caused_by=[" +:+ join " <- " causes +:+ "]"
      end.

Definition runtime_error_text (e : RuntimeError) : string :=
  match e with
  | RtInvalidConfig m => "invalid runtime configuration: " +:+ m
  | RtConnectionClosed => "control connection is closed"
  | RtCapacityExhausted n => "worker job capacity is full (" +:+ pretty n +:+ " jobs)"
  | RtCancelled => "job was cancelled"
  | RtJournal m => "journal operation failed: " +:+ m
  | RtWorkflow m => "workflow operation failed: " +:+ m
  | RtComfy m => "ComfyUI operation failed: " +:+ m
  | RtArtifact m => "artifact operation failed: " +:+ m
  | RtHttp f => "HTTP operation failed: " +:+ http_failure_text f
  | RtIo m => "I/O operation failed: " +:+ m
  end.

(** ** Transfers ([artifacts.rs]) *)

Definition ARTIFACT_PUT_MAX_ATTEMPTS : Z := 3.
Definition PRESIGNED_REQUEST_EXPIRY_GUARD_MS : Z := 1000.

Definition artifact_put_request_timeout (expires_at_unix_ms now_unix_ms attempt : Z)
    : Res HttpFailure Z :=
  let remaining_ms := i64_saturating_sub expires_at_unix_ms now_unix_ms in
  if (remaining_ms <=? PRESIGNED_REQUEST_EXPIRY_GUARD_MS)%Z then
    Err (mkHttpFailure "artifact_put" ClassTicketExpired None true attempt
           ["presigned upload ticket is expired or too close to expiry"])
  else Ok (default 1%Z (u64_try_from (i64_saturating_sub remaining_ms PRESIGNED_REQUEST_EXPIRY_GUARD_MS))).

Definition validate_presigned (request : PresignedRequest) (method : string) (now : Z)
    : Res RuntimeError unit :=
  reject_if (negb (String.eqb (pr_method request) method))
    (RtArtifact ("presigned request method must be " +:+ method)) ;;
  reject_if (is_blank (pr_url request)) (RtArtifact "presigned request URL is empty") ;;
  reject_if (pr_expires_at_unix_ms request <=? now)%Z (RtArtifact "presigned request has expired").

Definition safe_filename (value : string) : string :=
  let candidate := default "artifact.bin" (file_name value) in
  let filtered := chars_sanitize safe_char candidate in
  if String.eqb filtered "" || String.eqb filtered "." || String.eqb filtered ".."
  then "artifact.bin" else filtered.

(** The hash of the retry jitter, in [u64]. *)
Definition jitter_hash (attempt : Z) (request_id : string) : Z :=
  foldl (λ hash byte, Z.lxor ((hash * 16777619) `mod` 2 ^ 64) (Z.of_N byte)) attempt (bytes request_id).

Definition artifact_put_retry_delay (request_id : string) (attempt : Z) : Z :=
  ((if (attempt =? 2) then 250 else 1000) + jitter_hash attempt request_id `mod` 251)%Z.

Section streaming.
(** The digest of a body, as lowercase hexadecimal. *)
Context (sha256_hex : string → string).

(** A response: its status and the chunks its body arrives in. *)
Record Response := mkResponse {
  rp_status : Z;
  rp_chunks : list (Res ReqwestError string);
}.
Definition is_success (status : Z) : bool := ((200 <=? status) && (status <? 300))%Z.

(** The size and content received so far. *)
Fixpoint stream_chunks (chunks : list (Res ReqwestError string)) (max_bytes : Z) (operation : string)
    (size : Z) (body : string) : Res RuntimeError (Z * string) :=
  match chunks with
  | [] => Ok (size, body)
  | Err error :: _ => Err (http_failure operation 1 error)
  | Ok chunk :: rest =>
      let size' := (size + Z.of_nat (str_len chunk))%Z in
      if (u64_max <? size')%Z then Err (RtArtifact "artifact size overflow")
      else if (max_bytes <? size')%Z
      then Err (RtArtifact ("artifact exceeds " +:+ pretty max_bytes +:+ "-byte limit"))
      else stream_chunks rest max_bytes operation size' (body +:+ chunk)
  end.

(** The size, the digest and the file written. *)
Definition stream_response_to_file (response : Response) (max_bytes : Z) (operation : string)
    : Res RuntimeError (Z * string * string) :=
  r ← stream_chunks (rp_chunks response) max_bytes operation 0 "";
  Ok (r.1, sha256_hex r.2, r.2).

(** The file written; [response] is what the client returns for the request. *)
Definition download_to_file (now : Z) (request : PresignedRequest) (expected_size : Z)
    (expected_sha256 : string) (response : Res ReqwestError Response) : Res RuntimeError string :=
  validate_presigned request "GET" now ;;
  reject_if (expected_size =? 0)%Z (RtArtifact "input size must be greater than zero") ;;
  match response with
  | Err error => Err (http_failure "artifact_get_send" 1 error)
  | Ok response =>
      reject_if (negb (is_success (rp_status response)))
        (RtHttp (HttpFailure_status "artifact_get" 1 (rp_status response))) ;;
      r ← stream_response_to_file response expected_size "artifact_get_body";
      let '(size, digest, file) := r in
      reject_if (negb (size =? expected_size)%Z || negb (eq_ignore_ascii_case digest expected_sha256))
        (RtArtifact "downloaded input size or SHA-256 does not match metadata") ;;
      Ok file
  end.
End streaming.

(** One PUT; [size] is the outcome of opening the file, its size, and [response]
    the client's for the request, bounded by the timeout. *)
Definition upload_file_once (now : Z) (request : PresignedRequest) (size : Res RuntimeError Z)
    (expected_size attempt : Z) (response : Res ReqwestError Z) : Res RuntimeError unit :=
  match artifact_put_request_timeout (pr_expires_at_unix_ms request) now attempt with
  | Err failure => Err (RtHttp failure)
  | Ok _ =>
      validate_presigned request "PUT" now ;;
      size ← size;
      reject_if (negb (size =? expected_size)%Z) (RtArtifact "output file size changed before upload") ;;
      match response with
      | Err error => Err (http_failure "artifact_put" attempt error)
      | Ok status =>
          reject_if (negb (is_success status)) (RtHttp (HttpFailure_status "artifact_put" attempt status))
      end
  end.

(** A ticket answers the request it was asked for, and every ticket of one
    upload names the same artifact. *)
Definition check_ticket (ready : ArtifactReady) (artifact_id : option string) (ticket : ArtifactUpload)
    : Res RuntimeError string :=
  reject_if (negb (String.eqb (au_request_id ticket) (ar_request_id ready)))
    (RtArtifact "Hub returned an upload ticket for a different request") ;;
  match artifact_id with
  | Some expected =>
      reject_if (negb (String.eqb expected (au_artifact_id ticket)))
        (RtArtifact "Hub changed the artifact id while refreshing an upload ticket") ;;
      Ok (au_artifact_id ticket)
  | None => Ok (au_artifact_id ticket)
  end.

(** A failed PUT is tried again only if the failure is transient and attempts
    are left. *)
Definition retries_put (attempt : Z) (error : RuntimeError) : bool :=
  match error with
  | RtHttp failure => hf_transient failure && (attempt <? ARTIFACT_PUT_MAX_ATTEMPTS)%Z
  | _ => false
  end.

(** ** Searching a text *)

Lemma prefix_split m a b :
  String.prefix m (a +:+ b) = true →
  String.prefix m a = true ∨ ∃ c m', m = a +:+ String c m' ∧ String.prefix (String c m') b = true.
Proof.
  revert m. induction a as [|x a IH]; intros m.
  - rewrite app_empty_l. destruct m as [|c m]; [by left|]. right. by exists c, m.
  - rewrite app_String. destruct m as [|y m]; [by left|]. simpl.
    destruct (ascii_dec y x) as [->|]; [|done]. intros [?|(c & m' & -> & ?)]%IH; [by left|].
    right. by exists c, m'.
Qed.

Lemma contains_cons m a s : contains m (String a s) = String.prefix m (String a s) || contains m s.
Proof. done. Qed.

(** An occurrence does not span a character the pattern does not have. *)
Lemma contains_sep (x : ascii) m a b :
  m ≠ "" → str_all (λ c, negb (Ascii.eqb c x)) m = true →
  contains m (a +:+ String x b) = true → contains m a = true ∨ contains m b = true.
Proof.
  intros Hne Hm.
  assert (Hx : ∀ p c m', m = p +:+ String c m' → String.prefix (String c m') (String x b) = true → False).
  { intros p c m' -> Hp. rewrite str_all_app in Hm. simpl in Hm, Hp. destruct (ascii_dec c x) as [->|]; [|done].
    rewrite Ascii.eqb_refl in Hm. by rewrite andb_false_r in Hm. }
  induction a as [|y a IH].
  - rewrite app_empty_l, contains_cons. destruct m as [|c m]; [done|].
    intros [Hp|?]%orb_true_iff; [by destruct (Hx "" c m eq_refl)|by right].
  - rewrite app_String, !contains_cons. intros [Hp|Hc]%orb_true_iff.
    + apply (prefix_split m (String y a)) in Hp as [Hp|(c & m' & Heq & Hp)]; [|by destruct (Hx _ _ _ Heq Hp)].
      left. by rewrite Hp.
    + apply IH in Hc as [Hc|Hc]; [left|by right]. by rewrite Hc, orb_true_r.
Qed.

Lemma contains_all f m s : str_all f s = true → contains m s = true → str_all f m = true.
Proof.
  intros Hs. induction s as [|a s IH]; simpl.
  - by destruct m.
  - change (contains m (String a s) = true → str_all f m = true). rewrite contains_cons.
    intros [Hp|Hc]%orb_true_iff; [|simpl in Hs; bool_cases; eauto].
    apply Text.prefix_app in Hp as [t Ht]. rewrite Ht, str_all_app in Hs. by bool_cases.
Qed.

(** Characters of a class appended to a text complete no pattern that ends
    outside the class. *)
Lemma contains_tail (f : ascii → bool) m c a d :
  f c = false → str_all f d = true →
  contains (m +:+ String c "") (a +:+ d) = true → contains (m +:+ String c "") a = true.
Proof.
  intros Hf Hd.
  assert (Hx : ∀ t, str_all f (t +:+ String c "") = false).
  { intros t. rewrite str_all_app. simpl. by rewrite Hf, andb_false_r. }
  induction a as [|y a IH].
  - rewrite app_empty_l. intros Hc%(contains_all f); [|done]. by rewrite Hx in Hc.
  - rewrite app_String, !contains_cons. intros [Hp|Hc]%orb_true_iff.
    + apply (prefix_split _ (String y a)) in Hp as [Hp|(z & m' & Heq & Hp)]; [by rewrite Hp|].
      exfalso. apply Text.prefix_app in Hp as [t ->].
      assert (Hlast : ∀ p q, p +:+ String c "" = q +:+ String z m' → ∃ t, String z m' = t +:+ String c "").
      { intros p q. revert p. induction q as [|w q IHq]; intros p; [rewrite app_empty_l; eauto|].
        destruct p as [|v p]; [rewrite app_empty_l, app_String; intros [= _ H]; by destruct q|].
        rewrite !app_String. intros [= _ H]. eauto. }
      destruct (Hlast _ _ Heq) as [u Hu]. rewrite Hu in Hd. rewrite str_all_app, Hx in Hd. done.
    + by rewrite IH, orb_true_r.
Qed.

Lemma contains_app_l m a b : contains m a = true → contains m (a +:+ b) = true.
Proof.
  induction a as [|y a IH].
  - simpl. rewrite orb_false_r. destruct m; [|done]. intros _. rewrite app_empty_l. by destruct b.
  - rewrite app_String, !contains_cons. intros [Hp|Hc]%orb_true_iff.
    + apply Text.prefix_app in Hp as [t Ht]. apply orb_true_iff. left. apply Text.prefix_app. exists (t +:+ b).
      by rewrite <- app_assoc_str, <- Ht, app_String.
    + by rewrite IH, orb_true_r.
Qed.

Lemma chars_take_prefix n s : ∃ t, s = chars_take n s +:+ t.
Proof.
  revert n. induction s as [|a s IH]; intros n; simpl; [by exists ""|].
  assert (Hcons : ∀ n, ∃ t, String a s = String a (chars_take n s) +:+ t).
  { intros k. destruct (IH k) as [t Ht]. exists t. rewrite app_String. by f_equal. }
  destruct (is_continuation a); [done|]. destruct n as [|n]; [by exists (String a s)|done].
Qed.

Lemma to_ascii_lowercase_app s t : to_ascii_lowercase (s +:+ t) = to_ascii_lowercase s +:+ to_ascii_lowercase t.
Proof.
  unfold to_ascii_lowercase. induction s as [|a s IH]; [done|].
  rewrite app_String. simpl. by rewrite IH, app_String.
Qed.

Lemma pretty_N_digits x s : str_all is_ascii_digit s = true → str_all is_ascii_digit (pretty_N_go x s) = true.
Proof.
  revert s. induction (N.lt_wf_0 x) as [x _ IH]. intros s Hs.
  destruct (decide (0 < x)%N) as [Hx|Hx].
  - rewrite pretty_N_go_step by done. apply IH; [by apply N.div_lt|]. simpl. rewrite Hs, andb_true_r.
    unfold pretty_N_char. by repeat case_match.
  - by assert (x = 0%N) as -> by lia.
Qed.

Lemma pretty_digits n : (0 ≤ n)%Z → str_all is_ascii_digit (pretty n) = true.
Proof.
  intros Hn. destruct n as [|p|p]; [done| |lia].
  change (str_all is_ascii_digit (pretty (N.pos p)) = true). unfold pretty, pretty_N.
  case_decide; [done|]. by apply pretty_N_digits.
Qed.

(** ** Diagnostics *)

(** No marker occurs, whatever the case. *)
Definition leak_free (s : string) : Prop :=
  Forall (λ m, contains m (to_ascii_lowercase s) = false) sensitive_markers.

#[export] Instance leak_free_dec s : Decision (leak_free s).
Proof. unfold leak_free. apply _. Defined.

(** No marker has a space or a bracket. *)
Lemma leak_free_sep (x : ascii) a b :
  x ∈ [" "; "["; "]"]%char → leak_free a → leak_free b → leak_free (a +:+ String x b).
Proof.
  unfold leak_free. rewrite !Forall_forall. intros Hx Ha Hb m Hm. apply not_true_iff_false.
  rewrite to_ascii_lowercase_app.
  change (to_ascii_lowercase (String x b)) with (String (ascii_to_lower x) (to_ascii_lowercase b)). intros Hc.
  assert (ascii_to_lower x = x) as Hlow by (set_unfold in Hx; naive_solver). rewrite Hlow in Hc.
  apply contains_sep in Hc as [Hc|Hc].
  - by rewrite Ha in Hc.
  - by rewrite Hb in Hc.
  - set_unfold in Hm. naive_solver.
  - set_unfold in Hm. set_unfold in Hx. naive_solver.
Qed.

Lemma leak_free_take n s : leak_free s → leak_free (chars_take n s).
Proof.
  intros Hs. destruct (chars_take_prefix n s) as [t Ht]. eapply Forall_impl; [exact Hs|].
  intros m Hm. cbv beta in Hm. apply not_true_iff_false. intros Hc. apply not_true_iff_false in Hm. apply Hm.
  rewrite Ht, to_ascii_lowercase_app. by apply contains_app_l.
Qed.

Lemma lower_digits d : str_all is_ascii_digit d = true → str_all is_ascii_digit (to_ascii_lowercase d) = true.
Proof.
  unfold to_ascii_lowercase. induction d as [|a d IH]; simpl; [done|]. intros H. bool_cases.
  rewrite IH, andb_true_r by done. by destruct a as [[] [] [] [] [] [] [] []].
Qed.

Lemma leak_free_number s n : (0 ≤ n)%Z → leak_free s → leak_free (s +:+ pretty n).
Proof.
  unfold leak_free. rewrite !Forall_forall. intros Hn Hs m Hm. apply not_true_iff_false.
  rewrite to_ascii_lowercase_app. pose proof (lower_digits _ (pretty_digits n Hn)) as Hd.
  intros Hc. specialize (Hs m Hm). apply not_true_iff_false in Hs. apply Hs.
  assert (∃ t c, m = t +:+ String c "" ∧ is_ascii_digit c = false) as (t & c & -> & Hf).
  { set_unfold in Hm. destruct Hm as [->|[->|[->|[->|[->|[->|[->|[]]]]]]]].
    - by exists ":/", "/"%char.
    - by exists "x-amz", "-"%char.
    - by exists "signature", "="%char.
    - by exists "credential", "="%char.
    - by exists "authorization", "="%char.
    - by exists "authorization", ":"%char.
    - by exists "token", "="%char. }
  by eapply contains_tail.
Qed.

Lemma sanitize_leak_free v : leak_free (sanitize_http_cause v).
Proof.
  unfold sanitize_http_cause. destruct (existsb _ _) eqn:He.
  - apply (bool_decide_unpack _). by vm_compute.
  - apply leak_free_take, Forall_forall. intros m Hm. apply not_true_iff_false. intros Hc.
    apply not_true_iff_false in He. apply He, existsb_exists. exists m. split; [by apply list_elem_of_In|done].
Qed.

Lemma sanitized_leak_free errors : Forall leak_free (sanitized_http_causes errors).
Proof.
  unfold sanitized_http_causes. generalize 0 at 1. assert (H0 : Forall leak_free []) by constructor. revert H0.
  generalize (@nil string) at 1 2 as causes. induction errors as [|e es IH]; intros causes Hc n; simpl; [done|].
  destruct (_ || _); [done|]. destruct (_ && _); apply IH; [|done].
  apply Forall_app. split; [done|]. constructor; [apply sanitize_leak_free|constructor].
Qed.

Lemma leak_free_join causes : Forall leak_free causes → leak_free (join " <- " causes).
Proof.
  induction 1 as [|c causes Hc _ IH]; [apply (bool_decide_unpack _); by vm_compute|]. simpl.
  destruct causes as [|c' causes]; [done|].
  change (" <- " +:+ join " <- " (c' :: causes)) with (String " " ("<-" +:+ String " " (join " <- " (c' :: causes)))).
  apply leak_free_sep; [set_solver|done|]. apply leak_free_sep; [set_solver| |done].
  apply (bool_decide_unpack _). by vm_compute.
Qed.

(** The operations failures are reported for. *)
Definition operations : list string :=
  ["artifact_client_build"; "artifact_upload_client_build"; "artifact_get_send"; "artifact_get";
   "artifact_get_body"; "comfy_output_body"; "artifact_put"].

(** A failure as the code builds them. *)
Record reported (f : HttpFailure) : Prop := {
  rp_operation : hf_operation f ∈ operations;
  rp_attempts : (0 ≤ hf_attempts f)%Z;
  rp_http_status : ∀ s, hf_status f = Some s → (0 ≤ s)%Z;
  rp_causes : Forall leak_free (hf_causes f);
}.

(** A text that ends with a space-separated continuation. *)
Lemma leak_free_spaced a b : leak_free a → (b = "" ∨ ∃ b', b = String " " b' ∧ leak_free b') → leak_free (a +:+ b).
Proof.
  intros Ha [-> |(b' & -> & Hb)]; [by rewrite app_empty_r|]. apply leak_free_sep; [set_solver|done..].
Qed.

(** The part of the text before the first number. *)
Lemma text_head_leak_free op class transient :
  op ∈ operations →
  leak_free ("HTTP operation failed: " +:+ "operation=" +:+ op +:+ " class=" +:+ class_as_str class
    +:+ " transient=" +:+ bool_text transient +:+ " attempts=").
Proof.
  revert op. apply Forall_forall. destruct class, transient; apply (bool_decide_unpack _); vm_compute; exact I.
Qed.

Lemma reported_text_leak_free f : reported f → leak_free (runtime_error_text (RtHttp f)).
Proof.
  destruct f as [op class status transient attempts causes]. intros [Hop Hatt Hst Hcauses].
  apply (text_head_leak_free op class transient) in Hop. cbn in Hatt, Hst, Hcauses. unfold runtime_error_text, http_failure_text.
  cbn [hf_operation hf_class hf_status hf_transient hf_attempts hf_causes].
  rewrite <- !app_assoc_str in *. apply leak_free_spaced; [apply leak_free_spaced; [by apply leak_free_number|]|].
  - destruct status as [n|]; [right|by left]. exists ("status=" +:+ pretty n). split; [done|].
    apply leak_free_number; [by apply Hst|]. apply (bool_decide_unpack _). by vm_compute.
  - destruct causes as [|c causes]; [by left|right].
    exists ("caused_by=" +:+ String "[" (join " <- " (c :: causes) +:+ String "]" "")). split; [done|].
    apply leak_free_sep; [set_solver|apply (bool_decide_unpack _); by vm_compute|].
    apply leak_free_sep; [set_solver|by apply leak_free_join|apply (bool_decide_unpack _); by vm_compute].
Qed.

Lemma http_failure_reported op attempts e :
  op ∈ operations → (0 ≤ attempts)%Z → (∀ s, re_status e = Some s → (0 ≤ s)%Z) →
  leak_free (runtime_error_text (http_failure op attempts e)).
Proof.
  intros Hop Ha Hs. apply reported_text_leak_free. split; [done..|]. apply sanitized_leak_free.
Qed.

Lemma status_reported op attempts status :
  op ∈ operations → (0 ≤ attempts)%Z → (0 ≤ status)%Z → reported (HttpFailure_status op attempts status).
Proof.
  intros Hop Ha Hs. split; [done..|by intros ? [= <-]|]. constructor; [|constructor].
  apply leak_free_number; [done|]. apply (bool_decide_unpack _). by vm_compute.
Qed.

(** A worker's diagnostics leak no secret: the text of a failed transfer,
    as it is put into a job event (cut to any length), contains no URL, no
    signature, no credential, no authorization header and no token in any
    case, whatever texts the HTTP client reports, for a failed request and for
    a refused one. *)
Theorem diagnostics_never_leak op attempts e status n :
  op ∈ operations → (0 ≤ attempts)%Z → (∀ s, re_status e = Some s → (0 ≤ s)%Z) → (0 ≤ status)%Z →
  leak_free (truncate (runtime_error_text (http_failure op attempts e)) n)
  ∧ leak_free (truncate (runtime_error_text (RtHttp (HttpFailure_status op attempts status))) n).
Proof.
  intros Hop Ha He Hs. split; apply leak_free_take.
  - by apply http_failure_reported.
  - by apply reported_text_leak_free, status_reported.
Qed.

(** ** Downloads *)

Lemma stream_chunks_spec chunks max op size body size' body' :
  stream_chunks chunks max op size body = Ok (size', body') → size = Z.of_nat (str_len body) →
  size' = Z.of_nat (str_len body')
  ∧ ∃ parts, chunks = Ok <$> parts ∧ body' = foldl String.append body parts
  ∧ (size' ≤ Z.max max size)%Z.
Proof.
  revert size body. induction chunks as [|[c|e] chunks IH]; intros size body; simpl; [| |done].
  - intros [= <- <-] Hs. split; [done|]. exists []. split_and!; [done..|lia].
  - destruct (_ <? _)%Z; [done|]. destruct (Z.ltb_spec max (size + Z.of_nat (str_len c))) as [|Hle]; [done|].
    intros Hr Hs. apply IH in Hr as (Hlen & parts & -> & -> & Hmax).
    + split; [done|]. exists (c :: parts). split_and!; [done..|lia].
    + rewrite str_len_app. lia.
Qed.

(** Inputs are verified: when the worker has downloaded an input, the file
    is the whole body of a successful response to an unexpired GET request,
    exactly as long as the dispatch declares, with the declared digest. *)
Theorem download_verified sha256_hex now request expected_size expected_sha256 response file :
  download_to_file sha256_hex now request expected_size expected_sha256 response = Ok file →
  pr_method request = "GET" ∧ (now < pr_expires_at_unix_ms request)%Z
  ∧ Z.of_nat (str_len file) = expected_size
  ∧ eq_ignore_ascii_case (sha256_hex file) expected_sha256 = true
  ∧ ∃ r parts, response = Ok r ∧ is_success (rp_status r) = true
      ∧ rp_chunks r = Ok <$> parts ∧ file = foldl String.append "" parts.
Proof.
  unfold download_to_file, validate_presigned. intros H. inv_ok. bool_cases.
  destruct response as [r|e]; [|done]. inv_ok. destruct x as [[size digest] body]. inv_ok. bool_cases.
  match goal with H : stream_response_to_file _ _ _ _ = _ |- _ => unfold stream_response_to_file in H end.
  inv_ok. match goal with H : stream_chunks _ _ _ _ _ = Ok ?x |- _ => destruct x as [n b] end. simplify_eq/=.
  match goal with H : stream_chunks _ _ _ _ _ = _ |- _ =>
    apply stream_chunks_spec in H as (Hlen & parts & Hparts & Hbody & _); [|done] end.
  repeat match goal with
  | H : String.eqb _ _ = true |- _ => apply String.eqb_eq in H
  | H : (_ =? _)%Z = true |- _ => apply Z.eqb_eq in H
  | H : (_ <=? _)%Z = false |- _ => apply Z.leb_gt in H
  end. subst. split_and!; try done. by exists r, parts.
Qed.

(** ** Upload tickets *)

(** A PUT is bounded by its ticket: it is attempted exactly if the ticket
    has more than a second left, and then times out at least a second before
    the ticket expires; the pause before the second attempt is between 250 and
    500 milliseconds, before the third between 1 and 1.25 seconds. *)
Theorem upload_bounded_by_ticket expires now attempt request_id :
  in_i64 expires → in_i64 now →
  match artifact_put_request_timeout expires now attempt with
  | Ok d => (0 < d ∧ now + d ≤ expires - 1000)%Z
  | Err f => (expires - now ≤ 1000)%Z ∧ hf_transient f = true
  end
  ∧ (250 ≤ artifact_put_retry_delay request_id 2 ≤ 500)%Z
  ∧ (1000 ≤ artifact_put_retry_delay request_id 3 ≤ 1250)%Z.
Proof.
  unfold in_i64. intros He Hn. split.
  - unfold artifact_put_request_timeout, PRESIGNED_REQUEST_EXPIRY_GUARD_MS, u64_try_from, i64_saturating_sub.
    unfold i64_min, i64_max in *. destruct (Z.leb_spec (Z.max (-2 ^ 63) (Z.min (2 ^ 63 - 1) (expires - now))) 1000).
    + split; [lia|done].
    + destruct (Z.ltb_spec (Z.max (-2 ^ 63) (Z.min (2 ^ 63 - 1) (Z.max (-2 ^ 63) (Z.min (2 ^ 63 - 1) (expires - now)) - 1000))) 0);
        simpl; lia.
  - unfold artifact_put_retry_delay. simpl.
    pose proof (Z.mod_pos_bound (jitter_hash 2 request_id) 251).
    pose proof (Z.mod_pos_bound (jitter_hash 3 request_id) 251). lia.
Qed.

(** ** Witnesses *)
Module TransferExample.
Definition error : ReqwestError :=
  mkReqwestError true false false false false false false (Some 503%Z)
    ["error sending request for url (https://bucket/key?X-Amz-Signature=abc)"; "connection reset"].
Definition request : PresignedRequest := mkPresignedRequest "GET" "https://bucket/key" ∅ 5000.
Definition response : Res ReqwestError Response := Ok (mkResponse 200 [Ok "ab"; Ok "c"]).
Definition sha (body : string) : string := if String.eqb body "abc" then "BA78" else "00".
End TransferExample.

Lemma diagnostics_never_leak_witness :
  leak_free (truncate (runtime_error_text (http_failure "artifact_put" 2 TransferExample.error)) 1000)
  ∧ runtime_error_text (http_failure "artifact_put" 2 TransferExample.error)
    = "HTTP operation failed: operation=artifact_put class=timeout transient=true attempts=2 status=503 caused_by=[<redacted sensitive HTTP detail> <- connection reset]".
Proof.
  split; [|vm_compute; reflexivity].
  refine (proj1 (diagnostics_never_leak "artifact_put" 2 TransferExample.error 200 1000 _ _ _ _));
    [apply (bool_decide_unpack _); vm_compute; exact I|lia|intros s [= <-]; lia|lia].
Defined.

Lemma download_verified_witness :
  download_to_file TransferExample.sha 1000 TransferExample.request 3 "ba78" TransferExample.response = Ok "abc"
  ∧ Z.of_nat (str_len "abc") = 3%Z.
Proof.
  assert (H : download_to_file TransferExample.sha 1000 TransferExample.request 3 "ba78" TransferExample.response = Ok "abc")
    by (vm_compute; reflexivity).
  split; [exact H|]. apply (download_verified _ _ _ _ _ _ _ H).
Defined.

Lemma upload_bounded_by_ticket_witness :
  artifact_put_request_timeout 10000 1000 1 = Ok 8000%Z ∧ (250 ≤ artifact_put_retry_delay "r" 2 ≤ 500)%Z.
Proof.
  split; [vm_compute; reflexivity|].
  apply (upload_bounded_by_ticket 10000 1000 1 "r"); unfold in_i64, i64_min, i64_max; lia.
Defined.
