(* ===== verification/Bus.v ===== *)
(** The worker's control state ([nagisalake-runtime/src/bus.rs]): the current
    connection, the tables of tasks waiting for an answer, the registry of
    running jobs with their cancellation tokens, and the capacity counters.

    A [oneshot] channel is the pair of its sender's entry in a waiter table and
    the value sent but not read: inserting a sender makes a new channel, so it
    drops the value of the one before.  A connection is the bounded queue of
    messages its actor has not written yet.  A loop that waits ([send],
    [send_job_event], [request_artifact], [confirm_artifact]) is the task of
    the runner's model; here are the steps such a loop takes. *)

From S2P Require Import Prelude Text Messages Transfer.
From Stdlib Require Import ZArith Lia.

(** ** State *)

Record Waiters := mkWaiters {
  wt_events : gset (string * Z);
  wt_tickets : gmap string string;
  wt_acks : gmap string string;
}.

(** Values that were sent to a waiting task. *)
Record Signals := mkSignals {
  sg_events : gset (string * Z);
  sg_tickets : gmap string ArtifactUpload;
  sg_acks : gset string;
}.

(** [rt_cancellations] has the state of each running job's token. *)
Record WorkerRuntime := mkWorkerRuntime {
  rt_connection : option (list WorkerMessage);
  rt_waiters : Waiters;
  rt_signals : Signals;
  rt_cancellations : gmap string bool;
  rt_active_jobs : Z;
  rt_queued_jobs : Z;
  rt_max_jobs : Z;
}.

Definition with_capacity (max_jobs : Z) : WorkerRuntime :=
  mkWorkerRuntime None (mkWaiters ∅ ∅ ∅) (mkSignals ∅ ∅ ∅) ∅ 0 0 max_jobs.

Definition with_connection (rt : WorkerRuntime) (c : option (list WorkerMessage)) : WorkerRuntime :=
  mkWorkerRuntime c (rt_waiters rt) (rt_signals rt) (rt_cancellations rt) (rt_active_jobs rt)
    (rt_queued_jobs rt) (rt_max_jobs rt).
Definition with_waiters (rt : WorkerRuntime) (w : Waiters) (s : Signals) : WorkerRuntime :=
  mkWorkerRuntime (rt_connection rt) w s (rt_cancellations rt) (rt_active_jobs rt) (rt_queued_jobs rt)
    (rt_max_jobs rt).
Definition with_jobs (rt : WorkerRuntime) (c : gmap string bool) (active queued : Z) : WorkerRuntime :=
  mkWorkerRuntime (rt_connection rt) (rt_waiters rt) (rt_signals rt) c active queued (rt_max_jobs rt).

(** ** The connection *)

(** The capacity of the actor's queue. *)
Definition CONNECTION_QUEUE : nat := 256.

Definition set_connection (rt : WorkerRuntime) : WorkerRuntime := with_connection rt (Some []).
Definition clear_connection (rt : WorkerRuntime) : WorkerRuntime := with_connection rt None.

(** One attempt of [send]: [None] while it has to wait for room or for the next
    connection. *)
Definition send (rt : WorkerRuntime) (message : WorkerMessage) : option WorkerRuntime :=
  queue ← rt_connection rt;
  if (length queue <? CONNECTION_QUEUE)%nat then Some (with_connection rt (Some (queue ++ [message]))) else None.

(** The actor takes the next message to write. *)
Definition take_outbound (rt : WorkerRuntime) : option (WorkerMessage * WorkerRuntime) :=
  match rt_connection rt with
  | Some (message :: queue) => Some (message, with_connection rt (Some queue))
  | _ => None
  end.

(** ** Capacity slots *)

Inductive SlotPhase := SlotQueued | SlotActive.

#[export] Instance SlotPhase_eq_dec : EqDecision SlotPhase.
Proof. solve_decision. Defined.

(** [fetch_sub] wraps around at zero; the release of a slot saturates. *)
Definition usize_fetch_sub (n : Z) : Z := if (n =? 0)%Z then u64_max else (n - 1)%Z.
Definition usize_saturating_dec (n : Z) : Z := Z.max 0 (n - 1).

Definition slot_queued (rt : WorkerRuntime) : SlotPhase * WorkerRuntime :=
  (SlotQueued, with_jobs rt (rt_cancellations rt) (rt_active_jobs rt) (rt_queued_jobs rt + 1)%Z).

Definition slot_activate (rt : WorkerRuntime) (phase : SlotPhase) : SlotPhase * WorkerRuntime :=
  match phase with
  | SlotQueued => (SlotActive, with_jobs rt (rt_cancellations rt) (rt_active_jobs rt + 1)%Z
                                (usize_fetch_sub (rt_queued_jobs rt)))
  | SlotActive => (SlotActive, rt)
  end.

Definition slot_drop (rt : WorkerRuntime) (phase : SlotPhase) : WorkerRuntime :=
  match phase with
  | SlotQueued => with_jobs rt (rt_cancellations rt) (rt_active_jobs rt) (usize_saturating_dec (rt_queued_jobs rt))
  | SlotActive => with_jobs rt (rt_cancellations rt) (usize_saturating_dec (rt_active_jobs rt)) (rt_queued_jobs rt)
  end.

Definition metrics (rt : WorkerRuntime) : Z * Z :=
  (Z.min (rt_active_jobs rt) u16_max, Z.min (rt_queued_jobs rt) u16_max).

(** ** Running jobs *)

Definition register_job_inner (rt : WorkerRuntime) (job_id : string) (enforce_capacity : bool)
    : Res RuntimeError (option SlotPhase) * WorkerRuntime :=
  let jobs := rt_cancellations rt in
  match jobs !! job_id with
  | Some _ => (Ok None, rt)
  | None =>
      if enforce_capacity && (rt_max_jobs rt <=? Z.of_nat (size jobs))%Z
      then (Err (RtCapacityExhausted (rt_max_jobs rt)), rt)
      else
        let '(slot, rt') := slot_queued (with_jobs rt (<[job_id := false]> jobs) (rt_active_jobs rt) (rt_queued_jobs rt)) in
        (Ok (Some slot), rt')
  end.

Definition register_job (rt : WorkerRuntime) (job_id : string)
    : Res RuntimeError (option SlotPhase) * WorkerRuntime := register_job_inner rt job_id true.

(** [expect]: without the limit there is no error. *)
Definition restore_job (rt : WorkerRuntime) (job_id : string) : option SlotPhase * WorkerRuntime :=
  match register_job_inner rt job_id false with
  | (Ok slot, rt') => (slot, rt')
  | (Err _, rt') => (None, rt')
  end.

Definition is_cancelled (rt : WorkerRuntime) (job_id : string) : bool :=
  default false (rt_cancellations rt !! job_id).

Definition cancel_job (rt : WorkerRuntime) (job_id : string) : bool * WorkerRuntime :=
  match rt_cancellations rt !! job_id with
  | None => (false, rt)
  | Some _ =>
      let w := rt_waiters rt in
      (true,
       with_waiters (with_jobs rt (<[job_id := true]> (rt_cancellations rt)) (rt_active_jobs rt) (rt_queued_jobs rt))
         (mkWaiters (filter (λ k, k.1 ≠ job_id) (wt_events w)) (filter (λ kv, kv.2 ≠ job_id) (wt_tickets w))
            (filter (λ kv, kv.2 ≠ job_id) (wt_acks w)))
         (rt_signals rt))
  end.

Definition finish_job (rt : WorkerRuntime) (job_id : string) : WorkerRuntime :=
  with_jobs rt (delete job_id (rt_cancellations rt)) (rt_active_jobs rt) (rt_queued_jobs rt).

(** ** Waiting for answers *)

(** What a receiver sees: nothing yet, a value, or that its sender is gone. *)
Inductive Reception (A : Type) := NotYet | Value (a : A) | SenderDropped.
Arguments NotYet {A}.
Arguments Value {A}.
Arguments SenderDropped {A}.

Definition event_waiters (rt : WorkerRuntime) (events : gset (string * Z)) (sent : gset (string * Z)) : WorkerRuntime :=
  let w := rt_waiters rt in let s := rt_signals rt in
  with_waiters rt (mkWaiters events (wt_tickets w) (wt_acks w)) (mkSignals sent (sg_tickets s) (sg_acks s)).

Definition await_event (rt : WorkerRuntime) (key : string * Z) : WorkerRuntime :=
  event_waiters rt ({[ key ]} ∪ wt_events (rt_waiters rt)) (sg_events (rt_signals rt) ∖ {[ key ]}).
Definition forget_event (rt : WorkerRuntime) (key : string * Z) : WorkerRuntime :=
  event_waiters rt (wt_events (rt_waiters rt) ∖ {[ key ]}) (sg_events (rt_signals rt) ∖ {[ key ]}).
Definition poll_event (rt : WorkerRuntime) (key : string * Z) : Reception unit :=
  if bool_decide (key ∈ sg_events (rt_signals rt)) then Value tt
  else if bool_decide (key ∈ wt_events (rt_waiters rt)) then NotYet else SenderDropped.

Definition resolve_job_event (rt : WorkerRuntime) (ack : JobEventAck) : WorkerRuntime :=
  let key := (ea_job_id ack, ea_sequence ack) in
  if bool_decide (key ∈ wt_events (rt_waiters rt))
  then event_waiters rt (wt_events (rt_waiters rt) ∖ {[ key ]}) ({[ key ]} ∪ sg_events (rt_signals rt))
  else rt.

Definition ticket_waiters (rt : WorkerRuntime) (tickets : gmap string string) (sent : gmap string ArtifactUpload)
    : WorkerRuntime :=
  let w := rt_waiters rt in let s := rt_signals rt in
  with_waiters rt (mkWaiters (wt_events w) tickets (wt_acks w)) (mkSignals (sg_events s) sent (sg_acks s)).

Definition await_ticket (rt : WorkerRuntime) (request_id job_id : string) : WorkerRuntime :=
  ticket_waiters rt (<[request_id := job_id]> (wt_tickets (rt_waiters rt))) (delete request_id (sg_tickets (rt_signals rt))).
Definition forget_ticket (rt : WorkerRuntime) (request_id : string) : WorkerRuntime :=
  ticket_waiters rt (delete request_id (wt_tickets (rt_waiters rt))) (delete request_id (sg_tickets (rt_signals rt))).
Definition poll_ticket (rt : WorkerRuntime) (request_id : string) : Reception ArtifactUpload :=
  match sg_tickets (rt_signals rt) !! request_id with
  | Some ticket => Value ticket
  | None => if bool_decide (is_Some (wt_tickets (rt_waiters rt) !! request_id)) then NotYet else SenderDropped
  end.

Definition resolve_artifact_ticket (rt : WorkerRuntime) (upload : ArtifactUpload) : WorkerRuntime :=
  match wt_tickets (rt_waiters rt) !! au_request_id upload with
  | Some _ => ticket_waiters rt (delete (au_request_id upload) (wt_tickets (rt_waiters rt)))
                (<[au_request_id upload := upload]> (sg_tickets (rt_signals rt)))
  | None => rt
  end.

Definition ack_waiters (rt : WorkerRuntime) (acks : gmap string string) (sent : gset string) : WorkerRuntime :=
  let w := rt_waiters rt in let s := rt_signals rt in
  with_waiters rt (mkWaiters (wt_events w) (wt_tickets w) acks) (mkSignals (sg_events s) (sg_tickets s) sent).

Definition await_ack (rt : WorkerRuntime) (request_id job_id : string) : WorkerRuntime :=
  ack_waiters rt (<[request_id := job_id]> (wt_acks (rt_waiters rt))) (sg_acks (rt_signals rt) ∖ {[ request_id ]}).
Definition forget_ack (rt : WorkerRuntime) (request_id : string) : WorkerRuntime :=
  ack_waiters rt (delete request_id (wt_acks (rt_waiters rt))) (sg_acks (rt_signals rt) ∖ {[ request_id ]}).
Definition poll_ack (rt : WorkerRuntime) (request_id : string) : Reception unit :=
  if bool_decide (request_id ∈ sg_acks (rt_signals rt)) then Value tt
  else if bool_decide (is_Some (wt_acks (rt_waiters rt) !! request_id)) then NotYet else SenderDropped.

Definition resolve_artifact_ack (rt : WorkerRuntime) (ack : ArtifactUploadedAck) : WorkerRuntime :=
  match wt_acks (rt_waiters rt) !! aa_request_id ack with
  | Some _ => ack_waiters rt (delete (aa_request_id ack) (wt_acks (rt_waiters rt)))
                ({[ aa_request_id ack ]} ∪ sg_acks (rt_signals rt))
  | None => rt
  end.
