(* ===== verification/Runner.v ===== *)
(** Execution of a job on the worker ([nagisalake-runtime/src/runner.rs], with
    [upload_file_with_retry] of [artifacts.rs] and the waiting loops of
    [bus.rs]).

    [JobRunner::execute] is an asynchronous function; the model is its state
    machine: a [Task] is its local variables and the point it waits at, and
    [task_step] runs it from one wait to the next on a [Stimulus].  A task
    shares the runtime, the journal and the semaphore with the others
    ([World]).  The ComfyUI client, the file system and the HTTP client are in
    the stimuli: what they answered. *)

From S2P Require Import Prelude Text Json Messages Validate Core Journal Pointer Normalize Catalog Helpers Transfer Bus.
From Stdlib Require Import ZArith Lia.
From Stdlib Require Import SpecFloat.

(** ** Configuration and events *)

Record WorkerExecutionConfig := mkWorkerExecutionConfig {
  xc_work_dir : string;
  xc_poll_interval_ms : Z;
  xc_max_output_bytes : Z;
  xc_parallelism : Z;
}.

Definition validate_execution (c : WorkerExecutionConfig) : Res RuntimeError unit :=
  reject_if (String.eqb (xc_work_dir c) "") (RtInvalidConfig "work_dir must not be empty") ;;
  reject_if (xc_poll_interval_ms c =? 0)%Z (RtInvalidConfig "poll_interval must be greater than zero") ;;
  reject_if (xc_max_output_bytes c =? 0)%Z (RtInvalidConfig "max_output_bytes must be greater than zero") ;;
  reject_if (xc_parallelism c =? 0)%Z (RtInvalidConfig "parallelism must be greater than zero").

Record EventUpdate := mkEventUpdate {
  up_kind : JobEventKind;
  up_progress : option spec_float;
  up_prompt_id : option string;
  up_message : string;
  up_state : JobState;
}.

(** The [f32] values 0.95 and 1.0. *)
Definition f32_0_95 : spec_float := S754_finite false 15938355 (-24).
Definition f32_1 : spec_float := S754_finite false 8388608 (-23).

Definition COMFY_STATUS_HEARTBEAT_INTERVAL_MS : Z := 10000.

Definition comfy_status_message (status : ComfyPromptStatus) (elapsed_ms : Z) : string :=
  let elapsed := pretty (elapsed_ms / 1000)%Z in
  match status with
  | StatusUnknown => "ComfyUI prompt status is unavailable (elapsed " +:+ elapsed +:+ "s)"
  | StatusQueued position =>
      "ComfyUI queued this prompt at position " +:+ pretty position +:+ " (elapsed " +:+ elapsed +:+ "s)"
  | StatusRunning => "ComfyUI is running this prompt (elapsed " +:+ elapsed +:+ "s)"
  end.

(** ** Inputs *)

(** [{:03}]. *)
Definition pad3 (n : nat) : string :=
  let s := pretty n in
  match str_len s with 1 => "00" +:+ s | 2 => "0" +:+ s | _ => s end.

Definition input_local_name (job_id : string) (index : nat) (input : JobInput) : string :=
  pad3 index +:+ "-" +:+ safe_filename job_id +:+ "-" +:+ safe_filename (ji_name input).

(** The outcome of creating the input directory, and what the clients answer for
    the inputs of a job, by index: whether the job
    is cancelled when the input is reached, the time, the download's response,
    and ComfyUI's answer to the upload of a file under a name. *)
Record InputEnv := mkInputEnv {
  ie_dir : Res string unit;
  ie_cancelled : nat → bool;
  ie_now : nat → Z;
  ie_response : nat → Res ReqwestError Response;
  ie_upload : nat → string → string → Res string string;
}.

Section inputs.
Context (sha256_hex : string → string).

Fixpoint prepare_each (env : InputEnv) (job_id : string) (index : nat) (inputs : list JobInput)
    : Res RuntimeError (list string) :=
  match inputs with
  | [] => Ok []
  | input :: rest =>
      reject_if (ie_cancelled env index) RtCancelled ;;
      match download_to_file sha256_hex (ie_now env index) (ji_download input) (ji_size_bytes input)
              (ji_sha256 input) (ie_response env index) with
      | Err error => Err (RtArtifact (ji_artifact_id input +:+ ": " +:+ runtime_error_text error))
      | Ok file =>
          match ie_upload env index (input_local_name job_id index input) file with
          | Err error => Err (RtComfy error)
          | Ok name => names ← prepare_each env job_id (S index) rest; Ok (name :: names)
          end
      end
  end.

Definition prepare_inputs (env : InputEnv) (job_id : string) (inputs : list JobInput)
    : Res RuntimeError (list string) :=
  match ie_dir env with
  | Err error => Err (RtIo error)
  | Ok _ => prepare_each env job_id 0 inputs
  end.
End inputs.

(** ** Tasks *)

Record StatusWatch := mkStatusWatch {
  sw_last_status : ComfyPromptStatus;
  sw_status_since : Z;
  sw_last_status_event : option Z;
}.

#[export] Instance ComfyPromptStatus_eq_dec : EqDecision ComfyPromptStatus.
Proof. solve_decision. Defined.

(** What follows when an event is acknowledged. *)
Inductive Next :=
| AfterReplay
| AfterAccepted
| AfterRunning (prompt_id : string)
| AfterStatus (prompt_id : string) (watch : StatusWatch)
| AfterUploading (prompt_id : string) (outputs : list OutputRef)
| AfterCompleted
| AfterTerminal.

(** Where the upload of one output waits. *)
Inductive UploadPoint :=
| UploadView
| UploadTicket (ready : ArtifactReady) (attempt : Z) (artifact_id : option string) (sent : bool)
| UploadPut (ready : ArtifactReady) (attempt : Z) (artifact_id : string) (ticket : ArtifactUpload)
| UploadPause (ready : ArtifactReady) (attempt : Z) (artifact_id : string)
| UploadConfirm (uploaded : ArtifactUploaded) (sent : bool).

Inductive Point :=
| AtStart
| AtEvent (event : JobEvent) (sent : bool) (next : Next)
| AtPermit
| AtInputs
| AtPrompt
| AtWait (prompt_id : string) (watch : StatusWatch)
| AtOutputDir (prompt_id : string) (outputs : list OutputRef)
| AtOutput (prompt_id : string) (index : nat) (outputs : list OutputRef) (upload : UploadPoint).

(** [tk_record] is the function's copy of the journal record. *)
Record Task := mkTask {
  tk_record : JobRecord;
  tk_sequence : Z;
  tk_slot : SlotPhase;
  tk_permit : bool;
  tk_point : Point;
}.

Definition tk_job (t : Task) : string := dj_job_id (jr_dispatch (tk_record t)).

Definition at_point (t : Task) (p : Point) : Task :=
  mkTask (tk_record t) (tk_sequence t) (tk_slot t) (tk_permit t) p.
Definition in_state (t : Task) (s : JobState) : Task :=
  mkTask (with_state s (tk_record t)) (tk_sequence t) (tk_slot t) (tk_permit t) (tk_point t).
Definition with_sequence (t : Task) (n : Z) : Task :=
  mkTask (tk_record t) n (tk_slot t) (tk_permit t) (tk_point t).
Definition with_permit (t : Task) (slot : SlotPhase) (permit : bool) : Task :=
  mkTask (tk_record t) (tk_sequence t) slot permit (tk_point t).

(** What the worker's tasks share. *)
Record World (J : Type) := mkWorld {
  wd_runtime : WorkerRuntime;
  wd_journal : J;
  wd_permits : Z;
}.
Arguments mkWorld {J}.
Arguments wd_runtime {J}.
Arguments wd_journal {J}.
Arguments wd_permits {J}.

(** What a step does outside the worker. *)
Inductive RunnerEffect :=
| CancelPrompt (prompt_id : string)
| SubmitPrompt (workflow : Json)
| CleanupJobDir (job_id : string).

(** What a task is waiting for. *)
Inductive Stimulus :=
| Poll
| TimerFired
| CancelSeen
| InputsPrepared (env : InputEnv)
| PromptAnswered (answer : Res string string)
| StatusSeen (status : ComfyPromptStatus)
| WaitEnded (result : Res string (list OutputRef))
| DirCreated (result : Res string unit)
| OutputStreamed (request_id : string) (response : Res string Response)
| PutEnded (file_size : Res RuntimeError Z) (response : Res ReqwestError Z) (cancelled : bool).

(** After a step the task waits again, has returned, or has panicked. *)
Inductive Outcome :=
| Waiting (t : Task)
| Returned
| TaskPanicked.

Section runner.
Context {J : Type} `{!JournalOps J, !JsonPointer}.
Context (sha256_hex : string → string) (catalog : WorkflowCatalog) (max_output_bytes : Z).
(** [Display] of the errors of other components. *)
Context (journal_text : JournalError → string) (workflow_text : WorkflowError → string).

Definition out : Type := World J * Outcome * list RunnerEffect.

Definition on_runtime (w : World J) (f : WorkerRuntime → WorkerRuntime) : World J :=
  mkWorld (f (wd_runtime w)) (wd_journal w) (wd_permits w).
Definition on_journal (w : World J) (j : J) : World J := mkWorld (wd_runtime w) j (wd_permits w).

Definition release_permit (w : World J) (t : Task) : World J * Task :=
  if tk_permit t
  then (mkWorld (wd_runtime w) (wd_journal w) (wd_permits w + 1)%Z, with_permit t (tk_slot t) false)
  else (w, t).

(** The end of [execute]: the job leaves the registry, and the slot is dropped. *)
Definition finish (w : World J) (t : Task) : out :=
  let '(w, t) := release_permit w t in
  (on_runtime w (λ rt, slot_drop (finish_job rt (tk_job t)) (tk_slot t)), Returned, []).

(** A panic unwinds the task: permit and slot are dropped, the registry keeps
    the job. *)
Definition panic (w : World J) (t : Task) : out :=
  let '(w, t) := release_permit w t in
  (on_runtime w (λ rt, slot_drop rt (tk_slot t)), TaskPanicked, []).

Definition cancelled (w : World J) (t : Task) : bool := is_cancelled (wd_runtime w) (tk_job t).

Definition event_key (event : JobEvent) : string * Z := (je_job_id event, je_sequence event).
Definition cancellable (event : JobEvent) : bool := negb (bool_decide (je_kind event = EvCancelled)).

(** The head of [send_job_event]'s loop; [on_error] is what the caller does
    with an error. *)
Definition event_loop (on_error : World J → Task → RuntimeError → out)
    (w : World J) (t : Task) (event : JobEvent) (next : Next) : out :=
  if cancellable event && is_cancelled (wd_runtime w) (je_job_id event) then on_error w t RtCancelled
  else (on_runtime w (λ rt, await_event rt (event_key event)), Waiting (at_point t (AtEvent event false next)), []).

(** [send_job_event] up to its first wait. *)
Definition send_job_event (on_error : World J → Task → RuntimeError → out)
    (w : World J) (t : Task) (now : Z) (event : JobEvent) (state : option JobState) (next : Next) : out :=
  let '(reply, j) := j_execute (SetPendingEvent event state) now (wd_journal w) in
  let w := on_journal w j in
  match reply with
  | Err error => on_error w t (RtJournal (journal_text error))
  | Ok _ => event_loop on_error w t event next
  end.

Definition emit (on_error : World J → Task → RuntimeError → out)
    (w : World J) (t : Task) (now : Z) (update : EventUpdate) (next : Next) : out :=
  let sequence := Z.min u64_max (tk_sequence t + 1) in
  send_job_event on_error w (with_sequence t sequence) now
    (mkJobEvent (tk_job t) (dj_attempt (jr_dispatch (tk_record t))) sequence (up_kind update)
       (up_progress update) (up_prompt_id update) (up_message update) now)
    (Some (up_state update)) next.

(** The error path of [execute]; an error of its own event is ignored. *)
Definition ignore_error (w : World J) (t : Task) (_ : RuntimeError) : out := finish w t.

Definition terminal_update (w : World J) (t : Task) (error : RuntimeError) : EventUpdate :=
  let prompt_id := jr_prompt_id (tk_record t) in
  if cancelled w t && negb (bool_decide (jr_state (tk_record t) = Uploading))
  then mkEventUpdate EvCancelled None prompt_id "job cancelled" Cancelled
  else mkEventUpdate EvFailed None prompt_id (truncate (runtime_error_text error) 1000) Failed.

Definition fail (now : Z) (w : World J) (t : Task) (error : RuntimeError) : out :=
  let '(w, t) := release_permit w t in
  emit ignore_error w t now (terminal_update w t error) AfterTerminal.

Definition after_replay (w : World J) (t : Task) (now : Z) : out :=
  if bool_decide (jr_state (tk_record t) = Received)
  then emit (fail now) w t now (mkEventUpdate EvAccepted None None "" Accepted) AfterAccepted
  else (w, Waiting (at_point t AtPermit), []).

(** A task that has been spawned and not run yet. *)
Definition spawned (record : JobRecord) (slot : SlotPhase) : Task :=
  mkTask record (jr_event_sequence record) slot false AtStart.

(** [execute] from its start. *)
Definition execute (w : World J) (t : Task) (now : Z) : out :=
  if is_terminal (jr_state (tk_record t)) then finish w t
  else
    match jr_pending_event (tk_record t) with
    | Some pending => send_job_event (fail now) w t now pending None AfterReplay
    | None => after_replay w t now
    end.

Definition wait_start (w : World J) (t : Task) (now : Z) (prompt_id : string) : out :=
  if cancelled w t then
    let '(w, o, effects) := fail now w t RtCancelled in (w, o, CancelPrompt prompt_id :: effects)
  else (w, Waiting (at_point t (AtWait prompt_id (mkStatusWatch StatusUnknown now None))), []).

Definition after_prompt (w : World J) (t : Task) (now : Z) (prompt_id : string) : out :=
  if bool_decide (jr_state (tk_record t) = Running) || bool_decide (jr_state (tk_record t) = Uploading)
  then wait_start w t now prompt_id
  else emit (fail now) w t now (mkEventUpdate EvRunning None (Some prompt_id) "" Running) (AfterRunning prompt_id).

Definition acquired (w : World J) (t : Task) (now : Z) : out :=
  let '(slot, rt) := slot_activate (wd_runtime w) (tk_slot t) in
  let w := mkWorld rt (wd_journal w) (wd_permits w - 1)%Z in
  let t := with_permit t slot true in
  if cancelled w t then fail now w t RtCancelled
  else
    match jr_prompt_id (tk_record t) with
    | Some prompt_id => after_prompt w t now prompt_id
    | None => (w, Waiting (at_point t AtInputs), [])
    end.

(** The next output, or the completion of the job. *)
Definition next_output (w : World J) (t : Task) (now : Z) (prompt_id : string) (index : nat)
    (outputs : list OutputRef) : out :=
  match outputs !! index with
  | Some _ => (w, Waiting (at_point t (AtOutput prompt_id index outputs UploadView)), [])
  | None => emit (fail now) w t now (mkEventUpdate EvCompleted (Some f32_1) (Some prompt_id) "" Completed) AfterCompleted
  end.

(** [request_artifact] up to its wait. *)
Definition ticket_loop (w : World J) (t : Task) (now : Z) (prompt_id : string) (index : nat)
    (outputs : list OutputRef) (ready : ArtifactReady) (attempt : Z) (artifact_id : option string) : out :=
  if cancelled w t then fail now w t RtCancelled
  else (on_runtime w (λ rt, await_ticket rt (ar_request_id ready) (ar_job_id ready)),
        Waiting (at_point t (AtOutput prompt_id index outputs (UploadTicket ready attempt artifact_id false))), []).

(** [confirm_artifact] up to its wait. *)
Definition confirm_loop (w : World J) (t : Task) (prompt_id : string) (index : nat)
    (outputs : list OutputRef) (uploaded : ArtifactUploaded) : out :=
  (on_runtime w (λ rt, await_ack rt (ad_request_id uploaded) (ad_job_id uploaded)),
   Waiting (at_point t (AtOutput prompt_id index outputs (UploadConfirm uploaded false))), []).

(** An acknowledged event. *)
Definition confirmed (w : World J) (t : Task) (now : Z) (event : JobEvent) (next : Next) : out :=
  let '(reply, j) := j_execute (ClearPendingEvent (je_job_id event) (je_sequence event)) now (wd_journal w) in
  let w := on_journal w j in
  match reply, next with
  | Err _, AfterTerminal => finish w t
  | Err error, _ => fail now w t (RtJournal (journal_text error))
  | Ok _, AfterReplay => after_replay w t now
  | Ok _, AfterAccepted => (w, Waiting (at_point (in_state t Accepted) AtPermit), [])
  | Ok _, AfterRunning prompt_id => wait_start w (in_state t Running) now prompt_id
  | Ok _, AfterStatus prompt_id watch =>
      (w, Waiting (at_point t (AtWait prompt_id
            (mkStatusWatch (sw_last_status watch) (sw_status_since watch) (Some now)))), [])
  | Ok _, AfterUploading prompt_id outputs =>
      (w, Waiting (at_point (in_state t Uploading) (AtOutputDir prompt_id outputs)), [])
  | Ok _, AfterCompleted => let '(w', o, _) := finish w t in (w', o, [CleanupJobDir (tk_job t)])
  | Ok _, AfterTerminal => finish w t
  end.

(** The error handler of an event. *)
Definition on_error_of (now : Z) (next : Next) : World J → Task → RuntimeError → out :=
  match next with AfterTerminal => ignore_error | _ => fail now end.

Definition status_step (w : World J) (t : Task) (now : Z) (prompt_id : string) (watch : StatusWatch)
    (status : ComfyPromptStatus) : out :=
  if bool_decide (status = StatusUnknown) then (w, Waiting t, [])
  else
    let changed := negb (bool_decide (status = sw_last_status watch)) in
    let since := if changed then now else sw_status_since watch in
    let last := if changed then status else sw_last_status watch in
    let due := match sw_last_status_event watch with
               | None => true
               | Some at_ => (COMFY_STATUS_HEARTBEAT_INTERVAL_MS <=? now - at_)%Z
               end in
    let watch' := mkStatusWatch last since (sw_last_status_event watch) in
    if changed || due
    then emit (fail now) w t now
           (mkEventUpdate EvProgress None (Some prompt_id) (comfy_status_message status (now - since)) Running)
           (AfterStatus prompt_id watch')
    else (w, Waiting (at_point t (AtWait prompt_id watch')), []).

(** One output, once its bytes are in a file. *)
Definition ready_of (t : Task) (request_id : string) (output : OutputRef) (size_bytes : Z) (sha256 : string)
    : ArtifactReady :=
  mkArtifactReady request_id (tk_job t) (dj_attempt (jr_dispatch (tk_record t)))
    (safe_filename (or_filename output)) (or_content_type output) size_bytes sha256.

Definition upload_step (w : World J) (t : Task) (now : Z) (prompt_id : string) (index : nat)
    (outputs : list OutputRef) (u : UploadPoint) (s : Stimulus) : option out :=
  let stay u w := (w, Waiting (at_point t (AtOutput prompt_id index outputs u)), []) in
  match u, s with
  | UploadView, OutputStreamed request_id answer =>
      output ← outputs !! index;
      Some match answer with
           | Err error => fail now w t (RtComfy error)
           | Ok response =>
               match stream_response_to_file sha256_hex response max_output_bytes "comfy_output_body" with
               | Err error => fail now w t error
               | Ok (size_bytes, sha256, _) =>
                   ticket_loop w t now prompt_id index outputs (ready_of t request_id output size_bytes sha256) 1 None
               end
           end
  | UploadTicket ready attempt artifact_id false, Poll =>
      rt ← send (wd_runtime w) (WArtifactReady ready);
      Some (stay (UploadTicket ready attempt artifact_id true) (on_runtime w (λ _, rt)))
  | UploadTicket ready attempt artifact_id true, Poll =>
      match poll_ticket (wd_runtime w) (ar_request_id ready) with
      | NotYet => None
      | Value ticket =>
          let w := on_runtime w (λ rt, forget_ticket rt (ar_request_id ready)) in
          Some match check_ticket ready artifact_id ticket with
               | Err error => fail now w t error
               | Ok id => stay (UploadPut ready attempt id ticket) w
               end
      | SenderDropped =>
          Some (ticket_loop (on_runtime w (λ rt, forget_ticket rt (ar_request_id ready))) t now prompt_id index
                  outputs ready attempt artifact_id)
      end
  | UploadTicket ready attempt artifact_id true, TimerFired =>
      match poll_ticket (wd_runtime w) (ar_request_id ready) with
      | NotYet =>
          Some (ticket_loop (on_runtime w (λ rt, forget_ticket rt (ar_request_id ready))) t now prompt_id index
                  outputs ready attempt artifact_id)
      | _ => None
      end
  | (UploadTicket _ _ _ _ | UploadPause _ _ _), CancelSeen =>
      if cancelled w t then Some (fail now w t RtCancelled) else None
  | UploadPut ready attempt id ticket, PutEnded file_size response cancelled_first =>
      if cancelled_first then if cancelled w t then Some (fail now w t RtCancelled) else None
      else
        Some match upload_file_once now (au_upload ticket) file_size (ar_size_bytes ready) attempt response with
             | Ok _ => confirm_loop w t prompt_id index outputs
                         (mkArtifactUploaded (ar_request_id ready) id (tk_job t)
                            (dj_attempt (jr_dispatch (tk_record t))))
             | Err error =>
                 if retries_put attempt error then stay (UploadPause ready (attempt + 1) id) w
                 else fail now w t error
             end
  | UploadPause ready attempt id, TimerFired => Some (ticket_loop w t now prompt_id index outputs ready attempt (Some id))
  | UploadConfirm uploaded false, Poll =>
      rt ← send (wd_runtime w) (WArtifactUploaded uploaded);
      Some (stay (UploadConfirm uploaded true) (on_runtime w (λ _, rt)))
  | UploadConfirm uploaded true, Poll =>
      let forget := on_runtime w (λ rt, forget_ack rt (ad_request_id uploaded)) in
      match poll_ack (wd_runtime w) (ad_request_id uploaded) with
      | NotYet => None
      | Value _ => Some (next_output forget t now prompt_id (S index) outputs)
      | SenderDropped => Some (confirm_loop forget t prompt_id index outputs uploaded)
      end
  | UploadConfirm uploaded true, TimerFired =>
      match poll_ack (wd_runtime w) (ad_request_id uploaded) with
      | NotYet => Some (confirm_loop (on_runtime w (λ rt, forget_ack rt (ad_request_id uploaded))) t prompt_id
                          index outputs uploaded)
      | _ => None
      end
  | _, _ => None
  end.

(** From one wait to the next; [None] when the task does not wait for this. *)
Definition task_step (w : World J) (t : Task) (now : Z) (s : Stimulus) : option out :=
  match tk_point t, s with
  | AtStart, Poll => Some (execute w t now)
  | AtEvent event false next, Poll =>
      rt ← send (wd_runtime w) (WJobEvent event);
      Some (on_runtime w (λ _, rt), Waiting (at_point t (AtEvent event true next)), [])
  | AtEvent event true next, Poll =>
      match poll_event (wd_runtime w) (event_key event) with
      | NotYet => None
      | Value _ => Some (confirmed (on_runtime w (λ rt, forget_event rt (event_key event))) t now event next)
      | SenderDropped =>
          Some (event_loop (on_error_of now next) (on_runtime w (λ rt, forget_event rt (event_key event))) t event next)
      end
  | AtEvent event true next, TimerFired =>
      match poll_event (wd_runtime w) (event_key event) with
      | NotYet =>
          Some (event_loop (on_error_of now next) (on_runtime w (λ rt, forget_event rt (event_key event))) t event next)
      | _ => None
      end
  | AtPermit, Poll => if (0 <? wd_permits w)%Z then Some (acquired w t now) else None
  | AtPermit, CancelSeen => if cancelled w t then Some (fail now w t RtCancelled) else None
  | AtInputs, InputsPrepared env =>
      let dispatch := jr_dispatch (tk_record t) in
      Some match prepare_inputs sha256_hex env (tk_job t) (dj_inputs dispatch) with
           | Err error => fail now w t error
           | Ok names =>
               match WorkflowService_call catalog (mkRenderWorkflow dispatch names) with
               | Err (Catalog.Returned error) => fail now w t (RtWorkflow (workflow_text error))
               | Err Panicked => panic w t
               | Ok workflow =>
                   if cancelled w t then fail now w t RtCancelled
                   else (w, Waiting (at_point t AtPrompt), [SubmitPrompt workflow])
               end
           end
  | AtPrompt, PromptAnswered answer =>
      Some match answer with
           | Err error => fail now w t (RtComfy error)
           | Ok prompt_id =>
               let '(reply, j) := j_execute (SetPromptId (tk_job t) prompt_id) now (wd_journal w) in
               let w := on_journal w j in
               match reply with
               | Err error => fail now w t (RtJournal (journal_text error))
               | Ok _ => after_prompt w t now prompt_id
               end
           end
  | AtWait prompt_id watch, StatusSeen status => Some (status_step w t now prompt_id watch status)
  | AtWait prompt_id watch, WaitEnded result =>
      Some match result with
           | Ok outputs =>
               emit (fail now) w t now (mkEventUpdate EvUploading (Some f32_0_95) (Some prompt_id) "" Uploading)
                 (AfterUploading prompt_id outputs)
           | Err error =>
               let '(w', o, effects) := fail now w t (RtComfy error) in
               (w', o, (if cancelled w t then [CancelPrompt prompt_id] else []) ++ effects)
           end
  | AtOutputDir prompt_id outputs, DirCreated result =>
      Some match result with
           | Err error => fail now w t (RtIo error)
           | Ok _ => next_output w t now prompt_id 0 outputs
           end
  | AtOutput prompt_id index outputs u, s => upload_step w t now prompt_id index outputs u s
  | _, _ => None
  end.
End runner.

(** ** Accounting of slots and permits *)

Definition active_share (t : Task) : Z := match tk_slot t with SlotActive => 1 | SlotQueued => 0 end.
Definition queued_share (t : Task) : Z := match tk_slot t with SlotQueued => 1 | SlotActive => 0 end.
Definition permit_share (t : Task) : Z := if tk_permit t then 1 else 0.

(** The counters without a task's share, the registry and the job. *)
Record Account := mkAccount {
  ac_active : Z;
  ac_queued : Z;
  ac_permits : Z;
  ac_jobs : gmap string bool;
  ac_max : Z;
  ac_job : string;
}.

Section accounting.
Context {J : Type} `{!JournalOps J, !JsonPointer}.
Context (sha256_hex : string → string) (catalog : WorkflowCatalog) (max_output_bytes : Z).
Context (journal_text : JournalError → string) (workflow_text : WorkflowError → string).
#[local] Abbreviation fail := (fail journal_text).
#[local] Abbreviation emit := (emit journal_text).
#[local] Abbreviation out := (@out J).

Definition account (w : World J) (t : Task) : Account :=
  let rt := wd_runtime w in
  mkAccount (rt_active_jobs rt - active_share t) (rt_queued_jobs rt - queued_share t)
    (wd_permits w + permit_share t) (rt_cancellations rt) (rt_max_jobs rt) (tk_job t).

(** The points at which the parallelism permit is held. *)
Definition next_holds (next : Next) : bool :=
  match next with AfterReplay | AfterAccepted | AfterTerminal => false | _ => true end.
Definition point_holds (p : Point) : bool :=
  match p with AtStart | AtPermit => false | AtEvent _ _ next => next_holds next | _ => true end.

Definition solvent (a : Account) : Prop := (0 ≤ ac_active a)%Z ∧ (0 ≤ ac_queued a)%Z.

Lemma account_release w t : account (release_permit w t).1 (release_permit w t).2 = account w t.
Proof.
  unfold release_permit. destruct (tk_permit t) eqn:Hp; [|done]. unfold account, permit_share; simpl.
  rewrite Hp. f_equal. lia.
Qed.

Context (a : Account) (Hsolvent : solvent a).
Implicit Types (w : World J) (t : Task).

Definition books (w : World J) (t : Task) : Prop := account w t = a ∧ (0 ≤ wd_permits w)%Z.

(** What is left when the task has gone. *)
Definition settled (w : World J) (jobs : gmap string bool) : Prop :=
  rt_active_jobs (wd_runtime w) = ac_active a ∧ rt_queued_jobs (wd_runtime w) = ac_queued a
  ∧ wd_permits w = ac_permits a ∧ rt_cancellations (wd_runtime w) = jobs
  ∧ rt_max_jobs (wd_runtime w) = ac_max a ∧ (0 ≤ wd_permits w)%Z.

(** A step gives back exactly what the task held, holds the permit where it
    should, and the registry loses the job exactly when the task returns. *)
Definition balanced (x : out) : Prop :=
  match x with
  | (w, Waiting t, _) => books w t ∧ tk_permit t = point_holds (tk_point t)
  | (w, Returned, _) => settled w (delete (ac_job a) (ac_jobs a))
  | (w, TaskPanicked, _) => settled w (ac_jobs a)
  end.

Lemma balanced_finish w t : books w t → balanced (finish w t).
Proof.
  intros [Heq Hn]. unfold balanced, settled. rewrite <- Heq. destruct Hsolvent as [Ha Hq]. rewrite <- Heq in Ha, Hq.
  unfold finish, release_permit, account, active_share, queued_share, permit_share in *.
  destruct t as [r n slot permit p]. simpl in *.
  destruct permit, slot; simpl in *; unfold usize_saturating_dec; split_and!; try done; lia.
Qed.

Lemma balanced_panic w t : books w t → balanced (panic w t).
Proof.
  intros [Heq Hn]. unfold balanced, settled. rewrite <- Heq. destruct Hsolvent as [Ha Hq]. rewrite <- Heq in Ha, Hq.
  unfold panic, release_permit, account, active_share, queued_share, permit_share in *.
  destruct t as [r n slot permit p]. simpl in *.
  destruct permit, slot; simpl in *; unfold usize_saturating_dec; split_and!; try done; lia.
Qed.

(** A handler that balances the account. *)
Definition balances (on_error : World J → Task → RuntimeError → out) : Prop :=
  ∀ w t e, books w t → balanced (on_error w t e).

Lemma balanced_event_loop on_error w t event next :
  balances on_error → books w t → tk_permit t = next_holds next →
  balanced (event_loop on_error w t event next).
Proof. intros He Hs Hp. unfold event_loop. destruct (_ && _); [by apply He|exact (conj Hs Hp)]. Qed.

Lemma balanced_send on_error w t now event state next :
  balances on_error → books w t → tk_permit t = next_holds next →
  balanced (send_job_event journal_text on_error w t now event state next).
Proof.
  intros He Hs Hp. unfold send_job_event. destruct (j_execute _ _ _) as [[reply|e] j].
  - by apply balanced_event_loop.
  - by apply He.
Qed.

Lemma balanced_emit on_error w t now update next :
  balances on_error → books w t → tk_permit t = next_holds next → balanced (emit on_error w t now update next).
Proof. intros He Hs Hp. by apply balanced_send. Qed.

Lemma balances_ignore : balances ignore_error.
Proof. intros w t e. apply balanced_finish. Qed.

Lemma balances_fail now : balances (fail now).
Proof.
  intros w t e [Hs Hn]. unfold Runner.fail. pose proof (account_release w t) as Ha.
  assert (Hr : (0 ≤ wd_permits (release_permit w t).1)%Z ∧ tk_permit (release_permit w t).2 = false).
  { unfold release_permit. destruct (tk_permit t) eqn:Hp; simpl; [split; [lia|done]|by rewrite Hp]. }
  destruct (release_permit w t) as [w' t']. simpl in Ha, Hr. destruct Hr as [Hn' Hp'].
  apply balanced_emit; [apply balances_ignore| |done]. split; [by etrans|done].
Qed.

Lemma balanced_fail now w t e : books w t → balanced (fail now w t e).
Proof. apply balances_fail. Qed.

Lemma balances_on_error now next : balances (on_error_of journal_text now next).
Proof. destruct next; (apply balances_fail || apply balances_ignore). Qed.

Hint Resolve balanced_finish balanced_panic balanced_event_loop balanced_send balanced_emit balanced_fail
  balances_fail balances_on_error : core.

Lemma balanced_after_replay w t now :
  books w t → tk_permit t = false → balanced (after_replay journal_text w t now).
Proof. intros Hs Hp. unfold after_replay. case_bool_decide; [auto|exact (conj Hs Hp)]. Qed.

Lemma balanced_execute w t now :
  books w t → tk_permit t = false → balanced (execute journal_text w t now).
Proof.
  intros Hs Hp. unfold execute. destruct (is_terminal _); [auto|].
  destruct (jr_pending_event _); [auto|by apply balanced_after_replay].
Qed.

Lemma balanced_wait_start w t now p :
  books w t → tk_permit t = true → balanced (wait_start journal_text w t now p).
Proof.
  intros Hs Hp. unfold wait_start. destruct (cancelled w t); [|exact (conj Hs Hp)].
  pose proof (balanced_fail now w t RtCancelled Hs) as Hb. by destruct (fail now w t RtCancelled) as [[??]?].
Qed.

Lemma balanced_after_prompt w t now p :
  books w t → tk_permit t = true → balanced (after_prompt journal_text w t now p).
Proof. intros Hs Hp. unfold after_prompt. destruct (_ || _); [by apply balanced_wait_start|auto]. Qed.

Lemma balanced_acquired w t now :
  books w t → tk_permit t = false → (0 < wd_permits w)%Z → balanced (acquired journal_text w t now).
Proof.
  intros [Hs Hn] Hp Hpos. unfold acquired.
  assert (Hact : ∀ slot rt, slot_activate (wd_runtime w) (tk_slot t) = (slot, rt) →
    account (mkWorld rt (wd_journal w) (wd_permits w - 1)%Z) (with_permit t slot true) = a).
  { intros slot rt. rewrite <- Hs. destruct Hsolvent as [_ Hq]. rewrite <- Hs in Hq. revert Hq.
    unfold account, active_share, queued_share, permit_share, slot_activate. rewrite Hp. simpl.
    destruct (tk_slot t); intros Hq [= <- <-]; simpl; [|f_equal; lia].
    unfold usize_fetch_sub. destruct (Z.eqb_spec (rt_queued_jobs (wd_runtime w)) 0); f_equal; lia. }
  destruct (slot_activate _ _) as [slot rt]. specialize (Hact _ _ eq_refl).
  assert (Hb : books (mkWorld rt (wd_journal w) (wd_permits w - 1)%Z) (with_permit t slot true))
    by (split; [done|simpl; lia]).
  destruct (cancelled _ _); [auto|]. destruct (jr_prompt_id _); [by apply balanced_after_prompt|exact (conj Hb eq_refl)].
Qed.

Lemma balanced_next_output w t now p i outputs :
  books w t → tk_permit t = true → balanced (next_output journal_text w t now p i outputs).
Proof. intros Hs Hp. unfold next_output. destruct (outputs !! i); [exact (conj Hs Hp)|auto]. Qed.

Lemma balanced_ticket_loop w t now p i outputs ready n id :
  books w t → tk_permit t = true → balanced (ticket_loop journal_text w t now p i outputs ready n id).
Proof. intros Hs Hp. unfold ticket_loop. destruct (cancelled w t); [auto|exact (conj Hs Hp)]. Qed.

Lemma balanced_confirmed w t now event next :
  books w t → tk_permit t = next_holds next → balanced (confirmed journal_text w t now event next).
Proof.
  intros Hs Hp. unfold confirmed. destruct (j_execute _ _ _) as [[reply|e] j].
  2: destruct next; auto.
  destruct next; try exact (conj Hs Hp); auto using balanced_after_replay.
  - by apply balanced_wait_start.
  - assert (Hb : balanced (finish (on_journal w j) t)) by auto. by destruct (finish _ _) as [[??]?].
Qed.

Lemma balanced_status w t now p watch status :
  books w t → tk_point t = AtWait p watch → tk_permit t = true →
  balanced (status_step journal_text w t now p watch status).
Proof.
  intros Hs Hpt Hp. unfold status_step. case_bool_decide; [simpl; by rewrite Hpt|].
  destruct (_ || _); [auto|exact (conj Hs Hp)].
Qed.

Lemma balanced_upload w t now p i outputs u s x :
  books w t → tk_permit t = true →
  upload_step sha256_hex max_output_bytes journal_text w t now p i outputs u s = Some x → balanced x.
Proof.
  intros Hs Hp.
  assert (Hsend : ∀ m rt, send (wd_runtime w) m = Some rt → books (on_runtime w (λ _, rt)) t).
  { intros m rt. unfold send. destruct (rt_connection _); simpl; [|done]. destruct (_ <? _); [|done].
    intros [= <-]. exact Hs. }
  unfold upload_step. destruct u as [|ready n id []|ready n id ticket|ready n id|uploaded []], s; try done; intros Hx.
  - destruct (outputs !! i); [|done]. injection Hx as <-. destruct response as [r|]; [|auto].
    destruct (stream_response_to_file _ _ _ _) as [[[??]?]|]; [by apply balanced_ticket_loop|auto].
  - destruct (poll_ticket _ _); [done| |]; injection Hx as <-.
    + destruct (check_ticket _ _ _); [exact (conj Hs Hp)|auto].
    + by apply balanced_ticket_loop.
  - destruct (poll_ticket _ _); [|done..]. injection Hx as <-. by apply balanced_ticket_loop.
  - destruct (cancelled w t); [|done]. injection Hx as <-. auto.
  - destruct (send _ _) eqn:Hr; [|done]. injection Hx as <-. split; [by eapply Hsend|done].
  - destruct (cancelled w t); [|done]. injection Hx as <-. auto.
  - destruct cancelled0; [destruct (cancelled w t); [|done]; injection Hx as <-; auto|].
    injection Hx as <-. destruct (upload_file_once _ _ _ _ _ _); [exact (conj Hs Hp)|].
    destruct (retries_put _ _); [exact (conj Hs Hp)|auto].
  - injection Hx as <-. by apply balanced_ticket_loop.
  - destruct (cancelled w t); [|done]. injection Hx as <-. auto.
  - destruct (poll_ack _ _); [done| |]; injection Hx as <-; [by apply balanced_next_output|exact (conj Hs Hp)].
  - destruct (poll_ack _ _); [|done..]. injection Hx as <-. exact (conj Hs Hp).
  - destruct (send _ _) eqn:Hr; [|done]. injection Hx as <-. split; [by eapply Hsend|done].
Qed.

(** Every step balances the books of its task. *)
Lemma task_step_balanced w t now s x :
  books w t → tk_permit t = point_holds (tk_point t) →
  task_step sha256_hex catalog max_output_bytes journal_text workflow_text w t now s = Some x → balanced x.
Proof.
  intros Hs Hp. unfold task_step.
  destruct (tk_point t) as [|event [] next| | | |p watch|p outputs|p i outputs u] eqn:Hpt; intros Hx; simpl in Hp.
  9: destruct s; by eapply balanced_upload.
  all: destruct s; try done.
  - injection Hx as <-. by apply balanced_execute.
  - destruct (poll_event _ _); [done| |]; injection Hx as <-; [by apply balanced_confirmed|auto].
  - destruct (poll_event _ _); [|done..]. injection Hx as <-. auto.
  - destruct (send _ _) eqn:Hr; [|done]. injection Hx as <-. unfold send in Hr.
    destruct (rt_connection _); simpl in Hr; [|done]. destruct (_ <? _); [|done]. injection Hr as <-. exact (conj Hs Hp).
  - destruct (0 <? _)%Z eqn:Hpos; [|done]. injection Hx as <-. apply balanced_acquired; [done..|]. by apply Z.ltb_lt.
  - destruct (cancelled w t); [|done]. injection Hx as <-. auto.
  - injection Hx as <-. destruct (prepare_inputs _ _ _ _); [|auto].
    destruct (WorkflowService_call _ _) as [|[]]; auto. destruct (cancelled w t); [auto|exact (conj Hs Hp)].
  - injection Hx as <-. destruct answer; [|auto].
    destruct (j_execute _ _ _) as [[reply|e] j]; [by apply balanced_after_prompt|auto].
  - injection Hx as <-. by apply balanced_status.
  - injection Hx as <-. destruct result as [|e]; [auto|].
    pose proof (balanced_fail now w t (RtComfy e) Hs) as Hb. by destruct (fail now w t _) as [[??]?].
  - injection Hx as <-. destruct result; [by apply balanced_next_output|auto].
Qed.
End accounting.

(** ** What a task writes *)

(** An event the Hub will accept as a frame. *)
Definition event_wf (job : string) (e : JobEvent) : Prop :=
  je_job_id e = job ∧ (1 ≤ je_sequence e)%Z ∧ ∀ p, je_progress e = Some p → progress_ok p = true.

(** The commands a task of the job gives the journal. *)
Definition command_ok (job : string) (c : JournalCommand) : Prop :=
  match c with
  | SetPromptId j _ | ClearPendingEvent j _ => j = job
  | SetPendingEvent e _ => event_wf job e
  | UpsertDispatch _ | SetJobState _ _ => False
  end.

Definition task_wf (job : string) (t : Task) : Prop :=
  tk_job t = job ∧ (0 ≤ tk_sequence t)%Z
  ∧ match tk_point t with
    | AtStart => ∀ e, jr_pending_event (tk_record t) = Some e → event_wf job e
    | AtEvent e _ _ => event_wf job e
    | _ => True
    end.

Section writes.
Context {J : Type} `{!JournalOps J, !JsonPointer}.
Context (sha256_hex : string → string) (catalog : WorkflowCatalog) (max_output_bytes : Z).
Context (journal_text : JournalError → string) (workflow_text : WorkflowError → string).
#[local] Abbreviation fail := (fail journal_text).
#[local] Abbreviation emit := (emit journal_text).
#[local] Abbreviation out := (@out J).
Context (job : string) (w0 : World J).
Implicit Types (w : World J) (t : Task).

(** The journal has moved by commands about the job, new events in the
    connection's queue are the job's, no answer was added, and other jobs are
    registered as before. *)
Definition grown w : Prop :=
  (∃ cmds, Forall (λ cn, command_ok job cn.1) cmds ∧ wd_journal w = (j_run cmds (wd_journal w0)).2)
  ∧ (∀ q e, rt_connection (wd_runtime w) = Some q → WJobEvent e ∈ q →
      event_wf job e ∨ ∃ q0, rt_connection (wd_runtime w0) = Some q0 ∧ WJobEvent e ∈ q0)
  ∧ sg_events (rt_signals (wd_runtime w)) ⊆ sg_events (rt_signals (wd_runtime w0))
  ∧ (∀ k, k ≠ job → rt_cancellations (wd_runtime w) !! k = rt_cancellations (wd_runtime w0) !! k).

Definition faithful (x : out) : Prop :=
  grown x.1.1 ∧ match x.1.2 with Waiting t => task_wf job t | _ => True end.

Lemma j_run_snoc cmds (j : J) c now :
  (j_run (cmds ++ [(c, now)]) j).2 = (j_execute c now (j_run cmds j).2).2.
Proof.
  revert j. induction cmds as [|[c' n'] cmds IH]; intros j; simpl.
  - by destruct (j_execute c now j).
  - destruct (j_execute c' n' j) as [reply j']. specialize (IH j').
    destruct (j_run (cmds ++ _) j'), (j_run cmds j'). exact IH.
Qed.

Lemma grown_execute w c now j reply :
  grown w → command_ok job c → j_execute c now (wd_journal w) = (reply, j) → grown (on_journal w j).
Proof.
  intros [(cmds & Hall & Hj) Hq] Hc He. split; [|exact Hq]. exists (cmds ++ [(c, now)]). split.
  - apply Forall_app. split; [done|]. by constructor.
  - rewrite j_run_snoc, <- Hj, He. done.
Qed.

Lemma grown_send w m rt :
  grown w → send (wd_runtime w) m = Some rt →
  match m with WJobEvent e => event_wf job e | _ => True end → grown (on_runtime w (λ _, rt)).
Proof.
  intros (Hj & Hq & Hrest) Hs Hm. unfold send in Hs.
  destruct (rt_connection (wd_runtime w)) as [q0|] eqn:Hc; simpl in Hs; [|done].
  destruct (_ <? _); [|done]. injection Hs as <-. split; [done|]. split; [|exact Hrest].
  intros q e. simpl. intros [= <-]. intros [Hin|Hin]%elem_of_app; [by eapply Hq|]. left. apply list_elem_of_singleton in Hin. by subst m.
Qed.

Lemma grown_await w key : grown w → grown (on_runtime w (λ rt, await_event rt key)).
Proof. intros (Hj & Hq & Hs & Hc). split_and!; [exact Hj|exact Hq| |exact Hc]. simpl. set_solver. Qed.

Lemma grown_forget w key : grown w → grown (on_runtime w (λ rt, forget_event rt key)).
Proof. intros (Hj & Hq & Hs & Hc). split_and!; [exact Hj|exact Hq| |exact Hc]. simpl. set_solver. Qed.

Lemma grown_finish w slot permits :
  grown w → grown (mkWorld (slot_drop (finish_job (wd_runtime w) job) slot) (wd_journal w) permits).
Proof.
  intros (Hj & Hq & Hs & Hc). split_and!; [exact Hj| |by destruct slot|]; destruct slot; try done; simpl;
    intros k Hk; rewrite lookup_delete_ne by done; by apply Hc.
Qed.

Definition faithfully (on_error : World J → Task → RuntimeError → out) : Prop :=
  ∀ w t e, grown w → tk_job t = job → (0 ≤ tk_sequence t)%Z → faithful (on_error w t e).

Section cases.
Context (w : World J) (t : Task) (now : Z) (Hw : grown w) (Hj : tk_job t = job) (Hseq : (0 ≤ tk_sequence t)%Z).

Lemma faithful_finish : faithful (finish w t).
Proof.
  clear Hseq. unfold finish, release_permit.
  destruct (tk_permit t); (split; [|exact I]); unfold tk_job in *; simpl; rewrite Hj; by apply grown_finish.
Qed.

Lemma faithful_panic : faithful (panic w t).
Proof. clear Hj Hseq. unfold panic, release_permit. destruct (tk_permit t), t as [? ? [] ? ?]; exact (conj Hw I). Qed.

Lemma faithful_wait p : (∀ e s n, p ≠ AtEvent e s n) → p ≠ AtStart → faithful (w, Waiting (at_point t p), []).
Proof.
  intros He Hs. split; [exact Hw|]. split; [exact Hj|]. split; [exact Hseq|]. simpl.
  destruct p; try exact I; exfalso; [by apply Hs|by eapply He].
Qed.
End cases.

Lemma faithful_event_loop on_error w t event next :
  faithfully on_error → grown w → tk_job t = job → (0 ≤ tk_sequence t)%Z → event_wf job event →
  faithful (event_loop on_error w t event next).
Proof.
  intros He Hw Hj Hs Hev. unfold event_loop. destruct (_ && _); [by apply He|].
  split; [by apply grown_await|by split_and!].
Qed.

Lemma faithful_send on_error w t now event state next :
  faithfully on_error → grown w → tk_job t = job → (0 ≤ tk_sequence t)%Z → event_wf job event →
  faithful (send_job_event journal_text on_error w t now event state next).
Proof.
  intros He Hw Hj Hs Hev. unfold send_job_event. destruct (j_execute _ _ _) as [reply j] eqn:Hex.
  eapply grown_execute in Hex; [|done|exact Hev].
  destruct reply; [by apply faithful_event_loop|by apply He].
Qed.

Lemma faithful_emit on_error w t now update next :
  faithfully on_error → grown w → tk_job t = job → (0 ≤ tk_sequence t)%Z →
  up_progress update ∈ [None; Some f32_0_95; Some f32_1] → faithful (emit on_error w t now update next).
Proof.
  intros He Hw Hj Hs Hup. apply faithful_send; [done..| |].
  - simpl. unfold u64_max. lia.
  - split_and!; [done|simpl; unfold u64_max; lia|]. simpl. set_unfold in Hup.
    destruct Hup as [->|[->|[->|[]]]]; intros p Hp; (discriminate Hp || (injection Hp as <-; vm_compute; reflexivity)).
Qed.

Lemma faithfully_ignore : faithfully ignore_error.
Proof. intros w t e Hw Hj _. exact (faithful_finish w t Hw Hj). Qed.

Lemma faithfully_fail now : faithfully (fail now).
Proof.
  intros w t e Hw Hj Hs. unfold Runner.fail.
  assert (Hr : grown (release_permit w t).1 ∧ tk_job (release_permit w t).2 = job
    ∧ (0 ≤ tk_sequence (release_permit w t).2)%Z) by (unfold release_permit; by destruct (tk_permit t)).
  destruct (release_permit w t) as [w' t']. destruct Hr as (Hw' & Hj' & Hs').
  apply faithful_emit; [apply faithfully_ignore|done..|]. unfold terminal_update. destruct (_ && _); set_solver.
Qed.

Lemma faithful_fail now w t e : grown w → tk_job t = job → (0 ≤ tk_sequence t)%Z → faithful (fail now w t e).
Proof. apply faithfully_fail. Qed.

Lemma faithfully_on_error now next : faithfully (on_error_of journal_text now next).
Proof. destruct next; (apply faithfully_fail || apply faithfully_ignore). Qed.

(** Closes the goals of one branch. *)
Ltac faithful_cases :=
  try solve [ eapply faithful_fail; eassumption
            | eapply faithful_finish; eassumption
            | eapply faithful_panic; eassumption
            | eapply faithful_emit; [apply faithfully_fail|eassumption..|set_solver]
            | eapply faithful_event_loop; [apply faithfully_on_error|eassumption..]
            | eapply faithful_wait; [eassumption..|done|done] ].

Section composite.
Context (w : World J) (t : Task) (now : Z) (Hw : grown w) (Hj : tk_job t = job) (Hseq : (0 ≤ tk_sequence t)%Z).

Lemma faithful_after_replay : faithful (after_replay journal_text w t now).
Proof. unfold after_replay. case_bool_decide; faithful_cases. Qed.

Lemma faithful_execute :
  (∀ e, jr_pending_event (tk_record t) = Some e → event_wf job e) → faithful (execute journal_text w t now).
Proof.
  intros He. unfold execute. destruct (is_terminal _); faithful_cases.
  destruct (jr_pending_event _); [|apply faithful_after_replay].
  apply faithful_send; [apply faithfully_fail|done..|by apply He].
Qed.

Lemma faithful_wait_start p : faithful (wait_start journal_text w t now p).
Proof.
  unfold wait_start. destruct (cancelled w t); faithful_cases.
  pose proof (faithful_fail now w t RtCancelled Hw Hj Hseq) as Hf. by destruct (fail now w t _) as [[??]?].
Qed.

Lemma faithful_after_prompt p : faithful (after_prompt journal_text w t now p).
Proof. unfold after_prompt. destruct (_ || _); [apply faithful_wait_start|]; faithful_cases. Qed.

Lemma faithful_next_output p i outputs : faithful (next_output journal_text w t now p i outputs).
Proof. unfold next_output. destruct (outputs !! i); faithful_cases. Qed.

Lemma faithful_ticket_loop p i outputs ready n id :
  faithful (ticket_loop journal_text w t now p i outputs ready n id).
Proof. unfold ticket_loop. destruct (cancelled w t); faithful_cases. Qed.

Lemma faithful_confirm_loop p i outputs uploaded : faithful (confirm_loop w t p i outputs uploaded).
Proof. by split. Qed.

Lemma faithful_status p watch status :
  tk_point t = AtWait p watch → faithful (status_step journal_text w t now p watch status).
Proof.
  intros Hp. unfold status_step. case_bool_decide; [split; [exact Hw|]; split_and!; [done..|]; by rewrite Hp|].
  destruct (_ || _); faithful_cases.
Qed.
End composite.

Lemma faithful_acquired w t now :
  grown w → tk_job t = job → (0 ≤ tk_sequence t)%Z → faithful (acquired journal_text w t now).
Proof.
  intros Hw Hj Hs. unfold acquired.
  assert (Hg : ∀ slot rt, slot_activate (wd_runtime w) (tk_slot t) = (slot, rt) →
    grown (mkWorld rt (wd_journal w) (wd_permits w - 1)%Z)).
  { intros slot rt. unfold slot_activate. destruct (tk_slot t); intros [= <- <-]; exact Hw. }
  destruct (slot_activate _ _) as [slot rt]. specialize (Hg _ _ eq_refl).
  destruct (cancelled _ _); [by apply faithful_fail|].
  destruct (jr_prompt_id _); [by apply faithful_after_prompt|by apply faithful_wait].
Qed.

Lemma faithful_confirmed w t now event next :
  grown w → tk_job t = job → (0 ≤ tk_sequence t)%Z → je_job_id event = job →
  faithful (confirmed journal_text w t now event next).
Proof.
  intros Hw Hj Hs He. unfold confirmed. destruct (j_execute _ _ _) as [reply j] eqn:Hex.
  eapply grown_execute in Hex; [|done|done]. clear Hw.
  destruct reply as [reply|e]; [|destruct next; faithful_cases].
  destruct next; faithful_cases; try (apply (faithful_wait _ (in_state t _)); done).
  - by apply faithful_after_replay.
  - by apply faithful_wait_start.
  - assert (Hf : faithful (finish (on_journal w j) t)) by faithful_cases. by destruct (finish _ _) as [[??]?].
Qed.

Lemma faithful_upload w t now p i outputs u s x :
  grown w → tk_job t = job → (0 ≤ tk_sequence t)%Z →
  upload_step sha256_hex max_output_bytes journal_text w t now p i outputs u s = Some x → faithful x.
Proof.
  intros Hw Hj Hs. unfold upload_step.
  destruct u as [|ready n id []|ready n id ticket|ready n id|uploaded []], s; try done; intros Hx.
  - destruct (outputs !! i); [|done]. injection Hx as <-. destruct response as [r|]; [|faithful_cases].
    destruct (stream_response_to_file _ _ _ _) as [[[??]?]|]; [by apply faithful_ticket_loop|faithful_cases].
  - destruct (poll_ticket _ _); [done| |]; injection Hx as <-.
    + destruct (check_ticket _ _ _); [by apply (faithful_wait (on_runtime w _))|by apply (faithful_fail _ (on_runtime w _))].
    + by apply (faithful_ticket_loop (on_runtime w _)).
  - destruct (poll_ticket _ _); [|done..]. injection Hx as <-. by apply (faithful_ticket_loop (on_runtime w _)).
  - destruct (cancelled w t); [|done]. injection Hx as <-. faithful_cases.
  - destruct (send _ _) eqn:Hr; [|done]. injection Hx as <-.
    apply (faithful_wait (on_runtime w _)); [|done..]. by eapply grown_send.
  - destruct (cancelled w t); [|done]. injection Hx as <-. faithful_cases.
  - destruct cancelled0; [destruct (cancelled w t); [|done]; injection Hx as <-; faithful_cases|].
    injection Hx as <-. destruct (upload_file_once _ _ _ _ _ _); [by apply faithful_confirm_loop|].
    destruct (retries_put _ _); faithful_cases.
  - injection Hx as <-. by apply faithful_ticket_loop.
  - destruct (cancelled w t); [|done]. injection Hx as <-. faithful_cases.
  - destruct (poll_ack _ _); [done| |]; injection Hx as <-;
      [by apply (faithful_next_output (on_runtime w _))|by apply (faithful_confirm_loop (on_runtime w _))].
  - destruct (poll_ack _ _); [|done..]. injection Hx as <-. by apply (faithful_confirm_loop (on_runtime w _)).
  - destruct (send _ _) eqn:Hr; [|done]. injection Hx as <-.
    apply (faithful_wait (on_runtime w _)); [|done..]. by eapply grown_send.
Qed.

(** A step writes only about its own job. *)
Lemma task_step_faithful w t now s x :
  grown w → task_wf job t →
  task_step sha256_hex catalog max_output_bytes journal_text workflow_text w t now s = Some x → faithful x.
Proof.
  intros Hw (Hj & Hs & Hpt). unfold task_step.
  destruct (tk_point t) as [|event [] next| | | |p watch|p outputs|p i outputs u] eqn:Hp; intros Hx.
  9: destruct s; by eapply faithful_upload.
  all: destruct s; try done.
  - injection Hx as <-. by apply faithful_execute.
  - destruct (poll_event _ _); [done| |]; injection Hx as <-.
    + apply faithful_confirmed; [by apply grown_forget|done..|]. by destruct Hpt.
    + apply faithful_event_loop; [apply faithfully_on_error|by apply grown_forget|done..].
  - destruct (poll_event _ _); [|done..]. injection Hx as <-.
    apply faithful_event_loop; [apply faithfully_on_error|by apply grown_forget|done..].
  - destruct (send _ _) eqn:Hr; [|done]. injection Hx as <-. split; [by eapply grown_send|by split_and!].
  - destruct (0 <? _)%Z; [|done]. injection Hx as <-. by apply faithful_acquired.
  - destruct (cancelled w t); [|done]. injection Hx as <-. faithful_cases.
  - injection Hx as <-. destruct (prepare_inputs _ _ _ _); [|faithful_cases].
    destruct (WorkflowService_call _ _) as [|[]]; faithful_cases. destruct (cancelled w t); faithful_cases.
  - injection Hx as <-. destruct answer; [|faithful_cases].
    destruct (j_execute _ _ _) as [reply j] eqn:Hex. eapply grown_execute in Hex; [|done|done].
    destruct reply; [by apply faithful_after_prompt|by apply faithful_fail].
  - injection Hx as <-. by apply faithful_status.
  - injection Hx as <-. destruct result as [|e]; [faithful_cases|].
    pose proof (faithful_fail now w t (RtComfy e) Hw Hj Hs) as Hf. by destruct (fail now w t _) as [[??]?].
  - injection Hx as <-. destruct result; [by apply faithful_next_output|faithful_cases].
Qed.
End writes.
