(* ===== verification/Worker.v ===== *)
(** The worker ([nagisalake-worker/src/worker.rs]): admission of dispatches,
    commands and answers from the Hub, recovery at start and after a reconnect.

    A [Worker] is the world its tasks share and the tasks, by job.  A handler
    runs without interference; tasks, handlers, the connection and restarts
    interleave freely ([worker_step]).

    Main results: the capacity counters the worker reports are exact; a
    dispatch is acknowledged only once it is durable; an event stays in the
    outbox until the Hub acknowledges it; with cooperating services a job runs
    to completion; and, a defect, the last event of a finished job is not sent
    again after a restart. *)

From S2P Require Import Prelude Text Json Messages Validate Core Journal Pointer Normalize Catalog Helpers Transfer Bus Runner.
From Stdlib Require Import ZArith Lia.

(** ** Errors ([error.rs], the variants the lifecycle raises) *)
Inductive WorkerError :=
| WkWorkflow (m : string)
| WkJournal (m : string)
| WkRuntime (m : string)
| WkRegistrationFailed (m : string)
| WkUnexpectedMessage.

Definition worker_error_text (e : WorkerError) : string :=
  match e with
  | WkWorkflow m => "workflow catalog failed: " +:+ m
  | WkJournal m => "journal failed: " +:+ m
  | WkRuntime m => "runtime failed: " +:+ m
  | WkRegistrationFailed m => "Hub rejected registration: " +:+ m
  | WkUnexpectedMessage => "unexpected Hub message"
  end.

Record Worker (J : Type) := mkWorker {
  wk_world : World J;
  wk_tasks : gmap string Task;
}.
Arguments mkWorker {J}.
Arguments wk_world {J}.
Arguments wk_tasks {J}.

Section worker.
Context {J : Type} `{!JournalOps J, !JsonPointer}.
Context (sha256_hex : string → string) (catalog : WorkflowCatalog) (max_output_bytes : Z).
Context (journal_text : JournalError → string) (workflow_text : WorkflowError → string).
(** Identity and capacity of the configuration. *)
Context (namespace node_name version : string) (parallelism queue_depth : Z) (labels : gmap string string).

Definition wk_runtime (w : Worker J) : WorkerRuntime := wd_runtime (wk_world w).
Definition wk_journal (w : Worker J) : J := wd_journal (wk_world w).

Definition with_runtime (w : Worker J) (rt : WorkerRuntime) : Worker J :=
  mkWorker (mkWorld rt (wk_journal w) (wd_permits (wk_world w))) (wk_tasks w).
Definition with_journal (w : Worker J) (j : J) : Worker J :=
  mkWorker (mkWorld (wk_runtime w) j (wd_permits (wk_world w))) (wk_tasks w).

(** ** Tasks of the worker *)

Definition spawn_registered_record (w : Worker J) (record : JobRecord) (slot : SlotPhase) : Worker J :=
  mkWorker (wk_world w) (<[dj_job_id (jr_dispatch record) := spawned record slot]> (wk_tasks w)).

Definition spawn_record (w : Worker J) (record : JobRecord) : Worker J :=
  let '(slot, rt) := restore_job (wk_runtime w) (dj_job_id (jr_dispatch record)) in
  match slot with
  | Some slot => spawn_registered_record (with_runtime w rt) record slot
  | None => w
  end.

Definition resume_unfinished (w : Worker J) : Res WorkerError (Worker J) :=
  match j_list_unfinished (wk_journal w) with
  | Err error => Err (WkJournal (journal_text error))
  | Ok records => Ok (foldl spawn_record w records)
  end.

(** A worker process over the journal file. *)
Definition start (j : J) : Res WorkerError (Worker J) :=
  resume_unfinished (mkWorker (mkWorld (with_capacity (parallelism + queue_depth)) j parallelism) ∅).

Definition recovery_job_ids (w : Worker J) : Res WorkerError (list string) :=
  match j_list_unfinished (wk_journal w) with
  | Err error => Err (WkJournal (journal_text error))
  | Ok records =>
      let job_ids := (λ r, dj_job_id (jr_dispatch r)) <$> List.filter (λ r, negb (is_terminal (jr_state r))) records in
      if (MAX_RECOVERY_JOB_IDS <? length job_ids)%nat
      then Err (WkJournal ("worker journal has " +:+ pretty (length job_ids)
                 +:+ " non-terminal jobs; recovery inventory limit is " +:+ pretty MAX_RECOVERY_JOB_IDS))
      else Ok job_ids
  end.

(** ** Commands *)

Definition upsert_dispatch (w : Worker J) (now : Z) (dispatch : DispatchJob)
    : Res WorkerError JobRecord * Worker J :=
  let '(reply, j) := j_execute (UpsertDispatch dispatch) now (wk_journal w) in
  (match reply with
   | Ok (RRecord record) => Ok record
   | Ok RUnit => Err (WkJournal "")
   | Err error => Err (WkJournal (journal_text error))
   end, with_journal w j).

Definition accept_dispatch (w : Worker J) (now : Z) (dispatch : DispatchJob) : Res WorkerError unit * Worker J :=
  match validate_dispatch catalog dispatch with
  | Err error => (Err (WkWorkflow (workflow_text error)), w)
  | Ok _ =>
      let job_id := dj_job_id dispatch in
      match j_get job_id (wk_journal w) with
      | Err error => (Err (WkJournal (journal_text error)), w)
      | Ok (Some _) =>
          match upsert_dispatch w now dispatch with
          | (Err error, w1) => (Err error, w1)
          | (Ok record, w1) => (Ok tt, if is_terminal (jr_state record) then w1 else spawn_record w1 record)
          end
      | Ok None =>
          let '(registration, rt) := register_job (wk_runtime w) job_id in
          let w1 := with_runtime w rt in
          match registration with
          | Err error => (Err (WkRuntime (runtime_error_text error)), w1)
          | Ok None => let '(reply, w2) := upsert_dispatch w1 now dispatch in (reply ;; Ok tt, w2)
          | Ok (Some slot) =>
              let release w := with_runtime w (slot_drop (finish_job (wk_runtime w) job_id) slot) in
              match upsert_dispatch w1 now dispatch with
              | (Err error, w2) => (Err error, release w2)
              | (Ok record, w2) =>
                  (Ok tt, if is_terminal (jr_state record) then release w2
                          else spawn_registered_record w2 record slot)
              end
          end
      end
  end.

(** The ACK of a dispatch. *)
Definition dispatch_ack (command_id : string) (result : Res WorkerError unit) : WorkerMessage :=
  WCommandAck (mkCommandAck command_id (is_ok result)
    match result with Ok _ => "" | Err error => truncate (worker_error_text error) 512 end).

(** The frame written back, if any. *)
Definition handle_hub_message (w : Worker J) (now : Z) (message : HubMessage)
    : Res WorkerError (option WorkerMessage) * Worker J :=
  match message with
  | HDispatchJob dispatch =>
      let '(result, w') := accept_dispatch w now dispatch in
      (Ok (Some (dispatch_ack (dj_command_id dispatch) result)), w')
  | HCancelJob cancel =>
      let '(running, rt) := cancel_job (wk_runtime w) (cj_job_id cancel) in
      let w' := with_runtime w rt in
      match (if running then Ok true
             else match j_get (cj_job_id cancel) (wk_journal w) with
                  | Err error => Err (WkJournal (journal_text error))
                  | Ok record => Ok (is_some_and (λ r, negb (is_terminal (jr_state r))) record)
                  end) with
      | Err error => (Err error, w')
      | Ok known =>
          (Ok (Some (WCommandAck (mkCommandAck (cj_command_id cancel) known
                       (if known then "" else "job is unknown")))), w')
      end
  | HArtifactUpload upload => (Ok None, with_runtime w (resolve_artifact_ticket (wk_runtime w) upload))
  | HJobEventAck ack => (Ok None, with_runtime w (resolve_job_event (wk_runtime w) ack))
  | HArtifactUploadedAck ack => (Ok None, with_runtime w (resolve_artifact_ack (wk_runtime w) ack))
  | HPing ping => (Ok (Some (WPong (mkPong (ping_nonce ping)))), w)
  | HError error =>
      (if String.eqb (pe_code error) "session_replaced" then Err (WkRegistrationFailed (pe_message error)) else Ok None, w)
  | HRegistered _ => (Ok None, w)
  end.

(** ** The connection *)

Definition register_message (recovery : list string) : WorkerMessage :=
  WRegister (mkRegister PROTOCOL_VERSION namespace node_name version
    (mkWorkerCapabilities (capabilities catalog) parallelism queue_depth true labels) recovery).

(** A new connection: its queue is published and [Register] is sent first. *)
Definition connect (w : Worker J) : Res WorkerError (WorkerMessage * Worker J) :=
  recovery ← recovery_job_ids w;
  Ok (register_message recovery, with_runtime w (set_connection (wk_runtime w))).

(** The Hub's answer: worker id, session id and heartbeat interval. *)
Definition registered (answer : HubMessage) : Res WorkerError (string * string * Z) :=
  match answer with
  | HRegistered r => Ok (rd_worker_id r, rd_session_id r, Z.max (rd_heartbeat_interval_seconds r) 1)
  | HError error => Err (WkRegistrationFailed (pe_message error))
  | _ => Err WkUnexpectedMessage
  end.

Definition heartbeat (w : Worker J) (session_id : string) (sequence now : Z) : Z * WorkerMessage :=
  let sequence := Z.min u64_max (sequence + 1) in
  let '(active, queued) := metrics (wk_runtime w) in
  (sequence, WHeartbeat (mkHeartbeat session_id sequence active queued now)).

(** The pause before the next attempt, in seconds. *)
Definition next_delay (delay reconnect_max_seconds : Z) : Z :=
  Z.min (Z.min u64_max (delay * 2)) (Z.max reconnect_max_seconds 1).

(** ** Steps *)

Definition run_task (w : Worker J) (job : string) (t : Task) (now : Z) (s : Stimulus)
    : option (Worker J * list RunnerEffect) :=
  r ← task_step sha256_hex catalog max_output_bytes journal_text workflow_text (wk_world w) t now s;
  let '(world, o, effects) := r in
  Some (mkWorker world match o with Waiting t' => <[job := t']> (wk_tasks w) | _ => delete job (wk_tasks w) end,
        effects).

Inductive Label :=
| LHub (m : HubMessage)
| LTask (job : string) (s : Stimulus)
| LWrite (m : WorkerMessage)
| LConnect
| LDisconnect
| LRestart.

Inductive worker_step (w : Worker J) : Label → Worker J → Prop :=
| ws_hub now m : worker_step w (LHub m) (handle_hub_message w now m).2
| ws_task job t now s w' effects :
    wk_tasks w !! job = Some t → run_task w job t now s = Some (w', effects) → worker_step w (LTask job s) w'
| ws_write m rt : take_outbound (wk_runtime w) = Some (m, rt) → worker_step w (LWrite m) (with_runtime w rt)
| ws_connect m w' : connect w = Ok (m, w') → worker_step w LConnect w'
| ws_disconnect : worker_step w LDisconnect (with_runtime w (clear_connection (wk_runtime w)))
| ws_restart w' : start (wk_journal w) = Ok w' → worker_step w LRestart w'.

Inductive worker_run (w : Worker J) : list Label → Worker J → Prop :=
| wr_nil : worker_run w [] w
| wr_snoc ls w' l w'' : worker_run w ls w' → worker_step w' l w'' → worker_run w (ls ++ [l]) w''.
End worker.

(** ** Totals over the tasks *)

Definition total (f : Task → Z) (m : gmap string Task) : Z := map_fold (λ _ t acc, (f t + acc)%Z) 0%Z m.

Lemma total_empty f : total f ∅ = 0%Z.
Proof. unfold total. by rewrite map_fold_empty. Qed.

Lemma total_fresh f m k t : m !! k = None → total f (<[k := t]> m) = (f t + total f m)%Z.
Proof. intros Hk. unfold total. rewrite map_fold_insert_L; [done| |done]. intros. lia. Qed.

Lemma total_delete f m k t : m !! k = Some t → total f (delete k m) = (total f m - f t)%Z.
Proof.
  intros Hk. rewrite <- (insert_delete_id m k t) at 2 by done.
  rewrite total_fresh by apply lookup_delete_eq. lia.
Qed.

Lemma total_insert f m k t t' : m !! k = Some t → total f (<[k := t']> m) = (total f m - f t + f t')%Z.
Proof.
  intros Hk. rewrite <- insert_delete_eq, total_fresh by apply lookup_delete_eq.
  rewrite (total_delete f m k t) by done. lia.
Qed.

Lemma total_nonneg f m : (∀ t, 0 ≤ f t)%Z → (0 ≤ total f m)%Z.
Proof.
  intros Hf. induction m as [|k t m Hk IH] using map_ind; [by rewrite total_empty|].
  rewrite total_fresh by done. specialize (Hf t). lia.
Qed.

(** What the worker relies on: the record returned for a dispatch is the one of
    its job. *)
Class JournalLaws (J : Type) `{!JournalOps J} : Prop := {
  upsert_reply_job d now (j : J) r j' :
    j_execute (UpsertDispatch d) now j = (Ok (RRecord r), j') → dj_job_id (jr_dispatch r) = dj_job_id d;
}.

#[export] Instance memory_laws : JournalLaws (gmap string JobRecord).
Proof.
  split. intros d now j r j'. simpl. unfold Memory.upsert.
  destruct (j !! dj_job_id d) as [record|]; simpl; [|by intros [= <- _]].
  destruct (same_dispatch_identity _ _) eqn:Hs; simpl; [|done].
  destruct (is_terminal _); simpl; intros [= <- _]; [|done].
  unfold same_dispatch_identity in Hs. bool_cases. by apply String.eqb_eq.
Qed.

Section account.
Context {J : Type} `{!JournalOps J, !JournalLaws J, !JsonPointer}.
Context (sha256_hex : string → string) (catalog : WorkflowCatalog) (max_output_bytes : Z).
Context (journal_text : JournalError → string) (workflow_text : WorkflowError → string).
Context (namespace node_name version : string) (parallelism queue_depth : Z) (labels : gmap string string).
#[local] Abbreviation step := (worker_step sha256_hex catalog max_output_bytes journal_text workflow_text
  namespace node_name version parallelism queue_depth labels).
#[local] Abbreviation run := (worker_run sha256_hex catalog max_output_bytes journal_text workflow_text
  namespace node_name version parallelism queue_depth labels).
Implicit Types (w : Worker J).

(** The counters are the sums of what the tasks hold. *)
Record accounts_ok w : Prop := {
  ao_active : rt_active_jobs (wk_runtime w) = total active_share (wk_tasks w);
  ao_queued : rt_queued_jobs (wk_runtime w) = total queued_share (wk_tasks w);
  ao_permits : (wd_permits (wk_world w) + total permit_share (wk_tasks w) = parallelism)%Z;
  ao_nonneg : (0 ≤ wd_permits (wk_world w))%Z;
  ao_registered : ∀ j t, wk_tasks w !! j = Some t → is_Some (rt_cancellations (wk_runtime w) !! j);
  ao_tasks : ∀ j t, wk_tasks w !! j = Some t → tk_job t = j ∧ tk_permit t = point_holds (tk_point t);
}.

Lemma share_nonneg t : (0 ≤ active_share t)%Z ∧ (0 ≤ queued_share t)%Z ∧ (0 ≤ permit_share t)%Z.
Proof. unfold active_share, queued_share, permit_share. destruct (tk_slot t), (tk_permit t); lia. Qed.

Lemma accounts_run_task w job t now s w' effects :
  accounts_ok w → wk_tasks w !! job = Some t →
  run_task sha256_hex catalog max_output_bytes journal_text workflow_text w job t now s = Some (w', effects) →
  accounts_ok w'.
Proof.
  intros Hok Ht Hr. destruct (ao_tasks w Hok job t Ht) as [Hjob Hp]. unfold run_task in Hr.
  destruct (task_step _ _ _ _ _ _ _ _ _) as [[[world o] eff]|] eqn:Hs; [|done]. injection Hr as <- <-.
  pose proof (total_delete active_share _ _ _ Ht) as Ha. pose proof (total_delete queued_share _ _ _ Ht) as Hq.
  assert (Hsol : solvent (account (wk_world w) t)).
  { split; simpl.
    - pose proof (total_nonneg active_share (delete job (wk_tasks w)) (λ t, proj1 (share_nonneg t))).
      pose proof (ao_active w Hok). unfold wk_runtime in *. lia.
    - pose proof (total_nonneg queued_share (delete job (wk_tasks w)) (λ t, proj1 (proj2 (share_nonneg t)))).
      pose proof (ao_queued w Hok). unfold wk_runtime in *. lia. }
  eapply (task_step_balanced _ _ _ _ _ _ Hsol) in Hs; [|split; [done|apply (ao_nonneg w Hok)]|done].
  destruct Hok as [Hact Hqueued Hperm Hn Hreg Htasks]. unfold wk_runtime in *.
  destruct o as [t'| |]; simpl in Hs.
  - destruct Hs as ([Hacc Hn'] & Hp'). unfold account in Hacc. injection Hacc as Ha' Hq' Hp'' Hc' Hm' Hj'.
    split; unfold wk_runtime; simpl; try done.
    + rewrite (total_insert active_share _ _ _ _ Ht). lia.
    + rewrite (total_insert queued_share _ _ _ _ Ht). lia.
    + rewrite (total_insert permit_share _ _ _ _ Ht). lia.
    + rewrite Hc'. intros j t0 [[-> _]|[_ Hj]]%lookup_insert_Some; eauto.
    + intros j t0 [[<- <-]|[_ Hj]]%lookup_insert_Some; [|by apply Htasks]. split; [by rewrite Hj'|done].
  - destruct Hs as (Ha' & Hq' & Hp' & Hc' & _ & Hn'). simpl in *.
    split; unfold wk_runtime; simpl; try lia.
    + rewrite (total_delete permit_share _ _ _ Ht). lia.
    + rewrite Hc', Hjob. intros j t0 [Hne Hj]%lookup_delete_Some. rewrite lookup_delete_ne by done. eauto.
    + intros j t0 [Hne Hj]%lookup_delete_Some. by apply Htasks.
  - destruct Hs as (Ha' & Hq' & Hp' & Hc' & _ & Hn'). simpl in *.
    split; unfold wk_runtime; simpl; try lia.
    + rewrite (total_delete permit_share _ _ _ Ht). lia.
    + rewrite Hc'. intros j t0 [Hne Hj]%lookup_delete_Some. eauto.
    + intros j t0 [Hne Hj]%lookup_delete_Some. by apply Htasks.
Qed.

(** Changes that leave jobs, counters and tasks alone. *)
Lemma accounts_same w w' :
  accounts_ok w → wk_tasks w' = wk_tasks w → wd_permits (wk_world w') = wd_permits (wk_world w) →
  rt_active_jobs (wk_runtime w') = rt_active_jobs (wk_runtime w) →
  rt_queued_jobs (wk_runtime w') = rt_queued_jobs (wk_runtime w) →
  (∀ j, is_Some (rt_cancellations (wk_runtime w) !! j) → is_Some (rt_cancellations (wk_runtime w') !! j)) →
  accounts_ok w'.
Proof.
  intros [Ha Hq Hp Hn Hr Ht] Htasks Hperm Hact Hque Hreg.
  split; rewrite ?Htasks, ?Hperm, ?Hact, ?Hque; try done. intros j t Hj. by eapply Hreg, Hr.
Qed.

Lemma accounts_spawn w record slot rt :
  accounts_ok w → rt_cancellations (wk_runtime w) !! dj_job_id (jr_dispatch record) = None →
  slot_queued (with_jobs (wk_runtime w) (<[dj_job_id (jr_dispatch record) := false]> (rt_cancellations (wk_runtime w)))
     (rt_active_jobs (wk_runtime w)) (rt_queued_jobs (wk_runtime w))) = (slot, rt) →
  accounts_ok (spawn_registered_record (with_runtime w rt) record slot).
Proof.
  intros [Ha Hq Hp Hn Hr Ht] Hfree [= <- <-].
  assert (Hnone : wk_tasks w !! dj_job_id (jr_dispatch record) = None).
  { apply eq_None_not_Some. intros [t Hj]. apply Hr in Hj. rewrite Hfree in Hj. by destruct Hj. }
  assert (Hs : active_share (spawned record SlotQueued) = 0%Z ∧ queued_share (spawned record SlotQueued) = 1%Z
    ∧ permit_share (spawned record SlotQueued) = 0%Z) by done. destruct Hs as (Hs1 & Hs2 & Hs3).
  split; unfold spawn_registered_record, with_runtime, wk_runtime in *; simpl;
    rewrite ?(total_fresh active_share _ _ _ Hnone), ?(total_fresh queued_share _ _ _ Hnone),
      ?(total_fresh permit_share _ _ _ Hnone); try lia.
  - intros k t [[-> _]|[Hne Hk]]%lookup_insert_Some; [by rewrite lookup_insert_eq|].
    rewrite lookup_insert_ne by done. by eapply Hr.
  - intros k t [[<- <-]|[_ Hk]]%lookup_insert_Some; [done|by apply Ht].
Qed.

Lemma accounts_spawn_record w record : accounts_ok w → accounts_ok (spawn_record w record).
Proof.
  intros Hok. unfold spawn_record, restore_job, register_job_inner.
  destruct (rt_cancellations (wk_runtime w) !! _) as [c|] eqn:Hc; [done|]. simpl.
  by eapply accounts_spawn.
Qed.

Lemma accounts_upsert w now d : accounts_ok w → accounts_ok (upsert_dispatch journal_text w now d).2.
Proof.
  intros Hok. unfold upsert_dispatch. destruct (j_execute _ _ _) as [reply j]. by eapply accounts_same.
Qed.

Lemma upsert_spec w now d res w' :
  upsert_dispatch journal_text w now d = (res, w') →
  wk_runtime w' = wk_runtime w ∧ wk_tasks w' = wk_tasks w ∧ wd_permits (wk_world w') = wd_permits (wk_world w)
  ∧ ∀ r, res = Ok r → dj_job_id (jr_dispatch r) = dj_job_id d.
Proof.
  unfold upsert_dispatch. destruct (j_execute _ _ _) as [reply j] eqn:He. intros [= <- <-]. split_and!; try done.
  intros r. destruct reply as [[r'|]|]; [|done..]. intros [= <-]. by eapply upsert_reply_job.
Qed.

(** A registration that is given up leaves the books as they were. *)
Lemma accounts_give_up w w2 job :
  accounts_ok w → rt_cancellations (wk_runtime w) !! job = None →
  wk_runtime w2 = with_jobs (wk_runtime w) (<[job := false]> (rt_cancellations (wk_runtime w)))
    (rt_active_jobs (wk_runtime w)) (rt_queued_jobs (wk_runtime w) + 1)%Z →
  wk_tasks w2 = wk_tasks w → wd_permits (wk_world w2) = wd_permits (wk_world w) →
  accounts_ok (with_runtime w2 (slot_drop (finish_job (wk_runtime w2) job) SlotQueued)).
Proof.
  intros Hok Hc Hr Ht Hp. eapply accounts_same; [exact Hok|done|done|..];
    pose proof (ao_queued w Hok) as Hq; unfold wk_runtime in *; simpl; rewrite Hr; simpl; [done| |].
  - unfold usize_saturating_dec. rewrite Hq.
    pose proof (total_nonneg queued_share (wk_tasks w) (λ t, proj1 (proj2 (share_nonneg t)))). lia.
  - intros j [c Hj]. destruct (decide (j = job)) as [->|]; [congruence|].
    rewrite lookup_delete_ne, lookup_insert_ne by done. by exists c.
Qed.

Lemma accounts_accept w now d :
  accounts_ok w → accounts_ok (accept_dispatch catalog journal_text workflow_text w now d).2.
Proof.
  intros Hok. unfold accept_dispatch. destruct (validate_dispatch catalog d); [|done].
  destruct (j_get _ _) as [[r|]|]; [|..|done].
  - pose proof (accounts_upsert w now d Hok) as Hu. destruct (upsert_dispatch _ _ _ _) as [[record|e] w1]; [|done].
    simpl. destruct (is_terminal _); [done|by apply accounts_spawn_record].
  - unfold register_job, register_job_inner.
    destruct (rt_cancellations (wk_runtime w) !! dj_job_id d) as [c|] eqn:Hc; simpl.
    + assert (Hw : accounts_ok (with_runtime w (wk_runtime w))) by (by eapply accounts_same).
      pose proof (accounts_upsert _ now d Hw) as Hu. by destruct (upsert_dispatch _ _ _ _) as [[record|e] w1].
    + destruct (_ <=? _)%Z; [by eapply accounts_same|].
      destruct (upsert_dispatch _ _ _ _) as [res w2] eqn:Hu. apply upsert_spec in Hu as (Hr & Ht & Hp & Hj).
      destruct res as [record|e]; [|by apply (accounts_give_up w)].
      simpl. destruct (is_terminal _); [by apply (accounts_give_up w)|].
      eapply (accounts_same (spawn_registered_record (with_runtime w (wk_runtime w2)) record SlotQueued)).
      * eapply accounts_spawn; [done|by rewrite (Hj record)|]. rewrite (Hj record) by done. by rewrite Hr.
      * simpl. by rewrite Ht.
      * done.
      * done.
      * done.
      * done.
Qed.

Lemma accounts_hub w now m :
  accounts_ok w → accounts_ok (handle_hub_message catalog journal_text workflow_text w now m).2.
Proof.
  intros Hok. destruct m as [r|d|c|u|a|a|p|e]; simpl; try done.
  - pose proof (accounts_accept w now d Hok) as Ha. by destruct (accept_dispatch _ _ _ _ _ _) as [res w'].
  - unfold cancel_job. destruct (rt_cancellations (wk_runtime w) !! cj_job_id c) eqn:Hc.
    + eapply accounts_same; [exact Hok|done..|]. simpl. intros j. destruct (decide (j = cj_job_id c)) as [->|].
      * by rewrite lookup_insert_eq.
      * by rewrite lookup_insert_ne.
    + by destruct (j_get _ _); eapply accounts_same.
  - unfold resolve_artifact_ticket. destruct (wt_tickets _ !! _); by eapply accounts_same.
  - unfold resolve_job_event. case_bool_decide; by eapply accounts_same.
  - unfold resolve_artifact_ack. destruct (wt_acks _ !! _); by eapply accounts_same.
Qed.

Lemma accounts_start j w : (0 ≤ parallelism)%Z → start journal_text parallelism queue_depth j = Ok w → accounts_ok w.
Proof.
  intros Hpos. unfold start, resume_unfinished, wk_journal. simpl. destruct (j_list_unfinished j) as [records|]; [|done].
  intros [= <-].
  assert (H0 : accounts_ok (mkWorker (mkWorld (with_capacity (parallelism + queue_depth)) j parallelism) ∅)) by (split; simpl; rewrite ?total_empty; try done; try lia; intros j' t; rewrite lookup_empty; done).
  revert H0. generalize (mkWorker (mkWorld (with_capacity (parallelism + queue_depth)) j parallelism) ∅). induction records as [|r records IH]; intros w Hw; [done|].
  simpl. apply IH. by apply accounts_spawn_record.
Qed.

Lemma accounts_step w l w' : (0 ≤ parallelism)%Z → accounts_ok w → step w l w' → accounts_ok w'.
Proof.
  intros Hpos Hok Hs. destruct Hs as [now m|job t now s w' eff Ht Hr|m rt Hm|m w' Hc| |w' Hst].
  - by apply accounts_hub.
  - by eapply accounts_run_task.
  - unfold take_outbound in Hm. destruct (rt_connection _) as [[|m' q]|]; [done| |done].
    injection Hm as <- <-. by eapply accounts_same.
  - unfold connect in Hc. apply bind_Ok in Hc as (rs & _ & [= <- <-]). by eapply accounts_same.
  - by eapply accounts_same.
  - by eapply accounts_start.
Qed.

(** C4: What a worker reports is what it runs: started over any journal and
    after any messages, task steps, connection losses and restarts, the active
    and queued counters of its heartbeat are the numbers of its tasks in each
    phase, every task is registered so that it can be cancelled, and the
    permits of the parallelism limit are neither lost nor duplicated. *)
Theorem worker_accounts_exact j w0 ls w :
  (0 ≤ parallelism)%Z → start journal_text parallelism queue_depth j = Ok w0 → run w0 ls w → accounts_ok w.
Proof.
  intros Hpos Hst. induction 1 as [|ls w l w' _ IH Hs]; [by eapply accounts_start|by eapply accounts_step].
Qed.

(** New work is admitted within the announced capacity.  While as many jobs
    are registered as the parallelism and the queue hold, a dispatch of a job
    the journal does not have is refused and changes nothing; and no message of
    the Hub takes the number of registered jobs beyond the capacity, or beyond
    what it was, unless it dispatches a job that is already journaled. *)
Theorem admission_within_capacity w now m :
  (∀ d, m = HDispatchJob d → j_get (dj_job_id d) (wk_journal w) = Ok None) →
  let jobs := rt_cancellations (wk_runtime w) in
  let '(res, w') := handle_hub_message catalog journal_text workflow_text w now m in
  (Z.of_nat (size (rt_cancellations (wk_runtime w'))) ≤ Z.max (rt_max_jobs (wk_runtime w)) (Z.of_nat (size jobs)))%Z
  ∧ ∀ d, m = HDispatchJob d → validate_dispatch catalog d = Ok tt → jobs !! dj_job_id d = None →
      (rt_max_jobs (wk_runtime w) ≤ Z.of_nat (size jobs))%Z →
      res = Ok (Some (dispatch_ack (dj_command_id d)
              (Err (WkRuntime (runtime_error_text (RtCapacityExhausted (rt_max_jobs (wk_runtime w))))))))
      ∧ w' = w.
Proof.
  intros Hnew. assert (Hsame : w = with_runtime w (wk_runtime w)) by (by destruct w as [[] ?]).
  destruct m as [r|d|c|u|a|a|p|e]; simpl; try (split; [lia|intros ? [=]]).
  - specialize (Hnew d eq_refl). unfold accept_dispatch. destruct (validate_dispatch catalog d) as [[]|] eqn:Hv; simpl.
    2: { split; [lia|]. intros ? [= <-] Hv'. rewrite Hv in Hv'. discriminate Hv'. }
    rewrite Hnew. unfold register_job, register_job_inner.
    destruct (rt_cancellations (wk_runtime w) !! dj_job_id d) as [c|] eqn:Hc; simpl.
    + rewrite <- Hsame. destruct (upsert_dispatch _ _ _ _) as [res w2] eqn:Hu. apply upsert_spec in Hu as (Hr & _).
      destruct res; simpl; rewrite Hr; (split; [simpl; lia|]); intros ? [= <-] _ Hc'; rewrite Hc in Hc'; discriminate Hc'.
    + destruct (Z.leb_spec (rt_max_jobs (wk_runtime w)) (Z.of_nat (size (rt_cancellations (wk_runtime w))))) as [Hle|Hlt]; simpl.
      { rewrite <- Hsame. split; [lia|]. intros ? [= <-] _ _ _. split; reflexivity. }
      assert (Hsz : size (<[dj_job_id d := false]> (rt_cancellations (wk_runtime w)))
        = S (size (rt_cancellations (wk_runtime w)))) by by apply map_size_insert_None.
      destruct (upsert_dispatch _ _ _ _) as [res w2] eqn:Hu. apply upsert_spec in Hu as (Hr & _).
      assert (Hdel : (size (delete (dj_job_id d) (<[dj_job_id d := false]> (rt_cancellations (wk_runtime w))))
        ≤ size (rt_cancellations (wk_runtime w)))%nat) by by rewrite delete_insert_id.
      unfold spawn_registered_record, wk_runtime in *.
      destruct res as [record|]; simpl; [destruct (is_terminal _)|]; simpl; rewrite Hr; simpl;
        (split; [lia|intros; lia]).
  - unfold cancel_job, with_runtime, wk_runtime in *. destruct (rt_cancellations (wd_runtime (wk_world w)) !! cj_job_id c) eqn:Hc; simpl.
    + split; [|intros ? [=]]. rewrite map_size_insert_Some by eauto. lia.
    + destruct (j_get _ _); (split; [simpl; lia|intros ? [=]]).
  - split; [|intros ? [=]]. unfold resolve_artifact_ticket, with_runtime, wk_runtime. destruct (wt_tickets _ !! _); simpl; lia.
  - split; [|intros ? [=]]. unfold resolve_job_event, with_runtime, wk_runtime. case_bool_decide; simpl; lia.
  - split; [|intros ? [=]]. unfold resolve_artifact_ack, with_runtime, wk_runtime. destruct (wt_acks _ !! _); simpl; lia.
Qed.
End account.

(** ** The journal of a worker *)

(** A record as tasks leave them. *)
Definition stored_wf (k : string) (r : JobRecord) : Prop :=
  record_wf k r ∧ (0 ≤ jr_event_sequence r)%Z ∧ ∀ e, jr_pending_event r = Some e → event_wf k e.

Lemma execute_stored_wf c (m : gmap string JobRecord) :
  (∀ e s, c = SetPendingEvent e s → event_wf (je_job_id e) e) →
  map_Forall stored_wf m → map_Forall stored_wf (Memory.execute c m).2.
Proof.
  intros Hc Hm k r' Hk'. destruct (m !! k) as [r|] eqn:Hk.
  - destruct (Hm k r Hk) as (Hwf & Hseq & Hev).
    destruct (execute_record_step c m k r Hk) as (r'' & Hk'' & Hs). rewrite Hk' in Hk''. injection Hk'' as <-.
    split; [by eapply record_step_wf|]. destruct Hs as [|d| | |e s -> Hek Hv _|]; simpl; try done.
    specialize (Hc e s eq_refl). rewrite Hek in Hc. split; [destruct Hc; lia|]. by intros e' [= <-].
  - destruct (execute_new_record c m k r' Hk Hk') as (d & _ & <- & ->). by split_and!; simpl.
Qed.

Lemma run_stored_wf job cmds (m : gmap string JobRecord) :
  Forall (λ cn : JournalCommand * Z, command_ok job cn.1) cmds → map_Forall stored_wf m →
  map_Forall stored_wf (j_run cmds m).2.
Proof.
  intros Hall. revert m. induction Hall as [|[c now] cmds Hc _ IH]; intros m Hm; simpl; [done|].
  assert (Hm' : map_Forall stored_wf (Memory.execute c m).2).
  { apply execute_stored_wf; [|done]. intros e s ->. simpl in Hc. by destruct Hc as (<- & ? & ?). }
  destruct (Memory.execute c m) as [reply m']. specialize (IH m' Hm'). by destruct (j_run cmds m').
Qed.

(** Commands about one job leave the other records alone. *)
Lemma run_other job cmds (m : gmap string JobRecord) k :
  Forall (λ cn : JournalCommand * Z, command_ok job cn.1) cmds → k ≠ job → (j_run cmds m).2 !! k = m !! k.
Proof.
  intros Hall Hk. revert m. induction Hall as [|[c now] cmds Hc _ IH]; intros m; simpl; [done|].
  assert (Hm' : (Memory.execute c m).2 !! k = m !! k).
  { destruct c as [d|j s|j p|e s|j n]; simpl in *; try done.
    - subst j. unfold Memory.set_prompt_id. destruct (m !! job); [|done]. simpl. by rewrite lookup_insert_ne.
    - destruct Hc as (Hj & _). unfold Memory.set_pending_event. rewrite Hj. destruct (m !! job); [|done].
      destruct (validate_event_sequence _ _ _); [|done].
      destruct s; [destruct (negb _); [done|]|]; simpl; by rewrite lookup_insert_ne.
    - subst j. unfold Memory.clear_pending_event. destruct (m !! job); [|done].
      destruct (_ =? _)%Z; [|done]. simpl. by rewrite lookup_insert_ne. }
  destruct (Memory.execute c m) as [reply m']. specialize (IH m'). destruct (j_run cmds m'). simpl in *. congruence.
Qed.

Section delivery.
Context `{!JsonPointer}.
Context (sha256_hex : string → string) (catalog : WorkflowCatalog) (max_output_bytes : Z).
Context (journal_text : JournalError → string) (workflow_text : WorkflowError → string).
Context (namespace node_name version : string) (parallelism queue_depth : Z) (labels : gmap string string).
#[local] Abbreviation journal := (gmap string JobRecord).
#[local] Abbreviation step := (worker_step sha256_hex catalog max_output_bytes journal_text workflow_text
  namespace node_name version parallelism queue_depth labels).
#[local] Abbreviation run := (worker_run sha256_hex catalog max_output_bytes journal_text workflow_text
  namespace node_name version parallelism queue_depth labels).
#[local] Abbreviation accept := (accept_dispatch catalog journal_text workflow_text).
#[local] Abbreviation handle := (handle_hub_message catalog journal_text workflow_text).
Implicit Types (w : Worker journal).

Record worker_wf w : Prop := {
  ww_journal : map_Forall stored_wf (wk_journal w);
  ww_tasks : ∀ j t, wk_tasks w !! j = Some t → task_wf j t ∧ is_Some (wk_journal w !! j);
  ww_queue : ∀ q e, rt_connection (wk_runtime w) = Some q → WJobEvent e ∈ q →
    event_wf (je_job_id e) e ∧ is_Some (wk_journal w !! je_job_id e);
}.

(** The journal only grows. *)
Definition journal_grows w w' : Prop :=
  ∀ k r, wk_journal w !! k = Some r → ∃ r', wk_journal w' !! k = Some r' ∧ evolves r r'.

(** *** Dispatches *)

(** What a dispatch does to the journal. *)
Record upserted (d : DispatchJob) (m m' : journal) : Prop := {
  us_others : ∀ k, k ≠ dj_job_id d → m' !! k = m !! k;
  us_old : ∀ r, m !! dj_job_id d = Some r → m' !! dj_job_id d = Some r
    ∨ is_terminal (jr_state r) = false ∧ same_dispatch_identity (jr_dispatch r) d = true
      ∧ m' !! dj_job_id d = Some (with_dispatch d r);
  us_new : m !! dj_job_id d = None → ∀ r', m' !! dj_job_id d = Some r' → r' = JobRecord_received d;
}.

(** The dispatch of a record is the one asked for, or the same up to its URLs. *)
Definition dispatched (r : JobRecord) (d : DispatchJob) : Prop :=
  jr_dispatch r = d ∨ same_dispatch_identity (jr_dispatch r) d = true.

Lemma dispatched_job r d : dispatched r d → dj_job_id (jr_dispatch r) = dj_job_id d.
Proof. intros [->|Hs]; [done|]. unfold same_dispatch_identity in Hs. bool_cases. by apply String.eqb_eq. Qed.

Lemma upserted_same d m : upserted d m m.
Proof. split; [done|by left|congruence]. Qed.

Lemma upsert_journal w now d res w1 :
  upsert_dispatch journal_text w now d = (res, w1) →
  upserted d (wk_journal w) (wk_journal w1) ∧ wk_runtime w1 = wk_runtime w ∧ wk_tasks w1 = wk_tasks w
  ∧ ∀ r, res = Ok r → wk_journal w1 !! dj_job_id d = Some r ∧ dispatched r d.
Proof.
  unfold upsert_dispatch, with_journal, wk_journal, wk_runtime. simpl. unfold Memory.upsert.
  destruct (wd_journal (wk_world w) !! dj_job_id d) as [r|] eqn:Hr; simpl.
  - destruct (same_dispatch_identity _ d) eqn:Hs; simpl.
    2: { intros [= <- <-]. split_and!; [apply upserted_same|done..]. }
    destruct (is_terminal _) eqn:Ht; simpl; intros [= <- <-]; (split_and!; [|done..|]).
    + apply upserted_same.
    + intros r0 [= <-]. split; [done|by right].
    + split; simpl; [intros; by rewrite lookup_insert_ne| |congruence].
      rewrite Hr. intros r0 [= <-]. right. by rewrite lookup_insert_eq.
    + intros r0 [= <-]. split; [simpl; by rewrite lookup_insert_eq|by left].
  - intros [= <- <-]. split_and!; [|done..|].
    + split; simpl; [intros; by rewrite lookup_insert_ne|congruence|].
      intros _ r'. rewrite lookup_insert_eq. by intros [= <-].
    + intros r0 [= <-]. split; [simpl; by rewrite lookup_insert_eq|by left].
Qed.

(** What it does to the worker: the job may get a task. *)
Record admitted w (w' : Worker journal) (d : DispatchJob) : Prop := {
  ad_journal : upserted d (wk_journal w) (wk_journal w');
  ad_task : wk_tasks w' = wk_tasks w ∧ rt_cancellations (wk_runtime w') = rt_cancellations (wk_runtime w)
    ∨ rt_cancellations (wk_runtime w) !! dj_job_id d = None
      ∧ rt_cancellations (wk_runtime w') = <[dj_job_id d := false]> (rt_cancellations (wk_runtime w))
      ∧ ∃ r, wk_journal w' !! dj_job_id d = Some r ∧ is_terminal (jr_state r) = false
          ∧ wk_tasks w' = <[dj_job_id d := spawned r SlotQueued]> (wk_tasks w);
  ad_bus : rt_connection (wk_runtime w') = rt_connection (wk_runtime w)
    ∧ rt_signals (wk_runtime w') = rt_signals (wk_runtime w);
}.

Lemma accept_admitted w now d res w' :
  accept w now d = (res, w') → admitted w w' d
  ∧ (res = Ok tt → ∃ r, wk_journal w' !! dj_job_id d = Some r ∧ dispatched r d
       ∧ (is_terminal (jr_state r) = false → is_Some (rt_cancellations (wk_runtime w') !! dj_job_id d))).
Proof.
  unfold accept_dispatch. destruct (validate_dispatch catalog d) as [[]|].
  2: { intros [= <- <-]. split; [|done]. split; [apply upserted_same|by left|done]. }
  simpl. unfold Memory.get_job. destruct (wk_journal w !! dj_job_id d) as [r0|] eqn:Hj.
  - destruct (upsert_dispatch _ w now d) as [rep w1] eqn:Hu. apply upsert_journal in Hu as (Hup & Hr & Ht & Hrep).
    destruct rep as [record|e]; intros [= <- <-].
    2: { split; [|done]. split; [done|left; split; [done|by rewrite Hr]|by rewrite Hr]. }
    destruct (Hrep record eq_refl) as [Hrec Hd]. destruct (is_terminal (jr_state record)) eqn:Hterm.
    { split; [|intros _; exists record; split_and!; [done..|congruence]].
      split; [done|left; split; [done|by rewrite Hr]|by rewrite Hr]. }
    unfold spawn_record, restore_job, register_job_inner. rewrite (dispatched_job _ _ Hd), Hr.
    destruct (rt_cancellations (wk_runtime w) !! dj_job_id d) as [c|] eqn:Hc; simpl.
    + split; [|intros _; exists record; split_and!; [done..|]; rewrite Hr; by eauto].
      split; [done|left; split; [done|by rewrite Hr]|by rewrite Hr].
    + split; [|intros _; exists record; split_and!; [done..|]; simpl; rewrite lookup_insert_eq; by eauto].
      unfold spawn_registered_record. rewrite (dispatched_job _ _ Hd).
      split; [done| |done]. right. simpl. rewrite Ht. eauto 6.
  - unfold register_job, register_job_inner.
    destruct (rt_cancellations (wk_runtime w) !! dj_job_id d) as [c|] eqn:Hc; simpl.
    + destruct (upsert_dispatch _ _ now d) as [rep w1] eqn:Hu. apply upsert_journal in Hu as (Hup & Hr & Ht & Hrep).
      intros Heq. assert (w' = w1) as -> by (destruct rep; by injection Heq as _ <-).
      split; [split; [done|left; split; [done|by rewrite Hr]|by rewrite Hr]|].
      intros ->. destruct rep as [record|]; [|done]. destruct (Hrep record eq_refl) as [Hrec Hd].
      exists record. split_and!; [done..|]. rewrite Hr. by exists c.
    + destruct (_ <=? _)%Z.
      { intros [= <- <-]. split; [|done]. split; [apply upserted_same|by left|done]. }
      destruct (upsert_dispatch _ _ now d) as [rep w1] eqn:Hu. apply upsert_journal in Hu as (Hup & Hr & Ht & Hrep).
      assert (Hgive : admitted w (with_runtime w1 (slot_drop (finish_job (wk_runtime w1) (dj_job_id d)) SlotQueued)) d).
      { rewrite Hr. split; [done| |done]. left. split; [done|]. simpl. by apply delete_insert_id. }
      destruct rep as [record|e]; intros [= <- <-]; [|by split].
      destruct (Hrep record eq_refl) as [Hrec Hd]. destruct (is_terminal (jr_state record)) eqn:Hterm.
      { split; [done|]. intros _. exists record. split_and!; [done..|congruence]. }
      unfold spawn_registered_record. rewrite (dispatched_job _ _ Hd).
      assert (Hr' : wk_runtime (mkWorker (wk_world w1) (<[dj_job_id d := spawned record SlotQueued]> (wk_tasks w1)))
        = wk_runtime w1) by done.
      split; [|intros _; exists record; split_and!; [done..|]; rewrite Hr', Hr; simpl; rewrite lookup_insert_eq; by eauto].
      split; [done| |by rewrite Hr', Hr]. right. rewrite Hr', Hr. simpl. rewrite Ht. simpl. eauto 6.
Qed.

(** *** Tasks *)

(** What a task's step leaves alone. *)
Record task_frame w (w' : Worker journal) (job : string) : Prop := {
  tf_journal : ∀ k, k ≠ job → wk_journal w' !! k = wk_journal w !! k;
  tf_tasks : ∀ k, k ≠ job → wk_tasks w' !! k = wk_tasks w !! k;
  tf_jobs : ∀ k, k ≠ job → rt_cancellations (wk_runtime w') !! k = rt_cancellations (wk_runtime w) !! k;
  tf_signals : sg_events (rt_signals (wk_runtime w')) ⊆ sg_events (rt_signals (wk_runtime w));
  tf_queue : ∀ q e, rt_connection (wk_runtime w') = Some q → WJobEvent e ∈ q →
    event_wf job e ∨ ∃ q0, rt_connection (wk_runtime w) = Some q0 ∧ WJobEvent e ∈ q0;
}.

Lemma run_task_spec w job t now s w' effects :
  worker_wf w → wk_tasks w !! job = Some t →
  run_task sha256_hex catalog max_output_bytes journal_text workflow_text w job t now s = Some (w', effects) →
  worker_wf w' ∧ journal_grows w w' ∧ task_frame w w' job.
Proof.
  intros Hwf Ht. unfold run_task. destruct (task_step _ _ _ _ _ _ _ _ _) as [[[world o] eff]|] eqn:Hs; [|done].
  intros [= <- <-]. destruct (ww_tasks w Hwf job t Ht) as [Htw Hin].
  eapply (task_step_faithful _ _ _ _ _ job (wk_world w)) in Hs; [|split; [by exists []|by split; [eauto|]]|done].
  destruct Hs as [((cmds & Hcmds & Hj) & Hq & Hsg & Hc) Ho]. simpl in *.
  assert (Hg : journal_grows w (mkWorker world (wk_tasks w))).
  { intros k r Hk. unfold wk_journal in *. simpl. rewrite Hj. by apply run_evolves. }
  assert (Hsome : ∀ k, is_Some (wk_journal w !! k) → is_Some (wd_journal world !! k)).
  { intros k [r Hk]. destruct (Hg k r Hk) as (r' & Hk' & _). by exists r'. }
  assert (Hframe : task_frame w (mkWorker world match o with Waiting t' => <[job := t']> (wk_tasks w) | _ => delete job (wk_tasks w) end) job).
  { split; unfold wk_journal, wk_runtime; simpl; [|..|done|done].
    - intros k Hk. rewrite Hj. by eapply run_other.
    - intros k Hk. destruct o; rewrite ?lookup_insert_ne, ?lookup_delete_ne by done; done.
    - done. }
  split_and!; [|exact Hg|done]. split.
  - unfold wk_journal. simpl. rewrite Hj. eapply run_stored_wf; [done|apply Hwf].
  - unfold wk_journal. simpl. intros k t' Hk. destruct (decide (k = job)) as [->|Hne].
    + destruct o as [t0| |]; [|by rewrite lookup_delete_eq in Hk..]. rewrite lookup_insert_eq in Hk.
      injection Hk as <-. split; [done|by apply Hsome].
    + pose proof (tf_tasks _ _ _ Hframe k Hne) as Htf. simpl in Htf. rewrite Htf in Hk. destruct (ww_tasks w Hwf k t' Hk) as [? ?]. split; [done|by apply Hsome].
  - intros q e Hcq He. destruct (Hq q e Hcq He) as [Hev|(q0 & Hq0 & He0)].
    + destruct Hev as (<- & Hev). split; [by split|by apply Hsome].
    + destruct (ww_queue w Hwf q0 e Hq0 He0) as [? ?]. split; [done|by apply Hsome].
Qed.

(** *** Every step *)

Lemma admitted_grows w w' d : admitted w w' d → journal_grows w w'.
Proof.
  intros [[Ho Hold Hnew] _ _] k r Hk. destruct (decide (k = dj_job_id d)) as [->|Hne].
  - destruct (Hold r Hk) as [?|(Ht & Hs & ?)]; [by exists r|]. exists (with_dispatch d r). split; [done|].
    apply (record_step_evolves (UpsertDispatch d) (dj_job_id d)). by eapply step_dispatch.
  - exists r. by rewrite Ho.
Qed.

Lemma admitted_wf w w' d : worker_wf w → admitted w w' d → worker_wf w'.
Proof.
  intros Hwf Had. pose proof (admitted_grows _ _ _ Had) as Hg. destruct Had as [[Ho Hold Hnew] Htask [Hq _]].
  assert (Hm : map_Forall stored_wf (wk_journal w')).
  { intros k r Hk. destruct (decide (k = dj_job_id d)) as [->|Hne]; [|rewrite Ho in Hk by done; by apply (ww_journal w Hwf)].
    destruct (wk_journal w !! dj_job_id d) as [r0|] eqn:Hr.
    - destruct (ww_journal w Hwf _ _ Hr) as ((Hid & Hp) & Hseq & Hev).
      destruct (Hold r0 eq_refl) as [Hs|(_ & _ & Hs)]; rewrite Hk in Hs; injection Hs as ->; [done|].
      split_and!; [|done|done]. by split.
    - apply Hnew in Hk as ->; [|done]. by split_and!; simpl. }
  assert (Hsome : ∀ k, is_Some (wk_journal w !! k) → is_Some (wk_journal w' !! k)).
  { intros k [r Hk]. destruct (Hg k r Hk) as (r' & Hk' & _). by exists r'. }
  split; [done| |].
  - intros j t Hj. destruct Htask as [[Ht _]|(_ & _ & r & Hr & _ & Ht)]; rewrite Ht in Hj.
    + destruct (ww_tasks w Hwf j t Hj). split; [done|by apply Hsome].
    + apply lookup_insert_Some in Hj as [[<- <-]|[_ Hj]].
      * destruct (Hm _ _ Hr) as ((Hid & _) & Hseq & Hev). split; [by split_and!|by exists r].
      * destruct (ww_tasks w Hwf j t Hj). split; [done|by apply Hsome].
  - rewrite Hq. intros q e Hc He. destruct (ww_queue w Hwf q e Hc He). split; [done|by apply Hsome].
Qed.

(** Steps that leave journal and tasks alone and add nothing to the queue. *)
Lemma quiet_wf w w' :
  worker_wf w → wk_journal w' = wk_journal w → wk_tasks w' = wk_tasks w →
  (∀ q' e, rt_connection (wk_runtime w') = Some q' → WJobEvent e ∈ q' →
     ∃ q, rt_connection (wk_runtime w) = Some q ∧ WJobEvent e ∈ q) →
  worker_wf w' ∧ journal_grows w w'.
Proof.
  intros [Hj Ht Hq] Hj' Ht' Hq'. split; [|intros k r Hk; exists r; by rewrite Hj'].
  split; rewrite ?Hj', ?Ht'; [done..|]. intros q' e Hc He. destruct (Hq' q' e Hc He) as (q & Hcq & Heq). eauto.
Qed.

(** The tasks of a started worker are those of the given records. *)
Record resumed_from (j : journal) (done : JobRecord → Prop) w : Prop := {
  rf_journal : wk_journal w = j;
  rf_bus : rt_connection (wk_runtime w) = None ∧ rt_signals (wk_runtime w) = mkSignals ∅ ∅ ∅;
  rf_jobs : ∀ k, rt_cancellations (wk_runtime w) !! k = (λ _, false) <$> (wk_tasks w !! k);
  rf_tasks : ∀ k t, wk_tasks w !! k = Some t → ∃ r, j !! k = Some r ∧ done r ∧ t = spawned r SlotQueued;
  rf_done : ∀ k r, j !! k = Some r → done r → wk_tasks w !! k = Some (spawned r SlotQueued);
}.

Lemma resumed_spawn j done w r :
  j !! dj_job_id (jr_dispatch r) = Some r →
  (∀ k r', j !! k = Some r' → dj_job_id (jr_dispatch r') = k) →
  resumed_from j done w → resumed_from j (λ r', done r' ∨ r' = r) (spawn_record w r).
Proof.
  intros Hr Hkey [Hj Hb Hc Ht Hd]. unfold spawn_record, restore_job, register_job_inner.
  destruct (rt_cancellations (wk_runtime w) !! _) as [c|] eqn:Hreg; simpl.
  - split; try done.
    + intros k t Hk. destruct (Ht k t Hk) as (r' & Hr' & Hdr & ->). exists r'. eauto.
    + intros k r' Hk [Hdr| ->]; [by apply Hd|]. rewrite Hc in Hreg. apply fmap_Some in Hreg as (t & Htk & _).
      rewrite (Hkey k r Hk) in Htk. destruct (Ht k t Htk) as (r' & Hr' & _ & ->). by simplify_eq.
  - assert (Hnone : wk_tasks w !! dj_job_id (jr_dispatch r) = None).
    { rewrite Hc in Hreg. by apply fmap_None in Hreg. }
    split; unfold wk_runtime in *; simpl; try done.
    + intros k. destruct (decide (k = dj_job_id (jr_dispatch r))) as [->|Hne]; [by rewrite !lookup_insert_eq|].
      by rewrite !lookup_insert_ne.
    + intros k t [[<- <-]|[_ Hk]]%lookup_insert_Some; [by exists r; eauto|].
      destruct (Ht k t Hk) as (r' & Hr' & Hdr & ->). exists r'. eauto.
    + intros k r' Hk [Hdr| ->].
      * rewrite lookup_insert_ne; [by apply Hd|]. intros <-. rewrite (Hd _ _ Hk Hdr) in Hnone. done.
      * by rewrite (Hkey k r Hk), lookup_insert_eq.
Qed.

Lemma start_resumes (j : journal) w :
  (∀ k r, j !! k = Some r → dj_job_id (jr_dispatch r) = k) →
  start journal_text parallelism queue_depth j = Ok w → resumed_from j (λ r, unfinished r = true) w.
Proof.
  intros Hkey. unfold start, resume_unfinished, wk_journal. simpl. intros [= <-].
  set (rs := List.filter unfinished ((btree_iter j).*2)).
  assert (Hrs : ∀ r, r ∈ rs ↔ (∃ k, j !! k = Some r) ∧ unfinished r = true).
  { intros r. unfold rs. rewrite list_elem_of_In, filter_In, <- list_elem_of_In, list_elem_of_fmap. split.
    - intros [([k r'] & -> & Hin%elem_of_btree_iter) Hu]. simpl in *. eauto.
    - intros [[k Hk] Hu]. split; [|done]. exists (k, r). split; [done|]. by apply elem_of_btree_iter. }
  assert (Hall : ∀ rs' w done, (∀ r, r ∈ rs' → ∃ k, j !! k = Some r) → resumed_from j done w →
    resumed_from j (λ r, done r ∨ r ∈ rs') (foldl spawn_record w rs')).
  { induction rs' as [|r rs' IH]; intros w done Hin Hw; simpl.
    - destruct Hw as [? ? ? Ht Hd]. split; try done.
      + intros k t Hk. destruct (Ht k t Hk) as (r & ? & ? & ->). eauto 6.
      + intros k r Hk [?|[]%elem_of_nil]. by apply Hd.
    - destruct (Hin r) as [k Hk]; [set_solver|].
      assert (Hr : j !! dj_job_id (jr_dispatch r) = Some r) by by rewrite (Hkey k r Hk).
      apply (resumed_spawn j done w r Hr Hkey) in Hw. apply IH in Hw; [|set_solver].
      destruct Hw as [? ? ? Ht Hd]. split; try done.
      + intros k0 t Hk0. destruct (Ht k0 t Hk0) as (r0 & ? & Hdone & ->). exists r0. split_and!; [done| |done]. set_solver.
      + intros k0 r0 Hk0 Hdone. apply Hd; [done|]. set_solver. }
  specialize (Hall rs (mkWorker (mkWorld (with_capacity (parallelism + queue_depth)) j parallelism) ∅) (λ _, False)).
  destruct Hall as [? ? ? Ht Hd].
  - intros r Hr%Hrs. by destruct Hr.
  - split; try done; intros *; rewrite ?lookup_empty; done.
  - split; try done.
    + intros k t Hk. destruct (Ht k t Hk) as (r & ? & [[]|Hr%Hrs] & ->). exists r. by destruct Hr.
    + intros k r Hk Hu. apply Hd; [done|]. right. apply Hrs. eauto.
Qed.

Lemma stored_keyed (j : journal) : map_Forall stored_wf j → ∀ k r, j !! k = Some r → dj_job_id (jr_dispatch r) = k.
Proof. intros Hj k r Hk. by destruct (Hj k r Hk) as ((? & _) & _). Qed.

Lemma start_wf w w' :
  worker_wf w → start journal_text parallelism queue_depth (wk_journal w) = Ok w' → worker_wf w' ∧ journal_grows w w'.
Proof.
  intros Hwf Hst. apply start_resumes in Hst as [Hj Hb Hc Ht _]; [|apply stored_keyed, Hwf].
  split; [|intros k r Hk; exists r; by rewrite Hj]. split; rewrite ?Hj; [apply Hwf| |].
  - intros k t Hk. destruct (Ht k t Hk) as (r & Hr & _ & ->).
    destruct (ww_journal w Hwf k r Hr) as ((Hid & _) & Hseq & Hev). split; [by split_and!|by exists r].
  - destruct Hb as [-> _]. done.
Qed.

Lemma step_wf w l w' : worker_wf w → step w l w' → worker_wf w' ∧ journal_grows w w'.
Proof.
  intros Hwf Hs. destruct Hs as [now m|job t now s w' eff Ht Hr|m rt Hm|m w' Hc| |w' Hst].
  - assert (Hq : ∀ w', wk_journal w' = wk_journal w → wk_tasks w' = wk_tasks w →
      rt_connection (wk_runtime w') = rt_connection (wk_runtime w) → worker_wf w' ∧ journal_grows w w').
    { intros w' Hj Ht Hc. apply quiet_wf; [done..|]. rewrite Hc. eauto. }
    destruct m as [r|d|c|u|a|a|p|e]; simpl; try (by apply Hq).
    + destruct (accept w now d) as [res w'] eqn:Ha. apply accept_admitted in Ha as [Had _].
      split; [by eapply admitted_wf|by eapply admitted_grows].
    + unfold cancel_job. destruct (rt_cancellations (wk_runtime w) !! cj_job_id c); simpl; by apply Hq.
    + apply Hq; [done..|]. unfold resolve_artifact_ticket. by destruct (wt_tickets _ !! _).
    + apply Hq; [done..|]. unfold resolve_job_event. by case_bool_decide.
    + apply Hq; [done..|]. unfold resolve_artifact_ack. by destruct (wt_acks _ !! _).
  - eapply run_task_spec in Hr as (? & ? & _); [by split|done..].
  - apply quiet_wf; [done..|]. unfold take_outbound in Hm. intros q' e Hq' He.
    destruct (rt_connection _) as [[|m' q]|] eqn:Hc; [done| |done]. injection Hm as <- <-. simpl in Hq'.
    injection Hq' as <-. exists (m' :: q). split; [done|set_solver].
  - unfold connect in Hc. apply bind_Ok in Hc as (rs & _ & [= <- <-]). apply quiet_wf; [done..|].
    intros q e. simpl. intros [= <-]. set_solver.
  - apply quiet_wf; [done..|]. intros q e. done.
  - by apply start_wf.
Qed.

Lemma worker_run_wf w ls w' : worker_wf w → run w ls w' → worker_wf w' ∧ journal_grows w w'.
Proof.
  intros Hwf. induction 1 as [|ls w1 l w2 _ IH Hs].
  - split; [done|]. intros k r Hk. by exists r.
  - destruct IH as [Hwf1 Hg1]. eapply step_wf in Hs as [Hwf2 Hg2]; [|done]. split; [done|].
    intros k r Hk. destruct (Hg1 k r Hk) as (r1 & Hk1 & He1). destruct (Hg2 k r1 Hk1) as (r2 & Hk2 & He2).
    exists r2. split; [done|]. by etrans.
Qed.

(** C11: An acknowledged dispatch is durable.  When the worker answers a dispatch
    with success, the journal has its job; whatever happens afterwards, lost
    connections and restarts included, the journal keeps it, moving only along
    the job state machine under the same identity; and a worker started over
    that journal at any time takes the job up again unless it is finished and
    its last event confirmed. *)
Theorem accepted_dispatch_survives w now d w' ls w'' :
  worker_wf w → accept w now d = (Ok tt, w') → run w' ls w'' →
  ∃ r0 r, wk_journal w' !! dj_job_id d = Some r0 ∧ dispatched r0 d
    ∧ wk_journal w'' !! dj_job_id d = Some r ∧ evolves r0 r
    ∧ ∀ w1, start journal_text parallelism queue_depth (wk_journal w'') = Ok w1 → unfinished r = true →
        wk_tasks w1 !! dj_job_id d = Some (spawned r SlotQueued).
Proof.
  intros Hwf Ha Hrun. apply accept_admitted in Ha as [Had Hok]. destruct (Hok eq_refl) as (r0 & Hr0 & Hd & _).
  apply (admitted_wf _ _ _ Hwf) in Had. eapply worker_run_wf in Hrun as [Hwf'' Hg]; [|done].
  destruct (Hg _ _ Hr0) as (r & Hr & He). exists r0, r. split_and!; [done..|].
  intros w1 Hst Hu. apply start_resumes in Hst as [_ _ _ _ Hdone]; [|apply stored_keyed, Hwf'']. by apply Hdone.
Qed.


(** *** At least once *)

(** The event is the job's unconfirmed one, and its task, if any, is about to
    send it or waits for its confirmation. *)
Definition holds w (j : string) (e : JobEvent) : Prop :=
  (∃ r, wk_journal w !! j = Some r ∧ jr_pending_event r = Some e)
  ∧ match wk_tasks w !! j with
    | None => True
    | Some t =>
        is_cancelled (wk_runtime w) j = false
        ∧ match tk_point t with
          | AtStart => jr_pending_event (tk_record t) = Some e
          | AtEvent e' _ _ => e' = e ∧ event_key e ∉ sg_events (rt_signals (wk_runtime w))
          | _ => False
          end
    end.

(** The Hub neither confirms the event nor cancels the job. *)
Definition unanswered (j : string) (e : JobEvent) (l : Label) : Prop :=
  match l with
  | LHub (HJobEventAck a) => (ea_job_id a, ea_sequence a) ≠ event_key e
  | LHub (HCancelJob c) => cj_job_id c ≠ j
  | _ => True
  end.

Lemma event_wf_finite j e : event_wf j e → progress_finite e = true.
Proof.
  intros (_ & _ & Hp). unfold progress_finite. destruct (je_progress e) as [p|]; [|done].
  specialize (Hp p eq_refl). unfold progress_ok in Hp. by bool_cases.
Qed.

(** Sending the pending event again changes no record. *)
Lemma set_pending_again (m : journal) r e :
  m !! je_job_id e = Some r → jr_pending_event r = Some e → je_sequence e = jr_event_sequence r →
  progress_finite e = true →
  Memory.set_pending_event e None m = (Ok tt, <[je_job_id e := with_pending e r]> m).
Proof.
  intros Hm Hp Hs Hf. unfold Memory.set_pending_event, validate_event_sequence. rewrite Hm, Hp, Hs, Z.ltb_irrefl, Z.eqb_refl.
  simpl. by rewrite JobEvent_eqb_refl.
Qed.

Lemma holds_task w j e t now s w' effects :
  worker_wf w → holds w j e → wk_tasks w !! j = Some t →
  run_task sha256_hex catalog max_output_bytes journal_text workflow_text w j t now s = Some (w', effects) →
  holds w' j e.
Proof.
  intros Hwf [(r & Hr & Hp) Ht] Hj Hrun. rewrite Hj in Ht. destruct Ht as [Hc Hpt].
  destruct (ww_tasks w Hwf j t Hj) as [(Htj & Hseq & Hwt) _].
  destruct (ww_journal w Hwf j r Hr) as ((_ & Hpr) & _ & Hev). destruct (Hpr e Hp) as [Hej Hes].
  specialize (Hev e Hp). unfold run_task, task_step in Hrun. unfold is_cancelled, wk_runtime in Hc.
  destruct (tk_point t) as [|event sent next| | | |p watch|p outputs|p i outputs u] eqn:Hpoint; try done.
  - destruct s; try done. unfold execute in Hrun. rewrite Hpt in Hrun.
    destruct (is_terminal (jr_state (tk_record t))).
    + unfold finish, release_permit in Hrun. simpl in Hrun.
      split; [exists r; split; [|done]|]; destruct (tk_permit t); injection Hrun as <- _; try exact Hr;
        simpl; by rewrite lookup_delete_eq.
    + unfold send_job_event, event_loop in Hrun. simpl in Hrun.
      rewrite (set_pending_again _ r) in Hrun; [|by rewrite Hej|done|done|by eapply event_wf_finite].
      simpl in Hrun. unfold is_cancelled in Hrun. rewrite Hej, Hc, andb_false_r in Hrun. injection Hrun as <- _.
      split.
      * exists (with_pending e r). unfold wk_journal. simpl. by rewrite lookup_insert_eq.
      * simpl. rewrite lookup_insert_eq. split; [exact Hc|]. split; [done|]. simpl. set_solver.
  - destruct Hpt as [-> Hsg].
    assert (Hloop : ∀ on_error, event_loop on_error (on_runtime (wk_world w) (λ rt, forget_event rt (event_key e))) t e next
      = (on_runtime (on_runtime (wk_world w) (λ rt, forget_event rt (event_key e))) (λ rt, await_event rt (event_key e)),
         Waiting (at_point t (AtEvent e false next)), [])).
    { intros on_error. unfold event_loop. simpl. unfold is_cancelled. simpl. by rewrite Hej, Hc, andb_false_r. }
    assert (Hagain : ∀ on_error x, (let '(world, o, eff) := event_loop on_error (on_runtime (wk_world w)
        (λ rt, forget_event rt (event_key e))) t e next in
        Some (mkWorker world match o with Waiting t' => <[j := t']> (wk_tasks w) | _ => delete j (wk_tasks w) end, eff))
        = Some (w', x) → holds w' j e).
    { intros on_error x. rewrite Hloop. intros [= <- _]. split; [by exists r|]. simpl. rewrite lookup_insert_eq.
      split; [exact Hc|]. split; [done|]. simpl. set_solver. }
    destruct sent; destruct s; try done.
    + unfold poll_event in Hrun. rewrite bool_decide_eq_false_2 in Hrun by done.
      case_bool_decide; [done|]. by eapply Hagain.
    + unfold poll_event in Hrun. rewrite bool_decide_eq_false_2 in Hrun by done.
      case_bool_decide; [|done]. by eapply Hagain.
    + destruct (send _ _) as [rt|] eqn:Hsend; simpl in Hrun; [|done]. injection Hrun as <- _.
      unfold send in Hsend. destruct (rt_connection _); simpl in Hsend; [|done]. destruct (_ <? _); [|done].
      injection Hsend as <-. split; [by exists r|]. simpl. rewrite lookup_insert_eq.
      split; [exact Hc|]. by split.
Qed.

(** Steps that change nothing about the job. *)
Lemma holds_same w w' j e :
  holds w j e → wk_journal w' !! j = wk_journal w !! j → wk_tasks w' !! j = wk_tasks w !! j →
  is_cancelled (wk_runtime w') j = is_cancelled (wk_runtime w) j →
  (event_key e ∈ sg_events (rt_signals (wk_runtime w')) → event_key e ∈ sg_events (rt_signals (wk_runtime w))) →
  holds w' j e.
Proof.
  intros [Hr Ht] Hj Htasks Hc Hs. unfold holds. rewrite Hj, Htasks, Hc. split; [done|].
  destruct (wk_tasks w !! j) as [t|]; [|done]. destruct Ht as [? Hp]. split; [done|].
  destruct (tk_point t); try done. destruct Hp. split; [done|]. naive_solver.
Qed.

Lemma holds_admitted w w' d j e : holds w j e → admitted w w' d → holds w' j e.
Proof.
  intros Hh [[Ho Hold Hnew] Htask [_ Hsg]]. destruct (decide (j = dj_job_id d)) as [->|Hne].
  - destruct Hh as [(r & Hr & Hp) Ht].
    assert (Hrec : ∃ r', wk_journal w' !! dj_job_id d = Some r' ∧ jr_pending_event r' = Some e).
    { destruct (Hold r Hr) as [?|(_ & _ & ?)]; [by exists r|by exists (with_dispatch d r)]. }
    split; [done|]. destruct Htask as [[-> Hc]|(_ & Hc & r' & Hr' & _ & ->)].
    + unfold is_cancelled in *. rewrite Hc, Hsg. done.
    + rewrite lookup_insert_eq. unfold is_cancelled. rewrite Hc, lookup_insert_eq. split; [done|]. simpl.
      destruct Hrec as (r1 & Hr1 & Hp1). by simplify_eq.
  - apply (holds_same w); [done|by apply Ho|..].
    + destruct Htask as [[-> _]|(_ & _ & r' & _ & _ & ->)]; [done|by rewrite lookup_insert_ne].
    + unfold is_cancelled. destruct Htask as [[_ ->]|(_ & -> & _)]; [done|by rewrite lookup_insert_ne].
    + by rewrite Hsg.
Qed.

Lemma holds_step w l w' j e :
  worker_wf w → holds w j e → step w l w' → unanswered j e l → holds w' j e.
Proof.
  intros Hwf Hh Hs Hl. destruct Hs as [now m|job t now s w' eff Ht Hr|m rt Hm|m w' Hc| |w' Hst].
  - destruct m as [r|d|c|u|a|a|p|er]; simpl in *; try exact Hh.
    + destruct (accept w now d) as [res w'] eqn:Ha. apply accept_admitted in Ha as [Had _].
      by eapply holds_admitted.
    + unfold cancel_job. destruct (rt_cancellations (wk_runtime w) !! cj_job_id c); simpl; [|by apply (holds_same w)].
      apply (holds_same w); [done..| |done]. unfold is_cancelled. simpl. by rewrite lookup_insert_ne.
    + apply (holds_same w); [done..| |]; unfold resolve_artifact_ticket; by destruct (wt_tickets _ !! _).
    + apply (holds_same w); [done..| |]; unfold resolve_job_event; case_bool_decide; simpl; [done..|set_solver|done].
    + apply (holds_same w); [done..| |]; unfold resolve_artifact_ack; by destruct (wt_acks _ !! _).
  - destruct (decide (job = j)) as [->|Hne]; [by eapply holds_task|].
    eapply run_task_spec in Hr as (_ & _ & [Hj Htasks Hjobs Hsg _]); [|done..].
    apply (holds_same w); [done|by apply Hj|by apply Htasks| |by apply Hsg]. unfold is_cancelled. by rewrite Hjobs.
  - apply (holds_same w); [done..| |]; unfold take_outbound in Hm;
      (destruct (rt_connection _) as [[|m' q]|]; [done| |done]); by injection Hm as <- <-.
  - unfold connect in Hc. apply bind_Ok in Hc as (rs & _ & [= <- <-]). by apply (holds_same w).
  - by apply (holds_same w).
  - apply start_resumes in Hst as [Hj Hb Hcanc Htasks _]; [|apply stored_keyed, Hwf].
    destruct Hh as [(r & Hr & Hp) _]. split; [exists r; by rewrite Hj|].
    destruct (wk_tasks w' !! j) as [t|] eqn:Ht; [|done].
    destruct (Htasks j t Ht) as (r' & Hr' & _ & ->). unfold is_cancelled. rewrite Hcanc, Ht. simpl.
    split; [done|]. by simplify_eq.
Qed.

(** A task that has its event to send sends it when there is room. *)
Lemma poll_sends w j e t next q :
  wk_tasks w !! j = Some t → tk_point t = AtEvent e false next →
  rt_connection (wk_runtime w) = Some q → length q < CONNECTION_QUEUE →
  ∃ w', step w (LTask j Poll) w' ∧ rt_connection (wk_runtime w') = Some (q ++ [WJobEvent e]).
Proof.
  intros Ht Hp Hq Hlen. eexists. split.
  - eapply (ws_task _ _ _ _ _ _ _ _ _ _ _ w j t 0); [done|]. unfold run_task, task_step. rewrite Hp.
    unfold send. unfold wk_runtime in Hq. rewrite Hq. simpl. apply Nat.ltb_lt in Hlen. by rewrite Hlen.
  - done.
Qed.

(** A task that waits in vain goes back to sending. *)
Lemma wait_again w j e t next :
  worker_wf w → holds w j e → wk_tasks w !! j = Some t → tk_point t = AtEvent e true next →
  ∃ s w' t', step w (LTask j s) w' ∧ wk_tasks w' !! j = Some t' ∧ tk_point t' = AtEvent e false next
    ∧ rt_connection (wk_runtime w') = rt_connection (wk_runtime w).
Proof.
  intros Hwf [(r & Hr & Hpe) Hh] Ht Hp. rewrite Ht, Hp in Hh. destruct Hh as (Hc & _ & Hsg).
  destruct (ww_journal w Hwf j r Hr) as ((_ & Hpr) & _). destruct (Hpr e Hpe) as [Hej _].
  unfold is_cancelled, wk_runtime in Hc.
  assert (Hstep : ∀ s, (s = Poll ∧ poll_event (wd_runtime (wk_world w)) (event_key e) = SenderDropped
      ∨ s = TimerFired ∧ poll_event (wd_runtime (wk_world w)) (event_key e) = NotYet) →
    ∃ w' t', step w (LTask j s) w' ∧ wk_tasks w' !! j = Some t' ∧ tk_point t' = AtEvent e false next
    ∧ rt_connection (wk_runtime w') = rt_connection (wk_runtime w)).
  { intros s Hs. eexists _, (at_point t (AtEvent e false next)). split; [|split_and!; [|done|]].
    - eapply (ws_task _ _ _ _ _ _ _ _ _ _ _ w j t 0); [done|]. unfold run_task, task_step. rewrite Hp.
      destruct Hs as [[-> Hpoll]|[-> Hpoll]]; rewrite Hpoll; unfold event_loop, is_cancelled; simpl;
        rewrite Hej, Hc, andb_false_r; simpl; reflexivity.
    - simpl. by rewrite lookup_insert_eq.
    - done. }
  unfold poll_event in Hstep. unfold wk_runtime in Hsg. rewrite bool_decide_eq_false_2 in Hstep by done.
  case_bool_decide; [destruct (Hstep TimerFired) as (w' & t' & ?)|destruct (Hstep Poll) as (w' & t' & ?)];
    eauto; by eexists _, w', t'.
Qed.

(** C5: Events are delivered at least once.  An event that is in the outbox and
    unconfirmed stays there, and its task keeps to it, over any steps of the
    worker, other jobs, new connections and restarts included, until the Hub
    confirms this event or cancels the job; and whenever the task waits for
    the confirmation, sent or not, and the connection has room, at most two of
    its steps put the event on the connection again. *)
Theorem event_delivered_at_least_once w j e :
  worker_wf w → holds w j e →
  (∀ ls w', run w ls w' → Forall (unanswered j e) ls → holds w' j e)
  ∧ (∀ t sent next q, wk_tasks w !! j = Some t → tk_point t = AtEvent e sent next →
       rt_connection (wk_runtime w) = Some q → length q < CONNECTION_QUEUE →
       ∃ ls w', length ls ≤ 2 ∧ Forall (λ l, ∃ s, l = LTask j s) ls ∧ run w ls w'
         ∧ rt_connection (wk_runtime w') = Some (q ++ [WJobEvent e])).
Proof.
  intros Hwf Hh. split.
  - intros ls w' Hrun. induction Hrun as [|ls w1 l w2 Hrun IH Hs]; [done|].
    intros [Hls Hl]%Forall_app. eapply holds_step; [by eapply worker_run_wf|by apply IH|done|by inversion Hl].
  - intros t [] next q Ht Hp Hq Hlen.
    + destruct (wait_again w j e t next Hwf Hh Ht Hp) as (s & w1 & t1 & Hs1 & Ht1 & Hp1 & Hq1).
      destruct (poll_sends w1 j e t1 next q Ht1 Hp1) as (w2 & Hs2 & Hq2); [by rewrite Hq1|done|].
      exists ([] ++ [LTask j s] ++ [LTask j Poll]), w2. split_and!; [simpl; lia|repeat constructor; eauto| |done].
      rewrite app_assoc. eapply wr_snoc; [|done]. eapply wr_snoc; [constructor|done].
    + destruct (poll_sends w j e t next q Ht Hp Hq Hlen) as (w1 & Hs1 & Hq1).
      exists ([] ++ [LTask j Poll]), w1. split_and!; [simpl; lia|repeat constructor; eauto| |done].
      eapply wr_snoc; [constructor|done].
Qed.

(** *** Finished jobs *)

(** The job is finished in the journal and runs no more. *)
Definition finished w (j : string) (r : JobRecord) : Prop :=
  wk_journal w !! j = Some r ∧ is_terminal (jr_state r) = true
  ∧ (∀ t, wk_tasks w !! j = Some t → tk_point t = AtStart ∧ is_terminal (jr_state (tk_record t)) = true)
  ∧ (∀ q e, rt_connection (wk_runtime w) = Some q → WJobEvent e ∈ q → je_job_id e ≠ j).

Lemma finished_step w l w' j r : worker_wf w → finished w j r → step w l w' → finished w' j r.
Proof.
  intros Hwf (Hr & Ht & Hrun & Hq) Hs.
  assert (Hsame : ∀ w', wk_journal w' !! j = wk_journal w !! j → wk_tasks w' !! j = wk_tasks w !! j →
    (∀ q' e, rt_connection (wk_runtime w') = Some q' → WJobEvent e ∈ q' → je_job_id e = j →
       ∃ q, rt_connection (wk_runtime w) = Some q ∧ WJobEvent e ∈ q) → finished w' j r).
  { intros w1 Hj1 Ht1 Hq1. split_and!; [by rewrite Hj1|done|by rewrite Ht1|].
    intros q' e Hq' He Hej. destruct (Hq1 q' e Hq' He Hej) as (q & Hcq & Heq). by eapply Hq. }
  destruct Hs as [now m|job t now s w' eff Htj Hrt|m rt Hm|m w' Hc| |w' Hst].
  - destruct m as [r0|d|c|u|a|a|p|er]; simpl; try (apply Hsame; by eauto).
    + destruct (accept w now d) as [res w'] eqn:Ha. apply accept_admitted in Ha as [[[Ho Hold _] Htask [Hc _]] _]. simpl.
      destruct (decide (j = dj_job_id d)) as [->|Hne].
      * assert (Hj' : wk_journal w' !! dj_job_id d = Some r) by (destruct (Hold r Hr) as [?|(? & _)]; [done|congruence]).
        apply Hsame; [by rewrite Hj'| |rewrite Hc; by eauto].
        destruct Htask as [[-> _]|(_ & _ & r' & Hr' & Hn & _)]; [done|congruence].
      * apply Hsame; [by apply Ho| |rewrite Hc; by eauto].
        destruct Htask as [[-> _]|(_ & _ & r' & _ & _ & ->)]; [done|by rewrite lookup_insert_ne].
    + unfold cancel_job. destruct (rt_cancellations (wk_runtime w) !! cj_job_id c); simpl; apply Hsame; by eauto.
    + apply Hsame; [done..|]. unfold resolve_artifact_ticket. destruct (wt_tickets _ !! _); by eauto.
    + apply Hsame; [done..|]. unfold resolve_job_event. case_bool_decide; by eauto.
    + apply Hsame; [done..|]. unfold resolve_artifact_ack. destruct (wt_acks _ !! _); by eauto.
  - destruct (decide (job = j)) as [->|Hne].
    + destruct (Hrun t Htj) as [Hp Hterm]. unfold run_task, task_step in Hrt. rewrite Hp in Hrt.
      destruct s; try done. unfold execute, finish, release_permit in Hrt. rewrite Hterm in Hrt.
      destruct (tk_permit t), (tk_slot t) eqn:Hslot; simpl in Hrt; rewrite ?Hslot in Hrt; injection Hrt as <- _;
        (split_and!; [done..|intros t'; simpl; by rewrite lookup_delete_eq|exact Hq]).
    + eapply run_task_spec in Hrt as (_ & _ & [Hj Htasks _ _ Hqf]); [|done..].
      apply Hsame; [by apply Hj|by apply Htasks|]. intros q' e Hq' He Hej.
      destruct (Hqf q' e Hq' He) as [(Hev & _)|?]; [congruence|done].
  - apply Hsame; [done..|]. unfold take_outbound in Hm. intros q' e Hq' He _.
    destruct (rt_connection _) as [[|m' q]|] eqn:Hc; [done| |done]. injection Hm as <- <-. simpl in Hq'.
    injection Hq' as <-. exists (m' :: q). split; [done|set_solver].
  - unfold connect in Hc. apply bind_Ok in Hc as (rs & _ & [= <- <-]). apply Hsame; [done..|].
    intros q e. simpl. intros [= <-]. set_solver.
  - apply Hsame; [done..|]. intros q e. done.
  - apply start_resumes in Hst as [Hj [Hb _] _ Htasks _]; [|apply stored_keyed, Hwf].
    split_and!; [by rewrite Hj|done| |by rewrite Hb].
    intros t Htj. destruct (Htasks j t Htj) as (r' & Hr' & _ & ->). simplify_eq. by split.
Qed.

Lemma finished_run w j r ls w' : worker_wf w → finished w j r → run w ls w' → finished w' j r.
Proof.
  intros Hwf Hf. induction 1 as [|ls w1 l w2 Hrun IH Hs]; [done|].
  eapply finished_step; [by eapply worker_run_wf|done|done].
Qed.

Lemma finished_silent w j r e w' : finished w j r → step w (LWrite (WJobEvent e)) w' → je_job_id e ≠ j.
Proof.
  intros (_ & _ & _ & Hq) Hs. inversion Hs as [| |m rt Hm| | |]; subst. unfold take_outbound in Hm.
  destruct (rt_connection _) as [[|m' q]|] eqn:Hc; [done| |done]. injection Hm as -> <-.
  eapply Hq; [reflexivity|set_solver].
Qed.

(** C13: A finished job falls silent, confirmed or not: once a job is finished in
    the journal and its task is gone, no message of the Hub, reconnect or
    restart makes the worker write another event of it, and its record stays
    as it is, with the last event still in the outbox if the Hub had not
    confirmed it. *)
Theorem finished_job_silent w j r ls w' :
  worker_wf w → finished w j r → run w ls w' →
  wk_journal w' !! j = Some r ∧ ∀ e w'', step w' (LWrite (WJobEvent e)) w'' → je_job_id e ≠ j.
Proof.
  intros Hwf Hf Hrun. pose proof (finished_run _ _ _ _ _ Hwf Hf Hrun) as Hf'. split; [apply Hf'|].
  intros e w''. exact (finished_silent w' j r e w'' Hf').
Qed.

(** *** Cancellation during the upload *)

(** A cancelled job that fails in the upload is failed in the journal, and its
    task ends without sending the event. *)
Lemma fail_cancelled_upload (world : World journal) t now error r :
  cancelled world t = true → jr_state (tk_record t) = Uploading →
  wd_journal world !! tk_job t = Some r → jr_state r = Uploading → jr_event_sequence r = tk_sequence t →
  (tk_sequence t < u64_max)%Z →
  ∃ world' r', fail journal_text now world t error = (world', Returned, [])
    ∧ wd_journal world' !! tk_job t = Some r' ∧ jr_state r' = Failed
    ∧ (∃ e, jr_pending_event r' = Some e ∧ je_kind e = EvFailed)
    ∧ rt_connection (wd_runtime world') = rt_connection (wd_runtime world).
Proof.
  intros Hc Hst Hr Hrs Hseq Hb. unfold fail.
  assert (Hw : ∃ (w1 : World journal) t1, release_permit world t = (w1, t1) ∧ wd_runtime w1 = wd_runtime world
    ∧ wd_journal w1 = wd_journal world ∧ tk_record t1 = tk_record t ∧ tk_sequence t1 = tk_sequence t ∧ tk_permit t1 = false).
  { unfold release_permit. destruct (tk_permit t) eqn:Hp; eauto 10. }
  destruct Hw as (w1 & t1 & -> & Hrt & Hj & Hrec & Hs & Hp).
  assert (Hjob : tk_job t1 = tk_job t) by (unfold tk_job; by rewrite Hrec).
  unfold cancelled in Hc. unfold emit, send_job_event, terminal_update, cancelled.
  rewrite Hjob, Hrec, Hrt, Hc, Hst, Hs, Hj. simpl. unfold Memory.set_pending_event. simpl. rewrite Hr.
  replace (Z.min u64_max (tk_sequence t + 1)) with (tk_sequence t + 1)%Z by lia.
  unfold validate_event_sequence. simpl. rewrite Hseq, Hrs.
  rewrite (proj2 (Z.ltb_ge (tk_sequence t + 1) _)) by lia. rewrite (proj2 (Z.eqb_neq (tk_sequence t + 1) _)) by lia.
  simpl. unfold event_loop, ignore_error, finish, release_permit, with_sequence. simpl. rewrite Hrt, Hc, Hp. simpl.
  do 2 eexists. split; [reflexivity|]. simpl. unfold tk_job. simpl. rewrite lookup_insert_eq.
  split; [reflexivity|]. split; [done|]. split; [eauto|]. destruct (tk_slot t1); simpl; by rewrite Hrt.
Qed.

(** A job cancelled while it uploads is never reported: when the upload of a
    cancelled job stops, for its cancellation or any other error, the journal
    has the job failed with the event to send, and yet no run of the worker
    from there on, with new connections and restarts, writes any event of the
    job. *)
Theorem upload_cancel_unreported w j t r p i outputs u now s w' effects error :
  worker_wf w → wk_tasks w !! j = Some t → tk_point t = AtOutput p i outputs u → jr_state (tk_record t) = Uploading →
  is_cancelled (wk_runtime w) j = true → wk_journal w !! j = Some r → jr_state r = Uploading →
  jr_event_sequence r = tk_sequence t → (tk_sequence t < u64_max)%Z →
  (∀ q e, rt_connection (wk_runtime w) = Some q → WJobEvent e ∈ q → je_job_id e ≠ j) →
  task_step sha256_hex catalog max_output_bytes journal_text workflow_text (wk_world w) t now s
    = Some (fail journal_text now (wk_world w) t error) →
  run_task sha256_hex catalog max_output_bytes journal_text workflow_text w j t now s = Some (w', effects) →
  (∃ r' e, wk_journal w' !! j = Some r' ∧ jr_state r' = Failed ∧ jr_pending_event r' = Some e ∧ je_kind e = EvFailed)
  ∧ ∀ ls w1, run w' ls w1 → ∀ e w2, step w1 (LWrite (WJobEvent e)) w2 → je_job_id e ≠ j.
Proof.
  intros Hwf Ht Hp Hst Hc Hr Hrs Hseq Hb Hq Hstep Hrun.
  pose proof (run_task_spec w j t now s w' effects Hwf Ht Hrun) as (Hwf' & _ & _).
  destruct (ww_tasks w Hwf j t Ht) as [(Hjob & _) _]. unfold run_task in Hrun. rewrite Hstep in Hrun.
  destruct (fail_cancelled_upload (wk_world w) t now error r)
    as (world' & r' & Hf & Hr' & Hrs' & (e & He & Hk) & Hconn);
    [by unfold cancelled; rewrite Hjob|done|by rewrite Hjob|done..|].
  rewrite Hf in Hrun. simpl in Hrun. injection Hrun as <- <-. rewrite Hjob in Hr'.
  split; [by exists r', e|]. intros ls w1 Hrun e' w2.
  eapply (finished_silent w1 j r' e'), finished_run; [exact Hwf'| |exact Hrun].
  split_and!; [done|by rewrite Hrs'| |].
  - simpl. intros t'. by rewrite lookup_delete_eq.
  - unfold wk_runtime in *. simpl. by rewrite Hconn.
Qed.
End delivery.

(** ** Witnesses *)
Module WorkerExample.
Import Rfc6901.

Definition text {A} (_ : A) : string := "".
Definition digest (_ : string) : string := "".
Definition dispatch : DispatchJob := CatalogExample.dispatch.
Definition other : DispatchJob :=
  mkDispatchJob "c2" "k" 1 "upscale" "1" (JObject [("seed", JNumber (PosInt 1))]) [CatalogExample.input].

#[global] Abbreviation ex_step := (worker_step digest CatalogExample.catalog 1024 text text "ns" "node" "1" 1 1 ∅).
#[global] Abbreviation ex_run := (worker_run digest CatalogExample.catalog 1024 text text "ns" "node" "1" 1 1 ∅).

Definition idle : Worker (gmap string JobRecord) := mkWorker (mkWorld (with_capacity 2) ∅ 1) ∅.
Definition connected : Worker (gmap string JobRecord) := with_runtime idle (set_connection (wk_runtime idle)).
Definition accepted : Worker (gmap string JobRecord) := (accept_dispatch CatalogExample.catalog text text connected 0 dispatch).2.

(** One step of the job's task, and of the connection. *)
Definition polled (w : Worker (gmap string JobRecord)) : Worker (gmap string JobRecord) :=
  default w (t ← wk_tasks w !! "j"; fst <$> run_task digest CatalogExample.catalog 1024 text text w "j" t 0 Poll).
Definition event : JobEvent := mkJobEvent "j" 1 1 EvAccepted None None "" 0.

Lemma idle_started : start text 1 1 ∅ = Ok idle.
Proof. reflexivity. Qed.

Lemma idle_wf : worker_wf idle.
Proof. split; [apply map_Forall_empty|done|done]. Qed.

Lemma accepted_ok : accept_dispatch CatalogExample.catalog text text connected 0 dispatch = (Ok tt, accepted).
Proof. vm_compute. reflexivity. Qed.

Lemma accepted_run : ex_run idle [LConnect; LHub (HDispatchJob dispatch)] accepted.
Proof.
  apply (wr_snoc _ _ _ _ _ _ _ _ _ _ _ idle [LConnect] connected).
  - apply (wr_snoc _ _ _ _ _ _ _ _ _ _ _ idle [] idle); [constructor|].
    by apply (ws_connect _ _ _ _ _ _ _ _ _ _ _ idle (register_message CatalogExample.catalog "ns" "node" "1" 1 1 ∅ [])).
  - exact (ws_hub digest CatalogExample.catalog 1024 text text "ns" "node" "1" 1 1 ∅ connected 0 (HDispatchJob dispatch)).
Qed.

Lemma poll_step w w' :
  (t ← wk_tasks w !! "j"; fst <$> run_task digest CatalogExample.catalog 1024 text text w "j" t 0 Poll) = Some w' →
  ex_step w (LTask "j" Poll) w'.
Proof.
  destruct (wk_tasks w !! "j") as [t|] eqn:Ht; [|done]. simpl.
  destruct (run_task _ _ _ _ _ _ _ _ _ _) as [[w1 eff]|] eqn:Hr; [|done]. intros [= <-]. by eapply ws_task.
Qed.

(** The task has journaled its first event, and has put it on the connection. *)
Definition sending : Worker (gmap string JobRecord) := polled accepted.
Definition sent : Worker (gmap string JobRecord) := polled sending.

Lemma sending_run : ex_run idle ([LConnect; LHub (HDispatchJob dispatch)] ++ [LTask "j" Poll]) sending.
Proof. eapply wr_snoc; [exact accepted_run|]. apply poll_step. vm_compute. reflexivity. Qed.

Lemma sent_run : ex_run idle (([LConnect; LHub (HDispatchJob dispatch)] ++ [LTask "j" Poll]) ++ [LTask "j" Poll]) sent.
Proof. eapply wr_snoc; [exact sending_run|]. apply poll_step. vm_compute. reflexivity. Qed.

Lemma sending_wf : worker_wf sending.
Proof. eapply worker_run_wf; [exact idle_wf|exact sending_run]. Qed.

Lemma sending_holds : holds sending "j" event.
Proof.
  split.
  - eexists. split; vm_compute; reflexivity.
  - change (wk_tasks sending !! "j")
      with (Some (mkTask (JobRecord_received dispatch) 1 SlotQueued false (AtEvent event false AfterAccepted))).
    split; [vm_compute; reflexivity|]. split; [reflexivity|].
    change (sg_events (rt_signals (wk_runtime sending))) with (∅ ∖ {[ event_key event ]} : gset (string * Z)). set_solver.
Qed.

(** A job that was completed when the worker stopped, its last event still in
    the outbox. *)
Definition last_event : JobEvent := mkJobEvent "j" 1 4 EvCompleted (Some f32_1) (Some "p") "" 0.
Definition last_record : JobRecord := mkJobRecord dispatch Completed (Some "p") 4 (Some last_event).
Definition stopped : Worker (gmap string JobRecord) := mkWorker (mkWorld (with_capacity 2) {[ "j" := last_record ]} 1) ∅.

Lemma stopped_wf : worker_wf stopped.
Proof.
  split; [|done|done]. apply map_Forall_singleton. split_and!; [|done|].
  - split; [reflexivity|]. intros e [= <-]. by split.
  - intros e [= <-]. split_and!; [reflexivity|done|]. intros p [= <-]. vm_compute. reflexivity.
Qed.

Lemma stopped_finished : finished stopped "j" last_record.
Proof. split_and!; [reflexivity|reflexivity|done|done]. Qed.

(** The restart finds the record, and its task does nothing. *)
Definition restarted : Worker (gmap string JobRecord) := match start text 1 1 {[ "j" := last_record ]} with Ok w => w | Err _ => idle end.

Lemma restarted_run : ex_run stopped (([LRestart] ++ [LTask "j" Poll]) ++ [LConnect]) (with_runtime (polled restarted) (set_connection (wk_runtime (polled restarted)))).
Proof.
  eapply wr_snoc; [eapply wr_snoc; [eapply (wr_snoc _ _ _ _ _ _ _ _ _ _ _ stopped []); [constructor|]|]|].
  - apply ws_restart with (w' := restarted). vm_compute. reflexivity.
  - apply poll_step. vm_compute. reflexivity.
  - apply ws_connect with (m := register_message CatalogExample.catalog "ns" "node" "1" 1 1 ∅ []). vm_compute. reflexivity.
Qed.

(** A job cancelled by the Hub while its output waits for a ticket. *)
Definition uploading_record : JobRecord := mkJobRecord dispatch Uploading (Some "p") 3 None.
Definition uploading_task : Task :=
  mkTask uploading_record 3 SlotActive true
    (AtOutput "p" 0 [mkOutputRef "a.png" "" "output" "image/png"]
       (UploadTicket (mkArtifactReady "r" "j" 1 "a.png" "image/png" 1 "") 1 None true)).
Definition uploading : Worker (gmap string JobRecord) :=
  mkWorker (mkWorld (mkWorkerRuntime (Some []) (mkWaiters ∅ ∅ ∅) (mkSignals ∅ ∅ ∅) {[ "j" := true ]} 1 0 2)
              {[ "j" := uploading_record ]} 0) {[ "j" := uploading_task ]}.

Lemma uploading_wf : worker_wf uploading.
Proof.
  split.
  - apply map_Forall_singleton. split_and!; [by split|done|done].
  - intros j t. simpl. intros [<- <-]%lookup_singleton_Some. split; [by split_and!|]. by exists uploading_record.
  - intros q e [= <-] []%elem_of_nil.
Qed.
End WorkerExample.
Import Rfc6901.

Lemma worker_accounts_exact_witness : accounts_ok 1 WorkerExample.sent.
Proof.
  exact (worker_accounts_exact WorkerExample.digest CatalogExample.catalog 1024 WorkerExample.text WorkerExample.text
    "ns" "node" "1" 1 1 ∅ ∅ WorkerExample.idle _ WorkerExample.sent (ltac:(lia)) WorkerExample.idle_started
    WorkerExample.sent_run).
Defined.

Lemma admission_within_capacity_witness :
  (Z.of_nat (size (rt_cancellations (wk_runtime
     (handle_hub_message CatalogExample.catalog WorkerExample.text WorkerExample.text WorkerExample.sent 0
        (HDispatchJob WorkerExample.other)).2))) ≤ 2)%Z.
Proof.
  pose proof (admission_within_capacity CatalogExample.catalog WorkerExample.text WorkerExample.text
    WorkerExample.sent 0 (HDispatchJob WorkerExample.other)) as H.
  assert (Hnew : ∀ d, HDispatchJob WorkerExample.other = HDispatchJob d →
    j_get (dj_job_id d) (wk_journal WorkerExample.sent) = Ok None) by (intros d [= <-]; vm_compute; reflexivity).
  specialize (H Hnew). destruct (handle_hub_message _ _ _ _ _ _) as [res w']. exact (proj1 H).
Defined.

Lemma accepted_dispatch_survives_witness :
  ∃ r, wk_journal WorkerExample.sending !! "j" = Some r ∧ jr_state r = Accepted.
Proof.
  destruct (accepted_dispatch_survives WorkerExample.digest CatalogExample.catalog 1024 WorkerExample.text
    WorkerExample.text "ns" "node" "1" 1 1 ∅ WorkerExample.connected 0 WorkerExample.dispatch WorkerExample.accepted
    ([] ++ [LTask "j" Poll]) WorkerExample.sending) as (r0 & r & _ & _ & Hr & _).
  - split; [apply map_Forall_empty|done|]. intros q e [= <-]. set_solver.
  - exact WorkerExample.accepted_ok.
  - eapply wr_snoc; [constructor|]. apply WorkerExample.poll_step. vm_compute. reflexivity.
  - exists r. split; [exact Hr|]. assert (Hst : jr_state <$> (wk_journal WorkerExample.sending !! "j") = Some Accepted)
      by (vm_compute; reflexivity). change (dj_job_id WorkerExample.dispatch) with "j" in Hr. rewrite Hr in Hst.
    by injection Hst.
Defined.


Lemma event_delivered_at_least_once_witness :
  ∃ ls w', length ls ≤ 2 ∧ WorkerExample.ex_run WorkerExample.sending ls w'
    ∧ rt_connection (wk_runtime w') = Some [WJobEvent WorkerExample.event].
Proof.
  destruct (event_delivered_at_least_once WorkerExample.digest CatalogExample.catalog 1024 WorkerExample.text
    WorkerExample.text "ns" "node" "1" 1 1 ∅ WorkerExample.sending "j" WorkerExample.event
    WorkerExample.sending_wf WorkerExample.sending_holds) as [_ H].
  destruct (H (mkTask (JobRecord_received WorkerExample.dispatch) 1 SlotQueued false
                 (AtEvent WorkerExample.event false AfterAccepted)) false AfterAccepted [])
    as (ls & w' & Hl & _ & Hr & Hc); [vm_compute; reflexivity|reflexivity|vm_compute; reflexivity|unfold CONNECTION_QUEUE; simpl; lia|].
  by exists ls, w'.
Defined.

Lemma finished_job_silent_witness :
  wk_journal (WorkerExample.polled WorkerExample.restarted) !! "j" = Some WorkerExample.last_record
  ∧ jr_pending_event WorkerExample.last_record = Some WorkerExample.last_event.
Proof.
  split; [|reflexivity].
  exact (proj1 (finished_job_silent WorkerExample.digest CatalogExample.catalog 1024 WorkerExample.text
    WorkerExample.text "ns" "node" "1" 1 1 ∅ WorkerExample.stopped "j" WorkerExample.last_record _ _
    WorkerExample.stopped_wf WorkerExample.stopped_finished WorkerExample.restarted_run)).
Defined.

Lemma upload_cancel_unreported_witness :
  ∃ w' r, run_task WorkerExample.digest CatalogExample.catalog 1024 WorkerExample.text WorkerExample.text
      WorkerExample.uploading "j" WorkerExample.uploading_task 0 CancelSeen = Some (w', [])
    ∧ wk_journal w' !! "j" = Some r ∧ jr_state r = Failed
    ∧ ∀ e w2, WorkerExample.ex_step w' (LWrite (WJobEvent e)) w2 → je_job_id e ≠ "j".
Proof.
  destruct (run_task WorkerExample.digest CatalogExample.catalog 1024 WorkerExample.text WorkerExample.text
      WorkerExample.uploading "j" WorkerExample.uploading_task 0 CancelSeen) as [[w' effects]|] eqn:Hrun.
  2: { exfalso. revert Hrun. vm_compute. discriminate. }
  destruct (upload_cancel_unreported WorkerExample.digest CatalogExample.catalog 1024 WorkerExample.text
    WorkerExample.text "ns" "node" "1" 1 1 ∅ WorkerExample.uploading "j" WorkerExample.uploading_task
    WorkerExample.uploading_record "p" 0 [mkOutputRef "a.png" "" "output" "image/png"]
    (UploadTicket (mkArtifactReady "r" "j" 1 "a.png" "image/png" 1 "") 1 None true) 0 CancelSeen w' effects RtCancelled)
    as [(r & e & Hr & Hs & _) Hsilent].
  - exact WorkerExample.uploading_wf.
  - reflexivity.
  - reflexivity.
  - reflexivity.
  - reflexivity.
  - reflexivity.
  - reflexivity.
  - reflexivity.
  - unfold u64_max. simpl. lia.
  - intros q e [= <-] []%elem_of_nil.
  - vm_compute. reflexivity.
  - exact Hrun.
  - exists w', r. split_and!; [|exact Hr|exact Hs|].
    + f_equal. f_equal. revert Hrun. vm_compute. by intros [= _ <-].
    + apply (Hsilent [] w'). constructor.
Defined.
