(* ===== verification/Completion.v ===== *)
(** A worker's job from dispatch to completion.

    With services that answer, the state machine of the runner cannot get
    stuck: from a spawned task there are steps, in the order the code takes
    them, that end it, and the events it writes on the way are the four of a
    completed job in order. *)

From S2P Require Import Prelude Text Json Messages Validate Core Journal Pointer Normalize Catalog Helpers Transfer Bus Runner Worker.
From Stdlib Require Import ZArith Lia.

(** What a run writes about jobs: events by kind, requests for tickets and
    confirmations of uploads. *)
Inductive Written := WroteEvent (k : JobEventKind) | WroteReady | WroteUploaded.

Definition written (ls : list Label) : list Written :=
  omap (λ l, match l with
             | LWrite (WJobEvent e) => Some (WroteEvent (je_kind e))
             | LWrite (WArtifactReady _) => Some WroteReady
             | LWrite (WArtifactUploaded _) => Some WroteUploaded
             | _ => None
             end) ls.

Section completion.
Context `{!JsonPointer}.
Context (sha256_hex : string → string) (catalog : WorkflowCatalog) (max_output_bytes : Z).
Context (journal_text : JournalError → string) (workflow_text : WorkflowError → string).
Context (namespace node_name version : string) (parallelism queue_depth : Z) (labels : gmap string string).
#[local] Abbreviation journal := (gmap string JobRecord).
#[local] Abbreviation step := (worker_step sha256_hex catalog max_output_bytes journal_text workflow_text
  namespace node_name version parallelism queue_depth labels).
#[local] Abbreviation run := (worker_run sha256_hex catalog max_output_bytes journal_text workflow_text
  namespace node_name version parallelism queue_depth labels).
#[local] Abbreviation tstep := (task_step sha256_hex catalog max_output_bytes journal_text workflow_text).
#[local] Abbreviation emit := (emit journal_text).
#[local] Abbreviation fail := (fail journal_text).
Implicit Types (w : Worker journal) (world : World journal).

(** Some steps lead there, writing these frames. *)
Definition leads w (kinds : list Written) w' : Prop := ∃ ls, run w ls w' ∧ written ls = kinds.

Lemma leads_refl w : leads w [] w.
Proof. exists []. split; [constructor|done]. Qed.

Lemma run_app w ls w1 ls' w2 : run w ls w1 → run w1 ls' w2 → run w (ls ++ ls') w2.
Proof.
  intros H1. induction 1 as [|ls' w' l w'' _ IH Hs]; [by rewrite app_nil_r|].
  rewrite app_assoc. by eapply wr_snoc.
Qed.

Lemma leads_trans w k1 w1 k2 w2 : leads w k1 w1 → leads w1 k2 w2 → leads w (k1 ++ k2) w2.
Proof.
  intros (ls1 & H1 & <-) (ls2 & H2 & <-). exists (ls1 ++ ls2). split; [by eapply run_app|]. apply omap_app.
Qed.

Lemma leads_step w l w' k : step w l w' → written [l] = k → leads w k w'.
Proof. intros Hs <-. exists ([] ++ [l]). split; [by eapply wr_snoc; [constructor|]|done]. Qed.

(** The worker with the job's task replaced, and after an outcome of it. *)
Definition place w (j : string) world (t : Task) : Worker journal := mkWorker world (<[j := t]> (wk_tasks w)).
Definition settle w (j : string) (x : out) : Worker journal :=
  mkWorker x.1.1 match x.1.2 with Waiting t => <[j := t]> (wk_tasks w) | _ => delete j (wk_tasks w) end.

Lemma leads_task w j world t now s x :
  tstep world t now s = Some x → leads (place w j world t) [] (settle w j x).
Proof.
  intros Hs. destruct x as [[world' o] eff]. apply (leads_step _ (LTask j s)); [|done].
  assert (settle w j (world', o, eff) = mkWorker world' match o with
    | Waiting t' => <[j := t']> (wk_tasks (place w j world t)) | _ => delete j (wk_tasks (place w j world t)) end) as ->.
  { unfold settle, place. simpl. f_equal. destruct o; [symmetry; apply insert_insert_eq|symmetry; apply delete_insert_eq..]. }
  eapply (ws_task _ _ _ _ _ _ _ _ _ _ _ _ j t now); [by apply lookup_insert_eq|].
  unfold run_task. simpl. by rewrite Hs.
Qed.

(** The connection's actor and the Hub. *)
Lemma leads_write w j world t m rt :
  take_outbound (wd_runtime world) = Some (m, rt) →
  leads (place w j world t) (written [LWrite m]) (place w j (on_runtime world (λ _, rt)) t).
Proof. intros Hm. apply (leads_step _ (LWrite m)); [|done]. by apply (ws_write _ _ _ _ _ _ _ _ _ _ _ (place w j world t) m rt). Qed.

Lemma leads_hub w j world t m rt :
  (handle_hub_message catalog journal_text workflow_text (place w j world t) 0 m).2
    = place w j (on_runtime world (λ _, rt)) t →
  leads (place w j world t) [] (place w j (on_runtime world (λ _, rt)) t).
Proof. intros Hm. apply (leads_step _ (LHub m)); [|done]. rewrite <- Hm. apply ws_hub. Qed.

(** A task between two events: connected, not cancelled, nothing pending. *)
Record calm (j : string) world (t : Task) (st : JobState) (n : Z) : Prop := {
  cm_connection : rt_connection (wd_runtime world) = Some [];
  cm_registered : rt_cancellations (wd_runtime world) !! j = Some false;
  cm_record : ∃ r, wd_journal world !! j = Some r ∧ jr_state r = st ∧ jr_pending_event r = None
    ∧ jr_event_sequence r = n;
  cm_job : tk_job t = j;
  cm_sequence : tk_sequence t = n;
}.

Lemma calm_cancelled j world t st n : calm j world t st n → cancelled world t = false.
Proof. intros [_ Hc _ Hj _]. unfold cancelled, is_cancelled. by rewrite Hj, Hc. Qed.

Lemma calm_point j world t st n p : calm j world t st n → calm j world (at_point t p) st n.
Proof. by intros []. Qed.

(** What follows an acknowledged event. *)
Definition resume world (t : Task) (now : Z) (next : Next) : out :=
  match next with
  | AfterReplay => after_replay journal_text world t now
  | AfterAccepted => (world, Waiting (at_point (in_state t Accepted) AtPermit), [])
  | AfterRunning prompt_id => wait_start journal_text world (in_state t Running) now prompt_id
  | AfterStatus prompt_id watch =>
      (world, Waiting (at_point t (AtWait prompt_id
            (mkStatusWatch (sw_last_status watch) (sw_status_since watch) (Some now)))), [])
  | AfterUploading prompt_id outputs =>
      (world, Waiting (at_point (in_state t Uploading) (AtOutputDir prompt_id outputs)), [])
  | AfterCompleted => let '(w', o, _) := finish world t in (w', o, [CleanupJobDir (tk_job t)])
  | AfterTerminal => finish world t
  end.

Lemma confirmed_resume world t now e next :
  ∃ m, confirmed journal_text world t now e next = resume (on_journal world m) t now next
    ∧ Memory.clear_pending_event (je_job_id e) (je_sequence e) (wd_journal world) = (Ok tt, m).
Proof.
  unfold confirmed. simpl. unfold Memory.clear_pending_event.
  destruct (wd_journal world !! je_job_id e); [destruct (_ =? _)%Z|]; eexists; split; try reflexivity; by destruct next.
Qed.

(** An event is journaled, written, acknowledged and cleared. *)
Lemma emit_delivered w j world t now upd next oe st n :
  calm j world t st n → can_transition_to st (up_state upd) = true → (0 ≤ n < u64_max)%Z →
  ∃ world1 e, let t1 := at_point (with_sequence t (n + 1)) (AtEvent e true next) in
    calm j world1 t1 (up_state upd) (n + 1) ∧ wd_permits world1 = wd_permits world
    ∧ leads (settle w j (emit oe world t now upd next)) [WroteEvent (up_kind upd)] (settle w j (resume world1 t1 now next)).
Proof.
  intros [Hconn Hreg (r & Hr & Hst & Hpe & Hseq) Hj Hn] Htr Hb.
  set (e := mkJobEvent j (dj_attempt (jr_dispatch (tk_record t))) (n + 1) (up_kind upd)
              (up_progress upd) (up_prompt_id upd) (up_message upd) now).
  set (m1 := <[j := with_pending e (with_state (up_state upd) r)]> (wd_journal world)).
  set (rt := wd_runtime world). set (key := (j, n + 1)%Z).
  set (worldA := mkWorld (await_event rt key) m1 (wd_permits world)).
  set (tA := at_point (with_sequence t (n + 1)) (AtEvent e false next)).
  set (tB := at_point (with_sequence t (n + 1)) (AtEvent e true next)).
  assert (HA : emit oe world t now upd next = (worldA, Waiting tA, [])).
  { unfold Runner.emit. rewrite Hn, Hj. replace (Z.min u64_max (n + 1)) with (n + 1)%Z by lia.
    unfold send_job_event. simpl. unfold Memory.set_pending_event. simpl. rewrite Hr.
    unfold validate_event_sequence. rewrite Hpe, Hseq. simpl.
    rewrite (proj2 (Z.ltb_ge (n + 1) n)) by lia. rewrite (proj2 (Z.eqb_neq (n + 1) n)) by lia. simpl.
    rewrite Hst, Htr. simpl. unfold event_loop. simpl. unfold is_cancelled. simpl. rewrite Hreg, andb_false_r. done. }
  rewrite HA. change (settle w j (worldA, Waiting tA, [])) with (place w j worldA tA).
  set (rtB := with_connection (await_event rt key) (Some [WJobEvent e])).
  set (rtC := with_connection (await_event rt key) (Some [])).
  set (rtD := resolve_job_event rtC (mkJobEventAck j (n + 1))).
  assert (HB : leads (place w j worldA tA) [] (place w j (on_runtime worldA (λ _, rtB)) tB)).
  { apply (leads_task w j worldA tA now Poll (on_runtime worldA (λ _, rtB), Waiting tB, [])).
    unfold task_step. simpl. unfold send. simpl. unfold rt. by rewrite Hconn. }
  pose proof (leads_write w j (on_runtime worldA (λ _, rtB)) tB (WJobEvent e) rtC eq_refl) as HC.
  assert (HD : leads (place w j (on_runtime worldA (λ _, rtC)) tB) [] (place w j (on_runtime worldA (λ _, rtD)) tB)).
  { by apply (leads_hub w j (on_runtime worldA (λ _, rtC)) tB (HJobEventAck (mkJobEventAck j (n + 1))) rtD). }
  destruct (confirmed_resume (on_runtime worldA (λ _, forget_event rtD key)) tB now e next) as (m2 & Hconf & Hclear).
  assert (HE : leads (place w j (on_runtime worldA (λ _, rtD)) tB) []
    (settle w j (resume (on_journal (on_runtime worldA (λ _, forget_event rtD key)) m2) tB now next))).
  { rewrite <- Hconf. apply (leads_task w j _ tB now Poll). unfold task_step. simpl.
    unfold poll_event, rtD, resolve_job_event. simpl.
    rewrite (bool_decide_eq_true_2 (key ∈ {[ key ]} ∪ _)) by set_solver. simpl.
    rewrite bool_decide_eq_true_2 by set_solver. done. }
  exists (on_journal (on_runtime worldA (λ _, forget_event rtD key)) m2), e. split_and!; [|done|].
  - assert (HrtD : rtD = event_waiters rtC (wt_events (rt_waiters rtC) ∖ {[ key ]}) ({[ key ]} ∪ sg_events (rt_signals rtC))).
    { unfold rtD, resolve_job_event. simpl. rewrite bool_decide_eq_true_2; [done|set_solver]. }
    rewrite HrtD. split; simpl; [done|done| |done|done].
    unfold Memory.clear_pending_event in Hclear. simpl in Hclear. unfold m1 in Hclear.
    rewrite lookup_insert_eq in Hclear. simpl in Hclear. rewrite Z.eqb_refl in Hclear. injection Hclear as <-.
    eexists. rewrite lookup_insert_eq. by split_and!.
  - change [WroteEvent (up_kind upd)] with ([] ++ [WroteEvent (up_kind upd)] ++ [] ++ []).
    eapply leads_trans; [exact HB|]. eapply leads_trans; [exact HC|]. eapply leads_trans; [exact HD|exact HE].
Qed.

(** *** Uploads *)

(** A ticket the Hub may give for an upload. *)
Definition ticket_for (request_id : string) (now : Z) : ArtifactUpload :=
  mkArtifactUpload request_id "artifact"
    (mkPresignedRequest "PUT" "u" ∅ (now + PRESIGNED_REQUEST_EXPIRY_GUARD_MS + 1)%Z).

Lemma put_accepted now request_id size :
  upload_file_once now (au_upload (ticket_for request_id now)) (Ok size) size 1 (Ok 200%Z) = Ok tt.
Proof.
  unfold upload_file_once, artifact_put_request_timeout, validate_presigned, PRESIGNED_REQUEST_EXPIRY_GUARD_MS.
  cbn [ticket_for au_upload pr_method pr_url pr_expires_at_unix_ms]. unfold PRESIGNED_REQUEST_EXPIRY_GUARD_MS.
  replace (i64_saturating_sub (now + 1000 + 1) now) with 1001%Z by (unfold i64_saturating_sub, i64_max, i64_min; lia).
  rewrite (proj2 (Z.leb_gt (now + 1000 + 1) now)) by lia. simpl. by rewrite Z.eqb_refl.
Qed.

(** The bytes of an output are at hand, and its ticket is asked for and given. *)
Lemma ticket_obtained w j world t now p i outputs o response size digest file n :
  calm j world t Uploading n → outputs !! i = Some o →
  stream_response_to_file sha256_hex response max_output_bytes "comfy_output_body" = Ok (size, digest, file) →
  ∃ world', calm j world' t Uploading n ∧ wd_permits world' = wd_permits world
    ∧ leads (place w j world (at_point t (AtOutput p i outputs UploadView))) [WroteReady]
        (place w j world' (at_point t (AtOutput p i outputs
           (UploadPut (ready_of t "r" o size digest) 1 "artifact" (ticket_for "r" now))))).
Proof.
  intros Hc Ho Hstream. pose proof (calm_cancelled _ _ _ _ _ Hc) as Hcan. destruct Hc as [Hconn Hreg Hrec Hj Hn].
  set (rt := wd_runtime world). set (ready := ready_of t "r" o size digest).
  set (at_ := λ u, at_point t (AtOutput p i outputs u)).
  set (on rt := mkWorld rt (wd_journal world) (wd_permits world)).
  set (rt1 := await_ticket rt "r" (ar_job_id ready)). set (rt3 := with_connection rt1 (Some [])).
  set (rt4 := resolve_artifact_ticket rt3 (ticket_for "r" now)). set (rt5 := forget_ticket rt4 "r").
  assert (Hrt4 : rt4 = ticket_waiters rt3 (delete "r" (wt_tickets (rt_waiters rt3)))
                         (<["r" := ticket_for "r" now]> (sg_tickets (rt_signals rt3)))).
  { unfold rt4, resolve_artifact_ticket. simpl. by rewrite lookup_insert_eq. }
  assert (H1 : leads (place w j world (at_ UploadView)) [] (place w j (on rt1) (at_ (UploadTicket ready 1 None false)))).
  { apply (leads_task w j world (at_ UploadView) now (OutputStreamed "r" (Ok response))
      (on rt1, Waiting (at_ (UploadTicket ready 1 None false)), [])).
    unfold task_step. simpl. rewrite Ho. simpl. rewrite Hstream. unfold ticket_loop.
    change (cancelled world (at_ UploadView)) with (cancelled world t). by rewrite Hcan. }
  assert (H2 : leads (place w j (on rt1) (at_ (UploadTicket ready 1 None false))) []
    (place w j (on (with_connection rt1 (Some [WArtifactReady ready]))) (at_ (UploadTicket ready 1 None true)))).
  { apply (leads_task w j (on rt1) _ now Poll (on (with_connection rt1 (Some [WArtifactReady ready])),
      Waiting (at_ (UploadTicket ready 1 None true)), [])).
    unfold task_step. simpl. unfold send. simpl. unfold rt. by rewrite Hconn. }
  pose proof (leads_write w j (on (with_connection rt1 (Some [WArtifactReady ready])))
    (at_ (UploadTicket ready 1 None true)) (WArtifactReady ready) rt3 eq_refl) as H3.
  pose proof (leads_hub w j (on rt3) (at_ (UploadTicket ready 1 None true)) (HArtifactUpload (ticket_for "r" now)) rt4 eq_refl) as H4.
  assert (H5 : leads (place w j (on rt4) (at_ (UploadTicket ready 1 None true))) []
    (place w j (on rt5) (at_ (UploadPut ready 1 "artifact" (ticket_for "r" now))))).
  { apply (leads_task w j (on rt4) _ now Poll (on rt5, Waiting (at_ (UploadPut ready 1 "artifact" (ticket_for "r" now))), [])).
    assert (Hpoll : poll_ticket rt4 "r" = Value (ticket_for "r" now)).
    { unfold poll_ticket. rewrite Hrt4. simpl. by rewrite lookup_insert_eq. }
    unfold task_step. cbn [tk_point at_ at_point upload_step].
    change (wd_runtime (on rt4)) with rt4. change (ar_request_id ready) with "r". by rewrite Hpoll. }
  exists (on rt5). split_and!; [unfold rt5; rewrite Hrt4; by split|done|].
  change [WroteReady] with ([] ++ [] ++ [WroteReady] ++ [] ++ []).
  do 4 (eapply leads_trans; [eassumption|]). exact H5.
Qed.

(** The PUT succeeds and is confirmed. *)
Lemma upload_confirmed w j world t now p i outputs o size digest n :
  calm j world t Uploading n →
  ∃ world' q, calm j world' (at_point t q) Uploading n ∧ wd_permits world' = wd_permits world
    ∧ leads (place w j world (at_point t (AtOutput p i outputs
               (UploadPut (ready_of t "r" o size digest) 1 "artifact" (ticket_for "r" now))))) [WroteUploaded]
        (settle w j (next_output journal_text world' (at_point t q) now p (S i) outputs)).
Proof.
  intros [Hconn Hreg Hrec Hj Hn]. set (rt := wd_runtime world).
  set (uploaded := mkArtifactUploaded "r" "artifact" (tk_job t) (dj_attempt (jr_dispatch (tk_record t)))).
  set (at_ := λ u, at_point t (AtOutput p i outputs u)).
  set (on rt := mkWorld rt (wd_journal world) (wd_permits world)).
  set (rt6 := await_ack rt "r" (tk_job t)). set (rt8 := with_connection rt6 (Some [])).
  set (rt9 := resolve_artifact_ack rt8 (mkArtifactUploadedAck "r" "artifact")).
  assert (Hack : rt9 = ack_waiters rt8 (delete "r" (wt_acks (rt_waiters rt8))) ({[ "r" ]} ∪ sg_acks (rt_signals rt8))).
  { unfold rt9, resolve_artifact_ack. simpl. by rewrite lookup_insert_eq. }
  set (put := UploadPut (ready_of t "r" o size digest) 1 "artifact" (ticket_for "r" now)).
  assert (H6 : leads (place w j world (at_ put)) [] (place w j (on rt6) (at_ (UploadConfirm uploaded false)))).
  { apply (leads_task w j world _ now (PutEnded (Ok size) (Ok 200%Z) false) (on rt6, Waiting (at_ (UploadConfirm uploaded false)), [])).
    unfold task_step. cbn [tk_point at_ at_point upload_step put ready_of ar_size_bytes]. by rewrite put_accepted. }
  assert (H7 : leads (place w j (on rt6) (at_ (UploadConfirm uploaded false))) []
    (place w j (on (with_connection rt6 (Some [WArtifactUploaded uploaded]))) (at_ (UploadConfirm uploaded true)))).
  { apply (leads_task w j (on rt6) _ now Poll (on (with_connection rt6 (Some [WArtifactUploaded uploaded])),
      Waiting (at_ (UploadConfirm uploaded true)), [])).
    unfold task_step. simpl. unfold send. simpl. unfold rt. by rewrite Hconn. }
  pose proof (leads_write w j (on (with_connection rt6 (Some [WArtifactUploaded uploaded])))
    (at_ (UploadConfirm uploaded true)) (WArtifactUploaded uploaded) rt8 eq_refl) as H8.
  pose proof (leads_hub w j (on rt8) (at_ (UploadConfirm uploaded true))
    (HArtifactUploadedAck (mkArtifactUploadedAck "r" "artifact")) rt9 eq_refl) as H9.
  assert (H10 : leads (place w j (on rt9) (at_ (UploadConfirm uploaded true))) []
    (settle w j (next_output journal_text (on (forget_ack rt9 "r")) (at_ (UploadConfirm uploaded true)) now p (S i) outputs))).
  { apply (leads_task w j (on rt9) _ now Poll). unfold task_step. cbn [tk_point at_ at_point upload_step].
    change (wd_runtime (on rt9)) with rt9. unfold poll_ack. rewrite bool_decide_eq_true_2; [done|].
    rewrite Hack. simpl. set_solver. }
  exists (on (forget_ack rt9 "r")), (AtOutput p i outputs (UploadConfirm uploaded true)).
  split_and!; [rewrite Hack; by split|done|].
  change [WroteUploaded] with ([] ++ [] ++ [WroteUploaded] ++ [] ++ []).
  do 4 (eapply leads_trans; [eassumption|]). exact H10.
Qed.

(** The outputs of a prompt can be fetched within the limit. *)
Definition fetchable (outputs : list OutputRef) : Prop :=
  ∀ i o, outputs !! i = Some o →
    ∃ response r, stream_response_to_file sha256_hex response max_output_bytes "comfy_output_body" = Ok r.

(** The frames of [k] uploads. *)
Definition uploads (k : nat) : list Written := mjoin (replicate k [WroteReady; WroteUploaded]).

(** All outputs from one on, and the completion of the job. *)
Lemma outputs_uploaded w j now p outputs n k i world t :
  fetchable outputs → (0 ≤ n < u64_max)%Z → (length outputs - i)%nat = k → calm j world t Uploading n →
  ∃ world' q, calm j world' (at_point (with_sequence t (n + 1)) q) Completed (n + 1)
    ∧ wd_permits world' = wd_permits world
    ∧ leads (settle w j (next_output journal_text world t now p i outputs)) (uploads k ++ [WroteEvent EvCompleted])
        (settle w j (resume world' (at_point (with_sequence t (n + 1)) q) now AfterCompleted)).
Proof.
  intros Hf Hn. revert i world t. induction k as [|k IH]; intros i world t Hk Hc; unfold next_output.
  - rewrite lookup_ge_None_2 by lia.
    destruct (emit_delivered w j world t now (mkEventUpdate EvCompleted (Some f32_1) (Some p) "" Completed)
      AfterCompleted (fail now) Uploading n) as (world1 & e & Hc1 & Hp1 & Hl); [done..|]. eauto.
  - destruct (outputs !! i) as [o|] eqn:Ho; [|apply lookup_ge_None in Ho; lia].
    destruct (Hf i o Ho) as (response & [[size digest] file] & Hs).
    destruct (ticket_obtained w j world t now p i outputs o response size digest file n)
      as (world1 & Hc1 & Hp1 & Hl1); [done..|].
    destruct (upload_confirmed w j world1 t now p i outputs o size digest n Hc1) as (world2 & q2 & Hc2 & Hp2 & Hl2).
    destruct (IH (S i) world2 (at_point t q2)) as (world3 & q3 & Hc3 & Hp3 & Hl3); [lia|done|].
    exists world3, q3. split_and!; [done|congruence|].
    change (uploads (S k) ++ [WroteEvent EvCompleted]) with ([WroteReady] ++ [WroteUploaded] ++ uploads k ++ [WroteEvent EvCompleted]).
    eapply leads_trans; [exact Hl1|]. eapply leads_trans; [exact Hl2|exact Hl3].
Qed.

(** *** The phases before *)

(** From the start to the semaphore. *)
Lemma reaches_permit w j world r slot n :
  calm j world (spawned r slot) Received n → jr_state r = Received → jr_pending_event r = None → (0 ≤ n < u64_max)%Z →
  ∃ world' q, calm j world' (mkTask (with_state Accepted r) (n + 1) slot false AtPermit) Accepted (n + 1)
    ∧ wd_permits world' = wd_permits world
    ∧ leads (place w j world (spawned r slot)) [WroteEvent EvAccepted]
        (place w j world' (at_point (in_state (at_point (with_sequence (spawned r slot) (n + 1)) q) Accepted) AtPermit)).
Proof.
  intros Hc Hst Hpe Hn. set (now := 0%Z).
  destruct (emit_delivered w j world (spawned r slot) now (mkEventUpdate EvAccepted None None "" Accepted)
    AfterAccepted (fail now) Received n) as (world1 & e & Hc1 & Hp1 & Hl); [done..|].
  exists world1, (AtEvent e true AfterAccepted). split_and!; [by destruct Hc1|done|].
  change [WroteEvent EvAccepted] with ([] ++ [WroteEvent EvAccepted]). eapply leads_trans; [|exact Hl].
  apply (leads_task w j world (spawned r slot) now Poll). unfold task_step. simpl. unfold execute.
  simpl. rewrite Hst, Hpe. simpl. unfold after_replay. simpl. by rewrite Hst.
Qed.

(** From the semaphore to the prompt, rendered from the inputs' names. *)
Lemma reaches_prompt w j world t n env names workflow :
  calm j world t Accepted n → tk_point t = AtPermit → jr_prompt_id (tk_record t) = None →
  (0 < wd_permits world)%Z →
  prepare_inputs sha256_hex env j (dj_inputs (jr_dispatch (tk_record t))) = Ok names →
  WorkflowService_call catalog (mkRenderWorkflow (jr_dispatch (tk_record t)) names) = Ok workflow →
  ∃ world', let t' := mkTask (tk_record t) n SlotActive true AtPrompt in
    calm j world' t' Accepted n ∧ wd_permits world' = (wd_permits world - 1)%Z
    ∧ leads (place w j world t) [] (place w j world' t').
Proof.
  intros Hc Hp Hid Hperm Henv Hcall. set (now := 0%Z). pose proof (calm_cancelled _ _ _ _ _ Hc) as Hcan.
  destruct t as [record sequence slot permit point]. simpl in Hp, Hid, Henv, Hcall. subst point.
  destruct Hc as [Hconn Hreg Hrec Hj Hn]. simpl in Hn. subst sequence. unfold tk_job in Hj. simpl in Hj.
  set (rt' := (slot_activate (wd_runtime world) slot).2).
  set (world1 := mkWorld rt' (wd_journal world) (wd_permits world - 1)).
  assert (Hrt : rt_connection rt' = Some [] ∧ rt_cancellations rt' = rt_cancellations (wd_runtime world)).
  { unfold rt'. by destruct slot. }
  destruct Hrt as [Hconn' Hreg'].
  set (t1 := mkTask record n SlotActive true AtInputs).
  assert (Hcan' : ∀ q, cancelled world1 (mkTask record n SlotActive true q) = false).
  { intros q. unfold cancelled, is_cancelled, tk_job. simpl. by rewrite Hj, Hreg', Hreg. }
  assert (H1 : leads (place w j world (mkTask record n slot permit AtPermit)) [] (place w j world1 t1)).
  { apply (leads_task w j world _ now Poll (world1, Waiting t1, [])). unfold task_step. simpl.
    rewrite (proj2 (Z.ltb_lt _ _) Hperm). f_equal. unfold acquired. simpl.
    replace (slot_activate (wd_runtime world) slot) with (SlotActive, rt') by (unfold rt'; by destruct slot).
    unfold with_permit. simpl. rewrite Hcan'. by rewrite Hid. }
  assert (H2 : leads (place w j world1 t1) [] (place w j world1 (mkTask record n SlotActive true AtPrompt))).
  { apply (leads_task w j world1 t1 now (InputsPrepared env)
      (world1, Waiting (mkTask record n SlotActive true AtPrompt), [SubmitPrompt workflow])).
    unfold task_step. simpl. unfold tk_job. simpl. rewrite Hj, Henv, Hcall. unfold t1. by rewrite Hcan'. }
  exists world1. split_and!; [split; simpl; [done|by rewrite Hreg'|done..]|done|].
  change (@nil Written) with (@nil Written ++ []). by eapply leads_trans.
Qed.

(** From the prompt's answer to its outputs. *)
Lemma reaches_outputs w j world record n p outputs :
  calm j world (mkTask record n SlotActive true AtPrompt) Accepted n →
  jr_state record = Accepted → (0 ≤ n)%Z → (n + 1 < u64_max)%Z →
  ∃ world', let t' := mkTask (with_state Uploading (with_state Running record)) (n + 2) SlotActive true (AtOutputDir p outputs) in
    calm j world' t' Uploading (n + 2) ∧ wd_permits world' = wd_permits world
    ∧ leads (place w j world (mkTask record n SlotActive true AtPrompt)) [WroteEvent EvRunning; WroteEvent EvUploading] (place w j world' t').
Proof.
  intros Hc Hst Hn0 Hn. set (now := 0%Z). set (t := mkTask record n SlotActive true AtPrompt) in *.
  destruct Hc as [Hconn Hreg (r & Hr & Hrs & Hrp & Hrn) Hj Hseq].
  set (world1 := on_journal world (<[j := with_prompt_id p r]> (wd_journal world))).
  assert (Hc1 : calm j world1 t Accepted n).
  { split; [done..| |done|done]. exists (with_prompt_id p r). simpl. rewrite lookup_insert_eq. by split_and!. }
  assert (H1 : leads (place w j world t) [] (settle w j
    (emit (fail now) world1 t now (mkEventUpdate EvRunning None (Some p) "" Running) (AfterRunning p)))).
  { apply (leads_task w j world t now (PromptAnswered (Ok p))). unfold task_step. simpl.
    unfold Memory.set_prompt_id. rewrite Hj, Hr. unfold after_prompt. simpl. by rewrite Hst. }
  destruct (emit_delivered w j world1 t now (mkEventUpdate EvRunning None (Some p) "" Running) (AfterRunning p)
    (fail now) Accepted n) as (world2 & e2 & Hc2 & Hp2 & H2); [done|done|lia|].
  set (t2 := mkTask (with_state Running record) (n + 1) SlotActive true (AtWait p (mkStatusWatch StatusUnknown now None))).
  assert (Hresume : resume world2 (at_point (with_sequence t (n + 1)) (AtEvent e2 true (AfterRunning p))) now (AfterRunning p)
    = (world2, Waiting t2, [])).
  { simpl. unfold wait_start. pose proof (calm_cancelled _ _ _ _ _ Hc2) as Hcan. unfold cancelled, tk_job in *. simpl in *.
    by rewrite Hcan. }
  rewrite Hresume in H2.
  assert (Hc2' : calm j world2 t2 Running (n + 1)) by by destruct Hc2.
  destruct (emit_delivered w j world2 t2 now (mkEventUpdate EvUploading (Some f32_0_95) (Some p) "" Uploading)
    (AfterUploading p outputs) (fail now) Running (n + 1)) as (world3 & e3 & Hc3 & Hp3 & H3); [done|done|lia|].
  replace (n + 1 + 1)%Z with (n + 2)%Z in * by lia.
  exists world3. split_and!; [by destruct Hc3|simpl in *; congruence|].
  change [WroteEvent EvRunning; WroteEvent EvUploading] with ([] ++ [WroteEvent EvRunning] ++ [] ++ [WroteEvent EvUploading]).
  eapply leads_trans; [exact H1|]. eapply leads_trans; [exact H2|]. eapply leads_trans; [|exact H3].
  by apply (leads_task w j world2 t2 now (WaitEnded (Ok outputs))).
Qed.

(** C6: A job runs to its end.  Whatever else the worker runs, a spawned job
    with a free permit and an open connection, whose inputs can be prepared,
    whose workflow renders and whose outputs can be fetched within the limit,
    has a run in which services and Hub answer and which ends it: the frames
    written are the events accepted, running and uploading, a ticket request
    and a confirmation for each output, and the event completed; the
    journal holds the job completed with nothing left to send, the task is
    gone and its registration and permit are given back. *)
Theorem job_runs_to_completion w r slot env names workflow outputs n :
  let j := dj_job_id (jr_dispatch r) in
  wk_tasks w !! j = Some (spawned r slot) → calm j (wk_world w) (spawned r slot) Received n →
  jr_state r = Received → jr_pending_event r = None → jr_prompt_id r = None →
  (0 ≤ n)%Z → (n + 3 < u64_max)%Z → (0 < wd_permits (wk_world w))%Z →
  prepare_inputs sha256_hex env j (dj_inputs (jr_dispatch r)) = Ok names →
  WorkflowService_call catalog (mkRenderWorkflow (jr_dispatch r) names) = Ok workflow → fetchable outputs →
  ∃ ls w', run w ls w' ∧ written ls = [WroteEvent EvAccepted; WroteEvent EvRunning; WroteEvent EvUploading]
        ++ uploads (length outputs) ++ [WroteEvent EvCompleted]
    ∧ (∃ r', wk_journal w' !! j = Some r' ∧ jr_state r' = Completed ∧ jr_pending_event r' = None)
    ∧ wk_tasks w' = delete j (wk_tasks w) ∧ rt_cancellations (wk_runtime w') !! j = None
    ∧ wd_permits (wk_world w') = wd_permits (wk_world w).
Proof.
  intros j Ht Hc Hst Hpe Hid Hn0 Hn Hperm Henv Hcall Hf. set (now := 0%Z). set (p := "p").
  destruct (reaches_permit w j (wk_world w) r slot n) as (world1 & q1 & Hc1 & Hp1 & H1); [done..|lia|].
  destruct (reaches_prompt w j world1 _ (n + 1) env names workflow Hc1) as (world2 & Hc2 & Hp2 & H2);
    [done|done|lia|done|done|].
  destruct (reaches_outputs w j world2 _ (n + 1) p outputs Hc2) as (world3 & Hc3 & Hp3 & H3); [done|lia|lia|].
  assert (Hn3 : (0 ≤ n + 1 + 2 < u64_max)%Z) by lia.
  destruct (outputs_uploaded w j now p outputs (n + 1 + 2) _ 0 world3 _ Hf Hn3 eq_refl Hc3)
    as (world4 & q4 & Hc4 & Hp4 & H4).
  assert (H34 : leads (place w j world3 (mkTask (with_state Uploading (with_state Running (with_state Accepted r))) (n + 1 + 2)
      SlotActive true (AtOutputDir p outputs))) [] (settle w j (next_output journal_text world3
      (mkTask (with_state Uploading (with_state Running (with_state Accepted r))) (n + 1 + 2) SlotActive true
        (AtOutputDir p outputs)) now p 0 outputs))).
  { by apply (leads_task w j world3 _ now (DirCreated (Ok tt))). }
  pose proof (leads_trans _ _ _ _ _ H1 (leads_trans _ _ _ _ _ H2 (leads_trans _ _ _ _ _ H3
    (leads_trans _ _ _ _ _ H34 H4)))) as (ls & Hrun & Hw).
  assert (Hplace : place w j (wk_world w) (spawned r slot) = w).
  { destruct w as [world tasks]. unfold place. simpl in *. by rewrite insert_id. }
  rewrite Hplace in Hrun. eexists ls, _. split; [exact Hrun|]. split; [rewrite Hw, Nat.sub_0_r; done|].
  destruct Hc4 as [_ _ (r4 & Hr4 & Hs4 & Hpe4 & _) Hj4 _]. simpl in *. split_and!; [by exists r4|done| |lia].
  unfold wk_runtime. simpl. unfold tk_job. simpl. apply lookup_delete_eq.
Qed.
End completion.

(** ** Witnesses *)
Module CompletionExample.
Import Rfc6901.

Definition record : JobRecord := JobRecord_received WorkerExample.dispatch.

(** The download of the input answers with its one byte, and ComfyUI keeps the
    name of the upload. *)
Definition env : InputEnv :=
  mkInputEnv (Ok tt) (λ _, false) (λ _, (-1)%Z) (λ _, Ok (mkResponse 200 [Ok "x"])) (λ _ name _, Ok name).
Definition outputs : list OutputRef := [mkOutputRef "a.png" "" "output" "image/png"].
Definition workflow : Json :=
  match WorkflowService_call CatalogExample.catalog (mkRenderWorkflow WorkerExample.dispatch ["000-j-a.png"]) with
  | Ok w => w
  | Err _ => JNull
  end.

Lemma accepted_calm : calm "j" (wk_world WorkerExample.accepted) (spawned record SlotQueued) Received 0.
Proof. split; try reflexivity. exists record. split_and!; vm_compute; reflexivity. Qed.
End CompletionExample.
Import Rfc6901.

Lemma job_runs_to_completion_witness :
  ∃ ls w', WorkerExample.ex_run WorkerExample.accepted ls w'
    ∧ written ls = [WroteEvent EvAccepted; WroteEvent EvRunning; WroteEvent EvUploading; WroteReady; WroteUploaded;
                    WroteEvent EvCompleted].
Proof.
  destruct (job_runs_to_completion WorkerExample.digest CatalogExample.catalog 1024 WorkerExample.text
    WorkerExample.text "ns" "node" "1" 1 1 ∅ WorkerExample.accepted CompletionExample.record SlotQueued
    CompletionExample.env ["000-j-a.png"] CompletionExample.workflow CompletionExample.outputs 0)
    as (ls & w' & Hr & Hw & _).
  - vm_compute. reflexivity.
  - exact CompletionExample.accepted_calm.
  - reflexivity.
  - reflexivity.
  - reflexivity.
  - lia.
  - unfold u64_max. lia.
  - vm_compute. reflexivity.
  - vm_compute. reflexivity.
  - vm_compute. reflexivity.
  - intros i o _. exists (mkResponse 200 [Ok "x"]). eexists. vm_compute. reflexivity.
  - by exists ls, w'.
Defined.
