(* ===== verification/Octets.v ===== *)
(** Byte strings as the wire carries them: lists of bytes, and the little- and
    big-endian forms of machine integers with their round trips. *)

From S2P Require Import Prelude.
From Stdlib Require Import ZArith Lia Strings.Byte.

Abbreviation Octets := (list Byte.byte).

#[export] Instance byte_eq_dec : EqDecision Byte.byte := Byte.byte_eq_dec.

(** ** Bytes as integers *)

Definition byte_value (b : Byte.byte) : Z := Z.of_N (Byte.to_N b).
(** [as u8]. *)
Definition byte_of_Z (z : Z) : Byte.byte := default x00 (Byte.of_N (Z.to_N (z `mod` 256))).

Lemma byte_value_range b : (0 ≤ byte_value b < 256)%Z.
Proof. unfold byte_value. pose proof (Byte.to_N_bounded b). lia. Qed.

Lemma byte_value_of_Z z : byte_value (byte_of_Z z) = (z `mod` 256)%Z.
Proof.
  unfold byte_value, byte_of_Z. pose proof (Z.mod_pos_bound z 256 ltac:(lia)) as Hz.
  destruct (Byte.of_N _) as [b|] eqn:Hb; simpl.
  - apply Byte.to_of_N in Hb. rewrite Hb. lia.
  - apply Byte.of_N_None_iff in Hb. lia.
Qed.

Lemma byte_of_Z_value b : byte_of_Z (byte_value b) = b.
Proof.
  unfold byte_of_Z. rewrite Z.mod_small by apply byte_value_range. unfold byte_value.
  by rewrite N2Z.id, Byte.of_to_N.
Qed.

(** ** Integers as bytes *)

(** [to_le_bytes] of an integer of [n] bytes; higher bits are cut off. *)
Fixpoint le_bytes (n : nat) (z : Z) : Octets :=
  match n with
  | 0 => []
  | S n => byte_of_Z z :: le_bytes n (z / 256)
  end.

Fixpoint le_value (bs : Octets) : Z :=
  match bs with
  | [] => 0
  | b :: bs => byte_value b + 256 * le_value bs
  end.

Definition be_bytes (n : nat) (z : Z) : Octets := reverse (le_bytes n z).
Definition be_value (bs : Octets) : Z := le_value (reverse bs).

Lemma length_le_bytes n z : length (le_bytes n z) = n.
Proof. revert z. induction n as [|n IH]; intros z; simpl; [done|]. by rewrite IH. Qed.

Lemma length_be_bytes n z : length (be_bytes n z) = n.
Proof. unfold be_bytes. by rewrite length_reverse, length_le_bytes. Qed.

Lemma le_value_bytes n z : le_value (le_bytes n z) = (z `mod` 256 ^ Z.of_nat n)%Z.
Proof.
  revert z. induction n as [|n IH]; intros z; simpl le_bytes; simpl le_value.
  - by rewrite Z.mod_1_r.
  - rewrite IH, byte_value_of_Z, Nat2Z.inj_succ, Z.pow_succ_r by lia.
    rewrite Z.rem_mul_r by lia. done.
Qed.

Lemma be_value_bytes n z : be_value (be_bytes n z) = (z `mod` 256 ^ Z.of_nat n)%Z.
Proof. unfold be_value, be_bytes. by rewrite reverse_involutive, le_value_bytes. Qed.

Lemma le_value_range bs : (0 ≤ le_value bs < 256 ^ Z.of_nat (length bs))%Z.
Proof.
  induction bs as [|b bs IH]; simpl le_value; [done|]. pose proof (byte_value_range b).
  simpl length. rewrite Nat2Z.inj_succ, Z.pow_succ_r by lia. lia.
Qed.

Lemma be_value_range bs : (0 ≤ be_value bs < 256 ^ Z.of_nat (length bs))%Z.
Proof. unfold be_value. rewrite <- length_reverse. apply le_value_range. Qed.

Lemma le_bytes_value bs : le_bytes (length bs) (le_value bs) = bs.
Proof.
  induction bs as [|b bs IH]; simpl; [done|]. pose proof (byte_value_range b) as Hb.
  assert (Hmod : byte_of_Z (byte_value b + 256 * le_value bs) = b).
  { rewrite <- (byte_of_Z_value b) at 2. unfold byte_of_Z.
    replace (byte_value b + 256 * le_value bs)%Z with (byte_value b + le_value bs * 256)%Z by lia.
    by rewrite Z.mod_add. }
  rewrite Hmod. f_equal.
  assert (Hdiv : ((byte_value b + 256 * le_value bs) / 256)%Z = le_value bs).
  { symmetry. apply (Z.div_unique _ _ _ (byte_value b)); lia. }
  by rewrite Hdiv.
Qed.

Lemma be_bytes_value bs : be_bytes (length bs) (be_value bs) = bs.
Proof.
  unfold be_bytes, be_value. rewrite <- (length_reverse bs), le_bytes_value. apply reverse_involutive.
Qed.

(** Integers of eight and four bytes. *)
Lemma u64_round_trip z : (0 ≤ z ≤ u64_max)%Z → le_value (le_bytes 8 z) = z.
Proof. intros Hz. rewrite le_value_bytes, Z.mod_small; [done|]. unfold u64_max in Hz. lia. Qed.

Lemma u32_round_trip z : (0 ≤ z ≤ u32_max)%Z → be_value (be_bytes 4 z) = z.
Proof. intros Hz. rewrite be_value_bytes, Z.mod_small; [done|]. unfold u32_max in Hz. lia. Qed.

#[global] Opaque le_bytes byte_of_Z.
