(* ===== verification/Codec.v ===== *)
(** Control framing ([nagisalake-transport/src/codec.rs]): one JSON document per
    line, over a tunnel that delivers bytes in pieces of its own.

    The tunnel is an argument: what each read returns, and how many bytes each
    write takes.  So are the serializer and the parser, with their laws as a
    class.

    Main results: how the bytes are cut into reads does not matter, and the scan
    that resumes where the last one stopped finds the frames a scan from the
    start would; the messages sent arrive, in order and once; the buffer and the
    frames are bounded. *)

From S2P Require Import Prelude Text Json Messages Validate Octets.
From Stdlib Require Import Lia.
From Stdlib Require Import Strings.Byte.

Definition is_newline (b : Byte.byte) : bool := Byte.eqb b x0a.

(** [u8::is_ascii_whitespace]. *)
Definition is_ascii_whitespace (b : Byte.byte) : bool :=
  match b with x09 | x0a | x0c | x0d | x20 => true | _ => false end.

(** The transport's errors; those of libraries are their texts. *)
Inductive TransportError :=
| TrInvalidConfig (m : string)
| TrUnsupportedUrl (url : string)
| TrTls (e : string)
| TrFrameTooLarge (actual limit : nat)
| TrClosed
| TrConnectTimeout
| TrUnexpectedSubprotocol
| TrUnexpectedTextFrame
| TrValidation (e : ValidationError)
| TrSerialization (e : string)
| TrTunnel (e : string)
| TrWebSocket (e : string)
| TrWebSocketRequest (e : string)
| TrIo (e : string)
| TrAxumWebSocket (e : string)
| TrProxy (e : string).

Definition READ_CHUNK_BYTES : nat := 8 * 1024.

Record JsonLineCodec := mkJsonLineCodec {
  jl_read_buffer : Octets;
  jl_scan_offset : nat;
  jl_max_frame_bytes : nat;
}.

Definition JsonLineCodec_new (max_frame_bytes : nat) : Res TransportError JsonLineCodec :=
  if (max_frame_bytes =? 0)%nat then Err (TrInvalidConfig "max_frame_bytes must be greater than zero")
  else Ok (mkJsonLineCodec [] 0 max_frame_bytes).

(** The length of the staging buffer. *)
Definition read_chunk_len (max_frame_bytes : nat) : nat := Nat.max 1 (Nat.min max_frame_bytes READ_CHUNK_BYTES).

(** ** Receiving *)

(** What the buffer has: a frame that is not blank, too many bytes, or too few. *)
Inductive Scan :=
| Found (frame : Octets) (c : JsonLineCodec)
| Oversized (actual : nat) (c : JsonLineCodec)
| NeedRead (c : JsonLineCodec).

(** The loop up to a read; blank lines are passed over.  Each turn takes a
    line, so the buffer's length is fuel enough. *)
Fixpoint scan (fuel : nat) (c : JsonLineCodec) : Scan :=
  let buffer := jl_read_buffer c in
  let max := jl_max_frame_bytes c in
  match position is_newline (drop (jl_scan_offset c) buffer) with
  | Some offset =>
      let position := jl_scan_offset c + offset in
      if (max <? position)%nat then Oversized position c
      else
        let frame := take position buffer in
        let c' := mkJsonLineCodec (drop (S position) buffer) 0 max in
        if forallb is_ascii_whitespace frame
        then match fuel with 0 => NeedRead c' | S fuel => scan fuel c' end
        else Found frame c'
  | None =>
      let c' := mkJsonLineCodec buffer (length buffer) max in
      if (max <? length buffer)%nat then Oversized (length buffer) c' else NeedRead c'
  end.

Section receiving.
Context {T : Type} (from_slice : Octets → Res string T).

Definition decoded (frame : Octets) : Res TransportError (option T) :=
  match from_slice frame with Ok m => Ok (Some m) | Err e => Err (TrSerialization e) end.

(** The read that returns nothing: the end of the stream. *)
Definition at_end (c : JsonLineCodec) : Res TransportError (option T) * JsonLineCodec :=
  let buffer := jl_read_buffer c in
  let max := jl_max_frame_bytes c in
  match buffer with
  | [] => (Ok None, c)
  | _ => if (max <? length buffer)%nat then (Err (TrFrameTooLarge (length buffer) max), c)
         else (decoded buffer, mkJsonLineCodec [] 0 max)
  end.

Definition extended (c : JsonLineCodec) (chunk : Octets) : JsonLineCodec :=
  mkJsonLineCodec (jl_read_buffer c ++ chunk) (jl_scan_offset c) (jl_max_frame_bytes c).

(** [input] is what the reads of the tunnel return; nothing is the end. *)
Fixpoint receive (c : JsonLineCodec) (input : list (Res string Octets))
    : Res TransportError (option T) * JsonLineCodec * list (Res string Octets) :=
  match scan (length (jl_read_buffer c)) c with
  | Found frame c' => (decoded frame, c', input)
  | Oversized actual c' => (Err (TrFrameTooLarge actual (jl_max_frame_bytes c')), c', input)
  | NeedRead c' =>
      match input with
      | [] => (at_end c', [])
      | Ok [] :: rest => (at_end c', rest)
      | Ok chunk :: rest => receive (extended c' chunk) rest
      | Err e :: rest => (Err (TrTunnel e), c', rest)
      end
  end.
End receiving.

(** ** Sending *)

Section sending.
Context {T : Type} (to_vec : T → Res string Octets).
(** The tunnel: how many bytes the n-th write takes, and the flush. *)
Context (write : nat → Octets → Res string nat) (flush : Res string unit).

(** The bytes that went out, and the number of writes. *)
Fixpoint write_loop (fuel calls : nat) (pending : Octets) : Res TransportError unit * Octets * nat :=
  match pending, fuel with
  | [], _ | _, 0 => (Ok tt, [], calls)
  | _, S fuel =>
      match write calls pending with
      | Err e => (Err (TrTunnel e), [], S calls)
      | Ok 0 => (Err TrClosed, [], S calls)
      | Ok count =>
          let '(r, out, n) := write_loop fuel (S calls) (drop count pending) in
          (r, take count pending ++ out, n)
      end
  end.

Definition codec_send (max_frame_bytes calls : nat) (message : T) : Res TransportError unit * Octets * nat :=
  match to_vec message with
  | Err e => (Err (TrSerialization e), [], calls)
  | Ok buffer =>
      if (max_frame_bytes <? length buffer)%nat
      then (Err (TrFrameTooLarge (length buffer) max_frame_bytes), [], calls)
      else
        let frame := buffer ++ [x0a] in
        match write_loop (length frame) calls frame with
        | (Ok _, out, n) => (match flush with Ok _ => Ok tt | Err e => Err (TrTunnel e) end, out, n)
        | r => r
        end
  end.
End sending.

(** ** The typed ends of the control stream

    [WorkerControl] sends worker messages and receives the Hub's, [HubControl]
    the other way round. *)
Section control.
Context {Out In : Type} `{!Validate Out, !Validate In}.
Context (to_vec : Out → Res string Octets) (from_slice : Octets → Res string In).
Context (write : nat → Octets → Res string nat) (flush : Res string unit).

Definition control_send (max_frame_bytes calls : nat) (message : Out) : Res TransportError unit * Octets * nat :=
  match validate message with
  | Err e => (Err (TrValidation e), [], calls)
  | Ok _ => codec_send to_vec write flush max_frame_bytes calls message
  end.

Definition control_receive (c : JsonLineCodec) (input : list (Res string Octets))
    : Res TransportError (option In) * JsonLineCodec * list (Res string Octets) :=
  match receive from_slice c input with
  | (Ok (Some message), c', input') =>
      (match validate message with Ok _ => Ok (Some message) | Err e => Err (TrValidation e) end, c', input')
  | r => r
  end.
End control.

(** ** The reference: frames of a whole stream *)

(** What comes next in a stream, whatever its cuts: its first line that is not
    blank, if it fits; a last line needs no newline. *)
Inductive Next :=
| NextFrame (frame rest : Octets)
| NextOversized
| NextLast (frame : Octets)
| NextEnd.

(** [acc] is the line read so far. *)
Fixpoint next (max : nat) (acc bs : Octets) : Next :=
  match bs with
  | [] =>
      match acc with
      | [] => NextEnd
      | _ => if (max <? length acc)%nat then NextOversized else NextLast acc
      end
  | b :: bs =>
      if is_newline b then
        if (max <? length acc)%nat then NextOversized
        else if forallb is_ascii_whitespace acc then next max [] bs
        else NextFrame acc bs
      else next max (acc ++ [b]) bs
  end.

Definition no_newline (l : Octets) : Prop := Forall (λ b, is_newline b = false) l.

Lemma next_line max acc l bs : no_newline l → next max acc (l ++ bs) = next max (acc ++ l) bs.
Proof.
  intros Hl. revert acc. induction Hl as [|b l Hb _ IH]; intros acc; simpl; [by rewrite app_nil_r|].
  rewrite Hb, IH, <- app_assoc. done.
Qed.

Lemma next_oversized max acc bs : max < length acc → next max acc bs = NextOversized.
Proof.
  revert acc. induction bs as [|b bs IH]; intros acc Hlen; simpl.
  - destruct acc; [simpl in Hlen; lia|]. by apply Nat.ltb_lt in Hlen as ->.
  - destruct (is_newline b); [by apply Nat.ltb_lt in Hlen as ->|]. apply IH. rewrite length_app. lia.
Qed.

(** A line of the buffer. *)
Lemma next_first max l bs :
  no_newline l →
  next max [] (l ++ x0a :: bs) =
    if (max <? length l)%nat then NextOversized
    else if forallb is_ascii_whitespace l then next max [] bs else NextFrame l bs.
Proof. intros Hl. by rewrite next_line. Qed.

Lemma position_None {A} (f : A → bool) l : position f l = None → Forall (λ x, f x = false) l.
Proof.
  induction l as [|x l IH]; simpl; [constructor|]. destruct (f x) eqn:Hx; [done|].
  destruct (position f l); [done|]. intros _. constructor; [done|by apply IH].
Qed.

Lemma position_split {A} (f : A → bool) l i :
  position f l = Some i → ∃ x, l = take i l ++ x :: drop (S i) l ∧ f x = true ∧ Forall (λ x, f x = false) (take i l).
Proof.
  intros Hp. apply position_Some in Hp as [(x & Hx & Hfx) Hlt]. exists x. split_and!; [|done|].
  - by rewrite take_drop_middle.
  - apply Forall_lookup. intros j y Hj. apply lookup_take_Some in Hj as [Hj ?]. by eapply Hlt.
Qed.

(** What is before the offset was scanned. *)
Record codec_wf (c : JsonLineCodec) : Prop := {
  cw_offset : jl_scan_offset c ≤ length (jl_read_buffer c);
  cw_scanned : no_newline (take (jl_scan_offset c) (jl_read_buffer c));
}.

(** Resuming the search finds the first newline of the whole buffer. *)
Lemma resumed_found c offset :
  codec_wf c → position is_newline (drop (jl_scan_offset c) (jl_read_buffer c)) = Some offset →
  let p := jl_scan_offset c + offset in
  jl_read_buffer c = take p (jl_read_buffer c) ++ x0a :: drop (S p) (jl_read_buffer c)
  ∧ no_newline (take p (jl_read_buffer c)).
Proof.
  intros [Hlen Hs] Hp. apply position_split in Hp as (x & Heq & Hx & Hno). simpl.
  set (buf := jl_read_buffer c) in *. set (k := jl_scan_offset c) in *.
  apply Byte.byte_dec_bl in Hx as ->.
  assert (Hbuf : buf = take k buf ++ take offset (drop k buf) ++ x0a :: drop (S offset) (drop k buf)).
  { by rewrite <- Heq, take_drop. }
  assert (Htake : take (k + offset) buf = take k buf ++ take offset (drop k buf)).
  { by rewrite take_take_drop. }
  rewrite Htake. split; [|by apply Forall_app]. rewrite <- app_assoc. rewrite drop_drop in Hbuf.
  by replace (S (k + offset)) with (k + S offset) by lia.
Qed.

Lemma resumed_none c :
  codec_wf c → position is_newline (drop (jl_scan_offset c) (jl_read_buffer c)) = None → no_newline (jl_read_buffer c).
Proof.
  intros [Hlen Hs] Hp%position_None. rewrite <- (take_drop (jl_scan_offset c) (jl_read_buffer c)).
  by apply Forall_app.
Qed.

Lemma scan_none c :
  no_newline (jl_read_buffer c) →
  let max := jl_max_frame_bytes c in
  let c' := mkJsonLineCodec (jl_read_buffer c) (length (jl_read_buffer c)) max in
  if (max <? length (jl_read_buffer c))%nat
  then (∀ more, next max [] (jl_read_buffer c ++ more) = NextOversized) ∧ jl_max_frame_bytes c' = max
    ∧ length (jl_read_buffer c') ≤ length (jl_read_buffer c)
  else (∀ more, next max [] (jl_read_buffer c ++ more) = next max [] (jl_read_buffer c' ++ more))
    ∧ codec_wf c' ∧ jl_max_frame_bytes c' = max ∧ no_newline (jl_read_buffer c') ∧ length (jl_read_buffer c') ≤ max.
Proof.
  intros Hno max c'. destruct (max <? length (jl_read_buffer c))%nat eqn:Hm.
  - split_and!; [|done|done]. intros more. rewrite next_line by done. apply next_oversized. by apply Nat.ltb_lt.
  - apply Nat.ltb_ge in Hm. split_and!; [done| |done|done|done]. split; simpl; [done|].
    rewrite take_ge by done. exact Hno.
Qed.

(** The scan of the buffer against the reference, whatever follows. *)
Lemma scan_spec fuel c :
  codec_wf c → length (jl_read_buffer c) ≤ fuel →
  let max := jl_max_frame_bytes c in
  match scan fuel c with
  | Found frame c' =>
      (∀ more, next max [] (jl_read_buffer c ++ more) = NextFrame frame (jl_read_buffer c' ++ more))
      ∧ codec_wf c' ∧ jl_max_frame_bytes c' = max ∧ length frame ≤ max
      ∧ length (jl_read_buffer c') ≤ length (jl_read_buffer c)
  | Oversized actual c' => (∀ more, next max [] (jl_read_buffer c ++ more) = NextOversized) ∧ jl_max_frame_bytes c' = max
      ∧ length (jl_read_buffer c') ≤ length (jl_read_buffer c)
  | NeedRead c' =>
      (∀ more, next max [] (jl_read_buffer c ++ more) = next max [] (jl_read_buffer c' ++ more))
      ∧ codec_wf c' ∧ jl_max_frame_bytes c' = max ∧ no_newline (jl_read_buffer c') ∧ length (jl_read_buffer c') ≤ max
  end.
Proof.
  revert c. induction fuel as [|fuel IH]; intros c Hwf Hlen max; simpl;
    (destruct (position _ _) as [offset|] eqn:Hp; [|pose proof (resumed_none c Hwf Hp) as Hno; fold max]).
  - assert (jl_read_buffer c = []) as Hnil by (apply nil_length_inv; lia). by rewrite Hnil, drop_nil in Hp.
  - pose proof (scan_none c Hno) as H0. cbv zeta in H0. fold max in H0. destruct (max <? _)%nat; exact H0.
  - destruct (resumed_found c offset Hwf Hp) as [Hbuf Hno]. set (p := jl_scan_offset c + offset) in *. fold max.
    set (c' := mkJsonLineCodec (drop (S p) (jl_read_buffer c)) 0 max).
    assert (Hp' : length (take p (jl_read_buffer c)) = p).
    { apply (f_equal length) in Hbuf. rewrite length_app, length_cons, length_take, length_drop in Hbuf.
      rewrite length_take. lia. }
    assert (Hnext : ∀ more, next max [] (jl_read_buffer c ++ more) =
      if (max <? p)%nat then NextOversized
      else if forallb is_ascii_whitespace (take p (jl_read_buffer c)) then next max [] (jl_read_buffer c' ++ more)
      else NextFrame (take p (jl_read_buffer c)) (jl_read_buffer c' ++ more)).
    { intros more. rewrite Hbuf at 1. rewrite <- app_assoc. simpl. rewrite next_first by done. by rewrite Hp'. }
    assert (Hlen' : length (jl_read_buffer c') < length (jl_read_buffer c)).
    { apply (f_equal length) in Hbuf. rewrite length_app, length_cons in Hbuf. simpl. lia. }
    assert (Hwf' : codec_wf c') by (split; [simpl; lia|constructor]).
    destruct (max <? p)%nat eqn:Hmax; [by split_and!|].
    destruct (forallb _ _) eqn:Hblank.
    + specialize (IH c' Hwf' ltac:(lia)). simpl in IH. fold max in IH.
      destruct (scan fuel c') as [frame c1|actual c1|c1]; split_and!; try (by destruct IH as (? & ? & ? & ? & ?));
        try (intros more; rewrite Hnext; by apply IH); destruct IH as (? & ? & ? ); try lia.
      all: naive_solver lia.
    + split_and!; [done|done|done|rewrite Hp'; apply Nat.ltb_ge in Hmax; lia|lia].
  - pose proof (scan_none c Hno) as H0. cbv zeta in H0. fold max in H0. destruct (max <? _)%nat; exact H0.
Qed.

(** ** Receiving is independent of the cuts *)
Section receive_spec.
Context {T : Type} (from_slice : Octets → Res string T).
#[local] Abbreviation receive := (receive from_slice).
#[local] Abbreviation decoded := (decoded from_slice).

Definition pieces (chunks : list Octets) : list (Res string Octets) := Ok <$> chunks.

Lemma wf_extended c chunk : codec_wf c → codec_wf (extended c chunk).
Proof.
  intros [Hlen Hs]. split; simpl; [rewrite length_app; lia|]. by rewrite take_app_le.
Qed.

Lemma receive_framing c chunks :
  codec_wf c → Forall (.≠ []) chunks →
  let max := jl_max_frame_bytes c in
  match next max [] (jl_read_buffer c ++ concat chunks) with
  | NextFrame frame rest =>
      ∃ c' chunks', receive c (pieces chunks) = (decoded frame, c', pieces chunks')
        ∧ codec_wf c' ∧ jl_max_frame_bytes c' = max ∧ chunks' `suffix_of` chunks
        ∧ jl_read_buffer c' ++ concat chunks' = rest
  | NextOversized => ∃ actual c' input, receive c (pieces chunks) = (Err (TrFrameTooLarge actual max), c', input)
  | NextLast frame => ∃ c', receive c (pieces chunks) = (decoded frame, c', []) ∧ jl_read_buffer c' = []
  | NextEnd => ∃ c', receive c (pieces chunks) = (Ok None, c', []) ∧ jl_read_buffer c' = []
  end.
Proof.
  intros Hwf Hne. revert c Hwf. induction Hne as [|chunk chunks Hchunk Hne IH]; intros c Hwf max; simpl;
    pose proof (scan_spec (length (jl_read_buffer c)) c Hwf (le_n _)) as Hs; cbv zeta in Hs; fold max in Hs;
    destruct (scan _ c) as [frame c'|actual c'|c'].
  - destruct Hs as (Hn & Hwf' & Hmax & _). rewrite Hn. exists c', []. by split_and!.
  - destruct Hs as (Hn & Hmax & _). rewrite Hn. exists actual, c', []. by rewrite Hmax.
  - destruct Hs as (Hn & Hwf' & Hmax & Hno & Hlen). rewrite Hn, next_line by done. simpl.
    unfold at_end. destruct (jl_read_buffer c') as [|b buf] eqn:Hb; [by exists c'|].
    rewrite Hmax. destruct (max <? length (b :: buf))%nat eqn:Hm; [apply Nat.ltb_lt in Hm; lia|]. by eexists.
  - destruct Hs as (Hn & Hwf' & Hmax & _). rewrite Hn. by exists c', (chunk :: chunks).
  - destruct Hs as (Hn & Hmax & _). rewrite Hn. exists actual, c', (pieces (chunk :: chunks)). by rewrite Hmax.
  - destruct Hs as (Hn & Hwf' & Hmax & Hno & Hlen). rewrite Hn.
    destruct chunk as [|b chunk]; [done|]. specialize (IH (extended c' (b :: chunk)) (wf_extended _ _ Hwf')).
    cbv zeta in IH. simpl in IH. rewrite Hmax, <- app_assoc in IH. simpl in IH.
    destruct (next max [] _) as [frame rest| |frame|]; try done.
    destruct IH as (c1 & chunks' & ? & ? & ? & Hsuf & ?). exists c1, chunks'. split_and!; [done..| |done].
    by apply suffix_cons_r.
Qed.

(** The decoder implements the framing: whatever the cuts of the stream into
    reads, and wherever the search for a newline resumes, a call returns what
    the bytes determine: the first line that is not blank, an error for a line
    over the limit, the unterminated last line, or the end; and what it leaves
    is the rest of the stream. *)
Theorem receive_refines_framing c chunks :
  codec_wf c → Forall (.≠ []) chunks →
  let max := jl_max_frame_bytes c in
  match next max [] (jl_read_buffer c ++ concat chunks) with
  | NextFrame frame rest =>
      ∃ c' chunks', receive c (pieces chunks) = (decoded frame, c', pieces chunks')
        ∧ codec_wf c' ∧ jl_max_frame_bytes c' = max ∧ chunks' `suffix_of` chunks
        ∧ jl_read_buffer c' ++ concat chunks' = rest
  | NextOversized => ∃ actual c' input, receive c (pieces chunks) = (Err (TrFrameTooLarge actual max), c', input)
  | NextLast frame => ∃ c', receive c (pieces chunks) = (decoded frame, c', []) ∧ jl_read_buffer c' = []
  | NextEnd => ∃ c', receive c (pieces chunks) = (Ok None, c', []) ∧ jl_read_buffer c' = []
  end.
Proof. apply receive_framing. Qed.

(** Frames and memory are bounded whatever the peer sends: with reads no
    larger than the staging buffer, the read buffer holds at most one frame and
    one read, over any calls and outcomes, and a message that is delivered was
    parsed from at most [max_frame_bytes] bytes. *)
Theorem receive_bounded c input :
  let max := jl_max_frame_bytes c in
  codec_wf c → length (jl_read_buffer c) ≤ max + read_chunk_len max →
  Forall (λ r, ∀ chunk, r = Ok chunk → length chunk ≤ read_chunk_len max) input →
  let '(r, c', input') := receive c input in
  length (jl_read_buffer c') ≤ max + read_chunk_len max ∧ jl_max_frame_bytes c' = max
  ∧ ∀ m, r = Ok (Some m) → ∃ frame, from_slice frame = Ok m ∧ length frame ≤ max.
Proof.
  intros max Hwf Hlen Hin. revert c max Hwf Hlen Hin.
  assert (Hdec : ∀ frame m, decoded frame = Ok (Some m) → from_slice frame = Ok m).
  { intros frame m. unfold Codec.decoded. destruct (from_slice frame); [|done]. by intros [= ->]. }
  assert (Hend : ∀ c input' max, jl_max_frame_bytes c = max → length (jl_read_buffer c) ≤ max →
    let '(r, c', _) := (at_end from_slice c, input' : list (Res string Octets)) in
    length (jl_read_buffer c') ≤ max + read_chunk_len max ∧ jl_max_frame_bytes c' = max
    ∧ ∀ m, r = Ok (Some m) → ∃ frame, from_slice frame = Ok m ∧ length frame ≤ max).
  { intros c input' max Hmax Hl. unfold at_end. destruct (jl_read_buffer c) as [|b buf] eqn:Hb; [rewrite Hb; by split_and!; [simpl; lia|..]|].
    destruct (_ <? _)%nat; [rewrite Hb; split_and!; [lia|done|done]|]. simpl. split_and!; [lia|done|].
    intros m Hm%Hdec. by exists (b :: buf). }
  induction input as [|r input IH]; intros c max Hwf Hlen Hin; simpl;
    pose proof (scan_spec (length (jl_read_buffer c)) c Hwf (le_n _)) as Hs; cbv zeta in Hs; fold max in Hs;
    destruct (scan _ c) as [frame c'|actual c'|c'].
  1, 4: destruct Hs as (_ & _ & ? & Hf & ?); split_and!; [lia|done|]; intros m Hm%Hdec; by exists frame.
  1, 3: destruct Hs as (_ & ? & ?); by split_and!; [lia|..].
  - destruct Hs as (_ & _ & Hmax & _ & Hl). exact (Hend c' [] max Hmax Hl).
  - destruct Hs as (_ & Hwf' & Hmax & _ & Hl). apply Forall_cons in Hin as [Hr Hin'].
    destruct r as [[|b chunk]|e]; [exact (Hend c' input max Hmax Hl)| |split_and!; [lia|done|done]].
    specialize (IH (extended c' (b :: chunk)) (wf_extended _ _ Hwf')). cbv zeta in IH.
    change (jl_max_frame_bytes (extended c' (b :: chunk))) with (jl_max_frame_bytes c') in IH. rewrite Hmax in IH.
    apply IH; [|done]. simpl. rewrite length_app. specialize (Hr _ eq_refl). lia.
Qed.
End receive_spec.

(** ** Round trip *)

(** What the codec relies on: the serializer writes one line that is not blank,
    and the parser reads it back. *)
Class Serde (T : Type) := {
  to_vec : T → Res string Octets;
  from_slice : Octets → Res string T;
}.
Class SerdeLaws (T : Type) `{!Serde T} : Prop := {
  serde_round_trip (m : T) b : to_vec m = Ok b → from_slice b = Ok m;
  serde_one_line (m : T) b : to_vec m = Ok b → no_newline b;
  serde_not_blank (m : T) b : to_vec m = Ok b → forallb is_ascii_whitespace b = false;
}.

Section round_trip.
Context {T : Type} `{!Serde T, !SerdeLaws T, !Validate T}.
Context (write : nat → Octets → Res string nat) (flush : Res string unit).
Context (max_send max_receive : nat).

(** The bytes of messages that were all sent. *)
Fixpoint send_all (calls : nat) (ms : list T) : option Octets :=
  match ms with
  | [] => Some []
  | m :: ms =>
      match control_send to_vec write flush max_send calls m with
      | (Ok _, out, n) => app out <$> send_all n ms
      | _ => None
      end
  end.

(** The answers of [n] calls. *)
Fixpoint receive_all (n : nat) (c : JsonLineCodec) (input : list (Res string Octets))
    : list (Res TransportError (option T)) :=
  match n with
  | 0 => []
  | S n => let '(r, c', input') := control_receive from_slice c input in r :: receive_all n c' input'
  end.

Lemma write_loop_whole fuel calls pending out n :
  length pending ≤ fuel → write_loop write fuel calls pending = (Ok tt, out, n) → out = pending.
Proof.
  revert calls pending out. induction fuel as [|fuel IH]; intros calls pending out Hlen; simpl.
  - destruct pending; [by intros [= <- _]|simpl in Hlen; lia].
  - destruct pending as [|b pending]; [by intros [= <- _]|].
    destruct (write calls (b :: pending)) as [[|count]|]; [done| |done].
    destruct (write_loop _ _ _ _) as [[r out'] n'] eqn:Hw. intros [= -> <- ->].
    apply IH in Hw as ->; [simpl; by rewrite take_drop|]. rewrite length_drop. simpl in *. lia.
Qed.

Lemma control_send_bytes calls m out n :
  control_send to_vec write flush max_send calls m = (Ok tt, out, n) →
  ∃ b, to_vec m = Ok b ∧ out = b ++ [x0a] ∧ length b ≤ max_send ∧ validate m = Ok tt.
Proof.
  unfold control_send, codec_send. destruct (validate m) as [[]|]; [|done].
  destruct (to_vec m) as [b|]; [|done]. destruct (max_send <? length b)%nat eqn:Hm; [done|].
  destruct (write_loop _ _ _ _) as [[[[]|] out'] n'] eqn:Hw; [|done].
  destruct flush; [|done]. intros [= <- <-]. exists b. apply write_loop_whole in Hw as ->; [|done].
  apply Nat.ltb_ge in Hm. by split_and!.
Qed.

Lemma receive_sent c chunks ms calls out :
  codec_wf c → jl_max_frame_bytes c = max_receive → max_send ≤ max_receive → Forall (.≠ []) chunks →
  send_all calls ms = Some out → jl_read_buffer c ++ concat chunks = out →
  receive_all (S (length ms)) c (pieces chunks) = ((λ m, Ok (Some m)) <$> ms) ++ [Ok None].
Proof.
  intros Hwf Hmax Hle. revert c chunks calls out Hwf Hmax.
  induction ms as [|m ms IH]; intros c chunks calls out Hwf Hmax Hne Hsend Hbytes;
    pose proof (receive_framing from_slice c chunks Hwf Hne) as Hr; cbv zeta in Hr; rewrite Hmax, Hbytes in Hr.
  - injection Hsend as <-. simpl in Hr. destruct Hr as (c' & Hr & _). simpl. unfold control_receive. by rewrite Hr.
  - simpl in Hsend. destruct (control_send _ _ _ _ _ _) as [[[[]|] out1] n1] eqn:Hs; [|done].
    apply fmap_Some in Hsend as (out' & Hrest & ->).
    apply control_send_bytes in Hs as (b & Hb & -> & Hlen & Hval).
    rewrite <- app_assoc in Hr. change ([x0a] ++ out') with (x0a :: out') in Hr.
    rewrite next_first in Hr by (by eapply serde_one_line). rewrite (serde_not_blank m b Hb) in Hr.
    destruct (max_receive <? length b)%nat eqn:Hm; [apply Nat.ltb_lt in Hm; lia|].
    destruct Hr as (c' & chunks' & Hr & Hwf' & Hmax' & Hsuf & Hb').
    change (receive_all (S (length (m :: ms))) c (pieces chunks)) with
      (let '(r, c', input') := control_receive from_slice c (pieces chunks) in r :: receive_all (S (length ms)) c' input').
    unfold control_receive. rewrite Hr. unfold decoded. rewrite (serde_round_trip m b Hb), Hval. simpl. f_equal.
    apply (IH c' chunks' n1 out' Hwf'); [congruence| |done|done].
    destruct Hsuf as [pre ->]. by apply Forall_app in Hne as [_ ?].
Qed.

End round_trip.

(** ** Witnesses *)
Module CodecExample.
(** A format that has lines for the answers to pings only. *)
#[export] Instance serde : Serde WorkerMessage := {|
  to_vec m := match m with
              | WPong p => let b := String.list_byte_of_string (pong_nonce p) in
                           if forallb (λ c, negb (is_newline c)) b then Ok (x70 :: b) else Err "newline"
              | _ => Err "unsupported"
              end;
  from_slice b := match b with x70 :: b => Ok (WPong (mkPong (String.string_of_list_byte b))) | _ => Err "syntax" end;
|}.

#[export] Instance serde_laws : SerdeLaws WorkerMessage.
Proof.
  split; intros m b; destruct m as [| | | | | |[nonce]]; try done; simpl;
    (destruct (forallb _ _) eqn:Hf; [|done]); intros [= <-].
  - by rewrite String.string_of_list_byte_of_string.
  - constructor; [done|]. apply Forall_forall. intros c Hc. rewrite forallb_forall in Hf.
    apply list_elem_of_In in Hc. specialize (Hf c Hc). by apply negb_true_iff in Hf.
  - done.
Qed.

Definition codec : JsonLineCodec := mkJsonLineCodec [] 0 16.
Definition messages : list WorkerMessage := [WPong (mkPong "a"); WPong (mkPong "b")].
Definition wire : Octets := [x70; x61; x0a; x70; x62; x0a].
Definition chunks : list Octets := [[x70; x61; x0a; x70]; [x62; x0a]].
End CodecExample.
Import CodecExample.

Lemma receive_refines_framing_witness :
  ∃ c' chunks', receive from_slice CodecExample.codec (pieces CodecExample.chunks)
      = (Ok (Some (WPong (mkPong "a"))), c', pieces chunks')
    ∧ jl_read_buffer c' ++ concat chunks' = [x70; x62; x0a].
Proof.
  assert (Hne : Forall (.≠ []) CodecExample.chunks) by (repeat constructor; discriminate).
  assert (Hwf : codec_wf CodecExample.codec) by (split; [done|constructor]).
  destruct (receive_refines_framing from_slice CodecExample.codec CodecExample.chunks Hwf Hne)
    as (c' & chunks' & Hr & _ & _ & _ & Hb).
  by exists c', chunks'.
Defined.

Lemma receive_bounded_witness :
  let '(r, c', _) := receive from_slice CodecExample.codec (pieces CodecExample.chunks) in
  length (jl_read_buffer c') ≤ 32.
Proof.
  pose proof (receive_bounded from_slice CodecExample.codec (pieces CodecExample.chunks)) as H.
  assert (Hwf : codec_wf CodecExample.codec) by (split; [done|constructor]).
  assert (Hin : Forall (λ r, ∀ chunk, r = Ok chunk → length chunk ≤ read_chunk_len 16) (pieces CodecExample.chunks)).
  { apply Forall_forall. intros r (chunk & -> & Hc)%list_elem_of_fmap chunk' [= <-].
    change (read_chunk_len 16) with 16. unfold CodecExample.chunks in Hc. set_unfold.
    destruct Hc as [->|[->|[]]]; simpl; lia. }
  exact (proj1 (H Hwf (Nat.le_0_l _) Hin)).
Defined.

