(* ===== verification/Frames.v ===== *)
(** The RPC crate's wire format ([nagisalake-rpc/src/protocol.rs], [framing.rs],
    [status.rs], [config.rs]): fixed binary headers in length-prefixed frames,
    one reader and one writer for both directions.

    [Frame] is what a direction's frames promise to the framing; the reader and
    the writer are proved against it, and the client's and the server's frames
    are instances.

    Main results: what is written is what is read, whatever the writer
    coalesces, whatever the queue has ready, and whatever pieces the socket
    delivers; the reader implements the framing of the byte stream, errors
    included. *)

From S2P Require Import Prelude Text Octets.
From Stdlib Require Import ZArith Lia Strings.Byte.

(** ** Status codes ([status.rs]) *)

Inductive Code :=
| CodeCancelled | CodeUnknown | CodeInvalidArgument | CodeDeadlineExceeded | CodeNotFound | CodeAlreadyExists
| CodePermissionDenied | CodeResourceExhausted | CodeFailedPrecondition | CodeUnimplemented | CodeInternal
| CodeUnavailable | CodeUnauthenticated.

#[export] Instance Code_eq_dec : EqDecision Code.
Proof. solve_decision. Defined.

Definition as_wire (c : Code) : Z :=
  match c with
  | CodeCancelled => 1 | CodeUnknown => 2 | CodeInvalidArgument => 3 | CodeDeadlineExceeded => 4
  | CodeNotFound => 5 | CodeAlreadyExists => 6 | CodePermissionDenied => 7 | CodeResourceExhausted => 8
  | CodeFailedPrecondition => 9 | CodeUnimplemented => 10 | CodeInternal => 13 | CodeUnavailable => 14
  | CodeUnauthenticated => 16
  end.

Definition from_wire (byte : Z) : option Code :=
  match byte with
  | 1 => Some CodeCancelled | 2 => Some CodeUnknown | 3 => Some CodeInvalidArgument | 4 => Some CodeDeadlineExceeded
  | 5 => Some CodeNotFound | 6 => Some CodeAlreadyExists | 7 => Some CodePermissionDenied
  | 8 => Some CodeResourceExhausted | 9 => Some CodeFailedPrecondition | 10 => Some CodeUnimplemented
  | 13 => Some CodeInternal | 14 => Some CodeUnavailable | 16 => Some CodeUnauthenticated
  | _ => None
  end%Z.

Lemma from_as_wire c : from_wire (as_wire c) = Some c.
Proof. by destruct c. Qed.

Lemma as_from_wire n c : from_wire n = Some c → as_wire c = n.
Proof.
  intros Hc. destruct n as [|p|p]; try discriminate Hc.
  repeat (destruct p as [p|p|]; try discriminate Hc; try (by injection Hc as <-)).
Qed.

(** ** Configuration ([config.rs]) *)

Inductive ConfigError :=
| ConfigZero (name : string)
| InvalidFrameLimit (bytes : Z)
| InvalidDuration (name : string).

Record FrameConfig := mkFrameConfig {
  fc_max_frame_bytes : Z;
  fc_initial_buffer_bytes : Z;
  fc_read_chunk_bytes : Z;
  fc_max_batch_frames : Z;
  fc_max_batch_bytes : Z;
}.

Definition FrameConfig_default : FrameConfig :=
  mkFrameConfig (8 * 1024 * 1024) (16 * 1024) (32 * 1024) 64 (256 * 1024).

Definition validate_frame_config (c : FrameConfig) : Res ConfigError unit :=
  reject_if ((fc_max_frame_bytes c =? 0) || (u32_max <? fc_max_frame_bytes c))%Z
    (InvalidFrameLimit (fc_max_frame_bytes c)) ;;
  reject_if (fc_initial_buffer_bytes c =? 0)%Z (ConfigZero "initial_buffer_bytes") ;;
  reject_if (fc_read_chunk_bytes c =? 0)%Z (ConfigZero "read_chunk_bytes") ;;
  reject_if (fc_max_batch_frames c =? 0)%Z (ConfigZero "max_batch_frames") ;;
  reject_if (fc_max_batch_bytes c =? 0)%Z (ConfigZero "max_batch_bytes").

(** ** Connection failures ([error.rs]) *)

Inductive ConnectionErrorKind := KindClosed | KindIo | KindFrameTooLarge | KindProtocol | KindRuntime.

Record ConnectionError := mkConnectionError { ce_kind : ConnectionErrorKind; ce_detail : string }.

(** An [io::Error]: whether it is [UnexpectedEof], and its text. *)
Record IoError := mkIoError { io_unexpected_eof : bool; io_text : string }.

Definition connection_io (e : IoError) : ConnectionError :=
  mkConnectionError (if io_unexpected_eof e then KindClosed else KindIo) (io_text e).
Definition frame_too_large (actual limit : Z) : ConnectionError :=
  mkConnectionError KindFrameTooLarge ("frame is " +:+ pretty actual +:+ " bytes, limit is " +:+ pretty limit).
Definition connection_protocol (detail : string) : ConnectionError := mkConnectionError KindProtocol detail.
Definition connection_closed (detail : string) : ConnectionError := mkConnectionError KindClosed detail.
Definition connection_runtime (detail : string) : ConnectionError := mkConnectionError KindRuntime detail.

(** ** Frames ([protocol.rs]) *)

Definition KIND_REQUEST : Z := 1.
Definition KIND_CANCEL : Z := 2.
Definition KIND_RESPONSE : Z := 3.
Definition STATUS_OK : Z := 0.
Definition REQUEST_HEADER_LEN : nat := 1 + 8 + 8 + 16.
Definition CANCEL_FRAME_LEN : nat := 1 + 8.
Definition RESPONSE_HEADER_LEN : nat := 1 + 8 + 1.

Inductive ClientFrame :=
| FRequest (id timeout_micros : Z) (trace_id body : Octets)
| FCancel (id : Z).

Inductive ServerFrame :=
| FResponse (id : Z) (code : option Code) (body : Octets).

Inductive FrameError :=
| Truncated
| UnknownKind (kind : Z)
| UnknownStatus (status : Z).

Definition frame_error_detail (e : FrameError) : string :=
  match e with
  | Truncated => "frame payload is shorter than its header"
  | UnknownKind _ => "frame has an unknown kind tag"
  | UnknownStatus _ => "response frame has an unknown status code"
  end.

(** A direction's frames: the traits [Frame] and [ParseFrame].  [split_header]
    is the header and the body to write after it. *)
Class Frame (F : Type) := {
  payload_len : F → nat;
  split_header : F → Octets * Octets;
  parse : Octets → Res FrameError F;
}.

(** What the framing relies on, for frames whose fields fit their types. *)
Class FrameLaws (F : Type) `{!Frame F} (fits : F → Prop) : Prop := {
  frame_len f : fits f → length ((split_header f).1 ++ (split_header f).2) = payload_len f;
  frame_parse f : fits f → parse ((split_header f).1 ++ (split_header f).2) = Ok f;
}.

(** [&bytes[a..b]]. *)
Definition slice (a b : nat) (bs : Octets) : Octets := take (b - a) (drop a bs).

Definition read_u64 (bs : Octets) : Z := le_value bs.

Definition client_header (f : ClientFrame) : Octets * Octets :=
  match f with
  | FRequest id timeout_micros trace_id body =>
      (byte_of_Z KIND_REQUEST :: le_bytes 8 id ++ le_bytes 8 timeout_micros ++ trace_id, body)
  | FCancel id => (byte_of_Z KIND_CANCEL :: le_bytes 8 id, [])
  end.

Definition parse_client (payload : Octets) : Res FrameError ClientFrame :=
  match payload with
  | [] => Err Truncated
  | kind :: _ =>
      if (byte_value kind =? KIND_REQUEST)%Z then
        if (length payload <? REQUEST_HEADER_LEN)%nat then Err Truncated
        else
          let header := take REQUEST_HEADER_LEN payload in
          Ok (FRequest (read_u64 (slice 1 9 header)) (read_u64 (slice 9 17 header)) (slice 17 33 header)
                (drop REQUEST_HEADER_LEN payload))
      else if (byte_value kind =? KIND_CANCEL)%Z then
        if (length payload <? CANCEL_FRAME_LEN)%nat then Err Truncated
        else Ok (FCancel (read_u64 (slice 1 9 payload)))
      else Err (UnknownKind (byte_value kind))
  end.

#[export] Instance client_frame : Frame ClientFrame := {|
  payload_len f := match f with FRequest _ _ _ body => REQUEST_HEADER_LEN + length body | FCancel _ => CANCEL_FRAME_LEN end;
  split_header := client_header;
  parse := parse_client;
|}.

Definition server_header (f : ServerFrame) : Octets * Octets :=
  match f with
  | FResponse id code body =>
      (byte_of_Z KIND_RESPONSE :: le_bytes 8 id ++ [byte_of_Z (from_option as_wire STATUS_OK code)], body)
  end.

Definition parse_server (payload : Octets) : Res FrameError ServerFrame :=
  match payload with
  | [] => Err Truncated
  | kind :: _ =>
      if (byte_value kind =? KIND_RESPONSE)%Z then
        if (length payload <? RESPONSE_HEADER_LEN)%nat then Err Truncated
        else
          let header := take RESPONSE_HEADER_LEN payload in
          let status := byte_value (nth 9 header x00) in
          code ← (if (status =? STATUS_OK)%Z then Ok None
                  else match from_wire status with
                       | Some c => Ok (Some c)
                       | None => Err (UnknownStatus status)
                       end);
          Ok (FResponse (read_u64 (slice 1 9 header)) code (drop RESPONSE_HEADER_LEN payload))
      else Err (UnknownKind (byte_value kind))
  end.

#[export] Instance server_frame : Frame ServerFrame := {|
  payload_len f := match f with FResponse _ _ body => RESPONSE_HEADER_LEN + length body end;
  split_header := server_header;
  parse := parse_server;
|}.

(** Fields in the range of their Rust types. *)
Definition client_fits (f : ClientFrame) : Prop :=
  match f with
  | FRequest id timeout_micros trace_id _ => in_u64 id ∧ in_u64 timeout_micros ∧ length trace_id = 16
  | FCancel id => in_u64 id
  end.
Definition server_fits (f : ServerFrame) : Prop := match f with FResponse id _ _ => in_u64 id end.

Lemma slice_app a b x y z : a = length x → b = length x + length y → slice a b (x ++ y ++ z) = y.
Proof.
  intros -> ->. unfold slice. rewrite drop_app_length.
  replace (length x + length y - length x) with (length y) by lia. by rewrite take_app_length.
Qed.

(** Takes the branch of a decided test without reducing the branches. *)
Ltac take_branch :=
  lazymatch goal with
  | |- (if true then ?A else _) = ?R => change (A = R)
  | |- (if false then _ else ?B) = ?R => change (B = R)
  end.

Lemma parse_client_cons kind rest :
  parse_client (kind :: rest) =
    let payload := kind :: rest in
    if (byte_value kind =? KIND_REQUEST)%Z then
      if (length payload <? REQUEST_HEADER_LEN)%nat then Err Truncated
      else let header := take REQUEST_HEADER_LEN payload in
           Ok (FRequest (read_u64 (slice 1 9 header)) (read_u64 (slice 9 17 header)) (slice 17 33 header)
                 (drop REQUEST_HEADER_LEN payload))
    else if (byte_value kind =? KIND_CANCEL)%Z then
      if (length payload <? CANCEL_FRAME_LEN)%nat then Err Truncated
      else Ok (FCancel (read_u64 (slice 1 9 payload)))
    else Err (UnknownKind (byte_value kind)).
Proof. done. Qed.

#[export] Instance client_laws : FrameLaws ClientFrame client_fits.
Proof.
  split; intros [id t trace body|id]; cbn [payload_len split_header parse client_frame client_header client_fits fst snd].
  - intros (_ & _ & Htr). unfold REQUEST_HEADER_LEN.
    simpl. rewrite !length_app, Htr, !length_le_bytes. lia.
  - intros _. rewrite app_nil_r. simpl. by rewrite length_le_bytes.
  - intros (Hid & Ht & Htr).
    set (header := byte_of_Z KIND_REQUEST :: le_bytes 8 id ++ le_bytes 8 t ++ trace).
    assert (Hh : length header = REQUEST_HEADER_LEN).
    { unfold header. simpl. rewrite !length_app, Htr, !length_le_bytes. done. }
    assert (∃ rest, header ++ body = byte_of_Z KIND_REQUEST :: rest) as [rest Hrest] by by eexists.
    rewrite Hrest, parse_client_cons. cbv zeta. rewrite <- Hrest, byte_value_of_Z.
    change (KIND_REQUEST `mod` 256 =? KIND_REQUEST)%Z with true. take_branch.
    rewrite length_app, Hh, (proj2 (Nat.ltb_ge _ _)) by lia. 
    rewrite <- Hh, take_app_length, drop_app_length. unfold read_u64.
    assert (H1 : slice 1 9 header = le_bytes 8 id).
    { apply (slice_app 1 9 [byte_of_Z KIND_REQUEST]); [done|by rewrite length_le_bytes]. }
    assert (H2 : slice 9 17 header = le_bytes 8 t).
    { apply (slice_app 9 17 (byte_of_Z KIND_REQUEST :: le_bytes 8 id)); simpl; by rewrite ?length_le_bytes. }
    assert (H3 : slice 17 33 header = trace).
    { assert (header = (byte_of_Z KIND_REQUEST :: le_bytes 8 id ++ le_bytes 8 t) ++ trace ++ []) as ->.
      { unfold header. rewrite app_nil_r. simpl. by rewrite <- app_assoc. }
      apply slice_app; simpl; by rewrite ?length_app, ?length_le_bytes, ?Htr. }
    rewrite H1, H2, H3, !u64_round_trip by done. done.
  - intros Hid. rewrite app_nil_r, parse_client_cons. cbv zeta. rewrite byte_value_of_Z.
    change (KIND_CANCEL `mod` 256 =? KIND_REQUEST)%Z with false. take_branch.
    change (KIND_CANCEL `mod` 256 =? KIND_CANCEL)%Z with true. take_branch.
    rewrite (proj2 (Nat.ltb_ge _ _)) by (simpl; rewrite length_le_bytes; unfold CANCEL_FRAME_LEN; lia).
    assert (H1 : slice 1 9 (byte_of_Z KIND_CANCEL :: le_bytes 8 id) = le_bytes 8 id).
    { rewrite <- (app_nil_r (le_bytes 8 id)) at 1.
      apply (slice_app 1 9 [byte_of_Z KIND_CANCEL]); [done|by rewrite length_le_bytes]. }
    unfold read_u64. by rewrite H1, u64_round_trip.
Qed.

Lemma parse_server_cons kind rest :
  parse_server (kind :: rest) =
    let payload := kind :: rest in
    if (byte_value kind =? KIND_RESPONSE)%Z then
      if (length payload <? RESPONSE_HEADER_LEN)%nat then Err Truncated
      else
        let header := take RESPONSE_HEADER_LEN payload in
        let status := byte_value (nth 9 header x00) in
        code ← (if (status =? STATUS_OK)%Z then Ok None
                else match from_wire status with
                     | Some c => Ok (Some c)
                     | None => Err (UnknownStatus status)
                     end);
        Ok (FResponse (read_u64 (slice 1 9 header)) code (drop RESPONSE_HEADER_LEN payload))
    else Err (UnknownKind (byte_value kind)).
Proof. done. Qed.

#[export] Instance server_laws : FrameLaws ServerFrame server_fits.
Proof.
  split; intros [id code body]; cbn [payload_len split_header parse server_frame server_header server_fits fst snd]; intros Hid.
  - unfold RESPONSE_HEADER_LEN. simpl. rewrite !length_app, length_le_bytes. simpl. lia.
  - set (status := from_option as_wire STATUS_OK code).
    set (header := byte_of_Z KIND_RESPONSE :: le_bytes 8 id ++ [byte_of_Z status]).
    assert (Hh : length header = RESPONSE_HEADER_LEN).
    { unfold header. simpl. by rewrite length_app, length_le_bytes. }
    assert (∃ rest, header ++ body = byte_of_Z KIND_RESPONSE :: rest) as [rest Hrest] by by eexists.
    rewrite Hrest, parse_server_cons. cbv zeta. rewrite <- Hrest, byte_value_of_Z.
    change (KIND_RESPONSE `mod` 256 =? KIND_RESPONSE)%Z with true. take_branch.
    rewrite length_app, Hh, (proj2 (Nat.ltb_ge _ _)) by lia.
    rewrite <- Hh, take_app_length, drop_app_length.
    assert (H1 : slice 1 9 header = le_bytes 8 id).
    { apply (slice_app 1 9 [byte_of_Z KIND_RESPONSE]); [done|by rewrite length_le_bytes]. }
    assert (H2 : nth 9 header x00 = byte_of_Z status).
    { unfold header. change (nth 9 (byte_of_Z KIND_RESPONSE :: le_bytes 8 id ++ [byte_of_Z status]) x00)
        with (nth 8 (le_bytes 8 id ++ [byte_of_Z status]) x00).
      rewrite app_nth2; rewrite length_le_bytes; [done|lia]. }
    assert (Hs : byte_value (byte_of_Z status) = status).
    { rewrite byte_value_of_Z. unfold status. by destruct code as [[]|]. }
    rewrite H1, H2, Hs. unfold read_u64. rewrite u64_round_trip by done. unfold status.
    by destruct code as [[]|].
Qed.

(** ** Framing ([framing.rs]) *)

Definition PREFIX_BYTES : nat := 4.

Inductive ReadEvent (F : Type) :=
| EvFrame (f : F)
| EvClosed
| EvFailed (e : ConnectionError).
Arguments EvFrame {F}.
Arguments EvClosed {F}.
Arguments EvFailed {F}.

(** The next complete payload and what follows it. *)
Definition take_frame (max_frame_bytes : Z) (buffer : Octets) : Res ConnectionError (option (Octets * Octets)) :=
  if (length buffer <? PREFIX_BYTES)%nat then Ok None
  else
    let len := be_value (take PREFIX_BYTES buffer) in
    if (max_frame_bytes <? len)%Z then Err (frame_too_large len max_frame_bytes)
    else if (Z.of_nat (length buffer) <? Z.of_nat PREFIX_BYTES + len)%Z then Ok None
    else
      let rest := drop PREFIX_BYTES buffer in
      Ok (Some (take (Z.to_nat len) rest, drop (Z.to_nat len) rest)).

Section framing.
Context {F : Type} `{!Frame F}.
Context (config : FrameConfig).
(** Whether the n-th event finds its receiver. *)
Context (accepts : nat → bool).
#[local] Abbreviation max := (fc_max_frame_bytes config).

(** The frames of the buffer, and what is left of it unless the reader stops.
    A frame takes at least its prefix, so the buffer's length is fuel enough. *)
Fixpoint drain (fuel sent : nat) (buffer : Octets) : list (ReadEvent F) * option Octets :=
  match take_frame max buffer with
  | Err e => ([EvFailed e], None)
  | Ok None => ([], Some buffer)
  | Ok (Some (payload, rest)) =>
      match parse payload with
      | Err e => ([EvFailed (connection_protocol (frame_error_detail e))], None)
      | Ok f =>
          if accepts sent then
            match fuel with
            | 0 => ([EvFrame f], Some rest)
            | S fuel => let '(events, kept) := drain fuel (S sent) rest in (EvFrame f :: events, kept)
            end
          else ([], None)
      end
  end.

(** [input] is what the reads return; nothing is the end of the stream. *)
Fixpoint read_frames (sent : nat) (buffer : Octets) (input : list (Res IoError Octets)) : list (ReadEvent F) :=
  let '(events, kept) := drain (length buffer) sent buffer in
  match kept with
  | None => events
  | Some buffer =>
      events ++
      match input with
      | [] | Ok [] :: _ =>
          match buffer with
          | [] => [EvClosed]
          | _ => [EvFailed (connection_closed "stream ended inside a frame")]
          end
      | Ok chunk :: rest => read_frames (sent + length events) (buffer ++ chunk) rest
      | Err e :: _ => [EvFailed (connection_io e)]
      end
  end.

(** Whether the queue has the n-th frame when the writer looks. *)
Context (ready : nat → bool).

(** The writes of the socket, which do not fail here. *)
Fixpoint write_frames (i : nat) (batch : Octets) (count : Z) (frames : list F)
    : list Octets * Res ConnectionError unit :=
  match frames with
  | [] => ([], Ok tt)
  | f :: rest =>
      let len := Z.of_nat (payload_len f) in
      if (max <? len)%Z then ([], Err (frame_too_large len max))
      else
        let '(header, body) := split_header f in
        let batch1 := batch ++ be_bytes PREFIX_BYTES len ++ header in
        let '(direct, batch2) :=
          if (fc_max_batch_bytes config <=? Z.of_nat (length body))%Z then ([batch1; body], [])
          else ([], batch1 ++ body) in
        if (fc_max_batch_frames config <=? count + 1)%Z || (fc_max_batch_bytes config <=? Z.of_nat (length batch2))%Z
           || negb (ready (S i)) || bool_decide (length rest = 0)
        then
          let '(writes, r) := write_frames (S i) [] 0 rest in
          (direct ++ (match batch2 with [] => [] | _ => [batch2] end) ++ writes, r)
        else
          let '(writes, r) := write_frames (S i) batch2 (count + 1) rest in (direct ++ writes, r)
  end.

(** ** The reference framing of a byte stream *)

Definition wire (f : F) : Octets :=
  be_bytes PREFIX_BYTES (Z.of_nat (payload_len f)) ++ (split_header f).1 ++ (split_header f).2.

(** A prefix is there and announces [n] bytes. *)
Definition announces (bs : Octets) (n : Z) : Prop := PREFIX_BYTES ≤ length bs ∧ be_value (take PREFIX_BYTES bs) = n.

Inductive decodes : Octets → list (ReadEvent F) → Prop :=
| dec_closed : decodes [] [EvClosed]
| dec_inside bs :
    bs ≠ [] → (length bs < PREFIX_BYTES ∨ ∃ n, announces bs n ∧ (n ≤ max)%Z ∧ (Z.of_nat (length bs) < 4 + n)%Z) →
    decodes bs [EvFailed (connection_closed "stream ended inside a frame")]
| dec_oversized bs n : announces bs n → (max < n)%Z → decodes bs [EvFailed (frame_too_large n max)]
| dec_unparsable bs n payload rest e :
    announces bs n → (n ≤ max)%Z → drop PREFIX_BYTES bs = payload ++ rest → Z.of_nat (length payload) = n →
    parse payload = Err e → decodes bs [EvFailed (connection_protocol (frame_error_detail e))]
| dec_frame bs n payload rest f events :
    announces bs n → (n ≤ max)%Z → drop PREFIX_BYTES bs = payload ++ rest → Z.of_nat (length payload) = n →
    parse payload = Ok f → decodes rest events → decodes bs (EvFrame f :: events).
End framing.

(** What [take_frame] finds. *)
Lemma take_frame_spec max bs :
  match take_frame max bs with
  | Err e => ∃ n, announces bs n ∧ (max < n)%Z ∧ e = frame_too_large n max
  | Ok None => length bs < PREFIX_BYTES ∨ ∃ n, announces bs n ∧ (n ≤ max)%Z ∧ (Z.of_nat (length bs) < 4 + n)%Z
  | Ok (Some (payload, rest)) =>
      ∃ n, announces bs n ∧ (n ≤ max)%Z ∧ drop PREFIX_BYTES bs = payload ++ rest ∧ Z.of_nat (length payload) = n
  end.
Proof.
  unfold take_frame. destruct (Nat.ltb_spec (length bs) PREFIX_BYTES) as [Hl|Hl]; [by left|].
  set (n := be_value (take PREFIX_BYTES bs)). assert (Ha : announces bs n) by done.
  pose proof (be_value_range (take PREFIX_BYTES bs)) as Hr. fold n in Hr.
  destruct (Z.ltb_spec max n) as [Hm|Hm]; [by exists n|].
  destruct (Z.ltb_spec (Z.of_nat (length bs)) (Z.of_nat PREFIX_BYTES + n)) as [Hs|Hs].
  - right. exists n. split_and!; [done|done|]. unfold PREFIX_BYTES in Hs. lia.
  - exists n. split_and!; [done|done|by rewrite take_drop|].
    rewrite length_take_le; [lia|]. rewrite length_drop. unfold PREFIX_BYTES in *. lia.
Qed.

Lemma announces_app bs more n : announces bs n → announces (bs ++ more) n.
Proof.
  intros [Hl Hn]. split; [rewrite length_app; lia|]. by rewrite take_app_le.
Qed.

Lemma announces_unique bs n m : announces bs n → announces bs m → n = m.
Proof. intros [_ <-] [_ <-]. done. Qed.

(** And it finds what is there. *)
Lemma take_frame_none max bs :
  length bs < PREFIX_BYTES ∨ (∃ n, announces bs n ∧ (n ≤ max)%Z ∧ (Z.of_nat (length bs) < 4 + n)%Z) →
  take_frame max bs = Ok None.
Proof.
  unfold take_frame. intros [Hl|(n & [Hl Hn] & Hm & Hs)]; [by rewrite (proj2 (Nat.ltb_lt _ _) Hl)|].
  rewrite (proj2 (Nat.ltb_ge _ _) Hl), Hn, (proj2 (Z.ltb_ge _ _) Hm). unfold PREFIX_BYTES. by rewrite (proj2 (Z.ltb_lt _ _)) by lia.
Qed.

Lemma take_frame_err max bs n :
  announces bs n → (max < n)%Z → take_frame max bs = Err (frame_too_large n max).
Proof.
  intros [Hl Hn] Hm. unfold take_frame. by rewrite (proj2 (Nat.ltb_ge _ _) Hl), Hn, (proj2 (Z.ltb_lt _ _) Hm).
Qed.

Lemma take_frame_some max bs n payload rest :
  announces bs n → (n ≤ max)%Z → drop PREFIX_BYTES bs = payload ++ rest → Z.of_nat (length payload) = n →
  take_frame max bs = Ok (Some (payload, rest)).
Proof.
  intros [Hl Hn] Hm Hd Hlen. unfold take_frame. rewrite (proj2 (Nat.ltb_ge _ _) Hl), Hn, (proj2 (Z.ltb_ge _ _) Hm).
  assert (Hlb : length bs = PREFIX_BYTES + length payload + length rest).
  { apply (f_equal length) in Hd. rewrite length_drop, length_app in Hd. lia. }
  rewrite (proj2 (Z.ltb_ge _ _)) by (unfold PREFIX_BYTES in *; lia).
  by rewrite Hd, <- Hlen, Nat2Z.id, take_app_length, drop_app_length.
Qed.

Section framing_spec.
Context {F : Type} `{!Frame F}.
Context (config : FrameConfig).
#[local] Abbreviation max := (fc_max_frame_bytes config).
#[local] Abbreviation decodes := (decodes config).
(** The dispatcher keeps receiving. *)
#[local] Abbreviation drain := (drain config (λ _, true)).
#[local] Abbreviation read_frames := (read_frames config (λ _, true)).

Definition pieces (chunks : list Octets) : list (Res IoError Octets) := Ok <$> chunks.

Lemma drain_spec fuel sent buffer :
  length buffer ≤ fuel →
  let '(events, kept) := drain fuel sent buffer in
  match kept with
  | None => ∀ more, decodes (buffer ++ more) events
  | Some rest => take_frame max rest = Ok None
      ∧ ∀ more events', decodes (rest ++ more) events' → decodes (buffer ++ more) (events ++ events')
  end.
Proof.
  revert sent buffer. induction fuel as [|fuel IH]; intros sent buffer Hlen; simpl;
    pose proof (take_frame_spec max buffer) as Hs;
    destruct (take_frame max buffer) as [[[payload rest]|]|e] eqn:Ht; try (split; [done|]; by intros).
  - destruct Hs as (n & [Hl _] & _). unfold PREFIX_BYTES in Hl. lia.
  - destruct Hs as (n & [Hl _] & _). unfold PREFIX_BYTES in Hl. lia.
  - destruct Hs as (n & Ha & Hm & Hd & Hn).
    assert (Hd' : ∀ more, drop PREFIX_BYTES (buffer ++ more) = payload ++ rest ++ more).
    { intros more. rewrite drop_app_le by (destruct Ha; lia). by rewrite Hd, app_assoc. }
    destruct (parse payload) as [f|e] eqn:Hp.
    + assert (Hrest : length rest ≤ fuel).
      { apply (f_equal length) in Hd. rewrite length_drop, length_app in Hd. destruct Ha. unfold PREFIX_BYTES in *. lia. }
      specialize (IH (S sent) rest Hrest). destruct (drain fuel (S sent) rest) as [events [kept|]]; simpl.
      * destruct IH as [Hk IH]. split; [done|]. intros more events' Hdec.
        eapply dec_frame; [by apply announces_app|done|apply Hd'|done|done|by apply IH].
      * intros more. eapply dec_frame; [by apply announces_app|done|apply Hd'|done|done|apply IH].
    + intros more. eapply dec_unparsable; [by apply announces_app|done|apply Hd'|done|done].
  - destruct Hs as (n & Ha & Hm & ->). intros more. apply dec_oversized; [by apply announces_app|done].
Qed.

Lemma read_decodes sent buffer chunks :
  Forall (.≠ []) chunks → decodes (buffer ++ concat chunks) (read_frames sent buffer (pieces chunks)).
Proof.
  intros Hne. revert sent buffer. induction Hne as [|chunk chunks Hchunk Hne IH]; intros sent buffer; simpl;
    pose proof (drain_spec (length buffer) sent buffer (le_n _)) as Hd;
    destruct (drain _ _ _) as [events [rest|]]; try exact (Hd _).
  - destruct Hd as [Ht Hd]. apply Hd. rewrite app_nil_r. destruct rest as [|b rest]; [constructor|].
    apply dec_inside; [done|]. pose proof (take_frame_spec max (b :: rest)) as Hs. by rewrite Ht in Hs.
  - destruct Hd as [Ht Hd]. apply Hd. destruct chunk as [|b chunk]; [done|]. rewrite app_assoc. apply IH.
Qed.

Lemma decodes_inv bs events :
  decodes bs events →
  match take_frame max bs with
  | Err e => events = [EvFailed e]
  | Ok None => events = [match bs with [] => EvClosed | _ => EvFailed (connection_closed "stream ended inside a frame") end]
  | Ok (Some (payload, rest)) =>
      match parse payload with
      | Err e => events = [EvFailed (connection_protocol (frame_error_detail e))]
      | Ok f => ∃ events', events = EvFrame f :: events' ∧ decodes rest events'
      end
  end.
Proof.
  intros Hd. destruct Hd as [|bs Hne Hin|bs n Ha Hm|bs n payload rest e Ha Hm Hd Hn Hp|bs n payload rest f events Ha Hm Hd Hn Hp H1].
  - done.
  - rewrite take_frame_none by done. by destruct bs.
  - by rewrite (take_frame_err _ _ n).
  - by rewrite (take_frame_some _ _ n payload rest), Hp.
  - rewrite (take_frame_some _ _ n payload rest), Hp by done. eauto.
Qed.

Lemma decodes_unique bs e1 e2 : decodes bs e1 → decodes bs e2 → e1 = e2.
Proof.
  intros H1. revert e2. induction H1 as [|bs Hne Hin|bs n Ha Hm|bs n payload rest e Ha Hm Hd Hn Hp|bs n payload rest f events Ha Hm Hd Hn Hp H1 IH];
    intros e2 H2%decodes_inv.
  - done.
  - rewrite take_frame_none in H2 by done. by destruct bs.
  - by rewrite (take_frame_err _ _ n) in H2.
  - by rewrite (take_frame_some _ _ n payload rest), Hp in H2.
  - rewrite (take_frame_some _ _ n payload rest), Hp in H2 by done. destruct H2 as (events' & -> & H2).
    f_equal. by apply IH.
Qed.

(** The reader implements the framing of the byte stream, and only the bytes
    matter: cut into whatever pieces, a stream yields the frames it encodes, in
    order, up to its end, to a prefix over the limit, to a payload that is no
    frame of the direction or to an end inside a frame, each reported as such. *)
Theorem reader_implements_framing chunks chunks' :
  Forall (.≠ []) chunks → Forall (.≠ []) chunks' → concat chunks = concat chunks' →
  decodes (concat chunks) (read_frames 0 [] (pieces chunks))
  ∧ read_frames 0 [] (pieces chunks') = read_frames 0 [] (pieces chunks).
Proof.
  intros Hne Hne' Heq. pose proof (read_decodes 0 [] chunks Hne) as Hr. pose proof (read_decodes 0 [] chunks' Hne') as Hr'.
  simpl in Hr, Hr'. rewrite <- Heq in Hr'. split; [done|]. by eapply decodes_unique.
Qed.
End framing_spec.

(** ** Round trip *)
Section round_trip.
Context {F : Type} `{!Frame F} (fits : F → Prop) `{!FrameLaws F fits}.
Context (config : FrameConfig) (ready : nat → bool).
#[local] Abbreviation max := (fc_max_frame_bytes config).
#[local] Abbreviation write_frames := (write_frames config ready).

(** Frames that may be written. *)
Definition within (f : F) : Prop := fits f ∧ (Z.of_nat (payload_len f) ≤ max)%Z.

(** Whatever is coalesced, the socket gets the pending batch and the frames. *)
Lemma written_bytes i batch count frames :
  Forall (λ f, (Z.of_nat (payload_len f) ≤ max)%Z) frames → (frames = [] → batch = []) →
  ∃ writes, write_frames i batch count frames = (writes, Ok tt) ∧ concat writes = batch ++ concat (wire <$> frames).
Proof.
  intros Hall. revert i batch count. induction Hall as [|f frames Hf Hall IH]; intros i batch count Hb; simpl.
  - exists []. split; [done|]. by rewrite Hb.
  - rewrite (proj2 (Z.ltb_ge _ _)) by lia. unfold wire at 1. destruct (split_header f) as [header body]. simpl.
    set (batch1 := batch ++ be_bytes PREFIX_BYTES (Z.of_nat (payload_len f)) ++ header).
    assert (Hsplit : ∃ direct batch2, (if (fc_max_batch_bytes config <=? Z.of_nat (length body))%Z
      then ([batch1; body], []) else ([], batch1 ++ body)) = (direct, batch2) ∧ concat direct ++ batch2 = batch1 ++ body).
    { destruct (_ <=? _)%Z; do 2 eexists; (split; [done|]); simpl; by rewrite ?app_nil_r. }
    destruct Hsplit as (direct & batch2 & -> & Hbytes).
    assert (Hgoal : ∀ rest, concat direct ++ batch2 ++ rest
      = batch ++ (be_bytes PREFIX_BYTES (Z.of_nat (payload_len f)) ++ header ++ body) ++ rest).
    { intros rest. rewrite app_assoc, Hbytes. unfold batch1. by rewrite <- !app_assoc. }
    destruct (_ || bool_decide (length frames = 0)) eqn:Hflush.
    + destruct (IH (S i) [] 0%Z) as (writes & -> & Hw); [done|]. eexists. split; [done|].
      rewrite !concat_app, Hw, <- Hgoal. simpl. destruct batch2; simpl; by rewrite ?app_nil_r.
    + destruct (IH (S i) batch2 (count + 1)%Z) as (writes & -> & Hw).
      { intros ->. rewrite bool_decide_eq_true_2 in Hflush by done. by rewrite orb_true_r in Hflush. }
      eexists. split; [done|]. by rewrite concat_app, Hw, Hgoal.
Qed.

Lemma decodes_wire frames :
  (max ≤ u32_max)%Z → Forall within frames → decodes config (concat (wire <$> frames)) ((EvFrame <$> frames) ++ [EvClosed]).
Proof.
  intros Hmax. induction 1 as [|f frames [Hf Hm] _ IH]; [constructor|]. rewrite !fmap_cons. simpl.
  set (payload := (split_header f).1 ++ (split_header f).2).
  assert (Hlen : length payload = payload_len f) by by apply frame_len.
  assert (Hpre : length (be_bytes PREFIX_BYTES (Z.of_nat (payload_len f))) = PREFIX_BYTES) by apply length_be_bytes.
  assert (Hwire : wire f ++ concat (wire <$> frames)
    = be_bytes PREFIX_BYTES (Z.of_nat (payload_len f)) ++ payload ++ concat (wire <$> frames)).
  { unfold wire, payload. by rewrite <- !app_assoc. }
  rewrite Hwire. apply (dec_frame config _ (Z.of_nat (payload_len f)) payload (concat (wire <$> frames)));
    [|done| |by rewrite Hlen|by apply frame_parse|exact IH].
  - split; [rewrite length_app, Hpre; lia|]. rewrite take_app_le by lia. rewrite take_ge by lia.
    apply u32_round_trip. lia.
  - rewrite drop_app_ge by lia. by rewrite Hpre, Nat.sub_diag, drop_0.
Qed.

(** C36: What one side writes the other reads: frames within the limit are written
    without error, whatever the writer coalesces, writes directly or finds
    ready in its queue, and the reader of those bytes, in whatever pieces they
    arrive, delivers exactly those frames in order and then the end. *)
Theorem frames_round_trip frames :
  validate_frame_config config = Ok tt → Forall within frames →
  ∃ writes, write_frames 0 [] 0 frames = (writes, Ok tt)
    ∧ ∀ chunks, Forall (.≠ []) chunks → concat chunks = concat writes →
        read_frames config (λ _, true) 0 [] (pieces chunks) = (EvFrame <$> frames) ++ [EvClosed].
Proof.
  intros Hconfig Hall.
  assert (Hmax : (max ≤ u32_max)%Z).
  { unfold validate_frame_config in Hconfig. apply bind_Ok_tt in Hconfig as [H0%reject_if_Ok _].
    apply orb_false_iff in H0 as [_ H0]. by apply Z.ltb_ge in H0. }
  destruct (written_bytes 0 [] 0 frames) as (writes & Hw & Hbytes);
    [by eapply Forall_impl; [exact Hall|intros f [_ ?]]|done|].
  exists writes. split; [done|]. intros chunks Hne Hc.
  eapply decodes_unique; [|by apply decodes_wire]. simpl in Hbytes. rewrite <- Hbytes, <- Hc.
  apply (read_decodes config 0 [] chunks Hne).
Qed.
End round_trip.

(** ** Witnesses *)
Module FramesExample.
Definition config : FrameConfig := mkFrameConfig 64 16 16 2 8.
Definition trace : Octets := replicate 16 x09.
Definition frames : list ClientFrame := [FRequest 7 1000 trace [x61; x62]; FCancel 7; FRequest 8 5 trace []].
(** The first request and the first half of a cancellation. *)
Definition stream : Octets := wire (FRequest 7 1000 trace [x61; x62]) ++ take 6 (wire (FCancel 7)).

Lemma frames_within : Forall (within client_fits config) frames.
Proof.
  unfold within, in_u64, u64_max. repeat (apply Forall_cons; split); [..|apply Forall_nil; exact I];
    simpl; unfold client_fits, in_u64, u64_max, REQUEST_HEADER_LEN, CANCEL_FRAME_LEN; simpl; lia.
Qed.
End FramesExample.

Lemma reader_implements_framing_witness :
  read_frames (F := ClientFrame) FramesExample.config (λ _, true) 0 [] (pieces ((λ b, [b]) <$> FramesExample.stream))
  = read_frames FramesExample.config (λ _, true) 0 [] (pieces [FramesExample.stream])
  ∧ decodes FramesExample.config FramesExample.stream
      (read_frames (F := ClientFrame) FramesExample.config (λ _, true) 0 [] (pieces [FramesExample.stream])).
Proof.
  assert (H1 : Forall (.≠ []) [FramesExample.stream]) by (apply Forall_singleton; discriminate).
  assert (H2 : Forall (.≠ []) ((λ b, [b]) <$> FramesExample.stream)) by (apply Forall_fmap, Forall_true; discriminate).
  destruct (reader_implements_framing (F := ClientFrame) FramesExample.config [FramesExample.stream]
    ((λ b, [b]) <$> FramesExample.stream) H1 H2) as [Hd Hr].
  - vm_compute. reflexivity.
  - split; [exact Hr|]. simpl concat in Hd. by rewrite app_nil_r in Hd.
Defined.

Lemma frames_round_trip_witness :
  ∃ writes, write_frames FramesExample.config (λ _, true) 0 [] 0 FramesExample.frames = (writes, Ok tt)
    ∧ read_frames FramesExample.config (λ _, true) 0 [] (pieces writes) = (EvFrame <$> FramesExample.frames) ++ [EvClosed].
Proof.
  destruct (frames_round_trip client_fits FramesExample.config (λ _, true) FramesExample.frames)
    as (writes & Hw & Hr).
  - reflexivity.
  - exact FramesExample.frames_within.
  - exists writes. split; [exact Hw|]. apply Hr; [|reflexivity].
    assert (He : (write_frames FramesExample.config (λ _, true) 0 [] 0 FramesExample.frames).1 = writes) by by rewrite Hw.
    rewrite <- He. apply (bool_decide_unpack _). vm_compute. exact I.
Defined.
