(* ===== verification/RateLimit.v ===== *)
(** The rate limiter ([nagisalake-hub/src/ratelimit.rs]): token buckets by scope
    and key, in sixteen shards, each bounded by forgetting its least recently
    seen bucket.

    The shard keeps a queue of accesses with stale slots, dropped in batches;
    the hasher is an argument.

    Main results: a shard behaves as an exact least-recently-used table, in
    bounded memory, whatever slots are stale; a caller the table knows is never
    evicted by its own request and gets no tokens but those time refills; at one
    instant a default quota allows exactly its capacity. *)

From S2P Require Import Prelude Text HubTypes.
From Stdlib Require Import ZArith Lia SpecFloat Ascii.

(** ** [f64] and [Duration] *)

Definition f64_add : spec_float → spec_float → spec_float := SFadd 53 1024.
Definition f64_sub : spec_float → spec_float → spec_float := SFsub 53 1024.
Definition f64_mul : spec_float → spec_float → spec_float := SFmul 53 1024.
Definition f64_div : spec_float → spec_float → spec_float := SFdiv 53 1024.
Definition f64_of_Z (z : Z) : spec_float := binary_normalize 53 1024 z 0 false.

(** [f64::min] and [f64::max]: a NaN gives way to the other argument. *)
Definition f64_min (x y : spec_float) : spec_float :=
  match x, y with
  | S754_nan, _ => y
  | _, S754_nan => x
  | _, _ => if SFltb x y then x else y
  end.
Definition f64_max (x y : spec_float) : spec_float :=
  match x, y with
  | S754_nan, _ => y
  | _, S754_nan => x
  | _, _ => if SFltb x y then y else x
  end.

Definition NANOS_PER_SEC : Z := 1000000000.

(** A [Duration] and an [Instant] are nanoseconds. *)
Definition as_secs_f64 (d : Z) : spec_float :=
  f64_add (f64_of_Z (d / NANOS_PER_SEC)) (f64_div (f64_of_Z (d mod NANOS_PER_SEC)) (f64_of_Z NANOS_PER_SEC)).

(** [a * 2^e] to the nearest integer, ties to even. *)
Definition round_half_even (a e : Z) : Z :=
  if (0 <=? e)%Z then (a * 2 ^ e)%Z
  else
    let d := (2 ^ (- e))%Z in
    let q := (a / d)%Z in
    match (2 * (a mod d) ?= d)%Z with
    | Lt => q
    | Gt => q + 1
    | Eq => if Z.even q then q else q + 1
    end%Z.

(** [Duration::from_secs_f64]; [None] is its panic. *)
Definition from_secs_f64 (x : spec_float) : option Z :=
  match x with
  | S754_zero _ => Some 0%Z
  | S754_finite false m e =>
      let n := round_half_even (Zpos m * NANOS_PER_SEC) e in
      if (n <? 2 ^ 64 * NANOS_PER_SEC)%Z then Some n else None
  | _ => None
  end.

(** ** Quotas and buckets *)

Record Quota := mkQuota { qt_capacity : spec_float; qt_refill_per_second : spec_float }.

Definition Quota_new (capacity : Z) (refill_per_second : spec_float) : Quota :=
  mkQuota (f64_of_Z capacity) refill_per_second.

Definition retry_after (q : Quota) (tokens : spec_float) : option Z :=
  if SFleb (qt_refill_per_second q) (S754_zero false) then Some (3600 * NANOS_PER_SEC)%Z
  else
    let missing := f64_max (f64_sub (f64_of_Z 1) tokens) (S754_zero false) in
    from_secs_f64 (f64_div missing (qt_refill_per_second q)).

Inductive Decision :=
| Allow
| Deny (retry_after_seconds : Z).

(** A bucket; its scope and key are its key in the table. *)
Record Bucket := mkBucket {
  bk_tokens : spec_float;
  bk_last_seen : Z;
  bk_sequence : Z;
}.

(** [None] is the panic of [retry_after]. *)
Definition consume (b : Bucket) (now : Z) (q : Quota) : option Decision * Bucket :=
  let elapsed := as_secs_f64 (Z.max 0 (now - bk_last_seen b)) in
  let tokens := f64_min (f64_add (bk_tokens b) (f64_mul elapsed (qt_refill_per_second q))) (qt_capacity q) in
  if SFleb (f64_of_Z 1) tokens
  then (Some Allow, mkBucket (f64_sub tokens (f64_of_Z 1)) now (bk_sequence b))
  else
    ((λ d, Deny (Z.max 1 (d / NANOS_PER_SEC))) <$> retry_after q tokens,
     mkBucket tokens now (bk_sequence b)).

(** ** Shards *)

#[local] Abbreviation BucketKey := (string * string)%type.

Definition MAX_BUCKETS : Z := 100000.
Definition SHARDS : Z := 16.
Definition MAX_BUCKETS_PER_SHARD : Z := MAX_BUCKETS / SHARDS.
Definition IDLE_EVICTION : Z := 3600 * NANOS_PER_SEC.

(** [sh_order]: accesses, oldest first, as sequence and hash. *)
Record Shard := mkShard {
  sh_buckets : gmap (string * string) Bucket;
  sh_order : list (Z * Z);
  sh_next_sequence : Z;
}.

Definition Shard_default : Shard := mkShard ∅ [] 0.

Section limiter.
(** The hasher with its random seed: 64 bits of a scope and a key. *)
Context (hash_of : string → string → Z).
#[local] Abbreviation hash k := (hash_of k.1 k.2).

(** [buckets.find(hash, |bucket| bucket.sequence == sequence)]. *)
Definition find_access (buckets : gmap (string * string) Bucket) (h sequence : Z) : option (string * string) :=
  fst <$> head (filter (λ kb, hash kb.1 = h ∧ bk_sequence kb.2 = sequence) (map_to_list buckets)).

Definition record_access (s : Shard) (sequence h : Z) : Shard :=
  let order := sh_order s ++ [(sequence, h)] in
  mkShard (sh_buckets s)
    (if (MAX_BUCKETS_PER_SHARD * 2 <? Z.of_nat (length order))%Z
     then filter (λ a, is_Some (find_access (sh_buckets s) a.2 a.1)) order else order)
    (sh_next_sequence s).

(** The loop over the order. *)
Fixpoint evict (buckets : gmap (string * string) Bucket) (order : list (Z * Z))
    : gmap (string * string) Bucket * list (Z * Z) :=
  match order with
  | [] => (buckets, [])
  | (sequence, h) :: rest =>
      match find_access buckets h sequence with
      | Some k => (delete k buckets, rest)
      | None => evict buckets rest
      end
  end.

Definition evict_oldest (s : Shard) : Shard :=
  let '(buckets, order) := evict (sh_buckets s) (sh_order s) in
  mkShard buckets order (sh_next_sequence s).

(** [RateLimiter::check], under the shard's lock. *)
Definition check_shard (s : Shard) (k : BucketKey) (now : Z) (q : Quota) : option Decision * Shard :=
  let sequence := sh_next_sequence s in
  let s := mkShard (sh_buckets s) (sh_order s) ((sequence + 1) mod 2 ^ 64) in
  let '(decision, s) :=
    match sh_buckets s !! k with
    | Some b =>
        let '(decision, b') := consume (mkBucket (bk_tokens b) (bk_last_seen b) sequence) now q in
        (decision, mkShard (<[k := b']> (sh_buckets s)) (sh_order s) (sh_next_sequence s))
    | None =>
        let s := if (MAX_BUCKETS_PER_SHARD <=? Z.of_nat (size (sh_buckets s)))%Z then evict_oldest s else s in
        let '(decision, b) := consume (mkBucket (qt_capacity q) now sequence) now q in
        (decision, mkShard (<[k := b]> (sh_buckets s)) (sh_order s) (sh_next_sequence s))
    end in
  (decision, record_access s sequence (hash k)).

Definition reset_shard (s : Shard) (k : BucketKey) : Shard :=
  mkShard (delete k (sh_buckets s)) (sh_order s) (sh_next_sequence s).

Definition idle (now : Z) (b : Bucket) : bool := negb (Z.max 0 (now - bk_last_seen b) <? IDLE_EVICTION)%Z.

Definition evict_idle_shard (s : Shard) (now : Z) : Shard :=
  mkShard (filter (λ kb, idle now kb.2 = false) (sh_buckets s)) (sh_order s) (sh_next_sequence s).

(** ** The limiter *)

Record Limits := mkLimits {
  login_per_ip : Quota;
  login_per_account : Quota;
  register_per_ip : Quota;
  refresh_per_ip : Quota;
  submit_per_org : Quota;
  oauth_per_ip : Quota;
}.

Definition Limits_default : Limits :=
  let per n := f64_div (f64_of_Z 1) (f64_of_Z n) in
  mkLimits (Quota_new 10 (per 6%Z)) (Quota_new 10 (per 30%Z)) (Quota_new 3 (per 600%Z))
    (Quota_new 60 (f64_of_Z 1)) (Quota_new 60 (f64_of_Z 2)) (Quota_new 10 (per 10%Z)).

Record RateLimiter := mkRateLimiter {
  rl_limits : Limits;
  rl_shards : list Shard;
  rl_enabled : bool;
}.

Definition new_shards : list Shard := replicate (Z.to_nat SHARDS) Shard_default.
Definition RateLimiter_new (limits : Limits) : RateLimiter := mkRateLimiter limits new_shards true.
Definition RateLimiter_disabled : RateLimiter := mkRateLimiter Limits_default new_shards false.

(** The index [shard_for] takes. *)
Definition shard_for (h : Z) : nat := Z.to_nat (Z.shiftr h 32 mod SHARDS).

Definition check (r : RateLimiter) (scope key : string) (now : Z) (q : Quota) : option Decision * RateLimiter :=
  if negb (rl_enabled r) then (Some Allow, r)
  else
    let i := shard_for (hash_of scope key) in
    match rl_shards r !! i with
    | Some s =>
        let '(decision, s') := check_shard s (scope, key) now q in
        (decision, mkRateLimiter (rl_limits r) (<[i := s']> (rl_shards r)) (rl_enabled r))
    | None => (None, r)
    end.

Definition reset (r : RateLimiter) (scope key : string) : RateLimiter :=
  if negb (rl_enabled r) then r
  else
    mkRateLimiter (rl_limits r) (alter (λ s, reset_shard s (scope, key)) (shard_for (hash_of scope key)) (rl_shards r))
      (rl_enabled r).

(** The number of buckets dropped, and the limiter. *)
Definition evict_idle (r : RateLimiter) (now : Z) : Z * RateLimiter :=
  if negb (rl_enabled r) then (0%Z, r)
  else
    (Z.of_nat (sum_list_with (λ s, size (sh_buckets s) - size (sh_buckets (evict_idle_shard s now))) (rl_shards r)),
     mkRateLimiter (rl_limits r) ((λ s, evict_idle_shard s now) <$> rl_shards r) (rl_enabled r)).

(** ** The reference: a least-recently-used table *)

(** Tokens and the last access; oldest first. *)
#[local] Abbreviation Level := (spec_float * Z)%type.
#[local] Abbreviation Lru := (list (BucketKey * Level)).

Definition level (b : Bucket) : Level := (bk_tokens b, bk_last_seen b).
Definition of_level (l : Level) : Bucket := mkBucket l.1 l.2 0.
Definition without (k : BucketKey) (l : Lru) : Lru := filter (λ e, e.1 ≠ k) l.
Definition lru_get (k : BucketKey) (l : Lru) : option Level := snd <$> head (filter (λ e, e.1 = k) l).

(** A known key moves to the end; a new one enters there, and the oldest leaves
    when the table is full. *)
Definition lru_check (l : Lru) (k : BucketKey) (now : Z) (q : Quota) : option Decision * Lru :=
  match lru_get k l with
  | Some v =>
      let '(decision, b) := consume (of_level v) now q in
      (decision, without k l ++ [(k, level b)])
  | None =>
      let l := if (MAX_BUCKETS_PER_SHARD <=? Z.of_nat (length l))%Z then tail l else l in
      let '(decision, b) := consume (of_level (qt_capacity q, now)) now q in
      (decision, l ++ [(k, level b)])
  end.

Definition lru_idle (l : Lru) (now : Z) : Lru := filter (λ e, idle now (of_level e.2) = false) l.

(** Entries in the order of their last access. *)
Definition older (x y : BucketKey * Bucket) : Prop := (bk_sequence x.2 < bk_sequence y.2)%Z.

Definition represents (s : Shard) (l : Lru) : Prop :=
  ∃ bl, bl ≡ₚ map_to_list (sh_buckets s) ∧ StronglySorted older bl ∧ l = prod_map id level <$> bl.

(** What the shard keeps true: accesses in order, and every bucket's last access
    among them. *)
Record shard_wf (s : Shard) : Prop := {
  sw_next : (0 ≤ sh_next_sequence s < 2 ^ 64)%Z;
  sw_sorted : StronglySorted (λ a b, (a.1 < b.1)%Z) (sh_order s);
  sw_past : Forall (λ a, (a.1 < sh_next_sequence s)%Z) (sh_order s);
  sw_live k b : sh_buckets s !! k = Some b → (bk_sequence b, hash k) ∈ sh_order s;
  sw_unique k k' b b' :
    sh_buckets s !! k = Some b → sh_buckets s !! k' = Some b' → bk_sequence b = bk_sequence b' → k = k';
  sw_buckets : (Z.of_nat (size (sh_buckets s)) ≤ MAX_BUCKETS_PER_SHARD)%Z;
  sw_order : (Z.of_nat (length (sh_order s)) ≤ MAX_BUCKETS_PER_SHARD * 2)%Z;
}.

(** ** Entries in order of access *)

Definition entries (m : gmap (string * string) Bucket) (bl : list (BucketKey * Bucket)) : Prop :=
  bl ≡ₚ map_to_list m ∧ StronglySorted older bl.

Lemma entries_elem m bl k b : entries m bl → (k, b) ∈ bl ↔ m !! k = Some b.
Proof. intros [Hp _]. by rewrite Hp, elem_of_map_to_list. Qed.

Lemma entries_length m bl : entries m bl → length bl = size m.
Proof. intros [Hp _]. by rewrite Hp, length_map_to_list. Qed.

Lemma entries_NoDup m bl : entries m bl → NoDup bl.
Proof. intros [Hp _]. rewrite Hp. apply NoDup_map_to_list. Qed.

Lemma StronglySorted_filter {A} (R : A → A → Prop) (P : A → Prop) `{∀ x, base.Decision (P x)} l :
  StronglySorted R l → StronglySorted R (filter P l).
Proof.
  induction 1 as [|x l _ IH Hx]; [constructor|]. rewrite filter_cons. case_decide; [|done].
  constructor; [done|]. rewrite Forall_forall in Hx |- *. intros y [_ Hy]%list_elem_of_filter. by apply Hx.
Qed.

Lemma entries_sub m m' bl (P : BucketKey * Bucket → Prop) `{∀ x, base.Decision (P x)} :
  (∀ k b, m' !! k = Some b ↔ m !! k = Some b ∧ P (k, b)) → entries m bl → entries m' (filter P bl).
Proof.
  intros Hm He. split; [|by apply StronglySorted_filter, He].
  apply NoDup_Permutation; [by eapply NoDup_filter, entries_NoDup|apply NoDup_map_to_list|].
  intros [k b]. rewrite list_elem_of_filter, elem_of_map_to_list, Hm, (entries_elem m bl) by done. tauto.
Qed.

Lemma entries_delete m bl k : entries m bl → entries (delete k m) (filter (λ e, e.1 ≠ k) bl).
Proof. apply entries_sub. intros j b. rewrite lookup_delete_Some. simpl. naive_solver. Qed.

Lemma StronglySorted_snoc {A} (R : A → A → Prop) l x :
  StronglySorted R l → Forall (λ y, R y x) l → StronglySorted R (l ++ [x]).
Proof.
  induction 1 as [|y l _ IH Hy]; intros Hx; simpl; [by repeat constructor|].
  apply Forall_cons in Hx as [? Hx]. constructor; [by apply IH|]. apply Forall_app; split; [done|by constructor].
Qed.

Lemma entries_insert m bl k b :
  m !! k = None → (∀ k' b', m !! k' = Some b' → (bk_sequence b' < bk_sequence b)%Z) →
  entries m bl → entries (<[k := b]> m) (bl ++ [(k, b)]).
Proof.
  intros Hk Hseq He. split.
  - rewrite map_to_list_insert, (Permutation_app_comm bl) by done. simpl. by rewrite (proj1 He).
  - apply StronglySorted_snoc; [apply He|]. apply Forall_forall. intros [k' b'] Hin. apply (Hseq k' b').
    by eapply entries_elem.
Qed.

(** ** The access queue *)

Definition unique (m : gmap (string * string) Bucket) : Prop :=
  ∀ k k' b b', m !! k = Some b → m !! k' = Some b' → bk_sequence b = bk_sequence b' → k = k'.

Lemma find_access_Some m h sequence k :
  find_access m h sequence = Some k → ∃ b, m !! k = Some b ∧ hash k = h ∧ bk_sequence b = sequence.
Proof.
  unfold find_access. destruct (filter _ _) as [|[k' b] l] eqn:Hf; simpl; [done|]. intros [= <-].
  assert (Hin : (k', b) ∈ (k', b) :: l) by apply list_elem_of_here. rewrite <- Hf in Hin.
  apply list_elem_of_filter in Hin as [[? ?] Hin%elem_of_map_to_list]. eauto.
Qed.

Lemma find_access_live m k b :
  unique m → m !! k = Some b → find_access m (hash k) (bk_sequence b) = Some k.
Proof.
  intros Hu Hk. destruct (find_access m (hash k) (bk_sequence b)) as [k'|] eqn:Hf.
  - apply find_access_Some in Hf as (b' & Hk' & _ & Hseq). f_equal. by eapply Hu.
  - exfalso. unfold find_access in Hf. apply fmap_None in Hf. revert Hf.
    assert (Hin : (k, b) ∈ filter (λ kb, hash kb.1 = hash k ∧ bk_sequence kb.2 = bk_sequence b) (map_to_list m)).
    { apply list_elem_of_filter. split; [done|]. by apply elem_of_map_to_list. }
    destruct (filter _ _); [|done]. by apply elem_of_nil in Hin.
Qed.

Definition in_order (order : list (Z * Z)) : Prop := StronglySorted (λ a b, (a.1 < b.1)%Z) order.
Definition live (m : gmap (string * string) Bucket) (order : list (Z * Z)) : Prop :=
  ∀ k b, m !! k = Some b → (bk_sequence b, hash k) ∈ order.

Lemma in_order_app pre post a b : in_order (pre ++ post) → a ∈ pre → b ∈ post → (a.1 < b.1)%Z.
Proof.
  intros Hs Ha Hb. induction pre as [|x pre IH]; simpl in *; [by apply elem_of_nil in Ha|].
  apply StronglySorted_inv in Hs as [Hs Hx]. apply elem_of_cons in Ha as [->|Ha]; [|by apply IH].
  rewrite Forall_forall in Hx. apply Hx, elem_of_app. by right.
Qed.

Lemma in_order_post pre post : in_order (pre ++ post) → in_order post.
Proof. induction pre as [|x pre IH]; simpl; [done|]. intros [Hs _]%StronglySorted_inv. by apply IH. Qed.

(** Eviction passes over the stale slots to the bucket seen longest ago. *)
Lemma evict_oldest_entry m bl k0 b0 order :
  unique m → in_order order → live m order → entries m ((k0, b0) :: bl) →
  ∃ pre post, order = pre ++ (bk_sequence b0, hash k0) :: post ∧ evict m order = (delete k0 m, post).
Proof.
  intros Hu Hs Hl He.
  assert (Hk0 : m !! k0 = Some b0) by (eapply entries_elem; [done|apply list_elem_of_here]).
  pose proof (Hl _ _ Hk0) as (pre & post & Hord)%list_elem_of_split.
  exists pre, post. split; [done|]. rewrite Hord in Hs |- *. clear Hord Hl.
  induction pre as [|[sequence h] pre IH]; simpl.
  - by rewrite (find_access_live m k0 b0).
  - destruct (find_access m h sequence) as [k|] eqn:Hf; [|apply IH; by apply StronglySorted_inv in Hs as [? _]].
    exfalso. apply find_access_Some in Hf as (b & Hk & _ & <-).
    apply StronglySorted_inv in Hs as [_ Hs]. rewrite Forall_forall in Hs.
    opose proof (Hs (bk_sequence b0, hash k0) _) as Hlt; [apply elem_of_app; right; apply list_elem_of_here|].
    simpl in Hlt. apply (entries_elem _ _ _ _ He) in Hk. destruct He as [_ He].
    apply StronglySorted_inv in He as [_ He]. rewrite Forall_forall in He.
    apply elem_of_cons in Hk as [[= -> ->]|Hk]; [lia|]. apply He in Hk. unfold older in Hk. simpl in Hk. lia.
Qed.

(** What is recorded: the queue stays in order and keeps every live access. *)
Lemma record_access_order m order sequence h next :
  in_order order → Forall (λ a, (a.1 < sequence)%Z) order → unique m → live m (order ++ [(sequence, h)]) →
  (Z.of_nat (size m) ≤ MAX_BUCKETS_PER_SHARD)%Z → (Z.of_nat (length order) ≤ MAX_BUCKETS_PER_SHARD * 2)%Z →
  let s' := record_access (mkShard m order next) sequence h in
  in_order (sh_order s') ∧ Forall (λ a, (a.1 < sequence + 1)%Z) (sh_order s') ∧ live m (sh_order s')
  ∧ (Z.of_nat (length (sh_order s')) ≤ MAX_BUCKETS_PER_SHARD * 2)%Z.
Proof.
  intros Hs Hpast Hu Hl Hsize Hlen. unfold record_access. cbn [sh_order sh_buckets].
  assert (Hs' : in_order (order ++ [(sequence, h)])) by (by apply StronglySorted_snoc).
  assert (Hpast' : Forall (λ a : Z * Z, (a.1 < sequence + 1)%Z) (order ++ [(sequence, h)])).
  { apply Forall_app. split; [|repeat constructor; simpl; lia]. eapply Forall_impl; [done|]. simpl. lia. }
  case_match eqn:Hover; [|split_and!; [done..|by apply Z.ltb_ge in Hover]].
  set (P := λ a : Z * Z, is_Some (find_access m a.2 a.1)).
  assert (Hf : in_order (filter P (order ++ [(sequence, h)]))) by by apply StronglySorted_filter.
  split_and!; [done| | |].
  - rewrite Forall_forall in Hpast' |- *. intros a [_ Ha]%list_elem_of_filter. by apply Hpast'.
  - intros k b Hk. apply list_elem_of_filter. split; [|by apply Hl]. exists k. by apply find_access_live.
  - assert (Hle : length (filter P (order ++ [(sequence, h)])) ≤ size m); [|lia].
    rewrite <- (length_fmap fst), <- length_map_to_list, <- (length_fmap (bk_sequence ∘ snd) (map_to_list m)).
    apply submseteq_length, NoDup_submseteq.
    + clear -Hf. induction Hf as [|a l _ IH Ha]; simpl; constructor; [|done].
      intros (b & Hb & Hin)%list_elem_of_fmap. rewrite Forall_forall in Ha. apply Ha in Hin. lia.
    + intros sq (a & -> & [[k Hk] _]%list_elem_of_filter)%list_elem_of_fmap.
      apply find_access_Some in Hk as (b & Hk & _ & <-). apply list_elem_of_fmap. exists (k, b).
      split; [done|]. by apply elem_of_map_to_list.
Qed.

Lemma consume_level b now q :
  consume b now q = ((consume (of_level (level b)) now q).1,
                     mkBucket (bk_tokens (consume (of_level (level b)) now q).2)
                       (bk_last_seen (consume (of_level (level b)) now q).2) (bk_sequence b)).
Proof. unfold consume. simpl. by case_match. Qed.

Lemma consume_sequence b now q : bk_sequence (consume b now q).2 = bk_sequence b.
Proof. by rewrite consume_level. Qed.

(** A bucket of the newest sequence enters a table that has no bucket there. *)
Lemma insert_newest s m bl k b v l :
  shard_wf s → (sh_next_sequence s + 1 < 2 ^ 64)%Z → m !! k = None → unique m → entries m bl →
  (∀ k' b', m !! k' = Some b' → sh_buckets s !! k' = Some b') →
  (Z.of_nat (size m) < MAX_BUCKETS_PER_SHARD)%Z → bk_sequence b = sh_next_sequence s → level b = v →
  l = prod_map id level <$> bl →
  ∀ order, in_order order → Forall (λ a, (a.1 < sh_next_sequence s)%Z) order → live m order →
    (Z.of_nat (length order) ≤ MAX_BUCKETS_PER_SHARD * 2)%Z →
    let s' := record_access (mkShard (<[k := b]> m) order ((sh_next_sequence s + 1) mod 2 ^ 64))
                (sh_next_sequence s) (hash k) in
    shard_wf s' ∧ represents s' (l ++ [(k, v)]).
Proof.
  intros Hwf Hnext Hk Hu He Hsub Hsize Hseq <- -> order Hs Hpast Hl Hlen s'.
  assert (Hold : ∀ k' b', m !! k' = Some b' → (bk_sequence b' < bk_sequence b)%Z).
  { intros k' b' Hk'. rewrite Hseq. apply Hsub, (sw_live s Hwf) in Hk'.
    pose proof (sw_past s Hwf) as Hp. rewrite Forall_forall in Hp. by apply Hp in Hk'. }
  assert (Hu' : unique (<[k := b]> m)).
  { intros j j' c c' [[<- <-]|[? Hj]]%lookup_insert_Some [[<- <-]|[? Hj']]%lookup_insert_Some Hc; [done| | |].
    - apply Hold in Hj'. lia.
    - apply Hold in Hj. lia.
    - by eapply Hu. }
  assert (Hl' : live (<[k := b]> m) (order ++ [(sh_next_sequence s, hash k)])).
  { intros j c [[<- <-]|[? Hj]]%lookup_insert_Some; apply elem_of_app.
    - right. rewrite Hseq. apply list_elem_of_here.
    - left. by apply Hl. }
  assert (Hsz : size (<[k := b]> m) = S (size m)) by by apply map_size_insert_None.
  pose proof (sw_next s Hwf) as Hn.
  assert (Hmod : ((sh_next_sequence s + 1) mod 2 ^ 64 = sh_next_sequence s + 1)%Z) by (apply Z.mod_small; lia).
  destruct (record_access_order (<[k := b]> m) order (sh_next_sequence s) (hash k)
              ((sh_next_sequence s + 1) mod 2 ^ 64) Hs Hpast Hu' Hl') as (H1 & H2 & H3 & H4); [lia..|].
  split.
  - split; [|exact H1| |exact H3|exact Hu'| |exact H4]; cbn; rewrite ?Hmod; [lia|exact H2|lia].
  - exists (bl ++ [(k, b)]). destruct (entries_insert m bl k b Hk Hold He) as [Hp Hss].
    split_and!; [exact Hp|exact Hss|by rewrite fmap_app].
Qed.

(** ** Each operation *)

Lemma entries_get m bl k :
  entries m bl → lru_get k (prod_map id level <$> bl) = level <$> m !! k.
Proof.
  intros He. unfold lru_get.
  assert (Hin : ∀ k' v, (k', v) ∈ filter (λ e : BucketKey * Level, e.1 = k) (prod_map id level <$> bl)
                        ↔ k' = k ∧ level <$> m !! k = Some v).
  { intros k' v. rewrite list_elem_of_filter, list_elem_of_fmap, fmap_Some. simpl. split.
    - intros [<- ([j b] & [= -> ->] & Hb)]. split; [done|]. exists b. split; [|done]. by apply (entries_elem _ _ _ _ He) in Hb.
    - intros [-> (b & Hb & ->)]. split; [done|]. exists (k, b). split; [done|]. by eapply entries_elem. }
  destruct (filter _ _) as [|[k' v] l]; simpl.
  - destruct (m !! k) as [b|]; [|done]. exfalso. by apply (elem_of_nil (k, level b)), Hin.
  - symmetry. by apply (Hin k' v), list_elem_of_here.
Qed.

Lemma entries_without bl k :
  without k (prod_map id level <$> bl) = prod_map id level <$> filter (λ e : BucketKey * Bucket, e.1 ≠ k) bl.
Proof.
  unfold without. induction bl as [|[k' b] bl IH]; [done|].
  rewrite fmap_cons, (filter_cons (λ e : BucketKey * Level, e.1 ≠ k)), (filter_cons (λ e : BucketKey * Bucket, e.1 ≠ k)).
  simpl. destruct (decide (k' = k)) as [->|Hne].
  - rewrite !decide_False by naive_solver. exact IH.
  - rewrite !decide_True by done. rewrite fmap_cons. f_equal. exact IH.
Qed.

Lemma filter_all {A} (P : A → Prop) `{∀ x, base.Decision (P x)} (l : list A) : (∀ x, x ∈ l → P x) → filter P l = l.
Proof.
  induction l as [|x l IH]; intros Hl; [done|]. rewrite filter_cons, decide_True by (apply Hl, list_elem_of_here).
  f_equal. apply IH. intros y Hy. apply Hl, elem_of_cons. by right.
Qed.

Lemma unique_sub (m m' : gmap (string * string) Bucket) :
  (∀ k b, m' !! k = Some b → m !! k = Some b) → unique m → unique m'.
Proof. intros Hs Hu k k' b b' Hk Hk'. eapply Hu; by apply Hs. Qed.

(** A full table makes room. *)
Lemma evicted s bl :
  shard_wf s → entries (sh_buckets s) bl → bl ≠ [] →
  ∃ m order, evict (sh_buckets s) (sh_order s) = (m, order)
    ∧ entries m (tail bl) ∧ (∀ k b, m !! k = Some b → sh_buckets s !! k = Some b)
    ∧ in_order order ∧ live m order ∧ (∃ pre, sh_order s = pre ++ order).
Proof.
  intros Hwf He Hne. destruct bl as [|[k0 b0] bl]; [done|].
  pose proof He as [Hp0 Hs0].
  assert (Hk0 : sh_buckets s !! k0 = Some b0) by (eapply entries_elem; [done|apply list_elem_of_here]).
  destruct (evict_oldest_entry _ _ _ _ _ (sw_unique s Hwf) (sw_sorted s Hwf) (sw_live s Hwf) He)
    as (pre & post & Hord & Hev).
  pose proof (sw_sorted s Hwf) as Hs. rewrite Hord in Hs.
  exists (delete k0 (sh_buckets s)), post. split_and!; [done| | | | |].
  - pose proof (entries_delete _ _ k0 He) as Hd. rewrite filter_cons in Hd. simpl in Hd.
    rewrite decide_False in Hd by naive_solver. rewrite filter_all in Hd; [exact Hd|].
    intros [k b] Hin Heq. simpl in Heq. subst k. apply entries_NoDup in He as [Hn _]%NoDup_cons.
    apply Hn. assert (Hb : (k0, b) ∈ (k0, b0) :: bl) by by right.
    apply (entries_elem _ _ _ _ (conj Hp0 Hs0)) in Hb. assert (b = b0) as -> by congruence. done.
  - intros k b [_ ?]%lookup_delete_Some. done.
  - apply in_order_post in Hs. by apply StronglySorted_inv in Hs as [? _].
  - intros k b [Hne' Hk]%lookup_delete_Some. pose proof (sw_live s Hwf k b Hk) as Hin. rewrite Hord in Hin.
    assert (Hin0 : (k, b) ∈ (k0, b0) :: bl) by by eapply entries_elem.
    apply elem_of_cons in Hin0 as [[= ??]|Hin0]; [done|].
    destruct He as [_ He]. apply StronglySorted_inv in He as [_ He]. rewrite Forall_forall in He.
    apply He in Hin0. unfold older in Hin0. simpl in Hin0.
    apply elem_of_app in Hin as [Hin|[[= ? _]|Hin]%elem_of_cons]; [|lia|done].
    eapply (in_order_app _ _ _ (bk_sequence b0, hash k0)) in Hin; [|exact Hs|apply list_elem_of_here]. simpl in Hin. lia.
  - exists (pre ++ [(bk_sequence b0, hash k0)]). by rewrite <- app_assoc.
Qed.

Lemma wf_rest s order :
  shard_wf s → (∃ pre, sh_order s = pre ++ order) →
  Forall (λ a, (a.1 < sh_next_sequence s)%Z) order ∧ (Z.of_nat (length order) ≤ MAX_BUCKETS_PER_SHARD * 2)%Z.
Proof.
  intros Hwf [pre Hord]. pose proof (sw_past s Hwf) as Hp. pose proof (sw_order s Hwf) as Ho.
  rewrite Hord in Hp, Ho. apply Forall_app in Hp as [_ Hp]. rewrite length_app in Ho. split; [done|lia].
Qed.

(** One check of a shard is one check of the reference table. *)
Lemma check_shard_refines s l k now q :
  shard_wf s → represents s l → (sh_next_sequence s + 1 < 2 ^ 64)%Z →
  (check_shard s k now q).1 = (lru_check l k now q).1
  ∧ shard_wf (check_shard s k now q).2 ∧ represents (check_shard s k now q).2 (lru_check l k now q).2.
Proof.
  intros Hwf (bl & Hbl & Hss & ->) Hnext. assert (He : entries (sh_buckets s) bl) by done.
  unfold check_shard, lru_check. rewrite (entries_get _ _ _ He). cbn [sh_buckets sh_order sh_next_sequence].
  destruct (sh_buckets s !! k) as [b|] eqn:Hk; cbn [fmap option_fmap option_map].
  - rewrite consume_level. set (c := consume (of_level (level _)) now q). simpl in c.
    change (consume (of_level (level b)) now q) with c. destruct c as [decision c]. cbn [fst snd]. split; [done|].
    rewrite <- insert_delete_eq, entries_without.
    apply (insert_newest s (delete k (sh_buckets s)) (filter (λ e, e.1 ≠ k) bl)); try done.
    + apply lookup_delete_eq.
    + eapply unique_sub; [|exact (sw_unique s Hwf)]. by intros ?? [_ ?]%lookup_delete_Some.
    + by apply entries_delete.
    + by intros ?? [_ ?]%lookup_delete_Some.
    + pose proof (sw_buckets s Hwf). rewrite map_size_delete_Some by done.
      assert (size (sh_buckets s) ≠ 0) by (intros Hz%map_size_empty_inv; by rewrite Hz, lookup_empty in Hk). lia.
    + apply Hwf.
    + apply Hwf.
    + intros j c' [_ Hj]%lookup_delete_Some. by apply Hwf.
    + apply Hwf.
  - rewrite consume_level. change (level (mkBucket (qt_capacity q) now (sh_next_sequence s))) with (qt_capacity q, now).
    set (c := consume (of_level (qt_capacity q, now)) now q).
    destruct c as [decision c]. cbn [fst snd]. rewrite length_fmap, (entries_length _ _ He).
    split; [done|].
    assert (Hnew : ∀ m order, entries m (if (MAX_BUCKETS_PER_SHARD <=? Z.of_nat (size (sh_buckets s)))%Z then tail bl else bl) →
      (∀ k b, m !! k = Some b → sh_buckets s !! k = Some b) → in_order order → live m order →
      (∃ pre, sh_order s = pre ++ order) →
      (Z.of_nat (size m) < MAX_BUCKETS_PER_SHARD)%Z →
      let s' := record_access (mkShard (<[k := mkBucket (bk_tokens c) (bk_last_seen c) (sh_next_sequence s)]> m) order
                  ((sh_next_sequence s + 1) mod 2 ^ 64)) (sh_next_sequence s) (hash k) in
      shard_wf s' ∧ represents s' ((if (MAX_BUCKETS_PER_SHARD <=? Z.of_nat (size (sh_buckets s)))%Z
        then tail (prod_map id level <$> bl) else prod_map id level <$> bl) ++ [(k, level c)])).
    { intros m order Hm Hsub Ho Hlv Hpre Hsz. destruct (wf_rest s order Hwf Hpre) as [? ?].
      apply (insert_newest s m (if (MAX_BUCKETS_PER_SHARD <=? Z.of_nat (size (sh_buckets s)))%Z then tail bl else bl)); try done.
      - destruct (m !! k) eqn:Hmk; [|done]. apply Hsub in Hmk. congruence.
      - by eapply unique_sub; [|exact (sw_unique s Hwf)].
      - case_match; [|done]. by destruct bl. }
    case_match eqn:Hfull.
    + destruct (evicted s bl Hwf He) as (m & order & Hev & Hm & Hsub & Ho & Hlv & Hpre).
      { intros ->. apply entries_length in He. simpl in He. apply Z.leb_le in Hfull. rewrite <- He in Hfull. done. }
      unfold evict_oldest. cbn [sh_buckets sh_order sh_next_sequence]. rewrite Hev. apply Hnew; try done.
      pose proof (entries_length _ _ Hm) as Hlen. pose proof (entries_length _ _ He) as Hlen0.
      pose proof (sw_buckets s Hwf). apply Z.leb_le in Hfull. destruct bl; simpl in *; [|lia].
      rewrite <- Hlen0 in Hfull. done.
    + cbn [sh_buckets sh_order sh_next_sequence].
      apply Hnew; try done; [exact (sw_sorted s Hwf)|exact (sw_live s Hwf)|by exists []|]. by apply Z.leb_gt in Hfull.
Qed.

(** Dropping buckets leaves their slots stale. *)
Lemma drop_refines s bl m' (P : BucketKey * Bucket → Prop) `{∀ x, base.Decision (P x)} :
  shard_wf s → entries (sh_buckets s) bl →
  (∀ k b, m' !! k = Some b ↔ sh_buckets s !! k = Some b ∧ P (k, b)) →
  let s' := mkShard m' (sh_order s) (sh_next_sequence s) in
  shard_wf s' ∧ represents s' (prod_map id level <$> filter P bl).
Proof.
  intros Hwf He Hm s'. pose proof (entries_sub _ m' bl P Hm He) as He'. split.
  - split; try apply Hwf; cbn [sh_buckets s'].
    + intros k b [? _]%Hm. by apply Hwf.
    + intros k k' b b' [? _]%Hm [? _]%Hm. by apply Hwf.
    + pose proof (sw_buckets s Hwf). rewrite <- (entries_length _ _ He'). rewrite <- (entries_length _ _ He) in *.
      pose proof (length_filter P bl). lia.
  - exists (filter P bl). by destruct He'.
Qed.

Lemma reset_shard_refines s l k :
  shard_wf s → represents s l → shard_wf (reset_shard s k) ∧ represents (reset_shard s k) (without k l).
Proof.
  intros Hwf (bl & Hp & Hs & ->). rewrite entries_without. apply drop_refines; [done|by split|].
  intros j b. rewrite lookup_delete_Some. simpl. naive_solver.
Qed.

Lemma idle_entries now bl :
  lru_idle (prod_map id level <$> bl) now = prod_map id level <$> filter (λ kb : BucketKey * Bucket, idle now kb.2 = false) bl.
Proof.
  unfold lru_idle. induction bl as [|[k b] bl IH]; [done|].
  rewrite fmap_cons, (filter_cons (λ e : BucketKey * Level, idle now (of_level e.2) = false)),
    (filter_cons (λ kb : BucketKey * Bucket, idle now kb.2 = false)).
  simpl. destruct (decide (idle now b = false)) as [Hi|Hi].
  - rewrite !decide_True by done. rewrite fmap_cons. f_equal. exact IH.
  - rewrite !decide_False by done. exact IH.
Qed.

Lemma evict_idle_shard_refines s l now :
  shard_wf s → represents s l → shard_wf (evict_idle_shard s now) ∧ represents (evict_idle_shard s now) (lru_idle l now).
Proof.
  intros Hwf (bl & Hp & Hs & ->). rewrite idle_entries. apply drop_refines; [done|by split|].
  intros j b. by rewrite map_lookup_filter_Some.
Qed.

(** ** Sequences of operations on the limiter *)

Inductive Op :=
| OpCheck (scope key : string) (now : Z) (q : Quota)
| OpReset (scope key : string)
| OpEvictIdle (now : Z).

Definition run_op (r : RateLimiter) (o : Op) : option (option Decision) * RateLimiter :=
  match o with
  | OpCheck scope key now q => let '(d, r) := check r scope key now q in (Some d, r)
  | OpReset scope key => (None, reset r scope key)
  | OpEvictIdle now => (None, (evict_idle r now).2)
  end.

(** The reference: a table per shard. *)
Definition lru_op (ls : list Lru) (o : Op) : option (option Decision) * list Lru :=
  match o with
  | OpCheck scope key now q =>
      let i := shard_for (hash_of scope key) in
      let '(d, l) := lru_check (default [] (ls !! i)) (scope, key) now q in (Some d, <[i := l]> ls)
  | OpReset scope key => (None, alter (without (scope, key)) (shard_for (hash_of scope key)) ls)
  | OpEvictIdle now => (None, (λ l, lru_idle l now) <$> ls)
  end.

(** The answers of a sequence of operations, and the last state. *)
Fixpoint run_ops {S A} (step : S → Op → A * S) (s : S) (ops : list Op) : list A * S :=
  match ops with
  | [] => ([], s)
  | o :: ops => let '(a, s1) := step s o in let '(l, s2) := run_ops step s1 ops in (a :: l, s2)
  end.

(** After [n] operations. *)
Record limiter_rel (n : Z) (r : RateLimiter) (ls : list Lru) : Prop := {
  lr_enabled : rl_enabled r = true;
  lr_shards : length (rl_shards r) = Z.to_nat SHARDS;
  lr_rel : Forall2 (λ s l, shard_wf s ∧ represents s l ∧ (sh_next_sequence s ≤ n)%Z) (rl_shards r) ls;
}.

Lemma shard_for_lt h : shard_for h < Z.to_nat SHARDS.
Proof. unfold shard_for. apply Z2Nat.inj_lt; [apply Z.mod_pos_bound; done|done|]. by apply Z.mod_pos_bound. Qed.

Lemma check_shard_next s k now q :
  sh_next_sequence (check_shard s k now q).2 = ((sh_next_sequence s + 1) mod 2 ^ 64)%Z.
Proof.
  unfold check_shard. cbn [sh_buckets]. destruct (sh_buckets s !! k).
  - by destruct (consume _ _ _).
  - destruct (consume _ _ _). case_match; [|done]. unfold evict_oldest. cbn [sh_buckets sh_order]. by destruct (evict _ _).
Qed.

Lemma run_op_refines n r ls o :
  limiter_rel n r ls → (0 ≤ n)%Z → (n + 1 < 2 ^ 64)%Z →
  (run_op r o).1 = (lru_op ls o).1 ∧ limiter_rel (n + 1) (run_op r o).2 (lru_op ls o).2.
Proof.
  intros [Hen Hlen Hrel] Hn Hlt.
  assert (Hweak : Forall2 (λ s l, shard_wf s ∧ represents s l ∧ (sh_next_sequence s ≤ n + 1)%Z) (rl_shards r) ls).
  { eapply Forall2_impl; [exact Hrel|]. intros s l (? & ? & ?). split_and!; [done..|lia]. }
  destruct o as [scope key now q|scope key|now]; cbn [run_op lru_op fst snd].
  - unfold check. rewrite Hen. cbn [negb]. set (i := shard_for (hash_of scope key)).
    assert (is_Some (rl_shards r !! i)) as [s Hs] by (apply lookup_lt_is_Some; rewrite Hlen; apply shard_for_lt).
    rewrite Hs. destruct (Forall2_lookup_l _ _ _ _ _ Hrel Hs) as (l & Hl & Hwf & Hrep & Hnext). rewrite Hl. cbn [default from_option id].
    destruct (check_shard_refines s l (scope, key) now q Hwf Hrep) as (Hd & Hwf' & Hrep'); [lia|].
    pose proof (check_shard_next s (scope, key) now q) as Hnx.
    destruct (check_shard s (scope, key) now q) as [d s'], (lru_check l (scope, key) now q) as [d' l'].
    cbn [fst snd] in *.
    subst d'. split; [done|]. split; cbn [rl_enabled rl_shards]; [done|by rewrite length_insert|].
    apply Forall2_insert; [done|]. split_and!; [done..|]. rewrite Hnx.
    pose proof (Z.mod_le (sh_next_sequence s + 1) (2 ^ 64)). pose proof (sw_next s Hwf). lia.
  - split; [done|]. unfold reset. rewrite Hen. cbn [negb]. split; cbn [rl_enabled rl_shards]; [done|by rewrite length_alter|].
    apply Forall2_alter; [done|]. intros s l _ _ (Hwf & Hrep & ?).
    destruct (reset_shard_refines s l (scope, key) Hwf Hrep). by split_and!.
  - split; [done|]. unfold evict_idle. rewrite Hen. cbn [negb snd]. split; cbn [rl_enabled rl_shards]; [done|by rewrite length_fmap|].
    apply Forall2_fmap. eapply Forall2_impl; [exact Hweak|]. intros s l (Hwf & Hrep & ?).
    destruct (evict_idle_shard_refines s l now Hwf Hrep). by split_and!.
Qed.

Lemma run_ops_refines n r ls ops :
  limiter_rel n r ls → (0 ≤ n)%Z → (n + Z.of_nat (length ops) < 2 ^ 64)%Z →
  (run_ops run_op r ops).1 = (run_ops lru_op ls ops).1
  ∧ limiter_rel (n + Z.of_nat (length ops)) (run_ops run_op r ops).2 (run_ops lru_op ls ops).2.
Proof.
  revert n r ls. induction ops as [|o ops IH]; intros n r ls Hrel Hn Hlt; cbn [run_ops length] in *.
  - split; [done|]. by replace (n + Z.of_nat 0)%Z with n by lia.
  - destruct (run_op_refines n r ls o Hrel Hn) as [Ha Hrel1]; [lia|].
    destruct (run_op r o) as [a r1], (lru_op ls o) as [a' ls1]. cbn [fst snd] in Ha, Hrel1. subst a'.
    destruct (IH (n + 1)%Z r1 ls1 Hrel1) as [Hl Hrel2]; [lia..|].
    destruct (run_ops run_op r1 ops) as [l1 r2], (run_ops lru_op ls1 ops) as [l2 ls2]. cbn [fst snd] in *. subst l2.
    split; [done|]. by replace (n + Z.of_nat (S (length ops)))%Z with (n + 1 + Z.of_nat (length ops))%Z by lia.
Qed.

Lemma limiter_rel_new limits : limiter_rel 0 (RateLimiter_new limits) (replicate (Z.to_nat SHARDS) []).
Proof.
  split; [done|done|]. cbn [rl_shards RateLimiter_new]. unfold new_shards.
  apply Forall2_replicate. split_and!; [|by exists []; split_and!; [|constructor|]|done].
  split; simpl; try done; try constructor; try lia; by intros ???; rewrite lookup_empty.
Qed.

(** C40: The limiter is a least-recently-used table: over any checks, resets and
    idle evictions, fewer than 2^64, it decides each check as sixteen exact
    tables do, which move a key to the end on each check and forget the key seen
    longest ago only to admit a new one when full; and its shards, stale queue
    slots included, stay bounded. *)
Theorem limiter_refines_lru limits ops :
  (Z.of_nat (length ops) < 2 ^ 64)%Z →
  let '(decisions, r) := run_ops run_op (RateLimiter_new limits) ops in
  let '(decisions', ls) := run_ops lru_op (replicate (Z.to_nat SHARDS) []) ops in
  decisions = decisions'
  ∧ Forall2 represents (rl_shards r) ls
  ∧ Forall (λ s, (Z.of_nat (size (sh_buckets s)) ≤ 6250)%Z ∧ (Z.of_nat (length (sh_order s)) ≤ 12500)%Z) (rl_shards r).
Proof.
  intros Hlen. destruct (run_ops_refines 0 (RateLimiter_new limits) (replicate (Z.to_nat SHARDS) []) ops) as [Hd [_ _ Hrel]];
    [apply limiter_rel_new|lia..|].
  destruct (run_ops run_op _ ops) as [decisions r], (run_ops lru_op _ ops) as [decisions' ls]. cbn [fst snd] in *.
  split_and!; [done| |].
  - eapply Forall2_impl; [exact Hrel|]. by intros s l (_ & ? & _).
  - apply Forall_forall. intros s (i & Hi)%list_elem_of_lookup.
    destruct (Forall2_lookup_l _ _ _ _ _ Hrel Hi) as (l & _ & Hwf & _). split; apply Hwf.
Qed.

(** ** Bursts *)

(** The decisions of [n] requests at one instant on a bucket seen then. *)
Fixpoint burst (q : Quota) (tokens : spec_float) (n : nat) : list (option Decision) :=
  match n with
  | 0 => []
  | S n => let '(d, b) := consume (mkBucket tokens 0 0) 0 q in d :: burst q (bk_tokens b) n
  end.

Lemma consume_at_once tokens now sequence q :
  consume (mkBucket tokens now sequence) now q =
    ((consume (mkBucket tokens 0 0) 0 q).1, mkBucket (bk_tokens (consume (mkBucket tokens 0 0) 0 q).2) now sequence).
Proof.
  unfold consume. cbn [bk_tokens bk_last_seen bk_sequence]. rewrite Z.sub_diag. change (0 - 0)%Z with 0%Z.
  by destruct (SFleb _ _).
Qed.

(** The shard of a key, when the limiter is on. *)
Definition bucket_of (r : RateLimiter) (scope key : string) : option Bucket :=
  s ← rl_shards r !! shard_for (hash_of scope key); sh_buckets s !! (scope, key).

Lemma check_known r scope key now q s b :
  rl_enabled r = true → rl_shards r !! shard_for (hash_of scope key) = Some s → sh_buckets s !! (scope, key) = Some b →
  let r' := (check r scope key now q).2 in
  (check r scope key now q).1 = (consume b now q).1 ∧ rl_enabled r' = true
  ∧ ∃ s' b', rl_shards r' !! shard_for (hash_of scope key) = Some s' ∧ sh_buckets s' !! (scope, key) = Some b'
    ∧ level b' = level (consume b now q).2.
Proof.
  intros Hen Hs Hb. unfold check. rewrite Hen, Hs. cbn [negb]. unfold check_shard. cbn [sh_buckets]. rewrite Hb.
  rewrite (consume_level (mkBucket _ _ _)), (consume_level b). change (level (mkBucket _ _ _)) with (level b).
  destruct (consume (of_level (level b)) now q) as [d c]. cbn [fst snd].
  split_and!; [done|done|]. cbn [rl_shards]. do 2 eexists. split_and!.
  - apply list_lookup_insert_eq. by eapply lookup_lt_Some.
  - unfold record_access. cbn [sh_buckets]. apply lookup_insert_eq.
  - done.
Qed.

Lemma known_burst scope key now q n r s b :
  rl_enabled r = true → rl_shards r !! shard_for (hash_of scope key) = Some s → sh_buckets s !! (scope, key) = Some b →
  bk_last_seen b = now →
  (run_ops run_op r (replicate n (OpCheck scope key now q))).1 = Some <$> burst q (bk_tokens b) n.
Proof.
  intros Hen Hs Hb Hnow. revert r s b Hen Hs Hb Hnow. induction n as [|n IH]; intros r s b Hen Hs Hb Hnow; [done|].
  cbn [replicate run_ops run_op burst].
  destruct (check_known r scope key now q s b Hen Hs Hb) as (Hd & Hen' & s' & b' & Hs' & Hb' & Hl).
  destruct (check r scope key now q) as [d r']. cbn [fst snd] in *.
  assert (Hc : consume b now q = ((consume (mkBucket (bk_tokens b) 0 0) 0 q).1,
    mkBucket (bk_tokens (consume (mkBucket (bk_tokens b) 0 0) 0 q).2) now (bk_sequence b))).
  { rewrite <- consume_at_once, <- Hnow. by destruct b. }
  rewrite Hc in Hd, Hl. destruct (consume (mkBucket (bk_tokens b) 0 0) 0 q) as [d0 b0]. cbn [fst snd] in *. subst d.
  injection Hl as Ht Hlast. cbn [bk_tokens bk_last_seen] in Ht, Hlast.
  specialize (IH r' s' b' Hen' Hs' Hb' Hlast).
  destruct (run_ops run_op r' _) as [l r2]. cbn [fst] in *. by rewrite IH, Ht.
Qed.

Lemma new_burst scope key now q n r s :
  rl_enabled r = true → rl_shards r !! shard_for (hash_of scope key) = Some s → sh_buckets s !! (scope, key) = None →
  (run_ops run_op r (replicate n (OpCheck scope key now q))).1 = Some <$> burst q (qt_capacity q) n.
Proof.
  intros Hen Hs Hb. destruct n as [|n]; [done|]. cbn [replicate run_ops run_op burst].
  assert (∃ r' s' b', check r scope key now q = ((consume (mkBucket (qt_capacity q) 0 0) 0 q).1, r') ∧ rl_enabled r' = true
    ∧ rl_shards r' !! shard_for (hash_of scope key) = Some s' ∧ sh_buckets s' !! (scope, key) = Some b'
    ∧ level b' = (bk_tokens (consume (mkBucket (qt_capacity q) 0 0) 0 q).2, now)) as (r' & s' & b' & Hc & Hen' & Hs' & Hb' & Hl).
  { unfold check. rewrite Hen, Hs. cbn [negb]. unfold check_shard. cbn [sh_buckets]. rewrite Hb, consume_at_once.
    do 3 eexists. split_and!; [done|done| | |].
    - cbn [rl_shards]. apply list_lookup_insert_eq. by eapply lookup_lt_Some.
    - unfold record_access. cbn [sh_buckets]. apply lookup_insert_eq.
    - done. }
  rewrite Hc. destruct (consume (mkBucket (qt_capacity q) 0 0) 0 q) as [d0 b0]. cbn [fst snd] in *.
  injection Hl as Ht Hlast. pose proof (known_burst scope key now q n r' s' b' Hen' Hs' Hb' Hlast) as Hr.
  destruct (run_ops run_op r' _) as [l r2]. cbn [fst] in *. by rewrite Hr, Ht.
Qed.

(** The six limits, with their capacity and the delay of a refused request. *)
Definition default_quotas : list (Quota * nat * Z) :=
  [(login_per_ip Limits_default, 10, 6%Z); (login_per_account Limits_default, 10, 30%Z);
   (register_per_ip Limits_default, 3, 600%Z); (refresh_per_ip Limits_default, 60, 1%Z);
   (submit_per_org Limits_default, 60, 1%Z); (oauth_per_ip Limits_default, 10, 10%Z)].

Lemma burst_exhausted q n d :
  consume (mkBucket (S754_zero false) 0 0) 0 q = (Some (Deny d), mkBucket (S754_zero false) 0 0) →
  burst q (S754_zero false) n = replicate n (Some (Deny d)).
Proof. intros Hc. induction n as [|n IH]; [done|]. cbn [burst replicate]. rewrite Hc. by rewrite <- IH. Qed.

(** The tokens left after [n] requests at one instant. *)
Fixpoint spent (q : Quota) (tokens : spec_float) (n : nat) : spec_float :=
  match n with
  | 0 => tokens
  | S n => spent q (bk_tokens (consume (mkBucket tokens 0 0) 0 q).2) n
  end.

Lemma burst_app q tokens n m : burst q tokens (n + m) = burst q tokens n ++ burst q (spent q tokens n) m.
Proof.
  revert tokens. induction n as [|n IH]; intros tokens; [done|]. cbn [Nat.add burst spent].
  destruct (consume _ _ _) as [d b]. cbn [snd app]. by rewrite IH.
Qed.

(** What the arithmetic comes to for each limit. *)
Lemma default_quotas_computed :
  Forall (λ x, burst x.1.1 (qt_capacity x.1.1) x.1.2 = replicate x.1.2 (Some Allow)
               ∧ spent x.1.1 (qt_capacity x.1.1) x.1.2 = S754_zero false
               ∧ consume (mkBucket (S754_zero false) 0 0) 0 x.1.1 = (Some (Deny x.2), mkBucket (S754_zero false) 0 0))
    default_quotas.
Proof. unfold default_quotas. repeat constructor; vm_compute; reflexivity. Qed.

(** Bursts are exact: at one instant, a caller the limiter does not know is
    allowed exactly as many requests as the limit's capacity, whatever the
    limiter holds, and every further one is refused with the limit's delay. *)
Theorem default_burst_exact q n d r s scope key now m :
  (q, n, d) ∈ default_quotas → rl_enabled r = true →
  rl_shards r !! shard_for (hash_of scope key) = Some s → sh_buckets s !! (scope, key) = None →
  (run_ops run_op r (replicate (n + m) (OpCheck scope key now q))).1 =
    replicate n (Some (Some Allow)) ++ replicate m (Some (Some (Deny d))).
Proof.
  intros Hq Hen Hs Hb. pose proof default_quotas_computed as Hc. rewrite Forall_forall in Hc.
  destruct (Hc _ Hq) as (Hburst & Hspent & Hd). cbn [fst snd] in *.
  rewrite (new_burst scope key now q (n + m) r s), burst_app, Hburst, Hspent, (burst_exhausted _ _ _ Hd) by done.
  by rewrite fmap_app, !fmap_replicate.
Qed.

(** ** The address a request counts against ([client_address]) *)

(** [forwarded_for] is the header as text, if there; [peer] the socket's
    address. *)
Definition client_address (forwarded_for peer : option string) (trust_forwarded_for : bool) : string :=
  let forwarded :=
    if trust_forwarded_for
    then h ← forwarded_for; last (filter (λ v, v ≠ "") (trim <$> split_char ","%char h))
    else None in
  default (default "unknown" peer) forwarded.

(** ** The Hub's calls ([hub/state.rs]) *)

Definition limited (d : Decision) : Res HubError unit :=
  match d with Allow => Ok tt | Deny seconds => Err (RateLimited seconds) end.

Definition rate_limit_ip (r : RateLimiter) (forwarded_for peer : option string) (trust_forwarded_for : bool)
    (scope : string) (now : Z) (q : Quota) : option (Res HubError unit) * RateLimiter :=
  let '(d, r) := check r scope (client_address forwarded_for peer trust_forwarded_for) now q in
  (limited <$> d, r).

Definition rate_limit_key (r : RateLimiter) (scope key : string) (now : Z) (q : Quota)
    : option (Res HubError unit) * RateLimiter :=
  let '(d, r) := check r scope key now q in (limited <$> d, r).

Lemma split_char_app c x y :
  split_char c (x +:+ String c y) = split_char c x ++ split_char c y.
Proof.
  induction x as [|a x IH]; simpl.
  - by rewrite Ascii.eqb_refl.
  - destruct (Ascii.eqb a c); [by rewrite IH|]. rewrite IH. pose proof (split_char_nonempty c x) as Hne.
    by destruct (split_char c x).
Qed.

(** A client does not choose the address it counts against: without a
    declared proxy the header is ignored, and behind one only the entry the proxy
    appended matters, so whatever a client writes before it the request is
    checked against the same bucket. *)
Theorem forwarded_entries_ignored r spoofed address peer scope now q :
  str_all (λ a, negb (Ascii.eqb a ",")) address = true → trim address ≠ "" →
  rate_limit_ip r (Some (spoofed +:+ String "," address)) peer true scope now q
    = rate_limit_key r scope (trim address) now q
  ∧ rate_limit_ip r (Some (spoofed +:+ String "," address)) peer false scope now q
    = rate_limit_ip r None peer false scope now q.
Proof.
  intros Hc Hne. unfold rate_limit_ip, rate_limit_key, client_address. split; [|done].
  cbn [mbind option_bind]. rewrite split_char_app, (split_char_none _ _ Hc), fmap_app, filter_app.
  change (trim <$> [address]) with [trim address]. rewrite filter_cons, decide_True, filter_nil by done.
  by rewrite last_snoc.
Qed.

End limiter.

(** ** Witnesses *)

(** A hasher, and a full shard's neighbours. *)
Definition length_hash (scope key : string) : Z := Z.of_nat (String.length scope + String.length key).

Definition some_ops : list Op :=
  let q := register_per_ip Limits_default in
  [OpCheck "a" "x" 0 q; OpCheck "a" "y" 0 q; OpReset "a" "y"; OpCheck "a" "x" 5000000000 q; OpEvictIdle 7200000000000].

Lemma limiter_refines_lru_witness :
  (run_ops (run_op length_hash) (RateLimiter_new Limits_default) some_ops).1
  = (run_ops (lru_op length_hash) (replicate (Z.to_nat SHARDS) []) some_ops).1
  ∧ (run_ops (lru_op length_hash) (replicate (Z.to_nat SHARDS) []) some_ops).1 =
    [Some (Some Allow); Some (Some Allow); None; Some (Some Allow); None].
Proof.
  split; [|vm_compute; reflexivity].
  pose proof (limiter_refines_lru length_hash Limits_default some_ops ltac:(vm_compute; reflexivity)) as H.
  destruct (run_ops (run_op length_hash) _ _) as [ds r], (run_ops (lru_op length_hash) _ _) as [ds' ls]. exact (proj1 H).
Defined.

Lemma default_burst_exact_witness :
  (run_ops (run_op length_hash) (RateLimiter_new Limits_default)
     (replicate 5 (OpCheck "auth.register" "10.0.0.1" 0 (register_per_ip Limits_default)))).1 =
    [Some (Some Allow); Some (Some Allow); Some (Some Allow); Some (Some (Deny 600)); Some (Some (Deny 600))].
Proof.
  apply (default_burst_exact length_hash (register_per_ip Limits_default) 3 600 (RateLimiter_new Limits_default)
           Shard_default "auth.register" "10.0.0.1" 0 2); [|reflexivity..].
  right. right. left.
Defined.

Lemma forwarded_entries_ignored_witness :
  (rate_limit_ip length_hash (RateLimiter_new Limits_default) (Some ("1.1.1.1, 2.2.2.2" +:+ ", 3.3.3.3")) None true "auth.login.ip" 0
     (login_per_ip Limits_default)).1 = Some (Ok tt).
Proof.
  rewrite (proj1 (forwarded_entries_ignored length_hash (RateLimiter_new Limits_default) "1.1.1.1, 2.2.2.2" " 3.3.3.3" None
                    "auth.login.ip" 0 (login_per_ip Limits_default) eq_refl ltac:(by vm_compute))).
  vm_compute. reflexivity.
Defined.
