(* ===== verification/Accounts.v ===== *)
(** Accounts in the store ([nagisalake-hub-store/src/accounts.rs], [sessions.rs],
    [organizations.rs], [credentials.rs]): users, their federated identities and
    sign-ins, organizations with members and invitations, browser sessions, API
    keys and worker credentials.

    The tables are finite maps beside the database of jobs; a transaction is one
    function, which leaves the tables alone when it fails.  Constraints and
    cascades of the schema are written out.  Ids, codes and the clock are
    arguments.

    Main results: an organization keeps an owner whatever is done to its
    members; revocation is final and a refresh token works once; an unverified
    address links to no account; a sign-in state and an invitation are used at
    most once. *)

From S2P Require Import Prelude Text HubTypes Principal Store.
From Stdlib Require Import ZArith Lia.

(** ** Tables *)

(** A row of [users], by id. *)
Record UserRow := mkUserRow {
  us_email : string;
  us_email_normalized : string;
  us_password_hash : option string;
  us_status : string;
  us_email_verified_at : option Z;
  us_created_at : Z;
  us_updated_at : Z;
  us_failed_login_attempts : Z;
  us_locked_until : option Z;
}.

(** A row of [organizations], by id. *)
Record OrganizationRow := mkOrganizationRow {
  og_name : string;
  og_status : string;
  og_created_at : Z;
  og_updated_at : Z;
}.

(** A row of [memberships], by organization and user. *)
Record MembershipRow := mkMembershipRow {
  mb_role : string;
  mb_created_at : Z;
  mb_updated_at : Z;
}.

(** A row of [organization_invites], by id. *)
Record OrganizationInviteRow := mkOrganizationInviteRow {
  iv_organization_id : string;
  iv_inviter_user_id : string;
  iv_code_prefix : string;
  iv_code_hash : string;
  iv_role : string;
  iv_created_at : Z;
  iv_expires_at : Z;
  iv_accepted_at : option Z;
  iv_accepted_by_user_id : option string;
  iv_revoked_at : option Z;
}.

(** A row of [browser_sessions], by id. *)
Record SessionRow := mkSessionRow {
  bs_user_id : string;
  bs_organization_id : string;
  bs_access_token_hash : string;
  bs_refresh_token_hash : string;
  bs_csrf_token_hash : string;
  bs_family_id : string;
  bs_created_at : Z;
  bs_last_seen_at : Z;
  bs_access_expires_at : Z;
  bs_refresh_expires_at : Z;
  bs_revoked_at : option Z;
  bs_user_agent_hash : option string;
  bs_ip_hash : option string;
}.

(** A row of [user_identities], by provider and subject. *)
Record IdentityRow := mkIdentityRow {
  id_user_id : string;
  id_email : option string;
  id_email_verified : bool;
  id_created_at : Z;
  id_last_login_at : option Z;
}.

(** A row of [oauth_authorizations], by state. *)
Record AuthorizationRow := mkAuthorizationRow {
  oa_provider : string;
  oa_pkce_verifier : string;
  oa_redirect_path : string;
  oa_created_at : Z;
  oa_expires_at : Z;
  oa_consumed_at : option Z;
}.

(** A row of [api_keys], by id. *)
Record ApiKeyRow := mkApiKeyRow {
  ak_organization_id : string;
  ak_creator_user_id : string;
  ak_name : string;
  ak_prefix : string;
  ak_key_hash : string;
  ak_scopes : string;
  ak_created_at : Z;
  ak_last_used_at : option Z;
  ak_expires_at : option Z;
  ak_revoked_at : option Z;
}.

(** A row of [worker_credentials], by id. *)
Record WorkerCredentialRow := mkWorkerCredentialRow {
  wc_organization_id : string;
  wc_owner_user_id : option string;
  wc_name : string;
  wc_token_prefix : string;
  wc_token_hash : string;
  wc_allowed_namespace : option string;
  wc_created_at : Z;
  wc_last_used_at : option Z;
  wc_expires_at : option Z;
  wc_revoked_at : option Z;
}.

(** A row of [device_share_invites], by id. *)
Record DeviceInviteRow := mkDeviceInviteRow {
  di_organization_id : string;
  di_device_id : string;
  di_owner_user_id : string;
  di_code_prefix : string;
  di_code_hash : string;
  di_max_uses : Z;
  di_use_count : Z;
  di_expires_at : option Z;
  di_revoked_at : option Z;
  di_created_at : Z;
  di_allowed_workflows_json : string;
  di_max_concurrent_jobs : option Z;
  di_grant_duration_seconds : option Z;
}.

(** A row of [audit_logs]. *)
Record AuditRow := mkAuditRow {
  au_id : string;
  au_organization_id : option string;
  au_actor_id : option string;
  au_actor_kind : option string;
  au_request_id : option string;
  au_action : string;
  au_resource_type : string;
  au_resource_id : option string;
  au_outcome : string;
  au_metadata_json : string;
  au_created_at : Z;
}.

Record Directory := mkDirectory {
  dr_users : gmap string UserRow;
  dr_organizations : gmap string OrganizationRow;
  dr_memberships : gmap (string * string) MembershipRow;
  dr_invites : gmap string OrganizationInviteRow;
  dr_sessions : gmap string SessionRow;
  dr_identities : gmap (string * string) IdentityRow;
  dr_authorizations : gmap string AuthorizationRow;
  dr_api_keys : gmap string ApiKeyRow;
  dr_credentials : gmap string WorkerCredentialRow;
  dr_device_invites : gmap string DeviceInviteRow;
  dr_audit : list AuditRow;
  (** The tables of jobs, quotas and devices. *)
  dr_db : Db;
}.

Definition set_users (d : Directory) v := mkDirectory v (dr_organizations d) (dr_memberships d) (dr_invites d)
  (dr_sessions d) (dr_identities d) (dr_authorizations d) (dr_api_keys d) (dr_credentials d) (dr_device_invites d)
  (dr_audit d) (dr_db d).
Definition set_organizations (d : Directory) v := mkDirectory (dr_users d) v (dr_memberships d) (dr_invites d)
  (dr_sessions d) (dr_identities d) (dr_authorizations d) (dr_api_keys d) (dr_credentials d) (dr_device_invites d)
  (dr_audit d) (dr_db d).
Definition set_memberships (d : Directory) v := mkDirectory (dr_users d) (dr_organizations d) v (dr_invites d)
  (dr_sessions d) (dr_identities d) (dr_authorizations d) (dr_api_keys d) (dr_credentials d) (dr_device_invites d)
  (dr_audit d) (dr_db d).
Definition set_invites (d : Directory) v := mkDirectory (dr_users d) (dr_organizations d) (dr_memberships d) v
  (dr_sessions d) (dr_identities d) (dr_authorizations d) (dr_api_keys d) (dr_credentials d) (dr_device_invites d)
  (dr_audit d) (dr_db d).
Definition set_sessions (d : Directory) v := mkDirectory (dr_users d) (dr_organizations d) (dr_memberships d) (dr_invites d)
  v (dr_identities d) (dr_authorizations d) (dr_api_keys d) (dr_credentials d) (dr_device_invites d)
  (dr_audit d) (dr_db d).
Definition set_identities (d : Directory) v := mkDirectory (dr_users d) (dr_organizations d) (dr_memberships d) (dr_invites d)
  (dr_sessions d) v (dr_authorizations d) (dr_api_keys d) (dr_credentials d) (dr_device_invites d)
  (dr_audit d) (dr_db d).
Definition set_authorizations (d : Directory) v := mkDirectory (dr_users d) (dr_organizations d) (dr_memberships d) (dr_invites d)
  (dr_sessions d) (dr_identities d) v (dr_api_keys d) (dr_credentials d) (dr_device_invites d)
  (dr_audit d) (dr_db d).
Definition set_api_keys (d : Directory) v := mkDirectory (dr_users d) (dr_organizations d) (dr_memberships d) (dr_invites d)
  (dr_sessions d) (dr_identities d) (dr_authorizations d) v (dr_credentials d) (dr_device_invites d)
  (dr_audit d) (dr_db d).
Definition set_credentials (d : Directory) v := mkDirectory (dr_users d) (dr_organizations d) (dr_memberships d) (dr_invites d)
  (dr_sessions d) (dr_identities d) (dr_authorizations d) (dr_api_keys d) v (dr_device_invites d)
  (dr_audit d) (dr_db d).
Definition set_device_invites (d : Directory) v := mkDirectory (dr_users d) (dr_organizations d) (dr_memberships d) (dr_invites d)
  (dr_sessions d) (dr_identities d) (dr_authorizations d) (dr_api_keys d) (dr_credentials d) v
  (dr_audit d) (dr_db d).
Definition set_audit (d : Directory) v := mkDirectory (dr_users d) (dr_organizations d) (dr_memberships d) (dr_invites d)
  (dr_sessions d) (dr_identities d) (dr_authorizations d) (dr_api_keys d) (dr_credentials d) (dr_device_invites d)
  v (dr_db d).
Definition set_db (d : Directory) v := mkDirectory (dr_users d) (dr_organizations d) (dr_memberships d) (dr_invites d)
  (dr_sessions d) (dr_identities d) (dr_authorizations d) (dr_api_keys d) (dr_credentials d) (dr_device_invites d)
  (dr_audit d) v.

(** ** What callers see ([models.rs]) *)

Record User := mkUser {
  u_id : string;
  u_email : string;
  u_password_hash : option string;
  u_status : string;
  u_email_verified_at : option Z;
  u_created_at : Z;
  u_updated_at : Z;
}.

Inductive FederatedOutcome :=
| FoExisting
| FoLinked
| FoCreated (organization_id : string).

Record Membership := mkMembership {
  mm_organization_id : string;
  mm_user_id : string;
  mm_role : Role;
  mm_organization_name : string;
}.

Definition user_view (kv : string * UserRow) : User :=
  let '(id, u) := kv in
  mkUser id (us_email u) (us_password_hash u) (us_status u) (us_email_verified_at u) (us_created_at u) (us_updated_at u).

(** [role.parse().unwrap_or(Role::Viewer)]. *)
Definition parse_role (s : string) : Role := match role_from_str s with Ok r => r | Err _ => Viewer end.

(** ** SQL fragments *)

(** [SELECT .. WHERE p] on a table with at most one such row. *)
Definition select {K A} `{Countable K} (p : K → A → bool) (m : gmap K A) : option (K * A) :=
  head (filter (λ kv, p kv.1 kv.2 = true) (map_to_list m)).

(** [DELETE FROM .. WHERE p]. *)
Definition delete_where {K A} `{Countable K} (p : K → A → bool) (m : gmap K A) : gmap K A :=
  filter (λ kv, p kv.1 kv.2 = false) m.

(** [UPDATE .. SET f WHERE p]. *)
Definition update_where {K A} `{Countable K} (p : K → A → bool) (f : A → A) (m : gmap K A) : gmap K A :=
  map_imap (λ k a, Some (if p k a then f a else a)) m.

Definition violates_unique : StoreError := Database "duplicate key value violates unique constraint".
Definition violates_foreign_key : StoreError := Database "insert or update violates foreign key constraint".
Definition row_not_found : StoreError :=
  Database "no rows returned by a query that expected to return at least one row".

(** [map_unique]; the database errors of the model are violated constraints. *)
Definition map_unique {A} (r : Res StoreError A) : Res StoreError A :=
  match r with Err (Database m) => Err (StConflict m) | r => r end.

(** [INSERT INTO .. VALUES ..] under a primary key. *)
Definition insert_row {K A} `{Countable K} (k : K) (a : A) (m : gmap K A) : Res StoreError (gmap K A) :=
  reject_if (bool_decide (is_Some (m !! k))) violates_unique ;; Ok (<[k := a]> m).

Definition normalize_email (email : string) : string := to_ascii_lowercase (trim email).

(** ** Accounts ([accounts.rs]) *)

Definition DEFAULT_MAX_CONCURRENT_JOBS : Z := 1.

(** The policy row an INSERT of these three columns makes, with the schema's
    defaults. *)
Definition new_policy (now : Z) : QuotaPolicy :=
  mkQuotaPolicy DEFAULT_MAX_CONCURRENT_JOBS 10737418240 1000 2592000 100 now.
Definition new_usage (now : Z) : QuotaUsage := mkQuotaUsage 0 0 0 now now.

Definition organization_row (name : string) (now : Z) : OrganizationRow := mkOrganizationRow name "active" now now.

(** An organization, its owner and its quota rows: the four INSERTs. *)
Definition insert_organization (d : Directory) (organization_id name user_id : string) (now : Z)
    : Res StoreError Directory :=
  organizations ← insert_row organization_id (organization_row name now) (dr_organizations d);
  reject_if (negb (bool_decide (is_Some (dr_users d !! user_id)))) violates_foreign_key ;;
  memberships ← insert_row (organization_id, user_id) (mkMembershipRow "owner" now now) (dr_memberships d);
  policies ← insert_row organization_id (new_policy now) (db_policies (dr_db d));
  usage ← insert_row organization_id (new_usage now) (db_usage (dr_db d));
  Ok (set_db (set_memberships (set_organizations d organizations) memberships)
        (set_usage (set_policies (dr_db d) policies) usage)).

Definition email_used (d : Directory) (normalized : string) : bool :=
  bool_decide (is_Some (select (λ _ u, String.eqb (us_email_normalized u) normalized) (dr_users d))).

(** [INSERT INTO users ..]. *)
Definition insert_user (d : Directory) (id email : string) (password_hash : option string) (verified_at : option Z)
    (now : Z) : Res StoreError Directory :=
  reject_if (email_used d (normalize_email email)) violates_unique ;;
  users ← insert_row id
    (mkUserRow (trim email) (normalize_email email) password_hash "active" verified_at now now 0 None) (dr_users d);
  Ok (set_users d users).

(** The account and its organization. *)
Definition create_account (d : Directory) (now : Z) (id organization_id email : string) (password_hash : option string)
    (organization_name : string) (verified_at : option Z) : Res StoreError (string * string * Directory) :=
  d1 ← map_unique (insert_user d id email password_hash verified_at now);
  d2 ← insert_organization d1 organization_id organization_name id now;
  Ok (id, organization_id, d2).

Definition register_user (d : Directory) (now : Z) (id organization_id email password_hash organization_name : string)
    : Res StoreError (string * string * Directory) :=
  create_account d now id organization_id email (Some password_hash) organization_name None.

Definition user_by_id (d : Directory) (id : string) : option User := (λ u, user_view (id, u)) <$> dr_users d !! id.

Definition user_by_email (d : Directory) (email : string) : option User :=
  user_view <$> select (λ _ u, String.eqb (us_email_normalized u) (normalize_email email)) (dr_users d).

Definition user_by_federated_identity (d : Directory) (provider subject : string) : option User :=
  i ← dr_identities d !! (provider, subject); user_by_id d (id_user_id i).

(** [INSERT INTO user_identities ..], under both unique indexes. *)
Definition insert_identity (d : Directory) (provider subject user_id email : string) (email_verified : bool) (now : Z)
    : Res StoreError Directory :=
  reject_if (bool_decide (is_Some (select (λ k i, String.eqb (k.1) provider && String.eqb (id_user_id i) user_id)
                                     (dr_identities d)))) violates_unique ;;
  identities ← insert_row (provider, subject) (mkIdentityRow user_id (Some (trim email)) email_verified now (Some now))
                 (dr_identities d);
  Ok (set_identities d identities).

Definition touch_identity (i : IdentityRow) (email : string) (email_verified : bool) (now : Z) : IdentityRow :=
  mkIdentityRow (id_user_id i) (Some (trim email)) email_verified (id_created_at i) (Some now).

(** [email_verified_at=COALESCE(email_verified_at,$1),updated_at=$1]. *)
Definition confirm_email (now : Z) (u : UserRow) : UserRow :=
  mkUserRow (us_email u) (us_email_normalized u) (us_password_hash u) (us_status u)
    (Some (default now (us_email_verified_at u))) (us_created_at u) now (us_failed_login_attempts u) (us_locked_until u).

Definition confirmed_view (now : Z) (u : User) : User :=
  mkUser (u_id u) (u_email u) (u_password_hash u) (u_status u) (Some (default now (u_email_verified_at u)))
    (u_created_at u) (u_updated_at u).

Definition resolve_federated_identity (d : Directory) (now : Z) (user_id organization_id provider subject email : string)
    (email_verified : bool) (organization_name : string) : Res StoreError (User * FederatedOutcome * Directory) :=
  match user_by_federated_identity d provider subject with
  | Some user =>
      Ok (user, FoExisting,
          set_identities d (alter (λ i, touch_identity i email email_verified now) (provider, subject) (dr_identities d)))
  | None =>
      match user_by_email d email with
      | Some user =>
          reject_if (negb email_verified)
            (StConflict (provider +:+ " did not verify " +:+ email
                         +:+ ", so it cannot be linked to the existing account with that address")) ;;
          match insert_identity d provider subject (u_id user) email email_verified now with
          | Err (Database _) =>
              Err (StConflict ("this account is already linked to a different " +:+ provider +:+ " identity"))
          | Err e => Err e
          | Ok d1 =>
              Ok (confirmed_view now user, FoLinked,
                  set_users d1 (alter (confirm_email now) (u_id user) (dr_users d1)))
          end
      | None =>
          d1 ← map_unique (insert_user d user_id email None (if email_verified then Some now else None) now);
          d2 ← insert_organization d1 organization_id organization_name user_id now;
          d3 ← map_unique (insert_identity d2 provider subject user_id email email_verified now);
          user ← ok_or row_not_found (user_by_id d1 user_id);
          Ok (user, FoCreated organization_id, d3)
      end
  end.

Definition create_oauth_authorization (d : Directory) (now : Z) (state provider pkce_verifier redirect_path : string)
    (ttl_seconds : Z) : Res StoreError Directory :=
  authorizations ← map_unique (insert_row state
    (mkAuthorizationRow provider pkce_verifier redirect_path now (now + ttl_seconds * 1000) None) (dr_authorizations d));
  Ok (set_authorizations d authorizations).

Definition consume_row (now : Z) (a : AuthorizationRow) : AuthorizationRow :=
  mkAuthorizationRow (oa_provider a) (oa_pkce_verifier a) (oa_redirect_path a) (oa_created_at a) (oa_expires_at a) (Some now).

Definition consume_oauth_authorization (d : Directory) (now : Z) (state : string)
    : option AuthorizationRow * Directory :=
  match dr_authorizations d !! state with
  | Some a =>
      if bool_decide (oa_consumed_at a = None) && (now <? oa_expires_at a)%Z
      then (Some a, set_authorizations d (<[state := consume_row now a]> (dr_authorizations d)))
      else (None, d)
  | None => (None, d)
  end.

Definition prunable (now : Z) (a : AuthorizationRow) : bool :=
  (oa_expires_at a <=? now)%Z || match oa_consumed_at a with Some t => (t <=? now - 600000)%Z | None => false end.

Definition prune_oauth_authorizations (d : Directory) (now : Z) : Directory :=
  set_authorizations d (delete_where (λ _ a, prunable now a) (dr_authorizations d)).

(** ** Sessions ([sessions.rs]) *)

Definition login_lock_until (d : Directory) (user_id : string) (now : Z) : option Z :=
  u ← dr_users d !! user_id; until ← us_locked_until u; if (now <? until)%Z then Some until else None.

Definition set_lockout (u : UserRow) (attempts : Z) (locked_until : option Z) (now : Z) : UserRow :=
  mkUserRow (us_email u) (us_email_normalized u) (us_password_hash u) (us_status u) (us_email_verified_at u)
    (us_created_at u) now attempts locked_until.

(** The lock it leaves, if any. *)
Definition record_failed_login (d : Directory) (user_id : string) (now max_attempts lock_seconds : Z)
    : option Z * Directory :=
  match dr_users d !! user_id with
  | None => (None, d)
  | Some u =>
      if match us_locked_until u with Some until => (now <? until)%Z | None => false end then (us_locked_until u, d)
      else
        let attempts := (match us_locked_until u with Some _ => 0 | None => us_failed_login_attempts u end + 1)%Z in
        if (Z.max max_attempts 1 <=? attempts)%Z then
          let until := i64_saturating_add now (i64_saturating_mul (Z.max lock_seconds 1) 1000) in
          (Some until, set_users d (<[user_id := set_lockout u 0 (Some until) now]> (dr_users d)))
        else (None, set_users d (<[user_id := set_lockout u attempts None now]> (dr_users d)))
  end.

Definition clear_failed_logins (d : Directory) (user_id : string) : Directory :=
  set_users d (alter (λ u, set_lockout u 0 None (us_updated_at u)) user_id (dr_users d)).

Record NewSession := mkNewSession {
  ns_id : string;
  ns_user_id : string;
  ns_organization_id : string;
  ns_access_token_hash : string;
  ns_refresh_token_hash : string;
  ns_csrf_token_hash : string;
  ns_family_id : string;
  ns_now : Z;
  ns_access_expires_at : Z;
  ns_refresh_expires_at : Z;
  ns_user_agent_hash : option string;
  ns_ip_hash : option string;
}.

Definition session_row (i : NewSession) : SessionRow :=
  mkSessionRow (ns_user_id i) (ns_organization_id i) (ns_access_token_hash i) (ns_refresh_token_hash i)
    (ns_csrf_token_hash i) (ns_family_id i) (ns_now i) (ns_now i) (ns_access_expires_at i) (ns_refresh_expires_at i)
    None (ns_user_agent_hash i) (ns_ip_hash i).

(** Another session has the hash. *)
Definition access_hash_used (d : Directory) (except hash : string) : bool :=
  bool_decide (is_Some (select (λ id s, negb (String.eqb id except) && String.eqb (bs_access_token_hash s) hash)
                          (dr_sessions d))).
Definition refresh_hash_used (d : Directory) (except hash : string) : bool :=
  bool_decide (is_Some (select (λ id s, negb (String.eqb id except) && String.eqb (bs_refresh_token_hash s) hash)
                          (dr_sessions d))).

Definition create_session (d : Directory) (i : NewSession) : Res StoreError Directory :=
  reject_if (access_hash_used d (ns_id i) (ns_access_token_hash i)
             || refresh_hash_used d (ns_id i) (ns_refresh_token_hash i)) violates_unique ;;
  reject_if (negb (bool_decide (is_Some (dr_memberships d !! (ns_organization_id i, ns_user_id i))))) violates_foreign_key ;;
  sessions ← insert_row (ns_id i) (session_row i) (dr_sessions d);
  Ok (set_sessions d sessions).

Definition session_by_access_hash (d : Directory) (hash : string) : option (string * SessionRow) :=
  select (λ _ s, String.eqb (bs_access_token_hash s) hash) (dr_sessions d).
Definition session_by_refresh_hash (d : Directory) (hash : string) : option (string * SessionRow) :=
  select (λ _ s, String.eqb (bs_refresh_token_hash s) hash) (dr_sessions d).

Record RotateSession := mkRotateSession {
  rs_session_id : string;
  rs_expected_refresh_token_hash : string;
  rs_access_token_hash : string;
  rs_refresh_token_hash : string;
  rs_now : Z;
  rs_access_expires_at : Z;
  rs_refresh_expires_at : Z;
}.

Definition rotated_row (s : SessionRow) (i : RotateSession) : SessionRow :=
  mkSessionRow (bs_user_id s) (bs_organization_id s) (rs_access_token_hash i) (rs_refresh_token_hash i)
    (bs_csrf_token_hash s) (bs_family_id s) (bs_created_at s) (rs_now i) (rs_access_expires_at i)
    (rs_refresh_expires_at i) (bs_revoked_at s) (bs_user_agent_hash s) (bs_ip_hash s).

Definition rotate_session (d : Directory) (i : RotateSession) : Res StoreError (bool * Directory) :=
  match dr_sessions d !! rs_session_id i with
  | Some s =>
      if String.eqb (bs_refresh_token_hash s) (rs_expected_refresh_token_hash i) && bool_decide (bs_revoked_at s = None)
      then
        reject_if (access_hash_used d (rs_session_id i) (rs_access_token_hash i)
                   || refresh_hash_used d (rs_session_id i) (rs_refresh_token_hash i)) violates_unique ;;
        Ok (true, set_sessions d (<[rs_session_id i := rotated_row s i]> (dr_sessions d)))
      else Ok (false, d)
  | None => Ok (false, d)
  end.

(** [SET revoked_at=$1 .. WHERE .. AND revoked_at IS NULL]. *)
Definition revoke_row (now : Z) (s : SessionRow) : SessionRow :=
  mkSessionRow (bs_user_id s) (bs_organization_id s) (bs_access_token_hash s) (bs_refresh_token_hash s)
    (bs_csrf_token_hash s) (bs_family_id s) (bs_created_at s) (bs_last_seen_at s) (bs_access_expires_at s)
    (bs_refresh_expires_at s) (Some (default now (bs_revoked_at s))) (bs_user_agent_hash s) (bs_ip_hash s).

Definition revoke_session (d : Directory) (now : Z) (session_id : string) : Directory :=
  set_sessions d (alter (revoke_row now) session_id (dr_sessions d)).

Definition revoke_user_sessions (d : Directory) (now : Z) (user_id : string) (except : option string) : Directory :=
  set_sessions d (update_where (λ id s, String.eqb (bs_user_id s) user_id && negb (bool_decide (except = Some id)))
                    (revoke_row now) (dr_sessions d)).

(** ** Organizations ([organizations.rs]) *)

(** [INSERT .. ON CONFLICT DO NOTHING] three times. *)
Definition insert_if_absent {K A} `{Countable K} (k : K) (a : A) (m : gmap K A) : gmap K A :=
  match m !! k with Some _ => m | None => <[k := a]> m end.

Definition ensure_organization (d : Directory) (now : Z) (organization_id name : string) : Directory :=
  set_db (set_organizations d (insert_if_absent organization_id (organization_row name now) (dr_organizations d)))
    (set_usage (set_policies (dr_db d) (insert_if_absent organization_id (new_policy now) (db_policies (dr_db d))))
       (insert_if_absent organization_id (new_usage now) (db_usage (dr_db d)))).

(** The JOIN with the organization. *)
Definition membership_view (d : Directory) (organization_id user_id : string) (m : MembershipRow) : option Membership :=
  o ← dr_organizations d !! organization_id;
  Some (mkMembership organization_id user_id (parse_role (mb_role m)) (og_name o)).

Definition membership (d : Directory) (organization_id user_id : string) : option Membership :=
  m ← dr_memberships d !! (organization_id, user_id); membership_view d organization_id user_id m.

(** [ORDER BY o.name]; equal names in the order of the map. *)
Definition name_le (a b : Membership) : Prop := String.le (mm_organization_name a) (mm_organization_name b).
#[export] Instance name_le_dec a b : Decision (name_le a b) := _.

Definition memberships_for_user (d : Directory) (user_id : string) : list Membership :=
  merge_sort name_le
    (omap (λ kv, if String.eqb kv.1.2 user_id then membership_view d kv.1.1 kv.1.2 kv.2 else None)
       (map_to_list (dr_memberships d))).

Definition create_organization_for_user (d : Directory) (now : Z) (organization_id user_id name : string)
    : Res StoreError (Membership * Directory) :=
  d' ← insert_organization d organization_id name user_id now;
  Ok (mkMembership organization_id user_id Owner name, d').

(** [SELECT user_id,role FROM memberships WHERE organization_id=$1]. *)
Definition members_of (d : Directory) (organization_id : string) : list (string * string) :=
  (λ kv, (kv.1.2, mb_role kv.2)) <$>
    filter (λ kv, kv.1.1 = organization_id) (map_to_list (dr_memberships d)).

Definition is_owner (member : string * string) : bool := String.eqb member.2 "owner".
Definition owner_count (members : list (string * string)) : nat := length (List.filter is_owner members).
Definition find_member (members : list (string * string)) (user_id : string) : option (string * string) :=
  List.find (λ m, String.eqb m.1 user_id) members.

Definition set_role (m : MembershipRow) (role : string) (now : Z) : MembershipRow :=
  mkMembershipRow role (mb_created_at m) now.

Definition set_member_role (d : Directory) (now : Z) (organization_id user_id : string) (role : Role)
    : Res StoreError (bool * Directory) :=
  let members := members_of d organization_id in
  match find_member members user_id with
  | None => Ok (false, d)
  | Some (_, current_role) =>
      reject_if (String.eqb current_role "owner" && negb (bool_decide (role = Owner)) && (owner_count members =? 1)%nat)
        (StConflict "the last organization owner cannot be demoted") ;;
      Ok (true, set_memberships d (alter (λ m, set_role m (role_name role) now) (organization_id, user_id)
                                     (dr_memberships d)))
  end.

Record NewOrganizationInvite := mkNewOrganizationInvite {
  ni_id : string;
  ni_organization_id : string;
  ni_inviter_user_id : string;
  ni_code_prefix : string;
  ni_code_hash : string;
  ni_role : Role;
  ni_created_at : Z;
  ni_expires_at : Z;
}.

(** The schema's check of [role], its unique code and the inviter's membership. *)
Definition create_organization_invite (d : Directory) (i : NewOrganizationInvite) : Res StoreError Directory :=
  map_unique (
    reject_if (bool_decide (ni_role i = Owner)) (Database "new row violates check constraint") ;;
    reject_if (bool_decide (is_Some (select (λ _ v, String.eqb (iv_code_hash v) (ni_code_hash i)) (dr_invites d))))
      violates_unique ;;
    reject_if (negb (bool_decide (is_Some (dr_memberships d !! (ni_organization_id i, ni_inviter_user_id i)))))
      violates_foreign_key ;;
    invites ← insert_row (ni_id i)
      (mkOrganizationInviteRow (ni_organization_id i) (ni_inviter_user_id i) (ni_code_prefix i) (ni_code_hash i)
         (role_name (ni_role i)) (ni_created_at i) (ni_expires_at i) None None None) (dr_invites d);
    Ok (set_invites d invites)).

Definition set_invite (v : OrganizationInviteRow) (accepted_at : option Z) (accepted_by : option string)
    (revoked_at : option Z) : OrganizationInviteRow :=
  mkOrganizationInviteRow (iv_organization_id v) (iv_inviter_user_id v) (iv_code_prefix v) (iv_code_hash v) (iv_role v)
    (iv_created_at v) (iv_expires_at v) accepted_at accepted_by revoked_at.

Definition revoke_organization_invite (d : Directory) (now : Z) (organization_id invite_id : string) : bool * Directory :=
  match dr_invites d !! invite_id with
  | Some v =>
      if String.eqb (iv_organization_id v) organization_id && bool_decide (iv_revoked_at v = None)
         && bool_decide (iv_accepted_at v = None)
      then (true, set_invites d (<[invite_id := set_invite v None (iv_accepted_by_user_id v) (Some now)]> (dr_invites d)))
      else (false, d)
  | None => (false, d)
  end.

Definition invite_closed (now : Z) (v : OrganizationInviteRow) : bool :=
  bool_decide (is_Some (iv_accepted_at v)) || bool_decide (is_Some (iv_revoked_at v)) || (iv_expires_at v <=? now)%Z.

Definition accept_organization_invite (d : Directory) (now : Z) (code_hash user_id : string)
    : Res StoreError (Membership * Directory) :=
  invite ← ok_or (StNotFound "organization invitation") (select (λ _ v, String.eqb (iv_code_hash v) code_hash) (dr_invites d));
  let '(invite_id, v) := invite in
  reject_if (invite_closed now v) (StConflict "organization invitation is expired, used, or revoked") ;;
  let organization_id := iv_organization_id v in
  joined ← match dr_memberships d !! (organization_id, user_id) with
           | Some m => Ok (mb_role m, dr_memberships d)
           | None =>
               reject_if (negb (bool_decide (is_Some (dr_users d !! user_id)))) violates_foreign_key ;;
               memberships ← insert_row (organization_id, user_id) (mkMembershipRow (iv_role v) now now) (dr_memberships d);
               Ok (iv_role v, memberships)
           end;
  let '(role, memberships) := joined in
  organization ← ok_or row_not_found (dr_organizations d !! organization_id);
  Ok (mkMembership organization_id user_id (parse_role role) (og_name organization),
      set_invites (set_memberships d memberships)
        (<[invite_id := set_invite v (Some now) (Some user_id) (iv_revoked_at v)]> (dr_invites d))).

(** ** Cascades of the schema *)

(** A membership goes with its sessions, keys and invitations, and the devices
    it shared. *)
Definition cascade_memberships (gone : string → string → bool) (d : Directory) : Directory :=
  set_db
    (set_device_invites
      (set_invites
        (set_api_keys
          (set_sessions
            (set_memberships d (delete_where (λ k _, gone k.1 k.2) (dr_memberships d)))
            (delete_where (λ _ s, gone (bs_organization_id s) (bs_user_id s)) (dr_sessions d)))
          (delete_where (λ _ k, gone (ak_organization_id k) (ak_creator_user_id k)) (dr_api_keys d)))
        (delete_where (λ _ v, gone (iv_organization_id v) (iv_inviter_user_id v)) (dr_invites d)))
      (delete_where (λ _ v, gone (di_organization_id v) (di_owner_user_id v)) (dr_device_invites d)))
    (set_grants (dr_db d)
       (delete_where (λ k g, gone k.1.1 (gr_owner_user_id g)) (db_grants (dr_db d)))).

(** A device goes with its invitations and grants. *)
Definition cascade_workers (gone : string → string → bool) (d : Directory) : Directory :=
  let devices := filter (λ kv, is_some_and (λ o, gone kv.1.1 o) (wt_owner_user_id kv.2) = true) (db_workers (dr_db d)) in
  let goes o w := bool_decide (is_Some (devices !! (o, w))) in
  set_db (set_device_invites d (delete_where (λ _ v, goes (di_organization_id v) (di_device_id v)) (dr_device_invites d)))
    (set_grants
       (set_workers (dr_db d)
          (delete_where (λ k _, goes k.1 k.2) (db_workers (dr_db d))))
       (delete_where (λ k _, goes k.1.1 k.1.2) (db_grants (dr_db d)))).

(** Every table of the organization. *)
Definition purge_db (organization_id : string) (d : Db) : Db :=
  let here (o : string) := String.eqb o organization_id in
  mkDb (delete_where (λ k _, here k.1) (db_jobs d)) (delete_where (λ k _, here k.1.1.1) (db_events d))
    (delete_where (λ k _, here k.1) (db_artifacts d)) (delete_where (λ k _, here k.1) (db_uploads d))
    (delete organization_id (db_policies d)) (delete organization_id (db_usage d))
    (filter (λ k, here k.1 = false) (db_releases d)) (delete_where (λ k _, here k.1.1) (db_outbox d))
    (delete_where (λ k _, here k.1.1.1.1) (db_idempotency d)) (delete_where (λ k _, here k.1) (db_workers d))
    (delete_where (λ k _, here k.1.1) (db_grants d)) (delete_where (λ k _, here k.1) (db_batches d))
    (delete_where (λ k _, here k.1) (db_queue d)) (delete_where (λ k _, here k.1.1.1.1) (db_batch_idempotency d)).

Definition revoke_credential (now : Z) (c : WorkerCredentialRow) : WorkerCredentialRow :=
  mkWorkerCredentialRow (wc_organization_id c) (wc_owner_user_id c) (wc_name c) (wc_token_prefix c) (wc_token_hash c)
    (wc_allowed_namespace c) (wc_created_at c) (wc_last_used_at c) (wc_expires_at c)
    (Some (default now (wc_revoked_at c))).

Definition owned_in (organization_id user_id : string) (c : WorkerCredentialRow) : bool :=
  String.eqb (wc_organization_id c) organization_id && sql_eq (wc_owner_user_id c) user_id.

Definition credential_ids (p : WorkerCredentialRow → bool) (d : Directory) : list string :=
  fst <$> filter (λ kv, p kv.2 = true) (map_to_list (dr_credentials d)).

Definition remove_member (d : Directory) (now : Z) (organization_id user_id : string)
    : Res StoreError (option (list string) * Directory) :=
  let members := members_of d organization_id in
  match find_member members user_id with
  | None => Ok (None, d)
  | Some (_, target_role) =>
      reject_if (String.eqb target_role "owner" && (owner_count members =? 1)%nat)
        (StConflict "the last organization owner cannot be removed") ;;
      let mine := owned_in organization_id user_id in
      let d1 := set_credentials d (update_where (λ _ c, mine c) (revoke_credential now) (dr_credentials d)) in
      Ok (Some (credential_ids mine d),
          cascade_memberships (λ o u, String.eqb o organization_id && String.eqb u user_id) d1)
  end.

Definition transfer_owner (d : Directory) (now : Z) (organization_id from_user_id to_user_id : string)
    : Res StoreError Directory :=
  reject_if (String.eqb from_user_id to_user_id) (StConflict "owner transfer target must be another member") ;;
  let members := members_of d organization_id in
  reject_if (negb (existsb (λ m, String.eqb m.1 from_user_id && String.eqb m.2 "owner") members))
    (StConflict "owner transfer initiator is not an owner") ;;
  reject_if (negb (existsb (λ m, String.eqb m.1 to_user_id) members)) (StNotFound "owner transfer target") ;;
  Ok (set_memberships d
        (map_imap (λ k m, Some (
           if String.eqb k.1 organization_id && (String.eqb k.2 to_user_id || String.eqb k.2 from_user_id)
           then set_role m (if String.eqb k.2 to_user_id then "owner" else "admin") now else m))
           (dr_memberships d))).

Definition delete_organization (d : Directory) (organization_id : string) : bool * Directory :=
  let here o := String.eqb o organization_id in
  let d1 := set_audit d (List.filter (λ a, negb (bool_decide (au_organization_id a = Some organization_id))) (dr_audit d)) in
  match dr_organizations d !! organization_id with
  | None => (false, d1)
  | Some _ =>
      let d2 := cascade_memberships (λ o _, here o) d1 in
      (true,
       set_db
         (set_device_invites
            (set_credentials (set_organizations d2 (delete organization_id (dr_organizations d2)))
               (delete_where (λ _ c, here (wc_organization_id c)) (dr_credentials d2)))
            (delete_where (λ _ v, here (di_organization_id v)) (dr_device_invites d2)))
         (purge_db organization_id (dr_db d2)))
  end.

(** [DELETE FROM users] with its cascades. *)
Definition erase_user (d : Directory) (user_id : string) : Directory :=
  let d1 := cascade_memberships (λ _ u, String.eqb u user_id) d in
  let invites := (λ v, if bool_decide (iv_accepted_by_user_id v = Some user_id)
                       then set_invite v (iv_accepted_at v) None (iv_revoked_at v) else v) <$> dr_invites d1 in
  set_db
    (set_identities (set_invites (set_users d1 (delete user_id (dr_users d1))) invites)
       (delete_where (λ _ i, String.eqb (id_user_id i) user_id) (dr_identities d1)))
    (set_grants (dr_db d1) (delete_where (λ k _, String.eqb k.2 user_id) (db_grants (dr_db d1)))).

Definition forget_actor (user_id : string) (a : AuditRow) : AuditRow :=
  mkAuditRow (au_id a) (au_organization_id a) (if bool_decide (au_actor_id a = Some user_id) then None else au_actor_id a)
    (au_actor_kind a) (au_request_id a) (au_action a) (au_resource_type a) (au_resource_id a) (au_outcome a)
    (au_metadata_json a) (au_created_at a).

(** [sessions.rs]. *)
Definition delete_user (d : Directory) (user_id : string) : Res StoreError (list string * Directory) :=
  reject_if (bool_decide (is_Some (select (λ k m, String.eqb k.2 user_id && String.eqb (mb_role m) "owner") (dr_memberships d))))
    (StConflict "transfer ownership or delete owned organizations before deleting the account") ;;
  let mine c := sql_eq (wc_owner_user_id c) user_id in
  let ids := credential_ids mine d in
  let d1 := set_audit d (forget_actor user_id <$> dr_audit d) in
  let d2 := cascade_workers (λ _ o, String.eqb o user_id) d1 in
  let d3 := set_credentials d2 (delete_where (λ _ c, mine c) (dr_credentials d2)) in
  reject_if (negb (bool_decide (is_Some (dr_users d !! user_id)))) (StNotFound "user") ;;
  Ok (ids, erase_user d3 user_id).

(** ** Credentials ([credentials.rs]) *)

Record NewApiKey := mkNewApiKey {
  nk_id : string;
  nk_organization_id : string;
  nk_creator_user_id : string;
  nk_name : string;
  nk_prefix : string;
  nk_key_hash : string;
  nk_scopes : string;
  nk_created_at : Z;
  nk_expires_at : option Z;
}.

Definition api_key_by_hash (d : Directory) (key_hash : string) : option (string * ApiKeyRow) :=
  select (λ _ k, String.eqb (ak_key_hash k) key_hash) (dr_api_keys d).

Definition create_api_key (d : Directory) (i : NewApiKey) : Res StoreError Directory :=
  reject_if (bool_decide (is_Some (api_key_by_hash d (nk_key_hash i)))) violates_unique ;;
  reject_if (negb (bool_decide (is_Some (dr_memberships d !! (nk_organization_id i, nk_creator_user_id i)))))
    violates_foreign_key ;;
  keys ← insert_row (nk_id i)
    (mkApiKeyRow (nk_organization_id i) (nk_creator_user_id i) (nk_name i) (nk_prefix i) (nk_key_hash i) (nk_scopes i)
       (nk_created_at i) None (nk_expires_at i) None) (dr_api_keys d);
  Ok (set_api_keys d keys).

(** [last_used_at IS NULL OR last_used_at<$3]. *)
Definition touch_due (last_used_at : option Z) (now : Z) : bool :=
  match last_used_at with Some t => (t <? i64_saturating_sub now 60000)%Z | None => true end.

Definition set_key (k : ApiKeyRow) (last_used_at revoked_at : option Z) : ApiKeyRow :=
  mkApiKeyRow (ak_organization_id k) (ak_creator_user_id k) (ak_name k) (ak_prefix k) (ak_key_hash k) (ak_scopes k)
    (ak_created_at k) last_used_at (ak_expires_at k) revoked_at.

Definition touch_api_key (d : Directory) (id : string) (now : Z) : Directory :=
  set_api_keys d (alter (λ k, if touch_due (ak_last_used_at k) now then set_key k (Some now) (ak_revoked_at k) else k) id
                    (dr_api_keys d)).

Definition api_key_for_org (d : Directory) (organization_id key_id : string) : option ApiKeyRow :=
  k ← dr_api_keys d !! key_id; if String.eqb (ak_organization_id k) organization_id then Some k else None.

Definition revoke_api_key (d : Directory) (now : Z) (organization_id key_id : string) : bool * Directory :=
  match api_key_for_org d organization_id key_id with
  | Some k =>
      if bool_decide (ak_revoked_at k = None)
      then (true, set_api_keys d (<[key_id := set_key k (ak_last_used_at k) (Some now)]> (dr_api_keys d)))
      else (false, d)
  | None => (false, d)
  end.

Record NewWorkerCredential := mkNewWorkerCredential {
  nw_id : string;
  nw_organization_id : string;
  nw_owner_user_id : option string;
  nw_name : string;
  nw_token_prefix : string;
  nw_token_hash : string;
  nw_allowed_namespace : option string;
  nw_created_at : Z;
  nw_expires_at : option Z;
}.

Definition worker_credential_by_hash (d : Directory) (token_hash : string) : option (string * WorkerCredentialRow) :=
  select (λ _ c, String.eqb (wc_token_hash c) token_hash) (dr_credentials d).

Definition create_worker_credential (d : Directory) (i : NewWorkerCredential) : Res StoreError Directory :=
  reject_if (bool_decide (is_Some (worker_credential_by_hash d (nw_token_hash i)))) violates_unique ;;
  reject_if (negb (bool_decide (is_Some (dr_organizations d !! nw_organization_id i)))) violates_foreign_key ;;
  credentials ← insert_row (nw_id i)
    (mkWorkerCredentialRow (nw_organization_id i) (nw_owner_user_id i) (nw_name i) (nw_token_prefix i) (nw_token_hash i)
       (nw_allowed_namespace i) (nw_created_at i) None (nw_expires_at i) None) (dr_credentials d);
  Ok (set_credentials d credentials).

Definition touch_credential (now : Z) (c : WorkerCredentialRow) : WorkerCredentialRow :=
  if touch_due (wc_last_used_at c) now
  then mkWorkerCredentialRow (wc_organization_id c) (wc_owner_user_id c) (wc_name c) (wc_token_prefix c) (wc_token_hash c)
         (wc_allowed_namespace c) (wc_created_at c) (Some now) (wc_expires_at c) (wc_revoked_at c)
  else c.

Definition touch_worker_credential (d : Directory) (id : string) (now : Z) : Directory :=
  set_credentials d (alter (touch_credential now) id (dr_credentials d)).

Definition worker_credential_for_org (d : Directory) (organization_id credential_id : string)
    : option WorkerCredentialRow :=
  c ← dr_credentials d !! credential_id; if String.eqb (wc_organization_id c) organization_id then Some c else None.

Definition revoke_worker_credential (d : Directory) (now : Z) (organization_id id : string) : bool * Directory :=
  match worker_credential_for_org d organization_id id with
  | Some c =>
      if bool_decide (wc_revoked_at c = None)
      then (true, set_credentials d (<[id := revoke_credential now c]> (dr_credentials d)))
      else (false, d)
  | None => (false, d)
  end.

(** ** Devices ([devices.rs]) *)

Record NewDeviceInvite := mkNewDeviceInvite {
  nd_id : string;
  nd_organization_id : string;
  nd_device_id : string;
  nd_owner_user_id : string;
  nd_code_prefix : string;
  nd_code_hash : string;
  nd_max_uses : Z;
  nd_expires_at : option Z;
  nd_created_at : Z;
  nd_allowed_workflows_json : string;
  nd_max_concurrent_jobs : option Z;
  nd_grant_duration_seconds : option Z;
}.

(** The device is the member's own or nobody's. *)
Definition may_share (d : Directory) (organization_id device_id user_id : string) : bool :=
  is_some_and (λ w, match wt_owner_user_id w with Some o => String.eqb o user_id | None => true end)
    (db_workers (dr_db d) !! (organization_id, device_id))
  && bool_decide (is_Some (dr_memberships d !! (organization_id, user_id))).

Definition device_invite_by_hash (d : Directory) (code_hash : string) : option (string * DeviceInviteRow) :=
  select (λ _ v, String.eqb (di_code_hash v) code_hash) (dr_device_invites d).

Definition create_device_invite (d : Directory) (i : NewDeviceInvite) : Res StoreError Directory :=
  reject_if (negb (may_share d (nd_organization_id i) (nd_device_id i) (nd_owner_user_id i))) (StNotFound "owned device") ;;
  reject_if (bool_decide (is_Some (device_invite_by_hash d (nd_code_hash i)))) violates_unique ;;
  invites ← insert_row (nd_id i)
    (mkDeviceInviteRow (nd_organization_id i) (nd_device_id i) (nd_owner_user_id i) (nd_code_prefix i) (nd_code_hash i)
       (nd_max_uses i) 0 (nd_expires_at i) None (nd_created_at i) (nd_allowed_workflows_json i)
       (nd_max_concurrent_jobs i) (nd_grant_duration_seconds i)) (dr_device_invites d);
  Ok (set_device_invites d invites).

Definition set_device_invite (v : DeviceInviteRow) (use_count : Z) (revoked_at : option Z) : DeviceInviteRow :=
  mkDeviceInviteRow (di_organization_id v) (di_device_id v) (di_owner_user_id v) (di_code_prefix v) (di_code_hash v)
    (di_max_uses v) use_count (di_expires_at v) revoked_at (di_created_at v) (di_allowed_workflows_json v)
    (di_max_concurrent_jobs v) (di_grant_duration_seconds v).

Definition revoke_device_invite (d : Directory) (now : Z) (invite_id owner_user_id : string) : bool * Directory :=
  match dr_device_invites d !! invite_id with
  | Some v =>
      if String.eqb (di_owner_user_id v) owner_user_id && bool_decide (di_revoked_at v = None)
      then (true, set_device_invites d (<[invite_id := set_device_invite v (di_use_count v) (Some now)]> (dr_device_invites d)))
      else (false, d)
  | None => (false, d)
  end.

Definition grant_active (now : Z) (g : GrantRow) : bool :=
  bool_decide (gr_revoked_at g = None) && match gr_expires_at g with Some e => (now <? e)%Z | None => true end.

Definition device_invite_closed (now : Z) (v : DeviceInviteRow) : bool :=
  bool_decide (is_Some (di_revoked_at v)) || match di_expires_at v with Some e => (e <=? now)%Z | None => false end
  || (di_max_uses v <=? di_use_count v)%Z.

(** The grant as the UPDATE leaves it, or the INSERT makes it. *)
Definition granted_row (now : Z) (grant_id invite_id : string) (v : DeviceInviteRow) (existing : option GrantRow) : GrantRow :=
  mkGrantRow (from_option gr_id grant_id existing) (from_option gr_owner_user_id (di_owner_user_id v) existing) invite_id now
    (di_allowed_workflows_json v) (di_max_concurrent_jobs v)
    ((λ s, i64_saturating_add now (i64_saturating_mul (Z.max s 1) 1000)) <$> di_grant_duration_seconds v) None.

(** The device and the grant, as its row. *)
Definition accept_device_invite (d : Directory) (now : Z) (grant_id code_hash grantee_user_id : string)
    : Res StoreError (string * string * GrantRow * Directory) :=
  invite ← ok_or (StNotFound "device invite") (device_invite_by_hash d code_hash);
  let '(invite_id, v) := invite in
  let key := (di_organization_id v, di_device_id v, grantee_user_id) in
  let existing := db_grants (dr_db d) !! key in
  match existing with
  | Some g =>
      if grant_active now g then Ok (di_organization_id v, di_device_id v, g, d)
      else
        reject_if (device_invite_closed now v) (StConflict "device invite is expired, revoked, or exhausted") ;;
        reject_if (String.eqb (di_owner_user_id v) grantee_user_id) (StConflict "device owner cannot redeem their own invite") ;;
        let g' := granted_row now grant_id invite_id v (Some g) in
        Ok (di_organization_id v, di_device_id v,
            mkGrantRow (gr_id g') (di_owner_user_id v) (gr_invite_id g') (gr_created_at g') (gr_allowed_workflows_json g')
              (gr_max_concurrent_jobs g') (gr_expires_at g') (gr_revoked_at g'),
            set_db (set_device_invites d (<[invite_id := set_device_invite v (di_use_count v + 1) (di_revoked_at v)]> (dr_device_invites d)))
              (set_grants (dr_db d) (<[key := g']> (db_grants (dr_db d)))))
  | None =>
      reject_if (device_invite_closed now v) (StConflict "device invite is expired, revoked, or exhausted") ;;
      reject_if (String.eqb (di_owner_user_id v) grantee_user_id) (StConflict "device owner cannot redeem their own invite") ;;
      reject_if (negb (bool_decide (is_Some (dr_users d !! grantee_user_id)))) violates_foreign_key ;;
      let g' := granted_row now grant_id invite_id v None in
      Ok (di_organization_id v, di_device_id v, g',
          set_db (set_device_invites d (<[invite_id := set_device_invite v (di_use_count v + 1) (di_revoked_at v)]> (dr_device_invites d)))
            (set_grants (dr_db d) (<[key := g']> (db_grants (dr_db d)))))
  end.

Definition revoke_grant (now : Z) (g : GrantRow) : GrantRow :=
  mkGrantRow (gr_id g) (gr_owner_user_id g) (gr_invite_id g) (gr_created_at g) (gr_allowed_workflows_json g)
    (gr_max_concurrent_jobs g) (gr_expires_at g) (Some now).

Definition revoke_device_grant (d : Directory) (now : Z)
    (device_organization_id device_id owner_user_id grantee_user_id : string) : bool * Directory :=
  let key := (device_organization_id, device_id, grantee_user_id) in
  match db_grants (dr_db d) !! key with
  | Some g =>
      if String.eqb (gr_owner_user_id g) owner_user_id && bool_decide (gr_revoked_at g = None)
      then (true, set_db d (set_grants (dr_db d) (<[key := revoke_grant now g]> (db_grants (dr_db d)))))
      else (false, d)
  | None => (false, d)
  end.

Definition can_use_device (d : Directory) (now : Z) (user_id organization_id device_organization_id device_id : string) : bool :=
  (String.eqb organization_id device_organization_id
   && bool_decide (is_Some (db_workers (dr_db d) !! (device_organization_id, device_id))))
  || is_some_and (grant_active now) (db_grants (dr_db d) !! (device_organization_id, device_id, user_id)).

(** [audit.rs]. *)
Definition audit (d : Directory) (entry : AuditRow) : Directory := set_audit d (dr_audit d ++ [entry]).

(** ** Sequences of operations *)

Inductive AccountOp :=
| AoCreateAccount (now : Z) (id organization_id email : string) (password_hash : option string)
    (organization_name : string) (verified_at : option Z)
| AoResolveIdentity (now : Z) (user_id organization_id provider subject email : string) (email_verified : bool)
    (organization_name : string)
| AoCreateAuthorization (now : Z) (state provider pkce_verifier redirect_path : string) (ttl_seconds : Z)
| AoConsumeAuthorization (now : Z) (state : string)
| AoPruneAuthorizations (now : Z)
| AoRecordFailedLogin (user_id : string) (now max_attempts lock_seconds : Z)
| AoClearFailedLogins (user_id : string)
| AoCreateSession (i : NewSession)
| AoRotateSession (i : RotateSession)
| AoRevokeSession (now : Z) (session_id : string)
| AoRevokeUserSessions (now : Z) (user_id : string) (except : option string)
| AoEnsureOrganization (now : Z) (organization_id name : string)
| AoCreateOrganization (now : Z) (organization_id user_id name : string)
| AoSetMemberRole (now : Z) (organization_id user_id : string) (role : Role)
| AoCreateInvite (i : NewOrganizationInvite)
| AoRevokeInvite (now : Z) (organization_id invite_id : string)
| AoAcceptInvite (now : Z) (code_hash user_id : string)
| AoRemoveMember (now : Z) (organization_id user_id : string)
| AoTransferOwner (now : Z) (organization_id from_user_id to_user_id : string)
| AoDeleteOrganization (organization_id : string)
| AoDeleteUser (user_id : string)
| AoCreateApiKey (i : NewApiKey)
| AoTouchApiKey (id : string) (now : Z)
| AoRevokeApiKey (now : Z) (organization_id key_id : string)
| AoCreateCredential (i : NewWorkerCredential)
| AoTouchCredential (id : string) (now : Z)
| AoRevokeCredential (now : Z) (organization_id id : string)
| AoCreateDeviceInvite (i : NewDeviceInvite)
| AoRevokeDeviceInvite (now : Z) (invite_id owner_user_id : string)
| AoAcceptDeviceInvite (now : Z) (grant_id code_hash grantee_user_id : string)
| AoRevokeDeviceGrant (now : Z) (device_organization_id device_id owner_user_id grantee_user_id : string)
| AoAudit (entry : AuditRow).

(** What an operation that fails leaves. *)
Definition committed {A} (d : Directory) (r : Res StoreError (A * Directory)) : Directory :=
  match r with Ok (_, d') => d' | Err _ => d end.
Definition committed' (d : Directory) (r : Res StoreError Directory) : Directory :=
  match r with Ok d' => d' | Err _ => d end.

Definition run_account_op (d : Directory) (op : AccountOp) : Directory :=
  match op with
  | AoCreateAccount now id o email pw name v => committed d (create_account d now id o email pw name v)
  | AoResolveIdentity now u o p s email v name => committed d (resolve_federated_identity d now u o p s email v name)
  | AoCreateAuthorization now s p v r t => committed' d (create_oauth_authorization d now s p v r t)
  | AoConsumeAuthorization now s => (consume_oauth_authorization d now s).2
  | AoPruneAuthorizations now => prune_oauth_authorizations d now
  | AoRecordFailedLogin u now m l => (record_failed_login d u now m l).2
  | AoClearFailedLogins u => clear_failed_logins d u
  | AoCreateSession i => committed' d (create_session d i)
  | AoRotateSession i => committed d (rotate_session d i)
  | AoRevokeSession now s => revoke_session d now s
  | AoRevokeUserSessions now u e => revoke_user_sessions d now u e
  | AoEnsureOrganization now o name => ensure_organization d now o name
  | AoCreateOrganization now o u name => committed d (create_organization_for_user d now o u name)
  | AoSetMemberRole now o u r => committed d (set_member_role d now o u r)
  | AoCreateInvite i => committed' d (create_organization_invite d i)
  | AoRevokeInvite now o i => (revoke_organization_invite d now o i).2
  | AoAcceptInvite now h u => committed d (accept_organization_invite d now h u)
  | AoRemoveMember now o u => committed d (remove_member d now o u)
  | AoTransferOwner now o f t => committed' d (transfer_owner d now o f t)
  | AoDeleteOrganization o => (delete_organization d o).2
  | AoDeleteUser u => committed d (delete_user d u)
  | AoCreateApiKey i => committed' d (create_api_key d i)
  | AoTouchApiKey id now => touch_api_key d id now
  | AoRevokeApiKey now o k => (revoke_api_key d now o k).2
  | AoCreateCredential i => committed' d (create_worker_credential d i)
  | AoTouchCredential id now => touch_worker_credential d id now
  | AoRevokeCredential now o i => (revoke_worker_credential d now o i).2
  | AoCreateDeviceInvite i => committed' d (create_device_invite d i)
  | AoRevokeDeviceInvite now i o => (revoke_device_invite d now i o).2
  | AoAcceptDeviceInvite now g h u => committed d (accept_device_invite d now g h u)
  | AoRevokeDeviceGrant now o w u g => (revoke_device_grant d now o w u g).2
  | AoAudit e => audit d e
  end.

Definition run_account_ops : Directory → list AccountOp → Directory := foldl run_account_op.

(** ** The SQL fragments *)

Section fragments.
Context {K A : Type} `{Countable K}.
Implicit Types (m : gmap K A) (p : K → A → bool).

Lemma select_Some p m k a : select p m = Some (k, a) → m !! k = Some a ∧ p k a = true.
Proof.
  unfold select. intros Hs. destruct (filter _ _) as [|[k' a'] l] eqn:Hf; simplify_eq/=.
  assert (Hin : (k, a) ∈ (k, a) :: l) by apply list_elem_of_here. rewrite <- Hf in Hin.
  apply list_elem_of_filter in Hin as [? ?%elem_of_map_to_list]. done.
Qed.

Lemma select_None p m : select p m = None ↔ ∀ k a, m !! k = Some a → p k a = false.
Proof.
  unfold select. split.
  - intros Hs k a Hk. destruct (p k a) eqn:Hp; [|done]. exfalso.
    assert (Hin : (k, a) ∈ filter (λ kv : K * A, p kv.1 kv.2 = true) (map_to_list m)).
    { apply list_elem_of_filter. split; [done|by apply elem_of_map_to_list]. }
    destruct (filter _ _); [by apply elem_of_nil in Hin|done].
  - intros Hp. destruct (filter _ _) as [|[k a] l] eqn:Hf; [done|]. exfalso.
    assert (Hin : (k, a) ∈ (k, a) :: l) by apply list_elem_of_here. rewrite <- Hf in Hin.
    apply list_elem_of_filter in Hin as [Ht Hk%elem_of_map_to_list]. simpl in Ht. by rewrite (Hp _ _ Hk) in Ht.
Qed.

Lemma select_is_Some p m : is_Some (select p m) ↔ ∃ k a, m !! k = Some a ∧ p k a = true.
Proof.
  split.
  - intros [[k a] Hs]. apply select_Some in Hs. eauto.
  - intros (k & a & Hk & Hp). destruct (select p m) eqn:Hs; [done|]. rewrite select_None in Hs.
    by rewrite (Hs _ _ Hk) in Hp.
Qed.

(** On a table where the condition determines the row. *)
Lemma select_unique p m k a :
  m !! k = Some a → p k a = true → (∀ k' a', m !! k' = Some a' → p k' a' = true → k' = k) → select p m = Some (k, a).
Proof.
  intros Hk Hp Hu. destruct (select p m) as [[k' a']|] eqn:Hs.
  - apply select_Some in Hs as [Hk' Hp']. pose proof (Hu _ _ Hk' Hp') as ->. congruence.
  - rewrite select_None in Hs. by rewrite (Hs _ _ Hk) in Hp.
Qed.

Lemma delete_where_Some p m k a : delete_where p m !! k = Some a ↔ m !! k = Some a ∧ p k a = false.
Proof. unfold delete_where. by rewrite map_lookup_filter_Some. Qed.

Lemma update_where_lookup p f m k : update_where p f m !! k = (λ a, if p k a then f a else a) <$> m !! k.
Proof. unfold update_where. rewrite map_lookup_imap. by destruct (m !! k). Qed.

Lemma insert_row_Ok k a m m' : insert_row k a m = Ok m' ↔ m !! k = None ∧ m' = <[k := a]> m.
Proof.
  unfold insert_row. destruct (m !! k) eqn:Hk; simpl.
  - split; [done|by intros [? _]].
  - split; [by intros [= <-]|by intros [_ ->]].
Qed.
End fragments.

Lemma map_unique_Ok {A} (r : Res StoreError A) a : map_unique r = Ok a ↔ r = Ok a.
Proof. destruct r as [|[]]; naive_solver. Qed.

(** ** An organization keeps an owner *)

Definition owns (d : Directory) (organization_id user_id : string) : Prop :=
  ∃ m, dr_memberships d !! (organization_id, user_id) = Some m ∧ mb_role m = "owner".
Definition owned (d : Directory) (organization_id : string) : Prop := ∃ u, owns d organization_id u.

Lemma members_of_elem d o u r :
  (u, r) ∈ members_of d o ↔ ∃ m, dr_memberships d !! (o, u) = Some m ∧ mb_role m = r.
Proof.
  unfold members_of. rewrite list_elem_of_fmap. split.
  - intros ([[o' u'] m] & [= -> ->] & [Ho Hin]%list_elem_of_filter). simpl in Ho. subst o'.
    apply elem_of_map_to_list in Hin. eauto.
  - intros (m & Hm & <-). exists ((o, u), m). split; [done|]. apply list_elem_of_filter.
    split; [done|by apply elem_of_map_to_list].
Qed.

Lemma members_of_NoDup d o : NoDup (members_of d o).*1.
Proof.
  unfold members_of. rewrite <- list_fmap_compose.
  apply NoDup_fmap_2_strong; [|apply NoDup_filter, NoDup_map_to_list].
  intros [[o1 u1] m1] [[o2 u2] m2] [H1 Hin1]%list_elem_of_filter [H2 Hin2]%list_elem_of_filter Heq.
  simpl in *. subst. apply elem_of_map_to_list in Hin1, Hin2. congruence.
Qed.

Lemma find_member_Some ms u x : find_member ms u = Some x → x ∈ ms ∧ x.1 = u.
Proof.
  unfold find_member. intros [Hin Hu]%find_some. split; [by apply list_elem_of_In|by apply String.eqb_eq].
Qed.

(** More than one owner leaves another one. *)
Lemma another_owner ms u :
  NoDup ms.*1 → (u, "owner") ∈ ms → owner_count ms ≠ 1 → ∃ u', u' ≠ u ∧ (u', "owner") ∈ ms.
Proof.
  unfold owner_count. intros Hnd Hu Hc.
  assert (Hf : (u, "owner") ∈ List.filter is_owner ms).
  { apply list_elem_of_In, filter_In. split; [by apply list_elem_of_In|done]. }
  assert (Hfn : NoDup (List.filter is_owner ms).*1).
  { clear -Hnd. induction ms as [|x ms IH]; [constructor|]. apply NoDup_cons in Hnd as [Hx Hnd].
    cbn [List.filter]. destruct (is_owner x); [|by apply IH]. constructor; [|by apply IH]. intros Hin. apply Hx.
    apply list_elem_of_fmap in Hin as (y & Hy & Hin). apply list_elem_of_fmap. exists y. split; [done|].
    apply list_elem_of_In, filter_In in Hin as [Hin _]. by apply list_elem_of_In. }
  destruct (List.filter is_owner ms) as [|[u1 r1] [|[u2 r2] l]] eqn:Hl; [by apply elem_of_nil in Hf|done|].
  assert (Hin : ∀ y, y ∈ List.filter is_owner ms → y ∈ ms ∧ y.2 = "owner").
  { intros y Hy. apply list_elem_of_In, filter_In in Hy as [Hy Ho]. split; [by apply list_elem_of_In|by apply String.eqb_eq]. }
  rewrite Hl in Hin. destruct (Hin (u1, r1)) as [H1 Hr1]; [apply list_elem_of_here|].
  destruct (Hin (u2, r2)) as [H2 Hr2]; [apply elem_of_cons; right; apply list_elem_of_here|].
  simpl in *. subst r1 r2. apply NoDup_cons in Hfn as [Hne _]. destruct (decide (u1 = u)) as [->|]; [|eauto].
  exists u2. split; [|done]. intros ->. apply Hne, list_elem_of_here.
Qed.

Lemma owner_left d o u :
  owns d o u → owner_count (members_of d o) ≠ 1 → ∃ u', u' ≠ u ∧ owns d o u'.
Proof.
  intros Hu Hc. destruct (another_owner (members_of d o) u) as (u' & ? & Hin);
    [apply members_of_NoDup|by apply members_of_elem|done|]. exists u'. split; [done|]. by apply members_of_elem.
Qed.

Lemma owned_mono d d' o :
  (∀ u m, dr_memberships d !! (o, u) = Some m → mb_role m = "owner" → dr_memberships d' !! (o, u) = Some m) →
  owned d o → owned d' o.
Proof. intros Hm (u & m & Hu & Hr). exists u, m. eauto. Qed.

Lemma owned_same d d' o : dr_memberships d' = dr_memberships d → owned d o → owned d' o.
Proof. intros He. apply owned_mono. by rewrite He. Qed.

Lemma insert_organization_memberships d o name u now d' :
  insert_organization d o name u now = Ok d' →
  dr_memberships d !! (o, u) = None ∧ dr_memberships d' = <[(o, u) := mkMembershipRow "owner" now now]> (dr_memberships d)
  ∧ dr_users d' = dr_users d.
Proof.
  unfold insert_organization. intros Hi. inv_ok. rewrite !insert_row_Ok in *.
  repeat match goal with H : _ ∧ _ |- _ => destruct H end; subst. done.
Qed.

Lemma insert_organization_owned d o name u now d' :
  insert_organization d o name u now = Ok d' → owned d' o ∧ ∀ o', owned d o' → owned d' o'.
Proof.
  intros (Hn & Hm & _)%insert_organization_memberships. split.
  - exists u, (mkMembershipRow "owner" now now). rewrite Hm. by rewrite lookup_insert_eq.
  - intros o'. apply owned_mono. intros u' m Hu Hr. rewrite Hm. rewrite lookup_insert_ne; [done|]. congruence.
Qed.

Lemma set_member_role_owned d now o u r b d' o' :
  set_member_role d now o u r = Ok (b, d') → owned d o' → owned d' o'.
Proof.
  unfold set_member_role. destruct (find_member _ u) as [[u1 cur]|] eqn:Hf; [|by intros [= _ <-]].
  intros Hs (u' & m & Hu' & Hr). inv_ok. apply find_member_Some in Hf as [Hin Heq]. simpl in Heq. subst u1.
  apply members_of_elem in Hin as (mu & Hmu & <-).
  assert (Hkeep : ∀ v w, dr_memberships d !! (o', v) = Some w → mb_role w = "owner" → (o', v) ≠ (o, u) →
    owned (set_memberships d (alter (λ m0, set_role m0 (role_name r) now) (o, u) (dr_memberships d))) o').
  { intros v w Hv Hw Hne. exists v, w. cbn [dr_memberships set_memberships]. by rewrite lookup_alter_ne. }
  destruct (decide ((o', u') = (o, u))) as [[= -> ->]|Hne]; [|by eapply Hkeep].
  assert (mu = m) as -> by congruence.
  destruct (decide (r = Owner)) as [->|Hno].
  - exists u, (set_role m "owner" now). cbn [dr_memberships set_memberships]. by rewrite lookup_alter_eq, Hmu.
  - assert (Hc : owner_count (members_of d o) ≠ 1).
    { intros Hc. rewrite Hr, Hc in H. simpl in H. by rewrite bool_decide_false in H. }
    destruct (owner_left d o u) as (v & Hv & w & Hw & Hwr); [by exists m|done|].
    apply (Hkeep v w); [done..|]. congruence.
Qed.

Lemma cascade_memberships_lookup gone d o u m :
  dr_memberships (cascade_memberships gone d) !! (o, u) = Some m ↔ dr_memberships d !! (o, u) = Some m ∧ gone o u = false.
Proof. cbn. by rewrite delete_where_Some. Qed.

Lemma remove_member_owned d now o u r d' o' :
  remove_member d now o u = Ok (r, d') → owned d o' → owned d' o'.
Proof.
  unfold remove_member. destruct (find_member _ u) as [[u1 cur]|] eqn:Hf; [|by intros [= _ <-]].
  intros Hs (u' & m & Hu' & Hr). inv_ok. apply find_member_Some in Hf as [Hin Heq]. simpl in Heq. subst u1.
  apply members_of_elem in Hin as (mu & Hmu & <-).
  assert (∃ v w, dr_memberships d !! (o', v) = Some w ∧ mb_role w = "owner" ∧ (o', v) ≠ (o, u)) as (v & w & Hv & Hw & Hne).
  { destruct (decide ((o', u') = (o, u))) as [[= -> ->]|Hne]; [|by exists u', m].
    assert (mu = m) as -> by congruence. rewrite Hr in H. simpl in H. apply Nat.eqb_neq in H.
    destruct (owner_left d o u) as (v & Hv & w & Hw & Hwr); [by exists m|done|]. exists v, w. split_and!; [done..|congruence]. }
  exists v, w. rewrite cascade_memberships_lookup. split_and!; [done| |done].
  apply andb_false_iff. rewrite !String.eqb_neq. destruct (decide (o' = o)); [right|left]; congruence.
Qed.

Lemma transfer_owner_owned d now o f t d' o' :
  transfer_owner d now o f t = Ok d' → owned d o' → owned d' o'.
Proof.
  unfold transfer_owner. intros Ht (u & m & Hu & Hr). inv_ok. bool_cases.
  apply existsb_exists in H1 as ([t1 rt] & Hin & Heq%String.eqb_eq). simpl in Heq. subst t1.
  apply list_elem_of_In, members_of_elem in Hin as (mt & Hmt & _).
  destruct (decide (o' = o)) as [->|Hne].
  - exists t, (set_role mt "owner" now). cbn [dr_memberships set_memberships]. rewrite map_lookup_imap, Hmt. simpl.
    by rewrite !String.eqb_refl.
  - exists u, m. cbn [dr_memberships set_memberships]. rewrite map_lookup_imap, Hu. simpl.
    by rewrite (proj2 (String.eqb_neq o' o) Hne).
Qed.

Lemma erase_user_memberships d u o v m :
  dr_memberships (erase_user d u) !! (o, v) = Some m ↔ dr_memberships d !! (o, v) = Some m ∧ v ≠ u.
Proof.
  change (dr_memberships (erase_user d u)) with (dr_memberships (cascade_memberships (λ _ w, String.eqb w u) d)).
  by rewrite cascade_memberships_lookup, String.eqb_neq.
Qed.

Lemma delete_user_Ok d u r d' :
  delete_user d u = Ok (r, d') →
  (∀ o m, dr_memberships d !! (o, u) = Some m → mb_role m ≠ "owner")
  ∧ ∃ d3, d' = erase_user d3 u ∧ dr_memberships d3 = dr_memberships d ∧ dr_users d3 = dr_users d
    ∧ dr_identities d3 = dr_identities d.
Proof.
  unfold delete_user. intros Hd. apply bind_Ok_tt in Hd as [Hs Hd]. apply bind_Ok_tt in Hd as [_ [= _ <-]].
  apply reject_if_Ok in Hs. bool_cases. split; [|by eexists]. intros o m Hm Hr.
  apply Hs, select_is_Some. exists (o, u), m. split; [done|]. rewrite Hr. by rewrite String.eqb_refl.
Qed.

Lemma delete_user_owned d u r d' o' : delete_user d u = Ok (r, d') → owned d o' → owned d' o'.
Proof.
  intros (Hno & d3 & -> & Hm & _)%delete_user_Ok. apply owned_mono. intros v m Hv Hr.
  apply erase_user_memberships. rewrite Hm. split; [done|]. intros ->. by apply (Hno _ _ Hv).
Qed.

Lemma insert_user_memberships d id email pw v now d' :
  insert_user d id email pw v now = Ok d' → dr_memberships d' = dr_memberships d.
Proof. unfold insert_user. intros Hi. by inv_ok. Qed.

Lemma insert_identity_memberships d p s u email v now d' :
  insert_identity d p s u email v now = Ok d' → dr_memberships d' = dr_memberships d.
Proof. unfold insert_identity. intros Hi. by inv_ok. Qed.

(** The memberships after an invitation was accepted. *)
Definition joined (d : Directory) (now : Z) (v : OrganizationInviteRow) (u : string) : gmap (string * string) MembershipRow :=
  match dr_memberships d !! (iv_organization_id v, u) with
  | Some _ => dr_memberships d
  | None => <[(iv_organization_id v, u) := mkMembershipRow (iv_role v) now now]> (dr_memberships d)
  end.

Lemma accept_invite_Ok d now h u r d' :
  accept_organization_invite d now h u = Ok (r, d') →
  ∃ i v, dr_invites d !! i = Some v ∧ iv_code_hash v = h ∧ invite_closed now v = false
    ∧ is_Some (dr_organizations d !! iv_organization_id v)
    ∧ (dr_memberships d !! (iv_organization_id v, u) = None → is_Some (dr_users d !! u))
    ∧ d' = set_invites (set_memberships d (joined d now v u))
             (<[i := set_invite v (Some now) (Some u) (iv_revoked_at v)]> (dr_invites d)).
Proof.
  unfold accept_organization_invite. intros Ha. apply bind_Ok in Ha as ([i v] & Hs & Ha).
  apply ok_or_Ok, select_Some in Hs as [Hi Hh%String.eqb_eq]. apply bind_Ok_tt in Ha as [Hc Ha].
  apply reject_if_Ok in Hc. apply bind_Ok in Ha as ([role ms] & Hj & Ha). apply bind_Ok in Ha as (og & Hog & [= _ <-]).
  apply ok_or_Ok in Hog. exists i, v. split_and!; [done..|by eexists| |].
  - intros Hn. rewrite Hn in Hj. inv_ok. by bool_cases.
  - unfold joined. destruct (dr_memberships d !! _) eqn:Hm; inv_ok; [done|].
    match goal with H : insert_row _ _ _ = Ok _ |- _ => by apply insert_row_Ok in H as [_ ->] end.
Qed.

Lemma joined_kept d now v u o w m : dr_memberships d !! (o, w) = Some m → joined d now v u !! (o, w) = Some m.
Proof. unfold joined. intros Hm. case_match; [done|]. rewrite lookup_insert_ne; congruence. Qed.

Lemma accept_invite_owned d now h u r d' o' :
  accept_organization_invite d now h u = Ok (r, d') → owned d o' → owned d' o'.
Proof. intros (i & v & _ & _ & _ & _ & _ & ->)%accept_invite_Ok. apply owned_mono. intros w m Hw _. by apply joined_kept. Qed.

Lemma create_account_Ok d now id o email pw name v r d' :
  create_account d now id o email pw name v = Ok (r, d') →
  ∃ d1, insert_user d id email pw v now = Ok d1 ∧ insert_organization d1 o name id now = Ok d' ∧ r = (id, o).
Proof.
  unfold create_account. intros Hc. apply bind_Ok in Hc as (d1 & H1 & Hc). apply bind_Ok in Hc as (d2 & H2 & [= <- <-]).
  rewrite map_unique_Ok in H1. by exists d1.
Qed.

(** The three ways a sign-in is resolved. *)
Lemma resolve_Ok d now u o p s email v name user outcome d' :
  resolve_federated_identity d now u o p s email v name = Ok (user, outcome, d') →
  (outcome = FoExisting ∧ user_by_federated_identity d p s = Some user
   ∧ d' = set_identities d (alter (λ i, touch_identity i email v now) (p, s) (dr_identities d)))
  ∨ (user_by_federated_identity d p s = None ∧ outcome = FoLinked ∧ v = true
     ∧ ∃ found d1, user_by_email d email = Some found ∧ user = confirmed_view now found
       ∧ insert_identity d p s (u_id found) email v now = Ok d1
       ∧ d' = set_users d1 (alter (confirm_email now) (u_id found) (dr_users d1)))
  ∨ (user_by_federated_identity d p s = None ∧ user_by_email d email = None ∧ outcome = FoCreated o
     ∧ ∃ d1 d2, insert_user d u email None (if v then Some now else None) now = Ok d1
       ∧ insert_organization d1 o name u now = Ok d2 ∧ insert_identity d2 p s u email v now = Ok d'
       ∧ user_by_id d1 u = Some user).
Proof.
  unfold resolve_federated_identity. destruct (user_by_federated_identity d p s) as [x|].
  { intros [= <- <- <-]. by left. }
  destruct (user_by_email d email) as [found|].
  - intros Hr. apply bind_Ok_tt in Hr as [Hv Hr]. apply reject_if_Ok in Hv. bool_cases. subst v.
    destruct (insert_identity _ _ _ _ _ _ _) as [d1|[]] eqn:Hi; simplify_eq/=. right. left. eauto 10.
  - intros Hr. apply bind_Ok in Hr as (d1 & H1 & Hr). apply bind_Ok in Hr as (d2 & H2 & Hr).
    apply bind_Ok in Hr as (d3 & H3 & Hr). apply bind_Ok in Hr as (x & H4 & [= <- <- <-]).
    rewrite map_unique_Ok in H1, H3. apply ok_or_Ok in H4. right. right. eauto 10.
Qed.

Lemma resolve_owned d now u o p s email v name r d' o' :
  resolve_federated_identity d now u o p s email v name = Ok (r, d') → owned d o' → owned d' o'.
Proof.
  destruct r as [user outcome]. intros [(_ & _ & ->)|[(_ & _ & _ & f & d1 & _ & _ & Hi & ->)|(_ & _ & _ & d1 & d2 & H1 & H2 & H3 & _)]]%resolve_Ok.
  - by apply owned_same.
  - apply insert_identity_memberships in Hi. apply owned_same. by rewrite <- Hi.
  - apply insert_user_memberships in H1. apply insert_organization_owned in H2 as [_ H2].
    apply insert_identity_memberships in H3. intros Ho. apply (owned_same d2); [done|]. by apply H2, (owned_same d).
Qed.

(** Operations on other tables than the one a statement is about: what is left
    after unfolding is the old state or a state with that table untouched. *)
Ltac open_op :=
  unfold committed, committed', create_oauth_authorization, consume_oauth_authorization, record_failed_login, create_session,
    rotate_session, create_organization_invite, revoke_organization_invite, create_api_key, revoke_api_key,
    create_worker_credential, revoke_worker_credential, create_device_invite, revoke_device_invite, accept_device_invite,
    revoke_device_grant in *;
  repeat match goal with
  | H : map_unique _ = Ok _ |- _ => rewrite map_unique_Ok in H
  | H : insert_row _ _ _ = Ok _ |- _ => apply insert_row_Ok in H as [? ->]
  | H : Ok _ = Ok _ |- _ => injection H as H; subst
  | H : (_, _) = (_, _) |- _ => injection H as H; subst
  | H : mbind (λ _ : unit, _) _ = Ok _ |- _ => apply bind_Ok_tt in H; destruct H
  | H : mbind _ _ = Ok _ |- _ => apply bind_Ok in H; destruct H as (? & ? & H)
  | H : context [match ?x with _ => _ end] |- _ => destruct x eqn:?; try discriminate H
  | |- context [match ?x with _ => _ end] => destruct x eqn:?
  end.

Lemma committed_case {A} (P : Directory → Prop) d (r : Res StoreError (A * Directory)) :
  P d → (∀ a d', r = Ok (a, d') → P d') → P (committed d r).
Proof. destruct r as [[a d']|]; simpl; eauto. Qed.
Lemma committed_case' (P : Directory → Prop) d (r : Res StoreError Directory) :
  P d → (∀ d', r = Ok d' → P d') → P (committed' d r).
Proof. destruct r; simpl; eauto. Qed.

Lemma delete_organization_memberships d o o' u m :
  o' ≠ o → dr_memberships d !! (o', u) = Some m → dr_memberships (delete_organization d o).2 !! (o', u) = Some m.
Proof.
  intros Hne Hm. unfold delete_organization. destruct (dr_organizations d !! o); [|done].
  change (dr_memberships (_, ?x).2) with (dr_memberships x).
  change (dr_memberships (cascade_memberships (λ x _, String.eqb x o) (set_audit d (List.filter
    (λ a, negb (bool_decide (au_organization_id a = Some o))) (dr_audit d)))) !! (o', u) = Some m).
  apply cascade_memberships_lookup. split; [done|]. by apply String.eqb_neq.
Qed.

Lemma run_op_owned d op o : op ≠ AoDeleteOrganization o → owned d o → owned (run_account_op d op) o.
Proof.
  intros Hne Ho. destruct op; cbn [run_account_op]; try (eapply owned_same; [|exact Ho]; by open_op);
    try apply committed_case; try apply committed_case'; try done.
  - intros a d' (d1 & H1 & H2 & _)%create_account_Ok. apply insert_organization_owned in H2 as [_ H2].
    by eapply H2, owned_same, Ho; apply insert_user_memberships in H1.
  - intros a d' Hr. by eapply resolve_owned.
  - intros a d' Hr. unfold create_organization_for_user in Hr. apply bind_Ok in Hr as (d1 & H1 & [= _ <-]).
    by apply insert_organization_owned in H1 as [_ H1]; apply H1.
  - intros a d' Hr. by eapply set_member_role_owned.
  - intros a d' Hr. by eapply accept_invite_owned.
  - intros a d' Hr. by eapply remove_member_owned.
  - intros d' Hr. by eapply transfer_owner_owned.
  - eapply owned_mono, Ho. intros u m Hu _. apply delete_organization_memberships; [congruence|done].
  - intros a d' Hr. by eapply delete_user_owned.
Qed.

(** C38: An organization keeps an owner: an account or an organization that is
    created has one, and over any operations on accounts, members, invitations and
    credentials an organization with an owner has one, unless the organization
    itself is deleted. *)
Theorem organization_keeps_owner d ops o :
  owned d o
  ∨ (∃ d0 now u name m, create_organization_for_user d0 now o u name = Ok (m, d))
  ∨ (∃ d0 now u email pw name v, create_account d0 now u o email pw name v = Ok (u, o, d)) →
  AoDeleteOrganization o ∉ ops → owned (run_account_ops d ops) o.
Proof.
  intros Ho. assert (Ho' : owned d o).
  { destruct Ho as [Ho|[(d0 & now & u & name & m & Hc)|(d0 & now & u & email & pw & name & v & Hc)]]; [done| |].
    - unfold create_organization_for_user in Hc. apply bind_Ok in Hc as (d1 & H1 & [= _ <-]).
      by apply insert_organization_owned in H1 as [? _].
    - apply create_account_Ok in Hc as (d1 & _ & H2 & _). by apply insert_organization_owned in H2 as [? _]. }
  clear Ho. revert d Ho'. induction ops as [|op ops IH]; intros d Ho Hd; [done|].
  apply not_elem_of_cons in Hd as [Hne Hd]. apply IH; [|done]. by apply run_op_owned.
Qed.

(** ** Sign-ins through a provider *)

(** The identity belongs to the account. *)
Definition linked (d : Directory) (provider subject user_id : string) : Prop :=
  is_Some (dr_users d !! user_id) ∧ ∃ i, dr_identities d !! (provider, subject) = Some i ∧ id_user_id i = user_id.

Lemma linked_by_identity d p s u :
  linked d p s u ↔ ∃ user, user_by_federated_identity d p s = Some user ∧ u_id user = u.
Proof.
  unfold linked, user_by_federated_identity, user_by_id. split.
  - intros ([x Hx] & i & Hi & <-). rewrite Hi. simpl. rewrite Hx. by eexists.
  - intros (user & Hu & <-). destruct (dr_identities d !! (p, s)) as [i|]; [|done]. simpl in Hu.
    destruct (dr_users d !! id_user_id i) as [x|] eqn:Hx; simplify_eq/=. split; [by eexists|]. by exists i.
Qed.

(** Accounts and identities that stay. *)
Lemma linked_mono d d' p s u :
  (is_Some (dr_users d !! u) → is_Some (dr_users d' !! u)) →
  (∀ i, dr_identities d !! (p, s) = Some i → id_user_id i = u → ∃ i', dr_identities d' !! (p, s) = Some i' ∧ id_user_id i' = u) →
  linked d p s u → linked d' p s u.
Proof. intros Hu Hi [Hs (i & Hps & Hid)]. split; eauto. Qed.

Lemma linked_same d d' p s u :
  dr_users d' = dr_users d → dr_identities d' = dr_identities d → linked d p s u → linked d' p s u.
Proof. intros Hu Hi. unfold linked. by rewrite Hu, Hi. Qed.

Lemma insert_organization_linked d o name v now d' p s u :
  insert_organization d o name v now = Ok d' → linked d p s u → linked d' p s u.
Proof. unfold insert_organization. intros Hi. inv_ok. by apply linked_same. Qed.

Lemma insert_user_Ok d id email pw v now d' :
  insert_user d id email pw v now = Ok d' →
  email_used d (normalize_email email) = false ∧ dr_users d !! id = None
  ∧ d' = set_users d (<[id := mkUserRow (trim email) (normalize_email email) pw "active" v now now 0 None]> (dr_users d)).
Proof.
  unfold insert_user. intros Hi. apply bind_Ok_tt in Hi as [Hu Hi]. apply reject_if_Ok in Hu.
  apply bind_Ok in Hi as (m & Hm & [= <-]). by apply insert_row_Ok in Hm as [Hn ->].
Qed.

Lemma insert_user_linked d id email pw v now d' p s u :
  insert_user d id email pw v now = Ok d' → linked d p s u → linked d' p s u.
Proof.
  intros (_ & Hn & ->)%insert_user_Ok. apply linked_mono; cbn; [|by eauto]. intros [x Hx]. rewrite lookup_insert_ne; [by eexists|congruence].
Qed.

Lemma insert_identity_Ok d p s u email v now d' :
  insert_identity d p s u email v now = Ok d' →
  dr_identities d !! (p, s) = None
  ∧ d' = set_identities d (<[(p, s) := mkIdentityRow u (Some (trim email)) v now (Some now)]> (dr_identities d)).
Proof.
  unfold insert_identity. intros Hi. apply bind_Ok_tt in Hi as [_ Hi]. apply bind_Ok in Hi as (m & Hm & [= <-]).
  by apply insert_row_Ok in Hm as [Hn ->].
Qed.

Lemma insert_identity_linked d p' s' u' email v now d' p s u :
  insert_identity d p' s' u' email v now = Ok d' → linked d p s u → linked d' p s u.
Proof.
  intros [Hn ->]%insert_identity_Ok. apply linked_mono; [done|]. cbn. intros i Hi Hid. exists i. split; [|done].
  rewrite lookup_insert_ne; [done|congruence].
Qed.

Lemma insert_identity_links d p s u email v now d' :
  insert_identity d p s u email v now = Ok d' → is_Some (dr_users d !! u) → linked d' p s u.
Proof. intros [_ ->]%insert_identity_Ok Hu. split; [done|]. eexists. split; [apply lookup_insert_eq|done]. Qed.

(** Rows of accounts that change in place. *)
Lemma users_alter_linked d f w p s u : linked d p s u → linked (set_users d (alter f w (dr_users d))) p s u.
Proof.
  apply linked_mono; [|by eauto]. cbn. intros [x Hs]. destruct (decide (u = w)) as [->|].
  - rewrite lookup_alter_eq, Hs. by eexists.
  - rewrite lookup_alter_ne by done. by eexists.
Qed.
Lemma users_insert_linked d x w p s u : linked d p s u → linked (set_users d (<[w := x]> (dr_users d))) p s u.
Proof.
  apply linked_mono; [|by eauto]. cbn. intros Hs. destruct (decide (u = w)) as [->|].
  - by rewrite lookup_insert_eq.
  - by rewrite lookup_insert_ne.
Qed.

Lemma resolve_links d now u o p s email v name user outcome d' :
  resolve_federated_identity d now u o p s email v name = Ok (user, outcome, d') →
  linked d' p s (u_id user) ∧ ∀ p' s' w, linked d p' s' w → linked d' p' s' w.
Proof.
  intros [(_ & Hu & ->)|[(_ & _ & _ & f & d1 & Hf & -> & Hi & ->)|(_ & _ & _ & d1 & d2 & H1 & H2 & H3 & Hx)]]%resolve_Ok.
  - assert (Hk : ∀ p' s' w, linked d p' s' w →
      linked (set_identities d (alter (λ i, touch_identity i email v now) (p, s) (dr_identities d))) p' s' w).
    { intros p' s' w. apply linked_mono; [done|]. cbn. intros i Hi Hid. destruct (decide ((p', s') = (p, s))) as [[= -> ->]|Hne].
      - rewrite lookup_alter_eq, Hi. simpl. by eexists.
      - rewrite lookup_alter_ne by done. by exists i. }
    split; [|done]. apply Hk, linked_by_identity. eauto.
  - assert (Hk : ∀ p' s' w, linked d1 p' s' w → linked (set_users d1 (alter (confirm_email now) (u_id f) (dr_users d1))) p' s' w).
    { intros p' s' w. apply users_alter_linked. }
    split.
    + apply Hk. eapply insert_identity_links; [exact Hi|]. unfold user_by_email in Hf.
      apply fmap_Some in Hf as ([id x] & [Hx _]%select_Some & ->). cbn. by eexists.
    + intros p' s' w Hl. apply Hk. by eapply insert_identity_linked.
  - unfold user_by_id in Hx. apply fmap_Some in Hx as (x & Hx & ->). split.
    + eapply insert_identity_links; [exact H3|]. apply insert_organization_memberships in H2 as (_ & _ & ->). by eexists.
    + intros p' s' w Hl. eapply insert_identity_linked; [done|]. eapply insert_organization_linked; [done|].
      by eapply insert_user_linked.
Qed.

Lemma delete_user_linked d w r d' p s u : w ≠ u → delete_user d w = Ok (r, d') → linked d p s u → linked d' p s u.
Proof.
  intros Hne (_ & d3 & -> & _ & Hu & Hi)%delete_user_Ok. apply linked_mono.
  - change (dr_users (erase_user d3 w)) with (delete w (dr_users d3)). rewrite Hu. by rewrite lookup_delete_ne.
  - change (dr_identities (erase_user d3 w)) with (delete_where (λ _ i, String.eqb (id_user_id i) w) (dr_identities d3)).
    rewrite Hi. intros i Hps Hid. exists i. split; [|done]. apply delete_where_Some. split; [done|].
    apply String.eqb_neq. congruence.
Qed.

Lemma run_op_linked d op p s u : op ≠ AoDeleteUser u → linked d p s u → linked (run_account_op d op) p s u.
Proof.
  intros Hne Hl. destruct op; cbn [run_account_op]; try (eapply linked_same; [..|exact Hl]; by open_op);
    try apply committed_case; try apply committed_case'; try done.
  - intros a d' (d1 & H1 & H2 & _)%create_account_Ok. eapply insert_organization_linked; [done|]. by eapply insert_user_linked.
  - intros [user outcome] d' [_ Hr]%resolve_links. by apply Hr.
  - unfold record_failed_login. repeat case_match; try done; by apply users_insert_linked.
  - by apply users_alter_linked.
  - intros a d' Hr. unfold create_organization_for_user in Hr. apply bind_Ok in Hr as (d1 & H1 & [= _ <-]).
    by eapply insert_organization_linked.
  - intros a d' Hr. unfold set_member_role in Hr. destruct (find_member _ _) as [[]|]; inv_ok; [by eapply linked_same|done].
  - intros a d' (i & v & _ & _ & _ & _ & _ & ->)%accept_invite_Ok. by eapply linked_same.
  - intros a d' Hr. unfold remove_member in Hr. destruct (find_member _ _) as [[]|]; inv_ok; [by eapply linked_same|done].
  - intros d' Hr. unfold transfer_owner in Hr. inv_ok. by eapply linked_same.
  - unfold delete_organization. destruct (dr_organizations d !! _); by eapply linked_same.
  - intros a d' Hr. eapply delete_user_linked; [|done..]. congruence.
Qed.

(** Signing in through a provider enters an account that already existed only
    if the provider's subject was linked to it before, or if the provider verified
    the address the account has; and from then on the subject signs in to the same
    account, whatever address it presents, until that account is deleted. *)
Theorem federated_sign_in_safe d now u o p s email v name user outcome d' ops :
  resolve_federated_identity d now u o p s email v name = Ok (user, outcome, d') → AoDeleteUser (u_id user) ∉ ops →
  (is_Some (dr_users d !! u_id user) →
     linked d p s (u_id user) ∨ v = true ∧ ∃ found, user_by_email d email = Some found ∧ u_id found = u_id user)
  ∧ linked d' p s (u_id user)
  ∧ ∀ now' u' o' email' v' name', ∃ user' d2,
      resolve_federated_identity (run_account_ops d' ops) now' u' o' p s email' v' name' = Ok (user', FoExisting, d2)
      ∧ u_id user' = u_id user.
Proof.
  intros Hr Hd. pose proof (resolve_links _ _ _ _ _ _ _ _ _ _ _ _ Hr) as [Hl _]. split_and!; [|done|].
  - intros Hex. apply resolve_Ok in Hr as [(_ & Hu & _)|[(_ & _ & -> & f & d1 & Hf & -> & _)|(_ & _ & _ & d1 & d2 & H1 & _ & _ & Hx)]].
    + left. apply linked_by_identity. eauto.
    + right. eauto.
    + apply insert_user_Ok in H1 as (_ & Hn & ->). unfold user_by_id in Hx. apply fmap_Some in Hx as (x & _ & ->).
      cbn in Hex. rewrite Hn in Hex. by destruct Hex.
  - clear Hr. intros now' u' o' email' v' name'. assert (Hk : linked (run_account_ops d' ops) p s (u_id user)).
    { revert d' Hl Hd. induction ops as [|op ops IH]; intros d' Hl Hd; [done|]. apply not_elem_of_cons in Hd as [Hne Hd].
      apply IH; [|done]. apply run_op_linked; [congruence|done]. }
    apply linked_by_identity in Hk as (user' & Hu & He). unfold resolve_federated_identity. rewrite Hu. eauto.
Qed.

(** ** Shared devices *)

(** A grant that had ended is renewed with its old owner in the row, while the
    answer names the owner of the new invitation: that owner then cannot revoke
    the grant. *)
Lemma regrant_keeps_stale_owner d now grant_id h u o w g d' old :
  accept_device_invite d now grant_id h u = Ok (o, w, g, d') → db_grants (dr_db d) !! (o, w, u) = Some old →
  grant_active now old = false → gr_owner_user_id old ≠ gr_owner_user_id g →
  ∀ now', revoke_device_grant d' now' o w (gr_owner_user_id g) u = (false, d').
Proof.
  unfold accept_device_invite. intros Ha Hold Hend Hne. apply bind_Ok in Ha as ([i v] & Hv & Ha).
  destruct (db_grants _ !! (di_organization_id v, di_device_id v, u)) as [g0|] eqn:Hg.
  - destruct (grant_active now g0) eqn:Hact.
    { injection Ha as <- <- <- <-. congruence. }
    apply bind_Ok_tt in Ha as [Hc Ha]. apply bind_Ok_tt in Ha as [_ Ha]. injection Ha as <- <- <- <-.
    assert (g0 = old) as -> by congruence. intros now'. unfold revoke_device_grant.
    cbn [dr_db db_grants set_db set_grants]. rewrite lookup_insert_eq. cbn [gr_owner_user_id granted_row from_option] in Hne |- *.
    by rewrite (proj2 (String.eqb_neq _ _) Hne).
  - apply bind_Ok_tt in Ha as [_ Ha]. apply bind_Ok_tt in Ha as [_ Ha]. apply bind_Ok_tt in Ha as [_ Ha].
    injection Ha as <- <- <- <-. congruence.
Qed.

(** The tables of a new installation. *)
Definition no_rows : Directory :=
  mkDirectory ∅ ∅ ∅ ∅ ∅ ∅ ∅ ∅ ∅ ∅ [] (mkDb ∅ ∅ ∅ ∅ ∅ ∅ ∅ ∅ ∅ ∅ ∅ ∅ ∅ ∅).

(** Ann registers, Bob joins her organization by invitation and becomes a
    co-owner; then Ann leaves, and Bob may not. *)
Definition household_start : Directory :=
  run_account_ops no_rows
    [AoCreateAccount 10 "ann" "org" "ann@example.com" (Some "pw") "Ann's" None;
     AoCreateAccount 11 "bob" "org-bob" "bob@example.com" (Some "pw") "Bob's" None].
Definition household : list AccountOp :=
  [AoCreateInvite (mkNewOrganizationInvite "inv" "org" "ann" "nlo_" "code" Admin 20 1000);
   AoAcceptInvite 30 "code" "bob"; AoSetMemberRole 40 "org" "bob" Owner;
   AoRemoveMember 50 "org" "ann"; AoRemoveMember 60 "org" "bob"; AoSetMemberRole 70 "org" "bob" Viewer].

Lemma household_keeps_accounts u : AoDeleteUser u ∉ household.
Proof. unfold household. rewrite !not_elem_of_cons. split_and!; try discriminate. apply not_elem_of_nil. Qed.

Lemma organization_keeps_owner_witness : owned (run_account_ops household_start household) "org".
Proof.
  apply organization_keeps_owner; [left; exists "ann"; eexists; split; vm_compute; reflexivity|].
  unfold household. rewrite !not_elem_of_cons. split_and!; try discriminate. apply not_elem_of_nil.
Defined.

(** Ann's address in another spelling, verified; later another one that is not. *)
Definition household_sign_in :=
  resolve_federated_identity household_start 20 "new" "new-org" "github" "42" "Ann@Example.com " true "x".

Lemma federated_sign_in_safe_witness :
  ∃ d1 user d2, household_sign_in = Ok d1 ∧ u_id user = u_id d1.1.1
  ∧ resolve_federated_identity (run_account_ops d1.2 household) 90 "new" "new-org" "github" "42" "x@y.z" false "x"
    = Ok (user, FoExisting, d2).
Proof.
  assert (Hok : is_ok household_sign_in = true) by (vm_compute; reflexivity).
  destruct household_sign_in as [[[user outcome] d']|] eqn:Hr; [clear Hok|discriminate Hok]. unfold household_sign_in in Hr.
  destruct (federated_sign_in_safe _ _ _ _ _ _ _ _ _ _ _ _ household Hr) as (_ & _ & Hs).
  - apply household_keeps_accounts.
  - destruct (Hs 90 "new" "new-org" "x@y.z" false "x")%Z as (user' & d2 & Hx & He).
    exists (user, outcome, d'), user', d2. split; [reflexivity|]. split; [exact He|exact Hx].
Defined.

Example household_owner :
  members_of (run_account_ops household_start household) "org" = [("bob", "owner")].
Proof. vm_compute. reflexivity. Qed.
