(* ===== verification/Secrets.v ===== *)
(** Bearer secrets over the operations on accounts: browser sessions, API keys,
    worker tokens, sign-in states and invitation codes.

    Main results: what was revoked, consumed, accepted or rotated away is never
    accepted again, whatever follows; every secret identifies one row. *)

From S2P Require Import Prelude Text HubTypes Principal Store Accounts.
From Stdlib Require Import ZArith Lia.

(** ** Secrets that still work *)

Inductive SecretKind := AccessToken | RefreshToken | KeySecret | WorkerToken | OauthState | OrganizationCode | DeviceCode.

Definition unexpired (expires_at : option Z) (now : Z) : Prop := ∀ e, expires_at = Some e → (now < e)%Z.

(** The secret, by its hash, passes the checks its consumers make at [now]. *)
Definition usable (d : Directory) (kind : SecretKind) (h : string) (now : Z) : Prop :=
  match kind with
  | AccessToken => ∃ id s, dr_sessions d !! id = Some s ∧ bs_access_token_hash s = h ∧ bs_revoked_at s = None
                           ∧ (now < bs_access_expires_at s)%Z
  | RefreshToken => ∃ id s, dr_sessions d !! id = Some s ∧ bs_refresh_token_hash s = h ∧ bs_revoked_at s = None
                            ∧ (now < bs_refresh_expires_at s)%Z
  | KeySecret => ∃ id k, dr_api_keys d !! id = Some k ∧ ak_key_hash k = h ∧ ak_revoked_at k = None
                         ∧ unexpired (ak_expires_at k) now
  | WorkerToken => ∃ id c, dr_credentials d !! id = Some c ∧ wc_token_hash c = h ∧ wc_revoked_at c = None
                           ∧ unexpired (wc_expires_at c) now
  | OauthState => ∃ a, dr_authorizations d !! h = Some a ∧ oa_consumed_at a = None ∧ (now < oa_expires_at a)%Z
  | OrganizationCode => ∃ id v, dr_invites d !! id = Some v ∧ iv_code_hash v = h ∧ invite_closed now v = false
  | DeviceCode => ∃ id v, dr_device_invites d !! id = Some v ∧ di_code_hash v = h ∧ device_invite_closed now v = false
  end.

(** The secrets an operation stores. *)
Definition minted (op : AccountOp) : list string :=
  match op with
  | AoCreateSession i => [ns_access_token_hash i; ns_refresh_token_hash i]
  | AoRotateSession i => [rs_access_token_hash i; rs_refresh_token_hash i]
  | AoCreateApiKey i => [nk_key_hash i]
  | AoCreateCredential i => [nw_token_hash i]
  | AoCreateAuthorization _ state _ _ _ _ => [state]
  | AoCreateInvite i => [ni_code_hash i]
  | AoCreateDeviceInvite i => [nd_code_hash i]
  | _ => []
  end.

(** A table whose rows come from an older one's, changed by [R]. *)
Definition derives {A} (R : A → A → Prop) (m m' : gmap string A) : Prop :=
  ∀ k a', m' !! k = Some a' → ∃ a, m !! k = Some a ∧ R a a'.

(** How each kind's rows may change: never back to usable. *)
Definition session_less (s s' : SessionRow) : Prop :=
  bs_access_token_hash s' = bs_access_token_hash s ∧ bs_refresh_token_hash s' = bs_refresh_token_hash s
  ∧ bs_access_expires_at s' = bs_access_expires_at s ∧ bs_refresh_expires_at s' = bs_refresh_expires_at s
  ∧ bs_user_id s' = bs_user_id s ∧ bs_organization_id s' = bs_organization_id s
  ∧ (bs_revoked_at s' = None → bs_revoked_at s = None).
Definition key_less (k k' : ApiKeyRow) : Prop :=
  ak_key_hash k' = ak_key_hash k ∧ ak_expires_at k' = ak_expires_at k
  ∧ ak_organization_id k' = ak_organization_id k ∧ ak_creator_user_id k' = ak_creator_user_id k
  ∧ (ak_revoked_at k' = None → ak_revoked_at k = None).
Definition credential_less (c c' : WorkerCredentialRow) : Prop :=
  wc_token_hash c' = wc_token_hash c ∧ wc_expires_at c' = wc_expires_at c
  ∧ (wc_revoked_at c' = None → wc_revoked_at c = None).
Definition authorization_less (a a' : AuthorizationRow) : Prop :=
  oa_expires_at a' = oa_expires_at a ∧ (oa_consumed_at a' = None → oa_consumed_at a = None).
Definition invite_less (v v' : OrganizationInviteRow) : Prop :=
  iv_code_hash v' = iv_code_hash v ∧ iv_expires_at v' = iv_expires_at v
  ∧ (iv_accepted_at v' = None → iv_accepted_at v = None) ∧ (iv_revoked_at v' = None → iv_revoked_at v = None).
Definition device_invite_less (v v' : DeviceInviteRow) : Prop :=
  di_code_hash v' = di_code_hash v ∧ di_expires_at v' = di_expires_at v ∧ di_max_uses v' = di_max_uses v
  ∧ (di_use_count v ≤ di_use_count v')%Z ∧ (di_revoked_at v' = None → di_revoked_at v = None).

#[export] Instance session_less_refl : Reflexive session_less.
Proof. by repeat split. Qed.
#[export] Instance key_less_refl : Reflexive key_less.
Proof. by repeat split. Qed.
#[export] Instance credential_less_refl : Reflexive credential_less.
Proof. by repeat split. Qed.
#[export] Instance authorization_less_refl : Reflexive authorization_less.
Proof. by repeat split. Qed.
#[export] Instance invite_less_refl : Reflexive invite_less.
Proof. by repeat split. Qed.
#[export] Instance device_invite_less_refl : Reflexive device_invite_less.
Proof. by repeat split. Qed.

Section derives.
Context {A : Type} (R : A → A → Prop) `{!Reflexive R}.
Implicit Types (m : gmap string A).

Lemma derives_refl m : derives R m m.
Proof. intros k a ?. by exists a. Qed.
Lemma derives_delete p m : derives R m (delete_where p m).
Proof. intros k a [? _]%delete_where_Some. by exists a. Qed.
Lemma derives_update p f m : (∀ a, R a (f a)) → derives R m (update_where p f m).
Proof.
  intros Hf k a'. rewrite update_where_lookup. intros (a & Hk & ->)%fmap_Some. exists a. split; [done|]. by destruct (p k a).
Qed.
Lemma derives_alter f i m : (∀ a, R a (f a)) → derives R m (alter f i m).
Proof.
  intros Hf k a' Hk. destruct (decide (k = i)) as [->|Hne].
  - rewrite lookup_alter_eq in Hk. apply fmap_Some in Hk as (a & Hk & ->). eauto.
  - rewrite lookup_alter_ne in Hk by done. by exists a'.
Qed.
Lemma derives_insert i a a' m : m !! i = Some a → R a a' → derives R m (<[i := a']> m).
Proof. intros Hi HR k b [[<- <-]|[_ Hk]]%lookup_insert_Some; eauto. Qed.
Lemma derives_fmap f m : (∀ a, R a (f a)) → derives R m (f <$> m).
Proof. intros Hf k a'. rewrite lookup_fmap. intros (a & Hk & ->)%fmap_Some. eauto. Qed.
End derives.

Record wanes (d d' : Directory) : Prop := {
  wn_sessions : derives session_less (dr_sessions d) (dr_sessions d');
  wn_api_keys : derives key_less (dr_api_keys d) (dr_api_keys d');
  wn_credentials : derives credential_less (dr_credentials d) (dr_credentials d');
  wn_authorizations : derives authorization_less (dr_authorizations d) (dr_authorizations d');
  wn_invites : derives invite_less (dr_invites d) (dr_invites d');
  wn_device_invites : derives device_invite_less (dr_device_invites d) (dr_device_invites d');
}.

Create HintDb secrets discriminated.
#[export] Hint Resolve derives_refl derives_delete : secrets.
#[export] Hint Resolve session_less_refl key_less_refl credential_less_refl authorization_less_refl invite_less_refl
  device_invite_less_refl : secrets.

(** Tables an operation does not touch. *)
Ltac wane := split; cbn; auto with secrets.

Lemma wanes_usable d d' kind h now : wanes d d' → usable d' kind h now → usable d kind h now.
Proof.
  intros [Hs Hk Hc Ha Hi Hv]. destruct kind; simpl.
  - intros (id & s' & (s & Hid & Hr & _ & Hx & _ & _ & _ & Hrev)%Hs & Hh & Hn & Hl).
    exists id, s. rewrite Hr in Hh. rewrite Hx in Hl. auto.
  - intros (id & s' & (s & Hid & _ & Hr & _ & Hx & _ & _ & Hrev)%Hs & Hh & Hn & Hl).
    exists id, s. rewrite Hr in Hh. rewrite Hx in Hl. auto.
  - intros (id & k' & (k & Hid & Hh' & He & _ & _ & Hrev)%Hk & Hh & Hn & Hl).
    exists id, k. rewrite Hh' in Hh. rewrite He in Hl. auto.
  - intros (id & c' & (c & Hid & Hh' & He & Hrev)%Hc & Hh & Hn & Hl).
    exists id, c. rewrite Hh' in Hh. rewrite He in Hl. auto.
  - intros (a' & (a & Hid & He & Hco)%Ha & Hn & Hl). exists a. rewrite He in Hl. auto.
  - intros (id & v' & (v & Hid & Hh' & He & Hac & Hrev)%Hi & Hh & Hn). exists id, v. rewrite Hh' in Hh.
    split_and!; [done..|]. unfold invite_closed in *. rewrite He in Hn. bool_cases.
    rewrite !bool_decide_false, H0; [done|..].
    + intros Hsome. apply H1. destruct (iv_revoked_at v'); [done|]. rewrite Hrev in Hsome by done. done.
    + intros Hsome. apply H. destruct (iv_accepted_at v'); [done|]. rewrite Hac in Hsome by done. done.
  - intros (id & v' & (v & Hid & Hh' & He & Hm & Hu & Hrev)%Hv & Hh & Hn). exists id, v. rewrite Hh' in Hh.
    split_and!; [done..|]. unfold device_invite_closed in *. rewrite He, Hm in Hn. bool_cases.
    rewrite bool_decide_false, H1; simpl.
    + apply Z.leb_gt. apply Z.leb_gt in H0. lia.
    + intros Hsome. apply H. destruct (di_revoked_at v'); [done|]. rewrite Hrev in Hsome by done. done.
Qed.

Lemma wanes_refl d : wanes d d.
Proof. wane. Qed.

Lemma cascade_memberships_wanes gone d : wanes d (cascade_memberships gone d).
Proof. wane. Qed.

Lemma derives_trans {A} (R : A → A → Prop) `{!Transitive R} (m1 m2 m3 : gmap string A) :
  derives R m1 m2 → derives R m2 m3 → derives R m1 m3.
Proof. intros H1 H2 k a3 (a2 & (a1 & ? & ?)%H1 & ?)%H2. exists a1. split; [done|]. by etrans. Qed.

#[export] Instance session_less_trans : Transitive session_less.
Proof. unfold session_less. intros ???. naive_solver congruence. Qed.
#[export] Instance key_less_trans : Transitive key_less.
Proof. unfold key_less. intros ???. naive_solver congruence. Qed.
#[export] Instance credential_less_trans : Transitive credential_less.
Proof. unfold credential_less. intros ???. naive_solver congruence. Qed.
#[export] Instance authorization_less_trans : Transitive authorization_less.
Proof. unfold authorization_less. intros ???. naive_solver congruence. Qed.
#[export] Instance invite_less_trans : Transitive invite_less.
Proof. unfold invite_less. intros ???. naive_solver congruence. Qed.
#[export] Instance device_invite_less_trans : Transitive device_invite_less.
Proof.
  unfold device_invite_less. intros ??? (H1 & H2 & H3 & H4 & H5) (H1' & H2' & H3' & H4' & H5').
  split_and!; try congruence; [lia|auto].
Qed.

Lemma wanes_trans d1 d2 d3 : wanes d1 d2 → wanes d2 d3 → wanes d1 d3.
Proof. intros [] []. split; eapply derives_trans; eauto; apply _. Qed.

(** ** Each operation *)

Lemma revoke_row_less now s : session_less s (revoke_row now s).
Proof. by repeat split. Qed.
Lemma revoke_credential_less now c : credential_less c (revoke_credential now c).
Proof. by repeat split. Qed.
Lemma touch_credential_less now c : credential_less c (touch_credential now c).
Proof. unfold touch_credential. destruct (touch_due _ _); by repeat split. Qed.
#[export] Hint Resolve revoke_row_less revoke_credential_less touch_credential_less : secrets.
#[export] Hint Resolve derives_alter derives_update derives_fmap : secrets.

Lemma insert_organization_wanes d o name u now d' : insert_organization d o name u now = Ok d' → wanes d d'.
Proof. unfold insert_organization. intros Hi. inv_ok. wane. Qed.

Lemma resolve_wanes d now u o p s email v name r d' :
  resolve_federated_identity d now u o p s email v name = Ok (r, d') → wanes d d'.
Proof.
  destruct r as [user outcome]. intros [(_ & _ & ->)|[(_ & _ & _ & f & d1 & _ & _ & Hi & ->)|(_ & _ & _ & d1 & d2 & H1 & H2 & H3 & _)]]%resolve_Ok.
  - wane.
  - unfold insert_identity in Hi. inv_ok. wane.
  - apply insert_organization_wanes in H2. unfold insert_user in H1. unfold insert_identity in H3. inv_ok.
    eapply wanes_trans; [|eapply wanes_trans; [exact H2|]]; wane.
Qed.

Lemma remove_member_wanes d now o u r d' : remove_member d now o u = Ok (r, d') → wanes d d'.
Proof.
  unfold remove_member. destruct (find_member _ u) as [[]|]; [|intros [= _ <-]; apply wanes_refl].
  intros Hr. inv_ok. eapply wanes_trans; [|apply cascade_memberships_wanes]. wane.
Qed.

Lemma delete_organization_wanes d o : wanes d (delete_organization d o).2.
Proof.
  unfold delete_organization. destruct (dr_organizations d !! o); [|wane]. cbn [snd].
  eapply wanes_trans; [apply (cascade_memberships_wanes (λ x _, String.eqb x o))|]. wane.
Qed.

Lemma erase_user_wanes d u : wanes d (erase_user d u).
Proof.
  eapply wanes_trans; [apply (cascade_memberships_wanes (λ _ w, String.eqb w u))|]. split; cbn; auto with secrets.
  apply derives_fmap. intros v. by case_match.
Qed.

Lemma delete_user_wanes d u r d' : delete_user d u = Ok (r, d') → wanes d d'.
Proof.
  unfold delete_user. intros Hd. apply bind_Ok_tt in Hd as [_ Hd]. apply bind_Ok_tt in Hd as [_ [= _ <-]].
  eapply wanes_trans; [|apply erase_user_wanes]. wane.
Qed.

Lemma accept_invite_wanes d now h u r d' : accept_organization_invite d now h u = Ok (r, d') → wanes d d'.
Proof.
  intros (i & v & Hi & _ & _ & _ & _ & ->)%accept_invite_Ok. split; cbn; auto with secrets.
  eapply derives_insert; [apply _|done|by repeat split].
Qed.

Lemma api_key_for_org_Some d o id k :
  api_key_for_org d o id = Some k → dr_api_keys d !! id = Some k ∧ ak_organization_id k = o.
Proof.
  unfold api_key_for_org. destruct (dr_api_keys d !! id) as [k'|]; simpl; [|done].
  destruct (String.eqb_spec (ak_organization_id k') o); naive_solver.
Qed.

Lemma worker_credential_for_org_Some d o id c :
  worker_credential_for_org d o id = Some c → dr_credentials d !! id = Some c ∧ wc_organization_id c = o.
Proof.
  unfold worker_credential_for_org. destruct (dr_credentials d !! id) as [c'|]; simpl; [|done].
  destruct (String.eqb_spec (wc_organization_id c') o); naive_solver.
Qed.

(** Operations that store no secret. *)
Lemma run_op_wanes d op : minted op = [] → wanes d (run_account_op d op).
Proof.
  intros Hm. destruct op; try discriminate Hm; cbn [run_account_op]; try (apply committed_case; [apply wanes_refl|]);
    try (apply committed_case'; [apply wanes_refl|]); try (by wane).
  - intros a d' (d1 & H1 & H2 & _)%create_account_Ok. apply insert_organization_wanes in H2. unfold insert_user in H1. inv_ok.
    eapply wanes_trans; [|exact H2]. wane.
  - intros a d' Hr. by eapply resolve_wanes.
  - unfold consume_oauth_authorization. repeat case_match; try apply wanes_refl. bool_cases. split; cbn; auto with secrets.
    eapply derives_insert; [apply _|done|by repeat split].
  - unfold record_failed_login. repeat case_match; wane.
  - intros a d' Hr. unfold create_organization_for_user in Hr. apply bind_Ok in Hr as (d1 & H1 & [= _ <-]).
    by eapply insert_organization_wanes.
  - intros a d' Hr. unfold set_member_role in Hr. destruct (find_member _ _) as [[]|]; inv_ok; wane.
  - unfold revoke_organization_invite. repeat case_match; try apply wanes_refl. bool_cases. split; cbn; auto with secrets.
    eapply derives_insert; [apply _|done|]. by repeat split.
  - intros a d' Hr. by eapply accept_invite_wanes.
  - intros a d' Hr. by eapply remove_member_wanes.
  - intros d' Hr. unfold transfer_owner in Hr. inv_ok. wane.
  - apply delete_organization_wanes.
  - intros a d' Hr. by eapply delete_user_wanes.
  - split; cbn; auto with secrets. apply derives_alter; [apply _|]. intros k. by case_match.
  - unfold revoke_api_key. destruct (api_key_for_org _ _ _) as [k|] eqn:Hk; [|apply wanes_refl].
    apply api_key_for_org_Some in Hk as [Hk _]. case_match; [|apply wanes_refl]. bool_cases. split; cbn; auto with secrets.
    eapply derives_insert; [apply _|done|by repeat split].
  - unfold revoke_worker_credential. destruct (worker_credential_for_org _ _ _) as [c|] eqn:Hc; [|apply wanes_refl].
    apply worker_credential_for_org_Some in Hc as [Hc _]. case_match; [|apply wanes_refl]. bool_cases.
    split; cbn; auto with secrets. eapply derives_insert; [apply _|done|by repeat split].
  - unfold revoke_device_invite. repeat case_match; try apply wanes_refl. bool_cases. split; cbn; auto with secrets.
    eapply derives_insert; [apply _|done|by repeat split].
  - intros a d' Hr. unfold accept_device_invite in Hr. apply bind_Ok in Hr as ([i v] & Hs & Hr).
    apply ok_or_Ok, select_Some in Hs as [Hi _]. case_match; [case_match|]; inv_ok; try apply wanes_refl.
    all: split; cbn; auto with secrets.
    all: eapply derives_insert; [apply _|done|]; repeat split; simpl; auto; lia.
  - unfold revoke_device_grant. repeat case_match; try apply wanes_refl. wane.
Qed.

(** ** Uniqueness *)

Definition unique_by {A} (f : A → string) (m : gmap string A) : Prop :=
  ∀ k k' a a', m !! k = Some a → m !! k' = Some a' → f a = f a' → k = k'.

Record secrets_unique (d : Directory) : Prop := {
  su_access : unique_by bs_access_token_hash (dr_sessions d);
  su_refresh : unique_by bs_refresh_token_hash (dr_sessions d);
  su_keys : unique_by ak_key_hash (dr_api_keys d);
  su_credentials : unique_by wc_token_hash (dr_credentials d);
  su_invites : unique_by iv_code_hash (dr_invites d);
  su_device_invites : unique_by di_code_hash (dr_device_invites d);
}.

Lemma unique_by_derives {A} (f : A → string) (R : A → A → Prop) m m' :
  (∀ a a', R a a' → f a' = f a) → derives R m m' → unique_by f m → unique_by f m'.
Proof.
  intros Hf Hd Hu k k' a a' (b & Hb & HR)%Hd (b' & Hb' & HR')%Hd Heq. eapply Hu; [done..|].
  by rewrite <- (Hf _ _ HR), <- (Hf _ _ HR').
Qed.

Lemma unique_by_insert {A} (f : A → string) m k a :
  (∀ k' a', m !! k' = Some a' → k' ≠ k → f a' ≠ f a) → unique_by f m → unique_by f (<[k := a]> m).
Proof.
  intros Hn Hu j j' b b' Hj Hj' Heq. destruct (decide (j = k)) as [->|Hne], (decide (j' = k)) as [->|Hne']; [done|..].
  - rewrite lookup_insert_eq in Hj. rewrite lookup_insert_ne in Hj' by done. simplify_eq. exfalso. by eapply Hn.
  - rewrite lookup_insert_eq in Hj'. rewrite lookup_insert_ne in Hj by done. simplify_eq. exfalso. by eapply Hn.
  - rewrite lookup_insert_ne in Hj, Hj' by done. by eapply Hu.
Qed.

Lemma wanes_unique d d' : wanes d d' → secrets_unique d → secrets_unique d'.
Proof.
  intros [] []. split; (eapply unique_by_derives; [|eassumption|eassumption]); unfold session_less, key_less, credential_less,
    invite_less, device_invite_less; naive_solver.
Qed.

Lemma access_hash_free d except h :
  access_hash_used d except h = false → ∀ id s, dr_sessions d !! id = Some s → id ≠ except → bs_access_token_hash s ≠ h.
Proof.
  intros Hf%bool_decide_eq_false_1 id s Hid Hne Hh. apply Hf, select_is_Some. exists id, s. split; [done|].
  apply andb_true_iff. split; [by apply negb_true_iff, String.eqb_neq|by apply String.eqb_eq].
Qed.
Lemma refresh_hash_free d except h :
  refresh_hash_used d except h = false → ∀ id s, dr_sessions d !! id = Some s → id ≠ except → bs_refresh_token_hash s ≠ h.
Proof.
  intros Hf%bool_decide_eq_false_1 id s Hid Hne Hh. apply Hf, select_is_Some. exists id, s. split; [done|].
  apply andb_true_iff. split; [by apply negb_true_iff, String.eqb_neq|by apply String.eqb_eq].
Qed.

(** ** Operations that store a secret *)

Lemma create_session_Ok d i d' :
  create_session d i = Ok d' →
  dr_sessions d !! ns_id i = None ∧ is_Some (dr_memberships d !! (ns_organization_id i, ns_user_id i))
  ∧ access_hash_used d (ns_id i) (ns_access_token_hash i) = false ∧ refresh_hash_used d (ns_id i) (ns_refresh_token_hash i) = false
  ∧ d' = set_sessions d (<[ns_id i := session_row i]> (dr_sessions d)).
Proof.
  unfold create_session. intros Hc. inv_ok. bool_cases.
  match goal with H : insert_row _ _ _ = Ok _ |- _ => apply insert_row_Ok in H as [? ->] end. done.
Qed.

Lemma rotate_session_Ok d i b d' :
  rotate_session d i = Ok (b, d') →
  (b = false ∧ d' = d)
  ∨ b = true ∧ ∃ s, dr_sessions d !! rs_session_id i = Some s ∧ bs_refresh_token_hash s = rs_expected_refresh_token_hash i
      ∧ bs_revoked_at s = None
      ∧ access_hash_used d (rs_session_id i) (rs_access_token_hash i) = false
      ∧ refresh_hash_used d (rs_session_id i) (rs_refresh_token_hash i) = false
      ∧ d' = set_sessions d (<[rs_session_id i := rotated_row s i]> (dr_sessions d)).
Proof.
  unfold rotate_session. destruct (dr_sessions d !! rs_session_id i) as [s|]; [|by intros [= <- <-]; left].
  destruct (String.eqb_spec (bs_refresh_token_hash s) (rs_expected_refresh_token_hash i)); simpl; [|by intros [= <- <-]; left].
  case_bool_decide; [|by intros [= <- <-]; left]. intros Hr. inv_ok. bool_cases. right. split; [done|]. by exists s.
Qed.

Lemma create_api_key_Ok d i d' :
  create_api_key d i = Ok d' →
  (∀ id k, dr_api_keys d !! id = Some k → ak_key_hash k ≠ nk_key_hash i) ∧ dr_api_keys d !! nk_id i = None
  ∧ is_Some (dr_memberships d !! (nk_organization_id i, nk_creator_user_id i))
  ∧ ∃ k, d' = set_api_keys d (<[nk_id i := k]> (dr_api_keys d)) ∧ ak_key_hash k = nk_key_hash i
      ∧ ak_organization_id k = nk_organization_id i ∧ ak_creator_user_id k = nk_creator_user_id i.
Proof.
  unfold create_api_key, api_key_by_hash. intros Hc. inv_ok. bool_cases.
  match goal with H : insert_row _ _ _ = Ok _ |- _ => apply insert_row_Ok in H as [? ->] end.
  split_and!; [|done|done|by eexists]. intros id k Hk Hh. apply H, select_is_Some. exists id, k. by rewrite Hh, String.eqb_refl.
Qed.

Lemma create_worker_credential_Ok d i d' :
  create_worker_credential d i = Ok d' →
  (∀ id c, dr_credentials d !! id = Some c → wc_token_hash c ≠ nw_token_hash i) ∧ dr_credentials d !! nw_id i = None
  ∧ ∃ c, d' = set_credentials d (<[nw_id i := c]> (dr_credentials d)) ∧ wc_token_hash c = nw_token_hash i.
Proof.
  unfold create_worker_credential, worker_credential_by_hash. intros Hc. inv_ok. bool_cases.
  match goal with H : insert_row _ _ _ = Ok _ |- _ => apply insert_row_Ok in H as [? ->] end.
  split_and!; [|done|by eexists]. intros id c Hk Hh. apply H, select_is_Some. exists id, c. by rewrite Hh, String.eqb_refl.
Qed.

Lemma create_invite_Ok d i d' :
  create_organization_invite d i = Ok d' →
  ni_role i ≠ Owner ∧ (∀ id v, dr_invites d !! id = Some v → iv_code_hash v ≠ ni_code_hash i) ∧ dr_invites d !! ni_id i = None
  ∧ ∃ v, d' = set_invites d (<[ni_id i := v]> (dr_invites d))
      ∧ iv_code_hash v = ni_code_hash i ∧ iv_role v = role_name (ni_role i).
Proof.
  unfold create_organization_invite. rewrite map_unique_Ok. intros Hc. inv_ok. bool_cases.
  match goal with H : insert_row _ _ _ = Ok _ |- _ => apply insert_row_Ok in H as [? ->] end.
  split_and!; [done| |done|by eexists]. intros id v Hk Hh. apply H0, select_is_Some. exists id, v. by rewrite Hh, String.eqb_refl.
Qed.

Lemma create_device_invite_Ok d i d' :
  create_device_invite d i = Ok d' →
  (∀ id v, dr_device_invites d !! id = Some v → di_code_hash v ≠ nd_code_hash i) ∧ dr_device_invites d !! nd_id i = None
  ∧ ∃ v, d' = set_device_invites d (<[nd_id i := v]> (dr_device_invites d)) ∧ di_code_hash v = nd_code_hash i.
Proof.
  unfold create_device_invite, device_invite_by_hash. intros Hc. inv_ok. bool_cases.
  match goal with H : insert_row _ _ _ = Ok _ |- _ => apply insert_row_Ok in H as [? ->] end.
  split_and!; [|done|by eexists]. intros id v Hk Hh. apply H0, select_is_Some. exists id, v. by rewrite Hh, String.eqb_refl.
Qed.

(** A secret is usable by the new row only if the row is its own. *)
Ltac new_row Hm :=
  lazymatch goal with
  | Hu : usable _ ?kind _ _ |- _ =>
      destruct kind; simpl in Hu |- *; try exact Hu;
      (destruct Hu as (id' & r & Hr & Hh & Hu); apply lookup_insert_Some in Hr as [[<- <-]|[_ Hr]];
        [exfalso; apply Hm; simpl in Hh; rewrite !elem_of_cons; naive_solver congruence | by exists id', r])
  end.

(** The new row of a minting operation is the only way it adds a usable secret. *)
Lemma run_op_usable d op kind h now :
  h ∉ minted op → usable (run_account_op d op) kind h now → usable d kind h now.
Proof.
  intros Hm. destruct (minted op) as [|h1 l] eqn:Hl; [by apply wanes_usable, run_op_wanes|].
  destruct op; try discriminate Hl; rewrite <- Hl in Hm; clear Hl h1 l; cbn [minted run_account_op] in *;
    try (apply (committed_case (λ d', usable d' kind h now → usable d kind h now)); [done|]);
    try (apply (committed_case' (λ d', usable d' kind h now → usable d kind h now)); [done|]).
  - intros d' Hc Hu. unfold create_oauth_authorization in Hc. apply bind_Ok in Hc as (m & Hi & [= <-]).
    rewrite map_unique_Ok in Hi. apply insert_row_Ok in Hi as [_ ->]. destruct kind; simpl in Hu |- *; try exact Hu.
    destruct Hu as (a & [[<- <-]|[_ Ha]]%lookup_insert_Some & ?); [exfalso; set_solver|eauto].
  - intros d' (_ & _ & _ & _ & ->)%create_session_Ok Hu. new_row Hm.
  - intros a d' [[_ ->]|(_ & s & Hs & _ & _ & _ & _ & ->)]%rotate_session_Ok Hu; [done|]. new_row Hm.
  - intros d' (_ & _ & _ & v & -> & Hv & _)%create_invite_Ok Hu. new_row Hm.
  - intros d' (_ & _ & _ & k & -> & Hk & _)%create_api_key_Ok Hu. new_row Hm.
  - intros d' (_ & _ & c & -> & Hc)%create_worker_credential_Ok Hu. new_row Hm.
  - intros d' (_ & _ & v & -> & Hv)%create_device_invite_Ok Hu. new_row Hm.
Qed.

Lemma run_ops_usable d ops kind h now :
  (∀ op, op ∈ ops → h ∉ minted op) → usable (run_account_ops d ops) kind h now → usable d kind h now.
Proof.
  revert d. induction ops as [|op ops IH]; intros d Hm Hu; [done|].
  apply (run_op_usable d op); [apply Hm, list_elem_of_here|]. apply IH; [|done]. intros op' ?. apply Hm. by right.
Qed.

(** ** The invariant *)

Lemma run_op_unique d op : secrets_unique d → secrets_unique (run_account_op d op).
Proof.
  intros Hu. destruct (minted op) as [|h1 l] eqn:Hl; [by eapply wanes_unique, Hu; apply run_op_wanes|].
  destruct op; try discriminate Hl; clear Hl h1 l; cbn [run_account_op];
    try (apply (committed_case secrets_unique); [done|]); try (apply (committed_case' secrets_unique); [done|]).
  - intros d' Hc. unfold create_oauth_authorization in Hc. inv_ok. by destruct Hu.
  - intros d' (_ & _ & Ha & Hr & ->)%create_session_Ok. destruct Hu. split; cbn; try done; apply unique_by_insert; try done; simpl.
    + intros ????. by eapply access_hash_free.
    + intros ????. by eapply refresh_hash_free.
  - intros a d' [[_ ->]|(_ & s & Hs & _ & _ & Ha & Hr & ->)]%rotate_session_Ok; [done|].
    destruct Hu. split; cbn; try done; apply unique_by_insert; try done; simpl.
    + intros ????. by eapply access_hash_free.
    + intros ????. by eapply refresh_hash_free.
  - intros d' (_ & Hf & _ & v & -> & Hv & _)%create_invite_Ok. destruct Hu. split; cbn; try done. apply unique_by_insert; [|done].
    intros ?? Hk _. rewrite Hv. by eapply Hf.
  - intros d' (Hf & _ & _ & k & -> & Hk & _)%create_api_key_Ok. destruct Hu. split; cbn; try done. apply unique_by_insert; [|done].
    intros ?? Hj _. rewrite Hk. by eapply Hf.
  - intros d' (Hf & _ & c & -> & Hc)%create_worker_credential_Ok. destruct Hu. split; cbn; try done. apply unique_by_insert; [|done].
    intros ?? Hj _. rewrite Hc. by eapply Hf.
  - intros d' (Hf & _ & v & -> & Hv)%create_device_invite_Ok. destruct Hu. split; cbn; try done. apply unique_by_insert; [|done].
    intros ?? Hj _. rewrite Hv. by eapply Hf.
Qed.

Lemma run_ops_unique d ops : secrets_unique d → secrets_unique (run_account_ops d ops).
Proof. revert d. induction ops as [|op ops IH]; intros d Hu; [done|]. by apply IH, run_op_unique. Qed.

(** ** What revokes a secret *)

Inductive revokes (d : Directory) : AccountOp → SecretKind → string → Prop :=
| rv_logout_access now id s :
    dr_sessions d !! id = Some s → revokes d (AoRevokeSession now id) AccessToken (bs_access_token_hash s)
| rv_logout_refresh now id s :
    dr_sessions d !! id = Some s → revokes d (AoRevokeSession now id) RefreshToken (bs_refresh_token_hash s)
| rv_all_access now id s except :
    dr_sessions d !! id = Some s → except ≠ Some id →
    revokes d (AoRevokeUserSessions now (bs_user_id s) except) AccessToken (bs_access_token_hash s)
| rv_all_refresh now id s except :
    dr_sessions d !! id = Some s → except ≠ Some id →
    revokes d (AoRevokeUserSessions now (bs_user_id s) except) RefreshToken (bs_refresh_token_hash s)
| rv_key now id k :
    dr_api_keys d !! id = Some k → revokes d (AoRevokeApiKey now (ak_organization_id k) id) KeySecret (ak_key_hash k)
| rv_worker now id c :
    dr_credentials d !! id = Some c → revokes d (AoRevokeCredential now (wc_organization_id c) id) WorkerToken (wc_token_hash c)
| rv_removed_access now o u id s ids d' :
    remove_member d now o u = Ok (Some ids, d') → dr_sessions d !! id = Some s → bs_organization_id s = o → bs_user_id s = u →
    revokes d (AoRemoveMember now o u) AccessToken (bs_access_token_hash s)
| rv_removed_key now o u id k ids d' :
    remove_member d now o u = Ok (Some ids, d') → dr_api_keys d !! id = Some k → ak_organization_id k = o →
    ak_creator_user_id k = u → revokes d (AoRemoveMember now o u) KeySecret (ak_key_hash k)
| rv_removed_worker now o u id c ids d' :
    remove_member d now o u = Ok (Some ids, d') → dr_credentials d !! id = Some c → wc_organization_id c = o →
    wc_owner_user_id c = Some u → revokes d (AoRemoveMember now o u) WorkerToken (wc_token_hash c).

(** A row with the hash of another is that row. *)
Lemma by_unique {A} (f : A → string) (m : gmap string A) id id' a a' :
  unique_by f m → m !! id = Some a → m !! id' = Some a' → f a' = f a → id' = id ∧ a' = a.
Proof. intros Hu Ha Ha' Hf. assert (id' = id) as -> by (by eapply Hu). split; congruence. Qed.

(** A changed table has no usable row of a hash whose row is changed into an
    unusable one. *)
Lemma dead_in {A} (f : A → string) (R : A → A → Prop) (m m' : gmap string A) id a (dead : A → Prop) :
  unique_by f m → derives R m m' → (∀ a a', R a a' → f a' = f a) → m !! id = Some a →
  (∀ a', m' !! id = Some a' → dead a') → ∀ id' a', m' !! id' = Some a' → f a' = f a → dead a'.
Proof.
  intros Hu Hd Hf Ha Hdead id' a' Ha' Heq. destruct (Hd _ _ Ha') as (b & Hb & HR). rewrite (Hf _ _ HR) in Heq.
  destruct (by_unique f m id id' a b Hu Ha Hb Heq) as [-> _]. by apply Hdead.
Qed.

Lemma remove_member_Some d now o u ids d' :
  remove_member d now o u = Ok (Some ids, d') →
  d' = cascade_memberships (λ o' u', String.eqb o' o && String.eqb u' u)
         (set_credentials d (update_where (λ _ c, owned_in o u c) (revoke_credential now) (dr_credentials d)))
  ∧ ids = credential_ids (owned_in o u) d.
Proof.
  unfold remove_member. destruct (find_member _ u) as [[]|]; [|done]. intros Hr. by inv_ok.
Qed.

Lemma revokes_dead d op kind h now :
  secrets_unique d → revokes d op kind h → ¬ usable (run_account_op d op) kind h now.
Proof.
  intros Hu Hr Huse.
  assert (Hw : wanes d (run_account_op d op)) by (apply run_op_wanes; by destruct Hr).
  destruct Hu, Hw, Hr; simpl in Huse; destruct Huse as (id' & r & Hr & Hh & Hn & _); cbn [run_account_op] in *.
  - revert Hn. eapply (dead_in bs_access_token_hash session_less _ _ id s (λ s, bs_revoked_at s ≠ None));
      [done..| |done| |exact Hr|done]; [by intros ?? (? & _)|]. cbn. rewrite lookup_alter_eq, H. by intros ? [= <-].
  - revert Hn. eapply (dead_in bs_refresh_token_hash session_less _ _ id s (λ s, bs_revoked_at s ≠ None));
      [done..| |done| |exact Hr|done]; [by intros ?? (_ & ? & _)|]. cbn. rewrite lookup_alter_eq, H. by intros ? [= <-].
  - revert Hn. eapply (dead_in bs_access_token_hash session_less _ _ id s (λ s, bs_revoked_at s ≠ None));
      [done..| |done| |exact Hr|done]; [by intros ?? (? & _)|]. cbn. rewrite update_where_lookup, H. simpl.
    rewrite String.eqb_refl, bool_decide_false by done. by intros ? [= <-].
  - revert Hn. eapply (dead_in bs_refresh_token_hash session_less _ _ id s (λ s, bs_revoked_at s ≠ None));
      [done..| |done| |exact Hr|done]; [by intros ?? (_ & ? & _)|]. cbn. rewrite update_where_lookup, H. simpl.
    rewrite String.eqb_refl, bool_decide_false by done. by intros ? [= <-].
  - revert Hn. eapply (dead_in ak_key_hash key_less _ _ id k (λ k, ak_revoked_at k ≠ None));
      [done..| |done| |exact Hr|done]; [by intros ?? (? & _)|]. cbn. unfold revoke_api_key, api_key_for_org. rewrite H. simpl.
    rewrite String.eqb_refl. case_bool_decide; cbn; [rewrite lookup_insert_eq|rewrite H]; by intros ? [= <-].
  - revert Hn. eapply (dead_in wc_token_hash credential_less _ _ id c (λ c, wc_revoked_at c ≠ None));
      [done..| |done| |exact Hr|done]; [by intros ?? (? & _)|]. cbn. unfold revoke_worker_credential, worker_credential_for_org.
    rewrite H. simpl. rewrite String.eqb_refl. case_bool_decide; cbn; [rewrite lookup_insert_eq|rewrite H]; by intros ? [= <-].
  - rewrite H in Hr, wn_sessions0. cbn [committed] in Hr, wn_sessions0. apply remove_member_Some in H as [-> _].
    eapply (dead_in bs_access_token_hash session_less _ _ id s (λ _, False)); [done|exact wn_sessions0|by intros ?? (? & _)|done| |exact Hr|done].
    cbn. intros s' [Hs' Hg]%delete_where_Some. rewrite H0 in Hs'. injection Hs' as <-. subst o u. by rewrite !String.eqb_refl in Hg.
  - rewrite H in Hr, wn_api_keys0. cbn [committed] in Hr, wn_api_keys0. apply remove_member_Some in H as [-> _].
    eapply (dead_in ak_key_hash key_less _ _ id k (λ _, False)); [done|exact wn_api_keys0|by intros ?? (? & _)|done| |exact Hr|done].
    cbn. intros s' [Hs' Hg]%delete_where_Some. rewrite H0 in Hs'. injection Hs' as <-. subst o u. by rewrite !String.eqb_refl in Hg.
  - rewrite H in Hr, wn_credentials0. cbn [committed] in Hr, wn_credentials0. apply remove_member_Some in H as [-> _].
    revert Hn. eapply (dead_in wc_token_hash credential_less _ _ id c (λ c, wc_revoked_at c ≠ None)); [done|exact wn_credentials0|by intros ?? (? & _)|done| |exact Hr|done].
    cbn. rewrite update_where_lookup, H0. simpl. unfold owned_in, sql_eq. rewrite H1, H2, String.eqb_refl, bool_decide_true by done.
    by intros ? [= <-].
Qed.

(** C39: Revocation is final: a session that was logged out or swept with its
    user's other sessions, a revoked API key or worker credential, and the
    sessions, keys and worker credentials of a member who was removed, are never
    accepted again, at any time and over any later operations that do not issue
    the very same secret anew. *)
Theorem revocation_final d op kind h ops now :
  secrets_unique d → revokes d op kind h → (∀ op', op' ∈ ops → h ∉ minted op') →
  ¬ usable (run_account_ops d (op :: ops)) kind h now.
Proof. intros Hu Hr Hm Huse. apply (revokes_dead d op kind h now Hu Hr). by eapply run_ops_usable. Qed.

(** ** What is used once *)

Lemma consume_Some d now state a d' :
  consume_oauth_authorization d now state = (Some a, d') →
  dr_authorizations d !! state = Some a ∧ oa_consumed_at a = None ∧ (now < oa_expires_at a)%Z
  ∧ d' = set_authorizations d (<[state := consume_row now a]> (dr_authorizations d)).
Proof.
  unfold consume_oauth_authorization. destruct (dr_authorizations d !! state) as [b|]; [|done].
  destruct (bool_decide _ && _) eqn:Hc; intros [= -> <-]. bool_cases. split_and!; [done..|by apply Z.ltb_lt|done].
Qed.

Lemma rotated_dead d i d1 now :
  secrets_unique d → rotate_session d i = Ok (true, d1) → rs_refresh_token_hash i ≠ rs_expected_refresh_token_hash i →
  ¬ usable d1 RefreshToken (rs_expected_refresh_token_hash i) now.
Proof.
  intros Hu [[? _]|(_ & s & Hs & Hh & _ & _ & _ & ->)]%rotate_session_Ok Hne; [done|].
  intros (id & r & Hr & Hrh & _). cbn in Hr. apply lookup_insert_Some in Hr as [[<- <-]|[Hid Hr]]; [done|].
  apply Hid. eapply (su_refresh d Hu _ _ s r); [done..|congruence].
Qed.

(** Rotating needs a live session. *)
Lemma rotate_refused d i :
  (∀ now, ¬ usable d RefreshToken (rs_expected_refresh_token_hash i) now) → rotate_session d i = Ok (false, d).
Proof.
  intros Hno. unfold rotate_session. destruct (dr_sessions d !! rs_session_id i) as [s|] eqn:Hs; [|done].
  destruct (String.eqb_spec (bs_refresh_token_hash s) (rs_expected_refresh_token_hash i)) as [Hh|]; [|done].
  case_bool_decide as Hn; [|done]. exfalso. apply (Hno (bs_refresh_expires_at s - 1)%Z).
  exists (rs_session_id i), s. split_and!; [done..|lia].
Qed.

Lemma accepted_dead d now h u m d1 now' :
  secrets_unique d → accept_organization_invite d now h u = Ok (m, d1) → ¬ usable d1 OrganizationCode h now'.
Proof.
  intros Hu (i & v & Hi & Hh & _ & _ & _ & ->)%accept_invite_Ok (i' & v' & Hv' & Hh' & Hc). cbn in Hv'.
  apply lookup_insert_Some in Hv' as [[<- <-]|[Hne Hv']]; [done|].
  apply Hne. eapply (su_invites d Hu _ _ v v'); [done..|congruence].
Qed.

(** A refresh token, a sign-in state and an invitation code work once: after
    a session was rotated, a callback consumed its state or somebody accepted the
    invitation, the same secret is refused over any later operations that do not
    issue it anew. *)
Theorem secret_used_once d ops :
  secrets_unique d →
  (∀ i d1, rotate_session d i = Ok (true, d1) → (∀ op, op ∈ AoRotateSession i :: ops → rs_expected_refresh_token_hash i ∉ minted op) →
     ∀ i', rs_expected_refresh_token_hash i' = rs_expected_refresh_token_hash i →
       rotate_session (run_account_ops d1 ops) i' = Ok (false, run_account_ops d1 ops))
  ∧ (∀ now state a d1, consume_oauth_authorization d now state = (Some a, d1) → (∀ op, op ∈ ops → state ∉ minted op) →
       ∀ now', (consume_oauth_authorization (run_account_ops d1 ops) now' state).1 = None)
  ∧ (∀ now h u m d1, accept_organization_invite d now h u = Ok (m, d1) → (∀ op, op ∈ ops → h ∉ minted op) →
       ∀ now' u', ∃ e, accept_organization_invite (run_account_ops d1 ops) now' h u' = Err e).
Proof.
  intros Hu. split_and!.
  - intros i d1 Hr Hm i' Hi'. apply rotate_refused. rewrite Hi'. intros now Hus.
    apply run_ops_usable in Hus; [|intros op ?; by apply Hm; right].
    apply (rotated_dead d i d1 now Hu Hr); [|done]. intros Heq. apply (Hm (AoRotateSession i)); [apply list_elem_of_here|].
    simpl. rewrite Heq. set_solver.
  - intros now state a d1 (Ha & Hn & Hl & ->)%consume_Some Hm now'.
    destruct (consume_oauth_authorization (run_account_ops _ ops) now' state) as [[b|] d2] eqn:Hc; [|done]. exfalso.
    apply consume_Some in Hc as (Hb & Hnb & Hlb & _).
    eassert (Hus : usable (run_account_ops _ ops) OauthState state now') by by exists b.
    apply run_ops_usable in Hus as (c & Hc & Hnc & _); [|done]. cbn in Hc. rewrite lookup_insert_eq in Hc. by simplify_eq.
  - intros now h u m d1 Ha Hm now' u'.
    destruct (accept_organization_invite (run_account_ops _ ops) now' h u') as [[m2 d2]|e] eqn:Hc; [|eauto]. exfalso.
    apply accept_invite_Ok in Hc as (i2 & v2 & Hi2 & Hh2 & Hcl2 & _).
    assert (Hus : usable (run_account_ops d1 ops) OrganizationCode h now') by by exists i2, v2.
    apply run_ops_usable in Hus; [|done]. by eapply accepted_dead.
Qed.

(** ** Two installations *)

Lemma no_rows_unique : secrets_unique no_rows.
Proof. split; intros i j a b Hi; cbn in Hi; by rewrite lookup_empty in Hi. Qed.

(** Ann signed in twice, made a key and a state, and invited somebody. *)
Definition signed_in : Directory :=
  run_account_ops household_start
    [AoCreateSession (mkNewSession "s1" "ann" "org" "a1" "r1" "c1" "s1" 20 1000 9000 None None);
     AoCreateSession (mkNewSession "s2" "ann" "org" "a2" "r2" "c2" "s2" 21 1000 9000 None None);
     AoCreateApiKey (mkNewApiKey "k" "org" "ann" "laptop" "nlk_" "key" "[]" 22 None);
     AoCreateAuthorization 23 "state" "github" "verifier" "/" 600;
     AoCreateInvite (mkNewOrganizationInvite "inv" "org" "ann" "nlo_" "code" Admin 24 1000)].

Lemma signed_in_unique : secrets_unique signed_in.
Proof. do 2 apply run_ops_unique. apply no_rows_unique. Qed.

Definition afterwards : list AccountOp :=
  [AoCreateSession (mkNewSession "s3" "ann" "org" "a3" "r3" "c3" "s3" 40 1000 9000 None None); AoSetMemberRole 41 "org" "bob" Owner].

Lemma afterwards_mints h : h ≠ "a3" → h ≠ "r3" → ∀ op, op ∈ afterwards → h ∉ minted op.
Proof.
  intros Ha Hr op. unfold afterwards. rewrite !elem_of_cons, elem_of_nil.
  intros [->|[->|[]]]; simpl; rewrite ?not_elem_of_cons, ?elem_of_nil; tauto.
Qed.

(** Signing out everywhere but on the second session. *)
Lemma revocation_final_witness :
  ¬ usable (run_account_ops signed_in (AoRevokeUserSessions 30 "ann" (Some "s2") :: afterwards)) AccessToken "a1" 50.
Proof.
  apply revocation_final; [exact signed_in_unique| |apply afterwards_mints; discriminate].
  refine (rv_all_access _ 30 "s1" (mkSessionRow "ann" "org" "a1" "r1" "c1" "s1" 20 20 1000 9000 None None None) (Some "s2") _ _);
    [vm_compute; reflexivity|discriminate].
Defined.

Definition rotate_first : RotateSession := mkRotateSession "s1" "r1" "a4" "r4" 35 1100 9100.

Lemma secret_used_once_witness :
  ∃ d1, rotate_session signed_in rotate_first = Ok (true, d1)
  ∧ rotate_session (run_account_ops d1 afterwards) rotate_first = Ok (false, run_account_ops d1 afterwards).
Proof.
  destruct (secret_used_once signed_in afterwards signed_in_unique) as (Hr & _ & _).
  assert (Hok : match rotate_session signed_in rotate_first with Ok (b, _) => b | Err _ => false end = true)
    by (vm_compute; reflexivity).
  destruct (rotate_session signed_in rotate_first) as [[b d1]|] eqn:Hs; [simpl in Hok; subst b|discriminate Hok].
  exists d1. split; [reflexivity|]. apply (Hr rotate_first d1 Hs); [|reflexivity].
  intros op [->|Hop]%elem_of_cons; [|by apply afterwards_mints].
  simpl. rewrite !not_elem_of_cons, elem_of_nil. split; [discriminate|split; [discriminate|tauto]].
Defined.
