(* ===== verification/Web.v ===== *)
(** The ground the HTTP handlers stand on ([product_api/shared.rs],
    [nagisalake-hub-auth/src/secret.rs] and [password.rs], the browser part of
    [hub/config.rs]): bearer secrets, passwords, configuration, requests and
    replies, and the monad the handlers are written in.

    A handler is a function of the Hub's state whose early returns are exits and
    whose [unwrap] and [expect] on an absent store are panics.  What a request
    draws from outside (clock readings, random identifiers, the thread pool) is
    an environment, read by call number.  SHA-256, Argon2, header values, JSON
    text and base64 belong to libraries: they are fields of the class
    [Libraries].

    Main results: a secret verifies against a stored hash exactly when its own
    hash is that one; a scope that is granted is one the granter's role has. *)

From S2P Require Import Prelude Text Json HubTypes Principal Helpers Sessions HubState Store Batches RateLimit Accounts.
From Stdlib Require Import ZArith Lia Ascii.

(** ** Libraries *)

Class Libraries := {
  (** [Sha256::digest]. *)
  sha256_digest : string → list N;
  (** [Argon2::hash_password] under a salt, as text. *)
  argon2_hash : string → string → Res string string;
  (** [PasswordHash::new] accepts the text; [Argon2::verify_password]. *)
  phc_parses : string → bool;
  argon2_verify : string → string → bool;
  (** [HeaderValue::from_str] accepts the text. *)
  header_value : string → bool;
  (** [serde_json::to_string] of a value and of a list of scopes, and its inverse. *)
  json_to_string : Json → Res string string;
  scopes_to_string : list string → Res string string;
  scopes_from_str : string → Res string (list string);
  (** [BASE64URL_NOPAD]. *)
  base64url_encode : string → string;
  base64url_decode : string → option string;
  (** [String::from_utf8] accepts the bytes. *)
  valid_utf8 : string → bool;
  (** The limiter's keyed hash. *)
  bucket_hash : string → string → Z;
}.

(** What the handlers rely on. *)
Class LibraryLaws `{!Libraries} : Prop := {
  (** A password verifies against its own hash, which is well formed. *)
  argon2_round_trip pw salt h : argon2_hash pw salt = Ok h → phc_parses h = true ∧ argon2_verify pw h = true;
  (** Text without controls is a header value. *)
  header_graphic s : str_all (λ a, in_range 32 126 (byte_of a)) s = true → header_value s = true;
  (** Scopes are read back. *)
  scopes_round_trip l t : scopes_to_string l = Ok t → scopes_from_str t = Ok l;
  scopes_serialize l : ∃ t, scopes_to_string l = Ok t;
  (** Base64 text is read back, and is UTF-8 when the text was. *)
  base64url_round_trip s : base64url_decode (base64url_encode s) = Some s;
  utf8_app a b : valid_utf8 a = true → valid_utf8 b = true → valid_utf8 (a +:+ b) = true;
  utf8_ascii s : str_all (λ a, in_range 0 127 (byte_of a)) s = true → valid_utf8 s = true;
}.

(** ** Secrets ([secret.rs]) *)

Definition hex_digit (upper : bool) (n : N) : ascii :=
  ascii_of_N (if (n <? 10)%N then 48 + n else (if upper then 55 else 87) + n).
(** [{byte:02x}] and [{byte:02X}]. *)
Definition hex2 (upper : bool) (b : N) (rest : string) : string :=
  String (hex_digit upper (b / 16)) (String (hex_digit upper (b mod 16)) rest).

Record GeneratedSecret := mkGeneratedSecret {
  gs_plaintext : string;
  gs_display_prefix : string;
  gs_hash : string;
}.

Section secrets.
Context `{!Libraries}.

Definition hash_secret (secret : string) : string := foldr (hex2 false) "" (sha256_digest secret).

(** From the two random identifiers it draws. *)
Definition generate_secret (prefix u1 u2 : string) : GeneratedSecret :=
  let plaintext := prefix +:+ "_" +:+ u1 +:+ u2 in
  mkGeneratedSecret plaintext (chars_take (str_len prefix + 9) plaintext) (hash_secret plaintext).

Definition verify_secret (secret expected_hash : string) : bool :=
  constant_time_eq (bytes (hash_secret secret)) (bytes expected_hash).

(** ** Passwords ([password.rs]) *)

Inductive AuthError :=
| InvalidRole (m : string)
| WeakPassword (m : string)
| PasswordHash (m : string).

Definition auth_error_text (e : AuthError) : string :=
  match e with
  | InvalidRole m => "invalid organization role: " +:+ m
  | WeakPassword m => "weak password: " +:+ m
  | PasswordHash m => "password hashing failed: " +:+ m
  end.

Definition MIN_PASSWORD_BYTES : nat := 12.
Definition MAX_PASSWORD_BYTES : nat := 1024.

Definition validate_password (password : string) : Res AuthError unit :=
  reject_if (str_len password <? MIN_PASSWORD_BYTES)%nat (WeakPassword "password must be at least 12 bytes") ;;
  reject_if (MAX_PASSWORD_BYTES <? str_len password)%nat (WeakPassword "password must be at most 1024 bytes").

Definition hash_password (password salt : string) : Res AuthError string :=
  validate_password password ;;
  match argon2_hash password salt with Ok h => Ok h | Err m => Err (PasswordHash m) end.

Definition verify_password (password encoded : string) : bool := phc_parses encoded && argon2_verify password encoded.

(** The work runs, or the pool or the thread fails with a text. *)
Definition with_password_slot {A} (failure : option string) (work : A) : Res AuthError A :=
  match failure with Some m => Err (PasswordHash m) | None => Ok work end.

Definition verify_password_async (failure : option string) (password : string) (stored : option string) : bool :=
  match with_password_slot failure
          match stored with Some encoded => verify_password password encoded | None => false end with
  | Ok b => b
  | Err _ => false
  end.

Definition hash_password_async (failure : option string) (password salt : string) : Res AuthError string :=
  r ← with_password_slot failure (hash_password password salt); r.
End secrets.

(** ** Configuration *)

Record BrowserConfig := mkBrowserConfig {
  bc_registration_enabled : bool;
  bc_password_auth_enabled : bool;
  bc_cookie_secure : bool;
  bc_access_ttl_seconds : Z;
  bc_refresh_ttl_seconds : Z;
  bc_allowed_origins : list string;
}.

(** ** The Hub as the handlers see it *)

Record Site := mkSite {
  si_store : option Directory;
  si_limiter : RateLimiter;
  si_sessions : SessionRegistry;
  si_data : HubData;
  si_read_cache : ReadCache;
  (** The keys of the stored objects. *)
  si_objects : gset string;
}.

Definition with_store (s : Site) v :=
  mkSite v (si_limiter s) (si_sessions s) (si_data s) (si_read_cache s) (si_objects s).
Definition with_limiter (s : Site) v :=
  mkSite (si_store s) v (si_sessions s) (si_data s) (si_read_cache s) (si_objects s).
Definition with_sessions (s : Site) v :=
  mkSite (si_store s) (si_limiter s) v (si_data s) (si_read_cache s) (si_objects s).
Definition with_data (s : Site) v :=
  mkSite (si_store s) (si_limiter s) (si_sessions s) v (si_read_cache s) (si_objects s).
Definition with_cache (s : Site) v :=
  mkSite (si_store s) (si_limiter s) (si_sessions s) (si_data s) v (si_objects s).
Definition with_objects (s : Site) v :=
  mkSite (si_store s) (si_limiter s) (si_sessions s) (si_data s) (si_read_cache s) v.

(** The first value of each header that is text. *)
#[local] Abbreviation Headers := (gmap string string).

(** What one request draws from outside, by the number of the call. *)
Record Env := mkEnv {
  ev_now : nat → Z;
  ev_instant : nat → Z;
  ev_uuid : nat → string;
  (** The password pool's failure, an object's deletion's. *)
  ev_pool : option string;
  ev_delete : string → option string;
  ev_order : gmap string WorkerSession → list (string * WorkerSession);
}.

(** ** Handlers *)

Inductive Flow (X A : Type) :=
| Next (a : A)
| Exit (x : X)
| Panic.
Arguments Next {X A} a.
Arguments Exit {X A} x.
Arguments Panic {X A}.

Definition Handler (X A : Type) : Type := Site → Flow X A * Site.

#[export] Instance handler_ret X : MRet (Handler X) := λ _ a s, (Next a, s).
#[export] Instance handler_bind X : MBind (Handler X) :=
  λ _ _ f m s, match m s with
               | (Next a, s') => f a s'
               | (Exit x, s') => (Exit x, s')
               | (Panic, s') => (Panic, s')
               end.

Definition exit {X A} (x : X) : Handler X A := λ s, (Exit x, s).
Definition panic {X A} : Handler X A := λ s, (Panic, s).
(** [if c { return x; }]. *)
Definition exit_if {X} (c : bool) (x : X) : Handler X unit := if c then exit x else mret tt.
(** [match r { Ok(a) => a, Err(e) => return f(e) }]. *)
Definition lift {X E A} (f : E → X) (r : Res E A) : Handler X A := match r with Ok a => mret a | Err e => exit (f e) end.
(** A call whose failures the caller turns into its own. *)
Definition calling {X Y A} (f : Y → X) (m : Handler Y A) : Handler X A :=
  λ s, match m s with
       | (Next a, s') => (Next a, s')
       | (Exit y, s') => (Exit (f y), s')
       | (Panic, s') => (Panic, s')
       end.
Definition get {X} : Handler X Site := λ s, (Next s, s).
Definition modify {X} (f : Site → Site) : Handler X unit := λ s, (Next tt, f s).

Section handlers.
Context {X : Type}.

Lemma bind_Next {A B} (m : Handler X A) (f : A → Handler X B) s b s' :
  (m ≫= f) s = (Next b, s') ↔ ∃ a s1, m s = (Next a, s1) ∧ f a s1 = (Next b, s').
Proof. unfold mbind, handler_bind. destruct (m s) as [[a|x|] s1]; naive_solver. Qed.

Lemma bind_ret {A B} (a : A) (f : A → Handler X B) s : ((mret a : Handler X A) ≫= f) s = f a s.
Proof. done. Qed.

Lemma exit_if_Next c (x : X) s u s' : exit_if c x s = (Next u, s') ↔ c = false ∧ s' = s.
Proof. destruct u. unfold exit_if, exit, mret, handler_ret. destruct c; naive_solver. Qed.

Lemma ret_Next {A} (a b : A) s s' : (mret a : Handler X A) s = (Next b, s') ↔ b = a ∧ s' = s.
Proof. unfold mret, handler_ret. naive_solver. Qed.

Lemma lift_Next {E A} (f : E → X) (r : Res E A) s a s' : lift f r s = (Next a, s') ↔ r = Ok a ∧ s' = s.
Proof. unfold lift, mret, handler_ret, exit. destruct r; naive_solver. Qed.

Lemma calling_Next {Y A} (f : Y → X) (m : Handler Y A) s a s' : calling f m s = (Next a, s') ↔ m s = (Next a, s').
Proof. unfold calling. destruct (m s) as [[]]; naive_solver. Qed.

Lemma get_Next s a s' : (get : Handler X Site) s = (Next a, s') ↔ a = s ∧ s' = s.
Proof. unfold get. naive_solver. Qed.

Lemma modify_Next (f : Site → Site) s u s' : (modify f : Handler X unit) s = (Next u, s') ↔ s' = f s.
Proof. unfold modify. destruct u. naive_solver. Qed.
End handlers.

(** ** Replies *)

(** What is shown of a user. *)
Record PublicUser := mkPublicUser {
  pu_id : string;
  pu_email : string;
  pu_status : string;
  pu_email_verified : bool;
  pu_created_at : Z;
}.

Record AuthBody := mkAuthBody {
  ab_access_token : string;
  ab_access_expires_at : Z;
  ab_refresh_expires_at : Z;
  ab_csrf_token : string;
  ab_user : PublicUser;
  ab_current_organization_id : string;
}.

(** What is shown of rows: never a hash. *)
Record OrganizationMember := mkOrganizationMember {
  om_organization_id : string;
  om_user_id : string;
  om_email : string;
  om_role : Role;
  om_created_at : Z;
}.
Record OrganizationInvite := mkOrganizationInvite {
  ov_id : string;
  ov_organization_id : string;
  ov_inviter_user_id : string;
  ov_code_prefix : string;
  ov_role : Role;
  ov_created_at : Z;
  ov_expires_at : Z;
  ov_accepted_at : option Z;
  ov_accepted_by_user_id : option string;
  ov_revoked_at : option Z;
}.
Record ApiKeyView := mkApiKeyView {
  kv_id : string;
  kv_organization_id : string;
  kv_creator_user_id : string;
  kv_name : string;
  kv_prefix : string;
  kv_scopes : list string;
  kv_created_at : Z;
  kv_last_used_at : option Z;
  kv_expires_at : option Z;
  kv_revoked_at : option Z;
}.
Record WorkerCredentialView := mkWorkerCredentialView {
  cv_id : string;
  cv_organization_id : string;
  cv_owner_user_id : option string;
  cv_name : string;
  cv_token_prefix : string;
  cv_allowed_namespace : option string;
  cv_created_at : Z;
  cv_last_used_at : option Z;
  cv_expires_at : option Z;
  cv_revoked_at : option Z;
}.
Record QuotaSnapshot := mkQuotaSnapshot {
  qs_organization_id : string;
  qs_max_concurrent_jobs : Z;
  qs_max_storage_bytes : Z;
  qs_max_jobs_per_period : Z;
  qs_period_seconds : Z;
  qs_active_jobs : Z;
  qs_storage_bytes : Z;
  qs_period_jobs : Z;
  qs_period_started_at : Z;
}.
Record BatchView := mkBatchView {
  bv_id : string;
  bv_workflow_id : string;
  bv_workflow_version : string;
  bv_total : Z;
  bv_status : string;
  bv_counts : BatchJobCounts;
  bv_created_at : Z;
}.
Record BatchJobSummary := mkBatchJobSummary {
  bs_id : string;
  bs_batch_index : option Z;
  bs_state : string;
  bs_progress : option spec_float;
  bs_workflow_id : string;
  bs_workflow_version : string;
  bs_job_created_at : Z;
}.
Record PublicDeviceWorkflow := mkPublicDeviceWorkflow {
  pw_id : string;
  pw_version : string;
  pw_output_types : list string;
}.
Record PublicDevice := mkPublicDevice {
  pd_device_organization_id : string;
  pd_device_id : string;
  pd_owner_user_id : option string;
  pd_namespace : string;
  pd_node_name : string;
  pd_worker_version : string;
  pd_access_kind : string;
  pd_connected : bool;
  pd_workflows : list PublicDeviceWorkflow;
  pd_allowed_workflows : list DeviceWorkflowRule;
  pd_max_concurrent_jobs : option Z;
  pd_grant_expires_at : option Z;
}.
Record CreatedDeviceInvite := mkCreatedDeviceInvite {
  cd_invite_id : string;
  cd_code : string;
  cd_code_prefix : string;
  cd_expires_at : option Z;
  cd_max_uses : Z;
  cd_allowed_workflows : list DeviceWorkflowRule;
  cd_max_concurrent_jobs : option Z;
  cd_grant_duration_seconds : option Z;
}.
Record DeviceGrant := mkDeviceGrant {
  dg_id : string;
  dg_device_organization_id : string;
  dg_device_id : string;
  dg_owner_user_id : string;
  dg_grantee_user_id : string;
  dg_invite_id : string;
  dg_created_at : Z;
  dg_revoked_at : option Z;
  dg_allowed_workflows : list DeviceWorkflowRule;
  dg_max_concurrent_jobs : option Z;
  dg_expires_at : option Z;
}.

(** The values the handlers serialize. *)
Inductive Body :=
| Empty
| ErrorBody (code message request_id : string)
| AuthReply (b : AuthBody)
| MeReply (user : PublicUser) (current_organization_id : string) (memberships : list Membership) (auth_kind : string)
| ProvidersReply (names : list string)
| MembershipsReply (l : list Membership)
| MembershipReply (m : Membership)
| MembersReply (l : list OrganizationMember)
| InvitesReply (l : list OrganizationInvite)
| InviteReply (invite : OrganizationInvite) (plaintext : string)
| KeyReply (key : ApiKeyView) (plaintext : string)
| CredentialReply (credential : WorkerCredentialView) (plaintext : string)
| KeyPage (items : list ApiKeyView) (next_cursor : option string)
| CredentialPage (items : list WorkerCredentialView) (next_cursor : option string)
| AuditPage (items : list AuditRow) (next_cursor : option string)
| QuotaReply (q : QuotaSnapshot)
| BatchReply (b : BatchView)
| BatchPage (items : list BatchView) (next_cursor : option string)
| BatchJobPage (items : list BatchJobSummary) (next_cursor : option string)
| DevicePage (items : list PublicDevice) (next_cursor : option string)
| DeviceInviteReply (invite : CreatedDeviceInvite)
| DeviceGrantReply (grant : DeviceGrant).

Record Response := mkResponse {
  rp_status : Z;
  rp_headers : list (string * string);
  rp_body : Body;
}.

Definition insert_header `{!Libraries} (name value : string) (r : Response) : Response :=
  if header_value value then mkResponse (rp_status r) (rp_headers r ++ [(name, value)]) (rp_body r) else r.

Definition error_class_of (e : HubError) : Z * string :=
  match e with
  | Unauthorized _ => (401, "unauthorized")
  | Forbidden _ => (403, "forbidden")
  | NotFound _ => (404, "not_found")
  | InvalidRequest _ => (400, "invalid_request")
  | Conflict _ => (409, "conflict")
  | QuotaExceeded _ => (429, "quota_exceeded")
  | RateLimited _ => (429, "rate_limited")
  | Unavailable _ => (503, "unavailable")
  | ObjectStoreError _ | Transport _ => (502, "upstream_error")
  | _ => (500, "internal_error")
  end%Z.

Section shared.
Context `{!Libraries}.

Definition product_error (request_id : string) (e : HubError) : Response :=
  let message := truncate (hub_error_text e) 1000 in
  let '(status, code) := error_class_of e in
  let reply := mkResponse status [] (ErrorBody code message request_id) in
  let reply := match e with RateLimited n => insert_header "retry-after" (pretty n) reply | _ => reply end in
  insert_header "x-request-id" request_id reply.

Definition map_store (e : StoreError) : HubError :=
  match e with
  | StNotFound v => NotFound v
  | StConflict v => Conflict v
  | StQuotaExceeded v => QuotaExceeded v
  | other => HubTypes.Store other
  end.

(** [generated] is the identifier drawn when there is no usable header. *)
Definition request_id (headers : Headers) (generated : string) : string :=
  match headers !! "x-request-id" with
  | Some value => if is_blank value then generated else truncate value 128
  | None => generated
  end.

Definition valid_email (email : string) : bool :=
  let email := trim email in
  (str_len email <=? 320)%nat
  && match split_once "@" email with
     | Some (local, domain) => negb (String.eqb local "") && negb (bool_decide (split_once "." domain = None))
     | None => false
     end.

Definition auth_kind (kind : PrincipalKind) : string :=
  match kind with
  | BrowserSession => "browser_session"
  | ApiKey => "api_key"
  | WorkerCredential => "worker_credential"
  | LegacyToken => "legacy_token"
  end.

Definition scope_permission (s : string) : option Permission :=
  if String.eqb s "workflows:read" then Some WorkflowsRead
  else if String.eqb s "workflows:write" then Some WorkflowsPublish
  else if String.eqb s "jobs:read" then Some JobsReadOrganization
  else if String.eqb s "jobs:write" then Some JobsWrite
  else if String.eqb s "jobs:cancel" then Some JobsCancelOwn
  else if String.eqb s "artifacts:read" then Some ArtifactsRead
  else if String.eqb s "artifacts:write" then Some ArtifactsWrite
  else if String.eqb s "workers:manage" then Some WorkersManage
  else if String.eqb s "members:manage" then Some MembersManage
  else if String.eqb s "api_keys:manage" then Some ApiKeysManageOwn
  else if String.eqb s "quota:read" then Some QuotaRead
  else if String.eqb s "quota:manage" then Some QuotaManage
  else if String.eqb s "audit:read" then Some AuditRead
  else if String.eqb s "devices:read" then Some DevicesRead
  else if String.eqb s "devices:use" then Some DevicesUse
  else if String.eqb s "devices:register" then Some DevicesRegisterOwn
  else if String.eqb s "devices:share" then Some DevicesShareOwn
  else None.

Definition add_scope (principal : Principal) (values : gset string) (s : string) : Res HubError (gset string) :=
  permission ← ok_or (InvalidRequest ("unknown API key scope: " +:+ s)) (scope_permission s);
  reject_if (negb (role_allows (pc_role principal) permission)) (Forbidden ("role cannot grant scope " +:+ s)) ;;
  Ok ({[ s ]} ∪ values).

(** In the order of a [BTreeSet]. *)
Definition validate_scopes (principal : Principal) (requested : list string) : Res HubError (list string) :=
  values ← try_fold (add_scope principal) ∅ requested;
  reject_if (bool_decide (values = ∅)) (InvalidRequest "at least one API key scope is required") ;;
  Ok (merge_sort String.le (elements values)).

(** The store, when there is one. *)
Definition store : Handler HubError Directory :=
  s ← get; lift id (ok_or (Unavailable "PostgreSQL control plane is not configured") (si_store s)).
(** [store(&state).unwrap()]. *)
Definition store_unwrap {X} : Handler X Directory :=
  s ← get; match si_store s with Some d => mret d | None => panic end.
Definition set_store {X} (d : Directory) : Handler X unit := modify (λ s, with_store s (Some d)).

(** A statement that changes the store or fails. *)
Definition execute {X A} (f : StoreError → X) (r : Res StoreError (A * Directory)) : Handler X A :=
  p ← lift f r; set_store p.2 ;; mret p.1.
Definition execute_unit {X} (f : StoreError → X) (r : Res StoreError Directory) : Handler X unit :=
  d ← lift f r; set_store d.

(** The audit record of a request; a Hub without a store keeps none. *)
Definition audit {X} (organization_id actor_id : option string) (actor_kind request_id action resource_type : string)
    (resource_id : option string) (outcome : string) (metadata : Json) (id : string) (now : Z) : Handler X unit :=
  modify (λ s, match si_store s with
               | None => s
               | Some d =>
                   let text := match json_to_string metadata with Ok t => t | Err _ => "{}" end in
                   with_store s (Some (Accounts.audit d
                     (mkAuditRow id organization_id actor_id (Some actor_kind) (Some request_id) action resource_type
                        resource_id outcome text now)))
               end).

(** The limits of [hub/state.rs] as steps of a handler. *)
Definition limit_ip (ev : Env) (headers : Headers) (peer : option string) (trust_forwarded_for : bool) (call : nat)
    (scope : string) (q : Quota) : Handler HubError unit :=
  λ s, match rate_limit_ip bucket_hash (si_limiter s) (headers !! "x-forwarded-for") peer trust_forwarded_for scope
               (ev_instant ev call) q with
       | (Some r, l) => lift id r (with_limiter s l)
       | (None, l) => (Panic, with_limiter s l)
       end.
Definition limit_key (ev : Env) (call : nat) (scope key : string) (q : Quota) : Handler HubError unit :=
  λ s, match rate_limit_key bucket_hash (si_limiter s) scope key (ev_instant ev call) q with
       | (Some r, l) => lift id r (with_limiter s l)
       | (None, l) => (Panic, with_limiter s l)
       end.
End shared.

(** ** Lemmas *)

(** Text that begins and ends with a visible character is not trimmed. *)
Lemma strip_ws_graphic fwd a s : not_graphic a = false → strip_ws fwd (String a s) = None.
Proof.
  intros Ha. assert (Hr : (33 ≤ byte_of a ≤ 126)%N).
  { unfold not_graphic, in_range in Ha. apply negb_false_iff, andb_true_iff in Ha as [?%N.leb_le ?%N.leb_le]. done. }
  unfold strip_ws.
  replace (ws1 (byte_of a)) with false by (symmetry; apply not_true_iff_false; solve_ws).
  destruct s as [|b s]; [done|].
  replace (if fwd then ws2 (byte_of a) (byte_of b) else ws2 (byte_of b) (byte_of a)) with false
    by (symmetry; apply not_true_iff_false; destruct fwd; solve_ws).
  destruct s as [|c s]; [done|].
  replace (if fwd then ws3 (byte_of a) (byte_of b) (byte_of c) else ws3 (byte_of c) (byte_of b) (byte_of a)) with false
    by (symmetry; apply not_true_iff_false; destruct fwd; solve_ws). done.
Qed.

Lemma strip_all_graphic n fwd a s : not_graphic a = false → strip_ws_all n fwd (String a s) = String a s.
Proof. intros Ha. destruct n; [done|]. cbn [strip_ws_all]. by rewrite strip_ws_graphic. Qed.

Lemma trim_graphic s : str_all (λ a, negb (not_graphic a)) s = true → trim s = s.
Proof.
  intros Hs. unfold trim, trim_start. destruct s as [|a s]; [done|].
  assert (Ha : not_graphic a = false) by (simpl in Hs; apply andb_true_iff in Hs as [?%negb_true_iff _]; done).
  rewrite strip_all_graphic by done. unfold trim_end.
  rewrite <- (str_all_rev _ (String a s)) in Hs. destruct (str_rev (String a s)) as [|b t] eqn:Hr.
  - apply (f_equal str_rev) in Hr. rewrite str_rev_involutive in Hr. done.
  - rewrite strip_all_graphic; [|simpl in Hs; by apply andb_true_iff in Hs as [?%negb_true_iff _]].
    by rewrite <- Hr, str_rev_involutive.
Qed.

Lemma trim_ends a s b : not_graphic a = false → not_graphic b = false → trim (String a (s +:+ String b "")) = String a (s +:+ String b "").
Proof.
  intros Ha Hb. unfold trim, trim_start. rewrite strip_all_graphic by done. unfold trim_end.
  rewrite str_rev_cons, str_rev_snoc, app_String, strip_all_graphic by done.
  by rewrite <- app_String, <- str_rev_snoc, <- str_rev_cons, str_rev_involutive.
Qed.

Lemma strip_prefix_app p s : strip_prefix p (p +:+ s) = Some s.
Proof. induction p as [|a p IH]; [done|]. rewrite app_String. simpl. by rewrite Ascii.eqb_refl. Qed.

(** A token of visible characters in a header is read back. *)
Lemma bearer_token_round_trip token :
  token ≠ "" → str_all (λ a, negb (not_graphic a)) token = true → bearer_token (Some ("Bearer " +:+ token)) = Some token.
Proof.
  intros Hne Ht. unfold bearer_token. cbn [mbind option_bind].
  assert (Hb : trim ("Bearer " +:+ token) = "Bearer " +:+ token).
  { destruct (str_rev token) as [|b t] eqn:Hr.
    - apply (f_equal str_rev) in Hr. rewrite str_rev_involutive in Hr. done.
    - assert (Htok : token = str_rev t +:+ String b "").
      { rewrite <- str_rev_cons, <- Hr. by rewrite str_rev_involutive. }
      rewrite Htok. rewrite <- app_assoc_str.
      change ("Bearer " +:+ str_rev t) with (String "B" ("earer " +:+ str_rev t)). rewrite app_String.
      apply trim_ends; [done|]. rewrite <- (str_all_rev _ token), Hr in Ht. simpl in Ht.
      by apply andb_true_iff in Ht as [?%negb_true_iff _]. }
  rewrite Hb, strip_prefix_app. simpl option_or. simpl fmap.
  change (trim <$> Some token) with (Some (trim token)). simpl. rewrite trim_graphic by done.
  by rewrite (proj2 (String.eqb_neq token "") Hne).
Qed.

Section lemmas.
Context `{!Libraries}.

Lemma verify_secret_iff secret h : verify_secret secret h = true ↔ hash_secret secret = h.
Proof. unfold verify_secret. rewrite constant_time_eq_bytes. split; [apply bytes_inj|by intros ->]. Qed.

Lemma store_Next s d s' : store s = (Next d, s') ↔ si_store s = Some d ∧ s' = s.
Proof. unfold store, mbind, handler_bind, get, lift, ok_or. destruct (si_store s); simpl; unfold mret, handler_ret, exit; naive_solver. Qed.

Lemma store_unwrap_Next {X} s d s' : (store_unwrap : Handler X Directory) s = (Next d, s') ↔ si_store s = Some d ∧ s' = s.
Proof. unfold store_unwrap, mbind, handler_bind, get. destruct (si_store s); simpl; unfold mret, handler_ret, panic; naive_solver. Qed.

Lemma execute_Next {X A} (f : StoreError → X) (r : Res StoreError (A * Directory)) s a s' :
  execute f r s = (Next a, s') ↔ ∃ d, r = Ok (a, d) ∧ s' = with_store s (Some d).
Proof.
  unfold execute, mbind, handler_bind, lift, set_store, modify. destruct r as [[a' d]|]; simpl; unfold mret, handler_ret, exit; naive_solver.
Qed.

Lemma execute_unit_Next {X} (f : StoreError → X) (r : Res StoreError Directory) s u s' :
  execute_unit f r s = (Next u, s') ↔ ∃ d, r = Ok d ∧ s' = with_store s (Some d).
Proof.
  destruct u. unfold execute_unit, mbind, handler_bind, lift, set_store, modify. destruct r; simpl; unfold mret, handler_ret, exit; naive_solver.
Qed.

Lemma set_store_Next {X} d s u s' : (set_store d : Handler X unit) s = (Next u, s') ↔ s' = with_store s (Some d).
Proof. destruct u. unfold set_store, modify. naive_solver. Qed.

(** An audit record changes the audit table only. *)
Lemma audit_Next {X} o a k r ac rt ri oc md id now s u s' :
  (audit o a k r ac rt ri oc md id now : Handler X unit) s = (Next u, s') →
  s' = s ∨ ∃ d rows, si_store s = Some d ∧ s' = with_store s (Some (set_audit d rows)).
Proof. unfold audit, modify. intros [= _ <-]. destruct (si_store s) as [d|]; [right|by left]. do 2 eexists. by split. Qed.

(** The limits change the limiter only. *)
Lemma limit_ip_Next ev headers peer trust call scope q s u s' :
  limit_ip ev headers peer trust call scope q s = (Next u, s') → ∃ l, s' = with_limiter s l.
Proof.
  unfold limit_ip, lift, mret, handler_ret, exit. destruct (rate_limit_ip _ _ _ _ _ _ _ _) as [[[]|] l]; intros [= <- <-]; eauto.
Qed.
Lemma limit_key_Next ev call scope key q s u s' :
  limit_key ev call scope key q s = (Next u, s') → ∃ l, s' = with_limiter s l.
Proof.
  unfold limit_key, lift, mret, handler_ret, exit. destruct (rate_limit_key _ _ _ _ _ _) as [[[]|] l]; intros [= <- <-]; eauto.
Qed.

(** Every scope a key is granted is known, and the granter's role has it. *)
Lemma validate_scopes_sound principal requested scopes :
  validate_scopes principal requested = Ok scopes →
  scopes ≠ [] ∧ (∀ s, s ∈ scopes ↔ s ∈ requested)
  ∧ ∀ s, s ∈ scopes → ∃ permission, scope_permission s = Some permission ∧ role_allows (pc_role principal) permission = true.
Proof.
  unfold validate_scopes. intros Hv. apply bind_Ok in Hv as (values & Hf & Hv). apply bind_Ok_tt in Hv as [Hne [= <-]].
  apply reject_if_Ok in Hne.
  assert (Hin : ∀ s, (s ∈ values ↔ s ∈ requested)
    ∧ (s ∈ values → ∃ permission, scope_permission s = Some permission ∧ role_allows (pc_role principal) permission = true)).
  { revert Hf. apply (try_fold_prefix_ind (λ seen (v : gset string), ∀ s, (s ∈ v ↔ s ∈ seen)
      ∧ (s ∈ v → ∃ permission, scope_permission s = Some permission ∧ role_allows (pc_role principal) permission = true))); [set_solver|].
    intros seen x t t' Ht Ha. unfold add_scope in Ha. apply bind_Ok in Ha as (perm & Hp%ok_or_Ok & Ha).
    apply bind_Ok_tt in Ha as [Hr%reject_if_Ok%negb_false_iff [= <-]]. intros s. destruct (Ht s) as [Hs1 Hs2].
    rewrite elem_of_union, elem_of_singleton, elem_of_app, list_elem_of_singleton, Hs1. split; [tauto|].
    intros [->|Hs]; [eauto|]. by apply Hs2, Hs1. }
  split_and!.
  - bool_cases. intros He. apply Hne, leibniz_equiv, elements_empty_inv, Permutation_nil_r. rewrite <- He.
    symmetry. apply merge_sort_Permutation.
  - intros s. rewrite merge_sort_Permutation, elem_of_elements. apply Hin.
  - intros s. rewrite merge_sort_Permutation, elem_of_elements. apply Hin.
Qed.
End lemmas.

(** The steps of a handler that went on. *)
Ltac inv_next :=
  repeat match goal with
  | H : mbind _ _ _ = (Next _, _) |- _ => apply bind_Next in H as (? & ? & ? & H)
  | H : mret _ _ = (Next _, _) |- _ => apply ret_Next in H as [? ?]; simplify_eq
  | H : exit_if _ _ _ = (Next _, _) |- _ => apply exit_if_Next in H as [? ?]; simplify_eq
  | H : lift _ _ _ = (Next _, _) |- _ => apply lift_Next in H as [? ?]; simplify_eq
  | H : calling _ _ _ = (Next _, _) |- _ => apply calling_Next in H
  | H : get _ = (Next _, _) |- _ => apply get_Next in H as [? ?]; simplify_eq
  | H : modify _ _ = (Next _, _) |- _ => apply modify_Next in H; simplify_eq
  | H : store _ = (Next _, _) |- _ => apply store_Next in H as [? ?]; simplify_eq
  | H : store_unwrap _ = (Next _, _) |- _ => apply store_unwrap_Next in H as [? ?]; simplify_eq
  | H : set_store _ _ = (Next _, _) |- _ => apply set_store_Next in H; simplify_eq
  | H : execute _ _ _ = (Next _, _) |- _ => apply execute_Next in H as (? & ? & ?); simplify_eq
  | H : execute_unit _ _ _ = (Next _, _) |- _ => apply execute_unit_Next in H as (? & ? & ?); simplify_eq
  | H : limit_ip _ _ _ _ _ _ _ _ = (Next _, _) |- _ => apply limit_ip_Next in H as (? & ?); simplify_eq
  | H : limit_key _ _ _ _ _ _ = (Next _, _) |- _ => apply limit_key_Next in H as (? & ?); simplify_eq
  | H : exit _ _ = (Next _, _) |- _ => discriminate H
  | H : ok_or _ _ = Ok _ |- _ => apply ok_or_Ok in H
  end.

(** ** Every way a handler ends *)

Lemma bind_any {X A B} (m : Handler X A) (f : A → Handler X B) s r s' :
  (m ≫= f) s = (r, s') →
  (∃ a s1, m s = (Next a, s1) ∧ f a s1 = (r, s')) ∨ (∃ x, m s = (Exit x, s') ∧ r = Exit x) ∨ (m s = (Panic, s') ∧ r = Panic).
Proof. unfold mbind, handler_bind. destruct (m s) as [[a|x|] s1]; naive_solver. Qed.

Section any.
Context `{!Libraries} {X : Type}.

Lemma calling_any {Y A} (g : Y → X) (m : Handler Y A) s r s' : calling g m s = (r, s') → ∃ r', m s = (r', s') ∧ (r = Panic → r' = Panic).
Proof. unfold calling. destruct (m s) as [[] s1]; naive_solver. Qed.
Lemma exit_if_any c (x : X) s r s' : exit_if c x s = (r, s') → s' = s ∧ r ≠ Panic.
Proof. unfold exit_if, exit, mret, handler_ret. destruct c; naive_solver. Qed.
Lemma lift_any {E A} (g : E → X) (a : Res E A) s r s' : lift g a s = (r, s') → s' = s ∧ r ≠ Panic.
Proof. unfold lift, exit, mret, handler_ret. destruct a; naive_solver. Qed.
Lemma ret_any {A} (a : A) s r s' : (mret a : Handler X A) s = (r, s') → s' = s ∧ r = Next a.
Proof. unfold mret, handler_ret. naive_solver. Qed.
Lemma exit_any {A} (x : X) s (r : Flow X A) s' : exit x s = (r, s') → s' = s ∧ r = Exit x.
Proof. unfold exit. naive_solver. Qed.
Lemma get_any s (r : Flow X Site) s' : get s = (r, s') → s' = s ∧ r = Next s.
Proof. unfold get. naive_solver. Qed.
Lemma modify_any g s (r : Flow X unit) s' : modify g s = (r, s') → s' = g s ∧ r = Next tt.
Proof. unfold modify. naive_solver. Qed.
Lemma store_any s r s' : store s = (r, s') → s' = s ∧ r ≠ Panic.
Proof.
  unfold store, mbind, handler_bind, get, lift, ok_or, exit, mret, handler_ret. destruct (si_store s); naive_solver.
Qed.
Lemma store_unwrap_any s (r : Flow X Directory) s' : store_unwrap s = (r, s') → s' = s ∧ (si_store s ≠ None → r ≠ Panic).
Proof.
  unfold store_unwrap, mbind, handler_bind, get. destruct (si_store s); unfold mret, handler_ret, panic; naive_solver.
Qed.
Lemma set_store_any d s (r : Flow X unit) s' : set_store d s = (r, s') → s' = with_store s (Some d) ∧ r = Next tt.
Proof. apply modify_any. Qed.
Lemma execute_any {A} (g : StoreError → X) (e : Res StoreError (A * Directory)) s r s' :
  execute g e s = (r, s') → r ≠ Panic ∧ (s' = s ∨ ∃ a d, e = Ok (a, d) ∧ r = Next a ∧ s' = with_store s (Some d)).
Proof.
  unfold execute, mbind, handler_bind, lift, set_store, modify, mret, handler_ret, exit. destruct e as [[a d]|]; simpl; naive_solver.
Qed.
Lemma execute_unit_any (g : StoreError → X) (e : Res StoreError Directory) s r s' :
  execute_unit g e s = (r, s') → r ≠ Panic ∧ (s' = s ∨ ∃ d, e = Ok d ∧ s' = with_store s (Some d)).
Proof.
  unfold execute_unit, mbind, handler_bind, lift, set_store, modify, mret, handler_ret, exit. destruct e; simpl; naive_solver.
Qed.
Lemma audit_any o a k ri ac rt re oc md id now s (r : Flow X unit) s' :
  audit o a k ri ac rt re oc md id now s = (r, s') →
  r = Next tt ∧ (si_store s = None ∧ s' = s ∨ ∃ d text, si_store s = Some d
    ∧ s' = with_store s (Some (Accounts.audit d (mkAuditRow id o a (Some k) (Some ri) ac rt re oc text now)))).
Proof. unfold audit, modify. intros [= <- <-]. split; [done|]. destruct (si_store s) as [d|]; [right|by left]. eauto. Qed.
End any.

Lemma limit_ip_any `{!Libraries} ev headers peer trust call scope q s r s' :
  limit_ip ev headers peer trust call scope q s = (r, s') → ∃ l, s' = with_limiter s l.
Proof.
  unfold limit_ip, lift, mret, handler_ret, exit. destruct (rate_limit_ip _ _ _ _ _ _ _ _) as [[[]|] l]; intros [= <- <-]; eauto.
Qed.
Lemma limit_key_any `{!Libraries} ev call scope key q s r s' :
  limit_key ev call scope key q s = (r, s') → ∃ l, s' = with_limiter s l.
Proof.
  unfold limit_key, lift, mret, handler_ret, exit. destruct (rate_limit_key _ _ _ _ _ _) as [[[]|] l]; intros [= <- <-]; eauto.
Qed.

(** With a store the look-up goes on. *)
Lemma bind_store {X B} (g : HubError → X) (f : Directory → Handler X B) s d :
  si_store s = Some d → (calling g store ≫= f) s = f d s.
Proof. intros Hd. unfold calling, store, mbind, handler_bind, get, lift. by rewrite Hd. Qed.
Lemma bind_store_unwrap {X B} (f : Directory → Handler X B) s d : si_store s = Some d → (store_unwrap ≫= f) s = f d s.
Proof. intros Hd. unfold store_unwrap, mbind, handler_bind, get. by rewrite Hd. Qed.

(** The steps of a handler, however it ended. *)
Ltac inv_any :=
  repeat match goal with
  | H : mbind _ _ _ = (_, _) |- _ => apply bind_any in H as [(? & ? & ? & H)|[(? & H & ?)|[H ?]]]; simplify_eq
  | H : calling _ _ _ = (Next _, _) |- _ => apply calling_Next in H
  | H : calling _ _ _ = (_, _) |- _ => apply calling_any in H as (? & H & _)
  | H : mret _ _ = (_, _) |- _ => apply ret_any in H as [? ?]; simplify_eq
  | H : exit_if _ _ _ = (Next _, _) |- _ => apply exit_if_Next in H as [? ?]; simplify_eq
  | H : exit_if _ _ _ = (_, _) |- _ => apply exit_if_any in H as [? _]; simplify_eq
  | H : lift _ _ _ = (Next _, _) |- _ => apply lift_Next in H as [? ?]; simplify_eq
  | H : lift _ _ _ = (_, _) |- _ => apply lift_any in H as [? _]; simplify_eq
  | H : exit _ _ = (_, _) |- _ => apply exit_any in H as [? ?]; simplify_eq
  | H : get _ = (_, _) |- _ => apply get_any in H as [? ?]; simplify_eq
  | H : modify _ _ = (_, _) |- _ => apply modify_any in H as [? ?]; simplify_eq
  | H : store _ = (Next _, _) |- _ => apply store_Next in H as [? ?]; simplify_eq
  | H : store _ = (_, _) |- _ => apply store_any in H as [? _]; simplify_eq
  | H : store_unwrap _ = (Next _, _) |- _ => apply store_unwrap_Next in H as [? ?]; simplify_eq
  | H : store_unwrap _ = (_, _) |- _ => apply store_unwrap_any in H as [? _]; simplify_eq
  | H : set_store _ _ = (_, _) |- _ => apply set_store_any in H as [? ?]; simplify_eq
  | H : limit_ip _ _ _ _ _ _ _ _ = (_, _) |- _ => apply limit_ip_any in H as [? ?]; simplify_eq
  | H : limit_key _ _ _ _ _ _ = (_, _) |- _ => apply limit_key_any in H as [? ?]; simplify_eq
  | H : ok_or _ _ = Ok _ |- _ => apply ok_or_Ok in H
  end.

(** ** Weakest preconditions *)

(** The handler does not panic; going on it satisfies [Q], leaving early [E]. *)
Definition wp {X A} (m : Handler X A) (Q : A → Site → Prop) (E : Site → Prop) (s : Site) : Prop :=
  match m s with
  | (Next a, s') => Q a s'
  | (Exit _, s') => E s'
  | (Panic, _) => False
  end.

Section wp.
Context `{!Libraries} {X : Type}.
Implicit Types (s : Site) (E : Site → Prop).

Lemma wp_bind {A B} (m : Handler X A) (f : A → Handler X B) Q E s :
  wp m (λ a s', wp (f a) Q E s') E s → wp (m ≫= f) Q E s.
Proof. unfold wp, mbind, handler_bind. by destruct (m s) as [[a|x|] s1]. Qed.
Lemma wp_mono {A} (m : Handler X A) Q Q' E E' s :
  wp m Q E s → (∀ a s', Q a s' → Q' a s') → (∀ s', E s' → E' s') → wp m Q' E' s.
Proof. unfold wp. destruct (m s) as [[]]; naive_solver. Qed.
Lemma wp_ret {A} (a : A) Q E s : Q a s → wp (mret a : Handler X A) Q E s.
Proof. done. Qed.
Lemma wp_exit_if c (x : X) Q E s : (c = true → E s) → (c = false → Q tt s) → wp (exit_if c x) Q E s.
Proof. unfold wp, exit_if, exit, mret, handler_ret. destruct c; auto. Qed.
Lemma wp_lift {F A} (g : F → X) (r : Res F A) Q E s :
  (∀ e, r = Err e → E s) → (∀ a, r = Ok a → Q a s) → wp (lift g r) Q E s.
Proof. unfold wp, lift, exit, mret, handler_ret. destruct r; eauto. Qed.
Lemma wp_calling {Y A} (g : Y → X) (m : Handler Y A) Q E s : wp m Q E s → wp (calling g m) Q E s.
Proof. unfold wp, calling. by destruct (m s) as [[]]. Qed.
Lemma wp_modify g Q E s : Q tt (g s) → wp (modify g : Handler X unit) Q E s.
Proof. done. Qed.
Lemma wp_set_store d Q E s : Q tt (with_store s (Some d)) → wp (set_store d : Handler X unit) Q E s.
Proof. done. Qed.
Lemma wp_store_unwrap d Q E s : si_store s = Some d → Q d s → wp (store_unwrap : Handler X Directory) Q E s.
Proof. intros Hd HQ. unfold wp, store_unwrap, mbind, handler_bind, get. by rewrite Hd. Qed.
Lemma wp_execute {A} (g : StoreError → X) (r : Res StoreError (A * Directory)) Q E s :
  (∀ e, r = Err e → E s) → (∀ a d, r = Ok (a, d) → Q a (with_store s (Some d))) → wp (execute g r) Q E s.
Proof.
  intros He Hq. unfold execute. apply wp_bind, wp_lift; [done|]. intros [a d] Hr. apply wp_bind, wp_set_store, wp_ret. by apply Hq.
Qed.
Lemma wp_execute_unit (g : StoreError → X) (r : Res StoreError Directory) Q E s :
  (∀ e, r = Err e → E s) → (∀ d, r = Ok d → Q tt (with_store s (Some d))) → wp (execute_unit g r) Q E s.
Proof. intros He Hq. unfold execute_unit. apply wp_bind, wp_lift; [done|]. intros d Hr. by apply wp_set_store, Hq. Qed.
Lemma wp_audit d o a k ri ac rt re oc md id now Q E s :
  si_store s = Some d →
  (∀ text, Q tt (with_store s (Some (Accounts.audit d (mkAuditRow id o a (Some k) (Some ri) ac rt re oc text now))))) →
  wp (audit o a k ri ac rt re oc md id now : Handler X unit) Q E s.
Proof. intros Hd HQ. unfold audit. apply wp_modify. by rewrite Hd. Qed.
End wp.
Lemma wp_store `{!Libraries} d Q E s : si_store s = Some d → Q d s → wp store Q E s.
Proof. intros Hd HQ. unfold wp, store, mbind, handler_bind, get, lift. by rewrite Hd. Qed.
Lemma wp_no_store `{!Libraries} {X A} (g : HubError → X) (f : Directory → Handler X A) Q E s :
  si_store s = None → E s → wp (calling g store ≫= f) Q E s.
Proof. intros Hn HE. unfold wp, calling, store, mbind, handler_bind, get, lift. by rewrite Hn. Qed.

(** The store is the one the last step left. *)
Ltac has_store := first [eassumption | reflexivity | cbn [si_store with_store with_sessions with_objects with_data with_cache]; eassumption].

(** One step of a handler. *)
Ltac wp_step :=
  lazymatch goal with
  | |- wp (mbind _ _) _ _ _ => apply wp_bind
  | |- wp (calling _ _) _ _ _ => apply wp_calling
  | |- wp (mret _) _ _ _ => apply wp_ret
  | |- wp (exit_if _ _) _ _ _ => apply wp_exit_if; intros ?
  | |- wp (lift _ _) _ _ _ => apply wp_lift; intros ? ?
  | |- wp (modify _) _ _ _ => apply wp_modify
  | |- wp (set_store _) _ _ _ => apply wp_set_store
  | |- wp store_unwrap _ _ _ => eapply wp_store_unwrap; [has_store|]
  | |- wp store _ _ _ => eapply wp_store; [has_store|]
  | |- wp (execute _ _) _ _ _ => apply wp_execute; [intros ? ?|intros ? ? ?]
  | |- wp (execute_unit _ _) _ _ _ => apply wp_execute_unit; intros ? ?
  | |- wp (audit _ _ _ _ _ _ _ _ _ _ _) _ _ _ => eapply wp_audit; [has_store|intros ?]
  end.

(** ** An instance *)

(** The libraries' laws hold of functions that keep their input readable. *)
Fixpoint plain_scope (s rest : string) : string :=
  match s with
  | EmptyString => String "0" rest
  | String a s => String "1" (String a (plain_scope s rest))
  end.
Definition plain_scopes (l : list string) : string := foldr plain_scope "" l.
Fixpoint read_scopes (t : string) : list string :=
  match t with
  | String c t =>
      if Ascii.eqb c "0" then "" :: read_scopes t
      else match t with
           | String a t => match read_scopes t with s :: l => String a s :: l | [] => [] end
           | EmptyString => []
           end
  | EmptyString => []
  end.

Lemma read_plain_scope s rest : read_scopes (plain_scope s rest) = s :: read_scopes rest.
Proof. induction s as [|a s IH]; [done|]. cbn [plain_scope read_scopes Ascii.eqb]. simpl. by rewrite IH. Qed.
Lemma read_plain_scopes l : read_scopes (plain_scopes l) = l.
Proof. induction l as [|s l IH]; [done|]. simpl. rewrite read_plain_scope. by f_equal. Qed.

Definition plain_libraries : Libraries := {|
  sha256_digest s := N_of_ascii <$> String.list_ascii_of_string s;
  argon2_hash password salt := Ok ("$" +:+ password);
  phc_parses := starts_with "$";
  argon2_verify password h := String.eqb h ("$" +:+ password);
  header_value := str_all (λ a, in_range 32 126 (byte_of a));
  json_to_string _ := Ok "{}";
  scopes_to_string l := Ok (plain_scopes l);
  scopes_from_str t := Ok (read_scopes t);
  base64url_encode s := s;
  base64url_decode s := Some s;
  valid_utf8 _ := true;
  bucket_hash scope key := Z.of_nat (str_len scope + str_len key);
|}.

Lemma plain_libraries_laws : @LibraryLaws plain_libraries.
Proof.
  split; try done.
  - intros pw salt h [= <-]. split; [apply prefix_app; by eexists|]. by apply String.eqb_eq.
  - intros l t [= <-]. cbn. by rewrite read_plain_scopes.
  - intros l. by eexists.
Qed.
