(* ===== verification/OAuth.v ===== *)
(** Federated sign-in ([apps/nagisalake-hub/src/oauth]): the providers of the
    configuration, PKCE and the authorization URL, the redirect target, and the
    identity a provider's answers give.

    Requests to a provider are arguments of type [Upstream].

    Main results: the authorization URL carries exactly its parameters, whatever
    they contain; an identity is verified only when the provider said so of that
    address; a redirect target is a path of the same site. *)

From S2P Require Import Prelude Text Json HubTypes Web.
From Stdlib Require Import ZArith Lia Ascii.

(** ** Configuration ([config.rs]) *)

Definition AUTHORIZATION_TTL_SECONDS : Z := 600.

Inductive ProviderKind := Google | Github | Linuxdo | Oidc.
#[export] Instance ProviderKind_eq_dec : EqDecision ProviderKind.
Proof. solve_decision. Defined.

Record ProviderConfig := mkProviderConfig {
  pf_kind : ProviderKind;
  pf_client_id : string;
  pf_client_secret_env : string;
  pf_authorize_url : option string;
  pf_token_url : option string;
  pf_userinfo_url : option string;
  pf_scopes : option (list string);
  pf_allowed_email_domains : list string;
}.

(** The providers in the order of a [BTreeMap]. *)
Record OauthConfig := mkOauthConfig {
  oc_public_url : string;
  oc_providers : list (string * ProviderConfig);
}.

Definition kind_authorize_url (k : ProviderKind) : string :=
  match k with
  | Google => "https://accounts.google.com/o/oauth2/v2/auth"
  | Github => "https://github.com/login/oauth/authorize"
  | Linuxdo => "https://connect.linux.do/oauth2/authorize"
  | Oidc => ""
  end.
Definition kind_token_url (k : ProviderKind) : string :=
  match k with
  | Google => "https://oauth2.googleapis.com/token"
  | Github => "https://github.com/login/oauth/access_token"
  | Linuxdo => "https://connect.linux.do/oauth2/token"
  | Oidc => ""
  end.
Definition kind_userinfo_url (k : ProviderKind) : string :=
  match k with
  | Google => "https://openidconnect.googleapis.com/v1/userinfo"
  | Github => "https://api.github.com/user"
  | Linuxdo => "https://connect.linux.do/api/user"
  | Oidc => ""
  end.
Definition default_scopes (k : ProviderKind) : list string :=
  match k with
  | Google => ["openid"; "email"; "profile"]
  | Github => ["read:user"; "user:email"]
  | Linuxdo => ["user"]
  | Oidc => ["openid"; "email"]
  end.

Record Provider := mkProvider {
  pv_name : string;
  pv_kind : ProviderKind;
  pv_client_id : string;
  pv_client_secret : string;
  pv_authorize_url : string;
  pv_token_url : string;
  pv_userinfo_url : string;
  pv_scopes : list string;
  pv_allowed_email_domains : list string;
}.

Inductive OauthError :=
| OaInvalidConfig (m : string)
| OaUnknownProvider (m : string)
| OaProvider (m : string)
| OaIdentity (m : string).

Record FederatedIdentity := mkFederatedIdentity {
  fi_subject : string;
  fi_email : string;
  fi_email_verified : bool;
  fi_display_name : option string;
}.

(** The text, unless it is empty. *)
Definition nonempty (s : string) : option string := if String.eqb s "" then None else Some s.

(** [explicit], else [builtin], else the field is missing. *)
Definition pick (name : string) (explicit : option string) (builtin field : string) : Res OauthError string :=
  match explicit ≫= (λ v, nonempty (trim v)) with
  | Some v => Ok v
  | None => ok_or (OaInvalidConfig ("provider " +:+ name +:+ ": " +:+ field +:+ " is required")) (nonempty builtin)
  end.

Section resolve.
(** [std::env::var]. *)
Context (env_var : string → option string).

Definition resolve_provider (name : string) (c : ProviderConfig) : Res OauthError Provider :=
  let about text := OaInvalidConfig ("provider " +:+ name +:+ ": " +:+ text) in
  client_secret ← ok_or (about ("environment variable " +:+ pf_client_secret_env c +:+ " is not set")) (env_var (pf_client_secret_env c));
  reject_if (is_blank client_secret) (about (pf_client_secret_env c +:+ " is empty")) ;;
  reject_if (is_blank (pf_client_id c)) (about "client_id is empty") ;;
  authorize_url ← pick name (pf_authorize_url c) (kind_authorize_url (pf_kind c)) "authorize_url";
  token_url ← pick name (pf_token_url c) (kind_token_url (pf_kind c)) "token_url";
  userinfo_url ← pick name (pf_userinfo_url c) (kind_userinfo_url (pf_kind c)) "userinfo_url";
  Ok (mkProvider name (pf_kind c) (trim (pf_client_id c)) client_secret authorize_url token_url userinfo_url
        match pf_scopes c with Some (s :: l) => s :: l | _ => default_scopes (pf_kind c) end
        (filter (λ d, d ≠ "") ((λ d, to_ascii_lowercase (trim d)) <$> pf_allowed_email_domains c))).

Definition resolve (c : OauthConfig) : Res OauthError (gmap string Provider) :=
  reject_if (is_blank (oc_public_url c)) (OaInvalidConfig "oauth.public_url is required to build the redirect URI") ;;
  reject_if (negb (starts_with "http://" (oc_public_url c)) && negb (starts_with "https://" (oc_public_url c)))
    (OaInvalidConfig "oauth.public_url must include the scheme") ;;
  try_fold (λ m kv, p ← resolve_provider kv.1 kv.2; Ok (<[kv.1 := p]> m)) ∅ (oc_providers c).
End resolve.

Definition redirect_uri (c : OauthConfig) (provider : string) : string :=
  trim_end_matches "/" (oc_public_url c) +:+ "/api/v1/auth/oauth/" +:+ provider +:+ "/callback".

Definition allows_email (p : Provider) (email : string) : bool :=
  match pv_allowed_email_domains p with
  | [] => true
  | domains => existsb (String.eqb (from_option (λ x, to_ascii_lowercase x.2) "" (rsplit_once "@" email))) domains
  end.

(** ** URLs ([pkce.rs]) *)

Definition unreserved (a : ascii) : bool :=
  is_ascii_alphanumeric a || Ascii.eqb a "-" || Ascii.eqb a "_" || Ascii.eqb a "." || Ascii.eqb a "~".

Fixpoint urlencode (value : string) : string :=
  match value with
  | EmptyString => EmptyString
  | String a rest => if unreserved a then String a (urlencode rest) else String "%" (hex2 true (byte_of a) (urlencode rest))
  end.

Record Pkce := mkPkce { pk_verifier : string; pk_challenge : string }.

Section pkce.
Context `{!Libraries}.

(** The raw digest as text of bytes; [HEXLOWER] undoes the hexadecimal of
    [hash_secret]. *)
Definition generate_pkce (u1 u2 : string) : Pkce :=
  let verifier := u1 +:+ u2 in
  mkPkce verifier (base64url_encode (foldr (λ b s, String (ascii_of_N b) s) "" (sha256_digest verifier))).

Definition generate_state (u1 u2 : string) : string := u1 +:+ u2.
End pkce.

(** [l.join(" ")]. *)
Definition join_with (sep : string) (l : list string) : string :=
  match l with [] => "" | x :: l => foldl (λ acc y, acc +:+ sep +:+ y) x l end.

Definition authorize_url (p : Provider) (redirect_uri state challenge : string) : string :=
  pv_authorize_url p +:+ "?response_type=code&client_id=" +:+ urlencode (pv_client_id p)
  +:+ "&redirect_uri=" +:+ urlencode redirect_uri
  +:+ "&state=" +:+ urlencode state
  +:+ "&scope=" +:+ urlencode (join_with " " (pv_scopes p))
  +:+ "&code_challenge=" +:+ urlencode challenge +:+ "&code_challenge_method=S256"
  +:+ (if decide (pv_kind p = Google) then "&access_type=online&prompt=select_account" else "").

Definition sanitize_redirect_path (candidate : option string) : string :=
  match candidate ≫= (λ c, nonempty (trim c)) with
  | None => "/"
  | Some path =>
      if negb (starts_with "/" path) || starts_with "//" path || contains "\" path then "/"
      else if contains "://" path then "/"
      else path
  end.

(** ** Identities ([exchange.rs]) *)

Record TokenResponse := mkTokenResponse {
  tk_access_token : option string;
  tk_error : option string;
  tk_error_description : option string;
}.

Record GithubUser := mkGithubUser {
  gu_id : Z;
  gu_login : string;
  gu_name : option string;
  gu_email : option string;
}.
Record GithubEmail := mkGithubEmail {
  ge_email : string;
  ge_primary : bool;
  ge_verified : bool;
}.

(** How a request for a document fails. *)
Inductive FetchFailure :=
| RequestFailed (m : string)
| ErrorStatus (m : string)
| NotJson (m : string).

(** What the provider's endpoints answer. *)
Record Upstream := mkUpstream {
  (** A form posted to the token endpoint: the status, its text and the body. *)
  up_post : string → list (string * string) → Res string (Z * string * Res string string);
  (** [serde_json] and [serde_urlencoded] at the type of a token response. *)
  up_token_json : string → option TokenResponse;
  up_token_form : string → Res string TokenResponse;
  (** A document under a bearer token. *)
  up_userinfo : string → string → Res FetchFailure Json;
  up_github_user : string → string → Res FetchFailure GithubUser;
  up_github_emails : string → Res FetchFailure (list GithubEmail);
}.

Definition fetch_error (what status_hint : string) (f : FetchFailure) : OauthError :=
  match f with
  | RequestFailed e => OaProvider (what +:+ " request failed: " +:+ e)
  | ErrorStatus e => OaProvider (what +:+ " returned an error" +:+ status_hint +:+ ": " +:+ e)
  | NotJson e => OaProvider (what +:+ " was not JSON: " +:+ e)
  end.
Definition map_err {E F A} (f : E → F) (r : Res E A) : Res F A := match r with Ok a => Ok a | Err e => Err (f e) end.

Definition parse_token_response (up : Upstream) (body : string) : Res OauthError TokenResponse :=
  match up_token_json up body with
  | Some t => Ok t
  | None => map_err (λ e, OaProvider ("token response was not JSON or form data: " +:+ e)) (up_token_form up body)
  end.

Definition claim_text (claims : Json) (name : string) : option string := json_get name claims ≫= as_str.

Definition email_verified_claim (claims : Json) : bool :=
  match json_get "email_verified" claims with
  | Some (JBool b) => b
  | Some (JString s) => String.eqb s "true"
  | _ => false
  end.

Definition oidc_identity (claims : Json) : Res OauthError FederatedIdentity :=
  subject ← ok_or (OaIdentity "userinfo had no sub") (claim_text claims "sub");
  email ← ok_or (OaIdentity "userinfo had no email") (claim_text claims "email");
  Ok (mkFederatedIdentity subject email (email_verified_claim claims) (claim_text claims "name")).

Section identities.
(** [serde_json::Number]'s text. *)
Context (number_text : Number → string) (up : Upstream).

Definition claim_string (claims : Json) (name : string) : option string :=
  match json_get name claims with
  | Some (JString value) => nonempty (trim value)
  | Some (JNumber n) => Some (number_text n)
  | _ => None
  end.

Definition subject_char (a : ascii) : bool := is_ascii_alphanumeric a || Ascii.eqb a "_" || Ascii.eqb a "-".

Definition linuxdo_identity_from_userinfo (claims : Json) : Res OauthError FederatedIdentity :=
  subject ← ok_or (OaIdentity "Linux.do userinfo had no id") (claim_string claims "id");
  reject_if ((64 - str_len "linuxdo-" <? str_len subject)%nat || negb (str_all subject_char subject))
    (OaIdentity "Linux.do userinfo returned an invalid id") ;;
  let username :=
    match claim_string claims "username" with
    | Some u => u
    | None => default ("linuxdo_" +:+ subject) (claim_string claims "name")
    end in
  Ok (mkFederatedIdentity subject ("linuxdo-" +:+ subject +:+ "@linuxdo-connect.invalid") true
        match claim_string claims "name" with Some n => Some n | None => Some username end).

Definition fetch_oidc_userinfo (p : Provider) (access_token : string) : Res OauthError FederatedIdentity :=
  claims ← map_err (fetch_error "userinfo" "") (up_userinfo up (pv_userinfo_url p) access_token);
  oidc_identity claims.

Definition fetch_linuxdo_identity (p : Provider) (access_token : string) : Res OauthError FederatedIdentity :=
  claims ← map_err (fetch_error "userinfo" "") (up_userinfo up (pv_userinfo_url p) access_token);
  linuxdo_identity_from_userinfo claims.

(** The primary verified address, else a verified one, else the primary, else
    the first. *)
Definition chosen_email (emails : list GithubEmail) : option GithubEmail :=
  match List.find (λ e, ge_primary e && ge_verified e) emails with
  | Some e => Some e
  | None =>
      match List.find ge_verified emails with
      | Some e => Some e
      | None => match List.find ge_primary emails with Some e => Some e | None => head emails end
      end
  end.

Definition github_identity (user : GithubUser) (emails : list GithubEmail) : Res OauthError FederatedIdentity :=
  chosen ← match chosen_email emails with
           | Some e => Ok (ge_email e, ge_verified e)
           | None =>
               email ← ok_or (OaIdentity "GitHub returned no email address; add one to your GitHub account") (gu_email user);
               Ok (email, false)
           end;
  Ok (mkFederatedIdentity (pretty (gu_id user)) chosen.1 chosen.2
        match gu_name user with Some n => Some n | None => Some (gu_login user) end).

Definition fetch_github_identity (p : Provider) (access_token : string) : Res OauthError FederatedIdentity :=
  user ← map_err (fetch_error "/user" "") (up_github_user up (pv_userinfo_url p) access_token);
  emails ← map_err (fetch_error "/user/emails" " (is the user:email scope granted?)") (up_github_emails up access_token);
  github_identity user emails.

Definition exchange_and_fetch_identity (p : Provider) (redirect_uri code pkce_verifier : string)
    : Res OauthError FederatedIdentity :=
  let form := [("grant_type", "authorization_code"); ("code", code); ("redirect_uri", redirect_uri);
               ("client_id", pv_client_id p); ("client_secret", pv_client_secret p); ("code_verifier", pkce_verifier)] in
  response ← map_err (λ e, OaProvider ("token request failed: " +:+ e)) (up_post up (pv_token_url p) form);
  let '(status, status_text, body) := response in
  body ← map_err (λ e, OaProvider ("failed to read token response: " +:+ e)) body;
  token ← parse_token_response up body;
  match tk_error token with
  | Some error =>
      Err (OaProvider ("token endpoint rejected the code: " +:+ error +:+ " " +:+ default "" (tk_error_description token)))
  | None =>
      reject_if (negb ((200 <=? status) && (status <? 300))%Z)
        (OaProvider ("token endpoint returned HTTP " +:+ status_text)) ;;
      access_token ← ok_or (OaIdentity "token response had no access_token") (tk_access_token token);
      match pv_kind p with
      | Google | Oidc => fetch_oidc_userinfo p access_token
      | Github => fetch_github_identity p access_token
      | Linuxdo => fetch_linuxdo_identity p access_token
      end
  end.
End identities.

(** ** URLs are read back *)

(** A hexadecimal digit's value; percent-decoding; the pairs of a query. *)
Definition hex_value (a : ascii) : option N :=
  let n := byte_of a in
  if in_range 48 57 n then Some (n - 48)%N else if in_range 65 70 n then Some (n - 55)%N
  else if in_range 97 102 n then Some (n - 87)%N else None.
Fixpoint percent_decode (s : string) : string :=
  match s with
  | EmptyString => EmptyString
  | String a s =>
      match s with
      | String x (String y rest) =>
          match Ascii.eqb a "%", hex_value x, hex_value y with
          | true, Some h, Some l => String (ascii_of_N (16 * h + l)) (percent_decode rest)
          | _, _, _ => String a (percent_decode s)
          end
      | _ => String a (percent_decode s)
      end
  end.
Definition query_pairs (q : string) : list (string * string) :=
  omap (λ part, '(k, v) ← split_once "=" part; Some (percent_decode k, percent_decode v)) (split_char "&" q).

Definition url_char (a : ascii) : bool := unreserved a || Ascii.eqb a "%".

Lemma hex_digit_value n : (n < 16)%N → hex_value (hex_digit true n) = Some n.
Proof. intros Hn. do 16 (destruct n as [|n] using N.peano_ind; [done|clear IHn]). all: try reflexivity. lia. Qed.

Lemma percent_decode_plain a s : Ascii.eqb a "%" = false → percent_decode (String a s) = String a (percent_decode s).
Proof. intros Ha. destruct s as [|x [|y rest]]; [done..|]. cbn [percent_decode]. by rewrite Ha. Qed.

Lemma percent_decode_byte b s :
  (b < 256)%N → percent_decode (String "%" (hex2 true b s)) = String (ascii_of_N b) (percent_decode s).
Proof.
  intros Hb. unfold hex2. cbn [percent_decode]. rewrite Ascii.eqb_refl.
  rewrite !hex_digit_value; [|apply N.mod_lt; lia|apply N.Div0.div_lt_upper_bound; lia].
  by rewrite <- (N.div_mod' b 16).
Qed.

Lemma percent_decode_urlencode s : percent_decode (urlencode s) = s.
Proof.
  induction s as [|a s IH]; [done|]. cbn [urlencode]. destruct (unreserved a) eqn:Ha.
  - rewrite percent_decode_plain, IH; [done|]. by destruct (Ascii.eqb_spec a "%") as [->|].
  - rewrite percent_decode_byte, IH by apply N_ascii_bounded. unfold byte_of. by rewrite ascii_N_embedding.
Qed.

Lemma url_char_hex n : (n < 16)%N → unreserved (hex_digit true n) = true.
Proof. intros Hn. do 16 (destruct n as [|n] using N.peano_ind; [done|clear IHn]). lia. Qed.

Lemma urlencode_chars s : str_all url_char (urlencode s) = true.
Proof.
  induction s as [|a s IH]; [done|]. cbn [urlencode]. destruct (unreserved a) eqn:Ha; unfold hex2; cbn [str_all]; rewrite IH;
    unfold url_char.
  - by rewrite Ha.
  - rewrite !url_char_hex; [done|apply N.mod_lt; lia|].
    apply N.Div0.div_lt_upper_bound. pose proof (N_ascii_bounded a). unfold byte_of. lia.
Qed.

Lemma urlencode_without c s : url_char c = false → str_all (λ a, negb (Ascii.eqb a c)) (urlencode s) = true.
Proof.
  intros Hc. eapply str_all_impl, urlencode_chars. intros a Ha. apply negb_true_iff. by destruct (Ascii.eqb_spec a c) as [->|]; [congruence|].
Qed.

(** A parameter of a query: the name's text is its own encoding. *)
Definition parameter (k v : string) : string := k +:+ String "=" (urlencode v).
Definition plain_name (k : string) : bool := str_all unreserved k.

Lemma plain_name_encodes k : plain_name k = true → urlencode k = k.
Proof.
  induction k as [|a k IH]; [done|]. cbn [plain_name str_all urlencode]. intros [Ha Hk]%andb_true_iff. by rewrite Ha, IH.
Qed.

Lemma plain_name_without c k : plain_name k = true → url_char c = false → str_all (λ a, negb (Ascii.eqb a c)) k = true.
Proof. intros Hk Hc. rewrite <- (plain_name_encodes k Hk). by apply urlencode_without. Qed.

Lemma parameter_pair k v :
  plain_name k = true →
  ('(k, v) ← split_once "=" (parameter k v); Some (percent_decode k, percent_decode v)) = Some (k, v).
Proof.
  intros Hk. unfold parameter. rewrite split_once_app by by apply plain_name_without. cbn [mbind option_bind].
  rewrite percent_decode_urlencode. do 2 f_equal. rewrite <- (plain_name_encodes k Hk) at 1. apply percent_decode_urlencode.
Qed.

Lemma parameter_whole k v : plain_name k = true → str_all (λ a, negb (Ascii.eqb a "&")) (parameter k v) = true.
Proof.
  intros Hk. unfold parameter. rewrite str_all_app. cbn [str_all].
  by rewrite plain_name_without, urlencode_without.
Qed.

Lemma query_pairs_cons k v rest :
  plain_name k = true → query_pairs (parameter k v +:+ String "&" rest) = (k, v) :: query_pairs rest.
Proof.
  intros Hk. unfold query_pairs. rewrite split_char_app_sep by by apply parameter_whole. cbn [omap list_omap].
  by rewrite parameter_pair.
Qed.

Lemma query_pairs_one k v : plain_name k = true → query_pairs (parameter k v) = [(k, v)].
Proof.
  intros Hk. unfold query_pairs. rewrite split_char_none by by apply parameter_whole. cbn [omap list_omap].
  by rewrite parameter_pair.
Qed.

Lemma parameter_app k v rest : parameter k v +:+ rest = k +:+ String "=" (urlencode v +:+ rest).
Proof. unfold parameter. by rewrite app_assoc_str, app_String. Qed.

(** What a provider is asked, in order. *)
Definition authorize_parameters (p : Provider) (redirect_uri state challenge : string) : list (string * string) :=
  [("response_type", "code"); ("client_id", pv_client_id p); ("redirect_uri", redirect_uri); ("state", state);
   ("scope", join_with " " (pv_scopes p)); ("code_challenge", challenge); ("code_challenge_method", "S256")]
  ++ (if decide (pv_kind p = Google) then [("access_type", "online"); ("prompt", "select_account")] else []).

(** The authorization URL is the provider's endpoint with a query that reads
    back as exactly the parameters it was built from, whatever characters the
    client id, the redirect address, the state, the scopes and the challenge
    contain: no value can add, drop or change a parameter. *)
Theorem authorize_url_exact p redirect_uri state challenge :
  ∃ q, authorize_url p redirect_uri state challenge = pv_authorize_url p +:+ String "?" q
    ∧ query_pairs q = authorize_parameters p redirect_uri state challenge.
Proof.
  set (last := if decide (pv_kind p = Google)
               then parameter "code_challenge_method" "S256"
                    +:+ String "&" (parameter "access_type" "online" +:+ String "&" (parameter "prompt" "select_account"))
               else parameter "code_challenge_method" "S256").
  exists (parameter "response_type" "code" +:+ String "&" (parameter "client_id" (pv_client_id p) +:+ String "&"
    (parameter "redirect_uri" redirect_uri +:+ String "&" (parameter "state" state +:+ String "&"
    (parameter "scope" (join_with " " (pv_scopes p)) +:+ String "&" (parameter "code_challenge" challenge +:+ String "&" last)))))).
  split.
  - unfold authorize_url. f_equal. rewrite !parameter_app. subst last. by destruct (decide (pv_kind p = Google)).
  - rewrite !query_pairs_cons by done. unfold authorize_parameters. subst last. destruct (decide (pv_kind p = Google)).
    + rewrite !query_pairs_cons, query_pairs_one by done. done.
    + rewrite query_pairs_one by done. done.
Qed.

(** ** Verified addresses *)

(** The provider's answers vouch for the address. *)
Definition vouched (number_text : Number → string) (up : Upstream) (p : Provider) (token : string) (i : FederatedIdentity) : Prop :=
  match pv_kind p with
  | Google | Oidc =>
      ∃ claims, up_userinfo up (pv_userinfo_url p) token = Ok claims ∧ claim_text claims "sub" = Some (fi_subject i)
        ∧ claim_text claims "email" = Some (fi_email i) ∧ email_verified_claim claims = true
  | Github =>
      ∃ user emails e, up_github_user up (pv_userinfo_url p) token = Ok user ∧ up_github_emails up token = Ok emails ∧ e ∈ emails
        ∧ fi_subject i = pretty (gu_id user) ∧ fi_email i = ge_email e ∧ ge_verified e = true
        ∧ ((∃ e', e' ∈ emails ∧ ge_primary e' = true ∧ ge_verified e' = true) → ge_primary e = true)
  | Linuxdo =>
      ∃ claims, up_userinfo up (pv_userinfo_url p) token = Ok claims ∧ claim_string number_text claims "id" = Some (fi_subject i)
        ∧ fi_email i = "linuxdo-" +:+ fi_subject i +:+ "@linuxdo-connect.invalid" ∧ str_all subject_char (fi_subject i) = true
  end.

Lemma find_elem {A} (f : A → bool) l x : List.find f l = Some x → x ∈ l ∧ f x = true.
Proof. intros [Hin Hf]%List.find_some. by rewrite list_elem_of_In. Qed.

Lemma chosen_email_elem emails e :
  chosen_email emails = Some e → e ∈ emails
  ∧ ((∃ e', e' ∈ emails ∧ ge_primary e' = true ∧ ge_verified e' = true) → ge_primary e = true ∧ ge_verified e = true).
Proof.
  unfold chosen_email. destruct (List.find (λ e, ge_primary e && ge_verified e) emails) as [e0|] eqn:H1.
  - intros [= ->]. apply find_elem in H1 as [? [? ?]%andb_true_iff]. done.
  - intros He. split.
    + destruct (List.find ge_verified emails) as [e1|] eqn:H2; [simplify_eq; by apply find_elem in H2 as [? _]|].
      destruct (List.find ge_primary emails) as [e1|] eqn:H3; [simplify_eq; by apply find_elem in H3 as [? _]|].
      destruct emails; [done|]. simpl in He. simplify_eq. apply list_elem_of_here.
    + intros (e' & Hin%list_elem_of_In & Hp & Hv). pose proof (List.find_none _ _ H1 _ Hin) as Hf. simpl in Hf. by rewrite Hp, Hv in Hf.
Qed.

Lemma linuxdo_identity_Ok number_text claims i :
  linuxdo_identity_from_userinfo number_text claims = Ok i →
  claim_string number_text claims "id" = Some (fi_subject i)
  ∧ fi_email i = "linuxdo-" +:+ fi_subject i +:+ "@linuxdo-connect.invalid" ∧ str_all subject_char (fi_subject i) = true.
Proof.
  unfold linuxdo_identity_from_userinfo. intros Hi. inv_ok. simpl.
  match goal with H : _ || _ = false |- _ => apply orb_false_iff in H as [_ ?%negb_false_iff] end. done.
Qed.

Lemma oidc_identity_Ok claims i :
  oidc_identity claims = Ok i → claim_text claims "sub" = Some (fi_subject i) ∧ claim_text claims "email" = Some (fi_email i)
  ∧ fi_email_verified i = email_verified_claim claims.
Proof. unfold oidc_identity. intros Hi. by inv_ok. Qed.

Lemma map_err_Ok {E F A} (f : E → F) (r : Res E A) a : map_err f r = Ok a ↔ r = Ok a.
Proof. destruct r; naive_solver. Qed.

(** An address counts as verified only when the provider itself said so in
    answer to the code of this sign-in: the claim [email_verified] of the user
    information, or a verified entry of the account's addresses (the primary one
    if it is verified); Linux.do gives no address, and the one made up from its
    account id is in a domain no mail reaches. *)
Theorem verified_address_vouched number_text up p uri code verifier i :
  exchange_and_fetch_identity number_text up p uri code verifier = Ok i → fi_email_verified i = true →
  ∃ form status text body t token, up_post up (pv_token_url p) form = Ok (status, text, Ok body)
    ∧ ("code", code) ∈ form ∧ ("code_verifier", verifier) ∈ form ∧ (200 ≤ status < 300)%Z
    ∧ parse_token_response up body = Ok t ∧ tk_access_token t = Some token ∧ vouched number_text up p token i.
Proof.
  unfold exchange_and_fetch_identity. intros Hx Hv.
  apply bind_Ok in Hx as ([[status text] body] & Hpost%map_err_Ok & Hx). apply bind_Ok in Hx as (b & ->%map_err_Ok & Hx).
  apply bind_Ok in Hx as (t & Ht & Hx). destruct (tk_error t); [done|].
  apply bind_Ok_tt in Hx as [Hst%reject_if_Ok%negb_false_iff Hx]. apply bind_Ok in Hx as (token & Htok%ok_or_Ok & Hx).
  eexists _, status, text, b, t, token. split; [exact Hpost|]. split; [set_solver|]. split; [set_solver|]. split; [lia|].
  split; [done|]. split; [done|]. clear Hpost Ht Htok Hst. unfold vouched. destruct (pv_kind p).
  1,4: unfold fetch_oidc_userinfo in Hx; apply bind_Ok in Hx as (claims & Hc%map_err_Ok & (? & ? & He)%oidc_identity_Ok);
       exists claims; by rewrite He in Hv.
  - unfold fetch_github_identity in Hx. apply bind_Ok in Hx as (user & Hu%map_err_Ok & Hx).
    apply bind_Ok in Hx as (emails & He%map_err_Ok & Hx). unfold github_identity in Hx. apply bind_Ok in Hx as (chosen & Hch & [= <-]).
    simpl in Hv. destruct (chosen_email emails) as [e|] eqn:Hce.
    + injection Hch as <-. apply chosen_email_elem in Hce as [Hin Hpr]. exists user, emails, e. split_and!; try done. naive_solver.
    + apply bind_Ok in Hch as (? & _ & [= <-]). done.
  - unfold fetch_linuxdo_identity in Hx. apply bind_Ok in Hx as (claims & Hc%map_err_Ok & Hl%linuxdo_identity_Ok). by exists claims.
Qed.

Definition google : Provider := mkProvider "google" Google "id" "secret" "https://a" "https://t" "https://u" [] [].
Definition vouching : Upstream :=
  mkUpstream (λ _ _, Ok (200%Z, "200 OK", Ok "{}")) (λ _, Some (mkTokenResponse (Some "t") None None)) (λ _, Err "")
    (λ _ _, Ok (JObject [("sub", JString "7"); ("email", JString "ann@example.com"); ("email_verified", JString "true")]))
    (λ _ _, Err (NotJson "")) (λ _, Err (NotJson "")).

Lemma verified_address_vouched_witness :
  ∃ i token, exchange_and_fetch_identity (λ _, "") vouching google "https://hub" "code" "verifier" = Ok i
    ∧ vouched (λ _, "") vouching google token i.
Proof.
  destruct (exchange_and_fetch_identity (λ _, "") vouching google "https://hub" "code" "verifier") as [i|] eqn:Hi; [|discriminate Hi].
  assert (Hv : fi_email_verified i = true) by (vm_compute in Hi; injection Hi as <-; reflexivity).
  destruct (verified_address_vouched _ _ _ _ _ _ _ Hi Hv) as (form & status & text & body & t & token & _ & _ & _ & _ & _ & _ & H).
  exists i, token. split; [reflexivity|exact H].
Defined.

(** ** Redirect targets *)

(** The path after a sign-in names no scheme and no host: it begins with one
    slash, has no backslash and no scheme separator. *)
Lemma redirect_path_same_site candidate :
  let path := sanitize_redirect_path candidate in
  starts_with "/" path = true ∧ starts_with "//" path = false ∧ contains "\" path = false ∧ contains "://" path = false.
Proof.
  unfold sanitize_redirect_path. destruct (candidate ≫= _) as [path|]; [|done].
  destruct (starts_with "/" path) eqn:H1; [|done]. destruct (starts_with "//" path) eqn:H2; [done|].
  destruct (contains "\" path) eqn:H3; [done|]. cbn [negb orb]. by destruct (contains "://" path) eqn:H4.
Qed.

(** A tab between two slashes stays, though a browser drops it and reads a host. *)
Lemma redirect_path_keeps_tab host :
  trim (String "/" (String (ascii_of_nat 9) (String "/" host))) = String "/" (String (ascii_of_nat 9) (String "/" host)) →
  contains "\" host = false → contains "://" host = false →
  let path := String "/" (String (ascii_of_nat 9) (String "/" host)) in sanitize_redirect_path (Some path) = path.
Proof.
  intros Ht Hb Hs path. unfold sanitize_redirect_path. cbn [mbind option_bind]. fold path in Ht. rewrite Ht. cbn [nonempty String.eqb].
  assert (H1 : contains "\" path = false) by (subst path; cbn [contains]; by rewrite Hb).
  assert (H2 : contains "://" path = false) by (subst path; cbn [contains]; by rewrite Hs).
  change (nonempty path) with (Some path). cbn iota. rewrite H1, H2. by destruct host.
Qed.
