(* ===== verification/Auth.v ===== *)
(** Authentication ([product_api/authentication.rs]): bearer tokens to
    principals, registration, password and federated sign-in, session refresh and
    sign-out.

    Each handler runs on the Hub's state without interference; the statements it
    makes are the store's transactions of [Accounts].  Failures of the database
    itself are not modelled, only violated constraints.

    Main results: a request is authenticated exactly by a live session or key of
    a current member, with the current role; what a sign-in hands out
    authenticates; a sign-in needs the verified password of an active, unlocked
    account, or a sign-in state of the provider used once and a verified address;
    whoever does not have the password gets at most ten guesses in fifteen
    minutes.  Not modelled: the list of linked identities, which only reads. *)

From S2P Require Import Prelude Text Json HubTypes Principal Helpers Sessions HubState Store RateLimit Accounts Secrets Web OAuth.
From Stdlib Require Import ZArith Lia Ascii.

#[local] Abbreviation Headers := (gmap string string).

Definition REFRESH_COOKIE : string := "nagisalake_refresh".
Definition CSRF_COOKIE : string := "nagisalake_csrf".

Record Config := mkConfig {
  cf_browser : BrowserConfig;
  cf_trust_forwarded_for : bool;
  cf_oauth : option OauthConfig;
  cf_oauth_providers : gmap string Provider;
}.

Record AuthContext := mkAuthContext {
  ac_principal : Principal;
  ac_session_id : option string;
}.

Record SessionTokens := mkSessionTokens {
  st_session_id : string;
  st_access : GeneratedSecret;
  st_refresh : GeneratedSecret;
  st_csrf : GeneratedSecret;
  st_access_expires_at : Z;
  st_refresh_expires_at : Z;
}.

Record RegisterRequest := mkRegisterRequest {
  rr_email : string;
  rr_password : string;
  rr_organization_name : option string;
}.
Record LoginRequest := mkLoginRequest {
  lr_email : string;
  lr_password : string;
  lr_organization_id : option string;
}.
Record OauthCallbackQuery := mkOauthCallbackQuery {
  oq_code : option string;
  oq_state : option string;
  oq_error : option string;
  oq_error_description : option string;
}.

(** [origin.split_once("://")], what follows. *)
Fixpoint strip_scheme (origin : string) : option string :=
  match strip_prefix "://" origin with
  | Some rest => Some rest
  | None => match origin with String _ o => strip_scheme o | EmptyString => None end
  end.

(** [seconds.max(1) as u64] until the lock ends. *)
Definition lock_seconds_left (until now : Z) : Z := Z.max 1 (i64_saturating_sub until now / 1000).

Section auth.
Context `{!Libraries} (cf : Config) (ev : Env).

(** ** Principals *)

Definition key_scopes (k : ApiKeyRow) : list string :=
  match scopes_from_str (ak_scopes k) with Ok l => l | Err _ => [] end.

Definition requested_organization (headers : Headers) (organization_id : option string) : option string :=
  match organization_id with
  | Some o => Some o
  | None => headers !! "x-organization-id" ≫= (λ v, if is_blank v then None else Some v)
  end.

Definition authenticate (headers : Headers) (organization_id : option string) : Handler HubError AuthContext :=
  token ← lift id (ok_or (Unauthorized "bearer token is required") (bearer_token (headers !! "authorization")));
  d ← store;
  let now := ev_now ev 0 in
  let requested := requested_organization headers organization_id in
  if starts_with "nss_" token then
    session ← lift id (ok_or (Unauthorized "invalid browser session") (session_by_access_hash d (hash_secret token)));
    let '(session_id, session) := session in
    exit_if (bool_decide (is_Some (bs_revoked_at session)) || (bs_access_expires_at session <=? now)%Z)
      (Unauthorized "browser session is expired or revoked") ;;
    let org := default (bs_organization_id session) requested in
    m ← lift id (ok_or (Forbidden "user is not an organization member") (membership d org (bs_user_id session)));
    mret (mkAuthContext (mkPrincipal BrowserSession session_id (Some (bs_user_id session)) org (mm_role m) ∅) (Some session_id))
  else if starts_with "nsk_" token then
    key ← lift id (ok_or (Unauthorized "invalid API key") (api_key_by_hash d (hash_secret token)));
    let '(key_id, key) := key in
    exit_if (bool_decide (is_Some (ak_revoked_at key)) || match ak_expires_at key with Some e => (e <=? now)%Z | None => false end)
      (Unauthorized "API key is expired or revoked") ;;
    set_store (touch_api_key d key_id now) ;;
    exit_if (match requested with Some o => negb (String.eqb o (ak_organization_id key)) | None => false end)
      (NotFound "organization resource") ;;
    m ← lift id (ok_or (Unauthorized "API key creator is no longer a member")
                   (membership d (ak_organization_id key) (ak_creator_user_id key)));
    mret (mkAuthContext (mkPrincipal ApiKey key_id (Some (ak_creator_user_id key)) (ak_organization_id key) (mm_role m)
                           (list_to_set (key_scopes key))) None)
  else exit (Unauthorized "unsupported bearer credential type").

Definition require_browser (headers : Headers) (org : option string) : Handler HubError AuthContext :=
  auth ← authenticate headers org;
  exit_if (negb (bool_decide (pc_kind (ac_principal auth) = BrowserSession))) (Forbidden "browser session is required") ;;
  mret auth.

Definition missing_permission (permission : Permission) : HubError := Forbidden ("missing permission " +:+ scope permission).

Definition authorize (headers : Headers) (org : string) (permission : Permission) : Handler HubError AuthContext :=
  auth ← authenticate headers (Some org);
  exit_if (negb (allows (ac_principal auth) permission)) (missing_permission permission) ;;
  mret auth.

Definition authorize_current (headers : Headers) (permission : Permission) : Handler HubError AuthContext :=
  auth ← authenticate headers None;
  exit_if (negb (allows (ac_principal auth) permission)) (missing_permission permission) ;;
  mret auth.

(** ** Sessions and cookies *)

Definition refresh_cookie (value : string) (max_age : Z) (http_only : bool) : string :=
  REFRESH_COOKIE +:+ "=" +:+ value +:+ "; Path=/api/v1/auth; Max-Age=" +:+ pretty max_age +:+ "; SameSite=Lax"
  +:+ (if http_only then "; HttpOnly" else "") +:+ (if bc_cookie_secure (cf_browser cf) then "; Secure" else "").
Definition csrf_cookie (value : string) (max_age : Z) : string :=
  CSRF_COOKIE +:+ "=" +:+ value +:+ "; Path=/; Max-Age=" +:+ pretty max_age +:+ "; SameSite=Lax"
  +:+ (if bc_cookie_secure (cf_browser cf) then "; Secure" else "").
Definition append_cookie (r : Response) (value : string) : Response := insert_header "set-cookie" value r.

Definition clear_auth_cookies (status : Z) : Response :=
  append_cookie (append_cookie (mkResponse status [] Empty) (refresh_cookie "" 0 true)) (csrf_cookie "" 0).

(** The pairs of the header; of two with one name the last. *)
Definition cookies (headers : Headers) : gmap string string :=
  match headers !! "cookie" with
  | Some value => list_to_map (rev (omap (λ part, split_once "=" (trim part)) (split_char ";" value)))
  | None => ∅
  end.

Definition session_cookies (r : Response) (tokens : SessionTokens) : Response :=
  let ttl := bc_refresh_ttl_seconds (cf_browser cf) in
  append_cookie (append_cookie r (refresh_cookie (gs_plaintext (st_refresh tokens)) ttl true))
    (csrf_cookie (gs_plaintext (st_csrf tokens)) ttl).

Definition public_user (u : User) : PublicUser :=
  mkPublicUser (u_id u) (u_email u) (u_status u) (bool_decide (is_Some (u_email_verified_at u))) (u_created_at u).

Definition auth_response (status : Z) (user : User) (organization_id : string) (tokens : SessionTokens) : Response :=
  session_cookies
    (mkResponse status []
       (AuthReply (mkAuthBody (gs_plaintext (st_access tokens)) (st_access_expires_at tokens) (st_refresh_expires_at tokens)
          (gs_plaintext (st_csrf tokens)) (public_user user) organization_id))) tokens.

(** [k] and [t] number the first identifier and the clock reading it draws. *)
Definition issue_session (k t : nat) (headers : Headers) (user_id organization_id : string) : Handler HubError SessionTokens :=
  let now := ev_now ev t in
  let u i := ev_uuid ev (k + i) in
  let access := generate_secret "nss" (u 0) (u 1) in
  let refresh := generate_secret "nsr" (u 2) (u 3) in
  let csrf := generate_secret "nsc" (u 4) (u 5) in
  let access_expires_at := (now + bc_access_ttl_seconds (cf_browser cf) * 1000)%Z in
  let refresh_expires_at := (now + bc_refresh_ttl_seconds (cf_browser cf) * 1000)%Z in
  d ← store;
  execute_unit HubTypes.Store
    (create_session d (mkNewSession (u 6) user_id organization_id (gs_hash access) (gs_hash refresh) (gs_hash csrf) (u 7) now
       access_expires_at refresh_expires_at (hash_secret <$> headers !! "user-agent") None)) ;;
  mret (mkSessionTokens (u 6) access refresh csrf access_expires_at refresh_expires_at).

Definition is_same_origin (origin : string) (headers : Headers) : bool :=
  match headers !! "host" with
  | None => false
  | Some host =>
      let authority := match strip_scheme origin with Some rest => rest | None => origin end in
      negb (String.eqb authority "") && eq_ignore_ascii_case authority host
  end.

Definition verify_origin (headers : Headers) : Res HubError unit :=
  match bc_allowed_origins (cf_browser cf) with
  | [] => Ok tt
  | allowed =>
      origin ← ok_or (Forbidden "Origin header is required") (headers !! "origin");
      if existsb (String.eqb origin) allowed then Ok tt
      else if is_same_origin origin headers then Ok tt
      else Err (Forbidden "Origin is not allowed")
  end.

(** ** Registration and sign-in *)

Definition with_id (headers : Headers) : string := request_id headers (ev_uuid ev 0).
Definition limits : Handler HubError Limits := s ← get; mret (rl_limits (si_limiter s)).
Definition limit_address (headers : Headers) (peer : option string) (scope : string) (q : Quota) : Handler HubError unit :=
  limit_ip ev headers peer (cf_trust_forwarded_for cf) 0 scope q.

(** [email.split('@').next().unwrap_or("My")]. *)
Definition email_stem (email : string) : string := default "My" (head (split_char "@" email)).

Definition registered_name (r : RegisterRequest) : string :=
  default (email_stem (rr_email r) +:+ " workspace") (rr_organization_name r ≫= (λ n, nonempty (trim n))).

Definition register (headers : Headers) (peer : option string) (request : RegisterRequest) : Handler Response Response :=
  let rid := with_id headers in
  let fail := product_error rid in
  exit_if (negb (bc_password_auth_enabled (cf_browser cf)))
    (fail (Forbidden "password registration is disabled; use OAuth")) ;;
  exit_if (negb (bc_registration_enabled (cf_browser cf))) (fail (Forbidden "registration is disabled")) ;;
  _ ← calling fail store;
  l ← calling fail limits;
  calling fail (limit_address headers peer "auth.register" (register_per_ip l)) ;;
  exit_if (negb (valid_email (rr_email request))) (fail (InvalidRequest "a valid email address is required")) ;;
  password_hash ← lift (λ e, fail (InvalidRequest (auth_error_text e)))
                    (hash_password_async (ev_pool ev) (rr_password request) (ev_uuid ev 1));
  let organization_name := registered_name request in
  exit_if (120 <? chars_count organization_name)%nat
    (fail (InvalidRequest "organization name must contain 1-120 characters")) ;;
  d ← calling fail store;
  account ← execute (λ e, match e with
                          | StConflict _ => fail (Conflict "email is already registered")
                          | e => fail (HubTypes.Store e)
                          end)
              (register_user d (ev_now ev 0) (ev_uuid ev 2) (ev_uuid ev 3) (rr_email request) password_hash organization_name);
  let '(user_id, organization_id) := account in
  d ← calling fail store;
  user ← lift (λ e, fail (HubTypes.Store e)) (ok_or row_not_found (user_by_id d user_id));
  tokens ← calling fail (issue_session 4 1 headers user_id organization_id);
  audit (Some organization_id) (Some user_id) "browser_session" rid "auth.register" "user" (Some user_id) "success"
    (JObject [("email", JString (u_email user))]) (ev_uuid ev 12) (ev_now ev 2) ;;
  mret (auth_response 201 user organization_id tokens).

(** The organization that was asked for, else the first. *)
Definition signed_in_organization (wanted : option string) (memberships : list Membership) : option string :=
  let found := wanted ≫= (λ w, List.find (λ m, String.eqb (mm_organization_id m) w) memberships) in
  mm_organization_id <$> match found with Some m => Some m | None => head memberships end.

Definition reset_limit {X} (scope key : string) : Handler X unit :=
  modify (λ s, with_limiter s (RateLimit.reset bucket_hash (si_limiter s) scope key)).

Definition refused : HubError := Unauthorized "invalid email or password".

(** A wrong password or an account that is not active. *)
Definition login_denied (rid : string) (user : User) (now : Z) : Handler Response Response :=
  let fail := product_error rid in
  d ← calling fail store;
  let '(locked, d1) := record_failed_login d (u_id user) now 10 (15 * 60) in
  set_store d1 ;;
  audit None (Some (u_id user)) "browser_session" rid "auth.login" "user" (Some (u_id user)) "denied" (JObject [])
    (ev_uuid ev 1) (ev_now ev 1) ;;
  exit (fail match locked with
             | Some until => RateLimited (lock_seconds_left until (ev_now ev 2))
             | None => refused
             end).

(** The password was right. *)
Definition login_accepted (rid : string) (headers : Headers) (peer : option string) (account_key : string) (user : User)
    (wanted : option string) : Handler Response Response :=
  let fail := product_error rid in
  d ← calling fail store;
  organization_id ← lift fail (ok_or (Forbidden "user has no active organization")
                                 (signed_in_organization wanted (memberships_for_user d (u_id user))));
  set_store (clear_failed_logins d (u_id user)) ;;
  reset_limit "auth.login.account" account_key ;;
  reset_limit "auth.login.ip" (client_address (headers !! "x-forwarded-for") peer (cf_trust_forwarded_for cf)) ;;
  tokens ← calling fail (issue_session 1 1 headers (u_id user) organization_id);
  audit (Some organization_id) (Some (u_id user)) "browser_session" rid "auth.login" "session" (Some (st_session_id tokens))
    "success" (JObject []) (ev_uuid ev 9) (ev_now ev 2) ;;
  mret (auth_response 200 user organization_id tokens).

Definition login (headers : Headers) (peer : option string) (request : LoginRequest) : Handler Response Response :=
  let rid := with_id headers in
  let fail := product_error rid in
  exit_if (negb (bc_password_auth_enabled (cf_browser cf))) (fail (Forbidden "password login is disabled; use OAuth")) ;;
  l ← calling fail limits;
  calling fail (limit_address headers peer "auth.login.ip" (login_per_ip l)) ;;
  let account_key := hash_secret (to_ascii_lowercase (trim (lr_email request))) in
  calling fail (limit_key ev 1 "auth.login.account" account_key (login_per_account l)) ;;
  d ← calling fail store;
  let user := user_by_email d (lr_email request) in
  let password_matches := verify_password_async (ev_pool ev) (lr_password request) (user ≫= u_password_hash) in
  user ← lift fail (ok_or refused user);
  let now := ev_now ev 0 in
  lift fail match login_lock_until d (u_id user) now with
            | Some until => Err (RateLimited (lock_seconds_left until now))
            | None => Ok tt
            end ;;
  if negb (String.eqb (u_status user) "active") || negb password_matches
  then login_denied rid user now
  else login_accepted rid headers peer account_key user (lr_organization_id request).

(** ** Refresh and sign-out *)

Definition refresh (headers : Headers) (peer : option string) : Handler Response Response :=
  let rid := with_id headers in
  let fail := product_error rid in
  l ← calling fail limits;
  calling fail (limit_address headers peer "auth.refresh" (refresh_per_ip l)) ;;
  lift fail (verify_origin headers) ;;
  d ← calling fail store;
  let jar := cookies headers in
  token ← lift fail (ok_or (Unauthorized "refresh cookie is required") (jar !! REFRESH_COOKIE));
  let csrf := headers !! "x-csrf-token" in
  exit_if (negb (bool_decide (is_Some csrf)) || negb (bool_decide (csrf = jar !! CSRF_COOKIE)))
    (fail (Forbidden "CSRF token is missing or invalid")) ;;
  session ← lift fail (ok_or (Unauthorized "refresh session is invalid") (session_by_refresh_hash d (hash_secret token)));
  let '(session_id, session) := session in
  let now := ev_now ev 0 in
  exit_if (bool_decide (is_Some (bs_revoked_at session)) || (bs_refresh_expires_at session <=? now)%Z
           || negb (verify_secret (default "" csrf) (bs_csrf_token_hash session)))
    (fail (Unauthorized "refresh session is expired or revoked")) ;;
  let access := generate_secret "nss" (ev_uuid ev 1) (ev_uuid ev 2) in
  let next_refresh := generate_secret "nsr" (ev_uuid ev 3) (ev_uuid ev 4) in
  let access_expires_at := (now + bc_access_ttl_seconds (cf_browser cf) * 1000)%Z in
  let refresh_expires_at := (now + bc_refresh_ttl_seconds (cf_browser cf) * 1000)%Z in
  rotated ← execute (λ e, fail (HubTypes.Store e))
              (rotate_session d (mkRotateSession session_id (hash_secret token) (gs_hash access) (gs_hash next_refresh) now
                                   access_expires_at refresh_expires_at));
  exit_if (negb rotated) (fail (Unauthorized "refresh token was already rotated")) ;;
  d ← calling fail store;
  user ← lift fail (ok_or (Unauthorized "session user no longer exists") (user_by_id d (bs_user_id session)));
  mret (auth_response 200 user (bs_organization_id session)
          (mkSessionTokens session_id access next_refresh
             (mkGeneratedSecret (default "" csrf) "" (bs_csrf_token_hash session)) access_expires_at refresh_expires_at)).

Definition logout (headers : Headers) : Handler Response Response :=
  let rid := with_id headers in
  auth ← calling (product_error rid) (require_browser headers None);
  d ← store_unwrap;
  set_store (revoke_session d (ev_now ev 1) (default "" (ac_session_id auth))) ;;
  audit (Some (pc_organization_id (ac_principal auth))) (pc_user_id (ac_principal auth)) "browser_session" rid "auth.logout"
    "session" (ac_session_id auth) "success" (JObject []) (ev_uuid ev 1) (ev_now ev 2) ;;
  mret (clear_auth_cookies 204).

Definition user_of (auth : AuthContext) : string := default "" (pc_user_id (ac_principal auth)).

Definition revoke_all_sessions (headers : Headers) : Handler Response Response :=
  let rid := with_id headers in
  auth ← calling (product_error rid) (require_browser headers None);
  let user_id := user_of auth in
  d ← store_unwrap;
  set_store (revoke_user_sessions d (ev_now ev 1) user_id None) ;;
  audit (Some (pc_organization_id (ac_principal auth))) (Some user_id) "browser_session" rid "auth.sessions.revoke_all" "user"
    (Some user_id) "success" (JObject []) (ev_uuid ev 1) (ev_now ev 2) ;;
  mret (clear_auth_cookies 204).

Definition me (headers : Headers) : Handler Response Response :=
  let rid := with_id headers in
  auth ← calling (product_error rid) (require_browser headers None);
  let user_id := user_of auth in
  d ← store_unwrap;
  user ← lift (product_error rid) (ok_or (NotFound "user") (user_by_id d user_id));
  mret (mkResponse 200 [] (MeReply (public_user user) (pc_organization_id (ac_principal auth)) (memberships_for_user d user_id)
                             (auth_kind (pc_kind (ac_principal auth))))).

Definition disconnect_credentials {X} (ids : list string) : Handler X unit :=
  modify (λ s, with_sessions s (foldl (λ r id, (disconnect_credential (ev_order ev) r id).1) (si_sessions s) ids)).

Definition delete_account (headers : Headers) : Handler Response Response :=
  let rid := with_id headers in
  let fail := product_error rid in
  auth ← calling fail (require_browser headers None);
  let user_id := user_of auth in
  d ← calling fail store;
  credential_ids ← execute (λ e, fail (map_store e)) (delete_user d user_id);
  disconnect_credentials credential_ids ;;
  mret (clear_auth_cookies 204).

(** ** Federated sign-in *)

Definition urlencode_component (value : string) : string := urlencode value.

Definition redirect_to_signin (reason : string) : Response :=
  insert_header "location" ("/?oauth_error=" +:+ urlencode_component reason) (mkResponse 303 [] Empty).

Definition list_oauth_providers : Response :=
  mkResponse 200 [] (ProvidersReply (merge_sort String.le (map_to_list (cf_oauth_providers cf)).*1)).

Definition start_oauth (headers : Headers) (peer : option string) (provider_name : string) (redirect : option string)
    : Handler Response Response :=
  let rid := with_id headers in
  let fail := product_error rid in
  provider ← lift fail (ok_or (NotFound ("OAuth provider " +:+ provider_name)) (cf_oauth_providers cf !! provider_name));
  oauth ← lift fail (ok_or (Unavailable "OAuth is not configured") (cf_oauth cf));
  _ ← calling fail store;
  l ← calling fail limits;
  calling fail (limit_address headers peer "auth.oauth.start" (oauth_per_ip l)) ;;
  let pkce := generate_pkce (ev_uuid ev 1) (ev_uuid ev 2) in
  let csrf_state := generate_state (ev_uuid ev 3) (ev_uuid ev 4) in
  let redirect_path := sanitize_redirect_path redirect in
  d ← calling fail store;
  execute_unit (λ e, fail (HubTypes.Store e))
    (create_oauth_authorization d (ev_now ev 0) csrf_state provider_name (pk_verifier pkce) redirect_path
       AUTHORIZATION_TTL_SECONDS) ;;
  let target := authorize_url provider (redirect_uri oauth provider_name) csrf_state (pk_challenge pkce) in
  exit_if (negb (header_value target)) (fail (InvalidConfig "provider authorize URL is not a valid header")) ;;
  mret (mkResponse 303 [("location", target)] Empty).

Definition outcome_name (o : FederatedOutcome) : string :=
  match o with FoExisting => "existing" | FoLinked => "linked" | FoCreated _ => "created" end.

(** [k] and [t] number the identifiers and clock readings that are left. *)
Definition finish_oauth_session (k t : nat) (headers : Headers) (rid : string) (user : User) (outcome : FederatedOutcome)
    (redirect_path : string) : Handler Response Response :=
  exit_if (negb (String.eqb (u_status user) "active")) (redirect_to_signin "account_disabled") ;;
  d ← calling (λ _, redirect_to_signin "control_plane_unavailable") store;
  organization_id ← lift id match outcome with
                            | FoCreated o => Ok o
                            | _ => ok_or (redirect_to_signin "no_organization")
                                     (mm_organization_id <$> head (memberships_for_user d (u_id user)))
                            end;
  tokens ← calling (λ _, redirect_to_signin "session_issue_failed") (issue_session k t headers (u_id user) organization_id);
  audit (Some organization_id) (Some (u_id user)) "browser_session" rid "auth.oauth.login" "session"
    (Some (st_session_id tokens)) "success" (JObject [("outcome", JString (outcome_name outcome))])
    (ev_uuid ev (k + 8)) (ev_now ev (t + 1)) ;;
  mret (session_cookies (insert_header "location" redirect_path (mkResponse 303 [] Empty)) tokens).

Section callback.
Context (number_text : Number → string) (up : Upstream).

Definition organization_stem (identity : FederatedIdentity) : string :=
  default (email_stem (fi_email identity)) (fi_display_name identity ≫= (λ n, nonempty (trim n))).

(** An identity the provider vouched for. *)
Definition admit_identity (headers : Headers) (rid provider_name : string) (authorization : AuthorizationRow)
    (identity : FederatedIdentity) : Handler Response Response :=
  d ← calling (λ _, redirect_to_signin "control_plane_unavailable") store;
  if negb (bc_registration_enabled (cf_browser cf)) then
    user ← lift id (ok_or (redirect_to_signin "registration_closed")
                      (user_by_federated_identity d provider_name (fi_subject identity)));
    finish_oauth_session 1 1 headers rid user FoExisting (oa_redirect_path authorization)
  else
    login ← execute (λ e, match e with
                          | StConflict _ => redirect_to_signin "email_not_verified_by_provider"
                          | _ => redirect_to_signin "identity_rejected"
                          end)
              (resolve_federated_identity d (ev_now ev 1) (ev_uuid ev 1) (ev_uuid ev 2) provider_name (fi_subject identity)
                 (fi_email identity) (fi_email_verified identity) (truncate (organization_stem identity) 100 +:+ " workspace"));
    finish_oauth_session 3 2 headers rid login.1 login.2 (oa_redirect_path authorization).

Definition oauth_callback (headers : Headers) (provider_name : string) (query : OauthCallbackQuery) : Handler Response Response :=
  let rid := with_id headers in
  lift id match oq_error query with
          | Some error => Err (redirect_to_signin ("provider_error:" +:+ default error (oq_error_description query)))
          | None => Ok tt
          end ;;
  code ← lift id (ok_or (redirect_to_signin "missing_code") (oq_code query));
  csrf_state ← lift id (ok_or (redirect_to_signin "missing_code") (oq_state query));
  provider ← lift id (ok_or (redirect_to_signin "unknown_provider") (cf_oauth_providers cf !! provider_name));
  oauth ← lift id (ok_or (redirect_to_signin "oauth_disabled") (cf_oauth cf));
  d ← calling (λ _, redirect_to_signin "control_plane_unavailable") store;
  let '(consumed, d1) := consume_oauth_authorization d (ev_now ev 0) csrf_state in
  set_store d1 ;;
  authorization ← lift id (ok_or (redirect_to_signin "expired_or_replayed") consumed);
  exit_if (negb (String.eqb (oa_provider authorization) provider_name)) (redirect_to_signin "provider_mismatch") ;;
  identity ← lift (λ _, redirect_to_signin "identity_exchange_failed")
               (exchange_and_fetch_identity number_text up provider (redirect_uri oauth provider_name) code
                  (oa_pkce_verifier authorization));
  exit_if (negb (allows_email provider (fi_email identity))) (redirect_to_signin "email_domain_not_allowed") ;;
  exit_if (negb (fi_email_verified identity)) (redirect_to_signin "email_not_verified_by_provider") ;;
  admit_identity headers rid provider_name authorization identity.
End callback.
End auth.

(** ** Who a request is *)

Ltac next a s := apply bind_Next; exists a, s; split.

Section principals.
Context `{!Libraries} (ev : Env).

(** A live session of the token, a live key of the token. *)
Definition live_session (d : Directory) (token : string) (now : Z) (id : string) (r : SessionRow) : Prop :=
  dr_sessions d !! id = Some r ∧ bs_access_token_hash r = hash_secret token ∧ bs_revoked_at r = None
  ∧ (now < bs_access_expires_at r)%Z.
Definition live_key (d : Directory) (token : string) (now : Z) (id : string) (k : ApiKeyRow) : Prop :=
  dr_api_keys d !! id = Some k ∧ ak_key_hash k = hash_secret token ∧ ak_revoked_at k = None ∧ unexpired (ak_expires_at k) now.

Definition session_context (id : string) (r : SessionRow) (org : string) (m : Membership) : AuthContext :=
  mkAuthContext (mkPrincipal BrowserSession id (Some (bs_user_id r)) org (mm_role m) ∅) (Some id).
Definition key_context (id : string) (k : ApiKeyRow) (m : Membership) : AuthContext :=
  mkAuthContext (mkPrincipal ApiKey id (Some (ak_creator_user_id k)) (ak_organization_id k) (mm_role m)
                   (list_to_set (key_scopes k))) None.

Lemma session_by_access_hash_iff d h id r :
  secrets_unique d →
  session_by_access_hash d h = Some (id, r) ↔ dr_sessions d !! id = Some r ∧ bs_access_token_hash r = h.
Proof.
  intros Hu. unfold session_by_access_hash. split.
  - by intros [? ?%String.eqb_eq]%select_Some.
  - intros [Hr Hh]. apply select_unique; [done|by apply String.eqb_eq|]. intros id' r' Hr' Hh'%String.eqb_eq.
    eapply (su_access d Hu id' id r' r); congruence.
Qed.

Lemma api_key_by_hash_iff d h id k :
  secrets_unique d → api_key_by_hash d h = Some (id, k) ↔ dr_api_keys d !! id = Some k ∧ ak_key_hash k = h.
Proof.
  intros Hu. unfold api_key_by_hash. split.
  - by intros [? ?%String.eqb_eq]%select_Some.
  - intros [Hr Hh]. apply select_unique; [done|by apply String.eqb_eq|]. intros id' r' Hr' Hh'%String.eqb_eq.
    eapply (su_keys d Hu id' id r' k); congruence.
Qed.

Lemma not_closed (revoked : option Z) b :
  bool_decide (is_Some revoked) || b = false ↔ revoked = None ∧ b = false.
Proof. rewrite orb_false_iff, bool_decide_eq_false, <- eq_None_not_Some. done. Qed.

Lemma key_unexpired (expires : option Z) now :
  match expires with Some e => (e <=? now)%Z | None => false end = false ↔ unexpired expires now.
Proof.
  unfold unexpired. destruct expires as [e|]; [rewrite Z.leb_gt|]; split; try naive_solver lia.
Qed.

(** What authenticating a token of either kind comes to. *)
Lemma authenticate_session headers org s d token :
  bearer_token (headers !! "authorization") = Some token → starts_with "nss_" token = true → si_store s = Some d →
  secrets_unique d → ∀ c s',
  authenticate ev headers org s = (Next c, s') ↔
  ∃ id r m, live_session d token (ev_now ev 0) id r
    ∧ membership d (default (bs_organization_id r) (requested_organization headers org)) (bs_user_id r) = Some m
    ∧ c = session_context id r (default (bs_organization_id r) (requested_organization headers org)) m ∧ s' = s.
Proof.
  intros Ht Hp Hd Hu c s'. unfold authenticate. rewrite Ht. split.
  - intros Ha. inv_next. simplify_eq. rewrite Hp in Ha. inv_next.
    match goal with x : string * SessionRow |- _ => destruct x as [id r] end. inv_next.
    match goal with H : session_by_access_hash _ _ = _ |- _ => apply session_by_access_hash_iff in H as [Hr Hh]; [|done] end.
    match goal with H : _ || _ = false |- _ => apply not_closed in H as [Hn He%Z.leb_gt] end. by eexists id, r, _.
  - intros (id & r & m & (Hr & Hh & Hn & He) & Hm & -> & ->).
    assert (Hs : session_by_access_hash d (hash_secret token) = Some (id, r)) by by apply session_by_access_hash_iff.
    next token s; [by apply lift_Next|]. next d s; [by apply store_Next|]. rewrite Hp.
    next (id, r) s; [apply lift_Next; by rewrite Hs|].
    next tt s; [apply exit_if_Next; split; [by apply not_closed; split; [|apply Z.leb_gt]|done]|].
    next m s; [apply lift_Next; by rewrite Hm|]. done.
Qed.

Lemma authenticate_key headers org s d token :
  bearer_token (headers !! "authorization") = Some token → starts_with "nsk_" token = true → si_store s = Some d →
  secrets_unique d → ∀ c s',
  authenticate ev headers org s = (Next c, s') ↔
  ∃ id k m, live_key d token (ev_now ev 0) id k
    ∧ (∀ o, requested_organization headers org = Some o → o = ak_organization_id k)
    ∧ membership d (ak_organization_id k) (ak_creator_user_id k) = Some m
    ∧ c = key_context id k m ∧ s' = with_store s (Some (touch_api_key d id (ev_now ev 0))).
Proof.
  intros Ht Hp Hd Hu c s'. unfold authenticate. rewrite Ht.
  assert (Hnp : starts_with "nss_" token = false).
  { unfold starts_with in Hp. apply prefix_app in Hp as [t ->]. reflexivity. }
  split.
  - intros Ha. inv_next. simplify_eq. rewrite Hnp, Hp in Ha. inv_next.
    match goal with x : string * ApiKeyRow |- _ => destruct x as [id k] end. inv_next.
    match goal with H : api_key_by_hash _ _ = _ |- _ => apply api_key_by_hash_iff in H as [Hr Hh]; [|done] end.
    match goal with H : _ || _ = false |- _ => apply not_closed in H as [Hn He%key_unexpired] end.
    eexists id, k, _. split_and!; [done| |done..]. intros o Ho. rewrite Ho in *.
    match goal with H : negb _ = false |- _ => by apply negb_false_iff, String.eqb_eq in H end.
  - intros (id & k & m & (Hr & Hh & Hn & He) & Ho & Hm & -> & ->).
    assert (Hs : api_key_by_hash d (hash_secret token) = Some (id, k)) by by apply api_key_by_hash_iff.
    next token s; [by apply lift_Next|]. next d s; [by apply store_Next|]. rewrite Hnp, Hp.
    next (id, k) s; [apply lift_Next; by rewrite Hs|].
    next tt s; [apply exit_if_Next; split; [by apply not_closed; split; [|apply key_unexpired]|done]|].
    next tt (with_store s (Some (touch_api_key d id (ev_now ev 0)))); [by apply set_store_Next|].
    eapply bind_Next. exists tt. eexists. split; [apply exit_if_Next; split; [|done]|].
    { destruct (requested_organization headers org) as [o|]; [|done]. apply negb_false_iff, String.eqb_eq. by apply Ho. }
    next m (with_store s (Some (touch_api_key d id (ev_now ev 0)))); [apply lift_Next; by rewrite Hm|]. done.
Qed.

(** No other credential, and nothing without a store. *)
Lemma authenticate_kinds headers org s c s' :
  authenticate ev headers org s = (Next c, s') →
  ∃ token d, bearer_token (headers !! "authorization") = Some token ∧ si_store s = Some d
    ∧ (starts_with "nss_" token = true ∨ starts_with "nsk_" token = true).
Proof.
  unfold authenticate. intros Ha. inv_next. match goal with H : bearer_token _ = Some ?t |- _ => exists t end.
  eexists. split_and!; [done..|]. destruct (starts_with "nss_" _); [by left|]. destruct (starts_with "nsk_" _); [by right|].
  discriminate.
Qed.

(** C16: A request is authenticated exactly when its bearer token is that of a
    session or an API key that is neither revoked nor expired and whose user is a
    member of the organization now; the principal has the member's current role,
    a key only its own scopes and only in its own organization; and
    authenticating changes nothing but the time a key was last used. *)
Theorem authenticated_iff headers org s d c :
  si_store s = Some d → secrets_unique d →
  let now := ev_now ev 0 in
  let wanted := requested_organization headers org in
  (∃ s', authenticate ev headers org s = (Next c, s')
     ∧ (s' = s ∨ ∃ id, s' = with_store s (Some (touch_api_key d id now)))) ↔
  ∃ token, bearer_token (headers !! "authorization") = Some token ∧
    ((starts_with "nss_" token = true
      ∧ ∃ id r m, live_session d token now id r
          ∧ membership d (default (bs_organization_id r) wanted) (bs_user_id r) = Some m
          ∧ c = session_context id r (default (bs_organization_id r) wanted) m)
     ∨ (starts_with "nsk_" token = true
        ∧ ∃ id k m, live_key d token now id k ∧ (∀ o, wanted = Some o → o = ak_organization_id k)
            ∧ membership d (ak_organization_id k) (ak_creator_user_id k) = Some m ∧ c = key_context id k m)).
Proof.
  intros Hd Hu now wanted. split.
  - intros (s' & Ha & _). destruct (authenticate_kinds _ _ _ _ _ Ha) as (token & d' & Ht & _ & [Hp|Hp]).
    + eapply authenticate_session in Ha as (id & r & m & Hl & Hm & -> & _); [|done..]. exists token. split; [done|]. left. eauto 10.
    + eapply authenticate_key in Ha as (id & k & m & Hl & Ho & Hm & -> & _); [|done..]. exists token. split; [done|]. right. eauto 10.
  - intros (token & Ht & [(Hp & id & r & m & Hl & Hm & ->)|(Hp & id & k & m & Hl & Ho & Hm & ->)]).
    + exists s. split; [|by left]. eapply authenticate_session; [done..|]. eauto 10.
    + eexists. split; [|right; by eexists]. eapply authenticate_key; [done..|]. eauto 10.
Qed.
End principals.

(** ** What a sign-in hands out *)

Definition graphic (s : string) : bool := str_all (λ a, negb (not_graphic a)) s.
(** The random identifiers are visible text. *)
Definition uuids_graphic (ev : Env) : Prop := ∀ i, graphic (ev_uuid ev i) = true.

Section issued.
Context `{!Libraries} (cf : Config).

(** The access token [tok] is that of a live session of [u] in [o], of which [u]
    is a member. *)
Definition grants (s : Site) (u o tok : string) (expires : Z) (m : Membership) : Prop :=
  ∃ d id r, si_store s = Some d ∧ secrets_unique d ∧ starts_with "nss_" tok = true ∧ graphic tok = true
    ∧ dr_sessions d !! id = Some r ∧ bs_access_token_hash r = hash_secret tok ∧ bs_revoked_at r = None
    ∧ bs_access_expires_at r = expires ∧ bs_user_id r = u ∧ bs_organization_id r = o ∧ membership d o u = Some m.

Lemma grants_authenticates s u o tok expires m ev headers :
  grants s u o tok expires m → headers !! "authorization" = Some ("Bearer " +:+ tok) → headers !! "x-organization-id" = None →
  (ev_now ev 0 < expires)%Z →
  ∃ c, authenticate ev headers None s = (Next c, s) ∧ pc_user_id (ac_principal c) = Some u
    ∧ pc_organization_id (ac_principal c) = o ∧ pc_role (ac_principal c) = mm_role m.
Proof.
  intros (d & id & r & Hd & Hu & Hp & Hg & Hr & Hh & Hn & <- & <- & <- & Hm) Ha Ho He.
  assert (Hw : requested_organization headers None = None) by (unfold requested_organization; by rewrite Ho).
  exists (session_context id r (bs_organization_id r) m). split; [|done].
  eapply (authenticate_session ev headers None s d tok); [|done..|].
  - rewrite Ha. apply bearer_token_round_trip; [|done]. by intros ->.
  - exists id, r, m. rewrite Hw. done.
Qed.

Lemma grants_audit s s' u o tok expires m :
  grants s u o tok expires m → (s' = s ∨ ∃ d rows, si_store s = Some d ∧ s' = with_store s (Some (set_audit d rows))) →
  grants s' u o tok expires m.
Proof.
  intros (d & id & r & Hd & Hu & Hrest) [->|(d' & rows & Hd' & ->)]; [by exists d, id, r|].
  assert (d' = d) as -> by congruence. exists (set_audit d rows), id, r. split; [done|]. split; [by destruct Hu|]. exact Hrest.
Qed.

Lemma generated_access_graphic u1 u2 :
  graphic u1 = true → graphic u2 = true → graphic (gs_plaintext (generate_secret "nss" u1 u2)) = true.
Proof.
  intros H1 H2. unfold graphic in *. cbn [gs_plaintext generate_secret].
  rewrite !str_all_app, H1, H2. done.
Qed.

Lemma issue_session_Next ev k t headers u o s tok s' d :
  issue_session cf ev k t headers u o s = (Next tok, s') → si_store s = Some d → secrets_unique d → uuids_graphic ev →
  ∃ d', s' = with_store s (Some d') ∧ (∃ ss, d' = set_sessions d ss) ∧ is_Some (dr_memberships d !! (o, u))
    ∧ ∀ m, membership d o u = Some m → grants s' u o (gs_plaintext (st_access tok)) (st_access_expires_at tok) m.
Proof.
  unfold issue_session. intros Hi Hd Hu Hg. inv_next.
  match goal with H : create_session ?d0 ?i = Ok ?d' |- _ =>
    pose proof (run_op_unique d0 (AoCreateSession i) Hu) as Hu'; cbn [run_account_op] in Hu'; rewrite H in Hu';
    cbn [committed'] in Hu'; apply create_session_Ok in H as (_ & Hmem & _ & _ & ->) end.
  eexists. split; [done|]. split; [by eexists|]. split; [exact Hmem|]. intros m Hm.
  eexists _, _, (session_row _). split; [done|]. split; [exact Hu'|]. split; [apply prefix_app; by eexists|].
  split; [by apply generated_access_graphic|]. cbn [dr_sessions set_sessions]. rewrite lookup_insert_eq. split; [reflexivity|].
  split_and!; done.
Qed.

Lemma memberships_for_user_elem d u m : m ∈ memberships_for_user d u → membership d (mm_organization_id m) u = Some m.
Proof.
  unfold memberships_for_user. rewrite merge_sort_Permutation, list_elem_of_omap.
  intros ([[o v] row] & Hin & Hv). cbn in Hv. destruct (String.eqb_spec v u) as [->|]; [|done].
  apply elem_of_map_to_list in Hin. unfold membership_view in Hv.
  destruct (dr_organizations d !! o) as [og|] eqn:Ho; simplify_eq/=.
  unfold membership. rewrite Hin. cbn. unfold membership_view. by rewrite Ho.
Qed.

Lemma signed_in_organization_Some wanted l o :
  signed_in_organization wanted l = Some o → ∃ m, m ∈ l ∧ mm_organization_id m = o.
Proof.
  unfold signed_in_organization. intros (m & Hm & ->)%fmap_Some. exists m. split; [|done].
  destruct (wanted ≫= _) as [m'|] eqn:Hf; simplify_eq.
  - destruct wanted as [w|]; [|done]. cbn in Hf. apply find_some in Hf as [Hin _]. by apply list_elem_of_In.
  - by apply head_Some_elem_of.
Qed.

Lemma insert_header_body name value r : rp_body (insert_header name value r) = rp_body r.
Proof. unfold insert_header. by destruct (header_value value). Qed.

Lemma auth_response_body status user o tok :
  rp_body (auth_response cf status user o tok)
  = AuthReply (mkAuthBody (gs_plaintext (st_access tok)) (st_access_expires_at tok) (st_refresh_expires_at tok)
                 (gs_plaintext (st_csrf tok)) (public_user user) o).
Proof. unfold auth_response, session_cookies, append_cookie. by rewrite !insert_header_body. Qed.
End issued.

(** ** Password sign-in *)

Section passwords.
Context `{!Libraries} (cf : Config) (ev : Env).

Lemma verify_password_async_true failure pw stored :
  verify_password_async failure pw stored = true → ∃ h, stored = Some h ∧ verify_password pw h = true.
Proof. unfold verify_password_async, with_password_slot. destruct failure, stored; naive_solver. Qed.

(** The right password: the account's lock is cleared and a session issued. *)
Lemma login_accepted_Next rid headers peer key user wanted s r s' d :
  login_accepted cf ev rid headers peer key user wanted s = (Next r, s') → si_store s = Some d → secrets_unique d →
  uuids_graphic ev →
  ∃ m b, rp_body r = AuthReply b ∧ ab_user b = public_user user
    ∧ membership d (ab_current_organization_id b) (u_id user) = Some m
    ∧ grants s' (u_id user) (ab_current_organization_id b) (ab_access_token b) (ab_access_expires_at b) m.
Proof.
  unfold login_accepted, reset_limit. intros Hl Hd Hu Hg. inv_next.
  match goal with H : signed_in_organization _ _ = Some _ |- _ =>
    apply signed_in_organization_Some in H as (m & Hm%memberships_for_user_elem & <-) end.
  match goal with H : issue_session _ _ _ _ _ _ _ ?s0 = _ |- _ =>
    eapply (issue_session_Next cf ev _ _ _ _ _ s0) in H as (d' & -> & _ & _ & Hgr); [|done|by destruct Hu|done] end.
  match goal with H : audit _ _ _ _ _ _ _ _ _ _ _ _ = _ |- _ => apply audit_Next in H as Haud end.
  eexists m, _. rewrite auth_response_body. split; [done|]. split; [done|]. split; [exact Hm|].
  eapply grants_audit; [apply Hgr; exact Hm|exact Haud].
Qed.

Lemma login_Next headers peer request s r s' d :
  login cf ev headers peer request s = (Next r, s') → si_store s = Some d →
  ∃ user l, user_by_email d (lr_email request) = Some user ∧ u_status user = "active"
    ∧ login_lock_until d (u_id user) (ev_now ev 0) = None
    ∧ (∃ h, u_password_hash user = Some h ∧ verify_password (lr_password request) h = true)
    ∧ login_accepted cf ev (with_id ev headers) headers peer (hash_secret (to_ascii_lowercase (trim (lr_email request)))) user
        (lr_organization_id request) (with_limiter s l) = (Next r, s').
Proof.
  unfold login, limits, limit_address. intros Hl Hd. inv_next.
  match goal with H : si_store (with_limiter _ _) = Some _ |- _ => cbn in H end. simplify_eq.
  destruct (login_lock_until _ _ _) eqn:Hlock; [done|]. inv_next.
  match goal with H : user_by_email _ _ = Some ?u |- _ => rename H into Hu; rename u into user end.
  rewrite Hu in Hl. cbn in Hl.
  destruct (negb (String.eqb (u_status user) "active") || _) eqn:Hok.
  - exfalso. unfold login_denied in Hl. inv_next. destruct (record_failed_login _ _ _ _ _) as [locked d1]. by inv_next.
  - apply orb_false_iff in Hok as [Hact%negb_false_iff%String.eqb_eq Hpw%negb_false_iff].
    apply verify_password_async_true in Hpw. eexists user, _. split_and!; try done.
Qed.

(** A password sign-in that succeeds was made with a password that verifies
    against the stored hash of an active account that is not locked, and hands out
    an access token that, until it expires, authenticates as that account in one of
    its organizations with its current role. *)
Theorem password_sign_in_sound headers peer request s r s' d :
  login cf ev headers peer request s = (Next r, s') → si_store s = Some d → secrets_unique d → uuids_graphic ev →
  ∃ user h m b, user_by_email d (lr_email request) = Some user ∧ u_password_hash user = Some h
    ∧ verify_password (lr_password request) h = true ∧ u_status user = "active"
    ∧ login_lock_until d (u_id user) (ev_now ev 0) = None
    ∧ rp_body r = AuthReply b ∧ ab_user b = public_user user
    ∧ membership d (ab_current_organization_id b) (u_id user) = Some m
    ∧ ∀ ev2 headers2, headers2 !! "authorization" = Some ("Bearer " +:+ ab_access_token b) →
        headers2 !! "x-organization-id" = None → (ev_now ev2 0 < ab_access_expires_at b)%Z →
        ∃ c, authenticate ev2 headers2 None s' = (Next c, s') ∧ pc_user_id (ac_principal c) = Some (u_id user)
          ∧ pc_organization_id (ac_principal c) = ab_current_organization_id b ∧ pc_role (ac_principal c) = mm_role m.
Proof.
  intros Hl Hd Hu Hg. destruct (login_Next _ _ _ _ _ _ _ Hl Hd) as (user & l & Hus & Hact & Hlock & (h & Hh & Hpw) & Ha).
  eapply login_accepted_Next in Ha as (m & b & Hb & Hub & Hm & Hgr); [|done..].
  exists user, h, m, b. split_and!; [done..|]. intros ev2 headers2 H1 H2 H3. by eapply grants_authenticates.
Qed.
End passwords.

(** ** Guessing passwords *)

Section guessing.
Context `{!Libraries} (cf : Config).

(** The denied sign-ins of an account, from the audit log. *)
Definition is_denied (u : string) (a : AuditRow) : bool :=
  String.eqb (au_action a) "auth.login" && String.eqb (au_outcome a) "denied" && bool_decide (au_actor_id a = Some u).
Definition denied (u : string) (d : Directory) : nat := length (List.filter (is_denied u) (dr_audit d)).

(** The account's row and its denials are as they were. *)
Definition unaffected (u : string) (d d' : Directory) : Prop :=
  dr_users d' !! u = dr_users d !! u ∧ denied u d' = denied u d.

Lemma denied_audit u d row : denied u (Accounts.audit d row) = (denied u d + if is_denied u row then 1 else 0)%nat.
Proof.
  unfold denied. cbn [dr_audit Accounts.audit set_audit]. rewrite List.filter_app, length_app. cbn [List.filter].
  by destruct (is_denied u row).
Qed.

Lemma record_failed_login_other d v now m l u :
  u ≠ v → dr_users (record_failed_login d v now m l).2 !! u = dr_users d !! u.
Proof.
  intros Hne. unfold record_failed_login. repeat case_match; try done; cbn [snd set_users dr_users]; by rewrite lookup_insert_ne.
Qed.
Lemma record_failed_login_audit d v now m l : dr_audit (record_failed_login d v now m l).2 = dr_audit d.
Proof. unfold record_failed_login. by repeat case_match. Qed.

Lemma login_denied_any ev rid user now s f s' d u :
  login_denied ev rid user now s = (f, s') → si_store s = Some d →
  ∃ d', si_store s' = Some d' ∧
    (u ≠ u_id user ∧ unaffected u d d'
     ∨ u = u_id user ∧ dr_users d' = dr_users (record_failed_login d u now 10 (15 * 60)).2 ∧ denied u d' = S (denied u d)).
Proof.
  unfold login_denied. intros Hl Hd.
  rewrite (bind_store _ _ _ d Hd) in Hl. destruct (record_failed_login d (u_id user) now 10 (15 * 60)) as [locked d1] eqn:Hr.
  assert (Hd1 : d1 = (record_failed_login d (u_id user) now 10 (15 * 60)).2) by by rewrite Hr.
  inv_any;
    match goal with H : audit _ _ _ _ _ _ _ _ _ _ _ _ = _ |- _ => apply audit_any in H as [? [[? ->]|(d2 & text & Hd2 & ->)]] end;
    simplify_eq/=.
  eexists. split; [done|]. destruct (decide (u = u_id user)) as [->|Hne]; [right|left].
  - split_and!; [done..|]. rewrite denied_audit. unfold is_denied. cbn. rewrite bool_decide_true by done.
    unfold denied. rewrite record_failed_login_audit. lia.
  - split; [done|]. split.
    + by apply record_failed_login_other.
    + rewrite denied_audit. unfold is_denied. cbn. rewrite bool_decide_false by congruence.
      unfold denied. rewrite record_failed_login_audit. lia.
Qed.

Lemma issue_session_any ev k t headers v o s r s' d :
  issue_session cf ev k t headers v o s = (r, s') → si_store s = Some d →
  ∃ d', si_store s' = Some d' ∧ dr_users d' = dr_users d ∧ dr_audit d' = dr_audit d.
Proof.
  unfold issue_session. intros Hi Hd. inv_any; try (by eexists);
    match goal with H : execute_unit _ _ _ = _ |- _ => apply execute_unit_any in H as [_ [->|(d' & Hc & ->)]] end;
    try (by eexists); apply create_session_Ok in Hc as (_ & _ & _ & _ & ->); simplify_eq; by eexists.
Qed.

Lemma login_accepted_any ev rid headers peer key user wanted s r s' d u :
  login_accepted cf ev rid headers peer key user wanted s = (r, s') → si_store s = Some d → u ≠ u_id user →
  ∃ d', si_store s' = Some d' ∧ unaffected u d d'.
Proof.
  unfold login_accepted, reset_limit. intros Hl Hd Hne. rewrite (bind_store _ _ _ d Hd) in Hl.
  assert (Hclear : ∀ d', dr_users d' = dr_users (clear_failed_logins d (u_id user)) → dr_audit d' = dr_audit d → unaffected u d d').
  { intros d' Hu Ha. split; [|unfold denied; by rewrite Ha]. rewrite Hu. cbn. by rewrite lookup_alter_ne. }
  inv_any; try (by exists d);
    match goal with H : issue_session _ _ _ _ _ _ _ _ = _ |- _ =>
      eapply issue_session_any in H as (d' & Hd' & Hus & Hau); [|done] end.
  2-3: exists d'; split; [done|]; by apply Hclear.
  match goal with H : audit _ _ _ _ _ _ _ _ _ _ _ _ = _ |- _ => apply audit_any in H as [_ [[? ->]|(d2 & text & Hd2 & ->)]] end;
    simplify_eq.
  eexists. split; [done|]. destruct (Hclear d2 Hus Hau) as [H1 H2]. split; [exact H1|]. rewrite denied_audit, H2.
  unfold is_denied. cbn. lia.
Qed.

(** A sign-in request of somebody who does not have the account's password. *)
Inductive guess (u : string) (lo hi : Z) : Site → Site → Prop :=
| guess_login ev headers peer request s f s' :
    (lo ≤ ev_now ev 0 < hi)%Z →
    (∀ d user h, si_store s = Some d → user_by_email d (lr_email request) = Some user → u_id user = u →
       u_password_hash user = Some h → verify_password (lr_password request) h = false) →
    login cf ev headers peer request s = (f, s') → guess u lo hi s s'.

Lemma guess_step u lo hi s s' d :
  guess u lo hi s s' → si_store s = Some d →
  ∃ d', si_store s' = Some d' ∧
    (unaffected u d d'
     ∨ ∃ now, (lo ≤ now < hi)%Z ∧ login_lock_until d u now = None
         ∧ dr_users d' = dr_users (record_failed_login d u now 10 (15 * 60)).2 ∧ denied u d' = S (denied u d)).
Proof.
  intros [ev headers peer request s0 f s1 Hnow Hpw Hl] Hd.
  assert (Hsame : ∀ s2, si_store s2 = Some d → ∃ d', si_store s2 = Some d' ∧ (unaffected u d d' ∨ ∃ now, (lo ≤ now < hi)%Z
    ∧ login_lock_until d u now = None ∧ dr_users d' = dr_users (record_failed_login d u now 10 (15 * 60)).2 ∧ denied u d' = S (denied u d))).
  { intros s2 H2. exists d. split; [done|]. by left. }
  unfold login, limits, limit_address in Hl. inv_any; try (by apply Hsame).
  all: match goal with H : si_store (with_limiter _ _) = Some _ |- _ => cbn in H end; simplify_eq; try (by apply Hsame).
  match goal with H : user_by_email _ _ = Some ?w |- _ => rename H into Hu; rename w into user end.
  destruct (login_lock_until _ _ _) eqn:Hlock in *; [done|].
  rewrite Hu in Hl. cbn [mbind option_bind] in Hl.
  destruct (negb (String.eqb (u_status user) "active") || _) eqn:Hok.
  - eapply (login_denied_any _ _ _ _ _ _ _ _ u) in Hl as (d' & Hd' & Hcase); [|cbn; eassumption].
    destruct Hcase as [(_ & Hun)|(-> & Hus & Hden)].
    + exists d'. split; [done|]. by left.
    + exists d'. split; [done|]. right. exists (ev_now ev 0). done.
  - apply orb_false_iff in Hok as [_ (h & Hh & Hv)%negb_false_iff%verify_password_async_true].
    assert (Hne : u ≠ u_id user).
    { intros ->. assert (verify_password (lr_password request) h = false) by (eapply Hpw; eauto). congruence. }
    eapply (login_accepted_any _ _ _ _ _ _ _ _ _ _ _ u) in Hl as (d' & Hd' & Hun);
      [|cbn; eassumption|done]. exists d'. split; [done|]. by left.
Qed.

(** What the row of the account says after [n] guesses before [hi]. *)
Definition guessed (n : nat) (hi : Z) (x : UserRow) : Prop :=
  match us_locked_until x with
  | None => (Z.of_nat n ≤ us_failed_login_attempts x ≤ 9)%Z
  | Some until => n = 0%nat ∨ (hi ≤ until)%Z ∧ (n ≤ 10)%nat
  end.

Lemma guessed_bound n hi x : guessed n hi x → (n ≤ 10)%nat.
Proof. unfold guessed. case_match; lia. Qed.

Lemma record_failed_guessed d u now lo n x :
  dr_users d !! u = Some x → login_lock_until d u now = None → (lo ≤ now < lo + 900000)%Z → (lo + 900000 ≤ i64_max)%Z →
  guessed n (lo + 900000) x →
  ∃ x', dr_users (record_failed_login d u now 10 (15 * 60)).2 !! u = Some x' ∧ guessed (S n) (lo + 900000) x'.
Proof.
  intros Hx Hlock Hnow Hmax Hg. unfold login_lock_until in Hlock. rewrite Hx in Hlock. cbn in Hlock.
  unfold record_failed_login. rewrite Hx. unfold guessed in Hg.
  assert (Hun : match us_locked_until x with Some until => (now <? until)%Z | None => false end = false).
  { destruct (us_locked_until x) as [until|]; [|done]. cbn in Hlock. by destruct (now <? until)%Z. }
  rewrite Hun. set (attempts := (match us_locked_until x with Some _ => 0 | None => us_failed_login_attempts x end + 1)%Z).
  assert (Hat : (Z.of_nat (S n) ≤ attempts ≤ 10)%Z).
  { subst attempts. destruct (us_locked_until x) as [until|]; [|lia]. destruct Hg as [->|[Hu _]]; [lia|].
    apply Z.ltb_ge in Hun. lia. }
  destruct (Z.leb_spec (Z.max 10 1) attempts); cbn [snd set_users dr_users]; rewrite lookup_insert_eq; eexists; (split; [done|]);
    unfold guessed; cbn [us_locked_until set_lockout us_failed_login_attempts].
  - right. split; [|lia]. unfold i64_saturating_add, i64_saturating_mul, i64_min, i64_max in *. lia.
  - lia.
Qed.

(** C14: Whoever does not have an account's password gets at most ten guesses in
    any fifteen minutes: over any sequence of sign-in requests whose clock
    readings lie within fifteen minutes of each other, from any addresses, at most
    ten are examined and denied; the others are refused before the password
    counts. *)
Theorem guesses_bounded u lo s s' d d' x :
  rtc (guess u lo (lo + 900000)) s s' → (lo + 900000 ≤ i64_max)%Z →
  si_store s = Some d → si_store s' = Some d' → dr_users d !! u = Some x → (0 ≤ us_failed_login_attempts x ≤ 9)%Z →
  (denied u d' ≤ denied u d + 10)%nat.
Proof.
  intros Hrun Hmax Hd Hd' Hx Hf.
  assert (Hinv : ∃ d2 x2 n, si_store s' = Some d2 ∧ dr_users d2 !! u = Some x2 ∧ guessed n (lo + 900000) x2
                   ∧ denied u d2 = (denied u d + n)%nat).
  { assert (H0 : ∃ d2 x2 n, si_store s = Some d2 ∧ dr_users d2 !! u = Some x2 ∧ guessed n (lo + 900000) x2
                   ∧ denied u d2 = (denied u d + n)%nat).
    { exists d, x, 0%nat. split_and!; [done..| |lia]. unfold guessed. case_match; [by left|lia]. }
    clear Hd Hd' Hx Hf x d'. revert H0. induction Hrun as [|s1 s2 s3 Hstep _ IH]; [done|].
    intros (d2 & x2 & n & Hd2 & Hx2 & Hg & Hn). apply IH.
    destruct (guess_step _ _ _ _ _ _ Hstep Hd2) as (d3 & Hd3 & [[Hu Hden]|(now & Hnow & Hlock & Hu & Hden)]).
    - exists d3, x2, n. split_and!; [done|congruence|done|lia].
    - destruct (record_failed_guessed d2 u now lo n x2) as (x3 & Hx3 & Hg3); [done..|].
      exists d3, x3, (S n). rewrite Hu. split_and!; [done..|lia]. }
  destruct Hinv as (d2 & x2 & n & Hd2 & _ & Hg%guessed_bound & Hn). simplify_eq. lia.
Qed.
End guessing.

(** ** Federated sign-in *)

Section federated.
Context `{!Libraries} (cf : Config) (ev : Env).

(** The session behind the cookies. *)
Definition session_of (d : Directory) (tokens : SessionTokens) (u : string) : Prop :=
  ∃ r, dr_sessions d !! st_session_id tokens = Some r ∧ bs_user_id r = u ∧ bs_revoked_at r = None
    ∧ bs_refresh_token_hash r = hash_secret (gs_plaintext (st_refresh tokens)).

Lemma issue_session_inserts k t headers u o s tok s' d :
  issue_session cf ev k t headers u o s = (Next tok, s') → si_store s = Some d →
  ∃ ss, s' = with_store s (Some (set_sessions d ss)) ∧ session_of (set_sessions d ss) tok u.
Proof.
  unfold issue_session. intros Hi Hd. inv_next.
  match goal with H : create_session _ _ = Ok _ |- _ => apply create_session_Ok in H as (_ & _ & _ & _ & ->) end.
  eexists. split; [done|]. eexists. cbn [dr_sessions set_sessions]. rewrite lookup_insert_eq. split; [reflexivity|]. done.
Qed.

Lemma finish_oauth_session_Next k t headers rid user outcome path s r s' d p subject :
  finish_oauth_session cf ev k t headers rid user outcome path s = (Next r, s') → si_store s = Some d →
  linked d p subject (u_id user) →
  u_status user = "active" ∧ ∃ tokens d', si_store s' = Some d' ∧ linked d' p subject (u_id user)
    ∧ dr_authorizations d' = dr_authorizations d ∧ session_of d' tokens (u_id user)
    ∧ r = session_cookies cf (insert_header "location" path (mkResponse 303 [] Empty)) tokens.
Proof.
  unfold finish_oauth_session. intros Hf Hd Hl. inv_next.
  match goal with H : negb (String.eqb _ "active") = false |- _ => apply negb_false_iff, String.eqb_eq in H end. split; [done|].
  match goal with H : issue_session _ _ _ _ _ _ _ _ = (Next ?x, _) |- _ =>
    eapply issue_session_inserts in H as (ss & Hs & Hrow); [|eassumption]; exists x end. subst.
  match goal with H : audit _ _ _ _ _ _ _ _ _ _ _ _ = _ |- _ => apply audit_any in H as [_ [[? _]|(d2 & text & Hd2 & ->)]] end; [done|].
  simplify_eq/=. eexists. split; [reflexivity|]. split_and!; [by eapply linked_same, Hl|done..].
Qed.

Section sign_in.
Context (number_text : Number → string) (up : Upstream).

Lemma admit_identity_Next headers rid p a identity s r s' d :
  admit_identity cf ev headers rid p a identity s = (Next r, s') → si_store s = Some d →
  ∃ user tokens d', u_status user = "active" ∧ si_store s' = Some d' ∧ linked d' p (fi_subject identity) (u_id user)
    ∧ (bc_registration_enabled (cf_browser cf) = false → linked d p (fi_subject identity) (u_id user))
    ∧ dr_authorizations d' = dr_authorizations d ∧ session_of d' tokens (u_id user)
    ∧ r = session_cookies cf (insert_header "location" (oa_redirect_path a) (mkResponse 303 [] Empty)) tokens.
Proof.
  unfold admit_identity. intros Ha Hd. rewrite (bind_store _ _ _ d Hd) in Ha.
  destruct (bc_registration_enabled (cf_browser cf)); cbn [negb] in Ha; inv_next.
  - match goal with H : resolve_federated_identity _ _ _ _ _ _ _ _ _ = Ok (?x, ?d2) |- _ =>
      destruct x as [user outcome]; rename H into Hr; rename d2 into d1 end.
    destruct (resolve_links _ _ _ _ _ _ _ _ _ _ _ _ Hr) as [Hl _].
    eapply finish_oauth_session_Next in Ha as (Hact & tokens & d' & Hd' & Hl' & Hau & Hs & ->); [|done|exact Hl].
    exists user, tokens, d'. split_and!; try done. rewrite Hau. clear -Hr.
    apply resolve_Ok in Hr as [(_ & _ & ->)|[(_ & _ & _ & f & d2 & _ & _ & Hi & ->)|(_ & _ & _ & d2 & d3 & H1 & H2 & H3 & _)]].
    + done.
    + by apply insert_identity_Ok in Hi as [_ ->].
    + apply insert_identity_Ok in H3 as [_ ->]. apply insert_user_Ok in H1 as (_ & _ & ->). unfold insert_organization in H2. by inv_ok.
  - match goal with H : user_by_federated_identity _ _ _ = Some ?u |- _ => rename u into user; rename H into Hu end.
    assert (Hl : linked d p (fi_subject identity) (u_id user)) by (apply linked_by_identity; eauto).
    eapply finish_oauth_session_Next in Ha as (Hact & tokens & d' & Hd' & Hl' & Hau & Hs & ->); [|done|exact Hl].
    by exists user, tokens, d'.
Qed.

(** C15: A federated sign-in that succeeds answers a sign-in state this Hub issued
    for that very provider, which had not expired and was never used before and is
    used up now; the provider asserted the identity with a verified address of an
    allowed domain; with registration closed the identity was linked before; and
    the cookies are those of a session of the active account the identity is
    linked to. *)
Theorem federated_sign_in_sound headers p query s r s' d :
  oauth_callback cf ev number_text up headers p query s = (Next r, s') → si_store s = Some d →
  ∃ state code a provider oauth identity user tokens d',
    oq_state query = Some state ∧ oq_code query = Some code ∧ cf_oauth_providers cf !! p = Some provider ∧ cf_oauth cf = Some oauth
    ∧ dr_authorizations d !! state = Some a ∧ oa_consumed_at a = None ∧ (ev_now ev 0 < oa_expires_at a)%Z ∧ oa_provider a = p
    ∧ exchange_and_fetch_identity number_text up provider (redirect_uri oauth p) code (oa_pkce_verifier a) = Ok identity
    ∧ fi_email_verified identity = true ∧ allows_email provider (fi_email identity) = true
    ∧ (bc_registration_enabled (cf_browser cf) = false → linked d p (fi_subject identity) (u_id user))
    ∧ u_status user = "active" ∧ si_store s' = Some d' ∧ linked d' p (fi_subject identity) (u_id user)
    ∧ dr_authorizations d' !! state = Some (consume_row (ev_now ev 0) a) ∧ session_of d' tokens (u_id user)
    ∧ r = session_cookies cf (insert_header "location" (oa_redirect_path a) (mkResponse 303 [] Empty)) tokens.
Proof.
  unfold oauth_callback. intros Hc Hd. inv_next. destruct (oq_error query); [done|].
  match goal with H : oq_code query = Some ?c |- _ => rename c into code end.
  match goal with H : oq_state query = Some ?c |- _ => rename c into state; rename H into Hstate end.
  destruct (consume_oauth_authorization _ _ state) as [[a|] d1] eqn:Hcon; inv_next. simplify_eq.
  apply consume_Some in Hcon as (Ha & Hn & Hl & ->).
  eapply admit_identity_Next in Hc as (user & tokens & d' & Hact & Hd' & Hlk & Hreg & Hau & Hs & ->); [|done].
  repeat match goal with H : negb _ = false |- _ => apply negb_false_iff in H end.
  match goal with H : String.eqb _ p = true |- _ => apply String.eqb_eq in H end.
  exists state, code. do 4 eexists. exists user, tokens, d'. split_and!; try eassumption; try done.
  rewrite Hau. cbn. by rewrite lookup_insert_eq.
Qed.
End sign_in.
End federated.

(** ** An installation *)

Section examples.
#[local] Existing Instance plain_libraries.

Fixpoint tally (n : nat) : string := match n with O => "u" | S n => String "a" (tally n) end.
Lemma tally_graphic n : graphic (tally n) = true.
Proof. induction n as [|n IH]; [done|]. exact IH. Qed.

(** The [i]th reading of the clock at [now], identifiers that differ by [salt]. *)
Definition day (now : Z) (salt : nat) : Env :=
  mkEnv (λ i, now + Z.of_nat i)%Z (λ i, now * 1000000 + Z.of_nat i)%Z (λ i, tally (salt + i)) None (λ _, None) map_to_list.

Definition home_provider : Provider :=
  mkProvider "home" Oidc "client" "secret" "https://id.example/a" "https://id.example/t" "https://id.example/u" ["openid"]
    ["example.com"].
Definition home : Config :=
  mkConfig (mkBrowserConfig true true true 900 2592000 []) false
    (Some (mkOauthConfig "https://hub.example" [])) {[ "home" := home_provider ]}.

(** Ann has an account with a password, a key and a sign-in under way. *)
Definition ann_rows : Directory :=
  run_account_ops no_rows
    [AoCreateAccount 10 "ann" "org" "ann@example.com" (Some "$correct horse") "Ann's" None;
     AoCreateApiKey (mkNewApiKey "k" "org" "ann" "laptop" "nsk_" (hash_secret "nsk_key") "[]" 22 None);
     AoCreateAuthorization 23 "state" "home" "verifier" "/jobs" 600].
Lemma ann_rows_unique : secrets_unique ann_rows.
Proof. apply run_ops_unique, no_rows_unique. Qed.

Definition ann_site : Site :=
  mkSite (Some ann_rows) (RateLimiter_new Limits_default) SessionRegistry_default HubData_default ReadCache_default ∅.
Definition key_headers : Headers := {[ "authorization" := "Bearer nsk_key" ]}.

Lemma authenticated_iff_witness :
  ∃ c s', authenticate (day 1000 0) key_headers None ann_site = (Next c, s') ∧ pc_role (ac_principal c) = Owner.
Proof.
  assert (Hd : si_store ann_site = Some ann_rows) by reflexivity.
  set (k := mkApiKeyRow "org" "ann" "laptop" "nsk_" (hash_secret "nsk_key") "[]" 22 None None None).
  set (c := key_context "k" k (mkMembership "org" "ann" Owner "Ann's")).
  destruct (proj2 (authenticated_iff (day 1000 0) key_headers None ann_site ann_rows c Hd ann_rows_unique)) as (s' & Hs & _).
  - exists "nsk_key". split; [vm_compute; reflexivity|]. right. split; [reflexivity|].
    exists "k", k, (mkMembership "org" "ann" Owner "Ann's"). split; [split; [vm_compute; reflexivity|]|].
    + split; [reflexivity|]. split; [reflexivity|intros e; discriminate].
    + split; [vm_compute; discriminate|]. split; [vm_compute; reflexivity|]. reflexivity.
  - exists c, s'. split; [exact Hs|reflexivity].
Defined.

Definition is_next {X A} (f : Flow X A) : bool := match f with Next _ => true | _ => false end.

Definition ann_signs_in := login home (day 1000 0) ∅ (Some "192.0.2.1") (mkLoginRequest "Ann@example.com" "correct horse" None) ann_site.

Lemma password_sign_in_sound_witness :
  ∃ r s' b, ann_signs_in = (Next r, s') ∧ rp_body r = AuthReply b ∧ pu_id (ab_user b) = "ann".
Proof.
  assert (Hok : is_next ann_signs_in.1 = true) by (vm_compute; reflexivity).
  destruct ann_signs_in as [[r| |] s'] eqn:Hr; [clear Hok|discriminate Hok..].
  destruct (password_sign_in_sound home (day 1000 0) _ _ _ _ _ _ ann_rows Hr eq_refl ann_rows_unique (λ i, tally_graphic _))
    as (user & h & m & b & Hu & _ & _ & _ & _ & Hb & Hab & _).
  exists r, s', b. split; [reflexivity|]. split; [exact Hb|]. rewrite Hab.
  assert (He : u_id <$> user_by_email ann_rows "Ann@example.com" = Some "ann") by (vm_compute; reflexivity).
  cbn [lr_email] in Hu. rewrite Hu in He. injection He as He. exact He.
Defined.

(** One wrong guess. *)
Definition guess_once := login home (day 1000 0) ∅ (Some "192.0.2.1") (mkLoginRequest "ann@example.com" "wrong" None) ann_site.

Lemma guesses_bounded_witness :
  ∃ d', si_store guess_once.2 = Some d' ∧ (denied "ann" d' ≤ denied "ann" ann_rows + 10)%nat.
Proof.
  assert (Hd : is_Some (si_store guess_once.2)) by (vm_compute; eexists; reflexivity). destruct Hd as [d' Hd'].
  assert (Hx : is_Some (dr_users ann_rows !! "ann")) by (vm_compute; eexists; reflexivity). destruct Hx as [x Hx].
  exists d'. split; [exact Hd'|].
  apply (guesses_bounded home "ann" 1000 ann_site guess_once.2 ann_rows d' x); [|vm_compute; discriminate|reflexivity|exact Hd'|exact Hx|].
  - eapply rtc_l; [|apply rtc_refl].
    eapply (guess_login home "ann" 1000 _ (day 1000 0) ∅ (Some "192.0.2.1") (mkLoginRequest "ann@example.com" "wrong" None) ann_site);
      [vm_compute; split; congruence| |apply surjective_pairing].
    intros d user h [= <-] Hu _ Hh.
    assert (Hp : (user_by_email ann_rows "ann@example.com" ≫= u_password_hash) = Some "$correct horse") by (vm_compute; reflexivity).
    cbn [lr_email] in Hu. rewrite Hu in Hp. cbn in Hp. rewrite Hp in Hh. injection Hh as <-. reflexivity.
  - revert Hx. vm_compute. intros [= <-]. split; discriminate.
Defined.

(** A provider that vouches for Ann's address. *)
Definition home_upstream : Upstream :=
  mkUpstream (λ _ _, Ok (200%Z, "200 OK", Ok "t")) (λ _, Some (mkTokenResponse (Some "t") None None)) (λ _, Err "")
    (λ _ _, Ok (JObject [("sub", JString "7"); ("email", JString "ann@example.com"); ("email_verified", JBool true)]))
    (λ _ _, Err (NotJson "")) (λ _, Err (NotJson "")).
Definition ann_returns :=
  oauth_callback home (day 1000 0) (λ _, "") home_upstream ∅ "home" (mkOauthCallbackQuery (Some "code") (Some "state") None None)
    ann_site.

Lemma federated_sign_in_sound_witness :
  ∃ r s' d', ann_returns = (Next r, s') ∧ si_store s' = Some d' ∧ ∃ u, linked d' "home" "7" u.
Proof.
  assert (Hok : is_next ann_returns.1 = true) by (vm_compute; reflexivity).
  destruct ann_returns as [[r| |] s'] eqn:Hr; [clear Hok|discriminate Hok..].
  destruct (federated_sign_in_sound home (day 1000 0) _ _ _ _ _ _ _ _ ann_rows Hr eq_refl)
    as (state & code & a & provider & oauth & identity & user & tokens & d' & _ & _ & Hp & _ & _ & _ & _ & _ & Hx & _ & _ & _ & _
        & Hd' & Hl & _).
  exists r, s', d'. split; [reflexivity|]. split; [exact Hd'|]. exists (u_id user).
  change (Some home_provider = Some provider) in Hp. injection Hp as <-. cbn in Hx. injection Hx as <-. exact Hl.
Defined.
End examples.
