(* ===== verification/Paging.v ===== *)
(** Lists in pages ([product_api/shared.rs], [hub/jobs.rs] and the [_page]
    statements of the store): the page size, the opaque cursors, and keyset
    queries that fetch one row more than they return.

    A listing is a table, a key and an order of keys; the statements of the store
    and the handlers that cut a page from them are instances.  The order of text
    is the database's collation, of which only a total order is used.

    Main results: a cursor is read back; following the cursors from the first page
    returns every matching row exactly once, in order, whatever the page size. *)

From S2P Require Import Prelude Text Json HubTypes Principal Helpers HubState Store Accounts Transfer Web.
From Stdlib Require Import ZArith Lia Ascii.

(** ** Page sizes and cursors *)

Definition LIST_PAGE_DEFAULT : Z := 50.
Definition LIST_PAGE_MAX : Z := 200.
Definition JOBS_PAGE_DEFAULT : Z := 50.
Definition JOBS_PAGE_MAX : Z := 200.

(** [n.clamp(lo, hi)]. *)
Definition clamp (lo hi n : Z) : Z := if (n <? lo)%Z then lo else if (hi <? n)%Z then hi else n.
Definition page_limit (limit : option Z) : Z := clamp 1 LIST_PAGE_MAX (default LIST_PAGE_DEFAULT limit).
Definition jobs_page_limit (limit : option Z) : Z := clamp 1 JOBS_PAGE_MAX (default JOBS_PAGE_DEFAULT limit).

(** [str::parse::<i64>]. *)
Definition i64_parse (s : string) : option Z :=
  let digits := match s with
                | String a rest => if Ascii.eqb a "-" || Ascii.eqb a "+" then rest else s
                | EmptyString => s
                end in
  let negative := match s with String a _ => Ascii.eqb a "-" | EmptyString => false end in
  if negb (String.eqb digits "") && str_all is_ascii_digit digits then
    let n := Z.of_N (Rfc6901.decimal 0 digits) in
    let n := if negative then Z.opp n else n in
    if bool_decide (i64_min ≤ n ≤ i64_max)%Z then Some n else None
  else None.

(** [parts.join("\0")]. *)
Fixpoint nul_joined (parts : list string) : string :=
  match parts with
  | [] => ""
  | [p] => p
  | p :: ps => p +:+ String nul (nul_joined ps)
  end.

Definition invalid_cursor : HubError := InvalidRequest "cursor is not valid".

Section cursors.
Context `{!Libraries}.

(** [BASE64URL_NOPAD.decode] and [String::from_utf8]. *)
Definition decode_text (cursor : string) : Res HubError string :=
  raw ← ok_or invalid_cursor (base64url_decode cursor);
  if valid_utf8 raw then Ok raw else Err invalid_cursor.

Definition encode_cursor_parts (parts : list string) : string := base64url_encode (nul_joined parts).
Definition decode_cursor_parts (cursor : string) (expected : nat) : Res HubError (list string) :=
  decoded ← decode_text cursor;
  let parts := split_char nul decoded in
  reject_if (negb (length parts =? expected)%nat || existsb (λ p, String.eqb p "") parts) invalid_cursor ;;
  Ok parts.

Definition encode_created_id_cursor (key : Z * string) : string := encode_cursor_parts [pretty key.1; key.2].
Definition decode_created_id_cursor (cursor : string) : Res HubError (Z * string) :=
  parts ← decode_cursor_parts cursor 2;
  created_at ← ok_or invalid_cursor (i64_parse (nth 0 parts ""));
  Ok (created_at, nth 1 parts "").

Definition encode_id_cursor (id : string) : string := encode_cursor_parts [id].
Definition decode_id_cursor (cursor : string) : Res HubError string :=
  parts ← decode_cursor_parts cursor 1; Ok (nth 0 parts "").

Definition encode_device_cursor (key : string * string * string) : string :=
  encode_cursor_parts [key.1.1; key.1.2; key.2].
Definition decode_device_cursor (cursor : string) : Res HubError (string * string * string) :=
  parts ← decode_cursor_parts cursor 3; Ok (nth 0 parts "", nth 1 parts "", nth 2 parts "").

Definition encode_workflow_cursor (key : string * string) : string := encode_cursor_parts [key.1; key.2].
Definition decode_workflow_cursor (cursor : string) : Res HubError (string * string) :=
  parts ← decode_cursor_parts cursor 2; Ok (nth 0 parts "", nth 1 parts "").

Definition encode_job_cursor (key : Z * string) : string := base64url_encode (pretty key.1 +:+ String ":" key.2).
Definition decode_job_cursor (cursor : string) : Res HubError (Z * string) :=
  decoded ← decode_text cursor;
  p ← ok_or invalid_cursor (split_once ":" decoded);
  created_at ← ok_or invalid_cursor (i64_parse p.1);
  Ok (created_at, p.2).
End cursors.

(** ** Keyset queries *)

Section keyset.
Context {A K : Type} (key : A → K) (before : relation K) `{!RelDecision before}.

(** [WHERE key after the cursor]. *)
Definition rows_after (after : option K) (rows : list A) : list A :=
  match after with None => rows | Some k => filter (λ a, before k (key a)) rows end.
(** [ORDER BY]. *)
Definition in_order (a b : A) : Prop := ¬ before (key b) (key a).
#[export] Instance in_order_dec : RelDecision in_order.
Proof. intros a b. unfold in_order. apply _. Defined.
Definition select_page (rows : list A) (limit : Z) (after : option K) : list A :=
  take (Z.to_nat (Z.max limit 1)) (merge_sort in_order (rows_after after rows)).

(** [Vec::pop] of the row that was fetched to learn whether there are more. *)
Definition cut_page (limit : Z) (rows : list A) : list A * option K :=
  if (Z.to_nat limit <? length rows)%nat then let rows := removelast rows in (rows, key <$> last rows) else (rows, None).

Definition page_of (encode : K → string) (page : Z → option K → list A) (limit : Z) (after : option K)
    : list A * option string :=
  let '(items, next) := cut_page limit (page (limit + 1)%Z after) in (items, encode <$> next).

Definition read_cursor (decode : string → Res HubError K) (cursor : option string) : Res HubError (option K) :=
  match cursor with
  | Some c => k ← decode c; Ok (Some k)
  | None => Ok None
  end.

(** A request for [limit] rows of what the statement [page] returns. *)
Definition serve_page (encode : K → string) (decode : string → Res HubError K) (page : Z → option K → list A) (limit : Z)
    (cursor : option string) : Res HubError (list A * option string) :=
  after ← read_cursor decode cursor; Ok (page_of encode page limit after).
End keyset.

(** Following the cursors from [cursor], for at most [n] pages. *)
Fixpoint follow {A} (serve : option string → Res HubError (list A * option string)) (n : nat) (cursor : option string)
    : option (list A) :=
  match n with
  | O => None
  | S n =>
      match serve cursor with
      | Err _ => None
      | Ok (items, None) => Some items
      | Ok (items, Some c) => rest ← follow serve n (Some c); Some (items ++ rest)
      end
  end.

(** ** Numbers and cursors are read back *)

Lemma decimal_pretty_go x s : Rfc6901.decimal 0 (pretty_N_go x s) = Rfc6901.decimal x s.
Proof.
  revert s. induction (N.lt_wf_0 x) as [x _ IH]. intros s. destruct (decide (0 < x)%N) as [Hx|Hx].
  - rewrite pretty_N_go_step by done. rewrite IH by by apply N.div_lt. cbn [Rfc6901.decimal]. f_equal.
    assert (Hd : Rfc6901.digit_value (pretty_N_char (x `mod` 10)) = (x mod 10)%N).
    { assert (Hlt : (x mod 10 < 10)%N) by (apply N.mod_lt; lia). revert Hlt. generalize (x mod 10)%N. intros n Hn.
      do 10 (destruct n as [|n] using N.peano_ind; [done|clear IHn]). lia. }
    rewrite Hd. rewrite (N.div_mod' x 10) at 3. lia.
  - by assert (x = 0%N) as -> by lia.
Qed.

Lemma decimal_pretty (n : N) : Rfc6901.decimal 0 (pretty n) = n.
Proof. unfold pretty, pretty_N. case_decide; [by subst|]. by rewrite decimal_pretty_go. Qed.

Lemma pretty_N_proper (n : N) : str_all is_ascii_digit (pretty n) = true ∧ pretty n ≠ "".
Proof.
  split.
  - unfold pretty, pretty_N. case_decide; [done|]. by apply pretty_N_digits.
  - intros He. pose proof (decimal_pretty n) as Hd. rewrite He in Hd. cbn in Hd. by subst n.
Qed.

Lemma digits_unsigned s :
  str_all is_ascii_digit s = true →
  match s with String a rest => if Ascii.eqb a "-" || Ascii.eqb a "+" then rest else s | EmptyString => s end = s
  ∧ match s with String a _ => Ascii.eqb a "-" | EmptyString => false end = false.
Proof.
  destruct s as [|a s]; [done|]. cbn [str_all]. intros [Ha _]%andb_true_iff.
  destruct (Ascii.eqb_spec a "-") as [->|]; [done|]. by destruct (Ascii.eqb_spec a "+") as [->|].
Qed.

Lemma i64_parse_pretty z : in_i64 z → i64_parse (pretty z) = Some z.
Proof.
  intros Hz. unfold in_i64 in Hz. destruct z as [|p|p]; [done| |].
  - change (pretty (Z.pos p)) with (pretty (N.pos p)). destruct (pretty_N_proper (N.pos p)) as [Hd Hne].
    unfold i64_parse. destruct (digits_unsigned _ Hd) as [-> ->]. apply String.eqb_neq in Hne. rewrite Hne, Hd, decimal_pretty.
    cbn [negb andb]. by rewrite bool_decide_eq_true_2.
  - change (pretty (Z.neg p)) with (String "-" (pretty (N.pos p))). destruct (pretty_N_proper (N.pos p)) as [Hd Hne].
    unfold i64_parse. cbn [Ascii.eqb Bool.eqb]. simpl orb. cbn iota. apply String.eqb_neq in Hne.
    rewrite Hne, Hd, decimal_pretty. cbn [negb andb]. by rewrite bool_decide_eq_true_2.
Qed.

Lemma pretty_no_nul (z : Z) : str_all (λ a, negb (Ascii.eqb a nul)) (pretty z) = true ∧ pretty z ≠ ""
  ∧ str_all (λ a, negb (Ascii.eqb a ":")) (pretty z) = true ∧ str_all (λ a, in_range 0 127 (byte_of a)) (pretty z) = true.
Proof.
  assert (Hd : ∀ f : ascii → bool, (∀ a, is_ascii_digit a = true → f a = true) → f "-"%char = true → str_all f (pretty z) = true).
  { intros f Hf Hm. destruct z as [|p|p]; [by apply (str_all_impl is_ascii_digit)| |].
    - change (pretty (Z.pos p)) with (pretty (N.pos p)). eapply str_all_impl; [apply Hf|apply pretty_N_proper].
    - change (pretty (Z.neg p)) with (String "-" (pretty (N.pos p))). cbn [str_all]. rewrite Hm. simpl.
      eapply str_all_impl; [apply Hf|apply pretty_N_proper]. }
  split_and!.
  - apply Hd; [|done]. intros a. by destruct (Ascii.eqb_spec a nul) as [->|].
  - destruct z as [|p|p]; [done|apply (pretty_N_proper (N.pos p))|done].
  - apply Hd; [|done]. intros a. by destruct (Ascii.eqb_spec a ":") as [->|].
  - apply Hd; [|done]. intros a. unfold is_ascii_digit, in_range. rewrite !andb_true_iff, !N.leb_le. lia.
Qed.

Section round_trips.
Context `{!Libraries, !LibraryLaws}.

(** Text that can be a part of a cursor: every identifier is. *)
Definition part_ok (p : string) : Prop :=
  p ≠ "" ∧ str_all (λ a, negb (Ascii.eqb a nul)) p = true ∧ valid_utf8 p = true.

Lemma pretty_part z : part_ok (pretty (z : Z)).
Proof. destruct (pretty_no_nul z) as (? & ? & _ & ?). split_and!; [done..|]. by apply utf8_ascii. Qed.

Lemma nul_joined_utf8 parts : Forall part_ok parts → parts ≠ [] → valid_utf8 (nul_joined parts) = true.
Proof.
  induction parts as [|p ps IH]; [done|]. intros [(_ & _ & Hp) Hps]%Forall_cons _. destruct ps as [|q ps]; [done|].
  change (nul_joined (p :: q :: ps)) with (p +:+ (String nul "" +:+ nul_joined (q :: ps))).
  apply utf8_app; [done|]. apply utf8_app; [by apply utf8_ascii|by apply IH].
Qed.

Lemma split_nul_joined parts : Forall part_ok parts → parts ≠ [] → split_char nul (nul_joined parts) = parts.
Proof.
  induction parts as [|p ps IH]; [done|]. intros [(_ & Hp & _) Hps]%Forall_cons _. destruct ps as [|q ps].
  - by apply split_char_none.
  - change (nul_joined (p :: q :: ps)) with (p +:+ String nul (nul_joined (q :: ps))).
    rewrite split_char_app_sep by done. by rewrite IH.
Qed.

Lemma decode_text_encoded s : valid_utf8 s = true → decode_text (base64url_encode s) = Ok s.
Proof. intros Hs. unfold decode_text. rewrite base64url_round_trip. cbn. by rewrite Hs. Qed.

Lemma decode_parts_encoded parts n :
  Forall part_ok parts → length parts = S n → decode_cursor_parts (encode_cursor_parts parts) (S n) = Ok parts.
Proof.
  intros Hp Hn. assert (Hne : parts ≠ []) by by destruct parts. unfold decode_cursor_parts, encode_cursor_parts.
  rewrite decode_text_encoded by by apply nul_joined_utf8. cbn [mbind res_bind]. rewrite split_nul_joined by done.
  rewrite Hn, Nat.eqb_refl. cbn [negb orb]. replace (existsb _ parts) with false; [done|].
  symmetry. clear Hn Hne. induction Hp as [|p ps [Hp _] _ IH]; [done|]. simpl. rewrite IH. apply String.eqb_neq in Hp. by rewrite Hp.
Qed.

(** A key whose creation time is a column of 64 bits. *)
Definition created_id_ok (k : Z * string) : Prop := in_i64 k.1 ∧ part_ok k.2.

Lemma created_id_round_trip k : created_id_ok k → decode_created_id_cursor (encode_created_id_cursor k) = Ok k.
Proof.
  intros [Ht Hi]. unfold decode_created_id_cursor, encode_created_id_cursor.
  rewrite decode_parts_encoded; [|by repeat constructor; try apply pretty_part; try apply Hi|done]. cbn [mbind res_bind nth].
  rewrite i64_parse_pretty by done. by destruct k.
Qed.

Lemma id_round_trip id : part_ok id → decode_id_cursor (encode_id_cursor id) = Ok id.
Proof. intros Hi. unfold decode_id_cursor, encode_id_cursor. by rewrite decode_parts_encoded by by repeat constructor; try apply Hi. Qed.

Lemma device_round_trip k :
  part_ok k.1.1 → part_ok k.1.2 → part_ok k.2 → decode_device_cursor (encode_device_cursor k) = Ok k.
Proof.
  intros H1 H2 H3. unfold decode_device_cursor, encode_device_cursor.
  rewrite decode_parts_encoded; [|by constructor; [|constructor; [|constructor; [|constructor]]]|done]. by destruct k as [[]].
Qed.

Lemma workflow_round_trip k : part_ok k.1 → part_ok k.2 → decode_workflow_cursor (encode_workflow_cursor k) = Ok k.
Proof.
  intros H1 H2. unfold decode_workflow_cursor, encode_workflow_cursor.
  rewrite decode_parts_encoded; [|by constructor; [|constructor; [|constructor]]|done]. by destruct k.
Qed.

Lemma job_round_trip k : in_i64 k.1 → valid_utf8 k.2 = true → decode_job_cursor (encode_job_cursor k) = Ok k.
Proof.
  intros Ht Hi. unfold decode_job_cursor, encode_job_cursor. destruct (pretty_no_nul k.1) as (_ & _ & Hc & Ha).
  rewrite decode_text_encoded.
  - cbn [mbind res_bind]. rewrite split_once_app by done. cbn [ok_or mbind res_bind fst snd]. rewrite i64_parse_pretty by done.
    by destruct k.
  - change (String ":" k.2) with (":" +:+ k.2). apply utf8_app; [by apply utf8_ascii|]. apply utf8_app; [by apply utf8_ascii|done].
Qed.
End round_trips.

(** ** Every row once *)

Lemma filter_none {A} (P : A → Prop) `{!∀ x, Decision (P x)} (l : list A) : (∀ x, x ∈ l → ¬ P x) → filter P l = [].
Proof.
  induction l as [|x l IH]; intros Hl; [done|]. rewrite filter_cons_False by (apply Hl, list_elem_of_here).
  apply IH. intros y Hy. apply Hl. by apply list_elem_of_further.
Qed.
Lemma filter_every {A} (P : A → Prop) `{!∀ x, Decision (P x)} (l : list A) : (∀ x, x ∈ l → P x) → filter P l = l.
Proof.
  induction l as [|x l IH]; intros Hl; [done|]. rewrite filter_cons_True by (apply Hl, list_elem_of_here).
  f_equal. apply IH. intros y Hy. apply Hl. by apply list_elem_of_further.
Qed.

Section every_row.
Context {A K : Type} (key : A → K) (before : relation K) `{!RelDecision before, !StrictOrder before}.
Context (before_total : ∀ a b : K, before a b ∨ a = b ∨ before b a).

#[local] Abbreviation follows := (λ a b : A, before (key a) (key b)).
#[local] Abbreviation sorted := (merge_sort (in_order key before)).

Lemma in_order_total a b : in_order key before a b ∨ in_order key before b a.
Proof.
  unfold in_order. destruct (before_total (key a) (key b)) as [H|[H|H]].
  - left. intros H'. eapply (irreflexivity before). by etrans.
  - left. rewrite H. apply (irreflexivity before).
  - right. intros H'. eapply (irreflexivity before). by etrans.
Qed.
#[local] Instance in_order_totality : Total (in_order key before) := in_order_total.

#[local] Instance in_order_trans : Transitive (in_order key before).
Proof.
  intros a b c. unfold in_order. intros Hab Hbc Hca. destruct (before_total (key a) (key b)) as [H|[H|H]]; [|congruence|done].
  apply Hbc. by etrans.
Qed.

(** With keys that differ the sorted rows are strictly ordered, so they are
    determined by which rows they are. *)
Lemma sorted_strict rows : NoDup (key <$> rows) → StronglySorted follows (sorted rows).
Proof.
  intros Hnd. assert (Hp : sorted rows ≡ₚ rows) by apply merge_sort_Permutation.
  assert (Hs : StronglySorted (in_order key before) (sorted rows)) by apply (StronglySorted_merge_sort _ _).
  rewrite <- Hp in Hnd. clear Hp. induction Hs as [|a l Hl IH Ha]; [constructor|].
  rewrite fmap_cons, NoDup_cons in Hnd. destruct Hnd as [Hna Hnd]. constructor; [by apply IH|].
  rewrite Forall_forall in Ha |- *. intros b Hb. destruct (before_total (key a) (key b)) as [H|[H|H]]; [done| |].
  - destruct Hna. rewrite H. by apply list_elem_of_fmap_2.
  - destruct (Ha b Hb H).
Qed.

Lemma strict_unique l1 l2 : StronglySorted follows l1 → StronglySorted follows l2 → l1 ≡ₚ l2 → l1 = l2.
Proof.
  apply StronglySorted_unique. intros a b H1 H2. exfalso. eapply (irreflexivity before). by etrans.
Qed.

Lemma strict_app p s : StronglySorted follows (p ++ s) → StronglySorted follows s ∧ ∀ a b, a ∈ p → b ∈ s → before (key a) (key b).
Proof.
  induction p as [|x p IH]; simpl; intros Hs.
  - split; [done|]. intros a b Ha. by apply not_elem_of_nil in Ha.
  - apply StronglySorted_inv in Hs as [Hs Hx]. destruct (IH Hs) as [Hss Hab]. split; [done|].
    intros a b [->|Ha]%elem_of_cons Hb; [|by apply Hab]. rewrite Forall_forall in Hx. apply Hx. apply elem_of_app. by right.
Qed.

(** The rows after the last row of a prefix are the rest. *)
Lemma rows_after_prefix rows p a s :
  NoDup (key <$> rows) → sorted rows = (p ++ [a]) ++ s → sorted (rows_after key before (Some (key a)) rows) = s.
Proof.
  intros Hnd Hs. assert (Hp : rows ≡ₚ (p ++ [a]) ++ s) by (rewrite <- Hs; symmetry; apply merge_sort_Permutation).
  pose proof (sorted_strict rows Hnd) as Hstrict. rewrite Hs in Hstrict. pose proof (strict_app _ _ Hstrict) as [Hss Has].
  apply strict_unique; [|done|].
  - apply sorted_strict. cbn [rows_after]. eapply sublist_NoDup; [exact Hnd|]. apply fmap_sublist, sublist_filter.
  - rewrite merge_sort_Permutation. cbn [rows_after]. rewrite Hp, filter_app.
    rewrite filter_none.
    2:{ intros x Hx Hb. rewrite <- app_assoc in Hstrict. destruct (strict_app _ _ Hstrict) as [_ Hpa].
        apply elem_of_app in Hx as [Hx|Hx%list_elem_of_singleton]; [|subst x].
        - eapply (irreflexivity before). etrans; [exact Hb|]. apply Hpa; [done|]. simpl. apply list_elem_of_here.
        - by eapply (irreflexivity before). }
    rewrite filter_every; [done|]. intros x Hx. apply Has; [|done]. apply elem_of_app. right. apply list_elem_of_here.
Qed.

Lemma removelast_take (l : list A) n : n < length l → removelast (take (S n) l) = take n l.
Proof.
  revert n. induction l as [|x l IH]; intros [|n] Hn; simpl in *; try lia; [done|].
  destruct l as [|y l]; [simpl in Hn; lia|]. rewrite <- (IH n) by lia. done.
Qed.

Lemma last_take (l : list A) n : 0 < n → n ≤ length l → ∃ p a, take n l = p ++ [a].
Proof.
  intros Hn Hl. destruct (take n l) as [|x k] eqn:Ht using rev_ind; [|by exists k, x].
  apply (f_equal length) in Ht. rewrite length_take in Ht. simpl in Ht. lia.
Qed.

Context (encode : K → string) (decode : string → Res HubError K) (rows : list A) (limit : Z).
Context (Hlimit : (1 ≤ limit)%Z) (Hkeys : NoDup (key <$> rows))
  (Hcursor : ∀ a, a ∈ rows → decode (encode (key a)) = Ok (key a)).

#[local] Abbreviation serve := (serve_page key encode decode (select_page key before rows) limit).

(** The page that follows the rows [p]. *)
Lemma serve_rest p s cursor :
  sorted rows = p ++ s → match last p with None => cursor = None | Some a => cursor = Some (encode (key a)) end →
  serve cursor = Ok (s, None) ∨
  ∃ q a rest, s = (q ++ [a]) ++ rest ∧ serve cursor = Ok (q ++ [a], Some (encode (key a))).
Proof.
  intros Hs Hc.
  assert (Hin : ∀ a, a ∈ sorted rows → decode (encode (key a)) = Ok (key a)).
  { intros a Ha. apply Hcursor. by rewrite merge_sort_Permutation in Ha. }
  assert (Hsel : serve cursor = Ok (let '(items, next) := cut_page key limit (take (Z.to_nat (limit + 1)) s) in
                                     (items, encode <$> next))).
  { unfold serve_page, page_of, select_page. replace (Z.max (limit + 1) 1) with (limit + 1)%Z by lia.
    destruct (last p) as [a|] eqn:Hl; subst cursor.
    - apply last_Some in Hl as [p' ->]. cbn [read_cursor]. rewrite Hin.
      + cbn [mbind res_bind]. by rewrite (rows_after_prefix _ _ _ _ Hkeys Hs).
      + rewrite Hs. apply elem_of_app. left. apply elem_of_app. right. apply list_elem_of_here.
    - apply last_None in Hl as ->. cbn [read_cursor mbind res_bind rows_after]. by rewrite Hs. }
  rewrite Hsel. unfold cut_page. rewrite length_take. destruct (Nat.ltb_spec (Z.to_nat limit) (Z.to_nat (limit + 1) `min` length s)).
  - right. replace (Z.to_nat (limit + 1)) with (S (Z.to_nat limit)) by lia. rewrite removelast_take by lia.
    destruct (last_take s (Z.to_nat limit)) as (q & a & Ht); [lia..|]. exists q, a, (drop (Z.to_nat limit) s). split.
    + by rewrite <- Ht, take_drop.
    + rewrite Ht, last_snoc. done.
  - left. by rewrite take_ge by lia.
Qed.

Lemma follow_rest n p s cursor :
  sorted rows = p ++ s → match last p with None => cursor = None | Some a => cursor = Some (encode (key a)) end →
  length s < n → follow serve n cursor = Some s.
Proof.
  revert p s cursor. induction n as [|n IH]; intros p s cursor Hs Hc Hn; [lia|]. cbn [follow].
  destruct (serve_rest p s cursor Hs Hc) as [->|(q & a & rest & -> & ->)]; [done|].
  rewrite (IH (p ++ q ++ [a]) rest); [done| | |].
  - by rewrite Hs, !app_assoc.
  - by rewrite app_assoc, last_snoc.
  - rewrite !length_app in Hn. simpl in Hn. lia.
Qed.

Lemma follow_every :
  ∃ l, follow serve (S (length rows)) None = Some l ∧ l ≡ₚ rows ∧ StronglySorted follows l.
Proof.
  exists (sorted rows). split_and!; [|apply merge_sort_Permutation|by apply sorted_strict].
  apply (follow_rest _ []); [done..|]. rewrite (Permutation_length (merge_sort_Permutation _ rows)). lia.
Qed.
End every_row.

(** ** The statements of the store *)

(** The database's order of text. *)
Class TextOrder := {
  text_lt : relation string;
  text_lt_dec :: RelDecision text_lt;
}.
Class TextOrderLaws `{!TextOrder} : Prop := {
  text_lt_strict :: StrictOrder text_lt;
  text_lt_total a b : text_lt a b ∨ a = b ∨ text_lt b a;
}.

Section statements.
Context `{!TextOrder}.

(** [ORDER BY created_at DESC, id DESC]. *)
Definition newest_first (a b : Z * string) : Prop := (b.1 < a.1)%Z ∨ a.1 = b.1 ∧ text_lt b.2 a.2.
#[export] Instance newest_first_dec : RelDecision newest_first.
Proof. intros a b. unfold newest_first. apply _. Defined.

Definition key_created (kv : string * ApiKeyRow) : Z * string := (ak_created_at kv.2, kv.1).
Definition api_keys_of (d : Directory) (organization_id : string) (creator : option string) : list (string * ApiKeyRow) :=
  filter (λ kv, ak_organization_id kv.2 = organization_id ∧ (creator = None ∨ creator = Some (ak_creator_user_id kv.2)))
    (map_to_list (dr_api_keys d)).
Definition api_keys_page (d : Directory) (organization_id : string) (creator : option string)
    : Z → option (Z * string) → list (string * ApiKeyRow) :=
  select_page key_created newest_first (api_keys_of d organization_id creator).

Definition credentials_of (d : Directory) (organization_id : string) (owner : option string)
    : list (string * WorkerCredentialRow) :=
  filter (λ kv, wc_organization_id kv.2 = organization_id ∧ (owner = None ∨ owner = wc_owner_user_id kv.2))
    (map_to_list (dr_credentials d)).
Definition worker_credentials_page (d : Directory) (organization_id : string) (owner : option string)
    : Z → option string → list (string * WorkerCredentialRow) :=
  select_page fst text_lt (credentials_of d organization_id owner).

Definition log_created (a : AuditRow) : Z * string := (au_created_at a, au_id a).
Definition logs_of (d : Directory) (organization_id : string) : list AuditRow :=
  filter (λ a, au_organization_id a = Some organization_id) (dr_audit d).
Definition audit_logs_page (d : Directory) (organization_id : string) : Z → option (Z * string) → list AuditRow :=
  select_page log_created newest_first (logs_of d organization_id).

Definition job_created (j : StoredJob) : Z * string := (sj_created_at j, sj_id j).
Definition jobs_of (d : Db) (organization_id : string) : list StoredJob :=
  (λ kv, jt_job kv.2) <$> filter (λ kv, kv.1.1 = organization_id) (map_to_list (db_jobs d)).
Definition jobs_page (d : Db) (organization_id : string) : Z → option (Z * string) → list StoredJob :=
  select_page job_created newest_first (jobs_of d organization_id).

Definition batch_created (b : StoredJobBatch) : Z * string := (sb_created_at b, sb_id b).
Definition batches_of (d : Db) (organization_id : string) : list StoredJobBatch :=
  snd <$> filter (λ kv, kv.1.1 = organization_id) (map_to_list (db_batches d)).
Definition job_batches_page (d : Db) (organization_id : string) : Z → option (Z * string) → list StoredJobBatch :=
  select_page batch_created newest_first (batches_of d organization_id).
End statements.

Definition BATCH_PAGE_DEFAULT : Z := 20.
Definition BATCH_PAGE_MAX : Z := 100.
Definition batch_page_limit (limit : option Z) : Z := clamp 1 BATCH_PAGE_MAX (default BATCH_PAGE_DEFAULT limit).

Lemma clamp_bounds lo hi n : (lo ≤ hi)%Z → (lo ≤ clamp lo hi n ≤ hi)%Z.
Proof. unfold clamp. intros. destruct (Z.ltb_spec n lo), (Z.ltb_spec hi n); lia. Qed.

(** Following the cursors returns the rows, each once, in order. *)
Definition complete {A K} (serve : option string → Res HubError (list A * option string)) (rows : list A) (key : A → K)
    (before : relation K) : Prop :=
  ∃ l, follow serve (S (length rows)) None = Some l ∧ l ≡ₚ rows ∧ StronglySorted (λ a b, before (key a) (key b)) l.

(** The rows have the keys their tables have. *)
Record rows_proper `{!Libraries} (d : Directory) : Prop := {
  rp_keys id k : dr_api_keys d !! id = Some k → created_id_ok (ak_created_at k, id);
  rp_credentials id c : dr_credentials d !! id = Some c → part_ok id;
  rp_logs a : a ∈ dr_audit d → created_id_ok (log_created a);
  rp_log_ids : NoDup (au_id <$> dr_audit d);
  rp_jobs k r : db_jobs (dr_db d) !! k = Some r → k.2 = sj_id (jt_job r) ∧ created_id_ok (job_created (jt_job r));
  rp_batches k b : db_batches (dr_db d) !! k = Some b → k.2 = sb_id b ∧ created_id_ok (batch_created b);
}.

Lemma NoDup_finer {A B C} (f : A → B) (g : A → C) (l : list A) : (∀ a b, a ∈ l → b ∈ l → f a = f b → g a = g b) → NoDup (g <$> l) → NoDup (f <$> l).
Proof.
  induction l as [|x l IH]; intros Hfg Hnd; [constructor|]. rewrite fmap_cons, NoDup_cons in Hnd. destruct Hnd as [Hx Hnd].
  rewrite fmap_cons, NoDup_cons. split.
  - intros (y & Hy & Hyl)%list_elem_of_fmap_1. apply Hx. apply list_elem_of_fmap_2' with y; [done|].
    apply Hfg; [apply list_elem_of_here|by apply list_elem_of_further|done].
  - apply IH; [|done]. intros a b Ha Hb. apply Hfg; by apply list_elem_of_further.
Qed.

Section covering.
Context `{!Libraries, !LibraryLaws, !TextOrder, !TextOrderLaws} (d : Directory) (Hd : rows_proper d).

#[local] Instance newest_first_strict : StrictOrder newest_first.
Proof.
  split.
  - intros [t i] [Hc|[_ Hc]]; simpl in *; [lia|]. by apply (irreflexivity text_lt) in Hc.
  - intros [t i] [t' i'] [t2 i2] [Ha|[Ha Ha']] [Hb|[Hb Hb']]; unfold newest_first; simpl in *; try (left; lia).
    right. split; [lia|]. by etrans.
Qed.
Lemma newest_first_total a b : newest_first a b ∨ a = b ∨ newest_first b a.
Proof.
  destruct a as [t i], b as [t' i']. unfold newest_first. simpl. destruct (Z.lt_trichotomy t t') as [Hc|[->|Hc]]; [by right; right; left| |by left; left].
  destruct (text_lt_total i i') as [Hc|[->|Hc]]; [by right; right; right|by right; left|by left; right].
Qed.

Lemma map_rows_distinct {A} `{Countable K'} (m : gmap K' A) (P : K' * A → Prop) `{!∀ x, Decision (P x)} {B} (f : K' * A → B) :
  (∀ a b, a ∈ filter P (map_to_list m) → b ∈ filter P (map_to_list m) → f a = f b → a.1 = b.1) → NoDup (f <$> filter P (map_to_list m)).
Proof.
  intros Hf. apply (NoDup_finer f fst); [exact Hf|]. eapply sublist_NoDup; [apply (NoDup_fst_map_to_list m)|].
  apply fmap_sublist, sublist_filter.
Qed.

(** Rows of a filtered table. *)
Lemma filtered_row {A} `{Countable K'} (m : gmap K' A) (P : K' * A → Prop) `{!∀ x, Decision (P x)} kv :
  kv ∈ filter P (map_to_list m) → P kv ∧ m !! kv.1 = Some kv.2.
Proof. intros [HP Hin]%list_elem_of_filter. split; [done|]. apply elem_of_map_to_list. by destruct kv. Qed.

Lemma keys_complete org creator limit :
  complete (serve_page key_created encode_created_id_cursor decode_created_id_cursor (api_keys_page d org creator) (page_limit limit))
    (api_keys_of d org creator) key_created newest_first.
Proof.
  apply follow_every; [apply _|apply newest_first_total|apply clamp_bounds; done| |].
  - apply map_rows_distinct. by intros [] [] _ _ [= _ ->].
  - intros [id k] [_ Hk]%filtered_row. apply created_id_round_trip. by apply (rp_keys d Hd).
Qed.

Lemma credentials_complete org owner limit :
  complete (serve_page fst encode_id_cursor decode_id_cursor (worker_credentials_page d org owner) (page_limit limit))
    (credentials_of d org owner) fst text_lt.
Proof.
  apply follow_every; [apply _|apply text_lt_total|apply clamp_bounds; done| |].
  - apply map_rows_distinct. done.
  - intros [id k] [_ Hk]%filtered_row. apply id_round_trip. by eapply (rp_credentials d Hd).
Qed.

Lemma logs_complete org limit :
  complete (serve_page log_created encode_created_id_cursor decode_created_id_cursor (audit_logs_page d org) (page_limit limit))
    (logs_of d org) log_created newest_first.
Proof.
  apply follow_every; [apply _|apply newest_first_total|apply clamp_bounds; done| |].
  - apply (NoDup_finer _ au_id); [by intros ???? [= _ ->]|]. eapply sublist_NoDup; [apply (rp_log_ids d Hd)|].
    apply fmap_sublist, sublist_filter.
  - intros a [_ Ha]%list_elem_of_filter. apply created_id_round_trip. by apply (rp_logs d Hd).
Qed.

Lemma jobs_complete org limit :
  complete (serve_page job_created encode_job_cursor decode_job_cursor (jobs_page (dr_db d) org) (jobs_page_limit limit))
    (jobs_of (dr_db d) org) job_created newest_first.
Proof.
  apply follow_every; [apply _|apply newest_first_total|apply clamp_bounds; done| |].
  - unfold jobs_of. rewrite <- list_fmap_compose. apply map_rows_distinct. intros [[o i] r] [[o' i'] r'] Ha Hb [= _ He].
    apply filtered_row in Ha as [? Ha], Hb as [? Hb]. apply (rp_jobs d Hd) in Ha as [? _], Hb as [? _]. simpl in *. congruence.
  - intros j (kv & -> & [_ Hj]%filtered_row)%list_elem_of_fmap_1. apply (rp_jobs d Hd) in Hj as (_ & ? & (_ & _ & ?)).
    by apply job_round_trip.
Qed.

Lemma batches_complete org limit :
  complete (serve_page batch_created encode_created_id_cursor decode_created_id_cursor (job_batches_page (dr_db d) org)
              (batch_page_limit limit)) (batches_of (dr_db d) org) batch_created newest_first.
Proof.
  apply follow_every; [apply _|apply newest_first_total|apply clamp_bounds; done| |].
  - unfold batches_of. rewrite <- list_fmap_compose. apply map_rows_distinct. intros [[o i] r] [[o' i'] r'] Ha Hb [= _ He].
    apply filtered_row in Ha as [? Ha], Hb as [? Hb]. apply (rp_batches d Hd) in Ha as [? _], Hb as [? _]. simpl in *. congruence.
  - intros b (kv & -> & [_ Hb]%filtered_row)%list_elem_of_fmap_1. apply (rp_batches d Hd) in Hb as [_ ?]. by apply created_id_round_trip.
Qed.
End covering.

(** C26: Lists can be read to the end: following [next_cursor] from the first page
    returns every API key, worker credential, audit record, job and batch of the
    organization exactly once and in the list's order, whatever page size the
    client asks for (zero, negative or huge ones included), and stops after at most
    one page more than there are rows. *)
Theorem pages_visit_every_row_once `{!Libraries, !LibraryLaws, !TextOrder, !TextOrderLaws} d org who limit :
  rows_proper d →
  complete (serve_page key_created encode_created_id_cursor decode_created_id_cursor (api_keys_page d org who) (page_limit limit))
    (api_keys_of d org who) key_created newest_first
  ∧ complete (serve_page fst encode_id_cursor decode_id_cursor (worker_credentials_page d org who) (page_limit limit))
      (credentials_of d org who) fst text_lt
  ∧ complete (serve_page log_created encode_created_id_cursor decode_created_id_cursor (audit_logs_page d org) (page_limit limit))
      (logs_of d org) log_created newest_first
  ∧ complete (serve_page job_created encode_job_cursor decode_job_cursor (jobs_page (dr_db d) org) (jobs_page_limit limit))
      (jobs_of (dr_db d) org) job_created newest_first
  ∧ complete (serve_page batch_created encode_created_id_cursor decode_created_id_cursor (job_batches_page (dr_db d) org)
                (batch_page_limit limit)) (batches_of (dr_db d) org) batch_created newest_first.
Proof.
  intros Hd. split_and!; [by apply keys_complete|by apply credentials_complete|by apply logs_complete|by apply jobs_complete|
    by apply batches_complete].
Qed.

(** Byte order is one such order of text. *)
Definition byte_order : TextOrder := {| text_lt := strict String.le |}.
Lemma byte_order_laws : @TextOrderLaws byte_order.
Proof.
  split; [apply _|]. intros a b. destruct (total String.le a b) as [Hc|Hc], (decide (a = b)) as [->|Hne]; [by right; left| |by right; left|].
  - left. split; [done|]. intros Hc'. by apply Hne, (anti_symm String.le).
  - right. right. split; [done|]. intros Hc'. by apply Hne, (anti_symm String.le).
Qed.

#[local] Existing Instance byte_order.

(** Three keys, two of them of one millisecond. *)
Definition three_keys : Directory :=
  run_account_ops household_start
    [AoCreateApiKey (mkNewApiKey "k1" "org" "ann" "one" "nsk_" "h1" "[]" 20 None);
     AoCreateApiKey (mkNewApiKey "k2" "org" "ann" "two" "nsk_" "h2" "[]" 20 None);
     AoCreateApiKey (mkNewApiKey "k3" "org" "ann" "three" "nsk_" "h3" "[]" 21 None)].

Lemma three_keys_proper : @rows_proper plain_libraries three_keys.
Proof.
  assert (Hk : map_Forall (λ id k, @created_id_ok plain_libraries (ak_created_at k, id)) (dr_api_keys three_keys)).
  { change (dr_api_keys three_keys) with (<["k3" := mkApiKeyRow "org" "ann" "three" "nsk_" "h3" "[]" 21 None None None]>
      (<["k2" := mkApiKeyRow "org" "ann" "two" "nsk_" "h2" "[]" 20 None None None]>
      (<["k1" := mkApiKeyRow "org" "ann" "one" "nsk_" "h1" "[]" 20 None None None]> (∅ : gmap string ApiKeyRow)))).
    repeat apply map_Forall_insert_2; try apply map_Forall_empty; by repeat split. }
  assert (Hc : dr_credentials three_keys = ∅) by (vm_compute; reflexivity).
  assert (Ha : dr_audit three_keys = []) by (vm_compute; reflexivity).
  assert (Hj : db_jobs (dr_db three_keys) = ∅) by (vm_compute; reflexivity).
  assert (Hb : db_batches (dr_db three_keys) = ∅) by (vm_compute; reflexivity).
  split; rewrite ?Hc, ?Ha, ?Hj, ?Hb.
  - exact Hk.
  - intros id c Hin. rewrite lookup_empty in Hin. discriminate Hin.
  - intros a Hin. destruct (not_elem_of_nil a Hin).
  - constructor.
  - intros k r Hin. rewrite lookup_empty in Hin. discriminate Hin.
  - intros k b Hin. rewrite lookup_empty in Hin. discriminate Hin.
Qed.

Lemma pages_visit_every_row_once_witness :
  complete (serve_page key_created (@encode_created_id_cursor plain_libraries) (@decode_created_id_cursor plain_libraries)
              (api_keys_page three_keys "org" (Some "ann")) (page_limit (Some 1%Z)))
    (api_keys_of three_keys "org" (Some "ann")) key_created newest_first.
Proof.
  exact (proj1 (@pages_visit_every_row_once plain_libraries plain_libraries_laws byte_order byte_order_laws three_keys "org" (Some "ann")
                  (Some 1%Z) three_keys_proper)).
Defined.

Example three_keys_pages :
  option_map (List.map fst) (follow (serve_page key_created (@encode_created_id_cursor plain_libraries)
    (@decode_created_id_cursor plain_libraries) (api_keys_page three_keys "org" None) (page_limit (Some (-5)%Z))) 4 None)
  = Some ["k3"; "k2"; "k1"].
Proof. vm_compute. reflexivity. Qed.
