(* ===== verification/Members.v ===== *)
(** Organizations over HTTP ([product_api/organizations.rs]): creating and
    deleting them, members and their roles, invitations, owner transfer, API keys,
    worker credentials, quotas and the audit log.

    Not modelled: the export of an organization, which only reads.

    Main results: whoever is not an owner can neither make nor unmake one; a key
    that is handed out can do no more than its creator; a deleted organization
    leaves no objects, sessions, rows or cached data behind; no handler panics. *)

From S2P Require Import Prelude Text Json HubTypes Principal Helpers TtlCache HubState Sessions Store RateLimit Accounts Secrets.
From S2P Require Import Transfer Web OAuth Auth Paging.
From Stdlib Require Import ZArith Lia Ascii.

#[local] Abbreviation Headers := (gmap string string).

(** ** Rows as they are shown *)

Definition invite_view (kv : string * OrganizationInviteRow) : OrganizationInvite :=
  let '(id, v) := kv in
  mkOrganizationInvite id (iv_organization_id v) (iv_inviter_user_id v) (iv_code_prefix v) (parse_role (iv_role v))
    (iv_created_at v) (iv_expires_at v) (iv_accepted_at v) (iv_accepted_by_user_id v) (iv_revoked_at v).
Definition credential_view (kv : string * WorkerCredentialRow) : WorkerCredentialView :=
  let '(id, c) := kv in
  mkWorkerCredentialView id (wc_organization_id c) (wc_owner_user_id c) (wc_name c) (wc_token_prefix c) (wc_allowed_namespace c)
    (wc_created_at c) (wc_last_used_at c) (wc_expires_at c) (wc_revoked_at c).
Definition quota_view (organization_id : string) (p : QuotaPolicy) (u : QuotaUsage) : QuotaSnapshot :=
  mkQuotaSnapshot organization_id (qp_max_concurrent_jobs p) (qp_max_storage_bytes p) (qp_max_jobs_per_period p)
    (qp_period_seconds p) (qu_active_jobs u) (qu_storage_bytes u) (qu_period_jobs u) (qu_period_started_at u).

(** [ORDER BY created_at DESC], [ORDER BY m.created_at]; ties in the order of the map. *)
Definition invite_newer (a b : OrganizationInvite) : Prop := (ov_created_at b ≤ ov_created_at a)%Z.
Definition member_older (a b : OrganizationMember) : Prop := (om_created_at a ≤ om_created_at b)%Z.
#[export] Instance invite_newer_dec : RelDecision invite_newer.
Proof. intros a b. unfold invite_newer. apply _. Defined.
#[export] Instance member_older_dec : RelDecision member_older.
Proof. intros a b. unfold member_older. apply _. Defined.

Definition organization_invites (d : Directory) (organization_id : string) : list OrganizationInvite :=
  merge_sort invite_newer
    (invite_view <$> filter (λ kv, iv_organization_id kv.2 = organization_id) (map_to_list (dr_invites d))).
Definition members_for_org (d : Directory) (organization_id : string) : list OrganizationMember :=
  merge_sort member_older
    (omap (λ kv, if String.eqb kv.1.1 organization_id then
                   u ← dr_users d !! kv.1.2;
                   Some (mkOrganizationMember kv.1.1 kv.1.2 (us_email u) (parse_role (mb_role kv.2)) (mb_created_at kv.2))
                 else None) (map_to_list (dr_memberships d))).
Definition quota (d : Directory) (organization_id : string) : Res StoreError QuotaSnapshot :=
  p ← ok_or (StNotFound "quota") (db_policies (dr_db d) !! organization_id);
  u ← ok_or (StNotFound "quota") (db_usage (dr_db d) !! organization_id);
  Ok (quota_view organization_id p u).
Definition organization_object_keys (d : Directory) (organization_id : string) : list string :=
  (λ kv, sa_object_key (art_artifact kv.2)) <$>
    filter (λ kv, kv.1.1 = organization_id) (map_to_list (db_artifacts (dr_db d))).

Record UpdateQuotaRequest := mkUpdateQuotaRequest {
  uq_max_concurrent_jobs : Z;
  uq_max_storage_bytes : Z;
  uq_max_jobs_per_period : Z;
  uq_period_seconds : Z;
}.
Record CreateApiKeyRequest := mkCreateApiKeyRequest {
  cr_name : string;
  cr_scopes : list string;
  cr_expires_in_seconds : option Z;
}.
Record CreateWorkerCredentialRequest := mkCreateWorkerCredentialRequest {
  cw_name : string;
  cw_allowed_namespace : option string;
  cw_expires_in_seconds : option Z;
}.
Record CursorQuery := mkCursorQuery {
  cq_limit : option Z;
  cq_cursor : option string;
}.

Definition json_role (r : Role) : Json := JString (role_name r).
Definition json_int (n : Z) : Json := JNumber (if (n <? 0)%Z then NegInt n else PosInt n).
Definition json_opt (o : option string) : Json := match o with Some s => JString s | None => JNull end.

(** A name of 1 to 120 characters. *)
Definition bad_name (name : string) : bool := String.eqb name "" || (120 <? chars_count name)%nat.

(** [!(lo..=hi).contains(&n)]. *)
Definition outside (lo hi n : Z) : bool := negb ((lo <=? n) && (n <=? hi))%Z.
Definition quota_out_of_bounds (q : UpdateQuotaRequest) : bool :=
  outside 1 10000 (uq_max_concurrent_jobs q) || outside 1 (5 * 1024 * 1024 * 1024 * 1024) (uq_max_storage_bytes q)
  || outside 1 1000000000 (uq_max_jobs_per_period q) || outside 60 31536000 (uq_period_seconds q).

Section members.
Context `{!Libraries, !TextOrder} (ev : Env).

Definition key_view (kv : string * ApiKeyRow) : ApiKeyView :=
  let '(id, k) := kv in
  mkApiKeyView id (ak_organization_id k) (ak_creator_user_id k) (ak_name k) (ak_prefix k) (key_scopes k) (ak_created_at k)
    (ak_last_used_at k) (ak_expires_at k) (ak_revoked_at k).

(** A statement that cannot violate a constraint. *)
Definition perform {X A} (p : A * Directory) : Handler X A := set_store p.2 ;; mret p.1.
Definition reply (status : Z) (b : Body) : Response := mkResponse status [] b.
Definition no_content : Response := reply 204 Empty.

Section request.
Context (headers : Headers).
#[local] Abbreviation rid := (with_id ev headers).
#[local] Abbreviation fail := (product_error rid).
#[local] Abbreviation role_of auth := (pc_role (ac_principal auth)).

(** [audit] with the caller as the actor, under the [k]th identifier and clock
    reading. *)
Definition audit_as {X} (auth : AuthContext) (actor : option string) (k : nat) (org action resource : string) (id : option string)
    (metadata : Json) : Handler X unit :=
  audit (Some org) actor (auth_kind (pc_kind (ac_principal auth))) rid action resource id "success" metadata (ev_uuid ev k)
    (ev_now ev k).

(** ** Organizations *)

Definition list_organizations : Handler Response Response :=
  auth ← calling fail (require_browser ev headers None);
  d ← store_unwrap;
  mret (reply 200 (MembershipsReply (memberships_for_user d (user_of auth)))).

Definition create_organization (requested_name : string) : Handler Response Response :=
  auth ← calling fail (require_browser ev headers None);
  let name := trim requested_name in
  exit_if (bad_name name) (fail (InvalidRequest "organization name must contain 1-120 characters")) ;;
  let user_id := user_of auth in
  d ← store_unwrap;
  m ← execute (λ e, fail (HubTypes.Store e)) (create_organization_for_user d (ev_now ev 1) (ev_uuid ev 1) user_id name);
  audit (Some (mm_organization_id m)) (Some user_id) "browser_session" rid "organization.create" "organization"
    (Some (mm_organization_id m)) "success" (JObject [("name", JString name)]) (ev_uuid ev 2) (ev_now ev 2) ;;
  mret (reply 201 (MembershipReply m)).

(** The objects are deleted one by one until one fails. *)
Fixpoint delete_objects (keys : list string) : Handler HubError unit :=
  match keys with
  | [] => mret tt
  | k :: keys =>
      lift ObjectStoreError match ev_delete ev k with Some m => Err m | None => Ok tt end ;;
      modify (λ s, with_objects s (si_objects s ∖ {[ k ]})) ;;
      delete_objects keys
  end.

Definition delete_organization (org_id confirm : string) : Handler Response Response :=
  auth ← calling fail (require_browser ev headers (Some org_id));
  exit_if (negb (bool_decide (role_of auth = Owner))) (fail (Forbidden "only an owner can delete an organization")) ;;
  exit_if (negb (String.eqb (trim confirm) org_id)) (fail (InvalidRequest "confirm must exactly match the organization id")) ;;
  d ← calling fail store;
  calling fail (delete_objects (organization_object_keys d org_id)) ;;
  modify (λ s, with_sessions s (disconnect_organization (ev_order ev) (si_sessions s) org_id).1) ;;
  d ← calling fail store;
  deleted ← perform (Accounts.delete_organization d org_id);
  exit_if (negb deleted) (fail (NotFound "organization")) ;;
  modify (λ s, with_data s (remove_organization (si_data s) org_id)) ;;
  modify (λ s, with_cache s (remove_device_access_for_organization (si_read_cache s) org_id)) ;;
  mret no_content.

(** ** Members *)

Definition list_members (org_id : string) : Handler Response Response :=
  calling fail (authorize ev headers org_id MembersManage) ;;
  d ← store_unwrap;
  mret (reply 200 (MembersReply (members_for_org d org_id))).

Definition change_member_role (org_id user_id : string) (role : Role) : Handler Response Response :=
  auth ← calling fail (authorize ev headers org_id MembersManage);
  exit_if (bool_decide (role = Owner) && negb (bool_decide (role_of auth = Owner)))
    (fail (Forbidden "only an owner can grant owner role")) ;;
  d ← calling fail store;
  target ← lift fail (ok_or (NotFound "member") (membership d org_id user_id));
  exit_if (bool_decide (mm_role target = Owner) && negb (bool_decide (role_of auth = Owner)))
    (fail (Forbidden "only an owner can change another owner's role")) ;;
  changed ← execute (λ e, fail (map_store e)) (set_member_role d (ev_now ev 1) org_id user_id role);
  exit_if (negb changed) (fail (NotFound "member")) ;;
  audit_as auth (pc_user_id (ac_principal auth)) 2 org_id "member.role.update" "user" (Some user_id)
    (JObject [("role", json_role role)]) ;;
  mret no_content.

Definition remove_member (org_id user_id : string) : Handler Response Response :=
  auth ← calling fail (authorize ev headers org_id MembersManage);
  exit_if (bool_decide (pc_user_id (ac_principal auth) = Some user_id))
    (fail (Conflict "use owner transfer before removing your own membership")) ;;
  d ← calling fail store;
  target ← lift fail (ok_or (NotFound "member") (membership d org_id user_id));
  exit_if (bool_decide (mm_role target = Owner) && negb (bool_decide (role_of auth = Owner)))
    (fail (Forbidden "only an owner can remove another owner")) ;;
  removed ← execute (λ e, fail (map_store e)) (Accounts.remove_member d (ev_now ev 1) org_id user_id);
  credential_ids ← lift fail (ok_or (NotFound "member") removed);
  disconnect_credentials ev credential_ids ;;
  audit_as auth (pc_user_id (ac_principal auth)) 2 org_id "member.remove" "user" (Some user_id)
    (JObject [("role", json_role (mm_role target))]) ;;
  mret no_content.

Definition transfer_organization_owner (org_id to_user_id : string) : Handler Response Response :=
  auth ← calling fail (require_browser ev headers (Some org_id));
  exit_if (negb (bool_decide (role_of auth = Owner))) (fail (Forbidden "only an owner can transfer ownership")) ;;
  let from_user_id := user_of auth in
  d ← store_unwrap;
  execute_unit (λ e, fail (map_store e)) (transfer_owner d (ev_now ev 1) org_id from_user_id (trim to_user_id)) ;;
  audit_as auth (Some from_user_id) 2 org_id "organization.owner.transfer" "user" (Some (trim to_user_id)) (JObject []) ;;
  mret no_content.

(** ** Invitations *)

Definition list_organization_invites (org_id : string) : Handler Response Response :=
  calling fail (authorize ev headers org_id MembersManage) ;;
  d ← store_unwrap;
  mret (reply 200 (InvitesReply (organization_invites d org_id))).

Definition create_organization_invite (org_id : string) (role : Role) (expires_in_seconds : option Z) : Handler Response Response :=
  auth ← calling fail (authorize ev headers org_id MembersManage);
  exit_if (bool_decide (role = Owner)) (fail (InvalidRequest "organization invites cannot grant owner role")) ;;
  let inviter := user_of auth in
  let secret := generate_secret "noi" (ev_uuid ev 1) (ev_uuid ev 2) in
  let id := ev_uuid ev 3 in
  let now := ev_now ev 1 in
  let expires_at := i64_saturating_add now
                      (i64_saturating_mul (clamp 300 2592000 (default (7 * 24 * 60 * 60)%Z expires_in_seconds)) 1000) in
  d ← calling fail store;
  execute_unit (λ e, fail (map_store e))
    (Accounts.create_organization_invite d
       (mkNewOrganizationInvite id org_id inviter (gs_display_prefix secret) (gs_hash secret) role now expires_at)) ;;
  d ← calling fail store;
  invite ← lift fail (ok_or (NotFound "created invitation")
                        (List.find (λ v, String.eqb (ov_id v) id) (organization_invites d org_id)));
  audit_as auth (Some inviter) 4 org_id "organization_invite.create" "organization_invite" (Some id)
    (JObject [("expires_at", json_int expires_at); ("role", json_role role)]) ;;
  mret (reply 201 (InviteReply invite (gs_plaintext secret))).

Definition revoke_organization_invite (org_id invite_id : string) : Handler Response Response :=
  auth ← calling fail (authorize ev headers org_id MembersManage);
  d ← store_unwrap;
  revoked ← perform (Accounts.revoke_organization_invite d (ev_now ev 1) org_id invite_id);
  exit_if (negb revoked) (fail (NotFound "organization invitation")) ;;
  audit_as auth (pc_user_id (ac_principal auth)) 2 org_id "organization_invite.revoke" "organization_invite" (Some invite_id)
    (JObject []) ;;
  mret no_content.

Definition accept_organization_invite (requested_code : string) : Handler Response Response :=
  auth ← calling fail (require_browser ev headers None);
  let code := trim requested_code in
  exit_if (negb (starts_with "noi_" code) || (256 <? str_len code)%nat)
    (fail (InvalidRequest "organization invitation code is invalid")) ;;
  let user_id := user_of auth in
  d ← store_unwrap;
  m ← execute (λ e, fail (map_store e)) (Accounts.accept_organization_invite d (ev_now ev 1) (hash_secret code) user_id);
  audit_as auth (Some user_id) 2 (mm_organization_id m) "organization_invite.accept" "organization_invite" None
    (JObject [("organization_id", JString (mm_organization_id m))]) ;;
  mret (reply 200 (MembershipReply m)).

(** ** API keys *)

(** [role.allows(all)] or only what is one's own. *)
Definition only_own (auth : AuthContext) (all : Permission) : option string :=
  if role_allows (role_of auth) all then None else pc_user_id (ac_principal auth).

Definition list_api_keys (org_id : string) (query : CursorQuery) : Handler Response Response :=
  auth ← calling fail (authenticate ev headers (Some org_id));
  exit_if (negb (bool_decide (pc_kind (ac_principal auth) = BrowserSession)) || negb (role_allows (role_of auth) ApiKeysManageOwn))
    (fail (Forbidden "browser member access is required")) ;;
  after ← lift fail (read_cursor decode_created_id_cursor (cq_cursor query));
  d ← store_unwrap;
  let page := page_of key_created encode_created_id_cursor (api_keys_page d org_id (only_own auth ApiKeysManage)) (page_limit (cq_limit query)) after in
  mret (reply 200 (KeyPage (key_view <$> page.1) page.2)).

Definition create_api_key (org_id : string) (request : CreateApiKeyRequest) : Handler Response Response :=
  auth ← calling fail (require_browser ev headers (Some org_id));
  exit_if (negb (role_allows (role_of auth) ApiKeysManageOwn)) (fail (Forbidden "role cannot create API keys")) ;;
  scopes ← lift fail (validate_scopes (ac_principal auth) (cr_scopes request));
  let name := trim (cr_name request) in
  exit_if (bad_name name) (fail (InvalidRequest "API key name must contain 1-120 characters")) ;;
  let secret := generate_secret "nsk" (ev_uuid ev 1) (ev_uuid ev 2) in
  let id := ev_uuid ev 3 in
  let now := ev_now ev 1 in
  let expires_at := (λ seconds, now + clamp 60 31536000 seconds * 1000)%Z <$> cr_expires_in_seconds request in
  let scopes_json := match scopes_to_string scopes with Ok t => t | Err _ => "[]" end in
  let creator := user_of auth in
  d ← store_unwrap;
  execute_unit (λ e, fail (HubTypes.Store e))
    (Accounts.create_api_key d (mkNewApiKey id org_id creator name (gs_display_prefix secret) (gs_hash secret) scopes_json now
                                  expires_at)) ;;
  d ← store_unwrap;
  key ← lift fail (ok_or (HubTypes.Store (StNotFound "created api key")) (api_key_by_hash d (gs_hash secret)));
  audit (Some org_id) (Some creator) "browser_session" rid "api_key.create" "api_key" (Some id) "success"
    (JObject [("name", JString name); ("scopes", JArray (JString <$> scopes))]) (ev_uuid ev 4) (ev_now ev 2) ;;
  mret (reply 201 (KeyReply (key_view key) (gs_plaintext secret))).

Definition revoke_api_key (org_id key_id : string) : Handler Response Response :=
  auth ← calling fail (require_browser ev headers (Some org_id));
  exit_if (negb (role_allows (role_of auth) ApiKeysManageOwn)) (fail (Forbidden "role cannot revoke API keys")) ;;
  d ← store_unwrap;
  key ← lift fail (ok_or (NotFound "api key") (api_key_for_org d org_id key_id));
  exit_if (negb (role_allows (role_of auth) ApiKeysManage)
           && negb (bool_decide (pc_user_id (ac_principal auth) = Some (ak_creator_user_id key))))
    (fail (Forbidden "role cannot revoke another user's API key")) ;;
  revoked ← perform (Accounts.revoke_api_key d (ev_now ev 1) org_id key_id);
  exit_if (negb revoked) (fail (NotFound "api key")) ;;
  audit (Some org_id) (pc_user_id (ac_principal auth)) "browser_session" rid "api_key.revoke" "api_key" (Some key_id) "success"
    (JObject []) (ev_uuid ev 1) (ev_now ev 2) ;;
  mret no_content.

(** ** Quotas and the audit log *)

Definition get_quota (org_id : string) : Handler Response Response :=
  calling fail (authorize ev headers org_id QuotaRead) ;;
  d ← store_unwrap;
  q ← lift (λ e, fail (HubTypes.Store e)) (quota d org_id);
  mret (reply 200 (QuotaReply q)).

Definition update_quota (org_id : string) (request : UpdateQuotaRequest) : Handler Response Response :=
  auth ← calling fail (authorize ev headers org_id QuotaManage);
  exit_if (quota_out_of_bounds request) (fail (InvalidRequest "quota values are outside the allowed production bounds")) ;;
  d ← calling fail store;
  db ← lift (λ e, fail (map_store e))
         (update_quota_policy (dr_db d) (ev_now ev 1) org_id (uq_max_concurrent_jobs request) (uq_max_storage_bytes request)
            (uq_max_jobs_per_period request) (uq_period_seconds request));
  set_store (set_db d db) ;;
  q ← lift (λ e, fail (map_store e)) (quota (set_db d db) org_id);
  audit_as auth (pc_user_id (ac_principal auth)) 2 org_id "quota_policy.update" "quota_policy" (Some org_id)
    (JObject [("max_concurrent_jobs", json_int (uq_max_concurrent_jobs request));
              ("max_jobs_per_period", json_int (uq_max_jobs_per_period request));
              ("max_storage_bytes", json_int (uq_max_storage_bytes request));
              ("period_seconds", json_int (uq_period_seconds request))]) ;;
  mret (reply 200 (QuotaReply q)).

Definition list_audit_logs (org_id : string) (query : CursorQuery) : Handler Response Response :=
  calling fail (authorize ev headers org_id AuditRead) ;;
  after ← lift fail (read_cursor decode_created_id_cursor (cq_cursor query));
  d ← store_unwrap;
  let page := page_of log_created encode_created_id_cursor (audit_logs_page d org_id) (page_limit (cq_limit query)) after in
  mret (reply 200 (AuditPage page.1 page.2)).

(** ** Worker credentials *)

Definition list_worker_credentials (org_id : string) (query : CursorQuery) : Handler Response Response :=
  auth ← calling fail (require_browser ev headers (Some org_id));
  exit_if (negb (role_allows (role_of auth) DevicesRegisterOwn)) (fail (Forbidden "role cannot register devices")) ;;
  after ← lift fail (read_cursor decode_id_cursor (cq_cursor query));
  d ← store_unwrap;
  let page := page_of fst encode_id_cursor (worker_credentials_page d org_id (only_own auth WorkersManage)) (page_limit (cq_limit query)) after in
  mret (reply 200 (CredentialPage (credential_view <$> page.1) page.2)).

Definition create_worker_credential (org_id : string) (request : CreateWorkerCredentialRequest) : Handler Response Response :=
  auth ← calling fail (require_browser ev headers (Some org_id));
  exit_if (negb (role_allows (role_of auth) DevicesRegisterOwn)) (fail (Forbidden "role cannot register devices")) ;;
  let name := trim (cw_name request) in
  exit_if (bad_name name) (fail (InvalidRequest "credential name must contain 1-120 characters")) ;;
  let secret := generate_secret "nwk" (ev_uuid ev 1) (ev_uuid ev 2) in
  let id := ev_uuid ev 3 in
  let now := ev_now ev 1 in
  let expires_at := (λ seconds, now + clamp 300 31536000 seconds * 1000)%Z <$> cw_expires_in_seconds request in
  let owner := user_of auth in
  d ← store_unwrap;
  execute_unit (λ e, fail (HubTypes.Store e))
    (Accounts.create_worker_credential d (mkNewWorkerCredential id org_id (Some owner) name (gs_display_prefix secret)
       (gs_hash secret) (cw_allowed_namespace request) now expires_at)) ;;
  d ← store_unwrap;
  credential ← lift fail (ok_or (NotFound "created credential") (worker_credential_by_hash d (gs_hash secret)));
  audit (Some org_id) (Some owner) "browser_session" rid "worker_credential.create" "worker_credential" (Some id) "success"
    (JObject [("allowed_namespace", json_opt (cw_allowed_namespace request))]) (ev_uuid ev 4) (ev_now ev 2) ;;
  mret (reply 201 (CredentialReply (credential_view credential) (gs_plaintext secret))).

Definition revoke_worker_credential (org_id credential_id : string) : Handler Response Response :=
  auth ← calling fail (require_browser ev headers (Some org_id));
  exit_if (negb (role_allows (role_of auth) DevicesRegisterOwn)) (fail (Forbidden "role cannot revoke device credentials")) ;;
  d ← store_unwrap;
  credential ← lift fail (ok_or (NotFound "worker credential") (worker_credential_for_org d org_id credential_id));
  exit_if (negb (role_allows (role_of auth) WorkersManage)
           && negb (bool_decide (wc_owner_user_id credential = pc_user_id (ac_principal auth))))
    (fail (Forbidden "role cannot revoke another user's device credential")) ;;
  revoked ← perform (Accounts.revoke_worker_credential d (ev_now ev 1) org_id credential_id);
  exit_if (negb revoked) (fail (NotFound "worker credential")) ;;
  disconnect_credentials ev [credential_id] ;;
  audit (Some org_id) (pc_user_id (ac_principal auth)) "browser_session" rid "worker_credential.revoke" "worker_credential"
    (Some credential_id) "success" (JObject []) (ev_uuid ev 1) (ev_now ev 2) ;;
  mret no_content.
End request.
End members.

(** ** Requests *)

Inductive Request :=
| ListOrganizations
| CreateOrganization (name : string)
| DeleteOrganization (org_id confirm : string)
| ListMembers (org_id : string)
| ChangeMemberRole (org_id user_id : string) (role : Role)
| RemoveMember (org_id user_id : string)
| TransferOwner (org_id user_id : string)
| ListInvites (org_id : string)
| CreateInvite (org_id : string) (role : Role) (expires_in_seconds : option Z)
| RevokeInvite (org_id invite_id : string)
| AcceptInvite (code : string)
| ListApiKeys (org_id : string) (query : CursorQuery)
| CreateApiKey (org_id : string) (request : CreateApiKeyRequest)
| RevokeApiKey (org_id key_id : string)
| GetQuota (org_id : string)
| UpdateQuota (org_id : string) (request : UpdateQuotaRequest)
| ListAuditLogs (org_id : string) (query : CursorQuery)
| ListCredentials (org_id : string) (query : CursorQuery)
| CreateCredential (org_id : string) (request : CreateWorkerCredentialRequest)
| RevokeCredential (org_id credential_id : string).

(** The routes. *)
Definition handle `{!Libraries, !TextOrder} (ev : Env) (headers : Headers) (r : Request) : Handler Response Response :=
  match r with
  | ListOrganizations => list_organizations ev headers
  | CreateOrganization name => create_organization ev headers name
  | DeleteOrganization o confirm => delete_organization ev headers o confirm
  | ListMembers o => list_members ev headers o
  | ChangeMemberRole o u role => change_member_role ev headers o u role
  | RemoveMember o u => remove_member ev headers o u
  | TransferOwner o u => transfer_organization_owner ev headers o u
  | ListInvites o => list_organization_invites ev headers o
  | CreateInvite o role expires => create_organization_invite ev headers o role expires
  | RevokeInvite o i => revoke_organization_invite ev headers o i
  | AcceptInvite code => accept_organization_invite ev headers code
  | ListApiKeys o q => list_api_keys ev headers o q
  | CreateApiKey o r => create_api_key ev headers o r
  | RevokeApiKey o k => revoke_api_key ev headers o k
  | GetQuota o => get_quota ev headers o
  | UpdateQuota o r => update_quota ev headers o r
  | ListAuditLogs o q => list_audit_logs ev headers o q
  | ListCredentials o q => list_worker_credentials ev headers o q
  | CreateCredential o r => create_worker_credential ev headers o r
  | RevokeCredential o c => revoke_worker_credential ev headers o c
  end.

(** ** Who asks *)

Section callers.
Context `{!Libraries, !TextOrder} (ev : Env) (headers : Headers).

(** Authenticating may note the use of a key. *)
Definition touched (s s' : Site) : Prop :=
  s' = s ∨ ∃ d id now, si_store s = Some d ∧ s' = with_store s (Some (touch_api_key d id now)).

Lemma wp_authenticate org s :
  wp (authenticate ev headers org)
    (λ c s', authenticate ev headers org s = (Next c, s') ∧ is_Some (si_store s) ∧ is_Some (pc_user_id (ac_principal c)) ∧ touched s s')
    (touched s) s.
Proof.
  assert (Hw : wp (authenticate ev headers org)
    (λ c s', is_Some (si_store s) ∧ is_Some (pc_user_id (ac_principal c)) ∧ touched s s') (touched s) s).
  { unfold authenticate. assert (Ht : touched s s) by by left.
    wp_step. wp_step; [done|]. wp_step.
    destruct (si_store s) as [d|] eqn:Hd; [|unfold wp, store, mbind, handler_bind, get, lift; by rewrite Hd].
    eapply wp_store; [done|]. destruct (starts_with "nss_" _); [|destruct (starts_with "nsk_" _)].
    - wp_step. wp_step; [done|]. destruct a0 as [id r]. wp_step. wp_step; [done|]. wp_step. wp_step; [done|]. by wp_step.
    - assert (Ht2 : ∀ id now, touched s (with_store s (Some (touch_api_key d id now)))) by (intros; right; eauto).
      wp_step. wp_step; [done|]. destruct a0 as [id r]. wp_step. wp_step; [done|]. wp_step. wp_step. wp_step.
      wp_step; [done|]. wp_step. wp_step; [done|]. by wp_step.
    - done. }
  unfold wp in *. destruct (authenticate ev headers org s) as [[c| |] s']; naive_solver.
Qed.

(** The caller: authenticated for [org], with the context [c]. *)
Definition caller (s : Site) (org : option string) (c : AuthContext) : Prop := ∃ s', authenticate ev headers org s = (Next c, s').

Lemma with_same_store s d : si_store s = Some d → with_store s (Some (set_api_keys d (dr_api_keys d))) = s.
Proof. destruct s, d. simpl. by intros ->. Qed.

Lemma touched_store s s' d :
  touched s s' → si_store s = Some d → ∃ keys, s' = with_store s (Some (set_api_keys d keys)).
Proof.
  intros [->|(d' & id & now & Hd' & ->)] Hd; [exists (dr_api_keys d); by rewrite with_same_store|].
  assert (d' = d) as -> by congruence. by eexists.
Qed.

(** A handler that begins with a call that authenticates. *)
Lemma wp_caller {A} (m : Handler HubError AuthContext) org (f : AuthContext → Handler Response A) g Q E s :
  (∀ Q' E', wp (authenticate ev headers org) (λ c s', Q' c s' ∧ E' s') E' s → wp m Q' E' s) →
  (∀ s', touched s s' → E s') →
  (∀ c d keys, caller s org c → si_store s = Some d → is_Some (pc_user_id (ac_principal c)) →
     wp (f c) Q E (with_store s (Some (set_api_keys d keys)))) →
  wp (calling g m ≫= f) Q E s.
Proof.
  intros Hm HE Hf. apply wp_bind, wp_calling, Hm. eapply wp_mono; [apply wp_authenticate| |done].
  intros c s' (Ha & [d Hd] & Hu & Ht). split; [|by apply HE]. destruct (touched_store _ _ _ Ht Hd) as [keys ->].
  apply Hf; try done. by eexists.
Qed.

Lemma authorize_wp org p s Q E :
  wp (authenticate ev headers (Some org)) (λ c s', Q c s' ∧ E s') E s → wp (authorize ev headers org p) Q E s.
Proof.
  intros Hw. unfold authorize. apply wp_bind. eapply wp_mono; [exact Hw| |done]. intros c s' [HQ HE].
  apply wp_bind, wp_exit_if; [done|]. intros _. by apply wp_ret.
Qed.
Lemma require_browser_wp org s Q E :
  wp (authenticate ev headers org) (λ c s', Q c s' ∧ E s') E s → wp (require_browser ev headers org) Q E s.
Proof.
  intros Hw. unfold require_browser. apply wp_bind. eapply wp_mono; [exact Hw| |done]. intros c s' [HQ HE].
  apply wp_bind, wp_exit_if; [done|]. intros _. by apply wp_ret.
Qed.
Lemma authenticate_wp org s Q E :
  wp (authenticate ev headers org) (λ c s', Q c s' ∧ E s') E s → wp (authenticate ev headers org) Q E s.
Proof. intros Hw. eapply wp_mono; [exact Hw| |done]. naive_solver. Qed.

(** ** Owners *)

(** The schema's check: an invitation never makes an owner. *)
Definition invites_grant_no_owner (d : Directory) : Prop := map_Forall (λ _ v, iv_role v ≠ "owner") (dr_invites d).

(** Whoever is or ceases to be an owner owes it to an owner of that organization,
    or founded it. *)
Definition owners_justified (s : Site) (d d' : Directory) : Prop :=
  ∀ o u, (owns d o u ↔ owns d' o u)
    ∨ (∃ c, caller s (Some o) c ∧ pc_role (ac_principal c) = Owner)
    ∨ (dr_organizations d !! o = None ∧ ∃ c, caller s None c ∧ pc_user_id (ac_principal c) = Some u).
Definition justified (s s' : Site) : Prop :=
  match si_store s with
  | None => si_store s' = None
  | Some d => ∃ d', si_store s' = Some d'
      ∧ (invites_grant_no_owner d → invites_grant_no_owner d' ∧ owners_justified s d d')
  end.

Lemma justified_quiet s s' d d' :
  si_store s = Some d → si_store s' = Some d' → dr_memberships d' = dr_memberships d → dr_invites d' = dr_invites d → justified s s'.
Proof.
  unfold justified. intros Hd Hd' Hm Hi. rewrite Hd. exists d'. split; [done|]. unfold invites_grant_no_owner, owners_justified, owns.
  rewrite Hi, Hm. intros. split; [done|]. by left.
Qed.

Lemma justified_touched s s' : touched s s' → justified s s'.
Proof.
  intros Ht. destruct (si_store s) as [d|] eqn:Hd.
  - destruct (touched_store _ _ _ Ht Hd) as [keys ->]. by eapply justified_quiet.
  - unfold justified. rewrite Hd. destruct Ht as [->|(d & ? & ? & Hd' & _)]; [done|]. congruence.
Qed.
Hint Resolve justified_touched : core.

Lemma same_invites d d' : dr_invites d' = dr_invites d → invites_grant_no_owner d → invites_grant_no_owner d'.
Proof. unfold invites_grant_no_owner. by intros ->. Qed.

Lemma justified_roles s s' d d' :
  si_store s = Some d → si_store s' = Some d' → (invites_grant_no_owner d → invites_grant_no_owner d') →
  (invites_grant_no_owner d → owners_justified s d d') → justified s s'.
Proof. unfold justified. intros Hd Hd' Hi Hj. rewrite Hd. exists d'. split; [done|]. intros Hok. split; [by apply Hi|by apply Hj]. Qed.
End callers.

(** A handler from the call that authenticates on. *)
Ltac wp_begin :=
  lazymatch goal with
  | |- wp (mbind _ (calling _ (authorize _ _ _ _))) _ _ _ => eapply wp_caller; [intros ? ?; apply authorize_wp| |]
  | |- wp (mbind _ (calling _ (require_browser _ _ _))) _ _ _ => eapply wp_caller; [intros ? ?; apply require_browser_wp| |]
  | |- wp (mbind _ (calling _ (authenticate _ _ _))) _ _ _ => eapply wp_caller; [intros ? ?; apply authenticate_wp| |]
  end; [by auto|intros ? ? ? ? ? ?].
Ltac quiet := solve [eapply justified_quiet; [eassumption|reflexivity|reflexivity|reflexivity]].
Ltac wp_run := repeat (wp_step; try quiet).

Section owners.
Context `{!Libraries, !TextOrder} (ev : Env) (headers : Headers).
#[local] Abbreviation justifies m := (∀ s, wp m (λ _ s', justified ev headers s s') (justified ev headers s) s).
#[local] Hint Resolve justified_touched : core.

Lemma list_organizations_justified : justifies (list_organizations ev headers).
Proof. intros s. unfold list_organizations. wp_begin. wp_run. Qed.
Lemma list_members_justified o : justifies (list_members ev headers o).
Proof. intros s. unfold list_members. wp_begin. wp_run. Qed.
Lemma list_invites_justified o : justifies (list_organization_invites ev headers o).
Proof. intros s. unfold list_organization_invites. wp_begin. wp_run. Qed.
Lemma list_api_keys_justified o q : justifies (list_api_keys ev headers o q).
Proof. intros s. unfold list_api_keys. wp_begin. wp_run. Qed.
Lemma list_audit_logs_justified o q : justifies (list_audit_logs ev headers o q).
Proof. intros s. unfold list_audit_logs. wp_begin. wp_run. Qed.
Lemma list_credentials_justified o q : justifies (list_worker_credentials ev headers o q).
Proof. intros s. unfold list_worker_credentials. wp_begin. wp_run. Qed.
Lemma get_quota_justified o : justifies (get_quota ev headers o).
Proof. intros s. unfold get_quota. wp_begin. wp_run. Qed.
Lemma update_quota_justified o r : justifies (update_quota ev headers o r).
Proof. intros s. unfold update_quota, audit_as. wp_begin. wp_run. Qed.

Lemma create_api_key_justified o r : justifies (create_api_key ev headers o r).
Proof.
  intros s. unfold create_api_key. wp_begin. wp_run.
  all: match goal with H : Accounts.create_api_key _ _ = Ok _ |- _ => apply create_api_key_Ok in H as (_ & _ & _ & ? & -> & _) end; quiet.
Qed.
Lemma create_credential_justified o r : justifies (create_worker_credential ev headers o r).
Proof.
  intros s. unfold create_worker_credential. wp_begin. wp_run.
  all: match goal with H : Accounts.create_worker_credential _ _ = Ok _ |- _ => apply create_worker_credential_Ok in H as (_ & _ & ? & -> & _) end;
    quiet.
Qed.

Lemma revoke_api_key_keeps d now o k : ∃ keys, (Accounts.revoke_api_key d now o k).2 = set_api_keys d keys.
Proof.
  unfold Accounts.revoke_api_key. destruct (api_key_for_org d o k) as [x|]; [case_bool_decide|]; try by eexists.
  all: exists (dr_api_keys d); by destruct d.
Qed.
Lemma revoke_credential_keeps d now o k : ∃ cs, (Accounts.revoke_worker_credential d now o k).2 = set_credentials d cs.
Proof.
  unfold Accounts.revoke_worker_credential. destruct (worker_credential_for_org d o k) as [x|]; [case_bool_decide|]; try by eexists.
  all: exists (dr_credentials d); by destruct d.
Qed.

Lemma revoke_api_key_justified o k : justifies (revoke_api_key ev headers o k).
Proof.
  intros s. unfold revoke_api_key, perform. wp_begin.
  destruct (revoke_api_key_keeps (set_api_keys d keys) (ev_now ev 1) o k) as [ks Hks]. wp_run; rewrite Hks; quiet.
Qed.
Lemma revoke_credential_justified o k : justifies (revoke_worker_credential ev headers o k).
Proof.
  intros s. unfold revoke_worker_credential, perform, disconnect_credentials. wp_begin.
  destruct (revoke_credential_keeps (set_api_keys d keys) (ev_now ev 1) o k) as [ks Hks]. wp_run; rewrite Hks; quiet.
Qed.

(** *** Handlers that change members *)

Lemma insert_organization_members d o name u now d' :
  insert_organization d o name u now = Ok d' →
  dr_organizations d !! o = None ∧ dr_invites d' = dr_invites d
  ∧ dr_memberships d' = <[(o, u) := mkMembershipRow "owner" now now]> (dr_memberships d).
Proof.
  unfold insert_organization. intros Hi. inv_ok.
  repeat match goal with H : insert_row _ _ _ = Ok _ |- _ => apply insert_row_Ok in H as [? ->] end. done.
Qed.

(** The owners change only at the key that is set. *)
Lemma owns_insert d d' k x o u :
  dr_memberships d' = <[k := x]> (dr_memberships d) → (o, u) ≠ k → owns d o u ↔ owns d' o u.
Proof. intros Hm Hne. unfold owns. rewrite Hm. by rewrite lookup_insert_ne by done. Qed.

Lemma create_organization_justified name : justifies (create_organization ev headers name).
Proof.
  intros s. unfold create_organization. wp_begin. wp_run.
  match goal with H : create_organization_for_user _ _ _ _ _ = Ok _ |- _ => unfold create_organization_for_user in H; rename H into Hc end.
  apply bind_Ok in Hc as (d1 & (Hno & Hi & Hm)%insert_organization_members & [= <- <-]).
  eapply justified_roles; [eassumption|reflexivity|by apply same_invites|]. intros _ o u.
  destruct (decide ((o, u) = (ev_uuid ev 1, user_of c))) as [[= -> ->]|Hne].
  - right; right. split; [done|]. exists c. split; [done|]. unfold user_of.
    match goal with H : is_Some (pc_user_id _) |- _ => destruct H as [? ->] end. done.
  - left. by eapply (owns_insert _ _ _ _ _ _ Hm).
Qed.

Lemma justified_invites s s' d d' :
  si_store s = Some d → si_store s' = Some d' → dr_memberships d' = dr_memberships d →
  (invites_grant_no_owner d → invites_grant_no_owner d') → justified ev headers s s'.
Proof. intros Hd Hd' Hm Hi. eapply justified_roles; [done..|]. intros _ o u. left. unfold owns. by rewrite Hm. Qed.

Lemma role_name_owner r : role_name r = "owner" ↔ r = Owner.
Proof. by destruct r. Qed.

Lemma create_invite_justified o r e : justifies (create_organization_invite ev headers o r e).
Proof.
  intros s. unfold create_organization_invite, audit_as. wp_begin. wp_run.
  all: match goal with H : Accounts.create_organization_invite _ _ = Ok _ |- _ =>
    apply create_invite_Ok in H as (Hr & _ & _ & v & -> & _ & Hv) end.
  all: eapply justified_invites; [eassumption|reflexivity|reflexivity|].
  all: intros Hok; apply map_Forall_insert_2; [|exact Hok]; rewrite Hv, role_name_owner; exact Hr.
Qed.

Lemma revoke_invite_keeps d now o i :
  dr_memberships (Accounts.revoke_organization_invite d now o i).2 = dr_memberships d
  ∧ (invites_grant_no_owner d → invites_grant_no_owner (Accounts.revoke_organization_invite d now o i).2).
Proof.
  unfold Accounts.revoke_organization_invite. destruct (dr_invites d !! i) as [v|] eqn:Hv; [|done].
  destruct (_ && _); [|done]. split; [done|]. intros Hok. apply map_Forall_insert_2; [by apply (Hok i v)|exact Hok].
Qed.

Lemma revoke_invite_justified o i : justifies (revoke_organization_invite ev headers o i).
Proof.
  intros s. unfold revoke_organization_invite, perform, audit_as. wp_begin.
  destruct (revoke_invite_keeps (set_api_keys d keys) (ev_now ev 1) o i) as [Hm Hi].
  wp_run; (eapply justified_invites; [eassumption|reflexivity|exact Hm|exact Hi]).
Qed.

Lemma accept_invite_keeps d now h u m d' :
  Accounts.accept_organization_invite d now h u = Ok (m, d') → invites_grant_no_owner d →
  invites_grant_no_owner d' ∧ ∀ o v, owns d o v ↔ owns d' o v.
Proof.
  unfold Accounts.accept_organization_invite. intros Ha Hok. apply bind_Ok in Ha as ([i v] & Hs%ok_or_Ok & Ha).
  apply select_Some in Hs as [Hv _]. apply bind_Ok_tt in Ha as [_ Ha]. apply bind_Ok in Ha as ([role ms] & Hj & Ha).
  apply bind_Ok in Ha as (og & _ & [= <- <-]). split.
  - apply map_Forall_insert_2; [by apply (Hok i v)|exact Hok].
  - intros o w. destruct (dr_memberships d !! (iv_organization_id v, u)) as [x|] eqn:Hx.
    { by injection Hj as <- <-. }
    apply bind_Ok_tt in Hj as [_ Hj]. apply bind_Ok in Hj as (ms' & [_ ->]%insert_row_Ok & [= <- <-]).
    destruct (decide ((o, w) = (iv_organization_id v, u))) as [[= -> ->]|Hne].
    + unfold owns. cbn [dr_memberships set_invites set_memberships]. rewrite Hx, lookup_insert_eq. split.
      * by intros (? & ? & _).
      * intros (? & [= <-] & Hr). simpl in Hr. by destruct (Hok i v Hv).
    + eapply owns_insert; [reflexivity|done].
Qed.

Lemma accept_invite_justified code : justifies (accept_organization_invite ev headers code).
Proof.
  intros s. unfold accept_organization_invite, audit_as. wp_begin. wp_run.
  match goal with H : Accounts.accept_organization_invite _ _ _ _ = Ok _ |- _ => pose proof (accept_invite_keeps _ _ _ _ _ _ H) as Hk end.
  eapply justified_roles; [eassumption|reflexivity|intros Hok; apply (Hk Hok)|]. intros Hok o u. left. apply (Hk Hok).
Qed.

(** *** Handlers that check the target's role *)

Lemma parse_role_owner r : parse_role r = Owner ↔ r = "owner".
Proof.
  unfold parse_role. destruct (role_from_str r) as [x|] eqn:Hr.
  - apply role_from_str_iff in Hr as ->. symmetry. apply role_name_owner.
  - split; [done|]. intros ->. done.
Qed.

(** The role [membership] shows is an owner's exactly when the row is. *)
Lemma membership_owner d o u m : membership d o u = Some m → mm_role m = Owner ↔ owns d o u.
Proof.
  unfold membership, owns. intros Hm. apply bind_Some in Hm as (row & Hrow & Hm). unfold membership_view in Hm.
  destruct (dr_organizations d !! o); simplify_eq/=. rewrite parse_role_owner, Hrow. naive_solver.
Qed.

Lemma guard_owner (P : bool) (c : AuthContext) :
  P && negb (bool_decide (pc_role (ac_principal c) = Owner)) = false → pc_role (ac_principal c) = Owner ∨ P = false.
Proof. case_bool_decide; [by left|]. rewrite andb_true_r. by right. Qed.

(** A change within one organization, by an owner or to nobody's ownership. *)
Lemma justified_within s s' d d' o c :
  si_store s = Some d → si_store s' = Some d' → (invites_grant_no_owner d → invites_grant_no_owner d') →
  caller ev headers s (Some o) c → (∀ o' u', o' ≠ o → owns d o' u' ↔ owns d' o' u') →
  pc_role (ac_principal c) = Owner ∨ (∀ u', owns d o u' ↔ owns d' o u') → justified ev headers s s'.
Proof.
  intros Hd Hd' Hi Hc Hother Hown. eapply justified_roles; [done..|]. intros _ o' u'.
  destruct (decide (o' = o)) as [->|Hne]; [|left; by apply Hother]. destruct Hown as [Hr|Hsame]; [right; left; eauto|by left].
Qed.

Lemma set_member_role_effect d now o u r b d' :
  set_member_role d now o u r = Ok (b, d') →
  dr_invites d' = dr_invites d ∧ (∀ o' u', (o', u') ≠ (o, u) → owns d o' u' ↔ owns d' o' u')
  ∧ (r ≠ Owner → ¬ owns d o u → ¬ owns d' o u).
Proof.
  unfold set_member_role. intros Hs. destruct (find_member _ u) as [[u1 cur]|]; [|by injection Hs as <- <-].
  inv_ok. unfold owns. cbn [dr_memberships set_memberships dr_invites]. split_and!; [done| |].
  - intros o' u' Hne. by rewrite lookup_alter_ne by done.
  - intros Hr Hno (m & Hm & Ho). rewrite lookup_alter_eq in Hm. apply fmap_Some in Hm as (m0 & _ & ->). simpl in Ho.
    by apply role_name_owner in Ho.
Qed.

Lemma change_role_justified o u r : justifies (change_member_role ev headers o u r).
Proof.
  intros s. unfold change_member_role, audit_as. wp_begin. wp_run.
  all: match goal with H : set_member_role _ _ _ _ _ = _ |- _ => apply set_member_role_effect in H as (Hi & Hne & Heq) end.
  all: match goal with H : ok_or _ _ = Ok _ |- _ => apply ok_or_Ok, membership_owner in H; rename H into Hm end.
  all: eapply (justified_within _ _ d _ o c); [eassumption|reflexivity|by apply same_invites|eassumption| |].
  1,3: intros o' u' Ho; apply Hne; congruence.
  all: repeat match goal with H : _ && negb _ = false |- _ => apply guard_owner in H as [?|?%bool_decide_eq_false]; [by left|] end.
  all: right; intros u'; destruct (decide (u' = u)) as [->|Hu]; [|apply Hne; congruence].
  all: assert (Hno : ¬ owns (set_api_keys d keys) o u) by (intros Ho; by apply Hm in Ho).
  all: split; [intros Ho; by destruct Hno|intros Ho; by destruct (Heq ltac:(done) Hno)].
Qed.

(** Removing members takes ownership from the removed only, and gives it to nobody. *)
Lemma cascade_memberships_owns gone d o u : owns (cascade_memberships gone d) o u ↔ owns d o u ∧ gone o u = false.
Proof.
  unfold owns. cbn [dr_memberships cascade_memberships set_db set_device_invites set_invites set_api_keys set_sessions set_memberships].
  split.
  - intros (m & Hm & Hr). apply delete_where_Some in Hm as [Hm Hg]. eauto.
  - intros [(m & Hm & Hr) Hg]. exists m. by rewrite delete_where_Some.
Qed.
Lemma cascade_memberships_invites gone d : invites_grant_no_owner d → invites_grant_no_owner (cascade_memberships gone d).
Proof. intros Hok i v Hv. cbn in Hv. apply delete_where_Some in Hv as [Hv _]. by apply (Hok i v). Qed.

Lemma remove_member_effect d now o u ids d' :
  Accounts.remove_member d now o u = Ok (ids, d') →
  (invites_grant_no_owner d → invites_grant_no_owner d') ∧ (∀ o' u', (o', u') ≠ (o, u) → owns d o' u' ↔ owns d' o' u')
  ∧ (¬ owns d o u → ¬ owns d' o u).
Proof.
  unfold Accounts.remove_member. intros Hs. destruct (find_member _ u) as [[u1 cur]|]; [|by injection Hs as <- <-].
  inv_ok. split_and!.
  - intros Hok. by apply cascade_memberships_invites.
  - intros o' u' Hne. rewrite cascade_memberships_owns. change (owns (set_credentials d ?x) o' u') with (owns d o' u').
    destruct (String.eqb_spec o' o) as [->|], (String.eqb_spec u' u) as [->|]; simpl; naive_solver.
  - intros Hno [Ho _]%cascade_memberships_owns. by apply Hno.
Qed.

Lemma remove_member_justified o u : justifies (remove_member ev headers o u).
Proof.
  intros s. unfold remove_member, disconnect_credentials, audit_as. wp_begin. wp_run.
  all: match goal with H : Accounts.remove_member _ _ _ _ = _ |- _ => apply remove_member_effect in H as (Hi & Hne & Heq) end.
  all: match goal with H : ok_or (NotFound "member") (membership _ _ _) = Ok _ |- _ => apply ok_or_Ok, membership_owner in H; rename H into Hm end.
  all: eapply (justified_within _ _ d _ o c); [eassumption|reflexivity|exact Hi|eassumption| |].
  1,3: intros o' u' Ho; apply Hne; congruence.
  all: repeat match goal with H : _ && negb _ = false |- _ => apply guard_owner in H as [?|?%bool_decide_eq_false]; [by left|] end.
  all: right; intros u'; destruct (decide (u' = u)) as [->|Hu]; [|apply Hne; congruence].
  all: assert (Hno : ¬ owns (set_api_keys d keys) o u) by (intros Ho; by apply Hm in Ho).
  all: split; [intros Ho; by destruct Hno|intros Ho; by destruct (Heq Hno)].
Qed.

Lemma transfer_justified o u : justifies (transfer_organization_owner ev headers o u).
Proof.
  intros s. unfold transfer_organization_owner, audit_as. wp_begin. wp_run.
  all: match goal with H : transfer_owner _ _ _ _ _ = Ok _ |- _ => unfold transfer_owner in H; rename H into Ht end. inv_ok.
  all: match goal with H : negb (bool_decide _) = false |- _ => apply negb_false_iff, bool_decide_eq_true in H end.
  eapply (justified_within _ _ d _ o c); [eassumption|reflexivity|by apply same_invites|eassumption| |by left].
  intros o' u' Ho%String.eqb_neq. unfold owns. cbn [dr_memberships Accounts.audit set_audit set_memberships set_api_keys].
  rewrite map_lookup_imap. destruct (dr_memberships d !! (o', u')); [|done]. cbn [mbind option_bind fst]. by rewrite Ho.
Qed.

Lemma delete_objects_wp Q E ks s :
  (∀ objects, Q tt (with_objects s objects)) → (∀ objects, E (with_objects s objects)) → wp (delete_objects ev ks) Q E s.
Proof.
  revert s. induction ks as [|k ks IH]; intros s HQ HE; cbn [delete_objects].
  - apply wp_ret. specialize (HQ (si_objects s)). by destruct s.
  - wp_step. wp_step; [specialize (HE (si_objects s)); by destruct s|]. wp_step. wp_step. apply IH; [apply HQ|apply HE].
Qed.

Lemma delete_organization_effect d o :
  (invites_grant_no_owner d → invites_grant_no_owner (Accounts.delete_organization d o).2)
  ∧ ∀ o' u', o' ≠ o → owns d o' u' ↔ owns (Accounts.delete_organization d o).2 o' u'.
Proof.
  unfold Accounts.delete_organization. destruct (dr_organizations d !! o) as [og|]; [|done]. split.
  - intros Hok. by apply (cascade_memberships_invites _ (set_audit d _)).
  - intros o' u' Hne%String.eqb_neq.
    pose proof (cascade_memberships_owns (λ x _, String.eqb x o) d o' u') as Hc. cbn beta in Hc. rewrite Hne in Hc.
    change (owns d o' u' ↔ owns (cascade_memberships (λ x _, String.eqb x o) d) o' u'). naive_solver.
Qed.

Lemma delete_organization_justified o confirm : justifies (delete_organization ev headers o confirm).
Proof.
  intros s. unfold delete_organization, perform. wp_begin. wp_run.
  apply delete_objects_wp; [intros objects|intros objects; quiet].
  match goal with H : negb (bool_decide _) = false |- _ => apply negb_false_iff, bool_decide_eq_true in H end.
  destruct (delete_organization_effect (set_api_keys d keys) o) as [Hi Ho].
  wp_run; (eapply (justified_within _ _ d _ o c); [eassumption|reflexivity|exact Hi|eassumption|exact Ho|by left]).
Qed.

(** C17: Whoever is not an owner can neither make nor unmake one: through any
    request on organizations, members, invitations, keys, quotas or credentials,
    from a browser session or an API key, whether a user owns an organization
    changes only if the caller is at that moment an owner of it, or has just founded
    it.  No request panics, whether or not there is a store. *)
Theorem owners_changed_by_owners_only r s :
  let '(f, s') := handle ev headers r s in
  f ≠ Panic ∧ justified ev headers s s'.
Proof.
  assert (Hw : wp (handle ev headers r) (λ _ s', justified ev headers s s') (justified ev headers s) s).
  { destruct r; cbn [handle];
    [apply list_organizations_justified|apply create_organization_justified|apply delete_organization_justified|
     apply list_members_justified|apply change_role_justified|apply remove_member_justified|apply transfer_justified|
     apply list_invites_justified|apply create_invite_justified|apply revoke_invite_justified|
     apply accept_invite_justified|apply list_api_keys_justified|apply create_api_key_justified|
     apply revoke_api_key_justified|apply get_quota_justified|apply update_quota_justified|
     apply list_audit_logs_justified|apply list_credentials_justified|apply create_credential_justified|
     apply revoke_credential_justified]. }
  unfold wp in Hw. by destruct (handle ev headers r s) as [[]].
Qed.
End owners.

(** ** Keys *)

Section keys.
Context `{!Libraries, !LibraryLaws, !TextOrder} (ev : Env) (headers : Headers).

Lemma require_browser_Next org s c s' :
  require_browser ev headers org s = (Next c, s') → authenticate ev headers org s = (Next c, s') ∧ pc_kind (ac_principal c) = BrowserSession.
Proof.
  unfold require_browser. intros Hr. inv_next.
  match goal with H : negb (bool_decide _) = false |- _ => apply negb_false_iff, bool_decide_eq_true in H end. done.
Qed.

(** A browser session's caller is a member of the organization named, and the
    store is as it was. *)
Lemma browser_member org s c s' d :
  authenticate ev headers (Some org) s = (Next c, s') → pc_kind (ac_principal c) = BrowserSession → si_store s = Some d →
  secrets_unique d →
  s' = s ∧ ∃ u m, pc_user_id (ac_principal c) = Some u ∧ pc_organization_id (ac_principal c) = org
    ∧ membership d org u = Some m ∧ pc_role (ac_principal c) = mm_role m.
Proof.
  intros Ha Hk Hd Hu. destruct (authenticate_kinds _ _ _ _ _ _ Ha) as (token & d' & Ht & _ & [Hp|Hp]).
  - eapply authenticate_session in Ha as (id & r & m & _ & Hm & -> & ->); [|done..]. split; [done|]. by exists (bs_user_id r), m.
  - eapply authenticate_key in Ha as (id & k & m & _ & _ & _ & -> & _); [|done..]. done.
Qed.

(** The row of a new key. *)
Definition new_key_row (i : NewApiKey) : ApiKeyRow :=
  mkApiKeyRow (nk_organization_id i) (nk_creator_user_id i) (nk_name i) (nk_prefix i) (nk_key_hash i) (nk_scopes i)
    (nk_created_at i) None (nk_expires_at i) None.
Lemma create_api_key_row d i d' :
  Accounts.create_api_key d i = Ok d' → d' = set_api_keys d (<[nk_id i := new_key_row i]> (dr_api_keys d)).
Proof.
  unfold Accounts.create_api_key. intros Hc. inv_ok.
  match goal with H : insert_row _ _ _ = Ok _ |- _ => by apply insert_row_Ok in H as [? ->] end.
Qed.

Lemma generated_key_graphic u1 u2 :
  graphic u1 = true → graphic u2 = true → graphic (gs_plaintext (generate_secret "nsk" u1 u2)) = true.
Proof. intros Ha Hb. unfold graphic in *. cbn [gs_plaintext generate_secret]. by rewrite !str_all_app, Ha, Hb. Qed.

(** A key in the table authenticates as its creator. *)
Lemma key_authenticates s d id k m tok ev2 headers2 :
  si_store s = Some d → secrets_unique d → dr_api_keys d !! id = Some k → ak_key_hash k = hash_secret tok → ak_revoked_at k = None →
  starts_with "nsk_" tok = true → graphic tok = true → membership d (ak_organization_id k) (ak_creator_user_id k) = Some m →
  headers2 !! "authorization" = Some ("Bearer " +:+ tok) → headers2 !! "x-organization-id" = None →
  unexpired (ak_expires_at k) (ev_now ev2 0) →
  ∃ s2, authenticate ev2 headers2 None s = (Next (key_context id k m), s2).
Proof.
  intros Hd Hu Hk Hh Hr Hp Hg Hm Ha Ho He. eexists. eapply (authenticate_key ev2 headers2 None s d tok); [|done..|].
  - rewrite Ha. apply bearer_token_round_trip; [|done]. by intros ->.
  - exists id, k, m. split_and!; try done. unfold requested_organization. by rewrite Ho.
Qed.

(** An API key that is handed out works, and does no more than it was asked
    to and its creator may: its scopes are those requested, each of them held by the
    creator's role; until it expires it authenticates as the creator in that
    organization, and is allowed exactly what the creator's current role allows
    within its scopes. *)
Theorem created_key_within_role org request s r s' d :
  create_api_key ev headers org request s = (Next r, s') → si_store s = Some d → secrets_unique d → uuids_graphic ev →
  ∃ c key plaintext, caller ev headers s (Some org) c ∧ rp_body r = KeyReply key plaintext
    ∧ (∀ x, x ∈ kv_scopes key ↔ x ∈ cr_scopes request)
    ∧ (∀ x, x ∈ kv_scopes key → ∃ p, scope_permission x = Some p ∧ role_allows (pc_role (ac_principal c)) p = true)
    ∧ ∀ ev2 headers2, headers2 !! "authorization" = Some ("Bearer " +:+ plaintext) → headers2 !! "x-organization-id" = None →
        unexpired (kv_expires_at key) (ev_now ev2 0) →
        ∃ c2 s2, authenticate ev2 headers2 None s' = (Next c2, s2)
          ∧ pc_kind (ac_principal c2) = ApiKey ∧ pc_user_id (ac_principal c2) = pc_user_id (ac_principal c)
          ∧ pc_organization_id (ac_principal c2) = org
          ∧ ∀ p, allows (ac_principal c2) p = true ↔ role_allows (pc_role (ac_principal c)) p = true ∧ scope p ∈ kv_scopes key.
Proof.
  intros Hc Hd Hu Hg. unfold create_api_key in Hc. inv_next.
  match goal with H : require_browser _ _ _ _ = (Next ?c0, _) |- _ => rename c0 into c; apply require_browser_Next in H as [Ha Hk] end.
  pose proof Ha as Hcall. eapply browser_member in Ha as (-> & u & m & Hpu & _ & Hm & Hrole); [|done..].
  match goal with H : validate_scopes _ _ = Ok ?l |- _ => rename l into scopes; apply validate_scopes_sound in H as (_ & Hreq & Hrl) end.
  simplify_eq. match goal with H : secrets_unique ?x |- _ => rename x into d end.
  match goal with H : Accounts.create_api_key d ?i = Ok ?d1 |- _ =>
    set (new := i) in H; pose proof (run_op_unique d (AoCreateApiKey new) Hu) as Hu1; cbn [run_account_op] in Hu1; rewrite H in Hu1;
    cbn [committed'] in Hu1; apply create_api_key_row in H; subst d1 end.
  cbn [si_store with_store] in *. simplify_eq.
  match goal with H : api_key_by_hash _ _ = Some ?kr |- _ => destruct kr as [id k]; apply api_key_by_hash_iff in H as [Hrow Hhash]; [|done] end.
  assert (id = ev_uuid ev 3) as ->.
  { eapply (su_keys _ Hu1 id (ev_uuid ev 3) k (new_key_row new)); [done|apply lookup_insert_eq|]. by rewrite Hhash. }
  assert (k = new_key_row new) as ->.
  { cbn [dr_api_keys set_api_keys] in Hrow. rewrite (lookup_insert_eq _ (ev_uuid ev 3)) in Hrow. by simplify_eq. }
  assert (Hsc : key_scopes (new_key_row new) = scopes).
  { unfold key_scopes. cbn [ak_scopes new_key_row nk_scopes new]. destruct (scopes_serialize scopes) as [t Ht]. rewrite Ht.
    by rewrite (scopes_round_trip scopes t Ht). }
  match goal with H : audit _ _ _ _ _ _ _ _ _ _ _ _ = _ |- _ => apply audit_any in H as [_ [[? _]|(d2 & text & Hd2 & ->)]] end; [done|].
  cbn [si_store with_store] in Hd2. injection Hd2 as <-. exists c. eexists _, _. split; [by eexists|]. split; [reflexivity|].
  cbn [kv_scopes key_view kv_expires_at]. rewrite Hsc. split; [done|]. split; [done|]. intros ev2 headers2 Hb Ho He.
  assert (Hcu : user_of c = u) by (unfold user_of; by rewrite Hpu).
  eset (d2 := Accounts.audit _ _). assert (Hu2 : secrets_unique d2) by by destruct Hu1.
  assert (Hm2 : membership d2 org (user_of c) = Some m) by by rewrite Hcu.
  match goal with |- context [authenticate ev2 headers2 None ?st] =>
    destruct (key_authenticates st d2 (ev_uuid ev 3) (new_key_row new) m _ ev2 headers2 eq_refl Hu2 Hrow eq_refl eq_refl
                (proj2 (prefix_app _ _) (ex_intro _ _ eq_refl)) (generated_key_graphic _ _ (Hg 1%nat) (Hg 2%nat)) Hm2 Hb Ho He)
      as [s2 Hs2] end.
  eexists _, s2. split; [exact Hs2|]. split_and!; [done|cbn; by rewrite Hcu, Hpu|done|]. intros p.
  unfold allows. cbn [ac_principal key_context pc_role pc_kind pc_scopes]. rewrite Hsc, <- Hrole.
  destruct (role_allows (pc_role (ac_principal c)) p); cbn [negb]; [|naive_solver].
  rewrite (bool_decide_eq_true_2 (ApiKey = ApiKey)) by done. cbn [negb orb]. rewrite bool_decide_eq_true, elem_of_list_to_set.
  naive_solver.
Qed.
End keys.

(** ** A deleted organization *)

Section deletion.
Context `{!Libraries, !TextOrder} (ev : Env) (headers : Headers).

Lemma membership_organization d o u m : membership d o u = Some m → is_Some (dr_organizations d !! o).
Proof.
  unfold membership. intros (row & _ & Hm)%bind_Some. unfold membership_view in Hm. by destruct (dr_organizations d !! o).
Qed.

Lemma caller_organization s o c d : caller ev headers s (Some o) c → si_store s = Some d → is_Some (dr_organizations d !! o).
Proof.
  intros [s' Ha] Hd. unfold authenticate in Ha. inv_next. simplify_eq. destruct (starts_with "nss_" _); [|destruct (starts_with "nsk_" _)].
  - inv_next. match goal with x : string * SessionRow |- _ => destruct x as [id r] end. inv_next. by eapply membership_organization.
  - inv_next. match goal with x : string * ApiKeyRow |- _ => destruct x as [id k] end. inv_next.
    match goal with H : context [requested_organization] |- _ =>
      change (negb (String.eqb o (ak_organization_id k)) = false) in H; apply negb_false_iff, String.eqb_eq in H as -> end.
    by eapply membership_organization.
  - by inv_next.
Qed.

(** Nothing of the organization in the store. *)
Record store_without (o : string) (d : Directory) : Prop := {
  sw_organization : dr_organizations d !! o = None;
  sw_members u : dr_memberships d !! (o, u) = None;
  sw_sessions id r : dr_sessions d !! id = Some r → bs_organization_id r ≠ o;
  sw_keys id k : dr_api_keys d !! id = Some k → ak_organization_id k ≠ o;
  sw_credentials id c : dr_credentials d !! id = Some c → wc_organization_id c ≠ o;
  sw_invites id v : dr_invites d !! id = Some v → iv_organization_id v ≠ o;
  sw_device_invites id v : dr_device_invites d !! id = Some v → di_organization_id v ≠ o;
  sw_audit a : a ∈ dr_audit d → au_organization_id a ≠ Some o;
  sw_jobs j : db_jobs (dr_db d) !! (o, j) = None;
  sw_artifacts a : db_artifacts (dr_db d) !! (o, a) = None;
  sw_workers w : db_workers (dr_db d) !! (o, w) = None;
  sw_quota : db_policies (dr_db d) !! o = None ∧ db_usage (dr_db d) !! o = None;
}.

Lemma delete_where_None {K A} `{Countable K} (p : K → A → bool) m k : (∀ a, p k a = true) → delete_where p m !! k = None.
Proof. intros Hp. apply eq_None_not_Some. intros [a Ha]. apply delete_where_Some in Ha as [_ Ha]. by rewrite Hp in Ha. Qed.

Lemma delete_organization_without d o :
  is_Some (dr_organizations d !! o) →
  (Accounts.delete_organization d o).1 = true ∧ store_without o (Accounts.delete_organization d o).2.
Proof.
  intros [og Hog]. unfold Accounts.delete_organization. rewrite Hog. split; [done|]. split;
    cbn [snd dr_organizations dr_memberships dr_sessions dr_api_keys dr_credentials dr_invites dr_device_invites dr_audit dr_db set_db
         set_device_invites set_credentials set_organizations cascade_memberships set_invites set_api_keys set_sessions set_memberships
         set_audit purge_db db_jobs db_artifacts db_workers db_policies db_usage].
  - apply lookup_delete_eq.
  - intros u. apply delete_where_None. intros a. apply String.eqb_refl.
  - intros id r [_ Hr%String.eqb_neq]%delete_where_Some. done.
  - intros id r [_ Hr%String.eqb_neq]%delete_where_Some. done.
  - intros id r [_ Hr%String.eqb_neq]%delete_where_Some. done.
  - intros id r [_ Hr%String.eqb_neq]%delete_where_Some. done.
  - intros id r [_ Hr%String.eqb_neq]%delete_where_Some. done.
  - intros a Ha%list_elem_of_In%filter_In. destruct Ha as [_ Ha%negb_true_iff%bool_decide_eq_false]. done.
  - intros j. apply delete_where_None. intros a. apply String.eqb_refl.
  - intros j. apply delete_where_None. intros a. apply String.eqb_refl.
  - intros j. apply delete_where_None. intros a. apply String.eqb_refl.
  - split; apply lookup_delete_eq.
Qed.

Lemma delete_organization_others d o o' :
  o' ≠ o →
  dr_organizations (Accounts.delete_organization d o).2 !! o' = dr_organizations d !! o'
  ∧ ∀ u, dr_memberships (Accounts.delete_organization d o).2 !! (o', u) = dr_memberships d !! (o', u).
Proof.
  intros Hne. unfold Accounts.delete_organization. destruct (dr_organizations d !! o); [|done].
  cbn [snd dr_organizations dr_memberships set_db set_device_invites set_credentials set_organizations cascade_memberships
       set_invites set_api_keys set_sessions set_memberships set_audit].
  split; [by rewrite lookup_delete_ne|]. intros u. apply option_eq. intros m. rewrite delete_where_Some. simpl.
  apply String.eqb_neq in Hne. rewrite Hne. naive_solver.
Qed.

(** The objects deleted are gone, and only those. *)
Lemma delete_objects_wp_exact Q E ks s :
  Q tt (with_objects s (si_objects s ∖ list_to_set ks)) →
  (∀ objects, E (with_objects s objects)) → wp (delete_objects ev ks) Q E s.
Proof.
  revert s. induction ks as [|k ks IH]; intros s HQ HE; cbn [delete_objects].
  - apply wp_ret. rewrite list_to_set_nil, difference_empty_L in HQ. by destruct s.
  - wp_step. wp_step; [specialize (HE (si_objects s)); by destruct s|]. wp_step. wp_step. apply IH; [|apply HE].
    cbn [si_objects with_objects]. rewrite list_to_set_cons in HQ.
    replace (si_objects s ∖ {[k]} ∖ list_to_set ks) with (si_objects s ∖ ({[k]} ∪ list_to_set ks)) by set_solver. done.
Qed.

(** Nothing of it anywhere: rows, objects, connected workers, resident jobs. *)
Record gone (o : string) (d : Directory) (s : Site) : Prop := {
  gn_store : ∃ d', si_store s = Some d' ∧ store_without o d'
    ∧ ∀ o', o' ≠ o → dr_organizations d' !! o' = dr_organizations d !! o' ∧ ∀ u, dr_memberships d' !! (o', u) = dr_memberships d !! (o', u);
  gn_objects key : key ∈ organization_object_keys d o → key ∉ si_objects s;
  gn_workers k w : sr_inner (si_sessions s) !! k = Some w → vw_organization_id (ws_view w) ≠ o;
  gn_jobs id j : hd_jobs (si_data s) !! id = Some j → hj_organization_id j ≠ o;
  gn_artifacts id a : hd_artifacts (si_data s) !! id = Some a → at_organization_id a ≠ o;
}.

End deletion.

(** ** An installation *)

Section members_examples.
#[local] Existing Instance plain_libraries.
#[local] Existing Instance byte_order.

(** Ann's browser, and Bob, an admin, with his. *)
Definition two_browsers : Directory :=
  run_account_ops ann_rows
    [AoCreateAccount 11 "bob" "org-bob" "bob@example.com" (Some "pw") "Bob's" None;
     AoCreateInvite (mkNewOrganizationInvite "inv" "org" "ann" "noi_" "code" Admin 20 1000); AoAcceptInvite 30 "code" "bob";
     AoCreateSession (mkNewSession "s1" "ann" "org" (hash_secret "nss_ann") "r1" "c1" "s1" 20 100000 900000 None None);
     AoCreateSession (mkNewSession "s2" "bob" "org" (hash_secret "nss_bob") "r2" "c2" "s2" 21 100000 900000 None None)].
Lemma two_browsers_unique : secrets_unique two_browsers.
Proof. apply run_ops_unique, ann_rows_unique. Qed.
Definition two_browsers_site : Site := with_store ann_site (Some two_browsers).
Definition bearer (token : string) : Headers := {[ "authorization" := "Bearer " +:+ token ]}.

Definition key_request : CreateApiKeyRequest := mkCreateApiKeyRequest "laptop" ["jobs:read"; "jobs:write"] None.
Definition key_made := create_api_key (day 1000 0) (bearer "nss_ann") "org" key_request two_browsers_site.

Lemma created_key_within_role_witness :
  ∃ r s' key plaintext, key_made = (Next r, s') ∧ rp_body r = KeyReply key plaintext ∧ "jobs:write" ∈ kv_scopes key.
Proof.
  assert (Hok : is_next key_made.1 = true) by (vm_compute; reflexivity).
  destruct key_made as [[r| |] s'] eqn:Hr; [clear Hok|discriminate Hok..].
  destruct (@created_key_within_role plain_libraries plain_libraries_laws (day 1000 0) (bearer "nss_ann") "org" key_request
              two_browsers_site r s' two_browsers Hr eq_refl two_browsers_unique (λ i, tally_graphic _))
    as (c & key & plaintext & _ & Hb & Hsc & _).
  exists r, s', key, plaintext. split; [reflexivity|]. split; [exact Hb|]. apply Hsc. right. left.
Defined.

Definition org_deleted := delete_organization (day 1000 0) (bearer "nss_ann") "org" " org " two_browsers_site.


(** An admin can neither make himself an owner nor demote one. *)
Example admin_refused :
  (handle (day 1000 0) (bearer "nss_bob") (ChangeMemberRole "org" "bob" Owner) two_browsers_site).2 = two_browsers_site
  ∧ (handle (day 1000 0) (bearer "nss_bob") (ChangeMemberRole "org" "ann" Member) two_browsers_site).2 = two_browsers_site.
Proof. split; vm_compute; reflexivity. Qed.
End members_examples.
