(* ===== verification/BatchApi.v ===== *)
(** Batches over HTTP ([product_api/batches.rs]): the status derived from a
    batch's jobs, the lists and the single batch, and the parameters of one item.

    Submitting and cancelling a batch are in [BatchSubmit].

    Main results: the status says exactly what the jobs' states are; the item's
    overrides replace exactly the parameters they name.  The cursor of the list of
    a batch's jobs is handed out but never read. *)

From S2P Require Import Prelude Text Json HubTypes Principal Helpers Store Batches Accounts Web Auth Paging Members.
From Stdlib Require Import ZArith Lia Ascii.

#[local] Abbreviation Headers := (gmap string string).

(** ** Status *)

Definition batch_status (c : BatchJobCounts) : string :=
  let active := (ct_received c + ct_accepted c + ct_running c + ct_uploading c)%Z in
  if (0 <? active)%Z then "running"
  else if (0 <? ct_queued c)%Z then "queued"
  else if (0 <? ct_completed c)%Z && (ct_failed c =? 0)%Z && (ct_cancelled c =? 0)%Z then "completed"
  else if (0 <? ct_cancelled c)%Z && (ct_completed c =? 0)%Z && (ct_failed c =? 0)%Z then "cancelled"
  else if (ct_completed c =? 0)%Z && ((0 <? ct_failed c)%Z || (0 <? ct_cancelled c)%Z) then "failed"
  else if (0 <? ct_completed c)%Z || (0 <? ct_failed c)%Z || (0 <? ct_cancelled c)%Z then "partial"
  else "queued".

(** The jobs of a batch. *)
Definition batch_rows (d : Db) (organization_id batch_id : string) : list JobTableRow :=
  snd <$> filter (λ kv, kv.1.1 = organization_id ∧ jt_batch_id kv.2 = Some batch_id) (map_to_list (db_jobs d)).

Definition batch_view (d : Db) (organization_id batch_id : string) (b : StoredJobBatch) : BatchView :=
  let counts := batch_job_counts d organization_id batch_id in
  mkBatchView (sb_id b) (sb_workflow_id b) (sb_workflow_version b) (sb_total_jobs b) (batch_status counts) counts (sb_created_at b).

(** ** Parameters of an item *)

Definition merge_parameters (base overrides : Json) : Json :=
  match base, overrides with
  | JObject m, JObject over => JObject (foldl (λ m kv, obj_insert kv.1 kv.2 m) m over)
  | _, _ => base
  end.

(** ** The jobs of a batch *)

(** [ORDER BY batch_index ASC]; [batch_index > $3] never holds of no index. *)
Definition batch_index (r : JobTableRow) : option Z := jt_batch_index r.
Definition index_before (a b : option Z) : Prop :=
  match a, b with Some x, Some y => (x < y)%Z | Some _, None => True | None, _ => False end.
#[export] Instance index_before_dec : RelDecision index_before.
Proof. intros [x|] [y|]; simpl; apply _. Defined.
Definition batch_jobs_page (d : Db) (organization_id batch_id : string) (limit : Z) (after_index : option Z) : list JobTableRow :=
  select_page batch_index index_before
    (match after_index with
     | None => batch_rows d organization_id batch_id
     | Some i => filter (λ r, is_Some (jt_batch_index r)) (batch_rows d organization_id batch_id)
     end) limit (Some <$> after_index).

Definition job_summary (r : JobTableRow) : BatchJobSummary :=
  let j := jt_job r in
  mkBatchJobSummary (sj_id j) (jt_batch_index r) (sj_state j) (sj_progress j) (sj_workflow_id j) (sj_workflow_version j)
    (sj_created_at j).

(** ** Handlers *)

Section batches.
Context `{!Libraries, !TextOrder} (ev : Env) (headers : Headers).
#[local] Abbreviation fail := (product_error (with_id ev headers)).

Definition list_batches (query : CursorQuery) : Handler Response Response :=
  auth ← calling fail (authorize_current ev headers JobsReadOrganization);
  let org := pc_organization_id (ac_principal auth) in
  d ← calling fail store;
  after ← lift fail (read_cursor decode_created_id_cursor (cq_cursor query));
  let page := page_of batch_created encode_created_id_cursor (job_batches_page (dr_db d) org) (batch_page_limit (cq_limit query)) after in
  mret (reply 200 (BatchPage ((λ b, batch_view (dr_db d) org (sb_id b) b) <$> page.1) page.2)).

Definition get_batch (batch_id : string) : Handler Response Response :=
  auth ← calling fail (authorize_current ev headers JobsReadOrganization);
  let org := pc_organization_id (ac_principal auth) in
  d ← calling fail store;
  b ← lift fail (ok_or (NotFound "batch") (job_batch (dr_db d) org batch_id));
  mret (reply 200 (BatchReply (batch_view (dr_db d) org batch_id b))).

Definition list_batch_jobs (batch_id : string) (query : CursorQuery) : Handler Response Response :=
  auth ← calling fail (authorize_current ev headers JobsReadOrganization);
  let org := pc_organization_id (ac_principal auth) in
  d ← calling fail store;
  let limit := batch_page_limit (cq_limit query) in
  let jobs := batch_jobs_page (dr_db d) org batch_id (i64_saturating_add limit 1) None in
  let has_more := (Z.to_nat limit <? length jobs)%nat in
  let items := job_summary <$> take (Z.to_nat limit) jobs in
  let next_cursor := if has_more then (λ j, pretty (default 0%Z (bs_batch_index j))) <$> last items else None in
  mret (reply 200 (BatchJobPage items next_cursor)).
End batches.

(** ** What the status says *)

Definition active_state (x : string) : bool :=
  String.eqb x "received" || String.eqb x "accepted" || String.eqb x "running" || String.eqb x "uploading".
Definition known_state (x : string) : Prop :=
  active_state x = true ∨ x = "queued" ∨ x = "completed" ∨ x = "failed" ∨ x = "cancelled".

Definition states_of (rows : list JobTableRow) : list string := row_state <$> rows.

Lemma batch_count_nonneg d o b x : (0 ≤ batch_count d o b x)%Z.
Proof. unfold batch_count. lia. Qed.

(** A count is positive exactly when a job is in the state. *)
Lemma batch_count_pos d o b x : (0 < batch_count d o b x)%Z ↔ x ∈ states_of (batch_rows d o b).
Proof.
  unfold batch_count, states_of, batch_rows. rewrite list_elem_of_fmap. setoid_rewrite list_elem_of_fmap. split.
  - intros Hs. destruct (map_choose (filter (λ kv, kv.1.1 = o ∧ jt_batch_id kv.2 = Some b ∧ row_state kv.2 = x) (db_jobs d)))
      as (k & r & Hr).
    { intros He. rewrite He, map_size_empty in Hs. lia. }
    apply map_lookup_filter_Some in Hr as [Hr (Ho & Hb & Hx)]. exists r. split; [done|]. exists (k, r). split; [done|].
    apply list_elem_of_filter. split; [done|]. by apply elem_of_map_to_list.
  - intros (r & -> & kv & -> & [[Ho Hb] Hin]%list_elem_of_filter).
    assert (Hne : size (filter (λ kv', kv'.1.1 = o ∧ jt_batch_id kv'.2 = Some b ∧ row_state kv'.2 = row_state kv.2) (db_jobs d)) ≠ 0%nat).
    { apply map_size_non_empty_iff. intros He. apply (f_equal (lookup kv.1)) in He. rewrite lookup_empty in He.
      apply map_lookup_filter_None in He as [He|He]; destruct kv as [k r]; apply elem_of_map_to_list in Hin; [by simplify_eq/=|].
      by apply (He r). }
    lia.
Qed.
Lemma batch_count_tests d o b x :
  (0 <? batch_count d o b x)%Z = bool_decide (x ∈ states_of (batch_rows d o b))
  ∧ (batch_count d o b x =? 0)%Z = negb (bool_decide (x ∈ states_of (batch_rows d o b))).
Proof.
  pose proof (batch_count_nonneg d o b x) as H0. case_bool_decide as Hx.
  - apply batch_count_pos in Hx. split; [by apply Z.ltb_lt|apply Z.eqb_neq; lia].
  - assert (batch_count d o b x = 0)%Z as ->; [|done].
    destruct (decide (0 < batch_count d o b x)%Z) as [Hp|]; [by apply batch_count_pos in Hp|lia].
Qed.

(** What a status means of the states. *)
Definition status_means (status : string) (states : list string) : Prop :=
  if String.eqb status "running" then ∃ x, x ∈ states ∧ active_state x = true
  else (∀ x, x ∈ states → active_state x = false) ∧
    if String.eqb status "queued" then "queued" ∈ states ∨ states = []
    else states ≠ [] ∧ "queued" ∉ states ∧
      if String.eqb status "completed" then ∀ x, x ∈ states → x = "completed"
      else if String.eqb status "cancelled" then ∀ x, x ∈ states → x = "cancelled"
      else if String.eqb status "failed" then "failed" ∈ states ∧ "completed" ∉ states
      else status = "partial" ∧ "completed" ∈ states ∧ ("failed" ∈ states ∨ "cancelled" ∈ states).

Lemma active_count d o b :
  (0 < batch_count d o b "received" + batch_count d o b "accepted" + batch_count d o b "running" + batch_count d o b "uploading")%Z
  ↔ ∃ x, x ∈ states_of (batch_rows d o b) ∧ active_state x = true.
Proof.
  pose proof (batch_count_nonneg d o b). split.
  - intros Hs. destruct (decide (0 < batch_count d o b "received")%Z) as [Hc|]; [apply batch_count_pos in Hc; by eexists|].
    destruct (decide (0 < batch_count d o b "accepted")%Z) as [Hc|]; [apply batch_count_pos in Hc; by eexists|].
    destruct (decide (0 < batch_count d o b "running")%Z) as [Hc|]; [apply batch_count_pos in Hc; by eexists|].
    assert (Hc : (0 < batch_count d o b "uploading")%Z) by lia. apply batch_count_pos in Hc. by eexists.
  - intros (x & Hx & Ha). unfold active_state in Ha. rewrite !orb_true_iff, !String.eqb_eq in Ha.
    pose proof (H "received"). pose proof (H "accepted"). pose proof (H "running"). pose proof (H "uploading").
    destruct Ha as [[[->| ->]| ->]| ->]; apply batch_count_pos in Hx; lia.
Qed.

(** Without active states: the states are the four others. *)
Lemma settled_cases (states : list string) x :
  Forall known_state states → (∀ x, x ∈ states → active_state x = false) → x ∈ states →
  x = "queued" ∨ x = "completed" ∨ x = "failed" ∨ x = "cancelled".
Proof.
  intros Hk Hn Hx. rewrite Forall_forall in Hk. destruct (Hk x Hx) as [Ha|]; [|done]. by rewrite Hn in Ha.
Qed.

(** The status shown for a batch is what its jobs are: running exactly when
    some job is with a worker, otherwise queued when one waits (or there is none
    yet), and when all have ended completed or cancelled if all did, failed if none
    completed and one failed, partial if some completed and others did not. *)
Theorem batch_status_exact d org batch :
  let states := states_of (batch_rows d org batch) in
  Forall known_state states → status_means (batch_status (batch_job_counts d org batch)) states.
Proof.
  intros states Hk. unfold batch_status, batch_job_counts.
  cbn [ct_queued ct_received ct_accepted ct_running ct_uploading ct_completed ct_failed ct_cancelled].
  match goal with |- context [(0 <? ?sum)%Z] => destruct (Z.ltb_spec 0 sum) as [Ha|Ha] end.
  { by apply active_count in Ha. }
  assert (Hn : ∀ x, x ∈ states → active_state x = false).
  { intros x Hx. apply not_true_iff_false. intros Hx'. enough (0 < 0)%Z by lia. eapply Z.lt_le_trans; [|exact Ha].
    apply active_count. eauto. }
  assert (Hcase := λ x, settled_cases states x Hk Hn). clear Hk Ha.
  destruct (batch_count_tests d org batch "queued") as [-> _], (batch_count_tests d org batch "completed") as [-> ->],
    (batch_count_tests d org batch "failed") as [-> ->], (batch_count_tests d org batch "cancelled") as [-> ->].
  fold states. assert (Hempty : "queued" ∉ states → "completed" ∉ states → "failed" ∉ states → "cancelled" ∉ states → states = []).
  { clearbody states. intros. destruct states as [|x l]; [done|].
    destruct (Hcase x (list_elem_of_here _ _)) as [->|[->|[->| ->]]]; set_solver. }
  assert (Hsome : ∀ x, x ∈ states → states ≠ []) by (intros x Hx He; rewrite He in Hx; by apply not_elem_of_nil in Hx).
  clearbody states.
  repeat case_bool_decide; unfold status_means; simpl; (split; [exact Hn|]); [by left|..|by right; apply Hempty].
  all: (split; [by eapply Hsome|]); (split; [done|]); first [by auto | idtac].
  all: intros x Hx; destruct (Hcase x Hx) as [->|[->|[->| ->]]]; done.
Qed.

(** An item's parameters are the base's with the overrides' values in place of
    those they name. *)
Lemma merge_parameters_lookup m over k :
  NoDup over.*1 →
  ∃ merged, merge_parameters (JObject m) (JObject over) = JObject merged
    ∧ obj_get k merged = match obj_get k over with Some v => Some v | None => obj_get k m end.
Proof.
  intros Hnd. eexists. split; [reflexivity|]. revert m. induction over as [|[k1 v1] over IH]; intros m; [done|].
  rewrite fmap_cons, NoDup_cons in Hnd. destruct Hnd as [Hk Hnd]. cbn [foldl fst snd]. rewrite IH by done. clear IH.
  rewrite obj_get_insert. simpl. destruct (String.eqb_spec k k1) as [->|Hne]; [|done].
  destruct (obj_get k1 over) as [v|] eqn:Hg; [|done]. exfalso. apply Hk. clear -Hg. induction over as [|[k2 v2] over IH]; [done|].
  simpl in Hg. destruct (String.eqb_spec k1 k2) as [->|]; [by left|]. right. by apply IH.
Qed.

(** The next page of a batch's jobs is the same page again: the cursor that was
    handed out is not read. *)
Lemma batch_jobs_cursor_ignored `{!Libraries} ev headers batch limit cursor cursor' :
  list_batch_jobs ev headers batch (mkCursorQuery limit cursor) = list_batch_jobs ev headers batch (mkCursorQuery limit cursor').
Proof. done. Qed.

(** ** A batch *)

(** Three jobs: one completed, one failed, one cancelled. *)
Definition ended_job (id state : string) (i : Z) : JobTableRow :=
  mkJobTableRow (mkStoredJob "org" id "a" "api_key" None "w" "1" "{}" "[]" "[]" None None None 1 state None None None 0 10 10)
    (Some "b") (Some i) None.
Definition batch_db : Db :=
  set_jobs (dr_db Accounts.no_rows)
    {[ ("org", "j1") := ended_job "j1" "completed" 0; ("org", "j2") := ended_job "j2" "failed" 1;
       ("org", "j3") := ended_job "j3" "cancelled" 2 ]}.

Lemma batch_status_exact_witness :
  batch_status (batch_job_counts batch_db "org" "b") = "partial"
  ∧ status_means (batch_status (batch_job_counts batch_db "org" "b")) (states_of (batch_rows batch_db "org" "b")).
Proof.
  split; [vm_compute; reflexivity|]. apply batch_status_exact.
  assert (Hs : forallb (λ x, existsb (String.eqb x) ["completed"; "failed"; "cancelled"]) (states_of (batch_rows batch_db "org" "b")) = true)
    by (vm_compute; reflexivity).
  apply Forall_forall. intros x Hx. rewrite forallb_forall in Hs. apply list_elem_of_In in Hx. apply Hs in Hx.
  cbn [existsb] in Hx. rewrite !orb_true_iff, !String.eqb_eq in Hx. unfold known_state. naive_solver.
Defined.
