(* ===== verification/Devices.v ===== *)
(** Devices over HTTP ([product_api/devices_workflows.rs], with the listing
    statements of [hub-store/src/devices.rs]): the list of devices, invitations to
    share one, their acceptance, and the end of a share.

    Not modelled: the workflow catalog, which reads the table of advertised
    workflows.

    Main results: a device is shared by who may share it and with who accepted
    the code, and a share is ended by who granted it; a share that begins or ends
    does so at once, for the access lists the Hub caches too; the list of devices
    can be read to the end and shows only the workflows a share allows. *)

From S2P Require Import Prelude Text Json Messages HubTypes Principal Helpers TtlCache HubState Sessions Store HubJobs Submission.
From S2P Require Import RateLimit Accounts Secrets Web OAuth Auth Paging Members.
From Stdlib Require Import ZArith Lia Ascii.

#[local] Abbreviation Headers := (gmap string string).

(** Serde's texts of the device columns. *)
Class DeviceTexts := {
  rules_from_str : string → Res string (list DeviceWorkflowRule);
  rules_to_string : list DeviceWorkflowRule → Res string string;
  capabilities_from_str : string → Res string WorkerCapabilities;
  value_from_str : string → Res string Json;
}.
(** Rules are read back. *)
Class DeviceTextLaws `{!DeviceTexts} : Prop := {
  rules_round_trip l t : rules_to_string l = Ok t → rules_from_str t = Ok l;
  rules_serialize l : ∃ t, rules_to_string l = Ok t;
}.

(** ** Rows *)

Record DeviceView := mkDeviceView {
  dv_device_organization_id : string;
  dv_device_id : string;
  dv_owner_user_id : option string;
  dv_namespace : string;
  dv_node_name : string;
  dv_worker_version : string;
  dv_capabilities_json : string;
  dv_access_kind : string;
  dv_allowed_workflows : list DeviceWorkflowRule;
  dv_max_concurrent_jobs : option Z;
  dv_grant_expires_at : option Z;
}.

Section devices.
Context `{!DeviceTexts}.

Definition device_view (key : string * string) (w : WorkerTableRow) (access_kind allowed_workflows_json : string)
    (max_concurrent_jobs grant_expires_at : option Z) : DeviceView :=
  mkDeviceView key.1 key.2 (wt_owner_user_id w) (wt_namespace w) (wt_node_name w) (wt_worker_version w)
    (wt_capabilities_json w) access_kind (parse_workflow_rules rules_from_str allowed_workflows_json)
    max_concurrent_jobs grant_expires_at.

Definition own_device (kv : (string * string) * WorkerTableRow) : DeviceView :=
  device_view kv.1 kv.2 "organization_device" "[]" None None.
Definition shared_device (d : Db) (kv : (string * string * string) * GrantRow) : option DeviceView :=
  w ← db_workers d !! kv.1.1;
  Some (device_view kv.1.1 w "shared_pool_device" (gr_allowed_workflows_json kv.2) (gr_max_concurrent_jobs kv.2)
          (gr_expires_at kv.2)).

(** The union of both SELECTs. *)
Definition user_devices (d : Db) (now : Z) (user_id organization_id : string) : list DeviceView :=
  (own_device <$> filter (λ kv, kv.1.1 = organization_id) (map_to_list (db_workers d)))
  ++ omap (shared_device d)
       (filter (λ kv, grant_in_force d now user_id organization_id kv.1 kv.2 = true) (map_to_list (db_grants d))).

Definition shareable_device_for_user (d : Directory) (organization_id device_id user_id : string) : option DeviceView :=
  w ← db_workers (dr_db d) !! (organization_id, device_id);
  if may_share d organization_id device_id user_id then Some (own_device ((organization_id, device_id), w)) else None.

Definition device_key (v : DeviceView) : string * string * string :=
  (dv_device_organization_id v, dv_device_id v, dv_access_kind v).

Section order.
Context `{!TextOrder}.

(** [ORDER BY d.organization_id,d.id,d.access_kind]. *)
Definition device_before (a b : string * string * string) : Prop :=
  text_lt a.1.1 b.1.1 ∨ a.1.1 = b.1.1 ∧ (text_lt a.1.2 b.1.2 ∨ a.1.2 = b.1.2 ∧ text_lt a.2 b.2).
#[export] Instance device_before_dec : RelDecision device_before.
Proof. intros a b. unfold device_before. apply _. Defined.

(** [ORDER BY id]. *)
Definition devices_for_user (d : Db) (now : Z) (user_id organization_id : string) : list DeviceView :=
  merge_sort (in_order dv_device_id text_lt) (user_devices d now user_id organization_id).
Definition devices_for_user_page (d : Db) (now : Z) (user_id organization_id : string)
    : Z → option (string * string * string) → list DeviceView :=
  select_page device_key device_before (user_devices d now user_id organization_id).
End order.

(** ** Devices as they are shown *)

Definition texts (value : option Json) : list string :=
  match value ≫= as_array with Some values => omap as_str values | None => [] end.
Definition public_workflow (rules : list DeviceWorkflowRule) (workflow : Json) : option PublicDeviceWorkflow :=
  id ← claim_text workflow "id";
  version ← claim_text workflow "version";
  if device_workflow_allowed rules id version then
    Some (mkPublicDeviceWorkflow id version (texts (json_get "output_types" workflow)))
  else None.

Definition public_device (device : DeviceView) (connected : bool) : PublicDevice :=
  let capabilities := match value_from_str (dv_capabilities_json device) with Ok v => Some v | Err _ => None end in
  let workflows := match (capabilities ≫= json_get "workflows") ≫= as_array with
                   | Some workflows => omap (public_workflow (dv_allowed_workflows device)) workflows
                   | None => []
                   end in
  mkPublicDevice (dv_device_organization_id device) (dv_device_id device) (dv_owner_user_id device) (dv_namespace device)
    (dv_node_name device) (dv_worker_version device) (dv_access_kind device) connected workflows (dv_allowed_workflows device)
    (dv_max_concurrent_jobs device) (dv_grant_expires_at device).

Definition grant_view (organization_id device_id grantee_user_id : string) (g : GrantRow) : DeviceGrant :=
  mkDeviceGrant (gr_id g) organization_id device_id (gr_owner_user_id g) grantee_user_id (gr_invite_id g) (gr_created_at g)
    (gr_revoked_at g) (parse_workflow_rules rules_from_str (gr_allowed_workflows_json g)) (gr_max_concurrent_jobs g)
    (gr_expires_at g).

(** ** Requests *)

Record CreateDeviceInviteRequest := mkCreateDeviceInviteRequest {
  ci_device_organization_id : string;
  ci_device_id : string;
  ci_max_uses : Z;
  ci_expires_in_seconds : option Z;
  ci_allowed_workflows : list DeviceWorkflowRule;
  ci_max_concurrent_jobs : option Z;
  ci_grant_duration_seconds : option Z;
}.
Definition one_use : Z := 1.
Record RevokeDeviceShareRequest := mkRevokeDeviceShareRequest {
  rv_device_organization_id : string;
  rv_device_id : string;
  rv_grantee_user_id : string;
}.

(** The pairs a device offers; none if its capabilities cannot be read. *)
Definition offered (capabilities_json : string) : list (string * string) :=
  match capabilities_from_str capabilities_json with
  | Ok c => (λ w, (wc_id w, wc_version w)) <$> cap_workflows c
  | Err _ => []
  end.

(** One turn of the loop over the allowed workflows; the pairs so far. *)
Definition add_rule (offers : list (string * string)) (acc : list (string * string)) (w : DeviceWorkflowRule)
    : Res HubError (list (string * string)) :=
  reject_if (String.eqb (trim (dr_id w)) "" || String.eqb (trim (dr_version w)) "")
    (InvalidRequest "allowed workflow id and version are required") ;;
  reject_if (negb (bool_decide ((dr_id w, dr_version w) ∈ offers)))
    (InvalidRequest ("device does not offer workflow " +:+ dr_id w +:+ "@" +:+ dr_version w)) ;;
  Ok ((dr_id w, dr_version w) :: acc).

(** The order of Rust's strings, byte by byte, on pairs. *)
Definition pair_le (a b : string * string) : Prop :=
  (a.1 ≠ b.1 ∧ String.le a.1 b.1) ∨ (a.1 = b.1 ∧ String.le a.2 b.2).
#[export] Instance pair_le_dec : RelDecision pair_le.
Proof. intros a b. unfold pair_le. apply _. Defined.

(** [BTreeSet] into the rules. *)
Definition normalized_rules (pairs : list (string * string)) : list DeviceWorkflowRule :=
  (λ p, mkDeviceWorkflowRule p.1 p.2) <$> merge_sort pair_le (remove_dups pairs).
End devices.

(** ** Handlers *)

Section handlers.
Context `{!Libraries, !TextOrder, !DeviceTexts} (ev : Env) (headers : Headers).
#[local] Abbreviation rid := (with_id ev headers).
#[local] Abbreviation fail := (product_error rid).

Definition list_devices (query : CursorQuery) : Handler Response Response :=
  auth ← calling fail (require_browser ev headers None);
  exit_if (negb (role_allows (pc_role (ac_principal auth)) DevicesRead))
    (fail (Forbidden "missing permission devices:read")) ;;
  after ← lift fail (read_cursor decode_device_cursor (cq_cursor query));
  d ← store_unwrap;
  let page := page_of device_key encode_device_cursor
                (devices_for_user_page (dr_db d) (ev_now ev 1) (user_of auth) (pc_organization_id (ac_principal auth)))
                (page_limit (cq_limit query)) after in
  s ← get;
  let connected := connected_identities (ev_order ev) (si_sessions s) in
  let is_connected v := is_some_and (λ workers, bool_decide (dv_device_id v ∈ workers))
                          (connected !! dv_device_organization_id v) in
  mret (reply 200 (DevicePage ((λ v, public_device v (is_connected v)) <$> page.1) page.2)).

Definition create_device_invite (request : CreateDeviceInviteRequest) : Handler Response Response :=
  let org := ci_device_organization_id request in
  let device_id := ci_device_id request in
  auth ← calling fail (require_browser ev headers (Some org));
  exit_if (negb (allows (ac_principal auth) DevicesShareOwn)) (fail (Forbidden "role cannot share devices")) ;;
  let owner := user_of auth in
  exit_if ((ci_max_uses request <? 1) || (100 <? ci_max_uses request))%Z
    (fail (InvalidRequest "max_uses must be between 1 and 100")) ;;
  exit_if (is_some_and (outside 1 1000) (ci_max_concurrent_jobs request))
    (fail (InvalidRequest "max_concurrent_jobs must be between 1 and 1000")) ;;
  exit_if (is_some_and (outside 60 2592000) (ci_grant_duration_seconds request))
    (fail (InvalidRequest "grant_duration_seconds must be between 60 and 2592000")) ;;
  let code := generate_secret "ndi" (ev_uuid ev 1) (ev_uuid ev 2) in
  let id := ev_uuid ev 3 in
  let now := ev_now ev 1 in
  let expires_at := (λ seconds, now + clamp 60 2592000 seconds * 1000)%Z <$> ci_expires_in_seconds request in
  d ← store_unwrap;
  device ← lift fail (ok_or (NotFound "shareable device") (shareable_device_for_user d org device_id owner));
  pairs ← lift fail (try_fold (add_rule (offered (dv_capabilities_json device))) [] (ci_allowed_workflows request));
  let allowed_workflows := normalized_rules pairs in
  let allowed_workflows_json := match rules_to_string allowed_workflows with Ok t => t | Err _ => "[]" end in
  execute_unit (λ e, fail (map_store e))
    (Accounts.create_device_invite d
       (mkNewDeviceInvite id org device_id owner (gs_display_prefix code) (gs_hash code) (ci_max_uses request) expires_at now
          allowed_workflows_json (ci_max_concurrent_jobs request) (ci_grant_duration_seconds request))) ;;
  let json_opt_int (o : option Z) := match o with Some n => json_int n | None => JNull end in
  audit (Some org) (Some owner) "browser_session" rid "device_invite.create" "device" (Some device_id) "success"
    (JObject [("allowed_workflows", JArray ((λ r, JObject [("id", JString (dr_id r)); ("version", JString (dr_version r))])
                                              <$> allowed_workflows));
              ("expires_at", json_opt_int expires_at);
              ("grant_duration_seconds", json_opt_int (ci_grant_duration_seconds request));
              ("invite_id", JString id);
              ("max_concurrent_jobs", json_opt_int (ci_max_concurrent_jobs request));
              ("max_uses", json_int (ci_max_uses request))]) (ev_uuid ev 4) (ev_now ev 2) ;;
  mret (reply 201 (DeviceInviteReply (mkCreatedDeviceInvite id (gs_plaintext code) (gs_display_prefix code) expires_at
                                        (ci_max_uses request) allowed_workflows (ci_max_concurrent_jobs request)
                                        (ci_grant_duration_seconds request)))).

Definition revoke_device_invite (invite_id : string) : Handler Response Response :=
  d ← calling fail store;
  invite ← lift fail (ok_or (NotFound "device invite") (dr_device_invites d !! invite_id));
  auth ← calling fail (require_browser ev headers (Some (di_organization_id invite)));
  let owner := user_of auth in
  exit_if (negb (allows (ac_principal auth) DevicesShareOwn) || negb (String.eqb (di_owner_user_id invite) owner))
    (fail (Forbidden "role cannot revoke this device invite")) ;;
  d ← store_unwrap;
  revoked ← perform (Accounts.revoke_device_invite d (ev_now ev 1) invite_id owner);
  exit_if (negb revoked) (fail (NotFound "device invite")) ;;
  mret no_content.

Definition invalidate_access {X} (user_id : string) : Handler X unit :=
  modify (λ s, with_cache s (remove_device_access_for_user (si_read_cache s) user_id)).

Definition accept_device_invite (code : string) : Handler Response Response :=
  auth ← calling fail (require_browser ev headers None);
  exit_if (negb (allows (ac_principal auth) DevicesUse)) (fail (Forbidden "missing permission devices:use")) ;;
  let grantee := user_of auth in
  d ← store_unwrap;
  accepted ← execute (λ e, fail (map_store e))
               (Accounts.accept_device_invite d (ev_now ev 1) (ev_uuid ev 1) (hash_secret (trim code)) grantee);
  let '(org, device_id, row) := accepted in
  let grant := grant_view org device_id grantee row in
  invalidate_access (dg_grantee_user_id grant) ;;
  audit (Some (dg_device_organization_id grant)) (Some grantee) "browser_session" rid "device_invite.accept" "device"
    (Some (dg_device_id grant)) "success" (JObject [("grant_id", JString (dg_id grant))]) (ev_uuid ev 2) (ev_now ev 2) ;;
  mret (reply 201 (DeviceGrantReply grant)).

Definition revoke_device_share (request : RevokeDeviceShareRequest) : Handler Response Response :=
  auth ← calling fail (require_browser ev headers (Some (rv_device_organization_id request)));
  let owner := user_of auth in
  exit_if (negb (allows (ac_principal auth) DevicesShareOwn)) (fail (Forbidden "role cannot revoke device shares")) ;;
  d ← store_unwrap;
  revoked ← perform (revoke_device_grant d (ev_now ev 1) (rv_device_organization_id request) (rv_device_id request) owner
                       (rv_grantee_user_id request));
  exit_if (negb revoked) (fail (NotFound "device share")) ;;
  invalidate_access (rv_grantee_user_id request) ;;
  mret no_content.
End handlers.

(** The requests on devices. *)
Inductive DeviceRequest :=
| ListDevices (query : CursorQuery)
| CreateDeviceInvite (request : CreateDeviceInviteRequest)
| RevokeDeviceInvite (invite_id : string)
| AcceptDeviceInvite (code : string)
| RevokeDeviceShare (request : RevokeDeviceShareRequest).

Definition handle_device `{!Libraries, !TextOrder, !DeviceTexts} (ev : Env) (headers : Headers) (r : DeviceRequest)
    : Handler Response Response :=
  match r with
  | ListDevices q => list_devices ev headers q
  | CreateDeviceInvite q => create_device_invite ev headers q
  | RevokeDeviceInvite i => revoke_device_invite ev headers i
  | AcceptDeviceInvite code => accept_device_invite ev headers code
  | RevokeDeviceShare q => revoke_device_share ev headers q
  end.

(** ** Who shares *)

Section sharing.
Context `{!Libraries, !TextOrder, !DeviceTexts, !DeviceTextLaws} (ev : Env) (headers : Headers).
#[local] Abbreviation now := (ev_now ev 1).
#[local] Abbreviation user c := (pc_user_id (ac_principal c)).
#[local] Abbreviation may c p := (allows (ac_principal c) p = true).

(** The user of the grant presented the code of an open invitation, not their own. *)
Definition share_accepted (s : Site) (d d' : Directory) (k : string * string * string) : Prop :=
  ∃ c code id v g, caller ev headers s None c ∧ user c = Some k.2 ∧ may c DevicesUse
    ∧ device_invite_by_hash d (hash_secret (trim code)) = Some (id, v) ∧ k.1 = (di_organization_id v, di_device_id v)
    ∧ device_invite_closed now v = false ∧ di_owner_user_id v ≠ k.2
    ∧ db_grants (dr_db d') !! k = Some g ∧ gr_invite_id g = id
    ∧ gr_allowed_workflows_json g = di_allowed_workflows_json v ∧ gr_max_concurrent_jobs g = di_max_concurrent_jobs v.
(** Its grantor ended it. *)
Definition share_ended (s : Site) (d d' : Directory) (k : string * string * string) : Prop :=
  ∃ c g, caller ev headers s (Some k.1.1) c ∧ may c DevicesShareOwn ∧ db_grants (dr_db d) !! k = Some g
    ∧ user c = Some (gr_owner_user_id g) ∧ db_grants (dr_db d') !! k = Some (revoke_grant now g).

(** A member who may share the device invites, within the bounds and for
    workflows the device offers. *)
Definition invite_made (s : Site) (d d' : Directory) (i : string) : Prop :=
  ∃ c v w, caller ev headers s (Some (di_organization_id v)) c ∧ may c DevicesShareOwn ∧ user c = Some (di_owner_user_id v)
    ∧ may_share d (di_organization_id v) (di_device_id v) (di_owner_user_id v) = true
    ∧ dr_device_invites d !! i = None ∧ dr_device_invites d' !! i = Some v ∧ (1 ≤ di_max_uses v ≤ 100)%Z ∧ di_use_count v = 0%Z
    ∧ db_workers (dr_db d) !! (di_organization_id v, di_device_id v) = Some w
    ∧ ∀ r, r ∈ parse_workflow_rules rules_from_str (di_allowed_workflows_json v) →
        (dr_id r, dr_version r) ∈ offered (wt_capabilities_json w).
(** Its owner withdraws it, or it is used once more. *)
Definition invite_withdrawn (s : Site) (d d' : Directory) (i : string) : Prop :=
  ∃ c v, caller ev headers s (Some (di_organization_id v)) c ∧ may c DevicesShareOwn ∧ user c = Some (di_owner_user_id v)
    ∧ dr_device_invites d !! i = Some v
    ∧ dr_device_invites d' !! i = Some (set_device_invite v (di_use_count v) (Some now)).
Definition invite_used (d d' : Directory) (i : string) : Prop :=
  ∃ v, dr_device_invites d !! i = Some v ∧ device_invite_closed now v = false
    ∧ dr_device_invites d' !! i = Some (set_device_invite v (di_use_count v + 1) (di_revoked_at v)).

Definition shares_move (s : Site) (d d' : Directory) : Prop :=
  (∀ k, db_grants (dr_db d') !! k = db_grants (dr_db d) !! k ∨ share_accepted s d d' k ∨ share_ended s d d' k)
  ∧ (∀ i, dr_device_invites d' !! i = dr_device_invites d !! i ∨ invite_made s d d' i ∨ invite_withdrawn s d d' i
          ∨ invite_used d d' i)
  ∧ db_workers (dr_db d') = db_workers (dr_db d) ∧ dr_memberships d' = dr_memberships d.
Definition controlled (s s' : Site) : Prop :=
  ∀ d, si_store s = Some d → ∃ d', si_store s' = Some d' ∧ shares_move s d d'.

Lemma controlled_quiet s s' d d' :
  si_store s = Some d → si_store s' = Some d' → dr_db d' = dr_db d → dr_device_invites d' = dr_device_invites d →
  dr_memberships d' = dr_memberships d → controlled s s'.
Proof.
  intros Hd Hd' Hb Hi Hm d0 Hd0. simplify_eq. exists d'. split; [done|]. unfold shares_move. rewrite Hb, Hi, Hm.
  split_and!; try done; intros; by left.
Qed.
Lemma controlled_moves s s' d d' :
  si_store s = Some d → si_store s' = Some d' → shares_move s d d' → controlled s s'.
Proof. intros Hd Hd' Hm d0 Hd0. simplify_eq. by exists d'. Qed.

Lemma controlled_touched s s' : touched s s' → controlled s s'.
Proof.
  intros Ht d Hd. destruct (touched_store _ _ _ Ht Hd) as [keys ->]. by apply (controlled_quiet s _ d (set_api_keys d keys)).
Qed.
#[local] Hint Resolve controlled_touched : core.

Lemma user_of_caller c : is_Some (user c) → user c = Some (user_of c).
Proof. unfold user_of. by intros [u ->]. Qed.

Ltac calm := first [solve [apply controlled_touched; by left]
  | solve [eapply controlled_quiet; [eassumption|reflexivity|reflexivity|reflexivity|reflexivity]]].
Ltac wp_calm := repeat (wp_step; try calm).

Lemma list_devices_controlled q s :
  wp (list_devices ev headers q) (λ _ s', controlled s s') (controlled s) s.
Proof.
  unfold list_devices. wp_begin. wp_calm.
Qed.

Lemma revoke_grant_effect d t o dev owner u b d' :
  revoke_device_grant d t o dev owner u = (b, d') →
  (b = false ∧ d' = d)
  ∨ (b = true ∧ ∃ g, db_grants (dr_db d) !! (o, dev, u) = Some g ∧ gr_owner_user_id g = owner
       ∧ d' = set_db d (set_grants (dr_db d) (<[(o, dev, u) := revoke_grant t g]> (db_grants (dr_db d))))).
Proof.
  unfold revoke_device_grant. intros Hr. destruct (db_grants (dr_db d) !! (o, dev, u)) as [g|]; [|by left; simplify_eq].
  destruct (String.eqb_spec (gr_owner_user_id g) owner) as [<-|]; simpl in Hr; [|by left; simplify_eq].
  case_bool_decide; [|by left; simplify_eq]. right. simplify_eq/=. eauto.
Qed.

Lemma revoke_share_controlled q s :
  wp (revoke_device_share ev headers q) (λ _ s', controlled s s') (controlled s) s.
Proof.
  unfold revoke_device_share, perform, invalidate_access. wp_begin. wp_step. wp_step; [calm|]. wp_step. wp_step.
  destruct (revoke_device_grant _ _ _ _ _ _) as [b d'] eqn:Hr. apply revoke_grant_effect in Hr as [[-> ->]|(-> & g & Hg & Ho & ->)].
  { wp_calm. }
  wp_step. wp_step. wp_step. wp_step. wp_step. wp_step; [done|]. wp_step. wp_step. wp_step.
  eapply controlled_moves; [done|reflexivity|]. split_and!; [|intros; by left|done|done].
  intros k. simpl. destruct (decide (k = (rv_device_organization_id q, rv_device_id q, rv_grantee_user_id q))) as [->|Hk];
    [|left; by apply lookup_insert_ne].
  right; right. exists c, g. split_and!; try done; [by apply negb_false_iff| |by apply lookup_insert_eq].
  rewrite Ho. by apply user_of_caller.
Qed.

Lemma revoke_invite_effect d t i owner b d' :
  Accounts.revoke_device_invite d t i owner = (b, d') →
  (b = false ∧ d' = d)
  ∨ (b = true ∧ ∃ v, dr_device_invites d !! i = Some v
       ∧ d' = set_device_invites d (<[i := set_device_invite v (di_use_count v) (Some t)]> (dr_device_invites d))).
Proof.
  unfold Accounts.revoke_device_invite. intros Hr. destruct (dr_device_invites d !! i) as [v|]; [|by left; simplify_eq].
  destruct (_ && _); [|by left; simplify_eq]. right. simplify_eq/=. eauto.
Qed.

Lemma revoke_invite_controlled i s :
  wp (revoke_device_invite ev headers i) (λ _ s', controlled s s') (controlled s) s.
Proof.
  unfold revoke_device_invite, perform. destruct (si_store s) as [d0|] eqn:Hd0.
  2:{ apply wp_no_store; [done|]. intros d Hd. congruence. }
  wp_step. wp_step. wp_step. wp_step. wp_step; [calm|]. rename a into v.
  match goal with H : ok_or _ _ = Ok v |- _ => apply ok_or_Ok in H as Hv end.
  wp_begin. assert (d = d0) as -> by congruence. wp_step. wp_step; [calm|].
  match goal with H : negb _ || negb _ = false |- _ =>
    apply orb_false_iff in H as [Hmay Hown]; apply negb_false_iff in Hmay, Hown; apply String.eqb_eq in Hown end.
  wp_step. wp_step.
  destruct (Accounts.revoke_device_invite _ _ _ _) as [b d'] eqn:Hr. apply revoke_invite_effect in Hr as [[-> ->]|(-> & v' & Hv' & ->)].
  { wp_calm. }
  wp_step. wp_step. wp_step. wp_step. wp_step. wp_step; [done|]. wp_step.
  eapply controlled_moves; [done|reflexivity|]. split_and!; [intros; by left| |done|done].
  simpl in *. assert (v' = v) as -> by congruence.
  intros k. simpl. destruct (decide (k = i)) as [->|Hk]; [|left; by apply lookup_insert_ne].
  right; right; left. exists c, v. split_and!; try done; [|by apply lookup_insert_eq].
  rewrite Hown. by apply user_of_caller.
Qed.

Lemma accept_effect d t gid code u r d' :
  Accounts.accept_device_invite d t gid code u = Ok (r, d') →
  d' = d ∨ ∃ id v g, device_invite_by_hash d code = Some (id, v) ∧ device_invite_closed t v = false ∧ di_owner_user_id v ≠ u
    ∧ gr_invite_id g = id ∧ gr_allowed_workflows_json g = di_allowed_workflows_json v ∧ gr_max_concurrent_jobs g = di_max_concurrent_jobs v
    ∧ d' = set_db (set_device_invites d (<[id := set_device_invite v (di_use_count v + 1) (di_revoked_at v)]> (dr_device_invites d)))
             (set_grants (dr_db d) (<[(di_organization_id v, di_device_id v, u) := g]> (db_grants (dr_db d)))).
Proof.
  unfold Accounts.accept_device_invite. intros ([id v] & Hi & Ha)%bind_Ok. apply ok_or_Ok in Hi.
  destruct (db_grants (dr_db d) !! _) as [g|].
  - destruct (grant_active t g); [left; by simplify_eq|].
    apply bind_Ok_tt in Ha as [Hc Ha]. apply bind_Ok_tt in Ha as [Ho Ha].
    apply reject_if_Ok in Hc, Ho. apply String.eqb_neq in Ho. simplify_eq/=. right. exists id, v. eexists. split_and!; try done; reflexivity.
  - apply bind_Ok_tt in Ha as [Hc Ha]. apply bind_Ok_tt in Ha as [Ho Ha]. apply bind_Ok_tt in Ha as [_ Ha].
    apply reject_if_Ok in Hc, Ho. apply String.eqb_neq in Ho. simplify_eq/=. right. exists id, v. eexists. split_and!; try done; reflexivity.
Qed.

Lemma accept_controlled code s :
  wp (accept_device_invite ev headers code) (λ _ s', controlled s s') (controlled s) s.
Proof.
  unfold accept_device_invite, invalidate_access. wp_begin. wp_step. wp_step; [calm|].
  match goal with H : negb _ = false |- _ => apply negb_false_iff in H as Hmay end.
  wp_step. wp_step. wp_step. wp_step; [calm|]. destruct a as [[o dev] row].
  match goal with H : Accounts.accept_device_invite _ _ _ _ _ = Ok _ |- _ => apply accept_effect in H as Ha end.
  destruct Ha as [->|(id & v & g & Hi & Hopen & Hne & Hg1 & Hg2 & Hg3 & ->)]; [wp_calm|].
  wp_step. wp_step. wp_step. wp_step. wp_step. eapply controlled_moves; [done|reflexivity|]. split_and!; [| |done|done].
  - intros k. simpl. destruct (decide (k = (di_organization_id v, di_device_id v, user_of c))) as [->|Hk];
      [|left; by apply lookup_insert_ne].
    right; left. exists c, code, id, v, g. split_and!; try done; [by apply user_of_caller|by apply lookup_insert_eq].
  - intros k. simpl. destruct (decide (k = id)) as [->|Hk]; [|left; by apply lookup_insert_ne].
    right; right; right. exists v. split_and!; [by apply select_Some in Hi as [? _]|done|by apply lookup_insert_eq].
Qed.

(** The rules of an invitation are among the pairs the device offers. *)
Lemma add_rules_offered offers rules acc pairs :
  try_fold (add_rule offers) acc rules = Ok pairs → (∀ p, p ∈ acc → p ∈ offers) → ∀ p, p ∈ pairs → p ∈ offers.
Proof.
  revert acc. induction rules as [|r rules IH]; intros acc Hf Hacc; [by simplify_eq/=|].
  simpl in Hf. apply bind_Ok in Hf as (acc' & Ha & Hf). apply bind_Ok_tt in Ha as [_ Ha]. apply bind_Ok_tt in Ha as [Hin Ha].
  simplify_eq. apply reject_if_Ok, negb_false_iff, bool_decide_eq_true in Hin. eapply IH; [exact Hf|].
  intros p [->|Hp]%elem_of_cons; auto.
Qed.
Lemma normalized_rules_offered pairs r : r ∈ normalized_rules pairs → (dr_id r, dr_version r) ∈ pairs.
Proof.
  unfold normalized_rules. intros ([a b] & -> & Hp)%list_elem_of_fmap. simpl. rewrite merge_sort_Permutation in Hp.
  by rewrite elem_of_remove_dups in Hp.
Qed.
Lemma stored_rules l : parse_workflow_rules rules_from_str (match rules_to_string l with Ok t => t | Err _ => "[]" end) = l.
Proof.
  destruct (rules_serialize l) as [t Ht]. rewrite Ht. unfold parse_workflow_rules. by rewrite (rules_round_trip _ _ Ht).
Qed.

Lemma create_invite_controlled q s :
  wp (create_device_invite ev headers q) (λ _ s', controlled s s') (controlled s) s.
Proof.
  unfold create_device_invite. wp_begin. wp_step. wp_step; [calm|].
  match goal with H : negb _ = false |- _ => apply negb_false_iff in H as Hmay end.
  wp_step. wp_step; [calm|]. match goal with H : (_ <? 1)%Z || _ = false |- _ => rename H into Huses end.
  wp_step. wp_step; [calm|]. wp_step. wp_step; [calm|]. wp_step. wp_step. wp_step. wp_step; [calm|]. rename a into dev.
  match goal with H : ok_or _ _ = Ok dev |- _ => apply ok_or_Ok in H as Hdev end.
  wp_step. wp_step; [calm|]. rename a into pairs.
  match goal with H : try_fold _ _ _ = Ok pairs |- _ => rename H into Hrules end.
  wp_step. wp_step; [calm|].
  match goal with H : Accounts.create_device_invite _ _ = Ok ?x |- _ => rename x into d'; rename H into Hcreate end.
  unfold Accounts.create_device_invite in Hcreate.
  apply bind_Ok_tt in Hcreate as [Hshare Hcreate]. apply bind_Ok_tt in Hcreate as [_ Hcreate].
  apply bind_Ok in Hcreate as (invites & Hins & Hcreate). injection Hcreate as <-. apply insert_row_Ok in Hins as [Hfresh ->].
  apply reject_if_Ok, negb_false_iff in Hshare. cbn [nd_organization_id nd_device_id nd_owner_user_id nd_id] in *.
  wp_step. wp_step. wp_step.
  eapply controlled_moves; [done|reflexivity|]. split_and!; [intros; by left| |done|done].
  intros k. simpl. destruct (decide (k = ev_uuid ev 3)) as [->|Hk]; [|left; by apply lookup_insert_ne].
  right; left. unfold shareable_device_for_user in Hdev. apply bind_Some in Hdev as (w & Hw & Hdev).
  rewrite Hshare in Hdev. injection Hdev as <-.
  exists c. eexists _, w. apply orb_false_iff in Huses as [Hlo Hhi]. apply Z.ltb_ge in Hlo, Hhi.
  split_and!; [| | | | |apply lookup_insert_eq|..]; simpl; try done; [by apply user_of_caller|].
  rewrite stored_rules. intros r Hr. apply normalized_rules_offered in Hr.
  eapply add_rules_offered; [exact Hrules| |done]. intros p Hp. by apply not_elem_of_nil in Hp.
Qed.

(** C24: A device is shared by whoever may share it and with whoever accepts:
    through any request on devices, a grant appears or is renewed only for a caller
    who presents the code of an open invitation of somebody else, with that
    invitation's rules and limit, and ends only by its grantor; an invitation
    appears only from a member who owns the device (or nobody does), within its
    bounds and for workflows the device offers, and changes only by one use more or
    by its owner's withdrawal; devices and memberships stay as they are, and no
    request panics. *)
Theorem shares_controlled r s d :
  si_store s = Some d →
  let '(f, s') := handle_device ev headers r s in f ≠ Panic ∧ ∃ d', si_store s' = Some d' ∧ shares_move s d d'.
Proof.
  intros Hd. assert (Hw : wp (handle_device ev headers r) (λ _ s', controlled s s') (controlled s) s).
  { destruct r; [apply list_devices_controlled|apply create_invite_controlled|apply revoke_invite_controlled
                |apply accept_controlled|apply revoke_share_controlled]. }
  unfold wp in Hw. destruct (handle_device ev headers r s) as [[]]; [split; [done|by apply Hw]..|done].
Qed.
End sharing.

(** ** When a share takes effect *)

(** What a site shares with the job handlers. *)
Definition hub_of (s : Site) : Hub := mkHub (si_data s) (si_sessions s) (si_read_cache s) (dr_db <$> si_store s).

Definition shared_access `{!DeviceTexts} (o dev : string) (g : GrantRow) : DeviceAccess :=
  mkDeviceAccess o dev "shared_pool_device" (parse_workflow_rules rules_from_str (gr_allowed_workflows_json g))
    (gr_max_concurrent_jobs g) (gr_expires_at g).

Section effect.
Context `{!Libraries, !TextOrder, !DeviceTexts} (ev : Env) (headers : Headers).

(** The access list of a user of another organization. *)
Lemma access_elem db t u org o dev a :
  o ≠ org → da_device_organization_id a = o → da_device_id a = dev →
  a ∈ device_access_for_user rules_from_str db t u org ↔
  ∃ g, db_grants db !! (o, dev, u) = Some g ∧ grant_in_force db t u org (o, dev, u) g = true ∧ a = shared_access o dev g.
Proof.
  intros Hne Ho Hdev. unfold device_access_for_user. rewrite merge_sort_Permutation, elem_of_app, !list_elem_of_fmap. split.
  - intros [(kv & -> & Hkv)|(kv & -> & Hkv)]; apply elem_of_map_to_list' in Hkv; apply map_lookup_filter_Some in Hkv as [Hg Hf].
    + simpl in *. congruence.
    + destruct kv as [[[o' dev'] u'] g]. simpl in *. subst. exists g.
      assert (u' = u) as -> by (unfold grant_in_force in Hf; rewrite !andb_true_iff, String.eqb_eq in Hf; naive_solver). done.
  - intros (g & Hg & Hf & ->). right. exists ((o, dev, u), g). split; [done|]. apply elem_of_map_to_list', map_lookup_filter_Some. done.
Qed.

(** With nothing cached for the user, the list comes from the store. *)
Lemma access_from_store s d t tick p u :
  si_store s = Some d → pc_user_id p = Some u →
  tc_entries (rc_device_access (si_read_cache s)) !! read_cache_key (pc_organization_id p) u = None →
  (device_access_for_principal rules_from_str (hub_of s) t tick p).1
  = Ok (device_access_for_user rules_from_str (dr_db d) t u (pc_organization_id p)).
Proof.
  intros Hd Hu Hc. unfold device_access_for_principal, hub_of. rewrite Hu. simpl. rewrite Hd. simpl.
  unfold cached_device_access, TtlCache.get. by rewrite Hc.
Qed.

Lemma accept_stored d t gid code u o dev row d' :
  Accounts.accept_device_invite d t gid code u = Ok (o, dev, row, d') →
  db_workers (dr_db d') = db_workers (dr_db d)
  ∧ ∃ g, db_grants (dr_db d') !! (o, dev, u) = Some g ∧ gr_revoked_at g = None ∧ shared_access o dev g = shared_access o dev row
      ∧ gr_expires_at g = gr_expires_at row.
Proof.
  unfold Accounts.accept_device_invite. intros ([id v] & Hi & Ha)%bind_Ok.
  destruct (db_grants (dr_db d) !! _) as [g|] eqn:Hg.
  - destruct (grant_active t g) eqn:Hact.
    + simplify_eq. split; [done|]. exists row. unfold grant_active in Hact. apply andb_true_iff in Hact as [Hr%bool_decide_eq_true _]. done.
    + apply bind_Ok_tt in Ha as [_ Ha]. apply bind_Ok_tt in Ha as [_ Ha]. simplify_eq/=. split; [done|].
      eexists. split; [apply lookup_insert_eq|]. done.
  - apply bind_Ok_tt in Ha as [_ Ha]. apply bind_Ok_tt in Ha as [_ Ha]. apply bind_Ok_tt in Ha as [_ Ha]. simplify_eq/=. split; [done|].
    eexists. split; [apply lookup_insert_eq|]. done.
Qed.

#[local] Abbreviation access s t tick p := (device_access_for_principal rules_from_str (hub_of s) t tick p).1.
#[local] Abbreviation outsider p u o := (pc_user_id p = Some u ∧ pc_organization_id p ≠ o ∧ nul_free (pc_organization_id p) = true).

Lemma revoke_share_effect q s :
  nul_free (rv_grantee_user_id q) = true →
  wp (revoke_device_share ev headers q)
    (λ _ s', ∀ p t tick, outsider p (rv_grantee_user_id q) (rv_device_organization_id q) →
       ∃ l, access s' t tick p = Ok l
         ∧ ∀ a, a ∈ l → (da_device_organization_id a, da_device_id a) ≠ (rv_device_organization_id q, rv_device_id q))
    (λ _, True) s.
Proof.
  intros Hn. unfold revoke_device_share, perform, invalidate_access.
  eapply wp_caller; [intros ? ?; apply require_browser_wp|done|]. intros c d keys _ Hd Hu.
  wp_step. wp_step; [done|]. wp_step. wp_step.
  destruct (revoke_device_grant _ _ _ _ _ _) as [b d'] eqn:Hr. apply revoke_grant_effect in Hr as [[-> ->]|(-> & g & Hg & Ho & ->)].
  { wp_step. wp_step. wp_step. wp_step. wp_step. wp_step; [done|]. discriminate. }
  wp_step. wp_step. wp_step. wp_step. wp_step. wp_step; [done|]. wp_step. wp_step. wp_step.
  intros p t tick (Hp & Hne & Hpn). eexists. split.
  { eapply access_from_store; [reflexivity|exact Hp|].
    destruct (device_access_invalidation_exact (si_read_cache s) (pc_organization_id p) (rv_grantee_user_id q) (rv_grantee_user_id q))
      as [He _]; [done..|]. etrans; [exact He|]. by rewrite bool_decide_eq_true_2. }
  intros a Ha [= Hao Had]. eapply access_elem in Ha as (g' & Hg' & Hf & _); [|done..].
  simpl in Hg'. rewrite lookup_insert_eq in Hg'. simplify_eq/=. unfold grant_in_force in Hf. rewrite !andb_true_iff in Hf.
  destruct Hf as [[_ Hf%bool_decide_eq_true] _]. done.
Qed.

Lemma accept_effect_now code s d :
  si_store s = Some d →
  wp (accept_device_invite ev headers code)
    (λ r s', ∃ g, rp_body r = DeviceGrantReply g
       ∧ (nul_free (dg_grantee_user_id g) = true → ∀ p t tick, outsider p (dg_grantee_user_id g) (dg_device_organization_id g) →
          is_Some (db_workers (dr_db d) !! (dg_device_organization_id g, dg_device_id g)) → unexpired (dg_expires_at g) t →
          ∃ l, access s' t tick p = Ok l
            ∧ mkDeviceAccess (dg_device_organization_id g) (dg_device_id g) "shared_pool_device" (dg_allowed_workflows g)
                (dg_max_concurrent_jobs g) (dg_expires_at g) ∈ l))
    (λ _, True) s.
Proof.
  intros Hd. unfold accept_device_invite, invalidate_access.
  eapply wp_caller; [intros ? ?; apply require_browser_wp|done|]. intros c d0 keys _ Hd0 Hu. assert (d0 = d) as -> by congruence.
  wp_step. wp_step; [done|]. wp_step. wp_step. wp_step. wp_step; [done|]. destruct a as [[o dev] row].
  match goal with H : Accounts.accept_device_invite _ _ _ _ _ = Ok (_, ?x) |- _ =>
    rename x into d'; apply accept_stored in H as (Hw & g & Hg & Hr & Hacc & Hexp) end.
  wp_step. wp_step. wp_step. wp_step. wp_step. eexists. split; [reflexivity|]. cbn [grant_view dg_grantee_user_id dg_device_organization_id
    dg_device_id dg_allowed_workflows dg_max_concurrent_jobs dg_expires_at].
  intros Hn p t tick (Hp & Hne & Hpn) Hdev Hlive. eexists. split.
  { eapply access_from_store; [reflexivity|exact Hp|].
    destruct (device_access_invalidation_exact (si_read_cache s) (pc_organization_id p) (user_of c) (user_of c))
      as [He _]; [done..|]. etrans; [exact He|]. by rewrite bool_decide_eq_true_2. }
  eapply access_elem; [apply not_eq_sym, Hne|done..|]. exists g. split; [exact Hg|]. split; [|symmetry; exact Hacc].
  unfold grant_in_force. simpl. change (dr_db (Accounts.audit _ _)) with (dr_db d'). rewrite Hw, Hr, Hexp.
  rewrite (proj2 (String.eqb_eq (user_of c) (user_of c))), (proj2 (String.eqb_neq o (pc_organization_id p))) by done.
  simpl. rewrite bool_decide_eq_true_2 by done. simpl. unfold unexpired in Hlive. destruct (gr_expires_at row) as [e|]; [|done].
  by apply Z.ltb_lt, Hlive.
Qed.

(** C25: A share begins and ends at once: as soon as the answer is sent, the
    devices a user of another organization may submit jobs to, whatever the Hub had
    cached for them, include the device they were just granted (until it expires)
    with the grant's rules and limit, and no longer include the one whose share was
    just revoked. *)
Theorem shares_take_effect q code s d :
  si_store s = Some d → nul_free (rv_grantee_user_id q) = true →
  (∀ r s', revoke_device_share ev headers q s = (Next r, s') →
     ∀ p t tick, outsider p (rv_grantee_user_id q) (rv_device_organization_id q) →
       ∃ l, access s' t tick p = Ok l
         ∧ ∀ a, a ∈ l → (da_device_organization_id a, da_device_id a) ≠ (rv_device_organization_id q, rv_device_id q))
  ∧ (∀ r s', accept_device_invite ev headers code s = (Next r, s') →
     ∃ g, rp_body r = DeviceGrantReply g
       ∧ (nul_free (dg_grantee_user_id g) = true → ∀ p t tick, outsider p (dg_grantee_user_id g) (dg_device_organization_id g) →
          is_Some (db_workers (dr_db d) !! (dg_device_organization_id g, dg_device_id g)) → unexpired (dg_expires_at g) t →
          ∃ l, access s' t tick p = Ok l
            ∧ mkDeviceAccess (dg_device_organization_id g) (dg_device_id g) "shared_pool_device" (dg_allowed_workflows g)
                (dg_max_concurrent_jobs g) (dg_expires_at g) ∈ l)).
Proof.
  intros Hd Hn. split; intros r s' Hr.
  - pose proof (revoke_share_effect q s Hn) as Hw. unfold wp in Hw. by rewrite Hr in Hw.
  - pose proof (accept_effect_now code s d Hd) as Hw. unfold wp in Hw. by rewrite Hr in Hw.
Qed.
End effect.

(** ** The list of devices *)

Section listing.
Context `{!Libraries, !LibraryLaws, !TextOrder, !TextOrderLaws, !DeviceTexts}.

#[local] Instance device_before_strict : StrictOrder device_before.
Proof.
  split.
  - intros [[a b] c] [Hc|[_ [Hc|[_ Hc]]]]; by apply (irreflexivity text_lt) in Hc.
  - intros [[a b] c] [[a' b'] c'] [[a2 b2] c2]. unfold device_before. simpl.
    intros [Ea|[<- [Ea|[<- Ea]]]] [Eb|[<- [Eb|[<- Eb]]]];
      first [left; first [by etrans|done]
            |right; split; [done|]; first [left; first [by etrans|done]|right; split; [done|]; by etrans]].
Qed.
Lemma device_before_total a b : device_before a b ∨ a = b ∨ device_before b a.
Proof.
  destruct a as [[a b0] c], b as [[a' b'] c']. unfold device_before. simpl.
  destruct (text_lt_total a a') as [?|[->|?]]; [by left; left| |by right; right; left].
  destruct (text_lt_total b0 b') as [?|[->|?]]; [by left; right; auto| |by right; right; right; auto].
  destruct (text_lt_total c c') as [?|[->|?]]; [by left; right; auto|by right; left|by right; right; right; auto].
Qed.

(** The device rows of a user: each device appears once. *)
Lemma user_device_keys d t u org : NoDup (device_key <$> user_devices d t u org).
Proof.
  unfold user_devices. rewrite fmap_app, NoDup_app. split_and!.
  - rewrite <- list_fmap_compose. apply map_rows_distinct. intros [[o i] w] [[o' i'] w'] _ _ [= -> ->]. done.
  - intros k (v & -> & Hv)%list_elem_of_fmap (v' & Hk & Hv')%list_elem_of_fmap.
    apply list_elem_of_fmap in Hv as (kv & -> & _). apply list_elem_of_omap in Hv' as (kv' & _ & Hs).
    unfold shared_device in Hs. apply bind_Some in Hs as (w & _ & [= <-]). done.
  - assert (Hu : ∀ kv, kv ∈ filter (λ kv, grant_in_force d t u org kv.1 kv.2 = true) (map_to_list (db_grants d)) → kv.1.2 = u).
    { intros kv [Hf _]%list_elem_of_filter. unfold grant_in_force in Hf. rewrite !andb_true_iff, String.eqb_eq in Hf. naive_solver. }
    assert (Hnd : NoDup (fst <$> filter (λ kv, grant_in_force d t u org kv.1 kv.2 = true) (map_to_list (db_grants d)))).
    { eapply sublist_NoDup; [apply (NoDup_fst_map_to_list (db_grants d))|]. apply fmap_sublist, sublist_filter. }
    revert Hu Hnd. generalize (filter (λ kv, grant_in_force d t u org kv.1 kv.2 = true) (map_to_list (db_grants d))). intros l Hu.
    induction l as [|kv l IH]; intros Hnd; [constructor|]. rewrite fmap_cons, NoDup_cons in Hnd. destruct Hnd as [Hnot Hnd].
    specialize (IH (λ kv' Hin, Hu kv' (list_elem_of_further _ _ _ Hin)) Hnd). cbn [omap list_omap].
    destruct (shared_device d kv) as [v|] eqn:Hs; [|done]. rewrite fmap_cons, NoDup_cons. split; [|done].
    intros (v' & Hk & (kv' & Hin & Hs')%list_elem_of_omap)%list_elem_of_fmap. apply Hnot.
    unfold shared_device in Hs, Hs'. apply bind_Some in Hs as (w & _ & [= <-]), Hs' as (w' & _ & [= <-]).
    apply list_elem_of_fmap. exists kv'. split; [|done]. pose proof (Hu kv (list_elem_of_here _ _)). pose proof (Hu kv' (list_elem_of_further _ _ _ Hin)).
    destruct kv as [[[a b] c] g], kv' as [[[a' b'] c'] g']. unfold device_key, device_view in Hk. simpl in *. congruence.
Qed.

(** Following the cursors lists every device of the user once, in order. *)
Lemma devices_complete d t u org limit :
  (∀ k w, db_workers d !! k = Some w → part_ok k.1 ∧ part_ok k.2) →
  complete (serve_page device_key encode_device_cursor decode_device_cursor (devices_for_user_page d t u org) (page_limit limit))
    (user_devices d t u org) device_key device_before.
Proof.
  intros Hok. apply follow_every; [apply _|apply device_before_total|apply clamp_bounds; done|apply user_device_keys|].
  intros v Hv. unfold user_devices in Hv. apply elem_of_app in Hv as [Hv|Hv].
  - apply list_elem_of_fmap in Hv as (kv & -> & [_ Hw]%filtered_row). destruct (Hok _ _ Hw). apply device_round_trip; [done|done|].
    split_and!; [done|reflexivity|]. by apply utf8_ascii.
  - apply list_elem_of_omap in Hv as (kv & _ & (w & Hw & [= <-])%bind_Some). destruct (Hok _ _ Hw). apply device_round_trip; [done|done|].
    split_and!; [done|reflexivity|]. by apply utf8_ascii.
Qed.
End listing.

(** ** A device *)

Section examples.
#[local] Existing Instance plain_libraries.
#[local] Existing Instance byte_order.

(** Rules as a list of texts in turn. *)
Fixpoint rules_of (l : list string) : list DeviceWorkflowRule :=
  match l with i :: v :: l => mkDeviceWorkflowRule i v :: rules_of l | _ => [] end.
Definition rule_texts (l : list DeviceWorkflowRule) : list string := l ≫= λ r, [dr_id r; dr_version r].
#[local] Instance plain_texts : DeviceTexts := {|
  rules_from_str t := Ok (rules_of (read_scopes t));
  rules_to_string l := Ok (plain_scopes (rule_texts l));
  capabilities_from_str _ := Err "no capabilities";
  value_from_str _ := Err "no value";
|}.
#[local] Instance plain_texts_laws : DeviceTextLaws.
Proof.
  split.
  - intros l t [= <-]. simpl. rewrite read_plain_scopes. f_equal. induction l as [|[i v] l IH]; [done|]. simpl. by f_equal.
  - intros l. by eexists.
Qed.

(** Ann's device, and her and Bob's browsers. *)
Definition gpu_rows : Directory :=
  set_db two_browsers (set_workers (dr_db two_browsers) {[ ("org", "gpu") := mkWorkerTableRow (Some "ann") None 0 "ann" "gpu" "1" "{}" ]}).
Definition gpu_site : Site := with_store ann_site (Some gpu_rows).
Definition gpu_invite : CreateDeviceInviteRequest := mkCreateDeviceInviteRequest "org" "gpu" 1 None [] (Some 2%Z) None.
Definition invited := create_device_invite (day 1000 0) (bearer "nss_ann") gpu_invite gpu_site.
Definition gpu_code : string :=
  match invited.1 with Next (mkResponse _ _ (DeviceInviteReply i)) => cd_code i | _ => "" end.
Definition gpu_revocation : RevokeDeviceShareRequest := mkRevokeDeviceShareRequest "org" "gpu" "bob".
Definition redeemed := accept_device_invite (day 1100 50) (bearer "nss_bob") gpu_code invited.2.
Definition ended := revoke_device_share (day 1200 90) (bearer "nss_ann") gpu_revocation redeemed.2.

Lemma shares_controlled_witness :
  invited.1 ≠ Panic ∧ ∃ d', si_store invited.2 = Some d' ∧ shares_move (day 1000 0) (bearer "nss_ann") gpu_site gpu_rows d'.
Proof.
  pose proof (shares_controlled (day 1000 0) (bearer "nss_ann") (CreateDeviceInvite gpu_invite) gpu_site gpu_rows eq_refl) as Hs.
  change (handle_device _ _ _ gpu_site) with invited in Hs. by destruct invited as [f s'].
Defined.

(** Bob, asking for his own organization. *)
Definition bob : Principal := mkPrincipal BrowserSession "s2" (Some "bob") "org-bob" Owner ∅.

Lemma shares_take_effect_witness :
  ∃ l, (device_access_for_principal rules_from_str (hub_of redeemed.2) 2000 0 bob).1 = Ok l
    ∧ mkDeviceAccess "org" "gpu" "shared_pool_device" [] (Some 2%Z) None ∈ l.
Proof.
  assert (Hd : is_Some (si_store invited.2)) by (vm_compute; by eexists). destruct Hd as [d Hd].
  destruct (shares_take_effect (day 1100 50) (bearer "nss_bob") gpu_revocation gpu_code invited.2 d Hd eq_refl) as [_ Ha].
  assert (Hok : match redeemed.1 with
                | Next r => rp_body r = DeviceGrantReply (mkDeviceGrant (tally 51) "org" "gpu" "ann" "bob" (tally 3) 1101 None [] (Some 2%Z) None)
                | _ => False
                end) by (vm_compute; reflexivity).
  destruct redeemed as [[r| |] s'] eqn:Hr; [|contradiction..].
  destruct (Ha r s' Hr) as (g & Hg & Heff). rewrite Hok in Hg. injection Hg as <-.
  apply (Heff eq_refl bob 2000%Z 0%Z); [split; [reflexivity|split; [discriminate|reflexivity]]| |by intros ?].
  assert (Hw : is_Some ((d ← si_store invited.2; db_workers (dr_db d) !! ("org", "gpu")))) by (vm_compute; by eexists).
  by rewrite Hd in Hw.
Defined.

(** The share ends before it is used. *)
Example share_ended_at_once :
  (device_access_for_principal rules_from_str (hub_of ended.2) 2000 0 bob).1 = Ok [].
Proof. vm_compute. reflexivity. Qed.
End examples.
