(* ===== verification/BatchSubmit.v ===== *)
(** Submitting and cancelling a batch over HTTP ([product_api/batches.rs]).

    A submission names a device of the caller's, a workflow it offers, a number of
    jobs and the parameters they share, which items may override; its admission is
    the transaction of [Batches].  A cancellation cancels the jobs one after the
    other as [Dispatch] does; a job with a worker is answered within the request by
    an argument.

    Main results: a submission adds exactly the jobs it describes, for a caller who
    may use the device, or nothing; resubmitting it under its idempotency key never
    adds a second batch.  A cancellation that fails at one job has already
    cancelled those before it. *)

From S2P Require Import Prelude Text Json Messages Core HubTypes Principal Helpers TtlCache HubState Sessions Store HubJobs Batches Dispatch Submission.
From S2P Require Import RateLimit Accounts Secrets Web Auth Paging Members Devices BatchApi.
From Stdlib Require Import ZArith Lia Ascii.

#[local] Abbreviation Headers := (gmap string string).

Record BatchItemSpec := mkBatchItemSpec {
  is_index : Z;
  is_client_item_id : option string;
  is_parameter_overrides : option Json;
}.
Record CreateBatchApiRequest := mkCreateBatchApiRequest {
  qb_workflow_id : string;
  qb_workflow_version : string;
  qb_count : Z;
  qb_base_parameters : Json;
  qb_items : list BatchItemSpec;
  qb_shared_input_artifact_ids : list string;
  qb_device_organization_id : option string;
  qb_device_id : option string;
}.

(** [serde_json::to_string] of the request: its fields in their order. *)
Definition item_json (i : BatchItemSpec) : Json :=
  JObject [("index", json_int (is_index i)); ("client_item_id", json_opt (is_client_item_id i));
           ("parameter_overrides", default JNull (is_parameter_overrides i))].
Definition request_json (r : CreateBatchApiRequest) : Json :=
  JObject [("workflow_id", JString (qb_workflow_id r)); ("workflow_version", JString (qb_workflow_version r));
           ("count", json_int (qb_count r)); ("base_parameters", qb_base_parameters r);
           ("items", JArray (item_json <$> qb_items r));
           ("shared_input_artifact_ids", JArray (JString <$> qb_shared_input_artifact_ids r));
           ("device_organization_id", json_opt (qb_device_organization_id r)); ("device_id", json_opt (qb_device_id r))].

(** The first item of an index, and its parameters. *)
Definition item_at (r : CreateBatchApiRequest) (index : Z) : option BatchItemSpec :=
  List.find (λ i, (is_index i =? index)%Z) (qb_items r).
Definition item_parameters (r : CreateBatchApiRequest) (index : Z) : Json :=
  match item_at r index with
  | Some i => match is_parameter_overrides i with
              | Some overrides => merge_parameters (qb_base_parameters r) overrides
              | None => qb_base_parameters r
              end
  | None => qb_base_parameters r
  end.

Section submit.
Context `{!Libraries, !TextOrder, !DeviceTexts} (ids_text : list string → string) (ev : Env) (headers : Headers).
#[local] Abbreviation rid := (with_id ev headers).
#[local] Abbreviation fail := (product_error rid).

(** [serde_json::to_string(..).unwrap_or_default()]. *)
Definition json_text (j : Json) : string := match json_to_string j with Ok t => t | Err _ => "" end.

Definition batch_id : string := ev_uuid ev 1.
Definition job_id (index : nat) : string := ev_uuid ev (2 + index).
Definition batch_child (r : CreateBatchApiRequest) (index : nat) : BatchChildJob :=
  mkBatchChildJob (job_id index) (Z.of_nat index) (item_at r (Z.of_nat index) ≫= is_client_item_id)
    (json_text (item_parameters r (Z.of_nat index))) (qb_shared_input_artifact_ids r).
Definition batch_children (r : CreateBatchApiRequest) : list BatchChildJob :=
  batch_child r <$> seq 0 (Z.to_nat (qb_count r)).

Definition batch_idempotency (p : Principal) (r : CreateBatchApiRequest) : option BatchIdempotencyInsert :=
  (λ key, mkBatchIdempotencyInsert (pc_organization_id p) (auth_kind (pc_kind p)) (pc_actor_id p) "/api/v1/job-batches" key
            (hash_secret (json_text (request_json r))) batch_id) <$> headers !! "idempotency-key".

Definition batch_insert (p : Principal) (user_id o i : string) (r : CreateBatchApiRequest) : BatchInsert :=
  mkBatchInsert batch_id (pc_organization_id p) (pc_actor_id p) (auth_kind (pc_kind p)) (Some user_id) (qb_workflow_id r)
    (qb_workflow_version r) None (json_text (qb_base_parameters r)) "{}" (Some o) (Some i) (qb_count r) None.

(** The device named, if the caller may use it. *)
Definition chosen_device (d : Directory) (p : Principal) (user_id o i : string) : Res HubError DeviceView :=
  let inaccessible := Forbidden "the selected device is not accessible" in
  reject_if (negb (can_use_device d (ev_now ev 1) user_id (pc_organization_id p) o i)) inaccessible ;;
  ok_or inaccessible (List.find (λ v, String.eqb (dv_device_organization_id v) o && String.eqb (dv_device_id v) i)
                        (devices_for_user (dr_db d) (ev_now ev 2) user_id (pc_organization_id p))).

Definition create_batch (request : CreateBatchApiRequest) : Handler Response Response :=
  auth ← calling fail (authorize_current ev headers JobsWrite);
  let p := ac_principal auth in
  user_id ← lift fail (ok_or (Forbidden "a user-owned credential is required") (pc_user_id p));
  d ← calling fail store;
  device ← lift fail (ok_or (InvalidRequest "device_organization_id and device_id are required for batch jobs")
                        (o ← qb_device_organization_id request; i ← qb_device_id request; Some (o, i)));
  let '(o, i) := device in
  exit_if (negb (allows p DevicesUse)) (fail (Forbidden "missing permission devices:use")) ;;
  device ← lift fail (chosen_device d p user_id o i);
  exit_if (negb (bool_decide ((qb_workflow_id request, qb_workflow_version request) ∈ offered (dv_capabilities_json device))))
    (fail (InvalidRequest "the selected device does not offer the requested workflow version")) ;;
  exit_if ((qb_count request <? 1) || (100 <? qb_count request))%Z
    (fail (InvalidRequest "count must be between 1 and 100")) ;;
  let now := ev_now ev 3 in
  result ← execute (λ e, fail (map_store e))
    (r ← commit_new_batch ids_text rules_from_str (dr_db d) (batch_insert p user_id o i request) (batch_children request)
           (qb_shared_input_artifact_ids request) (batch_idempotency p request)
           (Some (mkDeviceUseAdmission (pc_organization_id p) user_id o i (qb_workflow_id request) (qb_workflow_version request)
                    (qb_count request) now)) now;
     Ok (r.1, set_db d r.2));
  let org := pc_organization_id p in
  match result with
  | BatchCreated =>
      audit (Some org) (Some user_id) (auth_kind (pc_kind p)) rid "job_batch.create" "job_batch" (Some batch_id) "success"
        (JObject [("count", json_int (qb_count request)); ("workflow_id", JString (qb_workflow_id request))])
        (job_id (Z.to_nat (qb_count request))) (ev_now ev 4) ;;
      d ← store_unwrap;
      let counts := batch_job_counts (dr_db d) org batch_id in
      mret (reply 202 (BatchReply (mkBatchView batch_id (qb_workflow_id request) (qb_workflow_version request)
                                     (qb_count request) (batch_status counts) counts now)))
  | BatchExisting existing =>
      b ← lift fail (ok_or (NotFound "batch") (job_batch (dr_db d) org existing));
      mret (reply 200 (BatchReply (batch_view (dr_db d) org existing b)))
  end.
End submit.

(** ** What a submission does *)

Lemma find_first {A} (f : A → bool) l a : List.find f l = Some a → a ∈ l ∧ f a = true.
Proof. intros [Hin Hf]%List.find_some. split; [by apply list_elem_of_In|done]. Qed.

Section submission.
Context `{!Libraries, !TextOrder, !DeviceTexts} (ids_text : list string → string).

(** Who may submit the request, and for which device. *)
Record entitled (ev : Env) (headers : Headers) (s : Site) (d : Directory) (r : CreateBatchApiRequest) (p : Principal)
    (o i : string) : Prop := {
  en_caller : ∃ c, caller ev headers s None c ∧ ac_principal c = p;
  en_jobs : allows p JobsWrite = true;
  en_devices : allows p DevicesUse = true;
  en_user : pc_user_id p = Some (default "" (pc_user_id p));
  en_named : qb_device_organization_id r = Some o ∧ qb_device_id r = Some i;
  en_device : can_use_device d (ev_now ev 1) (default "" (pc_user_id p)) (pc_organization_id p) o i = true;
  en_worker : ∃ w, db_workers (dr_db d) !! (o, i) = Some w
                ∧ (qb_workflow_id r, qb_workflow_version r) ∈ offered (wt_capabilities_json w);
  en_count : (1 ≤ qb_count r ≤ 100)%Z;
}.

(** The row of the [n]th job. *)
Definition described (ev : Env) (r : CreateBatchApiRequest) (p : Principal) (n : nat) (row : JobTableRow) : Prop :=
  jt_batch_id row = Some (batch_id ev) ∧ jt_batch_index row = Some (Z.of_nat n) ∧ row_state row = "queued"
  ∧ sj_actor_user_id (jt_job row) = pc_user_id p ∧ sj_worker_id (jt_job row) = None
  ∧ sj_workflow_id (jt_job row) = qb_workflow_id r ∧ sj_workflow_version (jt_job row) = qb_workflow_version r
  ∧ sj_parameters_json (jt_job row) = json_text (item_parameters r (Z.of_nat n))
  ∧ sj_input_artifact_ids_json (jt_job row) = ids_text (qb_shared_input_artifact_ids r).

Definition batch_added (ev : Env) (r : CreateBatchApiRequest) (p : Principal) (db db' : Db) : Prop :=
  let org := pc_organization_id p in
  (∀ n, (Z.of_nat n < qb_count r)%Z → db_jobs db !! (org, job_id ev n) = None ∧ is_Some (db_queue db' !! (org, job_id ev n))
     ∧ ∃ row, db_jobs db' !! (org, job_id ev n) = Some row ∧ described ev r p n row)
  ∧ (∀ k, (∀ n, (Z.of_nat n < qb_count r)%Z → k ≠ (org, job_id ev n)) →
       db_jobs db' !! k = db_jobs db !! k ∧ db_queue db' !! k = db_queue db !! k).

(** A device of the list is a worker with its capabilities. *)
Lemma user_device_worker db t u org v :
  v ∈ user_devices db t u org →
  ∃ w, db_workers db !! (dv_device_organization_id v, dv_device_id v) = Some w ∧ dv_capabilities_json v = wt_capabilities_json w.
Proof.
  unfold user_devices. intros [Hv|Hv]%elem_of_app.
  - apply list_elem_of_fmap in Hv as ([[o i] w] & -> & [_ Hw]%filtered_row). by exists w.
  - apply list_elem_of_omap in Hv as ([[[o i] g] row] & _ & (w & Hw & [= <-])%bind_Some). by exists w.
Qed.
Lemma chosen_device_Ok ev d p u o i v :
  chosen_device ev d p u o i = Ok v →
  can_use_device d (ev_now ev 1) u (pc_organization_id p) o i = true
  ∧ ∃ w, db_workers (dr_db d) !! (o, i) = Some w ∧ dv_capabilities_json v = wt_capabilities_json w.
Proof.
  unfold chosen_device. intros [Hc Hv]%bind_Ok_tt. apply reject_if_Ok, negb_false_iff in Hc. split; [done|].
  apply ok_or_Ok, find_first in Hv as [Hin Hk]. apply andb_true_iff in Hk as [Ho Hi]. apply String.eqb_eq in Ho, Hi. subst o i.
  unfold devices_for_user in Hin. rewrite merge_sort_Permutation in Hin. by eapply user_device_worker.
Qed.

Lemma batch_children_elem ev r c :
  c ∈ batch_children ev r ↔ ∃ n, (Z.of_nat n < qb_count r)%Z ∧ c = batch_child ev r n.
Proof.
  unfold batch_children. rewrite list_elem_of_fmap. setoid_rewrite elem_of_seq. split.
  - intros (n & -> & Hn). exists n. split; [lia|done].
  - intros (n & Hn & ->). exists n. split; [done|lia].
Qed.

Lemma batch_created_added ev headers p u o i r db now' adm db' :
  pc_user_id p = Some u →
  commit_new_batch ids_text rules_from_str db (batch_insert ev p u o i r) (batch_children ev r)
    (qb_shared_input_artifact_ids r) (batch_idempotency ev headers p r) adm now' = Ok (BatchCreated, db') →
  batch_added ev r p db db'.
Proof.
  intros Hu (policy & usage & d1 & d2 & _ & _ & _ & _ & _ & -> & [C1 C2 _ _] & Hj & Hq & _)%commit_batch_created.
  unfold batch_added. rewrite Hj, Hq. split.
  - intros n Hn. destruct (C1 (batch_child ev r n)) as (Hnone & Hrow & Hqueue); [apply batch_children_elem; eauto|].
    simpl in *. split; [done|]. split; [by eexists|]. eexists. split; [exact Hrow|]. by split_and!.
  - intros k Hk. apply C2. intros c (n & Hn & ->)%batch_children_elem. simpl. by apply Hk.
Qed.
End submission.

Section requests.
Context `{!Libraries, !TextOrder, !DeviceTexts} (ids_text : list string → string).

Lemma wp_authorized {A} ev headers perm (f : AuthContext → Handler Response A) g Q E s :
  (∀ s', touched s s' → E s') →
  (∀ c d keys, caller ev headers s None c → si_store s = Some d → is_Some (pc_user_id (ac_principal c)) →
     allows (ac_principal c) perm = true → wp (f c) Q E (with_store s (Some (set_api_keys d keys)))) →
  wp (calling g (authorize_current ev headers perm) ≫= f) Q E s.
Proof.
  intros HE Hf. apply wp_bind, wp_calling. unfold authorize_current. apply wp_bind.
  eapply wp_mono; [apply wp_authenticate| |intros s'; apply HE].
  intros c s' (Ha & [d Hd] & Hu & Ht). apply wp_bind, wp_exit_if; [by intros _; apply HE|]. intros Hp%negb_false_iff.
  apply wp_ret. destruct (touched_store _ _ _ Ht Hd) as [keys ->]. apply Hf; try done. by eexists.
Qed.

(** What a submission may have done when it is answered. *)
Definition batch_answered (ev : Env) (headers : Headers) (r : CreateBatchApiRequest) (s : Site) (d : Directory)
    (resp : Response) (s' : Site) : Prop :=
  ∃ p o i d', entitled ev headers s d r p o i ∧ si_store s' = Some d'
    ∧ ((∃ view, resp = reply 202 (BatchReply view) ∧ bv_id view = batch_id ev ∧ bv_total view = qb_count r)
         ∧ batch_added ids_text ev r p (dr_db d) (dr_db d')
       ∨ ∃ e b, resp = reply 200 (BatchReply (batch_view (dr_db d) (pc_organization_id p) e b))
           ∧ job_batch (dr_db d) (pc_organization_id p) e = Some b ∧ dr_db d' = dr_db d).
Definition store_kept (d : Directory) (s' : Site) : Prop := ∃ d', si_store s' = Some d' ∧ dr_db d' = dr_db d.

(** The commit behind an answer. *)
Definition batch_commit (ev : Env) (headers : Headers) (r : CreateBatchApiRequest) (p : Principal) (o i : string) (db : Db)
    : Res StoreError (CommitBatchResult * Db) :=
  let u := default "" (pc_user_id p) in
  commit_new_batch ids_text rules_from_str db (batch_insert ev p u o i r) (batch_children ev r)
    (qb_shared_input_artifact_ids r) (batch_idempotency ev headers p r)
    (Some (mkDeviceUseAdmission (pc_organization_id p) u o i (qb_workflow_id r) (qb_workflow_version r) (qb_count r) (ev_now ev 3)))
    (ev_now ev 3).
Definition batch_committed (ev : Env) (headers : Headers) (r : CreateBatchApiRequest) (s : Site) (d : Directory)
    (resp : Response) (s' : Site) : Prop :=
  ∃ p o i d' res, entitled ev headers s d r p o i ∧ si_store s' = Some d'
    ∧ batch_commit ev headers r p o i (dr_db d) = Ok (res, dr_db d')
    ∧ match res with
      | BatchCreated => ∃ view, resp = reply 202 (BatchReply view) ∧ bv_id view = batch_id ev ∧ bv_total view = qb_count r
      | BatchExisting e => ∃ b, resp = reply 200 (BatchReply (batch_view (dr_db d) (pc_organization_id p) e b))
          ∧ job_batch (dr_db d) (pc_organization_id p) e = Some b
      end.

Lemma batch_existing_kept ev headers r p o i db e db' :
  batch_commit ev headers r p o i db = Ok (BatchExisting e, db') → db' = db.
Proof.
  unfold batch_commit, commit_new_batch. intros Hc. apply bind_Ok in Hc as ([x|] & _ & Hc); [by injection Hc|].
  repeat (apply bind_Ok in Hc as (? & _ & Hc)). done.
Qed.

Lemma create_batch_wp ev headers r s d :
  si_store s = Some d → wp (create_batch ids_text ev headers r) (batch_committed ev headers r s d) (store_kept d) s.
Proof.
  intros Hd. unfold create_batch.
  assert (Hk : ∀ keys, store_kept d (with_store s (Some (set_api_keys d keys)))) by (intros; by eexists).
  apply wp_authorized. { intros s' Ht. by destruct (touched_store _ _ _ Ht Hd) as [keys ->]. }
  intros c d0 keys Hc Hd0 [u Hu] Hjobs. assert (d0 = d) as -> by congruence.
  wp_step. wp_step; [done|]. rename a into u'.
  match goal with H : ok_or _ _ = Ok u' |- _ => apply ok_or_Ok in H; assert (u' = u) as -> by congruence end.
  wp_step. wp_step. wp_step. wp_step. wp_step; [done|]. destruct a as [o i].
  match goal with H : ok_or _ _ = Ok (o, i) |- _ => apply ok_or_Ok, bind_Some in H as (o' & Ho & H);
    apply bind_Some in H as (i' & Hi & [= -> ->]) end.
  wp_step. wp_step; [done|]. match goal with H : negb _ = false |- _ => apply negb_false_iff in H as Huse end.
  wp_step. wp_step; [done|]. rename a into v.
  match goal with H : chosen_device _ _ _ _ _ _ = Ok v |- _ => apply chosen_device_Ok in H as (Hdev & w & Hw & Hcaps) end.
  wp_step. wp_step; [done|]. match goal with H : negb _ = false |- _ => apply negb_false_iff, bool_decide_eq_true in H as Hoff end.
  wp_step. wp_step; [done|]. match goal with H : (_ <? 1)%Z || _ = false |- _ => apply orb_false_iff in H as [Hlo Hhi];
    apply Z.ltb_ge in Hlo, Hhi end.
  assert (Hen : entitled ev headers s d r (ac_principal c) o i).
  { split; rewrite ?Hu; try done; [by exists c|exists w; split; [done|]; by rewrite <- Hcaps]. }
  assert (Hu' : default "" (pc_user_id (ac_principal c)) = u) by by rewrite Hu.
  wp_step. wp_step; [done|].
  match goal with H : mbind _ _ = Ok (?a, ?x) |- _ => rename a into res, x into d'; apply bind_Ok in H as ([res' db'] & Hcommit & [= <- <-]) end.
  assert (Hc' : batch_commit ev headers r (ac_principal c) o i (dr_db d) = Ok (res', db')) by (unfold batch_commit; by rewrite Hu').
  destruct res' as [|existing].
  - wp_step. wp_step. wp_step. wp_step. wp_step. exists (ac_principal c), o, i. eexists _, BatchCreated.
    split; [done|]. split; [reflexivity|]. split; [exact Hc'|by eexists].
  - pose proof (batch_existing_kept _ _ _ _ _ _ _ _ _ Hc') as ->.
    wp_step. wp_step; [by eexists|]. rename a into b. match goal with H : ok_or _ _ = Ok b |- _ => apply ok_or_Ok in H as Hb end.
    wp_step. exists (ac_principal c), o, i. eexists _, (BatchExisting existing). split; [done|]. split; [reflexivity|].
    split; [exact Hc'|]. by exists b.
Qed.

(** C19: A batch is submitted as described or not at all: an accepted submission
    comes from a caller allowed to submit jobs and use devices, for one to a hundred
    jobs on a device the caller may use and that offers the workflow; it adds exactly
    those jobs, queued, each with the shared parameters as its item overrides them,
    and nothing else to the jobs or their queue; or it names a batch that exists and
    changes no row of a job. A refused one changes none, and none panics. *)
Theorem batch_submitted_exactly ev headers r s d :
  si_store s = Some d →
  match create_batch ids_text ev headers r s with
  | (Next resp, s') => batch_answered ev headers r s d resp s'
  | (Exit _, s') => store_kept d s'
  | (Panic, _) => False
  end.
Proof.
  intros Hd. pose proof (create_batch_wp ev headers r s d Hd) as Hw. unfold wp in Hw.
  destruct (create_batch ids_text ev headers r s) as [[resp| |] s']; [|done..].
  destruct Hw as (p & o & i & d' & res & Hen & Hd' & Hc & Hr). exists p, o, i, d'. split; [done|]. split; [done|]. destruct res as [|e].
  - left. split; [done|]. unfold batch_commit in Hc. eapply batch_created_added; [apply (en_user _ _ _ _ _ _ _ _ Hen)|exact Hc].
  - right. destruct Hr as (b & -> & Hb). exists e, b. split; [done|]. split; [done|]. by eapply batch_existing_kept.
Qed.

Definition same_actor (p q : Principal) : Prop :=
  pc_organization_id p = pc_organization_id q ∧ auth_kind (pc_kind p) = auth_kind (pc_kind q) ∧ pc_actor_id p = pc_actor_id q.

Lemma caller_unique ev headers s org c c' : caller ev headers s org c → caller ev headers s org c' → c = c'.
Proof. intros [s1 Ha] [s2 Hb]. rewrite Ha in Hb. by injection Hb. Qed.

(** C20: A batch is submitted once: after a submission under an idempotency key
    has created a batch, whatever has happened since, as long as the key's record
    is kept, a submission under that key by the same caller creates nothing: if it
    is answered with success the answer is that batch, and its body hashed to the
    same value as the first one's; otherwise it is refused. *)
Theorem batch_submitted_once ev headers r s d resp s1 key :
  create_batch ids_text ev headers r s = (Next resp, s1) → si_store s = Some d → rp_status resp = 202%Z →
  headers !! "idempotency-key" = Some key →
  ∃ c d1, caller ev headers s None c ∧ si_store s1 = Some d1 ∧
    ∀ ev2 headers2 r2 s2 d2 c2, si_store s2 = Some d2 → db_batch_idempotency (dr_db d1) ⊆ db_batch_idempotency (dr_db d2) →
      caller ev2 headers2 s2 None c2 → same_actor (ac_principal c2) (ac_principal c) → headers2 !! "idempotency-key" = Some key →
      match create_batch ids_text ev2 headers2 r2 s2 with
      | (Next resp2, s3) => store_kept d2 s3
          ∧ hash_secret (json_text (request_json r2)) = hash_secret (json_text (request_json r))
          ∧ ∃ b, job_batch (dr_db d2) (pc_organization_id (ac_principal c)) (batch_id ev) = Some b
              ∧ resp2 = reply 200 (BatchReply (batch_view (dr_db d2) (pc_organization_id (ac_principal c)) (batch_id ev) b))
      | (Exit _, s3) => store_kept d2 s3
      | (Panic, _) => False
      end.
Proof.
  intros Hr Hd Hstatus Hkey. pose proof (create_batch_wp ev headers r s d Hd) as Hw. unfold wp in Hw. rewrite Hr in Hw.
  destruct Hw as (p & o & i & d1 & res & Hen & Hd1 & Hc & Hres). destruct (en_caller _ _ _ _ _ _ _ _ Hen) as (c & Hcaller & <-).
  destruct res as [|e]; [|by destruct Hres as (b & -> & _)].
  apply commit_batch_created in Hc as (_ & _ & _ & _ & _ & _ & _ & _ & _ & _ & _ & _ & _ & _ & _ & Hid).
  unfold batch_idempotency in Hid. rewrite Hkey in Hid. specialize (Hid _ eq_refl).
  exists c, d1. split; [done|]. split; [done|].
  intros ev2 headers2 r2 s2 d2 c2 Hd2 Hsub Hcaller2 (Ho & Hk & Hact) Hkey2.
  pose proof (create_batch_wp ev2 headers2 r2 s2 d2 Hd2) as Hw. unfold wp in Hw.
  destruct (create_batch ids_text ev2 headers2 r2 s2) as [[resp2| |] s3]; [|done..].
  destruct Hw as (p2 & o2 & i2 & d3 & res2 & Hen2 & Hd3 & Hc2 & Hres2).
  destruct (en_caller _ _ _ _ _ _ _ _ Hen2) as (c2' & Hcaller2' & <-).
  assert (c2' = c2) as -> by by eapply caller_unique.
  eapply lookup_weaken in Hid; [|exact Hsub].
  assert (Hcase : res2 = BatchExisting (batch_id ev)
    ∧ hash_secret (json_text (request_json r2)) = hash_secret (json_text (request_json r))).
  { unfold batch_commit, commit_new_batch, existing_batch, batch_idempotency in Hc2. rewrite Hkey2 in Hc2.
    unfold batch_key in *. simpl in Hc2, Hid. rewrite Ho, Hk, Hact, Hid in Hc2. simpl in Hc2.
    destruct (String.eqb_spec (hash_secret (json_text (request_json r))) (hash_secret (json_text (request_json r2)))); [|done].
    simpl in Hc2. by injection Hc2 as <- _. }
  destruct Hcase as [-> Hh]. pose proof (batch_existing_kept _ _ _ _ _ _ _ _ _ Hc2). destruct Hres2 as (b & -> & Hb).
  rewrite Ho in Hb |- *. split; [by eexists|]. split; [done|]. by exists b.
Qed.
End requests.

(** ** Cancelling *)

Definition site_of (s : Site) (h : Hub) : Site :=
  mkSite (match si_store s, hb_store h with Some d, Some db => Some (set_db d db) | o, _ => o end) (si_limiter s)
    (hb_sessions h) (hb_data h) (hb_read_cache h) (si_objects s).

Section cancel.
Context `{!Libraries, !TextOrder}.
Context (from_str_strings : string → Res string (list string)) (from_str_json : string → Res string Json)
        (scan : gmap (string * string * Z * Z) StoredJobEvent → list StoredJobEvent).
(** What becomes of a command to a worker. *)
Context (outcome : string → CommandOutcome) (ev : Env) (headers : Headers).
#[local] Abbreviation rid := (with_id ev headers).
#[local] Abbreviation fail := (product_error rid).

(** [cancel_job_for_principal(..).await]. *)
Definition cancel_child (k : nat) (p : Principal) (id : string) : Handler HubError JobView := λ s,
  let '(answer, h) :=
    match cancel_job_for_principal from_str_strings from_str_json scan (hub_of s) (ev_now ev k) (ev_uuid ev k) p id with
    | CancelDone answer h => (answer, h)
    | CancelAwaitingAck record session_id command_id _ h =>
        send_job_cancellation_finish h (ev_now ev k) record session_id command_id (outcome command_id)
    end in
  (match answer with Ok v => Next v | Err e => Exit e end, site_of s h).

Definition ended_state (state : string) : bool :=
  String.eqb state "completed" || String.eqb state "failed" || String.eqb state "cancelled".

Fixpoint cancel_children (k : nat) (p : Principal) (jobs : list JobTableRow) : Handler HubError unit :=
  match jobs with
  | [] => mret tt
  | j :: jobs =>
      if ended_state (row_state j) then cancel_children k p jobs
      else (_ ← cancel_child k p (sj_id (jt_job j)); cancel_children (S k) p jobs)
  end.

Definition cancel_batch (id : string) : Handler Response Response :=
  auth ← calling fail (authorize_current ev headers JobsCancelOwn);
  let p := ac_principal auth in
  let org := pc_organization_id p in
  d ← calling fail store;
  batch ← lift fail (ok_or (NotFound "batch") (job_batch (dr_db d) org id));
  exit_if (negb (allows p JobsCancelAny
                 || allows p JobsCancelOwn && bool_decide (pc_user_id p = sb_actor_user_id batch)))
    (fail (Forbidden "role can only cancel batches created by the same user")) ;;
  let jobs := batch_jobs_page (dr_db d) org id (i64_saturating_add BATCH_PAGE_MAX 1) None in
  exit_if (negb (length jobs <=? Z.to_nat BATCH_PAGE_MAX)%nat) (fail (Conflict "batch is too large to cancel atomically")) ;;
  calling fail (cancel_children 3 p jobs) ;;
  audit (Some org) (pc_user_id p) (auth_kind (pc_kind p)) rid "job_batch.cancel" "job_batch" (Some id) "success" (JObject [])
    (ev_uuid ev 1) (ev_now ev 1) ;;
  mret no_content.

End cancel.

(** ** A batch *)

Section examples.
#[local] Existing Instance plain_libraries.
#[local] Existing Instance byte_order.

(** Ann's device offers "upscale@1". *)
#[local] Instance offering_texts : DeviceTexts := {|
  rules_from_str t := Ok [];
  rules_to_string l := Ok "[]";
  capabilities_from_str _ :=
    Ok (mkWorkerCapabilities [mkWorkflowCapability "upscale" "1" ["image"] None] 1 1 false ∅);
  value_from_str _ := Err "no value";
|}.

Definition two_jobs : CreateBatchApiRequest :=
  mkCreateBatchApiRequest "upscale" "1" 2 (JObject []) [mkBatchItemSpec 1 None (Some (JObject [("seed", JNumber (PosInt 7))]))] []
    (Some "org") (Some "gpu").
Definition batch_headers : Headers := <["idempotency-key" := "k"]> (bearer "nss_ann").
(** The organization may run four jobs at a time. *)
Definition roomy_rows : Directory :=
  set_db gpu_rows (set_policies (dr_db gpu_rows) (<["org" := mkQuotaPolicy 4 1000 100 3600 10 0]> (db_policies (dr_db gpu_rows)))).
Definition roomy_site : Site := with_store gpu_site (Some roomy_rows).
Definition submitted := create_batch plain_scopes (day 1000 0) batch_headers two_jobs roomy_site.
Definition resubmitted := create_batch plain_scopes (day 2000 200) batch_headers two_jobs submitted.2.
Definition status_of (f : Flow Response Response) : Z := match f with Next r => rp_status r | _ => 0 end.

Lemma batch_submitted_exactly_witness :
  ∃ r, submitted.1 = Next r ∧ rp_status r = 202%Z ∧ batch_answered plain_scopes (day 1000 0) batch_headers two_jobs roomy_site roomy_rows r submitted.2.
Proof.
  assert (Hok : status_of submitted.1 = 202%Z) by (vm_compute; reflexivity).
  pose proof (batch_submitted_exactly plain_scopes (day 1000 0) batch_headers two_jobs roomy_site roomy_rows eq_refl) as Hs.
  fold submitted in Hs. destruct submitted as [[r| |] s']; [|discriminate Hok..]. exists r. split; [reflexivity|]. split; [exact Hok|exact Hs].
Defined.

Lemma batch_submitted_once_witness :
  ∃ d2, si_store submitted.2 = Some d2 ∧ store_kept d2 resubmitted.2 ∧ status_of resubmitted.1 = 200%Z.
Proof.
  assert (Hok : status_of submitted.1 = 202%Z) by (vm_compute; reflexivity).
  assert (Hag : status_of resubmitted.1 = 200%Z) by (vm_compute; reflexivity).
  assert (Hc2 : is_next (authenticate (day 2000 200) batch_headers None submitted.2).1 = true) by (vm_compute; reflexivity).
  assert (Ha : match (authenticate (day 1000 0) batch_headers None roomy_site).1, (authenticate (day 2000 200) batch_headers None submitted.2).1 with
               | Next c, Next c2 => same_actor (ac_principal c2) (ac_principal c)
               | _, _ => False end) by (vm_compute; split_and!; reflexivity).
  unfold resubmitted in *. destruct submitted as [[r| |] s1] eqn:Hr; [|discriminate Hok..].
  destruct (batch_submitted_once plain_scopes (day 1000 0) batch_headers two_jobs roomy_site roomy_rows r s1 "k" Hr eq_refl Hok eq_refl)
    as (c & d1 & [s0 Hc] & Hd1 & Honce).
  cbn [snd] in *. destruct (authenticate (day 2000 200) batch_headers None s1) as [[c2| |] s2] eqn:Hauth; [|discriminate Hc2..].
  rewrite Hc in Ha. cbn [fst] in Ha. exists d1. split; [exact Hd1|].
  specialize (Honce (day 2000 200) batch_headers two_jobs s1 d1 c2 Hd1 (reflexivity _) (ex_intro _ s2 Hauth) Ha eq_refl).
  destruct (create_batch plain_scopes (day 2000 200) batch_headers two_jobs s1) as [[r2| |] s3]; [|discriminate Hag..].
  split; [exact (proj1 Honce)|exact Hag].
Defined.

(** The second job runs, bound by the scheduler but not resident: cancelling the
    batch fails there, after the first job has been cancelled. *)
Definition half_bound : Site :=
  match si_store submitted.2 with
  | Some d => with_store submitted.2
      (Some (set_db d (bind_queued_job (dr_db d) "org" (job_id (day 1000 0) 1) "org" "gpu" "w1" 1500).2))
  | None => submitted.2
  end.
Definition cancelled := cancel_batch (λ _, Ok []) (λ _, Ok (JObject [])) (λ m, (map_to_list m).*2) (λ _, NotSent) (day 2000 300)
  (bearer "nss_ann") (batch_id (day 1000 0)) half_bound.
Definition job_state (s : Site) (n : nat) : option string :=
  d ← si_store s; row_state <$> db_jobs (dr_db d) !! ("org", job_id (day 1000 0) n).

Lemma batch_cancelled_in_part :
  status_of cancelled.1 = 0%Z ∧ job_state cancelled.2 0 = Some "cancelled" ∧ job_state cancelled.2 1 = Some "received".
Proof. vm_compute. done. Qed.
End examples.
