(* ===== verification/Media.v ===== *)
(** Object contents over HTTP ([product_api/media.rs]): byte ranges, media types
    and the answer that streams an object.

    The object store's read is an argument.

    Main results: a range that is understood is the part of the object HTTP
    defines, never beyond its end, and is stable under another reading; content a
    browser could run is only ever offered for download. *)

From S2P Require Import Prelude Text Json HubTypes Principal Helpers Transfer Web Paging.
From Stdlib Require Import ZArith Lia Ascii.

(** ** Ranges *)

(** [str::parse::<u64>]. *)
Definition u64_parse (s : string) : option Z :=
  let digits := match s with String a rest => if Ascii.eqb a "+" then rest else s | EmptyString => s end in
  if negb (String.eqb digits "") && str_all is_ascii_digit digits then
    let n := Z.of_N (Rfc6901.decimal 0 digits) in
    if bool_decide (n ≤ u64_max)%Z then Some n else None
  else None.

Record ByteRange := mkByteRange { br_request : string; br_content_range : string }.

(** The first and the last byte. *)
Definition range_bounds (value : string) (size : Z) : option (Z * Z) :=
  if (size =? 0)%Z then None
  else
    value ← strip_prefix "bytes=" (trim value);
    if contains "," value then None
    else
      '(first, last) ← split_once "-" value;
      if String.eqb first "" then
        suffix ← u64_parse last;
        if (suffix =? 0)%Z then None else Some (Z.max 0 (size - Z.min suffix size), size - 1)%Z
      else
        first ← u64_parse first;
        if (size <=? first)%Z then None
        else
          last ← (if String.eqb last "" then Some (size - 1)%Z else (λ n, Z.min n (size - 1)) <$> u64_parse last);
          if (last <? first)%Z then None else Some (first, last).

Definition normalize_range (value : string) (size : Z) : option ByteRange :=
  '(first, last) ← range_bounds value size;
  Some (mkByteRange ("bytes=" +:+ pretty first +:+ "-" +:+ pretty last)
          ("bytes " +:+ pretty first +:+ "-" +:+ pretty last +:+ "/" +:+ pretty size)).

(** ** Media types *)

Definition normalized_media_type (content_type : string) : string :=
  to_ascii_lowercase (trim (default "" (head (split_char ";" content_type)))).

Definition inline_images : list string :=
  ["image/png"; "image/jpeg"; "image/webp"; "image/gif"; "image/avif"; "image/bmp"; "image/x-icon"].
Definition safe_inline_media_type (content_type : string) : bool :=
  let value := normalized_media_type content_type in
  existsb (String.eqb value) inline_images || starts_with "audio/" value || starts_with "video/" value.

(** ** Streaming *)

(** What the object store answers, before the body. *)
Record ObjectBody := mkObjectBody { oc_size_bytes : Z; oc_content_range : option string }.

(** [ct_content]: the object streamed, and the range of it. *)
Record ContentResponse := mkContentResponse {
  ct_status : Z;
  ct_headers : list (string * string);
  ct_content : option (string * option string);
}.

Definition dquote : string := String "034" "".
Definition is_ascii_graphic (a : ascii) : bool := in_range 33 126 (byte_of a).
Definition filename_char (a : ascii) : bool :=
  is_ascii_graphic a && negb (Ascii.eqb a "034") && negb (Ascii.eqb a "\").
Definition attachment_name (artifact_name : string) : string := chars_take 180 (chars_sanitize filename_char artifact_name).

Section stream.
Context `{!Libraries} (fetch : string → option string → Res string ObjectBody).

(** [if let Ok(value) = HeaderValue::from_str(value) { headers.insert(name, value) }]. *)
Definition put (name value : string) (l : list (string * string)) : list (string * string) :=
  if header_value value then l ++ [(name, value)] else l.

(** The Range header: absent, or its text if it is text. *)
Definition requested_range (range : option (option string)) (size : Z) : Res unit (option ByteRange) :=
  match range with
  | None => Ok None
  | Some value => match value ≫= λ v, normalize_range v size with Some r => Ok (Some r) | None => Err tt end
  end.

Definition stream_object_content (range : option (option string)) (request_id object_key artifact_name declared_content_type : string)
    (size_bytes : Z) (sha256 : string) : Res Response ContentResponse :=
  match requested_range range size_bytes with
  | Err _ => Ok (mkContentResponse 416 (put "content-range" ("bytes */" +:+ pretty size_bytes) []) None)
  | Ok range =>
      object ← match fetch object_key (br_request <$> range) with
               | Ok o => Ok o
               | Err error => Err (product_error request_id (ObjectStoreError error))
               end;
      let inline := safe_inline_media_type declared_content_type in
      let response_content_type := if inline then declared_content_type else "application/octet-stream" in
      let headers := [("accept-ranges", "bytes"); ("cache-control", "no-store"); ("x-content-type-options", "nosniff");
                      ("content-security-policy", "sandbox; default-src 'none'")] in
      let headers := put "content-type" response_content_type headers in
      let headers := put "content-length" (pretty (oc_size_bytes object)) headers in
      let headers := put "etag" (dquote +:+ sha256 +:+ dquote) headers in
      let headers := if inline then headers
                     else put "content-disposition" ("attachment; filename=" +:+ dquote +:+ attachment_name artifact_name +:+ dquote) headers in
      match range with
      | Some r =>
          Ok (mkContentResponse 206 (put "content-range" (default (br_content_range r) (oc_content_range object)) headers)
                (Some (object_key, Some (br_request r))))
      | None => Ok (mkContentResponse 200 headers (Some (object_key, None)))
      end
  end.
End stream.

(** ** Ranges are HTTP's *)

(** The forms of a single range, and the bytes each asks of an object. *)
Inductive RangeSpec :=
| FromTo (first last : Z)
| From (first : Z)
| Last (n : Z).

Definition range_text (r : RangeSpec) : string :=
  "bytes=" +:+ match r with
               | FromTo i j => pretty i +:+ "-" +:+ pretty j
               | From i => pretty i +:+ "-"
               | Last n => "-" +:+ pretty n
               end.
Definition range_ok (r : RangeSpec) : Prop :=
  match r with FromTo i j => in_u64 i ∧ in_u64 j | From n | Last n => in_u64 n end.

(** The byte at [k] is asked for. *)
Definition asks (r : RangeSpec) (size k : Z) : Prop :=
  (0 ≤ k < size)%Z ∧ match r with FromTo i j => i ≤ k ≤ j | From i => i ≤ k | Last n => size - n ≤ k end%Z.

Lemma u64_parse_bounds s n : u64_parse s = Some n → in_u64 n.
Proof.
  unfold u64_parse. destruct (_ && _); [|done]. case_bool_decide as Hb; [|done]. intros [= <-]. unfold in_u64. split; [apply N2Z.is_nonneg|done].
Qed.

Lemma u64_digits n : in_u64 n → str_all is_ascii_digit (pretty n) = true ∧ pretty n ≠ "".
Proof.
  intros [Hn _]. destruct n as [|p|p]; [done| |lia]. change (pretty (Z.pos p)) with (pretty (N.pos p)). apply pretty_N_proper.
Qed.

Lemma u64_parse_pretty n : in_u64 n → u64_parse (pretty n) = Some n.
Proof.
  intros Hn. destruct (u64_digits n Hn) as [Hd Hne]. unfold u64_parse.
  assert (Hs : match pretty n with String a rest => if Ascii.eqb a "+" then rest else pretty n | EmptyString => pretty n end = pretty n).
  { destruct (pretty n) as [|a s]; [done|]. simpl in Hd. apply andb_true_iff in Hd as [Ha _]. by destruct (Ascii.eqb_spec a "+") as [->|]. }
  rewrite Hs. apply String.eqb_neq in Hne. rewrite Hne, Hd. simpl.
  assert (Hv : Z.of_N (Rfc6901.decimal 0 (pretty n)) = n).
  { destruct Hn as [Hn _], n as [|p|p]; [done| |lia]. change (pretty (Z.pos p)) with (pretty (N.pos p)). by rewrite decimal_pretty. }
  rewrite Hv. rewrite bool_decide_eq_true_2; [done|]. by destruct Hn.
Qed.

(** The text of a range is visible and has no comma. *)
Lemma range_text_graphic r : range_ok r →
  str_all (λ a, negb (not_graphic a)) (range_text r) = true
  ∧ contains "," (match strip_prefix "bytes=" (range_text r) with Some v => v | None => "" end) = false.
Proof.
  assert (Hg : ∀ n, in_u64 n → str_all (λ a, negb (not_graphic a) && negb (Ascii.eqb a ",")) (pretty n) = true).
  { intros n Hn. eapply str_all_impl; [|apply (u64_digits n Hn)]. intros a Ha.
    unfold is_ascii_digit, in_range in Ha. apply andb_true_iff in Ha as [Hlo%N.leb_le Hhi%N.leb_le]. apply andb_true_iff. split.
    - unfold not_graphic, in_range. apply negb_true_iff, negb_false_iff, andb_true_iff. split; apply N.leb_le; lia.
    - by destruct (Ascii.eqb_spec a ",") as [->|]. }
  assert (Hp : ∀ f g s, str_all (λ a, f a && g a) s = true → str_all f s = true ∧ str_all g s = true).
  { intros f g s Hs. split; (eapply str_all_impl; [|exact Hs]); intros a [? ?]%andb_true_iff; done. }
  assert (Hc : ∀ s, str_all (λ a, negb (Ascii.eqb a ",")) s = true → contains "," s = false).
  { intros s Hs. apply not_true_iff_false. intros Hin. by pose proof (contains_all _ _ _ Hs Hin). }
  intros Hr. unfold range_text. rewrite strip_prefix_app. destruct r as [i j|i|n]; simpl in Hr.
  1: destruct Hr as [Hi Hj]; destruct (Hp _ _ _ (Hg i Hi)) as [Gi Ci], (Hp _ _ _ (Hg j Hj)) as [Gj Cj].
  2,3: destruct (Hp _ _ _ (Hg _ Hr)) as [Gi Ci].
  all: split; [|apply Hc]; rewrite ?str_all_app, ?Gi, ?Ci, ?Gj, ?Cj; done.
Qed.

Lemma split_dash n rest : in_u64 n → split_once "-" (pretty n +:+ String "-" rest) = Some (pretty n, rest).
Proof.
  intros Hn. apply split_once_app. eapply str_all_impl; [|apply (u64_digits n Hn)].
  intros a Ha. by destruct (Ascii.eqb_spec a "-") as [->|].
Qed.

Lemma range_bounds_within value size first last :
  (0 ≤ size)%Z → range_bounds value size = Some (first, last) → (0 ≤ first ≤ last)%Z ∧ (last < size)%Z.
Proof.
  intros Hsize. unfold range_bounds. destruct (Z.eqb_spec size 0) as [|Hne]; [done|].
  destruct (strip_prefix _ _) as [v|]; [|done]. cbn [mbind option_bind]. destruct (contains _ v); [done|].
  destruct (split_once _ v) as [[a b]|]; [|done]. cbn [mbind option_bind].
  destruct (String.eqb a "").
  - destruct (u64_parse b) as [n|] eqn:Hb; [|done]. cbn [mbind option_bind]. apply u64_parse_bounds in Hb as [Hb _].
    destruct (Z.eqb_spec n 0) as [|Hn]; [done|]. intros [= <- <-]. lia.
  - destruct (u64_parse a) as [i|] eqn:Ha; [|done]. cbn [mbind option_bind]. apply u64_parse_bounds in Ha as [Ha _].
    destruct (Z.leb_spec size i); [done|].
    destruct (String.eqb b ""); cbn [mbind option_bind].
    + destruct (Z.ltb_spec (size - 1) i); [done|]. intros [= <- <-]. lia.
    + destruct (u64_parse b) as [j|]; [|done]. cbn [fmap option_fmap option_map mbind option_bind].
      destruct (Z.ltb_spec (Z.min j (size - 1)) i); [done|]. intros [= <- <-]. lia.
Qed.

Lemma range_bounds_spec r size :
  range_ok r → (0 < size)%Z →
  range_bounds (range_text r) size =
    match r with
    | FromTo i j => if bool_decide (i < size ∧ i ≤ j)%Z then Some (i, Z.min j (size - 1)) else None
    | From i => if bool_decide (i < size)%Z then Some (i, size - 1) else None
    | Last n => if bool_decide (0 < n)%Z then Some (Z.max 0 (size - n), size - 1) else None
    end%Z.
Proof.
  intros Hr Hsize. destruct (range_text_graphic r Hr) as [Hg Hc]. unfold range_bounds.
  rewrite (proj2 (Z.eqb_neq size 0)) by lia. rewrite trim_graphic by done. revert Hc. unfold range_text. rewrite strip_prefix_app.
  cbn [mbind option_bind]. intros ->.
  assert (Hne : ∀ n, in_u64 n → String.eqb (pretty n) "" = false) by (intros n Hn; apply String.eqb_neq, u64_digits, Hn).
  destruct r as [i j|i|n]; simpl in Hr.
  - destruct Hr as [Hi Hj]. change ("-" +:+ pretty j) with (String "-" (pretty j)). rewrite split_dash by done. cbn [mbind option_bind].
    rewrite (Hne i), (u64_parse_pretty i) by done. cbn [mbind option_bind]. rewrite (Hne j), (u64_parse_pretty j) by done.
    cbn [fmap option_fmap option_map mbind option_bind]. destruct Hi as [Hi _].
    destruct (Z.leb_spec size i); [by rewrite bool_decide_eq_false_2 by lia|].
    destruct (Z.ltb_spec (Z.min j (size - 1)) i); [by rewrite bool_decide_eq_false_2 by lia|]. by rewrite bool_decide_eq_true_2 by lia.
  - rewrite split_dash by done. cbn [mbind option_bind]. rewrite (Hne i), (u64_parse_pretty i) by done. cbn [mbind option_bind].
    destruct (Z.leb_spec size i); [by rewrite bool_decide_eq_false_2 by lia|]. simpl. cbn [mbind option_bind].
    destruct (Z.ltb_spec (size - 1) i); [lia|]. by rewrite bool_decide_eq_true_2 by lia.
  - change ("-" +:+ pretty n) with (String "-" (pretty n)). cbn [split_once]. rewrite Ascii.eqb_refl. cbn [mbind option_bind String.eqb].
    rewrite u64_parse_pretty by done. cbn [mbind option_bind]. destruct Hr as [Hn _].
    destruct (Z.eqb_spec n 0); [by rewrite bool_decide_eq_false_2 by lia|]. rewrite bool_decide_eq_true_2 by lia. f_equal. f_equal. lia.
Qed.

(** A range is what HTTP says it is: a single range, written in one of its
    three forms with numbers of 64 bits, is answered with exactly the bytes of the
    object it asks for, and refused when it asks for none; whatever the header
    says, an accepted range lies within the object, and the range passed on to the
    object store is read there as the same bytes. *)
Theorem range_normalized r value size :
  in_u64 size →
  (range_ok r →
     match range_bounds (range_text r) size with
     | Some (first, last) => ∀ k, asks r size k ↔ (first ≤ k ≤ last)%Z
     | None => ∀ k, ¬ asks r size k
     end)
  ∧ match normalize_range value size with
    | Some n => ∃ first last, (0 ≤ first ≤ last)%Z ∧ (last < size)%Z
        ∧ br_content_range n = "bytes " +:+ pretty first +:+ "-" +:+ pretty last +:+ "/" +:+ pretty size
        ∧ range_bounds (br_request n) size = Some (first, last)
    | None => range_bounds value size = None
    end.
Proof.
  intros Hsize. split.
  - intros Hr. destruct (decide (size = 0%Z)) as [->|Hne].
    { unfold range_bounds. simpl. intros k [? _]. lia. }
    assert (Hpos : (0 < size)%Z) by (destruct Hsize; lia). rewrite range_bounds_spec by done. unfold asks.
    destruct r as [i j|i|n]; simpl in Hr; case_bool_decide; unfold in_u64 in Hr; intros k; lia.
  - unfold normalize_range. destruct (range_bounds value size) as [[first last]|] eqn:Hb; [|done]. cbn [mbind option_bind].
    destruct (range_bounds_within _ _ _ _ (proj1 Hsize) Hb) as [Hlo Hhi]. exists first, last. split_and!; try done; try lia.
    simpl. change ("bytes=" +:+ pretty first +:+ "-" +:+ pretty last) with (range_text (FromTo first last)).
    unfold in_u64 in Hsize. rewrite range_bounds_spec by (simpl; unfold in_u64; lia). rewrite bool_decide_eq_true_2 by lia.
    by rewrite Z.min_l by lia.
Qed.

(** ** Active content is not shown *)

Lemma sanitized_graphic s : str_all filename_char (chars_sanitize filename_char s) = true.
Proof.
  induction s as [|a s IH]; [done|]. cbn [chars_sanitize]. destruct (is_continuation a); [done|]. cbn [str_all]. rewrite IH, andb_true_r.
  by destruct (filename_char a) eqn:Ha.
Qed.
Lemma str_all_chars_take f n s : str_all f s = true → str_all f (chars_take n s) = true.
Proof.
  revert n. induction s as [|a s IH]; intros n; [by destruct n|]. cbn [str_all chars_take]. intros [Ha Hs]%andb_true_iff.
  destruct (is_continuation a); [cbn [str_all]; by rewrite Ha, IH|]. destruct n; [done|]. cbn [str_all]. by rewrite Ha, IH.
Qed.
Lemma attachment_graphic name : str_all filename_char (attachment_name name) = true.
Proof. apply str_all_chars_take, sanitized_graphic. Qed.

Section active.
Context `{!Libraries, !LibraryLaws} (fetch : string → option string → Res string ObjectBody).

Lemma put_elem name value l x : x ∈ put name value l ↔ x ∈ l ∨ header_value value = true ∧ x = (name, value).
Proof.
  unfold put. destruct (header_value value); [rewrite elem_of_app, list_elem_of_singleton|]; naive_solver.
Qed.

Lemma disposition_header name :
  header_value ("attachment; filename=" +:+ dquote +:+ attachment_name name +:+ dquote) = true.
Proof.
  assert (Hf : str_all (λ a, in_range 32 126 (byte_of a)) (attachment_name name) = true).
  { eapply str_all_impl; [|apply attachment_graphic].
    intros a [[Ha _]%andb_true_iff _]%andb_true_iff. unfold is_ascii_graphic, in_range in *.
    apply andb_true_iff in Ha as [?%N.leb_le ?%N.leb_le]. apply andb_true_iff. split; apply N.leb_le; lia. }
  apply header_graphic. rewrite !str_all_app, Hf. done.
Qed.

(** Whatever an artifact's type claims: its content goes out under that type only
    if the type is one a browser does not run, and else as bytes to be saved, under
    a name that cannot leave its quotes; the browser is always told not to guess. *)
Theorem active_content_downloads range rid key name declared size sha r :
  stream_object_content fetch range rid key name declared size sha = Ok r → is_Some (ct_content r) →
  ("x-content-type-options", "nosniff") ∈ ct_headers r
  ∧ ("content-security-policy", "sandbox; default-src 'none'") ∈ ct_headers r
  ∧ (∀ t, ("content-type", t) ∈ ct_headers r → t = declared ∧ safe_inline_media_type declared = true ∨ t = "application/octet-stream")
  ∧ (safe_inline_media_type declared = false → ∃ file, str_all filename_char file = true
       ∧ ("content-disposition", "attachment; filename=" +:+ dquote +:+ file +:+ dquote) ∈ ct_headers r).
Proof.
  unfold stream_object_content. destruct (requested_range _ _) as [rg|]; [|by intros [= <-] [? ?]].
  intros (o & _ & Hr)%bind_Ok _. destruct (safe_inline_media_type declared) eqn:Hs; destruct rg as [rg|]; injection Hr as <-; cbn [ct_headers];
    rewrite !put_elem; (split; [set_solver|]); (split; [set_solver|]);
    (split; [intros t; rewrite !put_elem; set_solver|]); try done;
    (intros _; exists (attachment_name name); split; [apply attachment_graphic|]; rewrite !put_elem; rewrite disposition_header; naive_solver).
Qed.
End active.

(** ** A range *)

Lemma range_normalized_witness :
  range_bounds (range_text (Last 10)) 100 = Some (90, 99)%Z ∧ ∀ k, asks (Last 10) 100 k ↔ (90 ≤ k ≤ 99)%Z.
Proof.
  split; [by vm_compute|].
  assert (Hs : in_u64 100) by (unfold in_u64; vm_compute; split; discriminate).
  assert (Hr : range_ok (Last 10)) by (unfold range_ok, in_u64; vm_compute; split; discriminate).
  exact (proj1 (range_normalized (Last 10) "bytes=0-" 100 Hs) Hr).
Defined.
