(* ===== verification/Gallery.v ===== *)
(** The public gallery ([product_api/gallery.rs] and
    [hub-store/src/gallery.rs]): publishing an output, taking it back, reading
    what is published.

    The table of publications is a state of its own next to the Hub's; a row refers
    to an artifact, its job and the membership of its owner, and goes with them,
    which the joins below show.  The table of advertised workflows and the texts of
    JSON and manifests are arguments.

    Main results: only the user whose completed job made an artifact publishes it,
    and only they take it back; a reader gets the content of nothing else; of the
    job's parameters only named, plain and short values are shown. *)

From S2P Require Import Prelude Text Json Messages HubTypes Principal Helpers TtlCache HubState Sessions Store HubJobs Artifacts.
From S2P Require Import RateLimit Accounts Secrets Transfer Web Auth Paging Members Media.
From Stdlib Require Import ZArith Lia Ascii.

#[local] Abbreviation Headers := (gmap string string).

(** ** Rows *)

Record GalleryRow := mkGalleryRow {
  gl_organization_id : string;
  gl_artifact_id : string;
  gl_job_id : string;
  gl_owner_user_id : string;
  gl_workflow_id : string;
  gl_workflow_version : string;
  gl_display_name : string;
  gl_parameters_json : string;
  gl_published_at : Z;
}.
(** By id. *)
Definition Gallery : Type := gmap string GalleryRow.

Record GalleryPublishCandidate := mkGalleryPublishCandidate {
  gc_artifact_id : string;
  gc_content_type : string;
  gc_workflow_id : string;
  gc_workflow_version : string;
  gc_parameters_json : string;
  gc_manifest_json : option string;
}.
Record PublishGalleryItem := mkPublishGalleryItem {
  pg_id : string;
  pg_organization_id : string;
  pg_artifact_id : string;
  pg_owner_user_id : string;
  pg_display_name : string;
  pg_parameters_json : string;
  pg_published_at : Z;
}.
Record StoredGalleryItem := mkStoredGalleryItem {
  si_id : string;
  si_row : GalleryRow;
  si_artifact_name : string;
  si_content_type : string;
  si_size_bytes : Z;
  si_sha256 : string;
}.
Record GalleryContent := mkGalleryContent {
  gk_artifact_name : string;
  gk_content_type : string;
  gk_size_bytes : Z;
  gk_sha256 : string;
  gk_object_key : string;
}.

Section statements.
Context `{!JsonbArray, !TextOrder} (manifests : string → string → string → option string).

(** The predicate of both statements: a ready output of a completed job the user
    submitted. *)
Definition publishable (d : Directory) (organization_id artifact_id owner_user_id : string)
    : option (StoredArtifact * string * StoredJob) :=
  a ← artifact (dr_db d) organization_id artifact_id;
  job_id ← sa_job_id a;
  j ← job (dr_db d) organization_id job_id;
  if String.eqb (sa_state a) "ready" && String.eqb (sj_state j) "completed"
     && bool_decide (sj_actor_user_id j = Some owner_user_id) && jsonb_has (sj_output_artifact_ids_json j) artifact_id
  then Some (a, job_id, j) else None.

Definition gallery_publish_candidate (d : Directory) (organization_id artifact_id owner_user_id : string)
    : option GalleryPublishCandidate :=
  '(a, _, j) ← publishable d organization_id artifact_id owner_user_id;
  Some (mkGalleryPublishCandidate artifact_id (sa_content_type a) (sj_workflow_id j) (sj_workflow_version j)
          (sj_parameters_json j)
          (o ← sj_worker_organization_id j; manifests o (sj_workflow_id j) (sj_workflow_version j))).

(** [GALLERY_ITEM_SELECT]. *)
Definition gallery_join (d : Directory) (kv : string * GalleryRow) : option StoredGalleryItem :=
  a ← artifact (dr_db d) (gl_organization_id kv.2) (gl_artifact_id kv.2);
  Some (mkStoredGalleryItem kv.1 kv.2 (sa_name a) (sa_content_type a) (sa_size_bytes a) (sa_sha256 a)).
Definition gallery_item (d : Directory) (g : Gallery) (id : string) : option StoredGalleryItem :=
  row ← g !! id; gallery_join d (id, row).

Definition gallery_items (d : Directory) (g : Gallery) : list StoredGalleryItem := omap (gallery_join d) (map_to_list g).
Definition item_published (i : StoredGalleryItem) : Z * string := (gl_published_at (si_row i), si_id i).
Definition gallery_items_page (d : Directory) (g : Gallery) : Z → option (Z * string) → list StoredGalleryItem :=
  select_page item_published newest_first (gallery_items d g).

Definition gallery_content (d : Directory) (g : Gallery) (id : string) : option GalleryContent :=
  row ← g !! id;
  a ← artifact (dr_db d) (gl_organization_id row) (gl_artifact_id row);
  if String.eqb (sa_state a) "ready"
  then Some (mkGalleryContent (sa_name a) (sa_content_type a) (sa_size_bytes a) (sa_sha256 a) (sa_object_key a)) else None.

(** The publication of an artifact. *)
Definition published_as (g : Gallery) (organization_id artifact_id : string) : option string :=
  (head (filter (λ kv, gl_organization_id kv.2 = organization_id ∧ gl_artifact_id kv.2 = artifact_id) (map_to_list g))) ≫= λ kv, Some kv.1.

Definition publication (i : PublishGalleryItem) (job_id : string) (j : StoredJob) : GalleryRow :=
  mkGalleryRow (pg_organization_id i) (pg_artifact_id i) job_id (pg_owner_user_id i) (sj_workflow_id j) (sj_workflow_version j)
    (pg_display_name i) (pg_parameters_json i) (pg_published_at i).

(** [INSERT .. SELECT .. ON CONFLICT (organization_id,artifact_id) DO UPDATE], which
    changes nothing, and the row that is there then. *)
Definition publish_gallery_item (d : Directory) (g : Gallery) (i : PublishGalleryItem) : Res StoreError StoredGalleryItem * Gallery :=
  let inserted :=
    p ← ok_or (StConflict "artifact is not a ready completed output owned by the current user")
          (publishable d (pg_organization_id i) (pg_artifact_id i) (pg_owner_user_id i));
    match published_as g (pg_organization_id i) (pg_artifact_id i) with
    | Some id => Ok (id, g)
    | None =>
        reject_if (bool_decide (is_Some (g !! pg_id i))) violates_unique ;;
        reject_if (negb (bool_decide (is_Some (dr_memberships d !! (pg_organization_id i, pg_owner_user_id i))))) violates_foreign_key ;;
        Ok (pg_id i, <[pg_id i := publication i p.1.2 p.2]> g)
    end in
  match inserted with
  | Err e => (Err e, g)
  | Ok (id, g') => (ok_or (StNotFound "gallery item") (gallery_item d g' id), g')
  end.

(** The organization of the row deleted. *)
Definition unpublish_gallery_item (g : Gallery) (id owner_user_id : string) : option string * Gallery :=
  match g !! id with
  | Some row => if String.eqb (gl_owner_user_id row) owner_user_id then (Some (gl_organization_id row), delete id g) else (None, g)
  | None => (None, g)
  end.
End statements.

(** ** Public parameters *)

Definition GALLERY_PAGE_DEFAULT : Z := 24.
Definition GALLERY_PAGE_MAX : Z := 50.
Definition MAX_PUBLIC_PARAMETERS : nat := 32.
Definition MAX_PUBLIC_PARAMETER_BYTES : nat := 16 * 1024.
Definition MAX_PUBLIC_STRING_CHARS : nat := 8 * 1024.

Definition public_names : list string :=
  ["prompt"; "positive"; "positive_prompt"; "text"; "text_prompt"; "negative"; "negative_prompt"; "model"; "model_name"; "ckpt";
   "ckpt_name"; "checkpoint"; "checkpoint_name"; "seed"; "random_seed"; "noise_seed"; "steps"; "num_steps"; "sampling_steps"; "cfg";
   "cfg_scale"; "guidance"; "guidance_scale"; "sampler"; "sampler_name"; "scheduler"; "scheduler_name"; "resolution"; "size"; "width";
   "height"; "aspect_ratio"].
Definition gallery_parameter_is_safe (name : string) : bool :=
  let normalized := chars_sanitize is_ascii_alphanumeric (to_ascii_lowercase (trim name)) in
  existsb (String.eqb normalized) public_names.

Fixpoint safe_parameter_value (value : Json) : option Json :=
  match value with
  | JNull | JBool _ | JNumber _ => Some value
  | JString s => if (chars_count s <=? MAX_PUBLIC_STRING_CHARS)%nat then Some (JString s) else None
  | JArray values =>
      if (length values <=? 64)%nat then
        JArray <$> (fix go (l : list Json) : option (list Json) :=
                      match l with
                      | [] => Some []
                      | x :: l => y ← safe_parameter_value x; ys ← go l; Some (y :: ys)
                      end) values
      else None
  | JObject _ => None
  end.

(** [Map::remove]. *)
Definition obj_remove (k : string) (m : list (string * Json)) : list (string * Json) := filter (λ kv, kv.1 ≠ k) m.

Class GalleryTexts := {
  parameters_from_str : string → option Json;
  manifest_from_str : string → option WorkflowManifest;
}.

Section parameters.
Context `{!Libraries, !GalleryTexts}.

Definition too_large (public : list (string * Json)) : bool :=
  match json_to_string (JObject public) with Ok t => (MAX_PUBLIC_PARAMETER_BYTES <? str_len t)%nat | Err _ => false end.

(** The loop over the inputs the manifest names. *)
Fixpoint public_parameters (parameters : list (string * Json)) (inputs : list WorkflowInput) (public : list (string * Json))
    : list (string * Json) :=
  match inputs with
  | [] => public
  | input :: inputs =>
      match obj_get (wi_name input) parameters ≫= safe_parameter_value with
      | None => public_parameters parameters inputs public
      | Some value =>
          let public := obj_insert (wi_name input) value public in
          if too_large public then obj_remove (wi_name input) public else public_parameters parameters inputs public
      end
  end.

Definition is_parameter (input : WorkflowInput) : bool :=
  match wi_kind input with ParameterInput => gallery_parameter_is_safe (wi_name input) | ArtifactInput => false end.

Definition sanitize_gallery_parameters (parameters_json : string) (manifest_json : option string) : Json :=
  let parameters := default [] (parameters_from_str parameters_json ≫= as_object) in
  match manifest_json ≫= manifest_from_str with
  | None => JObject []
  | Some manifest =>
      JObject (public_parameters parameters
                 (take MAX_PUBLIC_PARAMETERS (filter (λ i, is_parameter i = true) (wm_inputs manifest))) [])
  end.
End parameters.

(** ** Handlers *)

Record GalleryArtifactView := mkGalleryArtifactView {
  ga_id : string;
  ga_name : string;
  ga_content_type : string;
  ga_size_bytes : Z;
  ga_sha256 : string;
}.
(** Without organization, owner and object key. *)
Record GalleryItemView := mkGalleryItemView {
  gw_id : string;
  gw_artifact : GalleryArtifactView;
  gw_job_id : string;
  gw_workflow_id : string;
  gw_workflow_version : string;
  gw_display_name : string;
  gw_parameters : Json;
  gw_media_kind : string;
  gw_content_url : string;
  gw_can_unpublish : bool;
  gw_published_at_unix_ms : Z;
}.

Inductive GalleryAnswer :=
| Refused (r : Response)
| ItemAnswer (i : GalleryItemView)
| Unpublished
| ItemsAnswer (items : list GalleryItemView) (next_cursor : option string)
| ContentAnswer (c : ContentResponse)
| DownloadAnswer (download : PresignedRequest).

Section handlers.
Context `{!Libraries, !JsonbArray, !TextOrder, !GalleryTexts, !ObjectStore}.
Context (manifests : string → string → string → option string) (fetch : string → option string → Res string ObjectBody).
Context (ev : Env) (headers : Headers) (range : option (option string)).
#[local] Abbreviation rid := (with_id ev headers).
#[local] Abbreviation fail := (product_error rid).

Definition u64_try_from (n : Z) : Res HubError Z :=
  if (n <? 0)%Z then Err (InvalidConfig "persisted artifact size is negative") else Ok n.

Definition gallery_view (item : StoredGalleryItem) (current_user_id : string) : Res HubError GalleryItemView :=
  size_bytes ← u64_try_from (si_size_bytes item);
  let row := si_row item in
  let parameters := default (JObject []) (parameters_from_str (gl_parameters_json row)) in
  let normalized := normalized_media_type (si_content_type item) in
  let media_kind := if starts_with "image/" normalized then "image" else if starts_with "video/" normalized then "video" else "audio" in
  Ok (mkGalleryItemView (si_id item)
        (mkGalleryArtifactView (gl_artifact_id row) (si_artifact_name item) (si_content_type item) size_bytes (si_sha256 item))
        (gl_job_id row) (gl_workflow_id row) (gl_workflow_version row) (gl_display_name row) parameters media_kind
        ("/api/v1/gallery/items/" +:+ si_id item +:+ "/content") (String.eqb (gl_owner_user_id row) current_user_id)
        (gl_published_at row)).

Definition display_name_of (c : GalleryPublishCandidate) : string :=
  let named := name ← (λ m, truncate (trim (wm_display_name m)) 200) <$> (gc_manifest_json c ≫= manifest_from_str);
               if String.eqb name "" then None else Some name in
  default (truncate (gc_workflow_id c) 200) named.

Definition view_answer (item : StoredGalleryItem) (user_id : string) : GalleryAnswer :=
  match gallery_view item user_id with Ok v => ItemAnswer v | Err e => Refused (fail e) end.

Definition publish (artifact_id : string) (g : Gallery) : Handler Response (GalleryAnswer * Gallery) :=
  auth ← calling fail (require_browser ev headers None);
  let p := ac_principal auth in
  exit_if (negb (allows p ArtifactsWrite)) (fail (Forbidden "missing permission artifacts:write")) ;;
  user_id ← lift fail (ok_or (Forbidden "a user-owned credential is required") (pc_user_id p));
  d ← calling fail store;
  candidate ← lift fail (ok_or (Conflict "artifact is not a ready completed output owned by the current user")
                           (gallery_publish_candidate manifests d (pc_organization_id p) (trim artifact_id) user_id));
  exit_if (negb (safe_inline_media_type (gc_content_type candidate)))
    (fail (InvalidRequest "only safe image, audio, or video outputs can be published")) ;;
  let parameters := sanitize_gallery_parameters (gc_parameters_json candidate) (gc_manifest_json candidate) in
  let parameters_json := match json_to_string parameters with Ok t => t | Err _ => "{}" end in
  let input := mkPublishGalleryItem (ev_uuid ev 1) (pc_organization_id p) (gc_artifact_id candidate) user_id
                 (display_name_of candidate) parameters_json (ev_now ev 1) in
  match publish_gallery_item d g input with
  | (Err e, g') => mret (Refused (fail (map_store e)), g')
  | (Ok item, g') =>
      audit (Some (pc_organization_id p)) (Some user_id) (auth_kind (pc_kind p)) rid "gallery.publish" "gallery_item"
        (Some (si_id item)) "success" (JObject [("artifact_id", JString (gl_artifact_id (si_row item)))]) (ev_uuid ev 2) (ev_now ev 2) ;;
      mret (view_answer item user_id, g')
  end.

Definition unpublish (item_id : string) (g : Gallery) : Handler Response (GalleryAnswer * Gallery) :=
  auth ← calling fail (require_browser ev headers None);
  let p := ac_principal auth in
  user_id ← lift fail (ok_or (Forbidden "a user-owned credential is required") (pc_user_id p));
  _ ← calling fail store;
  match unpublish_gallery_item g item_id user_id with
  | (None, g') => mret (Refused (fail (NotFound "gallery item")), g')
  | (Some organization_id, g') =>
      audit (Some organization_id) (Some user_id) (auth_kind (pc_kind p)) rid "gallery.unpublish" "gallery_item" (Some item_id)
        "success" (JObject []) (ev_uuid ev 1) (ev_now ev 1) ;;
      mret (Unpublished, g')
  end.

Definition gallery_limit (limit : option Z) : Z := clamp 1 GALLERY_PAGE_MAX (default GALLERY_PAGE_DEFAULT limit).

Definition list_items (query : CursorQuery) (g : Gallery) : Handler Response (GalleryAnswer * Gallery) :=
  auth ← calling fail (require_browser ev headers None);
  let user_id := default "" (pc_user_id (ac_principal auth)) in
  let limit := gallery_limit (cq_limit query) in
  after ← lift fail (read_cursor decode_created_id_cursor (cq_cursor query));
  d ← calling fail store;
  let rows := gallery_items_page d g (i64_saturating_add limit 1) after in
  let has_more := (Z.to_nat limit <? length rows)%nat in
  let items := take (Z.to_nat limit) rows in
  let next_cursor := if has_more then (λ i, encode_created_id_cursor (item_published i)) <$> last items else None in
  views ← lift fail (try_map (λ item, gallery_view item user_id) items);
  mret (ItemsAnswer views next_cursor, g).

Definition get_item (item_id : string) (g : Gallery) : Handler Response (GalleryAnswer * Gallery) :=
  auth ← calling fail (require_browser ev headers None);
  let user_id := default "" (pc_user_id (ac_principal auth)) in
  d ← calling fail store;
  item ← lift fail (ok_or (NotFound "gallery item") (gallery_item d g item_id));
  mret (view_answer item user_id, g).

(** The publication both routes to the content begin with. *)
Definition public_content (item_id : string) (g : Gallery) : Handler Response GalleryContent :=
  _ ← calling fail (require_browser ev headers None);
  d ← calling fail store;
  content ← lift fail (ok_or (NotFound "gallery item") (gallery_content d g item_id));
  exit_if (negb (safe_inline_media_type (gk_content_type content))) (fail (NotFound "gallery item")) ;;
  mret content.

Definition item_content (item_id : string) (g : Gallery) : Handler Response (GalleryAnswer * Gallery) :=
  content ← public_content item_id g;
  size_bytes ← lift fail (u64_try_from (gk_size_bytes content));
  c ← lift id (stream_object_content fetch range rid (gk_object_key content) (gk_artifact_name content) (gk_content_type content)
                 size_bytes (gk_sha256 content));
  mret (ContentAnswer c, g).

Definition item_download (item_id : string) (g : Gallery) : Handler Response (GalleryAnswer * Gallery) :=
  content ← public_content item_id g;
  download ← lift (λ e, fail (ObjectStoreError e)) (presign_get (gk_object_key content));
  mret (DownloadAnswer download, g).
End handlers.

(** The requests on the gallery. *)
Inductive GalleryRequest :=
| PublishItem (artifact_id : string)
| UnpublishItem (item_id : string)
| ListItems (query : CursorQuery)
| GetItem (item_id : string)
| ItemContent (item_id : string)
| ItemDownload (item_id : string).

Section requests.
Context `{!Libraries, !JsonbArray, !TextOrder, !GalleryTexts, !ObjectStore}.
Context (manifests : string → string → string → option string) (fetch : string → option string → Res string ObjectBody).

Definition handle_gallery (ev : Env) (headers : Headers) (range : option (option string)) (r : GalleryRequest) (g : Gallery)
    : Handler Response (GalleryAnswer * Gallery) :=
  match r with
  | PublishItem a => publish manifests ev headers a g
  | UnpublishItem i => unpublish ev headers i g
  | ListItems q => list_items ev headers q g
  | GetItem i => get_item ev headers i g
  | ItemContent i => item_content fetch ev headers range i g
  | ItemDownload i => item_download ev headers i g
  end.
End requests.

(** ** What is shown of the parameters *)

(** Plain values: no objects, short texts, short lists, at any depth. *)
#[warnings="-register-all"]
Inductive plain_value : Json → Prop :=
| plain_null : plain_value JNull
| plain_bool b : plain_value (JBool b)
| plain_number n : plain_value (JNumber n)
| plain_string s : chars_count s ≤ MAX_PUBLIC_STRING_CHARS → plain_value (JString s)
| plain_array l : length l ≤ 64 → Forall plain_value l → plain_value (JArray l).

Lemma safe_value_plain v v' : safe_parameter_value v = Some v' → v' = v ∧ plain_value v.
Proof.
  revert v'. induction v as [|b|n|s|l IH|m _] using json_nested_ind; intros v' Hv; simpl in Hv; simplify_eq;
    try (split; [done|constructor]; fail); try done.
  - destruct (Nat.leb_spec (chars_count s) MAX_PUBLIC_STRING_CHARS); [|done]. simplify_eq. split; [done|by constructor].
  - destruct (Nat.leb_spec (length l) 64) as [Hlen|]; [|done]. apply fmap_Some in Hv as (l' & Hl & ->).
    assert (Hall : l' = l ∧ Forall plain_value l).
    { clear Hlen. revert l' Hl. induction IH as [|x l Hx _ IHl]; intros l' Hl; [by simplify_eq|].
      apply bind_Some in Hl as (y & Hy & Hl). apply bind_Some in Hl as (ys & Hys & [= <-]).
      destruct (Hx _ Hy) as [-> Hp]. destruct (IHl _ Hys) as [-> Hps]. split; [done|by constructor]. }
    destruct Hall as [-> Hp]. split; [done|by constructor].
Qed.

(** Keys in strictly ascending order, as [Map] keeps them. *)
Definition key_lt (a b : string * Json) : Prop := String.leb a.1 b.1 = true ∧ a.1 ≠ b.1.
Definition keys_sorted (m : list (string * Json)) : Prop := StronglySorted key_lt m.

Lemma obj_insert_elem k v m x : x ∈ obj_insert k v m → x = (k, v) ∨ x ∈ m.
Proof.
  induction m as [|[k1 v1] m IH]; simpl; [by intros ->%list_elem_of_singleton; left|].
  destruct (String.eqb k k1); [set_solver|]. destruct (String.leb k k1); set_solver.
Qed.

Lemma obj_insert_sorted k v m : keys_sorted m → keys_sorted (obj_insert k v m).
Proof.
  intros Hm. induction Hm as [|[k1 v1] m Hm IH Hall]; simpl; [by repeat constructor|].
  destruct (String.eqb_spec k k1) as [->|Hne]; [by constructor|]. rewrite Forall_forall in Hall.
  destruct (String.leb k k1) eqn:Hle.
  - constructor; [by constructor; [|rewrite Forall_forall]|]. rewrite Forall_forall. intros x [->|Hx]%elem_of_cons; [done|].
    destruct (Hall x Hx) as [Hl Hn]. simpl in *. split.
    + apply Is_true_true. change (String.le k x.1). trans k1; by apply Is_true_true.
    + simpl. intros ->. apply Hn. by apply String.leb_antisym.
  - constructor; [done|]. rewrite Forall_forall. intros x [->|Hx]%obj_insert_elem; [|by apply Hall].
    split; [|by apply not_eq_sym]. simpl. destruct (String.leb_total k1 k) as [?|?]; [done|congruence].
Qed.

(** Inserting what is there changes nothing. *)
Lemma obj_insert_same k v m : keys_sorted m → obj_get k m = Some v → obj_insert k v m = m.
Proof.
  intros Hm. induction Hm as [|[k1 v1] m Hm IH Hall]; simpl; [done|].
  destruct (String.eqb_spec k k1) as [->|Hne]; [by intros [= ->]|]. intros Hg. rewrite Forall_forall in Hall.
  destruct (String.leb k k1) eqn:Hle; [|by rewrite IH]. exfalso.
  assert (Hin : ∃ x, x ∈ m ∧ x.1 = k).
  { clear -Hg. induction m as [|[k2 v2] m IH]; [done|]. simpl in Hg. destruct (String.eqb_spec k k2) as [->|].
    - exists (k2, v2). split; [apply list_elem_of_here|done].
    - destruct (IH Hg) as (x & ? & ?). exists x. split; [by apply list_elem_of_further|done]. }
  destruct Hin as (x & Hx & <-). destruct (Hall x Hx) as [Hl Hn]. apply Hn. by apply String.leb_antisym.
Qed.

Lemma obj_get_elem k m : obj_get k m = None → ∀ x, x ∈ m → x.1 ≠ k.
Proof.
  induction m as [|[k1 v1] m IH]; [by intros _ x Hx%not_elem_of_nil|]. simpl. destruct (String.eqb_spec k k1); [done|].
  intros Hg x [->|Hx]%elem_of_cons; [by apply not_eq_sym|by apply IH].
Qed.
Lemma obj_get_in k v m : obj_get k m = Some v → (k, v) ∈ m.
Proof.
  induction m as [|[k1 v1] m IH]; [done|]. simpl. destruct (String.eqb_spec k k1) as [->|]; [intros [= ->]; apply list_elem_of_here|].
  intros Hg. apply list_elem_of_further. by apply IH.
Qed.

Lemma obj_remove_insert k v m : obj_get k m = None → obj_remove k (obj_insert k v m) = m.
Proof.
  intros Hg. pose proof (obj_get_elem _ _ Hg) as Hne. clear Hg. unfold obj_remove. induction m as [|[k1 v1] m IH]; simpl.
  - rewrite filter_cons_False by (simpl; naive_solver). done.
  - assert (H1 : k1 ≠ k) by (apply (Hne (k1, v1)), list_elem_of_here).
    assert (Hm : filter (λ kv : string * Json, kv.1 ≠ k) m = m).
    { clear IH. assert (Hne' : ∀ x, x ∈ m → x.1 ≠ k) by (intros x Hx; by apply Hne, list_elem_of_further). clear Hne.
      induction m as [|x m IH]; [done|]. rewrite filter_cons_True by (apply Hne', list_elem_of_here). f_equal. apply IH.
      intros y Hy. by apply Hne', list_elem_of_further. }
    destruct (String.eqb_spec k k1) as [->|_]; [done|]. destruct (String.leb k k1).
    + rewrite filter_cons_False by (simpl; naive_solver). rewrite filter_cons_True by done. by rewrite Hm.
    + rewrite filter_cons_True by done. f_equal. apply IH. intros x Hx. by apply Hne, list_elem_of_further.
Qed.

Lemma obj_insert_length k v m : length (obj_insert k v m) ≤ S (length m).
Proof.
  induction m as [|[k1 v1] m IH]; simpl; [done|]. destruct (String.eqb k k1); [simpl; lia|]. destruct (String.leb k k1); simpl; lia.
Qed.

Section shown.
Context `{!Libraries, !GalleryTexts}.

(** A member shown: named by an allowed input, with its plain value. *)
Definition member_shown (parameters : list (string * Json)) (inputs : list WorkflowInput) (kv : string * Json) : Prop :=
  ∃ input, input ∈ inputs ∧ wi_name input = kv.1 ∧ obj_get kv.1 parameters = Some kv.2 ∧ plain_value kv.2.
Definition fits (public : list (string * Json)) : Prop := public = [] ∨ too_large public = false.

Record shown_ok (parameters : list (string * Json)) (inputs : list WorkflowInput) (public : list (string * Json)) : Prop := {
  sh_members : ∀ kv, kv ∈ public → member_shown parameters inputs kv;
  sh_sorted : keys_sorted public;
  sh_fits : fits public;
}.

Lemma public_parameters_ok parameters all inputs public :
  (∀ i, i ∈ inputs → i ∈ all) → shown_ok parameters all public →
  shown_ok parameters all (public_parameters parameters inputs public)
  ∧ length (public_parameters parameters inputs public) ≤ length public + length inputs.
Proof.
  revert public. induction inputs as [|input inputs IH]; intros public Hin Hok; simpl; [split; [done|lia]|].
  assert (Hin' : ∀ i, i ∈ inputs → i ∈ all) by (intros i Hi; by apply Hin, list_elem_of_further).
  destruct (obj_get (wi_name input) parameters ≫= safe_parameter_value) as [v|] eqn:Hv.
  2:{ destruct (IH public Hin' Hok) as [? ?]. split; [done|lia]. }
  apply bind_Some in Hv as (v0 & Hg & Hv). apply safe_value_plain in Hv as [-> Hp].
  destruct (obj_get (wi_name input) public) as [v1|] eqn:Hold.
  - assert (v1 = v0) as ->.
    { destruct (sh_members _ _ _ Hok _ (obj_get_in _ _ _ Hold)) as (i & _ & _ & Hg' & _). simpl in Hg'. congruence. }
    rewrite obj_insert_same by (done || apply Hok).
    destruct (too_large public) eqn:Hl.
    + destruct (sh_fits _ _ _ Hok) as [->|?]; [done|congruence].
    + destruct (IH public Hin' Hok) as [? ?]. split; [done|lia].
  - destruct (too_large (obj_insert (wi_name input) v0 public)) eqn:Hl.
    + rewrite obj_remove_insert by done. split; [done|lia].
    + destruct (IH (obj_insert (wi_name input) v0 public) Hin') as [? Hlen].
      { split; [|by apply obj_insert_sorted, Hok|by right].
        intros kv [->|Hkv]%obj_insert_elem; [|by apply Hok]. exists input. split_and!; try done. apply Hin, list_elem_of_here. }
      split; [done|]. pose proof (obj_insert_length (wi_name input) v0 public). lia.
Qed.

(** What the gallery shows of a job's parameters is an object of at most 32
    members and 16 KiB, each of them a parameter the workflow's manifest declares,
    under one of the familiar names, with the value the job had, which holds no
    object, no text longer than 8192 characters and no list longer than 64, at any
    depth; without a manifest it shows nothing. *)
Theorem published_parameters_plain parameters_json manifest_json :
  ∃ public, sanitize_gallery_parameters parameters_json manifest_json = JObject public
    ∧ length public ≤ 32
    ∧ (public ≠ [] → ∀ t, json_to_string (JObject public) = Ok t → str_len t ≤ 16 * 1024)
    ∧ ∀ k v, (k, v) ∈ public → ∃ manifest input, manifest_json ≫= manifest_from_str = Some manifest
        ∧ input ∈ wm_inputs manifest ∧ wi_kind input = ParameterInput ∧ wi_name input = k ∧ gallery_parameter_is_safe k = true
        ∧ (parameters_from_str parameters_json ≫= json_get k) = Some v ∧ plain_value v.
Proof.
  unfold sanitize_gallery_parameters. destruct (manifest_json ≫= manifest_from_str) as [manifest|].
  2:{ exists []. split_and!; try done; [simpl; lia|]. by intros k v Hin%not_elem_of_nil. }
  set (parameters := default [] _). set (inputs := take _ _).
  assert (Hnil : shown_ok parameters inputs []) by (split; [by intros kv Hkv%not_elem_of_nil|constructor|by left]).
  destruct (public_parameters_ok parameters inputs inputs [] (λ i Hi, Hi) Hnil) as [Hok Hlen].
  exists (public_parameters parameters inputs []). split; [done|]. split; [|split].
  - etrans; [exact Hlen|]. simpl. unfold inputs. rewrite length_take. unfold MAX_PUBLIC_PARAMETERS. lia.
  - intros Hne t Ht. destruct (sh_fits _ _ _ Hok) as [?|Hf]; [done|]. unfold too_large in Hf. rewrite Ht in Hf.
    by apply Nat.ltb_ge in Hf.
  - intros k v Hin. destruct (sh_members _ _ _ Hok _ Hin) as (input & Hi & Hn & Hg & Hp). simpl in *.
    exists manifest, input. unfold inputs in Hi. apply elem_of_take in Hi as (n & Hi & _). apply list_elem_of_lookup_2 in Hi.
    apply list_elem_of_filter in Hi as [Hs Hi]. unfold is_parameter in Hs. destruct (wi_kind input); [|done]. rewrite Hn in Hs.
    split_and!; try done. unfold parameters in Hg. destruct (parameters_from_str parameters_json) as [[| | | | |m]|]; try done.
Qed.
End shown.

(** ** Who publishes, and what is read *)

Lemma published_as_None g o a : published_as g o a = None → ∀ id row, g !! id = Some row → ¬ (gl_organization_id row = o ∧ gl_artifact_id row = a).
Proof.
  unfold published_as. intros Hn id row Hg Hk.
  destruct (filter _ (map_to_list g)) as [|kv l] eqn:Hf; [|done].
  assert (Hin : (id, row) ∈ ([] : list (string * GalleryRow))); [|by apply not_elem_of_nil in Hin].
  rewrite <- Hf. apply list_elem_of_filter. split; [done|]. by apply elem_of_map_to_list.
Qed.

Section inserted.
Context `{!JsonbArray, !TextOrder}.

(** Publishing adds the one row of a publishable artifact that had none. *)
Lemma publish_gallery_item_moves d g i x g' : publish_gallery_item d g i = (x, g') →
  g' = g ∨ ∃ a job_id j, publishable d (pg_organization_id i) (pg_artifact_id i) (pg_owner_user_id i) = Some (a, job_id, j)
    ∧ published_as g (pg_organization_id i) (pg_artifact_id i) = None ∧ g !! pg_id i = None
    ∧ g' = <[pg_id i := publication i job_id j]> g.
Proof.
  unfold publish_gallery_item. destruct (publishable _ _ _ _) as [[[a jid] j]|] eqn:Hp; [|intros [= _ <-]; by left]. cbn [ok_or mbind res_bind].
  destruct (published_as _ _ _) eqn:Hn; [intros [= _ <-]; by left|]. cbn [reject_if mbind res_bind].
  destruct (bool_decide (is_Some (g !! pg_id i))) eqn:Hid; [cbn; intros [= _ <-]; by left|]. apply bool_decide_eq_false in Hid. cbn [reject_if mbind res_bind].
  destruct (negb _); [cbn; intros [= _ <-]; by left|]. intros [= _ <-]. right. exists a, jid, j. split_and!; try done. by apply eq_None_not_Some.
Qed.
End inserted.

Section control.
Context `{!Libraries, !JsonbArray, !TextOrder, !GalleryTexts, !ObjectStore}.
Context (manifests : string → string → string → option string) (fetch : string → option string → Res string ObjectBody).
Context (ev : Env) (headers : Headers).
#[local] Abbreviation user c := (pc_user_id (ac_principal c)).

(** A publication appears by the user whose completed job made the artifact, with
    the parameters that may be shown, and where there was none. *)
Definition item_appears (s : Site) (d : Directory) (g g' : Gallery) : Prop :=
  ∃ c id row a j manifest, caller ev headers s None c ∧ allows (ac_principal c) ArtifactsWrite = true
    ∧ user c = Some (gl_owner_user_id row) ∧ gl_organization_id row = pc_organization_id (ac_principal c)
    ∧ publishable d (gl_organization_id row) (gl_artifact_id row) (gl_owner_user_id row) = Some (a, gl_job_id row, j)
    ∧ safe_inline_media_type (sa_content_type a) = true
    ∧ gl_parameters_json row
      = match json_to_string (sanitize_gallery_parameters (sj_parameters_json j) manifest) with Ok t => t | Err _ => "{}" end
    ∧ (∀ id' row', g !! id' = Some row' →
         ¬ (gl_organization_id row' = gl_organization_id row ∧ gl_artifact_id row' = gl_artifact_id row))
    ∧ g !! id = None ∧ g' = <[id := row]> g.
(** It disappears by its owner. *)
Definition item_disappears (s : Site) (g g' : Gallery) : Prop :=
  ∃ c id row, caller ev headers s None c ∧ g !! id = Some row ∧ user c = Some (gl_owner_user_id row) ∧ g' = delete id g.
Definition gallery_moves (s : Site) (d : Directory) (g g' : Gallery) : Prop :=
  g' = g ∨ item_appears s d g g' ∨ item_disappears s g g'.

(** The object of a publication: a ready artifact of a type shown inline. *)
Definition is_public (d : Directory) (g : Gallery) (key : string) : Prop :=
  ∃ id content, gallery_content d g id = Some content ∧ gk_object_key content = key
    ∧ safe_inline_media_type (gk_content_type content) = true.
Definition reveals_public (d : Directory) (g : Gallery) (answer : GalleryAnswer) : Prop :=
  match answer with
  | ContentAnswer c => ∀ key r, ct_content c = Some (key, r) → is_public d g key
  | DownloadAnswer p => ∃ key, is_public d g key ∧ presign_get key = Ok p
  | _ => True
  end.

(** The tables of jobs and artifacts and the members stay. *)
Definition rows_kept (d : Directory) (s' : Site) : Prop :=
  ∃ d', si_store s' = Some d' ∧ dr_db d' = dr_db d ∧ dr_memberships d' = dr_memberships d.
Definition gallery_answered (s : Site) (d : Directory) (g : Gallery) (x : GalleryAnswer * Gallery) (s' : Site) : Prop :=
  gallery_moves s d g x.2 ∧ reveals_public d g x.1 ∧ rows_kept d s'.

Lemma rows_kept_keys d keys s' : si_store s' = Some (set_api_keys d keys) → rows_kept d s'.
Proof. intros Hs. by exists (set_api_keys d keys). Qed.
Lemma rows_kept_touched s s' d : si_store s = Some d → touched s s' → rows_kept d s'.
Proof. intros Hd Ht. destruct (touched_store _ _ _ Ht Hd) as [keys ->]. by apply (rows_kept_keys d keys). Qed.

Ltac settled := first [by eapply rows_kept_keys | by eexists | split_and!; [by left|done|by eapply rows_kept_keys]].

Lemma publish_controlled a g s d :
  si_store s = Some d → wp (publish manifests ev headers a g) (gallery_answered s d g) (rows_kept d) s.
Proof.
  intros Hd. pose proof (λ s', rows_kept_touched s s' d Hd) as Ht. unfold publish. wp_begin. assert (d0 = d) as -> by congruence.
  wp_step. wp_step; [settled|]. wp_step. wp_step; [settled|]. wp_step. wp_step. wp_step. wp_step. wp_step; [settled|].
  wp_step. wp_step; [settled|].
  destruct (publish_gallery_item _ _ _) as [x g'] eqn:Hx.
  assert (Hg : gallery_moves s d g g').
  { apply publish_gallery_item_moves in Hx as [->|(a2 & jid & j & Hp & Hn & Hid & ->)]; [by left|]. right. left.
    simpl in Hp, Hn, Hid. apply ok_or_Ok in H9. apply bind_Some in H9 as ([[a3 jid'] j'] & Hc & [= <-]). simpl in *.
    change (publishable (set_api_keys d keys)) with (publishable d) in *. assert (a3 = a2 ∧ jid' = jid ∧ j' = j) as (-> & -> & ->) by (split_and!; congruence).
    apply negb_false_iff in H7. match goal with H : negb (safe_inline_media_type _) = false |- _ => apply negb_false_iff in H; rename H into Hmt end.
    apply ok_or_Ok in H8. exists c, (ev_uuid ev 1). eexists. exists a2, j, (o ← sj_worker_organization_id j; manifests o (sj_workflow_id j) (sj_workflow_version j)).
    split_and!; [done|done|..|reflexivity]; try done. by apply published_as_None. }
  destruct x as [item|e]; [|wp_step; split_and!; [done|done|by eapply rows_kept_keys]].
  wp_step. wp_step. wp_step. split_and!; [done| |settled].
  unfold view_answer. by destruct (gallery_view _ _).
Qed.

Lemma unpublish_controlled i g s d :
  si_store s = Some d → wp (unpublish ev headers i g) (gallery_answered s d g) (rows_kept d) s.
Proof.
  intros Hd. pose proof (λ s', rows_kept_touched s s' d Hd) as Ht. unfold unpublish. wp_begin. assert (d0 = d) as -> by congruence.
  wp_step. wp_step; [settled|]. wp_step. wp_step. wp_step. apply ok_or_Ok in H7.
  destruct (unpublish_gallery_item _ _ _) as [x g'] eqn:Hx.
  assert (Hg : gallery_moves s d g g').
  { unfold unpublish_gallery_item in Hx. destruct (g !! i) as [row|] eqn:Hi; [|simplify_eq; by left].
    destruct (String.eqb_spec (gl_owner_user_id row) a) as [<-|]; simplify_eq; [|by left]. right. right. by exists c, i, row. }
  destruct x as [o|]; [|wp_step; split_and!; [done|done|by eapply rows_kept_keys]].
  wp_step. wp_step. wp_step. split_and!; [done..|settled].
Qed.

Lemma list_items_controlled q g s d :
  si_store s = Some d → wp (list_items ev headers q g) (gallery_answered s d g) (rows_kept d) s.
Proof.
  intros Hd. pose proof (λ s', rows_kept_touched s s' d Hd) as Ht. unfold list_items. wp_begin. assert (d0 = d) as -> by congruence.
  repeat (wp_step; try settled).
Qed.

Lemma get_item_controlled i g s d :
  si_store s = Some d → wp (get_item ev headers i g) (gallery_answered s d g) (rows_kept d) s.
Proof.
  intros Hd. pose proof (λ s', rows_kept_touched s s' d Hd) as Ht. unfold get_item. wp_begin. assert (d0 = d) as -> by congruence.
  repeat (wp_step; try settled). split_and!; [by left| |by eapply rows_kept_keys]. unfold view_answer. by destruct (gallery_view _ _).
Qed.

Lemma public_content_public i g s d : si_store s = Some d →
  wp (public_content ev headers i g)
    (λ content s', is_public d g (gk_object_key content) ∧ rows_kept d s') (rows_kept d) s.
Proof.
  intros Hd. pose proof (λ s', rows_kept_touched s s' d Hd) as Ht. unfold public_content. wp_begin. assert (d0 = d) as -> by congruence.
  repeat (wp_step; try settled). split; [|by eapply rows_kept_keys]. apply ok_or_Ok in H7. exists i, a.
  split_and!; try done. by apply negb_false_iff.
Qed.

Lemma item_content_controlled range i g s d :
  si_store s = Some d → wp (item_content fetch ev headers range i g) (gallery_answered s d g) (rows_kept d) s.
Proof.
  intros Hd. unfold item_content. wp_step. eapply wp_mono; [by apply public_content_public| |done]. intros content s' [Hpub Hk]. simpl.
  wp_step. wp_step; [done|]. wp_step. wp_step; [done|]. wp_step. split_and!; [by left| |done]. simpl. intros key r Hc.
  unfold stream_object_content in H5. destruct (requested_range _ _) as [rg|]; [|by simplify_eq].
  apply bind_Ok in H5 as (o & _ & Ha). destruct (safe_inline_media_type _), rg; injection Ha as <-; cbn [ct_content] in Hc; by injection Hc as <- _.
Qed.

Lemma item_download_controlled i g s d :
  si_store s = Some d → wp (item_download ev headers i g) (gallery_answered s d g) (rows_kept d) s.
Proof.
  intros Hd. unfold item_download. wp_step. eapply wp_mono; [by apply public_content_public| |done]. intros content s' [Hpub Hk]. simpl.
  wp_step. wp_step; [done|]. wp_step. split_and!; [by left| |done]. by eexists.
Qed.

End control.

(** ** An output published *)

Section examples.
#[local] Existing Instance plain_libraries.
#[local] Existing Instance byte_order.
#[local] Existing Instance ArtifactExample.jsonb.
#[local] Existing Instance ArtifactExample.objects.

#[local] Instance gallery_texts : GalleryTexts := {| parameters_from_str _ := None; manifest_from_str _ := None |}.

(** Ann's job has made a picture. *)
Definition picture : StoredArtifact :=
  mkStoredArtifact "org" "a1" (Some "j1") "out.png" "image/png" 10 ArtifactExample.sha "ready" "organizations/org/a1" 900 900.
Definition picture_job : StoredJob :=
  mkStoredJob "org" "j1" "ann" "browser_session" (Some "ann") "w" "1" "{}" "[]" "a1," None None None 1 "completed" None None None 0 800 900.
Definition picture_rows : Directory :=
  set_db two_browsers
    (set_jobs (set_artifacts (dr_db two_browsers) {[ ("org", "a1") := mkArtifactTableRow picture None ]})
       {[ ("org", "j1") := mkJobTableRow picture_job None None None ]}).
Definition picture_site : Site := with_store ann_site (Some picture_rows).
Definition gallery_request (r : GalleryRequest) (token : string) (t : Z) : Gallery → Handler Response (GalleryAnswer * Gallery) :=
  handle_gallery (λ _ _ _, None) (λ _ _, Err "no object") (day t 0) (bearer token) None r.
Definition shown := gallery_request (PublishItem "a1") "nss_ann" 1000 ∅ picture_site.
Definition shown_rows : Gallery := match shown.1 with Next (_, g) => g | _ => ∅ end.


(** Bob sees it and cannot take it back; Ann can. *)
Definition shown_id : string := match shown.1 with Next (ItemAnswer i, _) => gw_id i | _ => "" end.
Definition took (token : string) : nat :=
  match (gallery_request (UnpublishItem shown_id) token 1100 shown_rows shown.2).1 with Next (_, g) => size g | _ => 2 end.
Example only_the_owner_unpublishes :
  took "nss_bob" = 1 ∧ took "nss_ann" = 0
  ∧ match (gallery_request (GetItem shown_id) "nss_bob" 1100 shown_rows shown.2).1 with
    | Next (ItemAnswer i, _) => gw_can_unpublish i = false ∧ gw_media_kind i = "image"
    | _ => False
    end.
Proof. vm_compute. split_and!; reflexivity. Qed.
End examples.
