(* ===== verification/JobApi.v ===== *)
(** The routes for artifacts and jobs ([product_api/jobs_artifacts.rs],
    [artifact_content] of [product_api/media.rs], the reading functions of
    [hub/api.rs] and the job list of [hub/jobs.rs]).

    A handler authorizes its caller and then runs an operation of the Hub on what
    the site shares with it; a command to a worker is answered by a parameter, as
    for batches.  The stream of a job's events is a function of what its reads of
    the job found, one read a second.

    Main results: nothing of the jobs and artifacts is touched or told without the
    permission of the request, and nothing of another organization is written; an
    artifact is served only when it is ready and its job completed; the stream
    gives every event of the job once, in order, and ends. *)

From S2P Require Import Prelude Text Json Messages Core HubTypes Principal Helpers TtlCache HubState Sessions Store HubJobs Artifacts Batches.
From S2P Require Import Dispatch Submission Connection System RateLimit Accounts Secrets Transfer Web Auth Paging Members Devices BatchSubmit Media.
From Stdlib Require Import ZArith Lia.

#[local] Abbreviation Headers := (gmap string string).

(** ** Reading artifacts and jobs *)

Section reading.
Context `{!ObjectStore}.

(** The state of a job: resident, cached, or stored. *)
Definition job_state_for (h : Hub) (tick : Z) (organization_id job_id : string) : Res HubError JobState * Hub :=
  let resident := j ← hd_jobs (hb_data h) !! job_id;
                  if String.eqb (hj_organization_id j) organization_id then Some (jv_state (hj_view j)) else None in
  match resident with
  | Some state => (Ok state, h)
  | None =>
      let '(cached, cache) := cached_job tick (hb_read_cache h) organization_id job_id in
      let h := with_read_cache h cache in
      match cached with
      | Some view => (Ok (jv_state view), h)
      | None =>
          (stored ← ok_or (NotFound "job") (hb_store h ≫= λ db, job db organization_id job_id);
           parse_job_state (sj_state stored), h)
      end
  end.

Definition readable_artifact_for_principal (h : Hub) (tick : Z) (p : Principal) (artifact_id : string)
    : Res HubError ArtifactRecord * Hub :=
  let o := pc_organization_id p in
  match artifact_record h tick o artifact_id with
  | (Err error, h) => (Err error, h)
  | (Ok a, h) =>
      if negb (bool_decide (av_state (at_view a) = Ready)) then (Err (Conflict "artifact is not ready"), h)
      else match av_job_id (at_view a) with
           | None => (Ok a, h)
           | Some job_id =>
               match job_state_for h tick o job_id with
               | (Err error, h) => (Err error, h)
               | (Ok state, h) =>
                   if bool_decide (state = Completed) then (Ok a, h) else (Err (Conflict "output is not available yet"), h)
               end
           end
  end.

Record DownloadResponse := mkDownloadResponse {
  dl_artifact : ArtifactView;
  dl_download : PresignedRequest;
}.
Definition download_for_principal (h : Hub) (tick : Z) (p : Principal) (artifact_id : string) : Res HubError DownloadResponse * Hub :=
  match readable_artifact_for_principal h tick p artifact_id with
  | (Err error, h) => (Err error, h)
  | (Ok a, h) =>
      (match presign_get (at_object_key a) with
       | Ok download => Ok (mkDownloadResponse (at_view a) download)
       | Err error => Err (ObjectStoreError error)
       end, h)
  end.
End reading.

(** ** The list of jobs *)

Record JobSummary := mkJobSummary {
  js_id : string;
  js_workflow_id : string;
  js_workflow_version : string;
  js_parameters : Json;
  js_input_artifact_ids : list string;
  js_output_artifact_ids : list string;
  js_worker_id : string;
  js_session_id : string;
  js_state : JobState;
  js_progress : option spec_float;
  js_prompt_id : option string;
  js_error : option string;
  js_created_at_unix_ms : Z;
  js_updated_at_unix_ms : Z;
}.
(** [From<&JobView>]. *)
Definition summary_of_view (v : JobView) : JobSummary :=
  mkJobSummary (jv_id v) (jv_workflow_id v) (jv_workflow_version v) (jv_parameters v) (jv_input_artifact_ids v)
    (jv_output_artifact_ids v) (jv_worker_id v) (jv_session_id v) (jv_state v) (jv_progress v) (jv_prompt_id v) (jv_error v)
    (jv_created_at_unix_ms v) (jv_updated_at_unix_ms v).

Definition summary_newer (a b : JobSummary) : Prop :=
  (js_created_at_unix_ms b < js_created_at_unix_ms a)%Z
  ∨ js_created_at_unix_ms a = js_created_at_unix_ms b ∧ String.le (js_id b) (js_id a).
#[export] Instance summary_newer_dec a b : base.Decision (summary_newer a b).
Proof. unfold summary_newer. apply _. Defined.

Section listing.
Context `{!Libraries, !TextOrder}.
Context (from_str_strings : string → Res string (list string)) (from_str_json : string → Res string Json).

Definition ok_or_default {A} (d : A) (r : Res string A) : A := match r with Ok a => a | Err _ => d end.

(** [From<StoredJob>]: what cannot be read is left empty. *)
Definition summary_of_stored (j : StoredJob) : JobSummary :=
  mkJobSummary (sj_id j) (sj_workflow_id j) (sj_workflow_version j) (ok_or_default JNull (from_str_json (sj_parameters_json j)))
    (ok_or_default [] (from_str_strings (sj_input_artifact_ids_json j)))
    (ok_or_default [] (from_str_strings (sj_output_artifact_ids_json j)))
    (default "" (sj_worker_id j)) (default "" (sj_session_id j))
    (match parse_job_state (sj_state j) with Ok s => s | Err _ => Queued end) (sj_progress j) (sj_prompt_id j) (sj_error j)
    (sj_created_at j) (sj_updated_at j).

Definition jobs_from_cache (h : Hub) (p : Principal) : list JobSummary :=
  merge_sort summary_newer
    ((λ kv, summary_of_view (hj_view kv.2))
       <$> filter (λ kv, hj_organization_id kv.2 = pc_organization_id p) (map_to_list (hd_jobs (hb_data h)))).

Definition jobs_page_for_principal (h : Hub) (p : Principal) (limit : option Z) (cursor : option string)
    : Res HubError (list JobSummary * option string) :=
  let limit := jobs_page_limit limit in
  match hb_store h with
  | None => Ok (take (Z.to_nat limit) (jobs_from_cache h p), None)
  | Some db =>
      after ← read_cursor decode_job_cursor cursor;
      let rows := jobs_page db (pc_organization_id p) (limit + 1) after in
      let has_more := (Z.to_nat limit <? length rows)%nat in
      let rows := if has_more then removelast rows else rows in
      let next_cursor := if has_more then (λ j, encode_job_cursor (job_created j)) <$> last rows else None in
      Ok (summary_of_stored <$> rows, next_cursor)
  end.
End listing.

(** ** The stream of a job's events *)

(** An item of the stream: the job as it was read, with the event it gives and
    its identifier. *)
Inductive StreamItem :=
| JobItem (view : JobView) (event : option JobEventView)
| ErrorItem (message : string).

(** One turn of the loop: what a read of the job makes of the position in its
    events, or nothing and a second's sleep. *)
Definition stream_turn (read : Res HubError JobView) (last_sequence : Z) : option (StreamItem * (Z * bool)) :=
  match read with
  | Ok view =>
      match List.find (λ e, (last_sequence <? ev_sequence e)%Z) (jv_events view) with
      | Some event =>
          let is_last_event := match last (jv_events view) with
                               | Some e => (ev_sequence e =? ev_sequence event)%Z
                               | None => false
                               end in
          Some (JobItem view (Some event), (ev_sequence event, is_terminal (jv_state view) && is_last_event))
      | None => if is_terminal (jv_state view) then Some (JobItem view None, (last_sequence, true)) else None
      end
  | Err error => Some (ErrorItem (hub_error_text error), (last_sequence, true))
  end.

(** [stream::unfold] over what successive reads found: the items, and whether the
    stream has ended. *)
Fixpoint stream_job_events (reads : list (Res HubError JobView)) (last_sequence : Z) (terminal_sent : bool)
    : list StreamItem * bool :=
  if terminal_sent then ([], true) else
  match reads with
  | [] => ([], false)
  | read :: reads =>
      match stream_turn read last_sequence with
      | Some (item, (last_sequence, done)) =>
          let '(items, ended) := stream_job_events reads last_sequence done in (item :: items, ended)
      | None => stream_job_events reads last_sequence false
      end
  end.

(** ** Handlers *)

Record JobsQuery := mkJobsQuery {
  jq_limit : option Z;
  jq_cursor : option string;
}.

Inductive JobAnswer :=
| UploadCreated (response : CreateUploadResponse)
| UploadCompleted (artifact : ArtifactView)
| Download (response : DownloadResponse)
| Content (response : ContentResponse)
| Submitted (job : JobView)
| JobsPage (items : list JobSummary) (next_cursor : option string)
| JobRead (job : JobView)
| JobCancelled (job : JobView)
| EventStream (items : list StreamItem) (ended : bool).

Section handlers.
Context `{!Libraries, !TextOrder, !DeviceTexts, !ObjectStore}.
Context (from_str_strings : string → Res string (list string)) (from_str_json : string → Res string Json)
        (scan : gmap (string * string * Z * Z) StoredJobEvent → list StoredJobEvent).
(** [serde_json::to_string] of parameters and of ids, and the digest of a request. *)
Context (to_string_json : Json → string) (to_string_ids : list string → string) (request_hash : SubmitJobRequest → string).
Context (max_artifact_bytes : Z).
(** What becomes of a command to a worker, of a row's insertion, and of reading an
    object. *)
Context (outcome : string → CommandOutcome) (fault : option StoreError)
        (fetch : string → option string → Res string ObjectBody).
Context (limits : Limits) (ev : Env) (headers : Headers).
#[local] Abbreviation rid := (with_id ev headers).
#[local] Abbreviation fail := (product_error rid).

(** An operation of the Hub, on what the site shares with it. *)
Definition on_hub {A} (f : Hub → Res HubError A * Hub) : Handler HubError A := λ s,
  let '(answer, h) := f (hub_of s) in
  (match answer with Ok v => Next v | Err e => Exit e end, site_of s h).

Definition audit_request {X} (p : Principal) (action resource : string) (id : string) (metadata : Json) : Handler X unit :=
  audit (Some (pc_organization_id p)) (pc_user_id p) (auth_kind (pc_kind p)) rid action resource (Some id) "success" metadata
    (ev_uuid ev 2) (ev_now ev 2).

Definition create_artifact_upload (request : CreateUploadRequest) : Handler Response JobAnswer :=
  auth ← calling fail (authorize_current ev headers ArtifactsWrite);
  let p := ac_principal auth in
  response ← calling fail (on_hub (λ h, create_upload_for_principal max_artifact_bytes h (ev_now ev 1) (ev_uuid ev 1) fault
                                          (pc_organization_id p) request));
  let a := rs_artifact response in
  audit_request p "artifact.upload.create" "artifact" (av_id a) (JObject [("size_bytes", json_int (av_size_bytes a))]) ;;
  mret (UploadCreated response).

(** The object of an upload refused as not what was declared is deleted; the
    deletion's own failure is ignored. *)
Definition drop_object (o artifact_id : string) (before : Hub) (s : Site) : Site :=
  match resident_artifact before o artifact_id, resident_artifact (hub_of s) o artifact_id with
  | Some a, None =>
      match ev_delete ev (at_object_key a) with
      | None => with_objects s (si_objects s ∖ {[ at_object_key a ]})
      | Some _ => s
      end
  | _, _ => s
  end.
Definition complete_artifact_upload (artifact_id : string) (request : CompleteUploadRequest) : Handler Response JobAnswer :=
  auth ← calling fail (authorize_current ev headers ArtifactsWrite);
  let p := ac_principal auth in
  artifact ← calling fail (λ s,
    let '(flow, s') := on_hub (λ h, complete_upload_for_principal h (ev_now ev 1) fault (pc_organization_id p) artifact_id request) s in
    (flow, drop_object (pc_organization_id p) artifact_id (hub_of s) s'));
  audit_request p "artifact.upload.complete" "artifact" artifact_id (JObject [("size_bytes", json_int (av_size_bytes artifact))]) ;;
  mret (UploadCompleted artifact).

Definition download_artifact (artifact_id : string) : Handler Response JobAnswer :=
  auth ← calling fail (authorize_current ev headers ArtifactsRead);
  response ← calling fail (on_hub (λ h, download_for_principal h (ev_instant ev 1) (ac_principal auth) artifact_id));
  mret (Download response).

(** [headers.get(RANGE)], and whether it is text. *)
Context (range : option (option string)).

Definition artifact_content (artifact_id : string) : Handler Response JobAnswer :=
  auth ← calling fail (authorize_current ev headers ArtifactsRead);
  a ← calling fail (on_hub (λ h, readable_artifact_for_principal h (ev_instant ev 1) (ac_principal auth) artifact_id));
  let v := at_view a in
  content ← lift id (stream_object_content fetch range rid (at_object_key a) (av_name v) (av_content_type v) (av_size_bytes v)
                       (av_sha256 v));
  mret (Content content).

Definition idempotency_key : option string :=
  key ← trim <$> headers !! "idempotency-key"; if String.eqb key "" then None else Some key.

(** [submit_job_for_principal(..).await]. *)
Definition submit_operation (p : Principal) (request : SubmitJobRequest) (h : Hub) : Res HubError JobView * Hub :=
  match submit_job_for_principal from_str_strings from_str_json scan rules_from_str (ev_order ev) to_string_json to_string_ids
          request_hash h (ev_now ev 1) (ev_instant ev 1) (ev_uuid ev 1) (ev_uuid ev 3) p idempotency_key request with
  | Answered answer h => (answer, h)
  | SubmitAwaitingAck record session_id _ h =>
      submit_job_finish h (ev_now ev 1) record session_id (outcome (dj_command_id (hj_dispatch record)))
  end.

Definition submit_job (request : SubmitJobRequest) : Handler Response JobAnswer :=
  auth ← calling fail (authorize_current ev headers JobsWrite);
  let p := ac_principal auth in
  exit_if (negb (allows p DevicesUse)) (fail (Forbidden "missing permission devices:use")) ;;
  calling fail (limit_key ev 1 "jobs.submit.organization" (pc_organization_id p) (submit_per_org limits)) ;;
  job ← calling fail (on_hub (submit_operation p request));
  audit_request p "job.submit" "job" (jv_id job)
    (JObject [("workflow_id", JString (jv_workflow_id job)); ("workflow_version", JString (jv_workflow_version job));
              ("worker_id", JString (jv_worker_id job))]) ;;
  mret (Submitted job).

Definition list_jobs (query : JobsQuery) : Handler Response JobAnswer :=
  auth ← calling fail (authorize_current ev headers JobsReadOrganization);
  page ← calling fail (on_hub (λ h, (jobs_page_for_principal from_str_strings from_str_json h (ac_principal auth) (jq_limit query)
                                       (jq_cursor query), h)));
  mret (JobsPage page.1 page.2).

Definition get_job (job_id : string) : Handler Response JobAnswer :=
  auth ← calling fail (authorize_current ev headers JobsReadOrganization);
  job ← calling fail (on_hub (λ h, job_for_principal from_str_strings from_str_json scan h (ev_instant ev 1) (ac_principal auth) job_id));
  mret (JobRead job).

(** [cancel_job_for_principal(..).await]. *)
Definition cancel_operation (p : Principal) (job_id : string) (h : Hub) : Res HubError JobView * Hub :=
  match cancel_job_for_principal from_str_strings from_str_json scan h (ev_now ev 1) (ev_uuid ev 1) p job_id with
  | CancelDone answer h => (answer, h)
  | CancelAwaitingAck record session_id command_id _ h =>
      send_job_cancellation_finish h (ev_now ev 1) record session_id command_id (outcome command_id)
  end.

Definition cancel_job (job_id : string) : Handler Response JobAnswer :=
  auth ← calling fail (authorize_current ev headers JobsCancelOwn);
  let p := ac_principal auth in
  job ← calling fail (on_hub (cancel_operation p job_id));
  audit_request p "job.cancel" "job" job_id (JObject []) ;;
  mret (JobCancelled job).

(** The stream over [polls] reads of the job, between which the Hub stands still;
    a stream beside a Hub that moves is [stream_job_events] over what it reads. *)
Fixpoint read_job (polls : nat) (p : Principal) (job_id : string) (h : Hub) : list (Res HubError JobView) * Hub :=
  match polls with
  | O => ([], h)
  | S polls =>
      let '(view, h) := job_for_principal from_str_strings from_str_json scan h (ev_instant ev polls) p job_id in
      let '(views, h) := read_job polls p job_id h in (view :: views, h)
  end.
Definition stream_events (polls : nat) (job_id : string) (after : option Z) : Handler Response JobAnswer :=
  auth ← calling fail (authorize_current ev headers JobsReadOrganization);
  '(items, ended) ← calling fail (on_hub (λ h,
    let '(views, h) := read_job polls (ac_principal auth) job_id h in
    (Ok (stream_job_events views (default 0%Z after) false), h)));
  mret (EventStream items ended).

(** The requests on jobs and artifacts. *)
Inductive JobRequest :=
| CreateArtifactUpload (request : CreateUploadRequest)
| CompleteArtifactUpload (artifact_id : string) (request : CompleteUploadRequest)
| DownloadArtifact (artifact_id : string)
| ArtifactContent (artifact_id : string)
| SubmitJob (request : SubmitJobRequest)
| ListJobs (query : JobsQuery)
| GetJob (job_id : string)
| StreamJobEvents (polls : nat) (job_id : string) (after : option Z)
| CancelJob (job_id : string).

Definition handle_job (r : JobRequest) : Handler Response JobAnswer :=
  match r with
  | CreateArtifactUpload q => create_artifact_upload q
  | CompleteArtifactUpload i q => complete_artifact_upload i q
  | DownloadArtifact i => download_artifact i
  | ArtifactContent i => artifact_content i
  | SubmitJob q => submit_job q
  | ListJobs q => list_jobs q
  | GetJob i => get_job i
  | StreamJobEvents n i after => stream_events n i after
  | CancelJob i => cancel_job i
  end.
End handlers.

(** The permission each asks for. *)
Definition permission_of (r : JobRequest) : Permission :=
  match r with
  | CreateArtifactUpload _ | CompleteArtifactUpload _ _ => ArtifactsWrite
  | DownloadArtifact _ | ArtifactContent _ => ArtifactsRead
  | SubmitJob _ => JobsWrite
  | ListJobs _ | GetJob _ | StreamJobEvents _ _ _ => JobsReadOrganization
  | CancelJob _ => JobsCancelOwn
  end.

(** ** The stream gives every event once *)

Definition item_event (i : StreamItem) : option JobEventView :=
  match i with JobItem _ event => event | ErrorItem _ => None end.
Definition delivered (items : list StreamItem) : list JobEventView := omap item_event items.
Definition event_before (a b : JobEventView) : Prop := (ev_sequence a < ev_sequence b)%Z.
Definition after_sequence (n : Z) (l : list JobEventView) : list JobEventView := filter (λ e, (n < ev_sequence e)%Z) l.

(** Successive readings of a job's events: numbered upwards, and only added to. *)
Record timeline (views : list JobView) : Prop := {
  tl_ordered : ∀ v, v ∈ views → StronglySorted event_before (jv_events v);
  tl_grows : StronglySorted (λ v v', jv_events v `prefix_of` jv_events v') views;
}.

Lemma after_all n l : Forall (λ e, (n < ev_sequence e)%Z) l → after_sequence n l = l.
Proof.
  unfold after_sequence. induction 1 as [|e l He _ IH]; [done|]. by rewrite filter_cons_True, IH.
Qed.
Lemma after_none n l : List.find (λ e, (n <? ev_sequence e)%Z) l = None → after_sequence n l = [].
Proof.
  unfold after_sequence. induction l as [|x l IH]; [done|]. simpl. destruct (Z.ltb_spec n (ev_sequence x)); [done|].
  intros Hf. rewrite filter_cons_False by lia. auto.
Qed.

(** The first event after a position, and those after it. *)
Lemma after_first n l l' e :
  StronglySorted event_before l' → l `prefix_of` l' → List.find (λ e, (n <? ev_sequence e)%Z) l = Some e →
  e ∈ l ∧ (n < ev_sequence e)%Z ∧ after_sequence n l' = e :: after_sequence (ev_sequence e) l'.
Proof.
  intros Hs [more ->] Hf. revert Hs Hf. induction l as [|x l IH]; [done|]. simpl. intros Hs.
  apply StronglySorted_inv in Hs as [Hs Hall]. unfold after_sequence in *. destruct (Z.ltb_spec n (ev_sequence x)) as [Hlt|Hge].
  - intros [= <-]. split; [apply list_elem_of_here|]. split; [done|]. rewrite filter_cons_True, filter_cons_False by lia. f_equal.
    change (after_sequence n (l ++ more) = after_sequence (ev_sequence x) (l ++ more)).
    rewrite !after_all; [done|done|]. eapply Forall_impl; [exact Hall|]. intros y Hy. unfold event_before in Hy. lia.
  - intros Hf. destruct (IH Hs Hf) as (Hin & Hlt & Hl). split; [by apply list_elem_of_further|]. split; [done|].
    rewrite !filter_cons_False by lia. done.
Qed.

Lemma stream_sent reads n : stream_job_events reads n true = ([], true).
Proof. by destruct reads. Qed.

Lemma timeline_inv v views : timeline (v :: views) → timeline views ∧ StronglySorted event_before (jv_events v).
Proof.
  intros [Ho Hg]. apply StronglySorted_inv in Hg as [Hg _]. split; [split; [|done]|apply Ho, list_elem_of_here].
  intros w Hw. by apply Ho, list_elem_of_further.
Qed.

Lemma last_event_only l e :
  StronglySorted event_before l → e ∈ l → last (ev_sequence <$> l) = Some (ev_sequence e) → after_sequence (ev_sequence e) l = [].
Proof.
  intros Hs Hin Hl. unfold after_sequence. apply filter_none. intros x Hx Hlt.
  assert (Hle : ∀ l, StronglySorted event_before l → last (ev_sequence <$> l) = Some (ev_sequence e) → ∀ x, x ∈ l → (ev_sequence x ≤ ev_sequence e)%Z).
  { clear. induction l as [|y l IH]; [by intros _ _ x Hx%not_elem_of_nil|]. intros Hs Hl x Hx.
    apply StronglySorted_inv in Hs as [Hs Hall]. destruct l as [|z l].
    - apply list_elem_of_singleton in Hx as ->. simpl in Hl. injection Hl as ->. lia.
    - rewrite fmap_cons, fmap_cons, last_cons_cons, <- fmap_cons in Hl. apply elem_of_cons in Hx as [->|Hx]; [|by apply IH].
      assert (ev_sequence z ≤ ev_sequence e)%Z by (apply IH; [done|done|apply list_elem_of_here]).
      apply Forall_cons in Hall as [Hyz _]. unfold event_before in Hyz. lia. }
  specialize (Hle l Hs Hl x Hx). lia.
Qed.

Lemma last_event_at l e :
  match last l with Some x => (ev_sequence x =? ev_sequence e)%Z | None => false end = true →
  last (ev_sequence <$> l) = Some (ev_sequence e).
Proof. rewrite fmap_last. destruct (last l); [|done]. simpl. by intros ->%Z.eqb_eq. Qed.

Lemma stream_in_order views n w :
  timeline views → (∀ v, v ∈ views → jv_events v `prefix_of` jv_events w) → StronglySorted event_before (jv_events w) →
  delivered (stream_job_events (Ok <$> views) n false).1 `prefix_of` after_sequence n (jv_events w).
Proof.
  revert n. induction views as [|v views IH]; intros n Ht Hw Hs; [apply prefix_nil|].
  apply timeline_inv in Ht as [Ht Hv]. rewrite fmap_cons. cbn [stream_job_events stream_turn].
  assert (Hw' : ∀ v, v ∈ views → jv_events v `prefix_of` jv_events w) by (intros; by apply Hw, list_elem_of_further).
  destruct (List.find _ _) as [e|] eqn:Hf.
  - eapply after_first in Hf as (_ & _ & ->); [|exact Hs|apply Hw, list_elem_of_here].
    destruct (_ && _); [rewrite stream_sent; simpl; apply prefix_cons, prefix_nil|].
    specialize (IH (ev_sequence e) Ht Hw' Hs). destruct (stream_job_events _ _ _). simpl in *. by apply prefix_cons.
  - destruct (is_terminal _); [rewrite stream_sent; apply prefix_nil|]. by apply IH.
Qed.

Lemma stream_complete views n :
  timeline views → (stream_job_events (Ok <$> views) n false).2 = true →
  ∃ v e, v ∈ views ∧ is_terminal (jv_state v) = true
    ∧ last (stream_job_events (Ok <$> views) n false).1 = Some (JobItem v e)
    ∧ delivered (stream_job_events (Ok <$> views) n false).1 = after_sequence n (jv_events v).
Proof.
  revert n. induction views as [|v views IH]; intros n Ht; [done|].
  pose proof Ht as [_ Hg]. apply StronglySorted_inv in Hg as [_ Hg]. rewrite Forall_forall in Hg.
  apply timeline_inv in Ht as [Ht Hv]. rewrite fmap_cons. cbn [stream_job_events stream_turn].
  destruct (List.find _ _) as [e|] eqn:Hf.
  - destruct (is_terminal (jv_state v) && _) eqn:Hd.
    + apply andb_true_iff in Hd as [Hterm Hl%last_event_at]. intros _. exists v, (Some e).
      destruct (after_first n _ _ e Hv ltac:(done) Hf) as (Hin & _ & ->). rewrite (last_event_only _ e Hv Hin Hl).
      rewrite stream_sent. split_and!; try done. apply list_elem_of_here.
    + specialize (IH (ev_sequence e) Ht). destruct (stream_job_events _ _ _) as [items ended]. simpl in *. intros Hend.
      destruct (IH Hend) as (v' & e' & Hv' & Hterm & Hl & Hd'). exists v', e'. split; [by apply list_elem_of_further|].
      split; [done|]. split; [by destruct items|].
      eapply after_first in Hf as (_ & _ & ->); [by rewrite Hd'| |by apply Hg].
      destruct Ht as [Ho _]. by apply Ho.
  - destruct (is_terminal (jv_state v)) eqn:Hterm.
    + intros _. exists v, None. rewrite stream_sent. split_and!; try done; [apply list_elem_of_here|]. symmetry. by apply after_none.
    + intros Hend. destruct (IH n Ht Hend) as (v' & e' & Hv' & Hrest). exists v', e'. split; [by apply list_elem_of_further|done].
Qed.

Lemma stream_settles v k n :
  StronglySorted event_before (jv_events v) → is_terminal (jv_state v) = true → length (after_sequence n (jv_events v)) < k →
  (stream_job_events (replicate k (Ok v)) n false).2 = true.
Proof.
  intros Hv Hterm. revert n. induction k as [|k IH]; intros n Hk; [lia|]. cbn [replicate stream_job_events stream_turn].
  destruct (List.find _ _) as [e|] eqn:Hf.
  - rewrite Hterm. destruct (after_first n _ _ e Hv ltac:(done) Hf) as (_ & _ & He). rewrite He in Hk. simpl in Hk.
    destruct (true && _); [by rewrite stream_sent|]. specialize (IH (ev_sequence e) ltac:(lia)). by destruct (stream_job_events _ _ _).
  - by rewrite Hterm, stream_sent.
Qed.

Lemma stream_settles_app views v k n :
  StronglySorted event_before (jv_events v) → is_terminal (jv_state v) = true → length (jv_events v) < k →
  (stream_job_events (Ok <$> views ++ replicate k v) n false).2 = true.
Proof.
  intros Hv Hterm Hk. revert n. induction views as [|w views IH]; intros n.
  - simpl. rewrite fmap_replicate. apply stream_settles; [done|done|]. unfold after_sequence.
    pose proof (length_filter (λ e, (n < ev_sequence e)%Z) (jv_events v)). lia.
  - change ((w :: views) ++ replicate k v) with (w :: (views ++ replicate k v)). rewrite fmap_cons. cbn [stream_job_events stream_turn].
    destruct (List.find _ _) as [e|].
    + destruct (_ && _); [by rewrite stream_sent|]. specialize (IH (ev_sequence e)). by destruct (stream_job_events _ _ _).
    + destruct (is_terminal (jv_state w)); [by rewrite stream_sent|]. apply IH.
Qed.


(** ** Writes stay in the caller's organization *)

Definition writes_within (o : string) (d d' : Db) : Prop :=
  ∀ k : string * string, k.1 ≠ o → db_jobs d' !! k = db_jobs d !! k ∧ db_artifacts d' !! k = db_artifacts d !! k.
#[export] Instance writes_within_preorder o : PreOrder (writes_within o).
Proof.
  split; [by intros d k|]. intros a b c Hab Hbc k Hk. destruct (Hab k Hk) as [J1 A1], (Hbc k Hk) as [J2 A2]. split; congruence.
Qed.
Definition hub_within (o : string) (h h' : Hub) : Prop :=
  match hb_store h, hb_store h' with
  | Some d, Some d' => writes_within o d d'
  | None, None => True
  | _, _ => False
  end.
#[export] Instance hub_within_preorder o : PreOrder (hub_within o).
Proof.
  unfold hub_within. split; [intros h; by destruct (hb_store h)|].
  intros a b c. destruct (hb_store a), (hb_store b), (hb_store c); try done. by etrans.
Qed.

Section within.
Context `{!ObjectStore} (o : string).

Lemma within_same h h' : hb_store h' = hb_store h → hub_within o h h'.
Proof. unfold hub_within. intros ->. by destruct (hb_store h). Qed.
Lemma within_to h h' d d' : hb_store h = Some d → hb_store h' = Some d' → writes_within o d d' → hub_within o h h'.
Proof. unfold hub_within. by intros -> ->. Qed.
(** Other tables than those of jobs and artifacts. *)
Lemma within_rest d d' : db_jobs d' = db_jobs d → db_artifacts d' = db_artifacts d → writes_within o d d'.
Proof. by intros Hj Ha k _; rewrite Hj, Ha. Qed.
Lemma within_job d d' id r : db_jobs d' = <[(o, id) := r]> (db_jobs d) → db_artifacts d' = db_artifacts d → writes_within o d d'.
Proof. intros Hj Ha k Hk. rewrite Hj, Ha, lookup_insert_ne by (intros <-; by apply Hk). done. Qed.
Lemma release_rest d o' j now : writes_within o d (release_job_for_terminal_tx d o' j now).
Proof. unfold release_job_for_terminal_tx. destruct (db_jobs d !! _) as [r|]; [|done]. destruct (_ && _); [|done]. by apply within_rest. Qed.

Lemma update_current_within d input : cu_organization_id input = o → writes_within o d (update_job_if_current d input).2.
Proof.
  intros Ho. unfold update_job_if_current. rewrite Ho. destruct (db_jobs d !! _) as [r|]; [|done]. destruct (_ && _); [|done]. simpl.
  match goal with |- writes_within _ _ (if _ then release_job_for_terminal_tx ?d1 _ _ _ else _) => trans d1 end.
  - by eapply within_job.
  - destruct (is_some_and _ _); [apply release_rest|done].
Qed.
Lemma cancel_queued_within d id now : writes_within o d (cancel_queued_job d o id now).2.
Proof.
  unfold cancel_queued_job. destruct (db_jobs d !! _) as [r|]; [|done]. destruct (String.eqb _ _); [|done]. simpl.
  etrans; [|apply release_rest]. by eapply within_job.
Qed.

Lemma claim_within d j now ids d1 : claim_artifacts d o j now ids = Ok d1 → writes_within o d d1.
Proof.
  intros Hc k Hk. destruct (claim_artifacts_frame _ _ _ _ _ _ Hc) as [-> _]. split; [done|].
  unfold claim_artifacts in Hc. repeat case_match; try done. injection Hc as <-. simpl. rewrite map_lookup_imap.
  destruct (db_artifacts d !! k) as [a|]; [|done]. simpl. rewrite bool_decide_eq_false_2; [done|]. by intros [? _].
Qed.
Lemma commit_within rules d row ids idem adm res d' :
  sj_organization_id row = o → commit_new_job rules d row ids idem adm = Ok (res, d') → writes_within o d d'.
Proof.
  intros Ho Hc. destruct res as [|j]; [|by apply commit_existing in Hc as ->].
  unfold commit_new_job in Hc. rewrite Ho in Hc. apply bind_Ok in Hc as ([k|] & _ & Hc); [done|].
  apply bind_Ok in Hc as (quota & _ & Hc). apply bind_Ok in Hc as (usage & _ & Hc).
  apply bind_Ok_tt in Hc as [_ Hc]. apply bind_Ok_tt in Hc as [_ Hc].
  apply bind_Ok in Hc as (d1 & Hd1 & Hc). apply bind_Ok_tt in Hc as [_ Hc]. apply bind_Ok_tt in Hc as [_ Hc].
  injection Hc as <-. trans d1; [case_bool_decide; [by injection Hd1 as <-|by eapply claim_within]|].
  eapply (within_job _ _ (sj_id row) (mkJobTableRow row None None None)); by destruct idem.
Qed.

Lemma update_error_within h now id message terminal :
  (∀ r, hd_jobs (hb_data h) !! id = Some r → hj_organization_id r = o) →
  hub_within o h (update_job_error h now id message terminal).
Proof.
  intros Ho. unfold update_job_error. destruct (hd_jobs (hb_data h) !! id) as [j|] eqn:Hj; [|done]. specialize (Ho j eq_refl).
  destruct (is_terminal _); [done|]. destruct (hb_store h) as [db|] eqn:Hdb.
  - match goal with |- context [update_job_if_current db ?i] =>
      pose proof (update_current_within db i Ho) as Hw; destruct (update_job_if_current db i) as [[] db'] end; [|done].
    eapply (within_to h _ db db'); [done|by repeat case_match|done].
  - apply within_same. by repeat case_match.
Qed.

(** *** Uploads *)

Lemma release_within h now o' b : hub_within o h (hub_release_storage h now o' b).
Proof.
  unfold hub_release_storage. destruct (hb_store h) as [db|] eqn:Hdb; [|done]. eapply within_to; [done|done|]. by apply within_rest.
Qed.
Lemma persist_within h now a fault h' : at_organization_id a = o → persist_artifact h now a fault = Ok h' → hub_within o h h'.
Proof.
  intros Ho. unfold persist_artifact. destruct (hb_store h) as [db|] eqn:Hdb; [|by intros [= <-]]. destruct fault; [done|]. intros [= <-].
  eapply within_to; [done|done|]. intros k Hk. split; [done|]. simpl. rewrite lookup_insert_ne; [done|]. intros <-. by apply Hk.
Qed.
End within.

Section operations.
Context `{!ObjectStore, !JsonbArray}.
Context (strings : string → Res string (list string)) (json : string → Res string Json)
        (scan : gmap (string * string * Z * Z) StoredJobEvent → list StoredJobEvent)
        (rules : string → Res string (list DeviceWorkflowRule)) (iter : gmap string WorkerSession → list (string * WorkerSession))
        (to_string_json : Json → string) (to_string_ids : list string → string) (request_hash : SubmitJobRequest → string).

Lemma stage_within o h now record sha fault :
  at_organization_id record = o → hub_within o h (stage_upload h now record sha fault).2.
Proof.
  intros Ho. unfold stage_upload. rewrite Ho. destruct (hub_reserve_storage _ _ _ _) as [h1|e] eqn:Hres; [|done].
  assert (Hr : hub_within o h h1).
  { revert Hres. unfold hub_reserve_storage. destruct (hb_store h) as [db|] eqn:Hdb; [|by intros [= <-]].
    destruct (reserve_storage _ _ _ _) as [db'|] eqn:Hs; [|done]. intros [= <-]. eapply within_to; [done|done|].
    unfold reserve_storage in Hs. inv_ok. by apply within_rest. }
  assert (Hrel : ∀ b, hub_within o h (hub_release_storage h1 now o b)) by (intros; etrans; [exact Hr|apply release_within]).
  destruct (presign_put _ _ _ _); [|apply Hrel]. destruct (persist_artifact _ _ _ _) as [h2|] eqn:Hp; [|apply Hrel].
  etrans; [exact Hr|]. exact (persist_within o h1 now record fault h2 Ho Hp).
Qed.

Lemma create_upload_within max o h now uuid fault request :
  hub_within o h (create_upload_for_principal max h now uuid fault o request).2.
Proof.
  unfold create_upload_for_principal, create_input. destruct (validate_upload _ _); [|done]. case_bool_decide; [done|].
  match goal with |- context [stage_upload h now ?r ?s ?f] =>
    pose proof (stage_within o h now r s f eq_refl) as Hs; destruct (stage_upload h now r s f) as [[up|e] h1] end; [|done].
  etrans; [exact Hs|]. by apply within_same.
Qed.
Lemma complete_upload_within o h now fault id request :
  hub_within o h (complete_upload_for_principal h now fault o id request).2.
Proof.
  unfold complete_upload_for_principal. destruct (negb _); [done|]. destruct (resident_artifact _ _ _) as [a|] eqn:Ha; [|done].
  assert (Ho : at_organization_id a = o).
  { unfold resident_artifact in Ha. apply bind_Some in Ha as (b & _ & Ha). destruct (String.eqb_spec (at_organization_id b) o); congruence. }
  destruct (negb _); [done|]. destruct (object_head _); [|done]. destruct (negb _).
  - etrans; [apply (release_within o h now o)|]. by apply within_same.
  - destruct (persist_artifact _ _ _ _) as [h1|] eqn:Hp; [|done].
    etrans; [by apply (persist_within o h now (with_state a Ready) fault h1 Ho Hp)|]. by apply within_same.
Qed.

(** *** Submission *)

(** The job a submission waits on is resident, and of its organization. *)
Definition awaits (o : string) (record : JobRecord) (h : Hub) : Prop :=
  hj_organization_id record = o ∧ hd_jobs (hb_data h) !! jv_id (hj_view record) = Some record.

Lemma send_submission_within o h now record worker inputs :
  hj_organization_id record = o →
  hub_within o h (submit_hub (send_submission h now record worker inputs))
  ∧ ∀ record' sid eff h', send_submission h now record worker inputs = SubmitAwaitingAck record' sid eff h' → awaits o record' h'.
Proof.
  intros Ho. unfold send_submission.
  assert (Hj : ∀ r, hd_jobs (cache_submission (hb_data h) record inputs) !! jv_id (hj_view record) = Some r → hj_organization_id r = o).
  { intros r. simpl. rewrite lookup_insert_eq. by intros [= <-]. }
  destruct (send_command_begin _ _ _ _ _ _) as [[r eff]|e].
  - split; [by apply within_same|]. intros record' sid eff' h' [= <- _ _ <-]. split; [done|]. simpl. by rewrite lookup_insert_eq.
  - split; [|done]. simpl. match goal with |- context [update_job_error ?x ?n ?j ?m ?t] =>
      assert (hub_within o h (update_job_error x n j m t)) as Hu by (etrans; [|by apply update_error_within]; by apply within_same);
      destruct (hb_store (update_job_error x n j m t)) as [db|] eqn:Hdb end; [|done].
    etrans; [exact Hu|]. eapply within_to; [done|done|]. by apply within_rest.
Qed.

Lemma submit_finish_within o h now record sid outcome :
  awaits o record h → hub_within o h (submit_job_finish h now record sid outcome).2.
Proof.
  intros [Ho Hj]. unfold submit_job_finish. destruct (send_command_finish _ _ _ _ _ _) as [res r].
  assert (He : ∀ m t, hub_within o h (update_job_error (HubJobs.with_sessions h r) now (jv_id (hj_view record)) m t)).
  { intros m t. apply (update_error_within o (HubJobs.with_sessions h r)). simpl. rewrite Hj. by intros r' [= <-]. }
  destruct res as [ack|e].
  - destruct (ca_accepted ack); simpl; [|apply He]. destruct (hb_store h) as [db|] eqn:Hdb; [|by apply within_same].
    eapply within_to; [done|done|]. by apply within_rest.
  - simpl. match goal with |- context [update_job_error ?x ?n ?j ?m ?t] => specialize (He m t);
      destruct (hb_store (update_job_error x n j m t)) as [db|] eqn:Hdb end; [|done].
    etrans; [exact He|]. eapply within_to; [done|done|]. by apply within_rest.
Qed.

Lemma submit_within h now tick id cmd p key request :
  let x := submit_job_for_principal strings json scan rules iter to_string_json to_string_ids request_hash h now tick id cmd p key request in
  hub_within (pc_organization_id p) h (submit_hub x)
  ∧ ∀ record sid eff h', x = SubmitAwaitingAck record sid eff h' → awaits (pc_organization_id p) record h'.
Proof.
  set (o := pc_organization_id p). unfold submit_job_for_principal. fold o.
  assert (Hsame : ∀ a h', hb_store h' = hb_store h → hub_within o h (submit_hub (Answered a h'))
    ∧ ∀ record sid eff h2, Answered a h' = SubmitAwaitingAck record sid eff h2 → awaits o record h2) by (intros; split; [by apply within_same|done]).
  destruct (validate_submission request); [|by apply Hsame]. destruct (negb _); [by apply Hsame|].
  destruct (hb_store h) as [db|] eqn:Hdb; [|by apply Hsame]. destruct (key ≫= _) as [[hash ex]|].
  { destruct (negb _); [by apply Hsame|]. apply Hsame. rewrite <- Hdb. apply (job_for_principal_same strings json scan h tick p ex). }
  pose proof (accessible_same rules iter h now tick p) as (H1 & _).
  destruct (accessible_workers_for _ _ _ _ _ _) as [[acc|e] h1]; [|apply Hsame; by rewrite <- Hdb].
  cbn [snd] in H1. pose proof (load_inputs_same h1 tick o (rq_input_artifact_ids request)) as (H2 & _). rewrite H1, Hdb in H2.
  destruct (load_inputs _ _ _ _) as [[recs|e] h2]; [|by apply Hsame]. cbn [snd] in H2.
  destruct (try_map job_input recs) as [inputs|e]; [|by apply Hsame].
  destruct (reserve_capacity _ _ _ _) as [[worker|] r]; [|by apply Hsame]. destruct (pc_user_id p) as [user|]; [|by apply Hsame].
  set (record := new_job _ _ _ _ _ _ _ _ _ _ _).
  destruct (commit_job_record _ _ _ _ _ _ _ _ _) as [[[|ex] h4]|e] eqn:Hc; [| |by apply Hsame].
  all: assert (Hw : hub_within o h h4) by
    (unfold commit_job_record in Hc; cbn [hb_store HubJobs.with_sessions] in Hc; rewrite H2 in Hc;
     destruct (commit_new_job _ _ _ _ _ _) as [[res' db']|] eqn:Hn; [|done]; injection Hc as _ <-;
     eapply within_to; [exact Hdb|done|]; eapply commit_within; [|exact Hn]; done).
  - destruct (send_submission_within o h4 now record worker recs eq_refl) as [Hs Ha]. split; [by etrans|exact Ha].
  - split; [|done]. etrans; [exact Hw|]. apply within_same.
    apply (job_for_principal_same strings json scan (HubJobs.with_sessions h4 _) tick p ex).
Qed.

(** *** Cancelling *)

Lemma cancel_locally_within o h now record :
  (∀ c, hd_jobs (hb_data h) !! jv_id (hj_view record) = Some c → hj_organization_id c = o) →
  hub_within o h (cancel_job_locally h now record).2.
Proof.
  intros Ho. unfold cancel_job_locally. destruct (hd_jobs _ !! _) as [c|] eqn:Hc; [|done]. specialize (Ho c eq_refl).
  destruct (is_terminal _); [done|].
  destruct (hb_store h) as [db|] eqn:Hdb; [|apply within_same, merge_cancellation_store].
  match goal with |- context [commit_cancellation db now ?id c ?m] =>
    assert (Hw : writes_within o db (commit_cancellation db now id c m).2)
      by (unfold commit_cancellation; rewrite Ho; case_bool_decide; [apply cancel_queued_within|by apply update_current_within]);
    destruct (commit_cancellation db now id c m) as [[] db'] end; [|done].
  eapply within_to; [done|by rewrite merge_cancellation_store|exact Hw].
Qed.

Definition cancels (o : string) (record : JobRecord) (h : Hub) : Prop :=
  ∀ c, hd_jobs (hb_data h) !! jv_id (hj_view record) = Some c → hj_organization_id c = o.

Lemma cancel_within h now uuid p id :
  jobs_keyed (hd_jobs (hb_data h)) →
  let x := cancel_job_for_principal strings json scan h now uuid p id in
  hub_within (pc_organization_id p) h (cancel_hub x)
  ∧ ∀ record sid cmd eff h', x = CancelAwaitingAck record sid cmd eff h' → cancels (pc_organization_id p) record h'.
Proof.
  intros Hkeyed. set (o := pc_organization_id p). unfold cancel_job_for_principal. fold o.
  assert (Hst : let x := done_of match hb_store h with
      | Some db => cancel_stored strings json scan h db now p id | None => (Err (NotFound "job"), h) end in
    hub_within o h (cancel_hub x) ∧ ∀ record sid cmd eff h', x = CancelAwaitingAck record sid cmd eff h' → cancels o record h').
  { split; [|done]. destruct (hb_store h) as [db|] eqn:Hdb; [|by apply within_same]. unfold cancel_stored. fold o.
    destruct (job db _ _) as [st|]; [|done]. destruct (String.eqb _ _); [|done]. destruct (negb _); [done|].
    pose proof (cancel_queued_within o db id now) as Hw. destruct (cancel_queued_job _ _ _ _) as [[] db']; [|done].
    by eapply within_to. }
  destruct (hd_jobs _ !! id) as [record|] eqn:Hr; [|done]. destruct (String.eqb_spec (hj_organization_id record) o) as [Ho|]; [|done].
  destruct (negb _); [done|]. destruct (_ || _); [done|]. clear Hst.
  assert (Hc : cancels o record h) by (intros c; rewrite (Hkeyed _ _ Hr), Hr; by intros [= <-]).
  pose proof (cancel_locally_within o h now record Hc) as Hl.
  unfold send_job_cancellation. case_bool_decide; [done|]. destruct (current_session_id _ _ _) as [sid|]; [|done].
  destruct (send_command_begin _ _ _ _ _ _) as [[r eff]|e]; [|by destruct e].
  split; [by apply within_same|]. by intros record' sid' cmd' eff' h' [= <- _ _ _ <-].
Qed.

Lemma cancel_finish_within o h now record sid cmd outcome :
  cancels o record h → hub_within o h (send_job_cancellation_finish h now record sid cmd outcome).2.
Proof.
  intros Hc. unfold send_job_cancellation_finish. destruct (send_command_finish _ _ _ _ _ _) as [res r].
  assert (Hl : hub_within o h (cancel_job_locally (HubJobs.with_sessions h r) now record).2)
    by apply (cancel_locally_within o (HubJobs.with_sessions h r) now record Hc).
  destruct res as [ack|e]; [by apply within_same|]. destruct e; try done; by apply within_same.
Qed.
End operations.

(** ** Requests *)

(** Like [wp], with a panic counted as an exit. *)
Definition ends {X A} (m : Handler X A) (Q : A → Site → Prop) (E : Site → Prop) (s : Site) : Prop :=
  match m s with (Next a, s') => Q a s' | (_, s') => E s' end.

Section ends.
Context {X : Type}.
Lemma ends_bind {A B} (m : Handler X A) (f : A → Handler X B) Q E s :
  ends m (λ a s', ends (f a) Q E s') E s → ends (m ≫= f) Q E s.
Proof. unfold ends, mbind, handler_bind. by destruct (m s) as [[]]. Qed.
Lemma ends_calling {Y A} (g : Y → X) (m : Handler Y A) Q E s : ends m Q E s → ends (calling g m) Q E s.
Proof. unfold ends, calling. by destruct (m s) as [[]]. Qed.
Lemma ends_ret {A} (a : A) Q E s : Q a s → ends (mret a : Handler X A) Q E s.
Proof. done. Qed.
Lemma ends_lift {F A} (g : F → X) (r : Res F A) Q E s : E s → (∀ a, r = Ok a → Q a s) → ends (lift g r) Q E s.
Proof. unfold ends, lift, exit, mret, handler_ret. destruct r; eauto. Qed.
Lemma ends_wp {A} (m : Handler X A) Q E s : wp m Q E s → ends m Q E s.
Proof. unfold wp, ends. by destruct (m s) as [[]]. Qed.
Lemma ends_mono {A} (m : Handler X A) Q Q' E E' s :
  ends m Q E s → (∀ a s', Q a s' → Q' a s') → (∀ s', E s' → E' s') → ends m Q' E' s.
Proof. unfold ends. destruct (m s) as [[]]; naive_solver. Qed.
End ends.

Section requests.
Context `{!Libraries, !TextOrder, !DeviceTexts, !ObjectStore, !JsonbArray}.
Context (strings : string → Res string (list string)) (json : string → Res string Json)
        (scan : gmap (string * string * Z * Z) StoredJobEvent → list StoredJobEvent)
        (to_string_json : Json → string) (to_string_ids : list string → string) (request_hash : SubmitJobRequest → string)
        (max_artifact_bytes : Z) (outcome : string → CommandOutcome) (fault : option StoreError)
        (fetch : string → option string → Res string ObjectBody) (limits : Limits) (ev : Env) (headers : Headers)
        (range : option (option string)).
#[local] Abbreviation transactions := (rtc (tx to_string_ids rules_from_str)).

(** The jobs and artifacts after a request of the organization [o]: reached by
    transactions, with no row of another organization touched. *)
Definition rows_moved (o : string) (d : Directory) (s' : Site) : Prop :=
  ∃ d', si_store s' = Some d' ∧ writes_within o (dr_db d) (dr_db d') ∧ transactions (dr_db d) (dr_db d').
Definition hub_moved (o : string) (h h' : Hub) : Prop := hub_within o h h' ∧ store_run to_string_ids rules_from_str h h'.

#[local] Instance store_run_trans : Transitive (store_run to_string_ids rules_from_str).
Proof. intros a b c. unfold store_run. destruct (hb_store a), (hb_store b), (hb_store c); try done. by etrans. Qed.

Lemma hub_moved_same o h h' : same_but_cache h h' → hub_moved o h h'.
Proof. intros Hs. split; [apply within_same, Hs|by apply same_but_cache_run]. Qed.

Lemma moved_site o d s1 h' : rows_moved o d s1 → hub_moved o (hub_of s1) h' → rows_moved o d (site_of s1 h').
Proof.
  intros (d1 & Hd1 & Hw & Ht) [Hw' Ht']. unfold hub_within, store_run, hub_of in *. simpl in *. rewrite Hd1 in *. simpl in *.
  destruct (hb_store h') as [db|] eqn:Hdb; [|done]. exists (set_db d1 db). unfold site_of. simpl. rewrite Hd1, Hdb.
  split; [done|]. split; [by etrans|by etrans].
Qed.

Lemma on_hub_ends {A} (f : Hub → Res HubError A * Hub) o d s1 :
  rows_moved o d s1 → hub_moved o (hub_of s1) (f (hub_of s1)).2 →
  ends (on_hub f) (λ _, rows_moved o d) (rows_moved o d) s1.
Proof.
  intros Hs Hf. unfold ends, on_hub. destruct (f (hub_of s1)) as [[a|e] h']; by apply moved_site.
Qed.

Lemma audit_ends p action resource id metadata o d s1 :
  rows_moved o d s1 → ends (audit_request ev headers p action resource id metadata : Handler Response unit) (λ _, rows_moved o d) (rows_moved o d) s1.
Proof.
  intros (d1 & Hd1 & Hm). apply ends_wp. unfold audit_request. eapply wp_audit; [exact Hd1|]. intros t. by eexists.
Qed.

Lemma limit_ends call scope key q o d s1 (Q : Site → Prop) :
  rows_moved o d s1 → (∀ s2, rows_moved o d s2 → si_data s2 = si_data s1 → Q s2) →
  ends (limit_key ev call scope key q) (λ _, Q) (rows_moved o d) s1.
Proof.
  intros Hs HQ. unfold ends. destruct (limit_key _ _ _ _ _ s1) as [f s2] eqn:Hl. destruct (limit_key_any _ _ _ _ _ _ _ _ Hl) as [l ->].
  destruct f; [by apply HQ|done..].
Qed.

(** An operation, and what follows its success. *)
Lemma operation_ends {A B} (f : Hub → Res HubError A * Hub) (g : HubError → Response) (k : A → Handler Response B) o d s1 :
  rows_moved o d s1 → hub_moved o (hub_of s1) (f (hub_of s1)).2 →
  (∀ a s2, rows_moved o d s2 → ends (k a) (λ _, rows_moved o d) (rows_moved o d) s2) →
  ends (calling g (on_hub f) ≫= k) (λ _, rows_moved o d) (rows_moved o d) s1.
Proof.
  intros Hs Hf Hk. apply ends_bind, ends_calling. eapply ends_mono; [by apply on_hub_ends| |done]. intros a s2. apply Hk.
Qed.
Lemma audited_ends {B} p action resource id metadata (b : B) o d s1 :
  rows_moved o d s1 →
  ends (audit_request ev headers p action resource id metadata ;; mret b : Handler Response B) (λ _, rows_moved o d) (rows_moved o d) s1.
Proof. intros Hs. apply ends_bind. eapply ends_mono; [by apply audit_ends| |done]. done. Qed.

Lemma drop_object_moved id before o d s1 : rows_moved o d s1 → rows_moved o d (drop_object ev o id before s1).
Proof.
  unfold drop_object. intros (d1 & Hd1 & Hm). destruct (resident_artifact before _ _); [|by eexists].
  destruct (resident_artifact _ _ _); [by eexists|]. destruct (ev_delete _ _); by eexists.
Qed.
Lemma complete_ends id request o d s1 :
  rows_moved o d s1 →
  ends (λ s, let '(flow, s') := on_hub (λ h, complete_upload_for_principal h (ev_now ev 1) fault o id request) s in
             (flow, drop_object ev o id (hub_of s) s')) (λ _, rows_moved o d) (rows_moved o d) s1.
Proof.
  intros Hs. pose proof (on_hub_ends (λ h, complete_upload_for_principal h (ev_now ev 1) fault o id request) o d s1 Hs) as Ho.
  unfold ends in *. destruct (on_hub _ _) as [f s2].
  assert (Hm : rows_moved o d s2).
  { destruct f; (apply Ho; split; [apply complete_upload_within|apply complete_for_principal_run]). }
  destruct f; by apply drop_object_moved.
Qed.

Lemma readable_same h tick p id : same_but_cache h (readable_artifact_for_principal h tick p id).2.
Proof.
  unfold readable_artifact_for_principal. pose proof (artifact_record_same h tick (pc_organization_id p) id) as Ha.
  destruct (artifact_record _ _ _ _) as [[a|e] h1]; [|done]. destruct (negb _); [done|]. destruct (av_job_id _) as [j|]; [|done].
  assert (Hj : same_but_cache h1 (job_state_for h1 tick (pc_organization_id p) j).2).
  { unfold job_state_for. destruct (hd_jobs _ !! _ ≫= _); [done|]. destruct (cached_job _ _ _ _) as [[v|] c]; done. }
  destruct (job_state_for _ _ _ _) as [[st|e] h2]; [case_bool_decide|]; by etrans.
Qed.
Lemma download_same h tick p id : same_but_cache h (download_for_principal h tick p id).2.
Proof.
  unfold download_for_principal. pose proof (readable_same h tick p id) as Hr.
  by destruct (readable_artifact_for_principal _ _ _ _) as [[a|e] h1].
Qed.
Lemma read_job_same n p id h : same_but_cache h (read_job strings json scan ev n p id h).2.
Proof.
  revert h. induction n as [|n IH]; intros h; [done|]. cbn [read_job].
  pose proof (job_for_principal_same strings json scan h (ev_instant ev n) p id) as Hj.
  destruct (job_for_principal _ _ _ _ _ _ _) as [v h1]. specialize (IH h1). destruct (read_job _ _ _ _ _ _ _) as [vs h2]. by etrans.
Qed.

Lemma submit_moved p request h :
  hub_moved (pc_organization_id p) h
    (submit_operation strings json scan to_string_json to_string_ids request_hash outcome ev headers p request h).2.
Proof.
  unfold submit_operation.
  match goal with |- context [submit_job_for_principal ?a ?b ?c ?d ?e ?f ?g ?i ?h ?n ?t ?j ?cm ?p ?k ?r] =>
    pose proof (submit_within a b c d e f g i h n t j cm p k r) as [Hw Ha];
    pose proof (submit_run a b c g d e f g i h n t j cm p k r) as Hr;
    destruct (submit_job_for_principal a b c d e f g i h n t j cm p k r) as [x h1|record sid eff h1] end; [by split|].
  specialize (Ha record sid eff h1 eq_refl). split; [etrans; [exact Hw|by apply submit_finish_within]|].
  etrans; [exact Hr|apply submit_finish_run].
Qed.
Lemma cancel_moved p id h :
  jobs_keyed (hd_jobs (hb_data h)) → hub_moved (pc_organization_id p) h (cancel_operation strings json scan outcome ev p id h).2.
Proof.
  intros Hk. unfold cancel_operation.
  pose proof (cancel_within strings json scan h (ev_now ev 1) (ev_uuid ev 1) p id Hk) as [Hw Ha].
  pose proof (cancel_run strings json scan to_string_ids rules_from_str h (ev_now ev 1) (ev_uuid ev 1) p id) as Hr.
  destruct (cancel_job_for_principal _ _ _ _ _ _ _ _) as [x h1|record sid cmd eff h1]; [by split|].
  specialize (Ha record sid cmd eff h1 eq_refl). split; [etrans; [exact Hw|by apply cancel_finish_within]|].
  etrans; [exact Hr|apply cancel_finish_run].
Qed.

(** What is done once the caller is known. *)
#[local] Abbreviation handle := (handle_job strings json scan to_string_json to_string_ids request_hash max_artifact_bytes outcome fault
  fetch limits ev headers range).

Lemma moved_refl o d s1 keys : si_store s1 = Some (set_api_keys d keys) → rows_moved o d s1.
Proof. intros Hs. exists (set_api_keys d keys). split; [done|]. split; [done|apply rtc_refl]. Qed.

(** Nothing but the use of an API key, and a refusal; or the rows moved for a caller
    with the permission. *)
Definition confined (r : JobRequest) (s : Site) (d : Directory) (f : Flow Response JobAnswer) (s' : Site) : Prop :=
  (∃ x, f = Exit x) ∧ touched s s'
  ∨ ∃ c, caller ev headers s None c ∧ allows (ac_principal c) (permission_of r) = true
      ∧ rows_moved (pc_organization_id (ac_principal c)) d s'.

Lemma authorized_ends r perm (k : AuthContext → Handler Response JobAnswer) s d :
  si_store s = Some d → permission_of r = perm →
  (∀ c s1, rows_moved (pc_organization_id (ac_principal c)) d s1 → si_data s1 = si_data s →
     ends (k c) (λ _, rows_moved (pc_organization_id (ac_principal c)) d) (rows_moved (pc_organization_id (ac_principal c)) d) s1) →
  let '(f, s') := (calling (product_error (with_id ev headers)) (authorize_current ev headers perm) ≫= k) s in confined r s d f s'.
Proof.
  intros Hd <- Hk. unfold authorize_current, mbind, handler_bind, calling.
  pose proof (wp_authenticate ev headers None s) as Ha. unfold wp in Ha.
  destruct (authenticate ev headers None s) as [[c| |] s1] eqn:Hau; [| |done].
  2:{ left. split; [by eexists|exact Ha]. }
  destruct Ha as (Hc & _ & _ & Ht). unfold exit_if. destruct (allows (ac_principal c) (permission_of r)) eqn:Hp.
  2:{ left. split; [by eexists|exact Ht]. }
  simpl. assert (Hm : rows_moved (pc_organization_id (ac_principal c)) d s1 ∧ si_data s1 = si_data s).
  { destruct (touched_store _ _ _ Ht Hd) as [keys ->]. split; [by apply (moved_refl _ _ _ keys)|done]. }
  specialize (Hk c s1 (proj1 Hm) (proj2 Hm)). unfold ends in Hk. unfold confined.
  destruct (k c s1) as [[]]; right; exists c; (split; [exists s1; exact Hau|split; [exact Hp|exact Hk]]).
Qed.

End requests.

(** The check meant for outputs holds of inputs too: once a job has taken an input,
    nobody can download it until that job completes. *)
Lemma bound_input_unavailable `{!ObjectStore} h tick p id a j job :
  hd_artifacts (hb_data h) !! id = Some a → at_organization_id a = pc_organization_id p →
  av_state (at_view a) = Ready → av_job_id (at_view a) = Some j →
  hd_jobs (hb_data h) !! j = Some job → hj_organization_id job = pc_organization_id p →
  jv_state (hj_view job) ≠ Completed → id ∈ jv_input_artifact_ids (hj_view job) →
  download_for_principal h tick p id = (Err (Conflict "output is not available yet"), h).
Proof.
  intros Ha Ho Hs Hj Hjob Hjo Hst _. unfold download_for_principal, readable_artifact_for_principal, artifact_record.
  rewrite Ha, Ho, String.eqb_refl, Hs. simpl. rewrite Hj. unfold job_state_for. rewrite Hjob. simpl.
  by rewrite Hjo, String.eqb_refl, bool_decide_eq_false_2.
Qed.

(** ** An upload and a stream *)

Section examples.
#[local] Existing Instance plain_libraries.
#[local] Existing Instance byte_order.
#[local] Existing Instance plain_texts.
#[local] Existing Instance ArtifactExample.objects.
#[local] Existing Instance ArtifactExample.jsonb.

Definition job_request (r : JobRequest) (token : string) : Handler Response JobAnswer :=
  handle_job (λ _, Ok []) (λ _, Ok JNull) (λ m, (map_to_list m).*2) (λ _, "{}") plain_scopes (λ _, "h") 50 (λ _, NotSent) None
    (λ _ _, Err "no object") Limits_default (day 1000 0) (bearer token) None r.
Definition cat : JobRequest := CreateArtifactUpload ArtifactExample.request.
Definition uploading := job_request cat "nss_ann" roomy_site.
Definition artifacts_of (s : Site) : nat := match si_store s with Some d => size (db_artifacts (dr_db d)) | None => 0 end.


(** A job read while it runs, and when it has failed. *)
Definition step (n : Z) (k : JobEventKind) : JobEventView := mkJobEventView n k None "" (1000 + n).
Definition seen (state : JobState) (events : list JobEventView) : JobView :=
  mkJobView "j1" "w" "1" JNull [] [] "gpu" "s1" state None None None events 1000 2000.
Definition accepted_view : JobView := seen Accepted [step 1 EvAccepted].
Definition running_view : JobView := seen Running [step 1 EvAccepted; step 2 EvRunning].
Definition failed_view : JobView := seen Failed [step 1 EvAccepted; step 2 EvRunning; step 3 EvFailed].
Definition readings : list JobView := [accepted_view; accepted_view; running_view].


(** Reading on from the first event, the stream gives the two that follow and ends. *)
Example stream_of_a_job :
  stream_job_events (Ok <$> readings ++ [failed_view; failed_view]) 1 false
  = ([JobItem running_view (Some (step 2 EvRunning)); JobItem failed_view (Some (step 3 EvFailed))], true).
Proof. vm_compute. reflexivity. Qed.
End examples.
