(* ===== verification/Rpc.v ===== *)
(** What both ends of an RPC connection share ([nagisalake-rpc/src/status.rs],
    [error.rs], [context.rs], [codec.rs]): statuses and their form on the wire,
    the errors of a call, the contexts of a call on either side, and the codec as
    an interface.

    Main results: a status arrives as it was sent, and a message that is not
    UTF-8 is repaired, never refused; the budget a call carries fits its field and
    is nothing exactly when less than a microsecond is left. *)

From S2P Require Import Prelude Octets Frames.
From Stdlib Require Import ZArith Lia Strings.Byte.

(** ** [String::from_utf8_lossy]

    The length of the valid sequence at the head of the bytes, or of the longest
    part of one that a replacement character stands for. *)
Definition byte_at (bs : Octets) (n : nat) : Z := byte_value (nth n bs x00).
Definition in_bytes (lo hi b : Z) : bool := (lo <=? b)%Z && (b <=? hi)%Z.
Definition continuation (b : Z) : bool := in_bytes 128 191 b.

Definition second_of_three (a b : Z) : bool :=
  (a =? 224)%Z && in_bytes 160 191 b || in_bytes 225 236 a && continuation b || (a =? 237)%Z && in_bytes 128 159 b
  || in_bytes 238 239 a && continuation b.
Definition second_of_four (a b : Z) : bool :=
  (a =? 240)%Z && in_bytes 144 191 b || in_bytes 241 243 a && continuation b || (a =? 244)%Z && in_bytes 128 143 b.

(** [Ok n]: a character of [n] bytes; [Err n]: [n] bytes to replace. *)
Definition next_char (bs : Octets) : Res nat nat :=
  let a := byte_at bs 0 in
  if (a <? 128)%Z then Ok 1
  else if in_bytes 194 223 a then if continuation (byte_at bs 1) then Ok 2 else Err 1
  else if in_bytes 224 239 a then
    if second_of_three a (byte_at bs 1) then if continuation (byte_at bs 2) then Ok 3 else Err 2 else Err 1
  else if in_bytes 240 244 a then
    if second_of_four a (byte_at bs 1) then
      if continuation (byte_at bs 2) then if continuation (byte_at bs 3) then Ok 4 else Err 3 else Err 2
    else Err 1
  else Err 1.

Definition REPLACEMENT : Octets := [xef; xbf; xbd].

(** Each turn takes at least one byte, so the length is fuel enough. *)
Fixpoint lossy (fuel : nat) (bs : Octets) : Octets :=
  match fuel, bs with
  | 0, _ | _, [] => []
  | S fuel, _ =>
      match next_char bs with
      | Ok n => take n bs ++ lossy fuel (drop n bs)
      | Err n => REPLACEMENT ++ lossy fuel (drop n bs)
      end
  end.
Definition from_utf8_lossy (bs : Octets) : Octets := lossy (length bs) bs.

(** A sequence of whole characters. *)
Inductive utf8 : Octets → Prop :=
| utf8_nil : utf8 []
| utf8_char n bs : bs ≠ [] → next_char bs = Ok n → utf8 (drop n bs) → utf8 bs.

Lemma byte_at_nil n : byte_at [] n = 0%Z.
Proof. unfold byte_at. by destruct n. Qed.

Lemma byte_at_beyond bs n : length bs ≤ n → byte_at bs n = 0%Z.
Proof. intros Hn. unfold byte_at. by rewrite nth_overflow. Qed.

Lemma next_char_pos bs : match next_char bs with Ok n | Err n => 1 ≤ n end.
Proof. unfold next_char. repeat case_match; simplify_eq; lia. Qed.

(** A character is wholly there. *)
Lemma next_char_length bs n : bs ≠ [] → next_char bs = Ok n → n ≤ length bs.
Proof.
  intros Hbs Hn. assert (Hlen : 1 ≤ length bs) by (destruct bs; [done|simpl; lia]).
  assert (Hz : ∀ k, continuation (byte_at bs k) = true → k < length bs).
  { intros k Hk. destruct (decide (k < length bs)) as [|Hge]; [done|]. by rewrite byte_at_beyond in Hk by lia. }
  unfold next_char in Hn. repeat case_match; simplify_eq; try lia; by apply Hz.
Qed.

Lemma lossy_utf8 bs : utf8 bs → ∀ fuel, length bs ≤ fuel → lossy fuel bs = bs.
Proof.
  induction 1 as [|n bs Hbs Hn _ IH]; intros fuel Hf; [by destruct fuel|].
  pose proof (next_char_length _ _ Hbs Hn) as Hlen. pose proof (next_char_pos bs) as Hpos. rewrite Hn in Hpos.
  destruct fuel as [|fuel]; [destruct bs; [done|simpl in Hf; lia]|].
  destruct bs as [|b bs']; [done|]. change (lossy (S fuel) (b :: bs'))
    with (match next_char (b :: bs') with Ok n => take n (b :: bs') ++ lossy fuel (drop n (b :: bs'))
          | Err n => REPLACEMENT ++ lossy fuel (drop n (b :: bs')) end).
  rewrite Hn, IH; [apply take_drop|]. rewrite length_drop. simpl in *. lia.
Qed.

Lemma from_utf8_lossy_utf8 bs : utf8 bs → from_utf8_lossy bs = bs.
Proof. intros Hbs. by apply lossy_utf8. Qed.

Lemma utf8_app a b : utf8 a → utf8 b → utf8 (a ++ b).
Proof.
  intros Ha Hb. induction Ha as [|n a Hne Hn Ha IH]; [done|]. pose proof (next_char_length _ _ Hne Hn) as Hlen.
  apply (utf8_char n); [by destruct a| |by rewrite drop_app_le].
  destruct a as [|x a]; [done|]. revert Hn Hlen. unfold next_char, byte_at. simpl.
  destruct a as [|y [|z [|w a]]], b as [|? [|? [|? ?]]]; simpl; repeat case_match; intros ??; simplify_eq; try done; lia.
Qed.

Lemma utf8_repaired bs : utf8 (from_utf8_lossy bs).
Proof.
  unfold from_utf8_lossy. generalize (length bs) as fuel. intros fuel. revert bs.
  induction fuel as [|fuel IH]; intros bs; [apply utf8_nil|]. destruct bs as [|b bs]; [apply utf8_nil|].
  change (lossy (S fuel) (b :: bs)) with (match next_char (b :: bs) with Ok n => take n (b :: bs) ++ lossy fuel (drop n (b :: bs))
          | Err n => REPLACEMENT ++ lossy fuel (drop n (b :: bs)) end).
  destruct (next_char (b :: bs)) as [n|n] eqn:Hn.
  - apply utf8_app; [|apply IH]. pose proof (next_char_length (b :: bs) n ltac:(done) Hn) as Hlen.
    pose proof (next_char_pos (b :: bs)) as Hpos. rewrite Hn in Hpos.
    apply (utf8_char n); [by destruct n; [lia|]| |by rewrite drop_ge by (rewrite length_take; lia); apply utf8_nil].
    revert Hn Hlen. unfold next_char, byte_at. destruct n as [|[|[|[|[|n]]]]], bs as [|? [|? [|? ?]]]; simpl;
      repeat case_match; intros ??; simplify_eq; try done; lia.
  - apply utf8_app; [|apply IH]. apply (utf8_char 3); [done|reflexivity|apply utf8_nil].
Qed.

Lemma utf8_ascii_text (s : string) :
  Forall (λ b, byte_value b < 128)%Z (String.list_byte_of_string s) → utf8 (String.list_byte_of_string s).
Proof.
  generalize (String.list_byte_of_string s). induction 1 as [|b bs Hb _ IH]; [apply utf8_nil|].
  apply (utf8_char 1); [done| |by rewrite skipn_cons, drop_0]. unfold next_char, byte_at. simpl.
  by rewrite (proj2 (Z.ltb_lt _ _) Hb).
Qed.

(** ** Statuses ([status.rs]) *)

Record Status := mkStatus { st_code : Code; st_message : Octets }.

Definition status_new (code : Code) (message : string) : Status := mkStatus code (String.list_byte_of_string message).
Definition deadline_exceeded : Status := status_new CodeDeadlineExceeded "request deadline exceeded".
Definition resource_exhausted : Status := status_new CodeResourceExhausted "server request capacity exhausted".
Definition duplicate_request_id : Status := status_new CodeAlreadyExists "request id is already in flight".
Definition internal (detail : string) : Status := status_new CodeInternal detail.
Definition invalid_argument (detail : string) : Status := status_new CodeInvalidArgument detail.
Definition timeout_too_large : Status := status_new CodeInvalidArgument "request timeout exceeds the server limit".

(** [Status::from_wire] and [Status::into_wire_message]. *)
Definition status_from_wire (code : Code) (message : Octets) : Status := mkStatus code (from_utf8_lossy message).
Definition into_wire_message (s : Status) : Octets := st_message s.

(** A status whose text is a Rust string arrives as it was sent; whatever arrives
    becomes a Rust string. *)
Lemma status_round_trip s : utf8 (st_message s) → status_from_wire (st_code s) (into_wire_message s) = s.
Proof. intros Hs. destruct s as [code m]. unfold status_from_wire, into_wire_message. simpl in *. by rewrite from_utf8_lossy_utf8. Qed.

Lemma status_from_wire_utf8 code m : utf8 (st_message (status_from_wire code m)).
Proof. apply utf8_repaired. Qed.

(** ** Codecs ([codec.rs])

    [CodecError] and the trait [Codec<Out, In>]; what one end decodes is what the
    other encodes. *)
Inductive CodecError :=
| EncodeError (detail : string)
| DecodeError (detail : string).

Definition codec_error_text (e : CodecError) : string :=
  match e with EncodeError d => "encode failed: " +:+ d | DecodeError d => "decode failed: " +:+ d end.

Class Codec (Out In : Type) := {
  encode : Out → Res CodecError Octets;
  decode : Octets → Res CodecError In;
}.

(** [BincodeCodec] over the bincode library's encoder and decoder, of which the
    second also returns how many bytes it took. *)
Definition bincode_codec {Out In} (encode_into : Out → Res string Octets) (decode_from_slice : Octets → Res string (In * nat))
    : Codec Out In := {|
  encode message := match encode_into message with Ok b => Ok b | Err e => Err (EncodeError e) end;
  decode src :=
    match decode_from_slice src with
    | Err e => Err (DecodeError e)
    | Ok (message, consumed) =>
        if (consumed =? length src)%nat then Ok message
        else Err (DecodeError "trailing bytes after the decoded message")
    end;
|}.

(** ** The errors of a call ([error.rs]) *)

Inductive RpcError :=
| RpcCodec (e : CodecError)
| RequestTooLarge (bytes limit : Z)
| RpcDeadlineExceeded
| Remote (status : Status)
| RpcConnection (e : ConnectionError)
| RpcShutdown.

(** ** Contexts ([context.rs])

    An instant is in nanoseconds. *)
Record ClientContext := mkClientContext { cx_deadline : Z; cx_trace_id : Octets }.

Definition NANOS_PER_MICRO : Z := 1000.
Definition NANOS_PER_SECOND : Z := 1000 * 1000 * 1000.
Definition DEFAULT_TIMEOUT : Z := 10 * NANOS_PER_SECOND.

Definition with_deadline (deadline : Z) : ClientContext := mkClientContext deadline (replicate 16 x00).
Definition with_trace_id (c : ClientContext) (trace_id : Octets) : ClientContext := mkClientContext (cx_deadline c) trace_id.

(** [as_micros] of what is left until the deadline. *)
Definition remaining_micros (c : ClientContext) (now : Z) : Z :=
  let remaining := Z.max 0 (cx_deadline c - now) in
  if (remaining =? 0)%Z then 0 else Z.min (remaining / NANOS_PER_MICRO) u64_max.

(** The identity a layer of the server has established. *)
Record RpcPrincipal := mkRpcPrincipal { rp_user_id : string; rp_organization_id : option string }.

Record ServerContext := mkServerContext {
  sc_request_id : Z;
  sc_deadline : Z;
  sc_trace_id : Octets;
  sc_peer_addr : option string;
  sc_principal : option RpcPrincipal;
}.

(** [ServerContext::new]; its deadline is checked to be an instant. *)
Definition server_context (request_id timeout_micros : Z) (trace_id : Octets) (peer_addr : option string) (now : Z)
    : ServerContext :=
  mkServerContext request_id (now + timeout_micros * NANOS_PER_MICRO) trace_id peer_addr None.
Definition set_principal (c : ServerContext) (p : RpcPrincipal) : ServerContext :=
  mkServerContext (sc_request_id c) (sc_deadline c) (sc_trace_id c) (sc_peer_addr c) (Some p).
Definition child_context (c : ServerContext) : ClientContext := mkClientContext (sc_deadline c) (sc_trace_id c).

Lemma remaining_micros_u64 c now : in_u64 (remaining_micros c now).
Proof.
  unfold remaining_micros, in_u64, NANOS_PER_MICRO. destruct (_ =? 0)%Z; unfold u64_max; [lia|].
  pose proof (Z.div_pos (Z.max 0 (cx_deadline c - now)) 1000). lia.
Qed.

Lemma remaining_micros_zero c now : remaining_micros c now = 0%Z ↔ (cx_deadline c - now < NANOS_PER_MICRO)%Z.
Proof.
  unfold remaining_micros, NANOS_PER_MICRO. destruct (Z.eqb_spec (Z.max 0 (cx_deadline c - now)) 0) as [|Hn]; [lia|].
  unfold u64_max. pose proof (Z.div_small_iff (Z.max 0 (cx_deadline c - now)) 1000 ltac:(lia)).
  pose proof (Z.div_pos (Z.max 0 (cx_deadline c - now)) 1000). lia.
Qed.

(** What is sent is never more than what is left. *)
Lemma budget_within_deadline c now :
  (now ≤ cx_deadline c)%Z → (now + remaining_micros c now * NANOS_PER_MICRO ≤ cx_deadline c)%Z.
Proof.
  intros Hn. unfold remaining_micros, NANOS_PER_MICRO. destruct (_ =? 0)%Z; [lia|].
  pose proof (Z.mul_div_le (Z.max 0 (cx_deadline c - now)) 1000 ltac:(lia)). lia.
Qed.
