(* ===== verification/RpcClient.v ===== *)
(** The RPC client ([nagisalake-rpc/src/client.rs]): callers, the queues between
    them and the dispatcher, its tables of calls and deadlines, and the frames it
    hands to the writer, as one state that every task of the client changes in
    steps.  A step of the dispatcher is one turn of its [select!], up to the point
    where it waits; which branch is taken, the clock and what the reader and the
    writer report are labels.

    Main results: a call returns what the server answered to it, or an error that
    is true; no caller waits for a connection that has stopped, nor past its
    deadline; the tables stay within their limit and agree, so the dispatcher does
    not panic; an abandoned call is cancelled; the frames are valid, each request
    is sent once and cancelled at most once and afterwards. *)

From S2P Require Import Prelude Octets Frames Rpc.
From Stdlib Require Import ZArith Lia Strings.Byte.

(** ** Configuration *)

Record ClientConfig := mkClientConfig {
  cf_pending_request_buffer : Z;
  cf_max_in_flight_requests : Z;
  cf_outbound_frame_buffer : Z;
  cf_inbound_frame_buffer : Z;
  cf_frame : FrameConfig;
}.

Definition ClientConfig_default : ClientConfig := mkClientConfig 256 1024 256 256 FrameConfig_default.

Definition validate_client_config (c : ClientConfig) : Res ConfigError unit :=
  reject_if (cf_pending_request_buffer c =? 0)%Z (ConfigZero "pending_request_buffer") ;;
  reject_if (cf_max_in_flight_requests c =? 0)%Z (ConfigZero "max_in_flight_requests") ;;
  reject_if (cf_outbound_frame_buffer c =? 0)%Z (ConfigZero "outbound_frame_buffer") ;;
  reject_if (cf_inbound_frame_buffer c =? 0)%Z (ConfigZero "inbound_frame_buffer") ;;
  validate_frame_config (cf_frame c).

(** Largest encoded request the frame limit leaves room for. *)
Definition max_body_bytes (c : ClientConfig) : Z := Z.max 0 (fc_max_frame_bytes (cf_frame c) - Z.of_nat REQUEST_HEADER_LEN).

(** ** The state *)

(** [ResponseSlot]: what the dispatcher puts into a call's channel. *)
Definition ResponseSlot := Res RpcError (Octets + Status).

(** Where a call's future stands. [Sending]: in [requests.send], the guard built;
    [Waiting]: in [guard.wait]; [Dropping]: the guard's [Drop] has closed the
    channel and not sent the cancellation yet, [r] being what the future returns
    if it is not being dropped itself; then it is over. *)
Inductive CallPhase (Resp : Type) :=
| Sending
| Waiting
| Dropping (r : option (Res RpcError Resp))
| Finished (r : Res RpcError Resp)
| Abandoned.
Arguments Sending {Resp}.
Arguments Waiting {Resp}.
Arguments Dropping {Resp}.
Arguments Finished {Resp}.
Arguments Abandoned {Resp}.

(** A call: the locals of its future and the value in its channel. *)
Record Call (Req Resp : Type) := mkCall {
  ca_request : Req;
  ca_context : ClientContext;
  ca_body : Octets;
  ca_phase : CallPhase Resp;
  ca_value : option ResponseSlot;
}.
Arguments mkCall {Req Resp}.
Arguments ca_request {Req Resp}.
Arguments ca_context {Req Resp}.
Arguments ca_body {Req Resp}.
Arguments ca_phase {Req Resp}.
Arguments ca_value {Req Resp}.

(** The sender of the response is that of the call with the request's id. *)
Record DispatchRequest := mkDispatchRequest { dq_context : ClientContext; dq_request_id : Z; dq_body : Octets }.

Record Pending := mkPending { pe_deadline_key : nat }.

(** [SendingFrame]: in [outgoing.send]; [Stopped]: [dispatch] has returned. *)
Inductive Dispatcher :=
| Selecting
| SendingFrame (f : ClientFrame)
| Stopped (error : option ConnectionError)
| Panicked.

(** What the writer task returned. *)
Inductive WriterResult :=
| WriterOk
| WriterErr (e : ConnectionError)
| WriterPanicked (text : string).

(** [rc_deadlines] is the [DelayQueue]: its keys, each with the id and the instant
    inserted. [rc_sent] is what [outgoing] was sent, of which the writer has taken
    the first [rc_taken]. [rc_clients]: a handle exists. *)
Record RpcClient (Req Resp : Type) := mkRpcClient {
  rc_clients : bool;
  rc_next_id : Z;
  rc_calls : gmap Z (Call Req Resp);
  rc_requests : list DispatchRequest;
  rc_cancellations : list Z;
  rc_dispatcher : Dispatcher;
  rc_accepting : bool;
  rc_in_flight : gmap Z Pending;
  rc_deadlines : gmap nat (Z * Z);
  rc_sent : list ClientFrame;
  rc_taken : nat;
  rc_writer : option WriterResult;
}.
Arguments mkRpcClient {Req Resp}.
Arguments rc_clients {Req Resp}.
Arguments rc_next_id {Req Resp}.
Arguments rc_calls {Req Resp}.
Arguments rc_requests {Req Resp}.
Arguments rc_cancellations {Req Resp}.
Arguments rc_dispatcher {Req Resp}.
Arguments rc_accepting {Req Resp}.
Arguments rc_in_flight {Req Resp}.
Arguments rc_deadlines {Req Resp}.
Arguments rc_sent {Req Resp}.
Arguments rc_taken {Req Resp}.
Arguments rc_writer {Req Resp}.

Section client.
Context {Req Resp : Type} `{!Codec Req Resp} (config : ClientConfig).
(** How far ahead a [DelayQueue] may be asked to wait; beyond it panics. *)
Context (delay_limit : Z).
#[local] Abbreviation Client := (RpcClient Req Resp).

Definition with_calls (c : Client) m : Client := mkRpcClient (rc_clients c) (rc_next_id c) m (rc_requests c) (rc_cancellations c)
  (rc_dispatcher c) (rc_accepting c) (rc_in_flight c) (rc_deadlines c) (rc_sent c) (rc_taken c) (rc_writer c).
Definition with_requests (c : Client) q : Client := mkRpcClient (rc_clients c) (rc_next_id c) (rc_calls c) q (rc_cancellations c)
  (rc_dispatcher c) (rc_accepting c) (rc_in_flight c) (rc_deadlines c) (rc_sent c) (rc_taken c) (rc_writer c).
Definition with_cancellations (c : Client) q : Client := mkRpcClient (rc_clients c) (rc_next_id c) (rc_calls c) (rc_requests c) q
  (rc_dispatcher c) (rc_accepting c) (rc_in_flight c) (rc_deadlines c) (rc_sent c) (rc_taken c) (rc_writer c).
Definition with_dispatcher (c : Client) d : Client := mkRpcClient (rc_clients c) (rc_next_id c) (rc_calls c) (rc_requests c) (rc_cancellations c)
  d (rc_accepting c) (rc_in_flight c) (rc_deadlines c) (rc_sent c) (rc_taken c) (rc_writer c).
Definition with_tables (c : Client) m d : Client := mkRpcClient (rc_clients c) (rc_next_id c) (rc_calls c) (rc_requests c) (rc_cancellations c)
  (rc_dispatcher c) (rc_accepting c) m d (rc_sent c) (rc_taken c) (rc_writer c).
Definition with_frames (c : Client) sent taken writer : Client := mkRpcClient (rc_clients c) (rc_next_id c) (rc_calls c) (rc_requests c)
  (rc_cancellations c) (rc_dispatcher c) (rc_accepting c) (rc_in_flight c) (rc_deadlines c) sent taken writer.

(** [spawn_client]: ids start at 1. *)
Definition spawn_client : Client := mkRpcClient true 1 ∅ [] [] Selecting true ∅ ∅ [] 0 None.

(** *** Channels *)

Definition is_waiting (p : CallPhase Resp) : bool := match p with Sending | Waiting => true | _ => false end.

(** [Sender::is_closed] of a call's channel. *)
Definition is_closed (c : Client) (id : Z) : bool :=
  match rc_calls c !! id with Some ca => negb (is_waiting (ca_phase ca)) | None => true end.

Definition set_phase (p : CallPhase Resp) (ca : Call Req Resp) : Call Req Resp :=
  mkCall (ca_request ca) (ca_context ca) (ca_body ca) p (ca_value ca).
Definition set_value (v : ResponseSlot) (ca : Call Req Resp) : Call Req Resp :=
  mkCall (ca_request ca) (ca_context ca) (ca_body ca) (ca_phase ca) (Some v).

(** [let _ = response.send(v)]: a closed channel drops the value. *)
Definition offer (v : ResponseSlot) (ca : Call Req Resp) : Call Req Resp :=
  if is_waiting (ca_phase ca) then set_value v ca else ca.
Definition respond (id : Z) (v : ResponseSlot) (c : Client) : Client := with_calls c (alter (offer v) id (rc_calls c)).

(** The dispatcher's ends of the channels exist. *)
Definition running (c : Client) : bool :=
  match rc_dispatcher c with Selecting | SendingFrame _ => true | Stopped _ | Panicked => false end.

(** The sender of a call's response exists: in the queue or in the table. *)
Definition sender_live (c : Client) (id : Z) : bool :=
  bool_decide (id ∈ dq_request_id <$> rc_requests c) || bool_decide (is_Some (rc_in_flight c !! id)).

(** *** Callers *)

(** [call] up to the guard. *)
Definition start_call (context : ClientContext) (request : Req) (c : Client) : Res RpcError (Z * Client) :=
  body ← match encode request with Ok b => Ok b | Err e => Err (RpcCodec e) end;
  reject_if (max_body_bytes config <? Z.of_nat (length body))%Z
    (RequestTooLarge (Z.of_nat (length body)) (max_body_bytes config)) ;;
  let request_id := rc_next_id c in
  Ok (request_id,
      mkRpcClient (rc_clients c) (u64_wrapping_add request_id 1) (<[request_id := mkCall request context body Sending None]> (rc_calls c))
        (rc_requests c) (rc_cancellations c) (rc_dispatcher c) (rc_accepting c) (rc_in_flight c) (rc_deadlines c) (rc_sent c)
        (rc_taken c) (rc_writer c)).

(** [requests.send(..)] gets through. *)
Definition enqueue_call (id : Z) (c : Client) : option Client :=
  ca ← rc_calls c !! id;
  match ca_phase ca with
  | Sending =>
      if running c && (Z.of_nat (length (rc_requests c)) <? cf_pending_request_buffer config)%Z then
        Some (with_calls (with_requests c (rc_requests c ++ [mkDispatchRequest (ca_context ca) id (ca_body ca)]))
                (<[id := set_phase Waiting ca]> (rc_calls c)))
      else None
  | _ => None
  end.

(** What the future returns for the value of its channel. *)
Definition call_result (v : ResponseSlot) : Res RpcError Resp :=
  match v with
  | Ok (inl body) => match decode body with Ok r => Ok r | Err e => Err (RpcCodec e) end
  | Ok (inr status) => Err (Remote status)
  | Err e => Err e
  end.

(** The future is polled: [send] fails on a closed queue, and the guard is dropped;
    [wait] returns a value, or the error of a sender that is gone. *)
Definition poll_call (id : Z) (c : Client) : option Client :=
  ca ← rc_calls c !! id;
  p ← match ca_phase ca with
      | Sending => if running c then None else Some (Dropping (Some (Err RpcShutdown)))
      | Waiting =>
          match ca_value ca with
          | Some v => Some (Finished (call_result v))
          | None => if sender_live c id then None else Some (Finished (Err RpcShutdown))
          end
      | _ => None
      end;
  Some (with_calls c (<[id := set_phase p ca]> (rc_calls c))).

(** The future is dropped: the guard's [Drop], first half and second half. *)
Definition drop_call (id : Z) (c : Client) : option Client :=
  ca ← rc_calls c !! id;
  if is_waiting (ca_phase ca) then Some (with_calls c (<[id := set_phase (Dropping None) ca]> (rc_calls c))) else None.
Definition send_cancellation (id : Z) (c : Client) : option Client :=
  ca ← rc_calls c !! id;
  match ca_phase ca with
  | Dropping r =>
      let c' := with_calls c (<[id := set_phase (match r with Some r => Finished r | None => Abandoned end) ca]> (rc_calls c)) in
      Some (if running c then with_cancellations c' (rc_cancellations c ++ [id]) else c')
  | _ => None
  end.

(** A call borrows its client, so the last handle goes after the last call. *)
Definition call_over (p : CallPhase Resp) : bool := match p with Finished _ | Abandoned => true | _ => false end.
Definition drop_clients (c : Client) : option Client :=
  if bool_decide (map_Forall (λ _ ca, call_over (ca_phase ca) = true) (rc_calls c)) then
    Some (mkRpcClient false (rc_next_id c) (rc_calls c) (rc_requests c) (rc_cancellations c) (rc_dispatcher c) (rc_accepting c)
            (rc_in_flight c) (rc_deadlines c) (rc_sent c) (rc_taken c) (rc_writer c))
  else None.

(** *** The dispatcher *)

(** [deadlines.insert_at] gives a key no entry has; [deadlines.remove] panics
    without the entry. *)
Definition insert_deadline (id deadline : Z) (m : gmap nat (Z * Z)) : nat * gmap nat (Z * Z) :=
  let key := fresh (dom m) in (key, <[key := (id, deadline)]> m).
Definition remove_deadline (key : nat) (m : gmap nat (Z * Z)) : option (gmap nat (Z * Z)) :=
  if decide (is_Some (m !! key)) then Some (delete key m) else None.

(** [in_flight.drain()] and the queued requests, each answered with the error. *)
Definition fail_calls (e : ConnectionError) (ids : list Z) (c : Client) : Client :=
  foldl (λ c id, respond id (Err (RpcConnection e)) c) c ids.

(** What [dispatch] does after its loop; returning drops its queues and tables. *)
Definition finish (error : option ConnectionError) (c : Client) : Client :=
  let c := match error with
           | Some e => fail_calls e (dq_request_id <$> rc_requests c) (fail_calls e ((map_to_list (rc_in_flight c)).*1) c)
           | None => c
           end in
  with_dispatcher (with_cancellations (with_requests (with_tables c ∅ ∅) []) []) (Stopped error).

(** A panic of the dispatcher's task: everything it holds is dropped. *)
Definition panic (c : Client) : Client :=
  with_dispatcher (with_cancellations (with_requests (with_tables c ∅ ∅) []) []) Panicked.

(** The head of the loop. *)
Definition loop_top (c : Client) : Client :=
  if negb (rc_accepting c) && bool_decide (rc_in_flight c = ∅) then finish None c else with_dispatcher c Selecting.

Definition stop_accepting (c : Client) : Client := mkRpcClient (rc_clients c) (rc_next_id c) (rc_calls c) (rc_requests c)
  (rc_cancellations c) (rc_dispatcher c) false (rc_in_flight c) (rc_deadlines c) (rc_sent c) (rc_taken c) (rc_writer c).

Definition pull_request (now : Z) (c : Client) : option Client :=
  if rc_accepting c && (Z.of_nat (size (rc_in_flight c)) <? cf_max_in_flight_requests config)%Z then
    match rc_requests c with
    | [] =>
        if rc_clients c then None
        else Some (loop_top (stop_accepting c))
    | request :: rest =>
        let c := with_requests c rest in
        let id := dq_request_id request in
        if is_closed c id then Some (loop_top c)
        else
          let timeout_micros := remaining_micros (dq_context request) now in
          if (timeout_micros =? 0)%Z then Some (loop_top (respond id (Err RpcDeadlineExceeded) c))
          else if (now + delay_limit <? cx_deadline (dq_context request))%Z then Some (panic c)
          else
            let '(key, deadlines) := insert_deadline id (cx_deadline (dq_context request)) (rc_deadlines c) in
            Some (with_dispatcher (with_tables c (<[id := mkPending key]> (rc_in_flight c)) deadlines)
                    (SendingFrame (FRequest id timeout_micros (cx_trace_id (dq_context request)) (dq_body request))))
    end
  else None.

Definition pull_cancellation (c : Client) : option Client :=
  match rc_cancellations c with
  | [] => if rc_clients c then None else Some (loop_top c)
  | id :: rest =>
      let c := with_cancellations c rest in
      match rc_in_flight c !! id with
      | None => Some (loop_top c)
      | Some pending =>
          Some match remove_deadline (pe_deadline_key pending) (rc_deadlines c) with
               | None => panic c
               | Some deadlines => with_dispatcher (with_tables c (delete id (rc_in_flight c)) deadlines) (SendingFrame (FCancel id))
               end
      end
  end.

(** [None] is the end of the reader's channel. *)
Definition receive (event : option (ReadEvent ServerFrame)) (c : Client) : Client :=
  match event with
  | Some (EvFrame (FResponse id code body)) =>
      match rc_in_flight c !! id with
      | None => loop_top c
      | Some pending =>
          match remove_deadline (pe_deadline_key pending) (rc_deadlines c) with
          | None => panic c
          | Some deadlines =>
              let outcome := match code with None => inl body | Some code => inr (status_from_wire code body) end in
              loop_top (respond id (Ok outcome) (with_tables c (delete id (rc_in_flight c)) deadlines))
          end
      end
  | Some EvClosed | None => finish (Some (connection_closed "RPC peer closed the connection")) c
  | Some (EvFailed error) => finish (Some error) c
  end.

(** The queue yields an entry that is due. *)
Definition expire (key : nat) (now : Z) (c : Client) : option Client :=
  entry ← rc_deadlines c !! key;
  let '(id, deadline) := entry in
  if (now <? deadline)%Z then None
  else
    let deadlines := delete key (rc_deadlines c) in
    Some match rc_in_flight c !! id with
         | None => loop_top (with_tables c (rc_in_flight c) deadlines)
         | Some _ =>
             with_dispatcher (respond id (Err RpcDeadlineExceeded) (with_tables c (delete id (rc_in_flight c)) deadlines))
               (SendingFrame (FCancel id))
         end.

Definition writer_error (r : WriterResult) : ConnectionError :=
  match r with
  | WriterOk => connection_closed "RPC writer stopped"
  | WriterErr error => error
  | WriterPanicked error => connection_runtime ("RPC writer task failed: " +:+ error)
  end.

(** [outgoing.send(frame)]: waits for room, and fails when the writer is gone. *)
Definition send_frame (f : ClientFrame) (c : Client) : option Client :=
  match rc_writer c with
  | Some _ => Some (finish (Some (connection_closed "RPC writer stopped")) c)
  | None =>
      if (Z.of_nat (length (rc_sent c) - rc_taken c) <? cf_outbound_frame_buffer config)%Z
      then Some (loop_top (with_frames c (rc_sent c ++ [f]) (rc_taken c) None))
      else None
  end.

(** *** Steps *)

Inductive ClientStep :=
| StartCall (context : ClientContext) (request : Req)
| EnqueueCall (id : Z)
| PollCall (id : Z)
| DropCall (id : Z)
| SendCancellation (id : Z)
| DropClients
| PullRequest (now : Z)
| PullCancellation
| Receive (event : option (ReadEvent ServerFrame))
| Expire (key : nat) (now : Z)
| JoinWriter
| FrameSent
| WriterTakes
| WriterEnds (r : WriterResult).

(** A branch of [select!]. *)
Definition select (branch : Client → option Client) (c : Client) : option Client :=
  match rc_dispatcher c with Selecting => branch c | _ => None end.

Definition client_step (l : ClientStep) (c : Client) : option Client :=
  match l with
  | StartCall context request =>
      if rc_clients c then match start_call context request c with Ok (_, c) => Some c | Err _ => Some c end else None
  | EnqueueCall id => enqueue_call id c
  | PollCall id => poll_call id c
  | DropCall id => drop_call id c
  | SendCancellation id => send_cancellation id c
  | DropClients => drop_clients c
  | PullRequest now => select (pull_request now) c
  | PullCancellation => select pull_cancellation c
  | Receive event => select (λ c, Some (receive event c)) c
  | Expire key now => select (expire key now) c
  | JoinWriter => select (λ c, (λ r, finish (Some (writer_error r)) c) <$> rc_writer c) c
  | FrameSent => match rc_dispatcher c with SendingFrame f => send_frame f c | _ => None end
  | WriterTakes =>
      if bool_decide (rc_writer c = None) && (rc_taken c <? length (rc_sent c))%nat
      then Some (with_frames c (rc_sent c) (S (rc_taken c)) None) else None
  | WriterEnds r => if bool_decide (rc_writer c = None) then Some (with_frames c (rc_sent c) (rc_taken c) (Some r)) else None
  end.

(** A step that is not possible is not taken. *)
Definition client_run (steps : list ClientStep) (c : Client) : Client :=
  foldl (λ c l, default c (client_step l c)) c steps.
End client.

(** ** The frames of a connection *)

(** The ids of the requests and of the cancellations among frames. *)
Definition requested (l : list ClientFrame) : list Z := omap (λ f, match f with FRequest id _ _ _ => Some id | _ => None end) l.
Definition cancelled_ids (l : list ClientFrame) : list Z := omap (λ f, match f with FCancel id => Some id | _ => None end) l.

(** Every request once, every cancellation at most once and after its request. *)
Inductive wire_ok : list ClientFrame → Prop :=
| wire_nil : wire_ok []
| wire_request l id timeout_micros trace_id body :
    wire_ok l → id ∉ requested l → wire_ok (l ++ [FRequest id timeout_micros trace_id body])
| wire_cancel l id : wire_ok l → id ∈ requested l → id ∉ cancelled_ids l → wire_ok (l ++ [FCancel id]).

Lemma requested_app l m : requested (l ++ m) = requested l ++ requested m.
Proof. apply omap_app. Qed.
Lemma cancelled_ids_app l m : cancelled_ids (l ++ m) = cancelled_ids l ++ cancelled_ids m.
Proof. apply omap_app. Qed.

Lemma wire_ok_init l f : wire_ok (l ++ [f]) → wire_ok l.
Proof. inversion 1 as [He|? ? ? ? ? ? ? He|? ? ? ? ? He]; [by destruct l|by apply app_inj_2 in He as [-> _]..]. Qed.

Lemma wire_ok_requests l : wire_ok l → NoDup (requested l).
Proof.
  induction 1 as [|l id t tr b _ IH Hid|l id _ IH _ _]; [constructor| |]; rewrite requested_app; simpl.
  - apply NoDup_app. split; [done|]. split; [|apply NoDup_singleton]. intros x Hx ->%list_elem_of_singleton. done.
  - by rewrite app_nil_r.
Qed.

Lemma wire_ok_cancels l : wire_ok l → NoDup (cancelled_ids l) ∧ ∀ id, id ∈ cancelled_ids l → id ∈ requested l.
Proof.
  induction 1 as [|l id t tr b _ [IH1 IH2] Hid|l id _ [IH1 IH2] Hr Hid].
  - split; [constructor|]. by intros id Hid%not_elem_of_nil.
  - rewrite cancelled_ids_app, requested_app. simpl. rewrite app_nil_r. split; [done|]. intros i Hi. apply elem_of_app. left. by apply IH2.
  - rewrite cancelled_ids_app, requested_app. simpl. rewrite app_nil_r. split.
    + apply NoDup_app. split; [done|]. split; [|apply NoDup_singleton]. by intros x Hx ->%list_elem_of_singleton.
    + intros i [Hi| ->%list_elem_of_singleton]%elem_of_app; [by apply IH2|done].
Qed.

(** ** The tables *)

(** The calls in flight and the deadlines are the same calls. *)
Definition tables_ok (in_flight : gmap Z Pending) (deadlines : gmap nat (Z * Z)) : Prop :=
  (∀ id p, in_flight !! id = Some p → ∃ d, deadlines !! pe_deadline_key p = Some (id, d))
  ∧ (∀ key id d, deadlines !! key = Some (id, d) → in_flight !! id = Some (mkPending key)).

Lemma tables_insert id d in_flight deadlines key deadlines' :
  insert_deadline id d deadlines = (key, deadlines') → tables_ok in_flight deadlines → in_flight !! id = None →
  deadlines !! key = None ∧ deadlines' = <[key := (id, d)]> deadlines ∧ tables_ok (<[id := mkPending key]> in_flight) deadlines'.
Proof.
  intros [= <- <-] [Hf Hd] Hid.
  assert (Hkey : deadlines !! fresh (dom deadlines) = None) by apply not_elem_of_dom, is_fresh.
  generalize dependent (fresh (dom deadlines)). intros key Hkey. split; [done|]. split; [done|]. split.
  - intros i p Hp. destruct (decide (i = id)) as [->|Hne].
    + rewrite lookup_insert_eq in Hp. injection Hp as <-. exists d. apply lookup_insert_eq.
    + rewrite lookup_insert_ne in Hp by done. destruct (Hf i p Hp) as [e He]. exists e.
      rewrite lookup_insert_ne; [done|]. congruence.
  - intros k i e He. destruct (decide (k = key)) as [->|Hne].
    + rewrite lookup_insert_eq in He. injection He as <- <-. apply lookup_insert_eq.
    + rewrite lookup_insert_ne in He by done. apply Hd in He. rewrite lookup_insert_ne; [done|]. intros <-. congruence.
Qed.

Lemma tables_delete id key d in_flight deadlines :
  tables_ok in_flight deadlines → deadlines !! key = Some (id, d) → tables_ok (delete id in_flight) (delete key deadlines).
Proof.
  intros [Hf Hd] Hk. pose proof (Hd key id d Hk) as Hid. split.
  - intros i p [Hne Hp]%lookup_delete_Some. destruct (Hf i p Hp) as [e He]. exists e. apply lookup_delete_Some.
    split; [|done]. congruence.
  - intros k i e [Hne He]%lookup_delete_Some. pose proof (Hd k i e He) as Hi. apply lookup_delete_Some.
    split; [|done]. intros <-. congruence.
Qed.

Lemma tables_remove id p in_flight deadlines :
  tables_ok in_flight deadlines → in_flight !! id = Some p →
  ∃ d, deadlines !! pe_deadline_key p = Some (id, d) ∧ remove_deadline (pe_deadline_key p) deadlines = Some (delete (pe_deadline_key p) deadlines).
Proof.
  intros [Hf _] Hp. destruct (Hf id p Hp) as [d Hd]. exists d. split; [done|]. unfold remove_deadline.
  rewrite decide_True; [done|by eexists].
Qed.

Lemma tables_empty : tables_ok ∅ ∅.
Proof. split; intros *; by rewrite lookup_empty. Qed.

(** ** The invariant *)

Section invariant.
Context {Req Resp : Type} `{!Codec Req Resp} (config : ClientConfig) (delay_limit : Z).
#[local] Abbreviation Client := (RpcClient Req Resp).
Implicit Types (c : Client) (ca : Call Req Resp).

Definition queued c : list Z := dq_request_id <$> rc_requests c.
(** The frames sent and the one the dispatcher is sending. *)
Definition frame_log c : list ClientFrame :=
  rc_sent c ++ match rc_dispatcher c with SendingFrame f => [f] | _ => [] end.
Definition flying c (id : Z) : Prop := is_Some (rc_in_flight c !! id).

(** Where a call is for the dispatcher, whatever its caller does meanwhile. *)
Definition call_ok c (id : Z) (ca : Call Req Resp) : Prop :=
  (id ∈ queued c → ca_phase ca ≠ Sending ∧ ca_value ca = None ∧ id ∉ requested (frame_log c))
  ∧ (flying c id → ca_phase ca ≠ Sending ∧ ca_value ca = None ∧ id ∈ requested (frame_log c)
      ∧ id ∉ cancelled_ids (frame_log c))
  ∧ (flying c id → is_waiting (ca_phase ca) = false → (∃ r, ca_phase ca = Dropping r) ∨ id ∈ rc_cancellations c)
  ∧ (id ∈ requested (frame_log c) → ca_phase ca ≠ Sending)
  ∧ (running c = true → ca_phase ca = Waiting → ca_value ca = None → id ∈ queued c ∨ flying c id)
  ∧ (encode (ca_request ca) = Ok (ca_body ca) ∧ (Z.of_nat (length (ca_body ca)) ≤ max_body_bytes config)%Z)
  ∧ (∀ key d, rc_deadlines c !! key = Some (id, d) → d = cx_deadline (ca_context ca)).

(** [n] bounds the calls so far, so that ids do not wrap. *)
Record client_pre (n : Z) c : Prop := {
  in_next : (1 ≤ rc_next_id c ≤ n + 1)%Z;
  in_calls : ∀ id, is_Some (rc_calls c !! id) → (1 ≤ id < rc_next_id c)%Z;
  in_known : ∀ id, id ∈ queued c ∨ flying c id ∨ id ∈ requested (frame_log c) → is_Some (rc_calls c !! id);
  in_call : ∀ id ca, rc_calls c !! id = Some ca → call_ok c id ca;
  in_queue : NoDup (queued c);
  in_request : ∀ q, q ∈ rc_requests c → ∃ ca, rc_calls c !! dq_request_id q = Some ca
    ∧ dq_context q = ca_context ca ∧ dq_body q = ca_body ca;
  in_tables : tables_ok (rc_in_flight c) (rc_deadlines c);
  in_size : (Z.of_nat (size (rc_in_flight c)) ≤ Z.max 0 (cf_max_in_flight_requests config))%Z;
  in_log : wire_ok (frame_log c);
  in_frame : ∀ id t tr b, FRequest id t tr b ∈ frame_log c → (1 ≤ t ≤ u64_max)%Z
    ∧ ∃ ca, rc_calls c !! id = Some ca ∧ tr = cx_trace_id (ca_context ca) ∧ b = ca_body ca;
  in_stopped : running c = false → rc_requests c = [] ∧ rc_in_flight c = ∅;
  in_accepting : rc_accepting c = false → rc_requests c = [] ∧ rc_clients c = false;
  in_values : ∀ id ca v, rc_calls c !! id = Some ca → ca_value ca = Some v → ca_phase ca ≠ Sending;
  in_cancel : ∀ id, id ∈ rc_cancellations c → ∃ ca, rc_calls c !! id = Some ca ∧ call_over (ca_phase ca) = true;
  in_clients : rc_clients c = false → ∀ id ca, rc_calls c !! id = Some ca → call_over (ca_phase ca) = true;
}.
(** The dispatcher ends when nothing can come any more. *)
Definition client_inv (n : Z) c : Prop :=
  client_pre n c ∧ (rc_dispatcher c = Selecting → rc_accepting c = true ∨ rc_in_flight c ≠ ∅).

(** *** Answers *)

Lemma offer_same v ca : ca_request (offer v ca) = ca_request ca ∧ ca_context (offer v ca) = ca_context ca
  ∧ ca_body (offer v ca) = ca_body ca ∧ ca_phase (offer v ca) = ca_phase ca
  ∧ ca_value (offer v ca) = if is_waiting (ca_phase ca) then Some v else ca_value ca.
Proof. unfold offer. by destruct (is_waiting _). Qed.

(** The calls with other values in some channels. *)
Definition revalued (m m' : gmap Z (Call Req Resp)) : Prop :=
  ∀ id, option_Forall2 (λ ca ca', ca_request ca' = ca_request ca ∧ ca_context ca' = ca_context ca ∧ ca_body ca' = ca_body ca
    ∧ ca_phase ca' = ca_phase ca ∧ (ca_phase ca = Sending → ca_value ca' = ca_value ca)) (m !! id) (m' !! id).

#[local] Instance revalued_preorder : PreOrder revalued.
Proof.
  split.
  - intros m id. destruct (m !! id); by constructor.
  - intros m1 m2 m3 H12 H23 id. specialize (H12 id). specialize (H23 id).
    destruct H12 as [ca1 ca2 (?&?&?&Hp&Hv)|]; inversion H23 as [? ca3 (?&?&?&?&Hv')|]; subst; constructor.
    split_and!; try congruence. intros Hs. rewrite Hv' by congruence. by apply Hv.
Qed.

(** The dispatcher has the sender of the call's response, or had it. *)
Definition left_caller c (id : Z) : Prop := ∀ ca, rc_calls c !! id = Some ca → ca_phase ca ≠ Sending.

Lemma revalued_respond id v c : left_caller c id → revalued (rc_calls c) (rc_calls (respond id v c)).
Proof.
  intros Hl j. simpl. rewrite lookup_alter. case_decide as Hj; [|by destruct (_ !! j); constructor]. subst j.
  unfold left_caller in Hl. destruct (rc_calls c !! id) as [ca|]; constructor. destruct (offer_same v ca) as (?&?&?&?&_).
  split_and!; try done. intros Hs. by destruct (Hl ca).
Qed.

Lemma revalued_left c m id : revalued (rc_calls c) m → left_caller c id → left_caller (with_calls c m) id.
Proof.
  intros Hm Hl ca' Hc. specialize (Hm id). simpl in Hc. rewrite Hc in Hm. inversion Hm as [ca ? (_ & _ & _ & Hp & _) He|]; subst.
  rewrite Hp. by apply Hl.
Qed.

Lemma fail_calls_eq e ids c :
  (∀ id, id ∈ ids → left_caller c id) → ∃ m, fail_calls e ids c = with_calls c m ∧ revalued (rc_calls c) m.
Proof.
  unfold fail_calls. revert c. induction ids as [|id ids IH]; intros c Hl; simpl.
  - exists (rc_calls c). split; [by destruct c|done].
  - pose proof (revalued_respond id (Err (RpcConnection e)) c (Hl id (list_elem_of_here _ _))) as Hr.
    destruct (IH (respond id (Err (RpcConnection e)) c)) as (m & -> & Hm).
    { intros j Hj. apply (revalued_left c _ j Hr), Hl. by right. }
    exists m. split; [done|]. by etrans.
Qed.

Lemma finish_eq n error c : client_pre n c → ∃ m, revalued (rc_calls c) m
  ∧ finish error c = mkRpcClient (rc_clients c) (rc_next_id c) m [] [] (Stopped error) (rc_accepting c) ∅ ∅ (rc_sent c)
      (rc_taken c) (rc_writer c).
Proof.
  intros H. unfold finish. destruct error as [e|]; [|by exists (rc_calls c)].
  destruct (fail_calls_eq e ((map_to_list (rc_in_flight c)).*1) c) as (m1 & -> & Hm1).
  { intros id Hid ca Hc. apply list_elem_of_fmap in Hid as ([? p] & -> & Hp%elem_of_map_to_list).
    destruct (in_call _ _ H _ ca Hc) as (_ & F & _). apply F. by eexists. }
  destruct (fail_calls_eq e (dq_request_id <$> rc_requests c) (with_calls c m1)) as (m2 & -> & Hm2).
  { intros id Hid. apply (revalued_left c m1 id Hm1). intros ca Hc. destruct (in_call _ _ H id ca Hc) as (Q & _). by apply Q. }
  exists m2. split; [by etrans|done].
Qed.

Lemma revalued_Some m m' id ca' : revalued m m' → m' !! id = Some ca' →
  ∃ ca, m !! id = Some ca ∧ ca_request ca' = ca_request ca ∧ ca_context ca' = ca_context ca ∧ ca_body ca' = ca_body ca
    ∧ ca_phase ca' = ca_phase ca.
Proof. intros Hm Hc. specialize (Hm id). rewrite Hc in Hm. inversion Hm as [ca ? (?&?&?&?&_)|]; subst. by exists ca. Qed.
Lemma revalued_values c m : revalued (rc_calls c) m → (∀ id ca v, rc_calls c !! id = Some ca → ca_value ca = Some v → ca_phase ca ≠ Sending) →
  ∀ id ca v, m !! id = Some ca → ca_value ca = Some v → ca_phase ca ≠ Sending.
Proof.
  intros Hm H id ca' v Hc Hv Hs. specialize (Hm id). rewrite Hc in Hm. inversion Hm as [ca ? (_ & _ & _ & Hp & Hx)|]; subst.
  apply (H id ca v); [done| |congruence]. rewrite <- Hx; congruence.
Qed.
Lemma revalued_None m m' id : revalued m m' → is_Some (m !! id) → is_Some (m' !! id).
Proof. intros Hm [ca Hc]. specialize (Hm id). rewrite Hc in Hm. inversion Hm. by eexists. Qed.

(** *** The end of the loop *)

(** However it ends, what is left is a stopped client with empty tables. *)
Lemma stopped_inv n c m d :
  client_pre n c → revalued (rc_calls c) m → (d = Panicked ∨ ∃ e, d = Stopped e) →
  client_inv n (mkRpcClient (rc_clients c) (rc_next_id c) m [] [] d (rc_accepting c) ∅ ∅ (rc_sent c) (rc_taken c) (rc_writer c)).
Proof.
  intros H Hm Hd. set (c' := mkRpcClient _ _ _ _ _ _ _ _ _ _ _ _).
  assert (Hrun : running c' = false) by by destruct Hd as [->|[e ->]].
  assert (Hlog : frame_log c' = rc_sent c) by (unfold frame_log, c'; simpl; destruct Hd as [->|[e ->]]; by rewrite app_nil_r).
  assert (Hreq : ∀ id, id ∈ requested (rc_sent c) → id ∈ requested (frame_log c)).
  { intros id Hid. unfold frame_log. rewrite requested_app. apply elem_of_app. by left. }
  split; [|unfold c'; simpl; destruct Hd as [->|[e ->]]; done]. split; rewrite ?Hlog; simpl.
  - apply H.
  - intros id [ca' Hc]. apply (in_calls _ _ H). destruct (revalued_Some _ _ _ _ Hm Hc) as (ca & Hc' & _). by eexists.
  - intros id Hid. eapply revalued_None; [exact Hm|]. apply (in_known _ _ H).
    destruct Hid as [Hid%not_elem_of_nil|[[p Hp]|Hid]]; [done| |auto]. unfold flying in Hp. simpl in Hp. by rewrite lookup_empty in Hp.
  - intros id ca' Hc. destruct (revalued_Some _ _ _ _ Hm Hc) as (ca & Hc' & Hq & Hx & Hb & Hp).
    destruct (in_call _ _ H _ _ Hc') as (_ & _ & _ & K & _ & B & _). unfold call_ok, flying, queued. rewrite Hrun, Hlog. simpl.
    rewrite lookup_empty, Hq, Hb, Hp. split_and!; try apply B.
    + by intros Hq'%not_elem_of_nil.
    + by intros [].
    + by intros [].
    + auto.
    + done.
    + intros key d'. by rewrite lookup_empty.
  - constructor.
  - by intros q Hq%not_elem_of_nil.
  - apply tables_empty.
  - rewrite map_size_empty. lia.
  - pose proof (in_log _ _ H) as Hw. unfold frame_log in Hw. destruct (rc_dispatcher c); try by rewrite app_nil_r in Hw.
    by apply wire_ok_init in Hw.
  - intros id t tr b Hf. destruct (in_frame _ _ H id t tr b) as (Ht & ca & Hc & Htr & Hb).
    { unfold frame_log. apply elem_of_app. by left. }
    split; [done|]. pose proof (Hm id) as Hid. rewrite Hc in Hid. inversion Hid as [? ca' (_ & Hx & Hb' & _)|]; subst.
    exists ca'. rewrite Hx, Hb'. done.
  - done.
  - intros Ha. split; [done|]. by apply (in_accepting _ _ H).
  - exact (revalued_values c m Hm (in_values _ _ H)).
  - by intros id Hid%not_elem_of_nil.
  - intros Hcl id ca' Hc. destruct (revalued_Some _ _ _ _ Hm Hc) as (ca & Hc' & _ & _ & _ & Hp). rewrite Hp.
    by apply (in_clients _ _ H Hcl id).
Qed.

Lemma finish_inv n error c : client_pre n c → client_inv n (finish error c).
Proof. intros H. destruct (finish_eq n error c H) as (m & Hm & ->). apply stopped_inv; eauto. Qed.
Lemma panic_inv n c : client_pre n c → client_inv n (panic c).
Proof. intros H. apply (stopped_inv n c (rc_calls c) Panicked); [done|done|by left]. Qed.
Lemma loop_top_inv n c : client_pre n (with_dispatcher c Selecting) → client_inv n (loop_top c).
Proof.
  intros H. unfold loop_top. destruct (_ && _) eqn:Hb.
  - exact (finish_inv n None _ H).
  - split; [done|]. intros _. simpl. apply andb_false_iff in Hb as [Hb|Hb]; [left; by apply negb_false_iff|].
    right. by apply bool_decide_eq_false in Hb.
Qed.

(** The fields a step leaves alone. *)
Ltac kept H := first
  [ exact (in_next _ _ H) | exact (in_calls _ _ H) | exact (in_known _ _ H) | exact (in_call _ _ H) | exact (in_queue _ _ H)
  | exact (in_request _ _ H) | exact (in_tables _ _ H) | exact (in_size _ _ H) | exact (in_log _ _ H) | exact (in_frame _ _ H)
  | exact (in_stopped _ _ H) | exact (in_accepting _ _ H)
  | exact (in_values _ _ H) | exact (in_cancel _ _ H) | exact (in_clients _ _ H) ].

(** Some channels got a value: what only depends on the rest stays. *)
Lemma revalued_known n c m id : client_pre n c → revalued (rc_calls c) m →
  id ∈ queued c ∨ flying c id ∨ id ∈ requested (frame_log c) → is_Some (m !! id).
Proof. intros H Hm Hid. eapply revalued_None; [exact Hm|]. exact (in_known _ _ H id Hid). Qed.

Lemma revalued_calls n c m id : client_pre n c → revalued (rc_calls c) m → is_Some (m !! id) → (1 ≤ id < rc_next_id c)%Z.
Proof. intros H Hm [ca' Hc]. destruct (revalued_Some _ _ _ _ Hm Hc) as (ca & Hc' & _). apply (in_calls _ _ H). by eexists. Qed.

Lemma revalued_request n c m q : client_pre n c → revalued (rc_calls c) m → q ∈ rc_requests c →
  ∃ ca, m !! dq_request_id q = Some ca ∧ dq_context q = ca_context ca ∧ dq_body q = ca_body ca.
Proof.
  intros H Hm Hin. destruct (in_request _ _ H q Hin) as (ca & Hc & ? & ?). pose proof (Hm (dq_request_id q)) as Hid.
  rewrite Hc in Hid. inversion Hid as [? ca' (_ & ? & ? & _)|]; subst. exists ca'. split; [done|]. split; congruence.
Qed.

Lemma revalued_frame n c m id t tr b : client_pre n c → revalued (rc_calls c) m → FRequest id t tr b ∈ frame_log c →
  (1 ≤ t ≤ u64_max)%Z ∧ ∃ ca, m !! id = Some ca ∧ tr = cx_trace_id (ca_context ca) ∧ b = ca_body ca.
Proof.
  intros H Hm Hin. destruct (in_frame _ _ H id t tr b Hin) as (Ht & ca & Hc & ? & ?). split; [done|].
  pose proof (Hm id) as Hid. rewrite Hc in Hid. inversion Hid as [? ca' (_ & ? & ? & _)|]; subst. exists ca'. split; [done|]. split; congruence.
Qed.

Lemma revalued_over n c m : client_pre n c → revalued (rc_calls c) m →
  (∀ id, id ∈ rc_cancellations c → ∃ ca, m !! id = Some ca ∧ call_over (ca_phase ca) = true)
  ∧ (rc_clients c = false → ∀ id ca, m !! id = Some ca → call_over (ca_phase ca) = true).
Proof.
  intros H Hm. split.
  - intros id Hid. destruct (in_cancel _ _ H id Hid) as (ca & Hc & Ho). pose proof (Hm id) as Hr. rewrite Hc in Hr.
    inversion Hr as [? ca' (_ & _ & _ & Hp & _)|]; subst. exists ca'. split; [done|]. by rewrite Hp.
  - intros Hcl id ca' Hc. destruct (revalued_Some _ _ _ _ Hm Hc) as (ca & Hc' & _ & _ & _ & ->). exact (in_clients _ _ H Hcl id ca Hc').
Qed.

(** The channel of the call [id] alone may have got a value, and a caller who
    waits has one. *)
Definition answers c (id : Z) m : Prop :=
  revalued (rc_calls c) m ∧ (∀ j, j ≠ id → m !! j = rc_calls c !! j)
  ∧ ∀ ca, m !! id = Some ca → ca_phase ca = Waiting → ca_value ca ≠ None.

Lemma answers_respond c id v : left_caller c id → answers c id (rc_calls (respond id v c)).
Proof.
  intros Hl. split; [by apply revalued_respond|]. simpl. split.
  - intros j Hj. by rewrite lookup_alter_ne.
  - intros ca Hc Hp. rewrite lookup_alter_eq in Hc. apply fmap_Some in Hc as (ca' & _ & ->).
    destruct (offer_same v ca') as (_ & _ & _ & Hp' & ->). by rewrite <- Hp', Hp.
Qed.

Lemma answers_closed c id : is_closed c id = true → answers c id (rc_calls c).
Proof. intros Hcl. split; [done|]. split; [done|]. intros ca Hc Hp. unfold is_closed in Hcl. by rewrite Hc, Hp in Hcl. Qed.

(** The head of the queue is taken and its call answered, if anyone waits. *)
Lemma pre_pop n c q rest m :
  client_pre n c → rc_requests c = q :: rest → answers c (dq_request_id q) m → client_pre n (with_requests (with_calls c m) rest).
Proof.
  intros H Hq (Hm & Hother & Hans). pose proof (in_queue _ _ H) as Hnd. unfold queued in Hnd. rewrite Hq in Hnd.
  apply NoDup_cons in Hnd as [Hnin Hnd].
  assert (Hqueued : ∀ j, j ∈ queued c ↔ j = dq_request_id q ∨ j ∈ dq_request_id <$> rest).
  { intros j. unfold queued. rewrite Hq. simpl. apply elem_of_cons. }
  split; try kept H.
  - intros id. exact (revalued_calls n c m id H Hm).
  - intros j Hj. apply (revalued_known n c m j H Hm). rewrite Hqueued. destruct Hj as [Hj|Hj]; [left; by right|by right].
  - intros j ca Hc. destruct (decide (j = dq_request_id q)) as [->|Hj].
    + destruct (revalued_Some _ _ _ _ Hm Hc) as (ca0 & Hc0 & E1 & E2 & E3 & E4).
      destruct (in_call _ _ H _ ca0 Hc0) as (Q & F & A & R & W & B & D). destruct Q as (_ & _ & Hreq); [apply Hqueued; by left|].
      unfold call_ok. rewrite E1, E2, E3, E4. split_and!; try done; try apply B.
      * intros Hf. by destruct (F Hf) as (_ & _ & ? & _).
      * intros _ Hp Hn. rewrite <- E4 in Hp. by destruct (Hans ca Hc Hp).
    + rewrite Hother in Hc by done. destruct (in_call _ _ H j ca Hc) as (Q & F & A & R & W & B & D). split_and!; try done; try apply B.
      * intros Hjq. apply Q, Hqueued. by right.
      * intros Hr Hp Hn. destruct (W Hr Hp Hn) as [[-> |Hjq]%Hqueued|Hjf]; [done|by left|by right].
  - done.
  - intros q' Hin. apply (revalued_request n c m q' H Hm). rewrite Hq. by right.
  - intros id t tr b. exact (revalued_frame n c m id t tr b H Hm).
  - intros Hr. destruct (in_stopped _ _ H Hr) as [He _]. congruence.
  - intros Ha. destruct (in_accepting _ _ H Ha) as [He _]. congruence.
  - exact (revalued_values c m Hm (in_values _ _ H)).
  - apply (revalued_over n c m H Hm).
  - apply (revalued_over n c m H Hm).
Qed.

(** The head of the queue is taken and tracked, and its request sent. *)
Lemma pre_track n c q rest key deadlines t now :
  client_pre n c → rc_dispatcher c = Selecting → rc_requests c = q :: rest →
  (Z.of_nat (size (rc_in_flight c)) < cf_max_in_flight_requests config)%Z → t = remaining_micros (dq_context q) now → t ≠ 0%Z →
  is_closed c (dq_request_id q) = false →
  insert_deadline (dq_request_id q) (cx_deadline (dq_context q)) (rc_deadlines c) = (key, deadlines) →
  client_pre n (with_dispatcher (with_tables (with_requests c rest) (<[dq_request_id q := mkPending key]> (rc_in_flight c)) deadlines)
    (SendingFrame (FRequest (dq_request_id q) t (cx_trace_id (dq_context q)) (dq_body q)))).
Proof.
  intros H Hsel Hq Hsize Ht Ht0 Hopen Hins. pose proof (in_queue _ _ H) as Hnd. unfold queued in Hnd. rewrite Hq in Hnd.
  apply NoDup_cons in Hnd as [Hnin Hnd]. set (id := dq_request_id q) in *.
  assert (Hqueued : ∀ j, j ∈ queued c ↔ j = id ∨ j ∈ dq_request_id <$> rest).
  { intros j. unfold queued. rewrite Hq. simpl. apply elem_of_cons. }
  destruct (in_request _ _ H q) as (ca & Hca & Hctx & Hbody); [rewrite Hq; by left|]. fold id in Hca.
  destruct (in_call _ _ H id ca Hca) as (Q & F & A & R & W & B & D). destruct Q as (Hns & Hv & Hreq); [apply Hqueued; by left|].
  assert (Hfl : rc_in_flight c !! id = None).
  { destruct (rc_in_flight c !! id) eqn:Hf; [|done]. destruct F as (_ & _ & ? & _); [by eexists|done]. }
  destruct (tables_insert _ _ _ _ _ _ Hins (in_tables _ _ H) Hfl) as (Hkey & -> & Htab).
  set (c' := with_dispatcher _ _). set (f := FRequest _ _ _ _) in *.
  assert (Hlog0 : frame_log c = rc_sent c) by (unfold frame_log; by rewrite Hsel, app_nil_r).
  assert (Hlog : frame_log c' = frame_log c ++ [f]) by by rewrite Hlog0.
  assert (Hreqs : ∀ j, j ∈ requested (frame_log c') ↔ j ∈ requested (frame_log c) ∨ j = id).
  { intros j. rewrite Hlog, requested_app, elem_of_app. simpl. by rewrite list_elem_of_singleton. }
  assert (Hcan : cancelled_ids (frame_log c') = cancelled_ids (frame_log c)) by by rewrite Hlog, cancelled_ids_app, app_nil_r.
  assert (Hfly : ∀ j, flying c' j ↔ j = id ∨ flying c j).
  { intros j. unfold flying, c'. simpl. destruct (decide (j = id)) as [->|Hj].
    - rewrite lookup_insert_eq. split; [by left|by eexists].
    - rewrite lookup_insert_ne by done. naive_solver. }
  split; try kept H.
  - intros j Hj. apply (in_known _ _ H). rewrite Hfly, Hreqs in Hj. rewrite Hqueued. unfold queued in Hj. simpl in Hj. naive_solver.
  - intros j ca' Hc. unfold call_ok. rewrite Hreqs, Hcan, Hfly. destruct (decide (j = id)) as [->|Hj].
    + simpl in Hc. assert (ca' = ca) as -> by congruence. unfold is_closed in Hopen. rewrite Hca in Hopen. apply negb_false_iff in Hopen.
      split_and!; try done; try apply B.
      * intros Hx. split; [done|]. split; [done|]. split; [by right|]. intros Hcc.
        by apply (wire_ok_cancels _ (in_log _ _ H)) in Hcc.
      * intros _ Hcl. congruence.
      * intros _ _ _. right. by left.
      * intros k d. unfold c'. simpl. rewrite lookup_insert_Some. intros [[<- [= <-]]|[_ Hk]]; [by rewrite Hctx|by eapply D].
    + simpl in Hc. destruct (in_call _ _ H j ca' Hc) as (Q' & F' & A' & R' & W' & B' & D'). split_and!; try done; try apply B'.
      * intros Hjq. destruct Q' as (? & ? & ?); [apply Hqueued; by right|]. split_and!; naive_solver.
      * intros [?|Hjf]; [done|]. destruct (F' Hjf) as (? & ? & ? & ?). split_and!; auto.
      * intros [?|Hjf]; [done|]. by apply A'.
      * intros [?|?]; [by apply R'|done].
      * intros _ Hp Hn. destruct W' as [Hx|Hx]; [by unfold running; rewrite Hsel|done|done| |by right; right].
        apply Hqueued in Hx as [?|?]; [done|by left].
      * intros k d. unfold c'. simpl. rewrite lookup_insert_Some. intros [[_ [= ?]]|[_ Hk]]; [done|by eapply D'].
  - done.
  - intros q' Hin. apply (in_request _ _ H). rewrite Hq. by right.
  - done.
  - unfold c'. simpl. rewrite map_size_insert_None by done. lia.
  - rewrite Hlog. by constructor; [kept H|].
  - intros j t' tr b Hin. rewrite Hlog in Hin. apply elem_of_app in Hin as [Hin|[= -> -> -> ->]%list_elem_of_singleton].
    + exact (in_frame _ _ H j t' tr b Hin).
    + split; [subst t; pose proof (remaining_micros_u64 (dq_context q) now) as [? ?]; lia|]. exists ca. by rewrite Hctx, Hbody.
  - done.
  - intros Ha. destruct (in_accepting _ _ H Ha) as [He _]. congruence.
Qed.

(** A call in flight is answered, if anyone waits, and forgotten with its
    deadline; the peer may be told to stop. *)
Definition after_untrack c (id : Z) (key : nat) m (tell : bool) : Client :=
  with_dispatcher (with_tables (with_calls c m) (delete id (rc_in_flight c)) (delete key (rc_deadlines c)))
    (if tell then SendingFrame (FCancel id) else Selecting).

Lemma pre_untrack n c id key d m tell :
  client_pre n c → rc_dispatcher c = Selecting → rc_deadlines c !! key = Some (id, d) → answers c id m →
  client_pre n (after_untrack c id key m tell).
Proof.
  intros H Hsel Hkey (Hm & Hother & Hans). set (c' := after_untrack _ _ _ _ _).
  assert (Hf : flying c id) by (eexists; by apply (proj2 (in_tables _ _ H) key id d)).
  destruct (in_known _ _ H id) as [ca0 Hca0]; [by right; left|].
  destruct (in_call _ _ H id ca0 Hca0) as (Q0 & F0 & _). destruct (F0 Hf) as (_ & _ & Hreq & Hcan).
  assert (Hfly : ∀ j, flying c' j ↔ j ≠ id ∧ flying c j).
  { intros j. unfold flying, c', after_untrack. simpl. destruct (decide (j = id)) as [->|Hj].
    - rewrite lookup_delete_eq. split; [by intros []|by intros []].
    - rewrite lookup_delete_ne by done. naive_solver. }
  assert (Hlog0 : frame_log c = rc_sent c) by (unfold frame_log; by rewrite Hsel, app_nil_r).
  assert (Hlog : frame_log c' = frame_log c ++ if tell then [FCancel id] else []) by (rewrite Hlog0; by destruct tell).
  assert (Hreqs : requested (frame_log c') = requested (frame_log c)).
  { rewrite Hlog, requested_app. destruct tell; simpl; by rewrite app_nil_r. }
  assert (Hcans : ∀ j, j ≠ id → j ∈ cancelled_ids (frame_log c') → j ∈ cancelled_ids (frame_log c)).
  { intros j Hj. rewrite Hlog, cancelled_ids_app, elem_of_app. intros [?|Hx]; [done|].
    destruct tell; simpl in Hx; [by apply list_elem_of_singleton in Hx|by apply not_elem_of_nil in Hx]. }
  assert (Hrun : running c' = running c) by (unfold running, c', after_untrack; simpl; rewrite Hsel; by destruct tell).
  split; try kept H.
  - intros j. exact (revalued_calls n c m j H Hm).
  - intros j Hj. apply (revalued_known n c m j H Hm). rewrite Hfly, Hreqs in Hj. destruct Hj as [?|[[_ ?]|?]]; [by left|by right; left|by right; right].
  - intros j ca Hc. unfold call_ok. rewrite Hreqs, Hfly, Hrun. simpl in Hc. destruct (decide (j = id)) as [->|Hj].
    + destruct (revalued_Some _ _ _ _ Hm Hc) as (ca1 & Hc1 & E1 & E2 & E3 & E4). assert (ca1 = ca0) as -> by congruence.
      destruct (in_call _ _ H id ca0 Hca0) as (Q & F & A & R & W & B & D). rewrite E1, E2, E3, E4. split_and!; try apply B.
      * intros Hq. by destruct (Q Hq) as (_ & _ & []).
      * by intros [].
      * by intros [].
      * done.
      * intros _ Hp Hn. rewrite <- E4 in Hp. by destruct (Hans ca Hc Hp).
      * intros k e. unfold c', after_untrack. simpl. rewrite lookup_delete_Some. intros [_ Hk]. by eapply D.
    + rewrite Hother in Hc by done. destruct (in_call _ _ H j ca Hc) as (Q & F & A & R & W & B & D). split_and!; try apply B; try done.
      * intros [_ Hjf]. destruct (F Hjf) as (? & ? & ? & ?). split_and!; auto.
      * intros [_ Hjf]. by apply A.
      * intros Hr Hp Hn. destruct (W Hr Hp Hn) as [?|?]; [by left|by right].
      * intros k e. unfold c', after_untrack. simpl. rewrite lookup_delete_Some. intros [_ Hk]. by eapply D.
  - intros q. exact (revalued_request n c m q H Hm).
  - eapply tables_delete; [kept H|exact Hkey].
  - etrans; [|kept H]. apply Nat2Z.inj_le. unfold c', after_untrack. simpl. apply map_subseteq_size, delete_subseteq.
  - rewrite Hlog. destruct tell; [constructor; [kept H|done|done]|rewrite app_nil_r; kept H].
  - intros j t tr b Hin. rewrite Hlog in Hin. apply elem_of_app in Hin as [Hin|Hin]; [exact (revalued_frame n c m j t tr b H Hm Hin)|].
    destruct tell; [by apply list_elem_of_singleton in Hin|by apply not_elem_of_nil in Hin].
  - rewrite Hrun. unfold running. by rewrite Hsel.
  - exact (revalued_values c m Hm (in_values _ _ H)).
  - apply (revalued_over n c m H Hm).
  - apply (revalued_over n c m H Hm).
Qed.

(** A cancellation that finds its call no longer tracked is dropped. *)
Lemma pre_pop_cancellation n c id rest :
  client_pre n c → rc_cancellations c = id :: rest → ¬ flying c id → client_pre n (with_cancellations c rest).
Proof.
  intros H Hq Hf. split; try kept H.
  - intros j ca Hc. destruct (in_call _ _ H j ca Hc) as (Q & F & A & R & W & B & D). split_and!; try done; try apply B.
    intros Hjf Hw. destruct (A Hjf Hw) as [?|Hin]; [by left|right]. rewrite Hq in Hin. apply elem_of_cons in Hin as [-> |?]; done.
  - intros j Hj. apply (in_cancel _ _ H). rewrite Hq. by right.
Qed.

(** The frame being sent is handed over. *)
Lemma pre_sent n c f :
  client_pre n c → rc_dispatcher c = SendingFrame f → rc_writer c = None →
  client_pre n (with_dispatcher (with_frames c (rc_sent c ++ [f]) (rc_taken c) None) Selecting).
Proof.
  intros H Hd Hw. set (c' := with_dispatcher _ _).
  assert (Hlog : frame_log c' = frame_log c) by (unfold frame_log, c'; simpl; by rewrite app_nil_r, Hd).
  assert (Hrun : running c' = running c) by (unfold running; simpl; by rewrite Hd).
  split; rewrite ?Hlog; try kept H.
  - intros j ca Hc. unfold call_ok. rewrite Hlog, Hrun. exact (in_call _ _ H j ca Hc).
  - done.
Qed.

(** *** Callers *)

(** One call changed its phase, and ids may have been added to the queues. *)
Lemma calls_insert_known (m : gmap Z (Call Req Resp)) id ca j : is_Some (m !! j) → is_Some (<[id := ca]> m !! j).
Proof. intros Hj. apply lookup_insert_is_Some'. by right. Qed.

Lemma same_call n c id ca ca' : client_pre n c → rc_calls c !! id = Some ca →
  ca_context ca' = ca_context ca → ca_body ca' = ca_body ca →
  (∀ q, q ∈ rc_requests c → ∃ ca0, <[id := ca']> (rc_calls c) !! dq_request_id q = Some ca0
     ∧ dq_context q = ca_context ca0 ∧ dq_body q = ca_body ca0)
  ∧ (∀ j t tr b, FRequest j t tr b ∈ frame_log c → (1 ≤ t ≤ u64_max)%Z ∧ ∃ ca0, <[id := ca']> (rc_calls c) !! j = Some ca0
       ∧ tr = cx_trace_id (ca_context ca0) ∧ b = ca_body ca0).
Proof.
  intros H Hc Hx Hb. split.
  - intros q Hq. destruct (in_request _ _ H q Hq) as (ca0 & Hc0 & ? & ?). destruct (decide (dq_request_id q = id)) as [He|Hne].
    + rewrite He in *. exists ca'. rewrite lookup_insert_eq. split; [done|]. split; congruence.
    + exists ca0. by rewrite lookup_insert_ne.
  - intros j t tr b Hf. destruct (in_frame _ _ H j t tr b Hf) as (Ht & ca0 & Hc0 & ? & ?). split; [done|].
    destruct (decide (j = id)) as [->|Hne].
    + exists ca'. rewrite lookup_insert_eq. split; [done|]. split; congruence.
    + exists ca0. by rewrite lookup_insert_ne.
Qed.

Lemma pre_phase n c id ca p :
  client_pre n c → rc_calls c !! id = Some ca → call_over (ca_phase ca) = false → p ≠ Sending → p ≠ Waiting →
  (flying c id → ∃ r, p = Dropping r) → client_pre n (with_calls c (<[id := set_phase p ca]> (rc_calls c))).
Proof.
  intros H Hc Hov Hs Hw Hf. destruct (same_call n c id ca (set_phase p ca) H Hc eq_refl eq_refl) as [Hreq Hfr]. split; try kept H.
  - simpl; intros j [<-|[_ Hj]]%lookup_insert_is_Some; apply (in_calls _ _ H); [by eexists|done].
  - intros j Hj. apply calls_insert_known. exact (in_known _ _ H j Hj).
  - intros j ca' Hj. simpl in Hj. apply lookup_insert_Some in Hj as [[<- <-]|[_ Hj]]; [|exact (in_call _ _ H j ca' Hj)].
    destruct (in_call _ _ H id ca Hc) as (Q & F & A & R & W & B & D). unfold call_ok. simpl. split_and!; try done; try apply B.
    + intros Hq. destruct (Q Hq) as (_ & ? & ?). done.
    + intros Hfl. destruct (F Hfl) as (_ & ? & ? & ?). done.
    + intros Hfl _. left. by apply Hf.
  - exact Hreq.
  - exact Hfr.
  - simpl; intros j ca' v [[<- <-]|[_ Hj]]%lookup_insert_Some; [done|exact (in_values _ _ H j ca' v Hj)].
  - intros j Hj. destruct (in_cancel _ _ H j Hj) as (ca0 & Hc0 & Ho). exists ca0. split; [|done]. simpl.
    rewrite lookup_insert_ne; [done|]. intros ->. congruence.
  - intros Hcl. pose proof (in_clients _ _ H Hcl id ca Hc). congruence.
Qed.

Lemma pre_cancellation n c id ca r :
  client_pre n c → rc_calls c !! id = Some ca → ca_phase ca = Dropping r →
  let c' := with_calls c (<[id := set_phase (match r with Some r => Finished r | None => Abandoned end) ca]> (rc_calls c)) in
  client_pre n (if running c then with_cancellations c' (rc_cancellations c ++ [id]) else c').
Proof.
  intros H Hc Hp c'. destruct (running c) eqn:Hr; [|].
  - destruct (same_call n c id ca (set_phase (match r with Some r => Finished r | None => Abandoned end) ca) H Hc eq_refl eq_refl) as [Hreq Hfr].
    split; try kept H.
    + simpl; intros j [<-|[_ Hj]]%lookup_insert_is_Some; apply (in_calls _ _ H); [by eexists|done].
    + intros j Hj. apply calls_insert_known. exact (in_known _ _ H j Hj).
    + intros j ca' Hj. simpl in Hj. apply lookup_insert_Some in Hj as [[<- <-]|[_ Hj]].
      * destruct (in_call _ _ H id ca Hc) as (Q & F & A & R & W & B & D). unfold call_ok. simpl. split_and!; try done; try apply B.
        -- intros Hq. destruct (Q Hq) as (_ & ? & ?). by destruct r.
        -- intros Hfl. destruct (F Hfl) as (_ & ? & ? & ?). by destruct r.
        -- intros _ _. right. apply elem_of_app. right. by apply list_elem_of_singleton.
        -- by destruct r.
        -- by destruct r.
      * destruct (in_call _ _ H j ca' Hj) as (Q & F & A & R & W & B & D). unfold call_ok. split_and!; try done; try apply B.
        intros Hfl Hw. destruct (A Hfl Hw) as [?|?]; [by left|right; simpl; apply elem_of_app; by left].
    + exact Hreq.
    + exact Hfr.
    + simpl; intros j ca' v [[<- <-]|[_ Hj]]%lookup_insert_Some; [by destruct r|exact (in_values _ _ H j ca' v Hj)].
    + simpl. intros j [Hj| ->%list_elem_of_singleton]%elem_of_app.
      * destruct (in_cancel _ _ H j Hj) as (ca0 & Hc0 & Ho). destruct (decide (j = id)) as [->|Hne].
        -- assert (ca0 = ca) as -> by congruence. by rewrite Hp in Ho.
        -- exists ca0. by rewrite lookup_insert_ne.
      * eexists. rewrite lookup_insert_eq. split; [done|]. by destruct r.
    + intros Hcl. pose proof (in_clients _ _ H Hcl id ca Hc) as Ho. by rewrite Hp in Ho.
  - apply pre_phase; [done..|by rewrite Hp|by destruct r|by destruct r|].
    intros [x Hx]. destruct (in_stopped _ _ H Hr) as [_ He]. by rewrite He, lookup_empty in Hx.
Qed.

Lemma pre_enqueue n c id ca :
  client_pre n c → rc_calls c !! id = Some ca → ca_phase ca = Sending → running c = true →
  client_pre n (with_calls (with_requests c (rc_requests c ++ [mkDispatchRequest (ca_context ca) id (ca_body ca)]))
                  (<[id := set_phase Waiting ca]> (rc_calls c))).
Proof.
  intros H Hc Hp Hr. destruct (in_call _ _ H id ca Hc) as (Q & F & A & R & W & B & D).
  assert (Hnq : id ∉ queued c) by (intros Hq; by destruct (Q Hq)).
  assert (Hnf : ¬ flying c id) by (intros Hf; by destruct (F Hf)).
  assert (Hnr : id ∉ requested (frame_log c)) by (intros Hq; by destruct (R Hq)).
  destruct (same_call n c id ca (set_phase Waiting ca) H Hc eq_refl eq_refl) as [Hreq Hfr].
  set (c' := with_calls _ _).
  assert (Hqueued : queued c' = queued c ++ [id]) by (unfold queued, c'; simpl; by rewrite fmap_app).
  split; try kept H.
  - simpl; intros j [<-|[_ Hj]]%lookup_insert_is_Some; apply (in_calls _ _ H); [by eexists|done].
  - intros j Hj. rewrite Hqueued, elem_of_app, list_elem_of_singleton in Hj. apply lookup_insert_is_Some'.
    destruct Hj as [[Hj| ->]|Hj]; [|by left|]; right; apply (in_known _ _ H j); [by left|by right].
  - intros j ca' Hj. unfold call_ok. rewrite Hqueued, elem_of_app, list_elem_of_singleton. simpl in Hj.
    apply lookup_insert_Some in Hj as [[<- <-]|[Hne Hj]].
    + simpl. split_and!; try done; try apply B; [|by intros _ _ _; left; right]. intros [?|_]; [done|]. split_and!; [done| |done].
      destruct (ca_value ca) as [v|] eqn:Hv; [|done]. exfalso. by apply (in_values _ _ H id ca v Hc Hv).
    + destruct (in_call _ _ H j ca' Hj) as (Q' & F' & A' & R' & W' & B' & D'). split_and!; try done; try apply B'.
      * intros [?| ->]; [by apply Q'|done].
      * intros Hr' Hp' Hn. destruct (W' Hr' Hp' Hn) as [?|?]; [left; by left|by right].
  - rewrite Hqueued. apply NoDup_app. split; [kept H|]. split; [|apply NoDup_singleton]. by intros x Hx ->%list_elem_of_singleton.
  - intros q Hq. unfold c' in Hq. simpl in Hq. apply elem_of_app in Hq as [Hq| ->%list_elem_of_singleton]; [by apply Hreq|].
    exists (set_phase Waiting ca). simpl. by rewrite lookup_insert_eq.
  - exact Hfr.
  - intros Hx. change (running c = false) in Hx. congruence.
  - intros Ha. destruct (in_accepting _ _ H Ha) as [_ Hcl]. pose proof (in_clients _ _ H Hcl id ca Hc) as Ho. by rewrite Hp in Ho.
  - simpl; intros j ca' v [[<- <-]|[_ Hj]]%lookup_insert_Some; [done|exact (in_values _ _ H j ca' v Hj)].
  - intros j Hj. destruct (in_cancel _ _ H j Hj) as (ca0 & Hc0 & Ho). exists ca0. split; [|done]. simpl.
    rewrite lookup_insert_ne; [done|]. intros ->. assert (ca0 = ca) as -> by congruence. by rewrite Hp in Ho.
  - intros Hcl. pose proof (in_clients _ _ H Hcl id ca Hc) as Ho. by rewrite Hp in Ho.
Qed.

Lemma pre_start n c context request body :
  client_pre n c → (n + 1 < u64_max)%Z → rc_clients c = true → encode request = Ok body →
  (Z.of_nat (length body) ≤ max_body_bytes config)%Z →
  client_pre (n + 1)
    (mkRpcClient (rc_clients c) (u64_wrapping_add (rc_next_id c) 1)
       (<[rc_next_id c := mkCall request context body Sending None]> (rc_calls c)) (rc_requests c) (rc_cancellations c) (rc_dispatcher c)
       (rc_accepting c) (rc_in_flight c) (rc_deadlines c) (rc_sent c) (rc_taken c) (rc_writer c)).
Proof.
  intros H Hn Hcl Henc Hlen. pose proof (in_next _ _ H) as Hnext. set (id := rc_next_id c) in *.
  assert (Hadd : u64_wrapping_add id 1 = (id + 1)%Z) by (unfold u64_wrapping_add, u64_max in *; rewrite Z.mod_small; lia).
  assert (Hnew : rc_calls c !! id = None).
  { destruct (rc_calls c !! id) eqn:Hc; [|done]. pose proof (in_calls _ _ H id ltac:(by eexists)). lia. }
  assert (Hunk : ¬ (id ∈ queued c ∨ flying c id ∨ id ∈ requested (frame_log c))).
  { intros Hk. destruct (in_known _ _ H id Hk). congruence. }
  assert (Hne : ∀ j, is_Some (rc_calls c !! j) → id ≠ j) by (intros j [x Hx] <-; congruence).
  split; try kept H; rewrite ?Hadd; simpl.
  - lia.
  - intros j [<-|[_ Hj]]%lookup_insert_is_Some; [lia|]. apply (in_calls _ _ H) in Hj. unfold id. lia.
  - intros j Hj. apply calls_insert_known. exact (in_known _ _ H j Hj).
  - intros j ca [[<- <-]|[_ Hj]]%lookup_insert_Some; [|exact (in_call _ _ H j ca Hj)].
    split_and!; try done; simpl.
    + intros Hq. destruct Hunk. by left.
    + intros Hq. destruct Hunk. by right; left.
    + intros Hq. destruct Hunk. by right; right.
    + intros key d Hd. destruct Hunk. right; left. eexists. by apply (proj2 (in_tables _ _ H) key id d).
  - intros q Hq. destruct (in_request _ _ H q Hq) as (ca & Hc & Hx). exists ca. split; [|done]. rewrite lookup_insert_ne; [done|]. apply Hne. by eexists.
  - intros j t tr b Hf. destruct (in_frame _ _ H j t tr b Hf) as (Ht & ca & Hc & Hx). split; [done|]. exists ca. split; [|done].
    rewrite lookup_insert_ne; [done|]. apply Hne. by eexists.
  - intros j ca v [[<- <-]|[_ Hj]]%lookup_insert_Some; [done|exact (in_values _ _ H j ca v Hj)].
  - intros j Hj. destruct (in_cancel _ _ H j Hj) as (ca & Hc & Ho). exists ca. split; [|done].
    rewrite lookup_insert_ne; [done|]. apply Hne. by eexists.
  - congruence.
Qed.

Lemma pre_mono n m c : client_pre n c → (n ≤ m)%Z → client_pre m c.
Proof. intros H Hn. split; try kept H. pose proof (in_next _ _ H). lia. Qed.
Lemma inv_mono n m c : client_inv n c → (n ≤ m)%Z → client_inv m c.
Proof. intros [H ?] Hn. split; [by eapply pre_mono|done]. Qed.

Lemma left_queued n c id : client_pre n c → id ∈ queued c → left_caller c id.
Proof. intros H Hq ca Hc. destruct (in_call _ _ H id ca Hc) as (Q & _). by apply Q. Qed.
Lemma left_flying n c id : client_pre n c → flying c id → left_caller c id.
Proof. intros H Hq ca Hc. destruct (in_call _ _ H id ca Hc) as (_ & F & _). by apply F. Qed.

Lemma selecting_same c : rc_dispatcher c = Selecting → with_dispatcher c Selecting = c.
Proof. intros Hd. destruct c. simpl in Hd. by subst. Qed.

Lemma pull_request_inv n now c c' :
  client_pre n c → rc_dispatcher c = Selecting → pull_request config delay_limit now c = Some c' → client_inv n c'.
Proof.
  intros H Hsel. unfold pull_request. destruct (_ && _) eqn:Hguard; [|done]. apply andb_true_iff in Hguard as [Hacc Hsize].
  apply Z.ltb_lt in Hsize. destruct (rc_requests c) as [|q rest] eqn:Hq.
  - destruct (rc_clients c) eqn:Hcl; [done|]. intros [= <-]. apply loop_top_inv. rewrite selecting_same by done.
    split; try kept H. by intros _.
  - assert (Hin : dq_request_id q ∈ queued c) by (unfold queued; rewrite Hq; by left).
    set (id := dq_request_id q) in *. change (is_closed (with_requests c rest) id) with (is_closed c id).
    destruct (is_closed c id) eqn:Hclosed; [|destruct (_ =? 0)%Z eqn:Ht; [|destruct (_ <? _)%Z]].
    + intros [= <-]. apply loop_top_inv. pose proof (pre_pop n c q rest _ H Hq (answers_closed _ _ Hclosed)) as Hp.
      replace (with_dispatcher (with_requests c rest) Selecting) with (with_requests (with_calls c (rc_calls c)) rest); [done|].
      destruct c. simpl in Hsel. by subst.
    + intros [= <-]. apply loop_top_inv.
      pose proof (pre_pop n c q rest _ H Hq (answers_respond c id (Err RpcDeadlineExceeded) (left_queued n c id H Hin))) as Hp.
      by rewrite selecting_same.
    + intros [= <-]. apply (panic_inv n c H).
    + destruct (insert_deadline _ _ _) as [key deadlines] eqn:Hins. intros [= <-]. split; [|done].
      apply (pre_track n c q rest key deadlines _ now); try done. by apply Z.eqb_neq.
Qed.

Lemma pull_cancellation_inv n c c' :
  client_pre n c → rc_dispatcher c = Selecting → pull_cancellation c = Some c' → client_inv n c'.
Proof.
  intros H Hsel. unfold pull_cancellation. destruct (rc_cancellations c) as [|id rest] eqn:Hq.
  - destruct (rc_clients c); [done|]. intros [= <-]. apply loop_top_inv. by rewrite selecting_same.
  - change (rc_in_flight (with_cancellations c rest)) with (rc_in_flight c).
    destruct (rc_in_flight c !! id) as [p|] eqn:Hf; intros [= <-].
    + destruct (tables_remove _ _ _ _ (in_tables _ _ H) Hf) as (d & Hd & Hrem). simpl. rewrite Hrem. split; [|done].
      assert (Hcl : is_closed c id = true).
      { unfold is_closed. destruct (in_cancel _ _ H id) as (ca & Hc & Ho); [rewrite Hq; by left|]. rewrite Hc. by destruct (ca_phase ca). }
      pose proof (pre_untrack n c id (pe_deadline_key p) d _ true H Hsel Hd (answers_closed _ _ Hcl)) as Hp.
      refine (pre_pop_cancellation n (after_untrack c id (pe_deadline_key p) (rc_calls c) true) id rest Hp Hq _).
      unfold flying, after_untrack. simpl. rewrite lookup_delete_eq. by intros [].
    + apply loop_top_inv. rewrite selecting_same by done. apply (pre_pop_cancellation n c id rest H Hq). unfold flying. rewrite Hf. by intros [].
Qed.

Lemma receive_inv n event c : client_pre n c → rc_dispatcher c = Selecting → client_inv n (receive event c).
Proof.
  intros H Hsel. destruct event as [[[id code body]| |e]|]; simpl; [|by apply finish_inv..].
  destruct (rc_in_flight c !! id) as [p|] eqn:Hf; [|apply loop_top_inv; by rewrite selecting_same].
  destruct (tables_remove _ _ _ _ (in_tables _ _ H) Hf) as (d & Hd & ->). apply loop_top_inv.
  exact (pre_untrack n c id (pe_deadline_key p) d _ false H Hsel Hd
    (answers_respond c id _ (left_flying n c id H (mk_is_Some _ _ Hf)))).
Qed.

Lemma expire_inv n key now c c' :
  client_pre n c → rc_dispatcher c = Selecting → expire key now c = Some c' → client_inv n c'.
Proof.
  intros H Hsel. unfold expire. destruct (rc_deadlines c !! key) as [[id d]|] eqn:Hk; [|done]. cbn [mbind option_bind].
  destruct (now <? d)%Z; [done|]. pose proof (proj2 (in_tables _ _ H) key id d Hk) as Hf. rewrite Hf. intros [= <-]. split; [|done].
  exact (pre_untrack n c id key d _ true H Hsel Hk (answers_respond c id _ (left_flying n c id H (mk_is_Some _ _ Hf)))).
Qed.

Lemma caller_selecting n c c' : client_inv n c → client_pre n c' → rc_dispatcher c' = rc_dispatcher c →
  rc_accepting c' = rc_accepting c → rc_in_flight c' = rc_in_flight c → client_inv n c'.
Proof. intros [_ H] Hp Hd Ha Hf. split; [done|]. by rewrite Hd, Ha, Hf. Qed.

Lemma client_step_inv n l c c' :
  client_inv n c → (n + 1 < u64_max)%Z → client_step config delay_limit l c = Some c' → client_inv (n + 1) c'.
Proof.
  intros Hinv Hn. pose proof (proj1 Hinv) as H. destruct l as [context request|id|id|id|id| |now| |event|key now| | | |r]; simpl.
  - destruct (rc_clients c) eqn:Hcl; [|done]. unfold start_call. destruct (encode request) as [body|e] eqn:Henc; simpl.
    + unfold reject_if. destruct (_ <? _)%Z eqn:Hlen; simpl; intros [= <-]; [by apply (inv_mono n); [|lia]|].
      apply Z.ltb_ge in Hlen. eapply caller_selecting; [by apply (inv_mono n); [|lia]|by apply pre_start|done..].
    + intros [= <-]. apply (inv_mono n); [done|lia].
  - unfold enqueue_call. destruct (rc_calls c !! id) as [ca|] eqn:Hc; [|done]. cbn [mbind option_bind].
    destruct (ca_phase ca) eqn:Hp; try done. destruct (running c && _) eqn:Hg; [|done]. apply andb_true_iff in Hg as [Hr _].
    intros [= <-]. apply (inv_mono n); [|lia]. eapply caller_selecting; [done|by apply pre_enqueue|done..].
  - unfold poll_call. destruct (rc_calls c !! id) as [ca|] eqn:Hc; [|done]. cbn [mbind option_bind].
    destruct (in_call _ _ H id ca Hc) as (Q & F & A & R & W & B & D). intros Hs. apply (inv_mono n); [|lia].
    assert (∃ p, c' = with_calls c (<[id := set_phase p ca]> (rc_calls c)) ∧ p ≠ Sending ∧ p ≠ Waiting ∧ call_over (ca_phase ca) = false
      ∧ (flying c id → ∃ r, p = Dropping r)) as (p & -> & ? & ? & ? & ?).
    { destruct (ca_phase ca) eqn:Hp; try done.
      - destruct (running c); [done|]. injection Hs as <-. eexists. split; [done|]. split_and!; try done. by eexists.
      - destruct (ca_value ca) as [v|] eqn:Hv.
        + injection Hs as <-. eexists. split; [done|]. split_and!; try done. intros Hf. by destruct (F Hf) as (_ & ? & _).
        + destruct (sender_live c id) eqn:Hl; [done|]. injection Hs as <-. eexists. split; [done|]. split_and!; try done.
          intros Hf. unfold sender_live in Hl. apply orb_false_iff in Hl as [_ Hl]. by apply bool_decide_eq_false in Hl. }
    eapply caller_selecting; [done|by apply pre_phase|done..].
  - unfold drop_call. destruct (rc_calls c !! id) as [ca|] eqn:Hc; [|done]. cbn [mbind option_bind].
    destruct (is_waiting (ca_phase ca)) eqn:Hw; [|done]. intros [= <-]. apply (inv_mono n); [|lia].
    eapply caller_selecting; [done|apply pre_phase; try done; [by destruct (ca_phase ca)|by eexists]|done..].
  - unfold send_cancellation. destruct (rc_calls c !! id) as [ca|] eqn:Hc; [|done]. cbn [mbind option_bind].
    destruct (ca_phase ca) as [| |r| |] eqn:Hp; try done. intros [= <-]. apply (inv_mono n); [|lia].
    eapply caller_selecting; [done|by apply (pre_cancellation n c id ca r)|by destruct (running c)..].
  - unfold drop_clients. case_bool_decide as Ho; [|done]. intros [= <-]. apply (inv_mono n); [|lia].
    eapply caller_selecting; [done| |done..]. split; try kept H; simpl.
    + intros Ha. by destruct (in_accepting _ _ H Ha).
    + intros _ j ca Hc. exact (Ho j ca Hc).
  - unfold select. destruct (rc_dispatcher c) eqn:Hsel; try done. intros Hs. apply (inv_mono n); [|lia]. by eapply pull_request_inv.
  - unfold select. destruct (rc_dispatcher c) eqn:Hsel; try done. intros Hs. apply (inv_mono n); [|lia]. by eapply pull_cancellation_inv.
  - unfold select. destruct (rc_dispatcher c) eqn:Hsel; try done. intros [= <-]. apply (inv_mono n); [|lia]. by apply receive_inv.
  - unfold select. destruct (rc_dispatcher c) eqn:Hsel; try done. intros Hs. apply (inv_mono n); [|lia]. by eapply expire_inv.
  - unfold select. destruct (rc_dispatcher c) eqn:Hsel; try done. destruct (rc_writer c); [|done]. intros [= <-].
    apply (inv_mono n); [|lia]. by apply finish_inv.
  - destruct (rc_dispatcher c) as [|f| |] eqn:Hsel; try done. unfold send_frame. destruct (rc_writer c) as [r|] eqn:Hw.
    + intros [= <-]. apply (inv_mono n); [|lia]. by apply finish_inv.
    + destruct (_ <? _)%Z; [|done]. intros [= <-]. apply (inv_mono n); [|lia]. apply loop_top_inv. by apply pre_sent.
  - destruct (bool_decide _ && _); [|done]. intros [= <-]. apply (inv_mono n); [|lia]. eapply caller_selecting; [done|split; kept H|done..].
  - destruct (bool_decide _); [|done]. intros [= <-]. apply (inv_mono n); [|lia]. eapply caller_selecting; [done|split; kept H|done..].
Qed.

Lemma spawn_inv : client_inv 0 spawn_client.
Proof.
  split; [|by left]. split; simpl; try done; try lia; try (intros *; by rewrite lookup_empty); try (by intros ? ?%not_elem_of_nil); try by constructor.
  - intros id [Hid%not_elem_of_nil|[[p Hp]|Hid%not_elem_of_nil]]; try done.
  - rewrite map_size_empty. lia.
  - by intros id t tr b Hf%not_elem_of_nil.
Qed.
End invariant.

(** ** What holds of every connection *)

Section connection.
Context {Req Resp : Type} `{!Codec Req Resp} (config : ClientConfig) (delay_limit : Z).
#[local] Abbreviation Client := (RpcClient Req Resp).
#[local] Abbreviation run := (client_run config delay_limit).
#[local] Abbreviation step := (client_step config delay_limit).
Implicit Types (c : Client) (ca : Call Req Resp).

(** Few enough steps that ids do not wrap. *)
Definition short (steps : list (ClientStep (Req:=Req))) : Prop := (Z.of_nat (length steps) + 1 < u64_max)%Z.

Lemma client_steps_snoc steps l c : run (steps ++ [l]) c = default (run steps c) (step l (run steps c)).
Proof. unfold client_run. by rewrite foldl_app. Qed.

Lemma client_run_inv steps : short steps → client_inv config (Z.of_nat (length steps)) (run steps spawn_client).
Proof.
  unfold short. induction steps as [|l steps IH] using rev_ind; intros Hs; [apply spawn_inv|].
  rewrite length_app in *. simpl in *. rewrite client_steps_snoc. assert (Hi := IH ltac:(lia)).
  replace (Z.of_nat (length steps + 1)) with (Z.of_nat (length steps) + 1)%Z by lia.
  destruct (step l (run steps spawn_client)) as [c'|] eqn:Hl; simpl.
  - by eapply client_step_inv; [| |exact Hl]; [|lia].
  - eapply inv_mono; [exact Hi|lia].
Qed.

(** *** How a step moves a call *)

Definition told_by (l : ClientStep (Req:=Req)) c (id : Z) ca (v : ResponseSlot) : Prop :=
  match v with
  | Ok (inl body) => l = Receive (Some (EvFrame (FResponse id None body)))
  | Ok (inr st) => ∃ code body, l = Receive (Some (EvFrame (FResponse id (Some code) body))) ∧ st = status_from_wire code body
  | Err RpcDeadlineExceeded =>
      ∃ now, (l = PullRequest now ∨ ∃ key, l = Expire key now) ∧ (cx_deadline (ca_context ca) - now < NANOS_PER_MICRO)%Z
  | Err (RpcConnection e) => rc_dispatcher c = Stopped (Some e)
  | Err _ => False
  end.

Definition same_request ca ca' : Prop :=
  ca_request ca' = ca_request ca ∧ ca_context ca' = ca_context ca ∧ ca_body ca' = ca_body ca.
(** A channel got a value, or the caller moved on. *)
Definition got_value (l : ClientStep (Req:=Req)) c' id ca ca' : Prop :=
  ca_phase ca' = ca_phase ca ∧ (ca_value ca' = ca_value ca ∨ is_waiting (ca_phase ca) = true ∧ ∃ v, ca_value ca' = Some v ∧ told_by l c' id ca' v).
Definition moved_on c ca ca' : Prop :=
  ca_value ca' = ca_value ca
  ∧ match ca_phase ca' with
    | Sending => False
    | Waiting => ca_phase ca = Sending
    | Dropping None | Abandoned => True
    | Dropping (Some r) => r = Err RpcShutdown ∧ running c = false
    | Finished r => ca_phase ca = Dropping (Some r) ∨ (∃ v, ca_value ca = Some v ∧ r = call_result v)
        ∨ r = Err RpcShutdown ∧ running c = false
    end.
Definition call_moves (l : ClientStep (Req:=Req)) c c' : Prop :=
  ∀ id ca', rc_calls c' !! id = Some ca' →
    (∃ ca, rc_calls c !! id = Some ca ∧ same_request ca ca' ∧ (got_value l c' id ca ca' ∨ moved_on c ca ca'))
    ∨ (∃ context request, l = StartCall context request ∧ rc_calls c !! id = None ∧ ca_context ca' = context ∧ ca_request ca' = request
        ∧ ca_phase ca' = Sending ∧ ca_value ca' = None).

Lemma same_request_refl ca : same_request ca ca.
Proof. done. Qed.
Lemma moves_same l c c' : rc_calls c' = rc_calls c → call_moves l c c'.
Proof. intros He id ca Hc. left. rewrite He in Hc. exists ca. split; [done|]. split; [done|]. left. split; [done|]. by left. Qed.

Lemma moves_phase l c c' id ca p :
  rc_calls c !! id = Some ca → rc_calls c' = <[id := set_phase p ca]> (rc_calls c) → moved_on c ca (set_phase p ca) → call_moves l c c'.
Proof.
  intros Hc He Hm j ca' Hj. left. rewrite He in Hj. apply lookup_insert_Some in Hj as [[<- <-]|[_ Hj]].
  - exists ca. split; [done|]. split; [done|]. by right.
  - exists ca'. split; [done|]. split; [done|]. left. split; [done|]. by left.
Qed.

Lemma moves_value l c c' id v :
  rc_calls c' = alter (offer v) id (rc_calls c) → (∀ ca, rc_calls c !! id = Some ca → told_by l c' id ca v) → call_moves l c c'.
Proof.
  intros He Ht j ca' Hj. left. rewrite He, lookup_alter in Hj. case_decide as Hd.
  - subst j. apply fmap_Some in Hj as (ca & Hc & ->). exists ca. destruct (offer_same v ca) as (E1 & E2 & E3 & E4 & E5).
    split; [done|]. split; [done|]. left. split; [done|]. destruct (is_waiting (ca_phase ca)); [right|by left].
    split; [done|]. exists v. split; [done|]. specialize (Ht ca Hc). unfold told_by in *. by rewrite E2.
  - exists ca'. split; [done|]. split; [done|]. left. split; [done|]. by left.
Qed.

Lemma fail_calls_values e ids c id ca' :
  rc_calls (fail_calls e ids c) !! id = Some ca' →
  ∃ ca, rc_calls c !! id = Some ca ∧ same_request ca ca' ∧ ca_phase ca' = ca_phase ca
    ∧ (ca_value ca' = ca_value ca ∨ is_waiting (ca_phase ca) = true ∧ ca_value ca' = Some (Err (RpcConnection e))).
Proof.
  unfold fail_calls. revert c. induction ids as [|i ids IH]; intros c Hc; simpl in Hc; [exists ca'; split_and!; try done; by left|].
  apply IH in Hc as (ca1 & Hc & (S1 & S2 & S3) & Hp & Hv). simpl in Hc. rewrite lookup_alter in Hc. case_decide; [|by exists ca1].
  subst i. apply fmap_Some in Hc as (ca & Hc & ->). exists ca. destruct (offer_same (Err (RpcConnection e)) ca) as (E1 & E2 & E3 & E4 & E5).
  split; [done|]. split; [split_and!; congruence|]. split; [congruence|]. rewrite E5, E4 in Hv. destruct (is_waiting (ca_phase ca)); [|done].
  right. split; [done|]. by destruct Hv as [->|[_ ->]].
Qed.

Lemma moves_finish l c c0 error : rc_calls c = rc_calls c0 → call_moves l c0 (finish error c).
Proof.
  intros He id ca' Hc. left. unfold finish in Hc. destruct error as [e|]; simpl in Hc.
  - apply fail_calls_values in Hc as (ca1 & Hc & (S1 & S2 & S3) & Hp1 & Hv1).
    apply fail_calls_values in Hc as (ca & Hc & (S4 & S5 & S6) & Hp2 & Hv2). rewrite He in Hc. exists ca.
    split; [done|]. split; [split_and!; congruence|]. left. split; [congruence|].
    destruct Hv1 as [Hv1|[Hw1 Hv1]]; [destruct Hv2 as [Hv2|[Hw2 Hv2]]|]; [left; congruence|right..]; (split; [congruence|]); (exists (Err (RpcConnection e)); split; [by rewrite ?Hv1, ?Hv2|done]).
  - rewrite He in Hc. exists ca'. split; [done|]. split; [done|]. left. split; [done|]. by left.
Qed.

Lemma moves_loop_top l c0 c : (∀ c', rc_calls c' = rc_calls c → rc_dispatcher c' = Selecting ∨ (∃ e, rc_dispatcher c' = Stopped e) → call_moves l c0 c') →
  call_moves l c0 (loop_top c).
Proof. intros H. unfold loop_top. destruct (_ && _); apply H; simpl; eauto. Qed.

Lemma pull_request_moves n now c c' :
  client_pre config n c → pull_request config delay_limit now c = Some c' → call_moves (PullRequest now) c c'.
Proof.
  intros H. unfold pull_request. destruct (_ && _); [|done]. destruct (rc_requests c) as [|q rest] eqn:Hq.
  - destruct (rc_clients c); [done|]. intros [= <-]. apply moves_loop_top. intros c' He _. by apply moves_same.
  - destruct (in_request _ _ _ H q) as (ca & Hc & Hx & _); [rewrite Hq; by left|].
    change (is_closed (with_requests c rest) (dq_request_id q)) with (is_closed c (dq_request_id q)).
    destruct (is_closed c _); [|destruct (_ =? 0)%Z eqn:Ht; [|destruct (_ <? _)%Z]].
    + intros [= <-]. apply moves_loop_top. intros c' He _. by apply moves_same.
    + intros [= <-]. apply moves_loop_top. intros c' He _. eapply moves_value; [exact He|].
      intros ca1 Hc1. assert (ca1 = ca) as -> by congruence. exists now. split; [by left|]. rewrite <- Hx.
      by apply remaining_micros_zero, Z.eqb_eq.
    + intros [= <-]. by apply moves_same.
    + destruct (insert_deadline _ _ _) as [key deadlines]. intros [= <-]. by apply moves_same.
Qed.

Lemma receive_moves event c : call_moves (Receive event) c (receive event c).
Proof.
  destruct event as [[[id code body]| |e]|]; simpl; [|by apply moves_finish..].
  destruct (rc_in_flight c !! id) as [p|]; [|apply moves_loop_top; intros c' He _; by apply moves_same].
  destruct (remove_deadline _ _); [|by apply moves_same]. apply moves_loop_top. intros c' He _. eapply moves_value; [exact He|].
  intros ca Hc. destruct code as [code|]; simpl; eauto.
Qed.

Lemma expire_moves n key now c c' : client_pre config n c → expire key now c = Some c' → call_moves (Expire key now) c c'.
Proof.
  intros H. unfold expire. destruct (rc_deadlines c !! key) as [[id d]|] eqn:Hk; [|done]. cbn [mbind option_bind].
  destruct (now <? d)%Z eqn:Hd; [done|]. apply Z.ltb_ge in Hd. destruct (rc_in_flight c !! id); intros [= <-].
  - eapply moves_value; [done|]. intros ca Hc. exists now. split; [right; by eexists|].
    destruct (in_call _ _ _ H id ca Hc) as (_ & _ & _ & _ & _ & _ & D). rewrite <- (D key d Hk). unfold NANOS_PER_MICRO. lia.
  - apply moves_loop_top. intros c' He _. by apply moves_same.
Qed.

Lemma step_moves n l c c' : client_inv config n c → step l c = Some c' → call_moves l c c'.
Proof.
  intros [H _]. destruct l as [context request|id|id|id|id| |now| |event|key now| | | |r]; simpl.
  - destruct (rc_clients c); [|done]. unfold start_call. destruct (encode request) as [body|e]; simpl; [|intros [= <-]; by apply moves_same].
    unfold reject_if. destruct (_ <? _)%Z; simpl; intros [= <-]; [by apply moves_same|].
    intros j ca' Hj. simpl in Hj. revert Hj. intros [[<- <-]|[_ Hj]]%lookup_insert_Some.
    + right. exists context, request. split_and!; try done. destruct (rc_calls c !! rc_next_id c) eqn:Hc; [|done].
      pose proof (in_calls _ _ _ H _ (mk_is_Some _ _ Hc)). lia.
    + left. exists ca'. split; [done|]. split; [done|]. left. split; [done|]. by left.
  - unfold enqueue_call. destruct (rc_calls c !! id) as [ca|] eqn:Hc; [|done]. cbn [mbind option_bind].
    destruct (ca_phase ca) eqn:Hp; try done. destruct (_ && _); [|done]. intros [= <-]. by eapply moves_phase.
  - unfold poll_call. destruct (rc_calls c !! id) as [ca|] eqn:Hc; [|done]. cbn [mbind option_bind].
    destruct (in_call _ _ _ H id ca Hc) as (_ & _ & _ & _ & W & _ & _). destruct (ca_phase ca) eqn:Hp; try done.
    + destruct (running c) eqn:Hr; [done|]. intros [= <-]. by eapply moves_phase.
    + destruct (ca_value ca) as [v|] eqn:Hv; [|destruct (sender_live c id) eqn:Hl; [done|]]; intros [= <-];
        (eapply moves_phase; [done..|]); (split; [done|]); simpl; right; [left; by exists v|right].
      split; [done|]. apply not_true_is_false. intros Hr. apply orb_false_iff in Hl as [Hl1%bool_decide_eq_false Hl2%bool_decide_eq_false].
      by destruct (W Hr eq_refl eq_refl).
  - unfold drop_call. destruct (rc_calls c !! id) as [ca|] eqn:Hc; [|done]. cbn [mbind option_bind].
    destruct (is_waiting (ca_phase ca)); [|done]. intros [= <-]. by eapply moves_phase.
  - unfold send_cancellation. destruct (rc_calls c !! id) as [ca|] eqn:Hc; [|done]. cbn [mbind option_bind].
    destruct (ca_phase ca) as [| |r| |] eqn:Hp; try done. intros [= <-]. eapply (moves_phase _ _ _ id ca); [done|by destruct (running c)|].
    split; [done|]. simpl. destruct r as [r|]; [|done]. by left.
  - unfold drop_clients. destruct (bool_decide _); [|done]. intros [= <-]. by apply moves_same.
  - unfold select. destruct (rc_dispatcher c); try done. by apply (pull_request_moves n).
  - unfold select. destruct (rc_dispatcher c); try done. unfold pull_cancellation. destruct (rc_cancellations c) as [|id rest].
    + destruct (rc_clients c); [done|]. intros [= <-]. apply moves_loop_top. intros c' He _. by apply moves_same.
    + simpl. destruct (rc_in_flight c !! id); intros [= <-].
      * destruct (remove_deadline _ _); by apply moves_same.
      * apply moves_loop_top. intros c' He _. by apply moves_same.
  - unfold select. destruct (rc_dispatcher c); try done. intros [= <-]. apply receive_moves.
  - unfold select. destruct (rc_dispatcher c); try done. by apply (expire_moves n).
  - unfold select. destruct (rc_dispatcher c); try done. destruct (rc_writer c); [|done]. intros [= <-]. by apply moves_finish.
  - destruct (rc_dispatcher c); try done. unfold send_frame. destruct (rc_writer c); [intros [= <-]; by apply moves_finish|].
    destruct (_ <? _)%Z; [|done]. intros [= <-]. apply moves_loop_top. intros c' He _. by apply moves_same.
  - destruct (_ && _); [|done]. intros [= <-]. by apply moves_same.
  - destruct (bool_decide _); [|done]. intros [= <-]. by apply moves_same.
Qed.

(** A dispatcher that has ended stays so. *)
Lemma ended_stays l c c' : running c = false → step l c = Some c' → rc_dispatcher c' = rc_dispatcher c.
Proof.
  unfold running. intros Hr. destruct l as [context request|id|id|id|id| |now| |event|key now| | | |r]; simpl; unfold select;
    destruct (rc_dispatcher c) eqn:Hd; try done; rewrite <- Hd; clear Hr.
  all: unfold start_call, enqueue_call, poll_call, drop_call, send_cancellation, drop_clients, reject_if; intros Hs.
  all: repeat case_match; simplify_option_eq; repeat case_match; simplify_option_eq; done.
Qed.

(** *** Answers are true *)

Definition told (steps : list (ClientStep (Req:=Req))) c (id : Z) ca (v : ResponseSlot) : Prop :=
  match v with
  | Ok (inl body) => Receive (Some (EvFrame (FResponse id None body))) ∈ steps
  | Ok (inr st) => ∃ code body, Receive (Some (EvFrame (FResponse id (Some code) body))) ∈ steps ∧ st = status_from_wire code body
  | Err RpcDeadlineExceeded =>
      ∃ now, (PullRequest now ∈ steps ∨ ∃ key, Expire key now ∈ steps) ∧ (cx_deadline (ca_context ca) - now < NANOS_PER_MICRO)%Z
  | Err (RpcConnection e) => rc_dispatcher c = Stopped (Some e)
  | Err _ => False
  end.

Definition truthful (steps : list (ClientStep (Req:=Req))) c id ca : Prop :=
  StartCall (ca_context ca) (ca_request ca) ∈ steps
  ∧ (∀ v, ca_value ca = Some v → told steps c id ca v)
  ∧ ∀ r, ca_phase ca = Finished r ∨ ca_phase ca = Dropping (Some r) →
      (∃ v, ca_value ca = Some v ∧ r = call_result v) ∨ r = Err RpcShutdown ∧ running c = false.

Lemma told_later steps l c c' id ca ca' v :
  told steps c id ca v → (running c = false → rc_dispatcher c' = rc_dispatcher c) → same_request ca ca' → told (steps ++ [l]) c' id ca' v.
Proof.
  intros Ht Hend (_ & Hx & _). assert (Hin : ∀ x, x ∈ steps → x ∈ steps ++ [l]) by (intros x Hx'; apply elem_of_app; by left).
  destruct v as [[body|st]|[]]; simpl in *; try done.
  - by apply Hin.
  - destruct Ht as (code & body & ? & ?). exists code, body. split; [by apply Hin|done].
  - destruct Ht as (now & Hn & ?). exists now. rewrite Hx. split; [|done]. destruct Hn as [?|[key ?]]; [left; by apply Hin|right; exists key; by apply Hin].
  - rewrite Hend; [done|]. unfold running. by rewrite Ht.
Qed.

Lemma told_now steps l c id ca v : told_by l c id ca v → told (steps ++ [l]) c id ca v.
Proof.
  assert (Hin : l ∈ steps ++ [l]) by (apply elem_of_app; right; by apply list_elem_of_singleton).
  destruct v as [[body|st]|[]]; simpl; try done.
  - by intros <-.
  - intros (code & body & Hl & ->). subst l. by exists code, body.
  - intros (now & [->|[key ->]] & Hd); exists now; (split; [|done]); [by left|right; by exists key].
Qed.

Lemma truthful_step n steps l c c' id ca ca' :
  client_inv config n c → step l c = Some c' → truthful steps c id ca → same_request ca ca' →
  got_value l c' id ca ca' ∨ moved_on c ca ca' → truthful (steps ++ [l]) c' id ca'.
Proof.
  intros Hinv Hl (Hstart & Hval & Hres) Hsame Hmove.
  assert (Hend : running c = false → rc_dispatcher c' = rc_dispatcher c) by (intros Hr; by eapply ended_stays).
  assert (Hrun : running c = false → running c' = false).
  { intros Hr. unfold running in *. by rewrite (Hend Hr). }
  split. { destruct Hsame as (-> & -> & _). apply elem_of_app. by left. }
  destruct Hmove as [[Hp Hv]|[Hv Hp]]; split.
  - intros v Hv'. destruct Hv as [Hv|(_ & v' & Hv & Ht)].
    + eapply told_later; [apply Hval; congruence|done|done].
    + assert (v' = v) as -> by congruence. by apply told_now.
  - intros r Hr. rewrite Hp in Hr. destruct (Hres r Hr) as [(v & Hv0 & ->)|[-> Hr0]]; [|right; by auto].
    left. exists v. split; [|done]. destruct Hv as [Hv|(Hw & _)]; [congruence|]. by destruct Hr as [Hr|Hr]; rewrite Hr in Hw.
  - intros v Hv'. eapply told_later; [apply Hval; congruence|done|done].
  - intros r [Hr|Hr]; rewrite Hr in Hp; rewrite Hv.
    + destruct Hp as [Hp|[Hp|[-> Hp]]]; [|by left|right; by auto].
      destruct (Hres r (or_intror Hp)) as [?|[-> ?]]; [by left|right; by auto].
    + destruct Hp as [-> Hp]. right. by auto.
Qed.

Lemma run_truthful steps : short steps → ∀ id ca, rc_calls (run steps spawn_client) !! id = Some ca → truthful steps (run steps spawn_client) id ca.
Proof.
  induction steps as [|l steps IH] using rev_ind; intros Hs id ca'; [simpl; by rewrite lookup_empty|].
  assert (Hs' : short steps) by (unfold short in *; rewrite length_app in Hs; simpl in Hs; lia). rewrite client_steps_snoc.
  pose proof (client_run_inv steps Hs') as Hinv. specialize (IH Hs'). set (c := run steps spawn_client) in *. clearbody c.
  destruct (step l c) as [c'|] eqn:Hl; simpl; intros Hc.
  - destruct (step_moves _ l c c' Hinv Hl id ca' Hc) as [(ca & Hc0 & Hsame & Hmove)|(context & request & -> & _ & <- & <- & Hp & Hv)].
    + eapply truthful_step; [done..|by apply IH|done|done].
    + split; [apply elem_of_app; right; by apply list_elem_of_singleton|]. split; [by rewrite Hv|].
      intros r [Hr|Hr]; congruence.
  - destruct (IH id ca' Hc) as (Hstart & Hval & Hres). split; [apply elem_of_app; by left|]. split; [|done].
    intros v Hv. by eapply told_later; [apply Hval|..].
Qed.

(** What a call returns is true: its answer is the decoded body of a response
    to it that the server sent, a status is one the server sent for it, a deadline
    error comes when less than a microsecond of its deadline is left, a connection
    error is the one the connection has ended with, and the client is shut down
    only when its dispatcher has ended. *)
Theorem call_returns_truth steps id ca r :
  short steps → rc_calls (run steps spawn_client) !! id = Some ca → ca_phase ca = Finished r →
  let c := run steps spawn_client in
  match r with
  | Ok answer => ∃ body, Receive (Some (EvFrame (FResponse id None body))) ∈ steps ∧ decode body = Ok answer
  | Err (RpcCodec e) => ∃ body, Receive (Some (EvFrame (FResponse id None body))) ∈ steps ∧ decode (Out := Req) (In := Resp) body = Err e
  | Err (Remote status) => ∃ code body, Receive (Some (EvFrame (FResponse id (Some code) body))) ∈ steps
      ∧ status = status_from_wire code body
  | Err RpcDeadlineExceeded => ∃ now, (PullRequest now ∈ steps ∨ ∃ key, Expire key now ∈ steps)
      ∧ (cx_deadline (ca_context ca) - now < NANOS_PER_MICRO)%Z
  | Err (RpcConnection e) => rc_dispatcher c = Stopped (Some e)
  | Err RpcShutdown => running c = false
  | Err (RequestTooLarge _ _) => False
  end.
Proof.
  intros Hs Hc Hp c. destruct (run_truthful steps Hs id ca Hc) as (_ & Hval & Hres).
  destruct (Hres r (or_introl Hp)) as [(v & Hv & ->)|[-> ?]]; [|done]. specialize (Hval v Hv).
  destruct v as [[body|st]|[]]; simpl in *; try done. destruct (decode body) as [answer|e] eqn:Hd; by exists body.
Qed.

(** *** The tables and the wire *)

Lemma loop_top_alive c : rc_dispatcher (loop_top c) ≠ Panicked.
Proof. unfold loop_top. by destruct (_ && _). Qed.

(** The dispatcher panics only on a deadline it cannot wait for. *)
Lemma step_panics n l c c' :
  client_inv config n c → step l c = Some c' → rc_dispatcher c' = Panicked →
  rc_dispatcher c = Panicked ∨ ∃ now id ca, l = PullRequest now ∧ rc_calls c !! id = Some ca ∧ (now + delay_limit < cx_deadline (ca_context ca))%Z.
Proof.
  intros [H _] Hs Hp. destruct (running c) eqn:Hr; [|left; rewrite <- Hp; symmetry; by eapply ended_stays].
  destruct l as [context request|id|id|id|id| |now| |event|key now| | | |r]; simpl in Hs.
  1-6,13-14: left; rewrite <- Hp; symmetry; revert Hs;
    unfold start_call, enqueue_call, poll_call, drop_call, send_cancellation, drop_clients, reject_if; intros Hs;
    repeat case_match; simplify_option_eq; repeat case_match; simplify_option_eq; done.
  - unfold select in Hs. destruct (rc_dispatcher c); try done. unfold pull_request in Hs. destruct (_ && _); [|done].
    destruct (rc_requests c) as [|q rest] eqn:Hq.
    { destruct (rc_clients c); [done|]. injection Hs as <-. by destruct (loop_top_alive (stop_accepting c)). }
    destruct (is_closed _ _). { injection Hs as <-. by destruct (loop_top_alive (with_requests c rest)). }
    destruct (_ =? 0)%Z. { injection Hs as <-. by apply loop_top_alive in Hp. }
    destruct (_ <? _)%Z eqn:Hlt; [|destruct (insert_deadline _ _ _); by injection Hs as <-].
    right. destruct (in_request _ _ _ H q) as (ca & Hc & Hx & _); [rewrite Hq; by left|].
    exists now, (dq_request_id q), ca. rewrite <- Hx. split; [done|]. split; [done|]. by apply Z.ltb_lt.
  - unfold select in Hs. destruct (rc_dispatcher c); try done. unfold pull_cancellation in Hs. destruct (rc_cancellations c) as [|id rest].
    { destruct (rc_clients c); [done|]. injection Hs as <-. by apply loop_top_alive in Hp. }
    simpl in Hs. destruct (rc_in_flight c !! id) as [p|] eqn:Hf; injection Hs as <-; [|by apply loop_top_alive in Hp].
    destruct (tables_remove _ _ _ _ (in_tables _ _ _ H) Hf) as (d & _ & Hrem). by rewrite Hrem in Hp.
  - unfold select in Hs. destruct (rc_dispatcher c); try done. injection Hs as <-. destruct event as [[[id code body]| |e]|]; try done.
    simpl in Hp. destruct (rc_in_flight c !! id) as [p|] eqn:Hf; [|by apply loop_top_alive in Hp].
    destruct (tables_remove _ _ _ _ (in_tables _ _ _ H) Hf) as (d & _ & Hrem). rewrite Hrem in Hp. by apply loop_top_alive in Hp.
  - unfold select in Hs. destruct (rc_dispatcher c); try done. unfold expire in Hs.
    destruct (rc_deadlines c !! key) as [[id d]|]; [|done]. cbn [mbind option_bind] in Hs. destruct (now <? d)%Z; [done|].
    destruct (rc_in_flight c !! id); injection Hs as <-; [done|by apply loop_top_alive in Hp].
  - unfold select in Hs. destruct (rc_dispatcher c); try done. destruct (rc_writer c); [|done]. by injection Hs as <-.
  - destruct (rc_dispatcher c); try done. unfold send_frame in Hs. destruct (rc_writer c); [by injection Hs as <-|].
    destruct (_ <? _)%Z; [|done]. injection Hs as <-. by apply loop_top_alive in Hp.
Qed.

Lemma run_panics steps : short steps → rc_dispatcher (run steps spawn_client) = Panicked →
  ∃ now context request, PullRequest now ∈ steps ∧ StartCall context request ∈ steps ∧ (now + delay_limit < cx_deadline context)%Z.
Proof.
  induction steps as [|l steps IH] using rev_ind; intros Hs Hp; [done|].
  assert (Hs' : short steps) by (unfold short in *; rewrite length_app in Hs; simpl in Hs; lia). rewrite client_steps_snoc in Hp.
  assert (Hold : rc_dispatcher (run steps spawn_client) = Panicked →
    ∃ now context request, PullRequest now ∈ steps ++ [l] ∧ StartCall context request ∈ steps ++ [l] ∧ (now + delay_limit < cx_deadline context)%Z).
  { intros Hpc. destruct (IH Hs' Hpc) as (now & context & request & ? & ? & ?). exists now, context, request.
    rewrite !elem_of_app. auto. }
  destruct (step l (run steps spawn_client)) as [c'|] eqn:Hl; simpl in Hp; [|by apply Hold].
  destruct (step_panics _ _ _ _ (client_run_inv steps Hs') Hl Hp) as [?|(now & id & ca & -> & Hc & Hlt)]; [by apply Hold|].
  destruct (run_truthful steps Hs' id ca Hc) as (Hstart & _). exists now, (ca_context ca), (ca_request ca).
  rewrite !elem_of_app, list_elem_of_singleton. auto.
Qed.

Definition typed (steps : list (ClientStep (Req:=Req))) : Prop :=
  ∀ context request, StartCall context request ∈ steps → length (cx_trace_id context) = 16.

(** C9: Whatever callers, peer, clock and writer do, at most the configured number
    of calls is in flight, each with its own deadline armed; a call in flight whose
    caller is gone has its cancellation queued or about to be; every frame handed
    to the writer is one it can write, so that no call ends the connection of the
    others, every request is sent once, and cancelled at most once and only after
    it was sent; and the dispatcher panics only on a deadline too far ahead for
    its queue. *)
Theorem connection_sound steps :
  short steps → typed steps → (Z.of_nat REQUEST_HEADER_LEN ≤ fc_max_frame_bytes (cf_frame config))%Z →
  let c := run steps spawn_client in
  (Z.of_nat (size (rc_in_flight c)) ≤ Z.max 0 (cf_max_in_flight_requests config))%Z
  ∧ (∀ id p, rc_in_flight c !! id = Some p → ∃ ca, rc_calls c !! id = Some ca ∧ ca_value ca = None
       ∧ rc_deadlines c !! pe_deadline_key p = Some (id, cx_deadline (ca_context ca))
       ∧ (is_waiting (ca_phase ca) = true ∨ (∃ r, ca_phase ca = Dropping r) ∨ id ∈ rc_cancellations c))
  ∧ (∀ key id d, rc_deadlines c !! key = Some (id, d) → rc_in_flight c !! id = Some (mkPending key))
  ∧ Forall (within client_fits (cf_frame config)) (rc_sent c) ∧ wire_ok (rc_sent c)
  ∧ (rc_dispatcher c = Panicked → ∃ now context request,
       PullRequest now ∈ steps ∧ StartCall context request ∈ steps ∧ (now + delay_limit < cx_deadline context)%Z).
Proof.
  intros Hs Ht Hmax c. pose proof (client_run_inv steps Hs) as [H _]. fold c in H.
  assert (Hlog : ∀ f, f ∈ rc_sent c → f ∈ frame_log c) by (intros f Hf; unfold frame_log; apply elem_of_app; by left).
  pose proof (in_next _ _ _ H) as Hnext. unfold short in Hs. split_and!.
  - exact (in_size _ _ _ H).
  - intros id p Hp. destruct (in_known _ _ _ H id) as [ca Hc]; [right; left; by eexists|]. exists ca.
    destruct (in_call _ _ _ H id ca Hc) as (_ & F & A & _ & _ & _ & D). destruct (F (mk_is_Some _ _ Hp)) as (_ & ? & _).
    destruct (proj1 (in_tables _ _ _ H) id p Hp) as [d Hd]. split; [done|]. split; [done|]. rewrite <- (D _ _ Hd). split; [done|].
    destruct (is_waiting (ca_phase ca)) eqn:Hw; [by left|right]. apply A; [by eexists|done].
  - apply (in_tables _ _ _ H).
  - apply Forall_forall. intros f Hf. destruct f as [id t tr b|id].
    + destruct (in_frame _ _ _ H id t tr b (Hlog _ Hf)) as (Hrange & ca & Hc & -> & ->).
      destruct (run_truthful steps Hs id ca Hc) as (Hstart & _). destruct (in_call _ _ _ H id ca Hc) as (_ & _ & _ & _ & _ & [_ Hlen] & _).
      pose proof (in_calls _ _ _ H id (mk_is_Some _ _ Hc)). unfold within, client_fits, in_u64, u64_max in *. simpl. split; [|].
      * split; [lia|]. split; [lia|]. by eapply Ht.
      * unfold max_body_bytes, REQUEST_HEADER_LEN in *. lia.
    + assert (Hid : id ∈ requested (frame_log c)).
      { apply (wire_ok_cancels _ (in_log _ _ _ H)). apply list_elem_of_omap. exists (FCancel id). split; [by apply Hlog|done]. }
      destruct (in_known _ _ _ H id) as [ca Hc]; [by right; right|]. pose proof (in_calls _ _ _ H id (mk_is_Some _ _ Hc)).
      unfold within, client_fits, in_u64, u64_max, REQUEST_HEADER_LEN in *. simpl. unfold CANCEL_FRAME_LEN. lia.
  - pose proof (in_log _ _ _ H) as Hw. unfold frame_log in Hw. destruct (rc_dispatcher c); try by rewrite app_nil_r in Hw.
    by apply wire_ok_init in Hw.
  - by apply run_panics.
Qed.

(** *** Calls end *)

(** What the client's own tasks do at the instant [now], without new calls and
    without the peer. *)
Definition own_step (now : Z) (l : ClientStep (Req:=Req)) c : Prop :=
  match l with
  | PullRequest t | Expire _ t => t = now
  | PullCancellation => rc_cancellations c ≠ []
  | JoinWriter | FrameSent | WriterTakes => True
  | _ => False
  end.

(** Every caller can go on: one who waits for an answer gets it at the next poll,
    one who waits for room in the queue finds it or is told. If the dispatcher
    still runs, it holds no call, and somebody holds a handle. *)
Definition settled c : Prop :=
  (∀ id ca, rc_calls c !! id = Some ca →
     match ca_phase ca with
     | Sending => is_Some (step (PollCall id) c) ∨ is_Some (step (EnqueueCall id) c)
     | Waiting => ∃ r, step (PollCall id) c = Some (with_calls c (<[id := set_phase (Finished r) ca]> (rc_calls c)))
     | _ => True
     end)
  ∧ (running c = true → rc_in_flight c = ∅ ∧ rc_requests c = [] ∧ rc_cancellations c = [] ∧ rc_clients c = true).

(** Every way of going on reaches such a state, and none stops before. *)
Inductive settles (now : Z) : Client → Prop :=
| settles_intro c :
    (settled c ∨ ∃ l c', own_step now l c ∧ step l c = Some c') →
    (∀ l c', own_step now l c → step l c = Some c' → settles now c') → settles now c.

Definition load c : nat :=
  6 * length (rc_requests c) + 3 * size (rc_in_flight c) + length (rc_cancellations c)
  + match rc_dispatcher c with SendingFrame _ => 3 | Selecting => 1 | _ => 0 end
  + (length (rc_sent c) - rc_taken c) + (if rc_accepting c then 1 else 0).

Lemma load_finish n error c : client_pre config n c → load (finish error c) ≤ (length (rc_sent c) - rc_taken c) + (if rc_accepting c then 1 else 0).
Proof. intros H. destruct (finish_eq config n error c H) as (m & _ & ->). unfold load. simpl. rewrite map_size_empty. lia. Qed.

Lemma load_loop_top c : load (loop_top c) ≤ load (with_dispatcher c Selecting).
Proof.
  unfold loop_top. destruct (_ && _); [|done]. unfold finish, load. simpl. rewrite map_size_empty. lia.
Qed.

Lemma load_panic c : load (panic c) ≤ (length (rc_sent c) - rc_taken c) + (if rc_accepting c then 1 else 0).
Proof. unfold panic, load. simpl. rewrite map_size_empty. lia. Qed.

Lemma load_decreases n now l c c' : client_inv config n c → own_step now l c → step l c = Some c' → load c' < load c.
Proof.
  intros [H _] Hi Hs. destruct l as [context request|id|id|id|id| |t| |event|key t| | | |r]; simpl in Hi; try done; simpl in Hs; unfold select in Hs.
  - destruct (rc_dispatcher c) eqn:Hd; try done. unfold pull_request in Hs. destruct (_ && _) eqn:Hg; [|done].
    apply andb_true_iff in Hg as [Hacc _]. destruct (rc_requests c) as [|q rest] eqn:Hq.
    { destruct (rc_clients c); [done|]. injection Hs as <-. eapply Nat.le_lt_trans; [apply load_loop_top|].
      unfold load. simpl. rewrite Hq, Hd, Hacc. simpl. lia. }
    destruct (is_closed _ _); [|destruct (_ =? 0)%Z; [|destruct (_ <? _)%Z]].
    + injection Hs as <-. eapply Nat.le_lt_trans; [apply load_loop_top|]. unfold load. simpl. rewrite Hq, Hd. simpl. lia.
    + injection Hs as <-. eapply Nat.le_lt_trans; [apply load_loop_top|]. unfold load. simpl. rewrite Hq, Hd. simpl. lia.
    + injection Hs as <-. eapply Nat.le_lt_trans; [apply load_panic|]. unfold load. simpl. rewrite Hq, Hd. simpl. lia.
    + destruct (insert_deadline _ _ _) as [key deadlines]. injection Hs as <-. unfold load. simpl. rewrite Hq, Hd. simpl.
      pose proof (map_size_insert (dq_request_id q) (mkPending key) (rc_in_flight c)) as Hsz. rewrite Hsz. case_match; simpl; unfold id; lia.
  - destruct (rc_dispatcher c) eqn:Hd; try done. unfold pull_cancellation in Hs. destruct (rc_cancellations c) as [|id rest] eqn:Hq; [done|].
    simpl in Hs. destruct (rc_in_flight c !! id) as [p|] eqn:Hf; injection Hs as <-.
    + destruct (remove_deadline _ _) as [deadlines|].
      * unfold load. simpl. rewrite Hd, Hq, map_size_delete_Some by by eexists. simpl.
        assert (0 < size (rc_in_flight c)) by (apply Nat.neq_0_lt_0; intros He%map_size_empty_inv; by rewrite He, lookup_empty in Hf). lia.
      * eapply Nat.le_lt_trans; [apply load_panic|]. unfold load. simpl. rewrite Hd. lia.
    + eapply Nat.le_lt_trans; [apply load_loop_top|]. unfold load. simpl. rewrite Hd, Hq. simpl. lia.
  - destruct (rc_dispatcher c) eqn:Hd; try done. unfold expire in Hs. destruct (rc_deadlines c !! key) as [[id d]|] eqn:Hk; [|done].
    cbn [mbind option_bind] in Hs. destruct (t <? d)%Z; [done|]. pose proof (proj2 (in_tables _ _ _ H) key id d Hk) as Hf. rewrite Hf in Hs.
    injection Hs as <-. unfold load. simpl. rewrite Hd, map_size_delete_Some by by eexists. simpl.
    assert (0 < size (rc_in_flight c)) by (apply Nat.neq_0_lt_0; intros He%map_size_empty_inv; by rewrite He, lookup_empty in Hf). lia.
  - destruct (rc_dispatcher c) eqn:Hd; try done. destruct (rc_writer c); [|done]. injection Hs as <-.
    eapply Nat.le_lt_trans; [by eapply load_finish|]. unfold load. rewrite Hd. lia.
  - destruct (rc_dispatcher c) eqn:Hd; try done. unfold send_frame in Hs. destruct (rc_writer c).
    + injection Hs as <-. eapply Nat.le_lt_trans; [by eapply load_finish|]. unfold load. rewrite Hd. lia.
    + destruct (_ <? _)%Z; [|done]. injection Hs as <-. eapply Nat.le_lt_trans; [apply load_loop_top|]. unfold load. simpl.
      rewrite Hd, length_app. simpl. lia.
  - destruct (_ && _) eqn:Hg; [|done]. injection Hs as <-. apply andb_true_iff in Hg as [_ Ht%Nat.ltb_lt]. unfold load. simpl. lia.
Qed.

(** The capacities are of type [usize]. *)
Definition usable : Prop :=
  validate_client_config config = Ok tt ∧ in_u64 (cf_pending_request_buffer config) ∧ in_u64 (cf_max_in_flight_requests config)
  ∧ in_u64 (cf_outbound_frame_buffer config).

Lemma usable_positive : usable →
  (0 < cf_pending_request_buffer config ∧ 0 < cf_max_in_flight_requests config ∧ 0 < cf_outbound_frame_buffer config)%Z.
Proof.
  intros (Hv & [? _] & [? _] & [? _]). unfold validate_client_config in Hv.
  apply bind_Ok_tt in Hv as [Hb1%reject_if_Ok Hv]. apply bind_Ok_tt in Hv as [Hb2%reject_if_Ok Hv].
  apply bind_Ok_tt in Hv as [Hb3%reject_if_Ok _]. apply Z.eqb_neq in Hb1, Hb2, Hb3. lia.
Qed.

(** After the dispatcher's end every caller learns of it. *)
Lemma ended_settled n c : client_inv config n c → running c = false → settled c.
Proof.
  intros [H _] Hr. split; [|congruence]. intros id ca Hc. destruct (in_stopped _ _ _ H Hr) as [Hq Hf].
  destruct (ca_phase ca) eqn:Hp; try done; simpl; unfold poll_call; rewrite Hc; cbn [mbind option_bind]; rewrite Hp.
  - left. rewrite Hr. by eexists.
  - destruct (ca_value ca); [by eexists|]. unfold sender_live. rewrite Hq, Hf, lookup_empty.
    rewrite !bool_decide_eq_false_2; [by eexists|by intros []|apply not_elem_of_nil].
Qed.

(** The dispatcher waits for nothing that is there. *)
Lemma idle_settled n c :
  usable → client_inv config n c → rc_dispatcher c = Selecting → rc_cancellations c = [] → rc_in_flight c = ∅ →
  rc_requests c = [] → rc_clients c = true → settled c.
Proof.
  intros Hu [H _] Hd Hcan Hf Hq Hcl. pose proof (usable_positive Hu) as (Hpos & _).
  split; [|done]. intros id ca Hc. destruct (in_call _ _ _ H id ca Hc) as (_ & _ & _ & _ & W & _). assert (Hr : running c = true) by (unfold running; by rewrite Hd).
  destruct (ca_phase ca) eqn:Hp; try done; simpl.
  - right. unfold enqueue_call. rewrite Hc. cbn [mbind option_bind]. rewrite Hp, Hr, Hq. simpl.
    rewrite (proj2 (Z.ltb_lt _ _)) by lia. by eexists.
  - unfold poll_call. rewrite Hc. cbn [mbind option_bind]. rewrite Hp. destruct (ca_value ca) eqn:Hv; [by eexists|].
    destruct (W Hr eq_refl eq_refl) as [Hin|[p Hin]]; [|by rewrite Hf, lookup_empty in Hin].
    unfold queued in Hin. rewrite Hq in Hin. by apply not_elem_of_nil in Hin.
Qed.

Lemma progress n now c :
  usable → client_inv config n c → (∀ id ca, rc_calls c !! id = Some ca → (cx_deadline (ca_context ca) ≤ now)%Z) →
  settled c ∨ ∃ l c', own_step now l c ∧ step l c = Some c'.
Proof.
  intros Hu Hinv Hnow. pose proof (usable_positive Hu) as (_ & Hmax & Hout). pose proof (proj1 Hinv) as H.
  destruct (running c) eqn:Hr; [|left; by eapply ended_settled].
  destruct (rc_dispatcher c) as [|f| |] eqn:Hd; try (unfold running in Hr; by rewrite Hd in Hr).
  - destruct (rc_cancellations c) as [|id rest] eqn:Hcan.
    2:{ right. exists PullCancellation. simpl. unfold select, pull_cancellation. rewrite Hd, Hcan.
        destruct (rc_in_flight _ !! id); eexists; split; try done; reflexivity. }
    destruct (decide (rc_in_flight c = ∅)) as [Hf|Hf].
    2:{ right. apply map_choose in Hf as (id & p & Hp). destruct (proj1 (in_tables _ _ _ H) id p Hp) as [d Hk].
        destruct (in_known _ _ _ H id) as [ca Hc]; [right; left; by eexists|].
        destruct (in_call _ _ _ H id ca Hc) as (_ & _ & _ & _ & _ & _ & D). pose proof (D _ _ Hk) as ->.
        exists (Expire (pe_deadline_key p) now). simpl. unfold select, expire. rewrite Hd, Hk. cbn [mbind option_bind].
        rewrite (proj2 (Z.ltb_ge _ _)) by (by eapply Hnow). rewrite Hp. eexists. split; [done|reflexivity]. }
    destruct (proj2 Hinv Hd) as [Hacc|?]; [|done].
    assert (Hroom : (Z.of_nat (size (rc_in_flight c)) <? cf_max_in_flight_requests config)%Z = true) by (apply Z.ltb_lt; rewrite Hf, map_size_empty; lia).
    destruct (rc_requests c) as [|q rest] eqn:Hq.
    + destruct (rc_clients c) eqn:Hcl; [left; by eapply idle_settled|]. right. exists (PullRequest now). simpl. unfold select, pull_request.
      rewrite Hd, Hacc, Hroom, Hq, Hcl. eexists. split; [done|reflexivity].
    + right. exists (PullRequest now). simpl. unfold select, pull_request. rewrite Hd, Hacc, Hroom, Hq. simpl.
      destruct (is_closed _ _); [eexists; split; [done|reflexivity]|]. destruct (_ =? 0)%Z; [eexists; split; [done|reflexivity]|].
      destruct (now + delay_limit <? cx_deadline (dq_context q))%Z; eexists; (split; [done|reflexivity]).
  - right. destruct (rc_writer c) as [r|] eqn:Hw.
    + exists FrameSent. simpl. rewrite Hd. unfold send_frame. rewrite Hw. eexists. split; [done|reflexivity].
    + destruct (Z.ltb_spec (Z.of_nat (length (rc_sent c) - rc_taken c)) (cf_outbound_frame_buffer config)) as [Hlt|Hge].
      * exists FrameSent. simpl. rewrite Hd. unfold send_frame. rewrite Hw, (proj2 (Z.ltb_lt _ _) Hlt). eexists. split; [done|reflexivity].
      * exists WriterTakes. simpl. rewrite Hw, bool_decide_eq_true_2 by done. simpl. rewrite (proj2 (Nat.ltb_lt _ _)) by lia.
        eexists. split; [done|reflexivity].
Qed.

Lemma own_contexts n now l c c' (P : ClientContext → Prop) : client_inv config n c → own_step now l c → step l c = Some c' →
  (∀ id ca, rc_calls c !! id = Some ca → P (ca_context ca)) → ∀ id ca, rc_calls c' !! id = Some ca → P (ca_context ca).
Proof.
  intros Hinv Hi Hl HP id ca Hc. destruct (step_moves n l c c' Hinv Hl id ca Hc) as [(ca0 & Hc0 & (_ & -> & _) & _)|(? & ? & -> & _)]; [|done].
  by eapply HP.
Qed.

(** C8: No caller waits for ever: once the deadlines of the calls made so far have
    passed, whatever the dispatcher and the writer do next, and without a word
    from the server, they come to an end, and then every caller who waits has an
    answer or can go on; until then they are never stuck. The dispatcher then has
    ended or holds no call, and it has ended if nobody holds the client. *)
Theorem every_call_ends steps now :
  let c := run steps spawn_client in
  usable → (Z.of_nat (length steps + load c) + 1 < u64_max)%Z →
  (∀ id ca, rc_calls c !! id = Some ca → (cx_deadline (ca_context ca) ≤ now)%Z) → settles now c.
Proof.
  intros c Hu Hs Hnow. assert (Hshort : short steps) by (unfold short; lia). pose proof (client_run_inv steps Hshort) as Hinv. fold c in Hinv.
  clearbody c. revert Hs Hinv. generalize (length steps). clear Hshort steps. remember (load c) as k eqn:Hk.
  revert c Hk Hnow. induction k as [k IH] using lt_wf_ind. intros c -> Hnow n Hs Hinv. constructor; [by eapply progress|].
  intros l c' Hi Hl. pose proof (load_decreases _ _ _ _ _ Hinv Hi Hl) as Hlt.
  eapply (IH (load c') Hlt c' eq_refl); [|instantiate (1 := S n); lia|].
  - by eapply (own_contexts _ now l c c' (λ x, (cx_deadline x ≤ now)%Z)).
  - replace (Z.of_nat (S n)) with (Z.of_nat n + 1)%Z by lia. eapply client_step_inv; [exact Hinv|lia|exact Hl].
Qed.
End connection.

(** ** Connections *)

Module RpcClientExample.
#[local] Instance bytes_codec : Codec Octets Octets := {| encode b := Ok b; decode b := Ok b |}.

Definition config : ClientConfig := mkClientConfig 2 1 2 2 (mkFrameConfig 64 16 16 2 8).
Definition limit : Z := 10 * NANOS_PER_SECOND.
Definition context : ClientContext := with_deadline (5 * NANOS_PER_SECOND).
Abbreviation Step := (ClientStep (Req := Octets)).

(** Two calls: the first is answered, the second waits in the queue because one
    call may be in flight, is sent after that and then runs into its deadline. *)
Definition answered : list Step :=
  [StartCall context [x61]; StartCall context [x62]; EnqueueCall 1; EnqueueCall 2; PullRequest 0; FrameSent; WriterTakes;
   PullRequest 1; Receive (Some (EvFrame (FResponse 1 None [x7a]))); PollCall 1].
Definition expired : list Step :=
  answered ++ [PullRequest 2000; FrameSent; WriterTakes; Expire 0 (6 * NANOS_PER_SECOND); FrameSent; PollCall 2].

(** A call is dropped while in flight. *)
Definition abandoned : list Step :=
  [StartCall context [x61]; EnqueueCall 1; PullRequest 0; FrameSent; DropCall 1; SendCancellation 1].

(** A deadline further ahead than the queue of deadlines takes ends the dispatcher,
    and another call of the connection, which had been sent, with it. *)
Definition far_deadline : list Step :=
  [StartCall context [x61]; EnqueueCall 1; PullRequest 0; FrameSent; Receive (Some (EvFrame (FResponse 1 None [])));
   StartCall context [x62]; StartCall (with_deadline (3600 * NANOS_PER_SECOND)) [x63]; EnqueueCall 3; PullRequest 0;
   EnqueueCall 2; PollCall 2].
Definition wide : ClientConfig := mkClientConfig 2 2 2 2 (mkFrameConfig 64 16 16 2 8).

Definition phase_of (c : RpcClient Octets Octets) (id : Z) : option (CallPhase Octets) := ca_phase <$> rc_calls c !! id.

Lemma far_deadline_stops_everyone :
  let c := client_run wide limit far_deadline spawn_client in
  rc_dispatcher c = Panicked ∧ phase_of c 2 = Some (Dropping (Some (Err RpcShutdown))).
Proof. by vm_compute. Qed.

Lemma abandoned_is_cancelled :
  rc_sent (client_run config limit (abandoned ++ [PullCancellation; FrameSent]) spawn_client)
  = [FRequest 1 5000000 (replicate 16 x00) [x61]; FCancel 1].
Proof. by vm_compute. Qed.
End RpcClientExample.

Lemma call_returns_truth_witness :
  ∃ now, (PullRequest now ∈ RpcClientExample.expired ∨ ∃ key, Expire key now ∈ RpcClientExample.expired)
    ∧ (cx_deadline RpcClientExample.context - now < NANOS_PER_MICRO)%Z.
Proof.
  pose (c := @client_run _ _ RpcClientExample.bytes_codec RpcClientExample.config RpcClientExample.limit RpcClientExample.expired spawn_client).
  assert (Hc : ∃ ca, rc_calls c !! 2%Z = Some ca ∧ ca_phase ca = Finished (Err RpcDeadlineExceeded) ∧ ca_context ca = RpcClientExample.context)
    by (eexists; vm_compute; split_and!; reflexivity).
  destruct Hc as (ca & Hc & Hp & Hx). rewrite <- Hx.
  apply (@call_returns_truth _ _ RpcClientExample.bytes_codec RpcClientExample.config RpcClientExample.limit
    RpcClientExample.expired 2 ca (Err RpcDeadlineExceeded)); [by vm_compute|exact Hc|exact Hp].
Defined.

Lemma connection_sound_witness :
  let c := @client_run _ _ RpcClientExample.bytes_codec RpcClientExample.config RpcClientExample.limit RpcClientExample.abandoned spawn_client in
  size (rc_in_flight c) = 1 ∧ Forall (within client_fits (cf_frame RpcClientExample.config)) (rc_sent c) ∧ wire_ok (rc_sent c).
Proof.
  intros c. split; [by vm_compute|].
  assert (Ht : typed RpcClientExample.abandoned).
  { intros context request Hin. unfold RpcClientExample.abandoned in Hin. repeat (apply elem_of_cons in Hin as [He|Hin]; [by inversion He; subst|]).
    by apply not_elem_of_nil in Hin. }
  destruct (@connection_sound _ _ RpcClientExample.bytes_codec RpcClientExample.config RpcClientExample.limit RpcClientExample.abandoned)
    as (_ & _ & _ & Hf & Hw & _); [by vm_compute|exact Ht|by vm_compute|]. split; [exact Hf|exact Hw].
Defined.

Lemma every_call_ends_witness :
  @settles _ _ RpcClientExample.bytes_codec RpcClientExample.config RpcClientExample.limit (6 * NANOS_PER_SECOND)
    (@client_run _ _ RpcClientExample.bytes_codec RpcClientExample.config RpcClientExample.limit RpcClientExample.answered spawn_client).
Proof.
  apply (@every_call_ends _ _ RpcClientExample.bytes_codec RpcClientExample.config RpcClientExample.limit RpcClientExample.answered).
  - unfold usable, in_u64. vm_compute. split_and!; (reflexivity || discriminate).
  - by vm_compute.
  - intros id ca Hc.
    assert (Hall : map_Forall (λ _ ca, (cx_deadline (ca_context ca) ≤ 6 * NANOS_PER_SECOND)%Z)
      (rc_calls (@client_run _ _ RpcClientExample.bytes_codec RpcClientExample.config RpcClientExample.limit RpcClientExample.answered spawn_client)))
      by (apply (bool_decide_unpack _); by vm_compute).
    exact (Hall id ca Hc).
Defined.
