(* ===== verification/RpcServer.v ===== *)
(** The RPC server's end of one connection ([nagisalake-rpc/src/server.rs]): the
    supervisor, which admits requests and keeps the table of those it can cancel,
    the handler tasks, which decode, call the service, encode and respond, and the
    drain at the end, as one state that the tasks change in steps.  What the
    service does, the clock, the reader and the writer are labels.

    Main results: a request is handled at most once and answered at most once,
    with what the service returned for it or with the reason it was refused; the
    handlers that are not cancelled are exactly those in the table and within its
    limit; a connection that ends waits for its handlers, and no longer than the
    grace period for those that do not finish. *)

From S2P Require Import Prelude Octets Frames Rpc RpcClient.
From Stdlib Require Import ZArith Lia Strings.Byte.
From stdpp Require Import pretty.

(** ** Configuration *)

Record ServerConfig := mkServerConfig {
  sg_max_connections : Z;
  sg_max_in_flight : Z;
  sg_max_request_timeout : Z;
  sg_shutdown_grace : Z;
  sg_inbound_frame_buffer : Z;
  sg_outbound_frame_buffer : Z;
  sg_frame : FrameConfig;
}.

Definition MAX_SUPPORTED_REQUEST_TIMEOUT : Z := 24 * 60 * 60 * NANOS_PER_SECOND.

Definition ServerConfig_default : ServerConfig :=
  mkServerConfig 1024 1024 (5 * 60 * NANOS_PER_SECOND) (10 * NANOS_PER_SECOND) 256 256 FrameConfig_default.

Definition validate_server_config (c : ServerConfig) : Res ConfigError unit :=
  reject_if (sg_max_connections c =? 0)%Z (ConfigZero "max_connections") ;;
  reject_if (sg_max_in_flight c =? 0)%Z (ConfigZero "max_in_flight_requests_per_connection") ;;
  reject_if ((sg_max_request_timeout c =? 0) || (MAX_SUPPORTED_REQUEST_TIMEOUT <? sg_max_request_timeout c))%Z
    (InvalidDuration "max_request_timeout") ;;
  reject_if (sg_inbound_frame_buffer c =? 0)%Z (ConfigZero "inbound_frame_buffer") ;;
  reject_if (sg_outbound_frame_buffer c =? 0)%Z (ConfigZero "outbound_frame_buffer") ;;
  validate_frame_config (sg_frame c).

Definition RESPONSE_OVERHEAD : Z := Z.of_nat RESPONSE_HEADER_LEN.
Definition max_response_bytes (c : ServerConfig) : Z := Z.max 0 (fc_max_frame_bytes (sg_frame c) - RESPONSE_OVERHEAD).

(** ** Handlers *)

Definition status_frame (id : Z) (status : Status) : ServerFrame :=
  FResponse id (Some (st_code status)) (into_wire_message status).

(** What came of a request: it could not be decoded, the service returned, or its
    deadline passed first. *)
Inductive Outcome (Resp : Type) :=
| Undecodable (e : CodecError)
| Answered (r : Resp)
| FailedWith (status : Status)
| TimedOut.
Arguments Undecodable {Resp}.
Arguments Answered {Resp}.
Arguments FailedWith {Resp}.
Arguments TimedOut {Resp}.

(** A handler task: its locals, and where it stands. [Responding]: in
    [outgoing.send]; [Returned], [Crashed], [Aborted]: the task is over, and has
    not been joined. *)
Inductive HandlerPhase :=
| Handling
| Responding (f : ServerFrame)
| Returned
| Crashed
| Aborted.

Record Handler := mkHandler {
  hd_context : ServerContext;
  hd_body : Octets;
  hd_phase : HandlerPhase;
  hd_aborted : bool;
}.
Definition hd_id (h : Handler) : Z := sc_request_id (hd_context h).
Definition set_handler_phase (p : HandlerPhase) (h : Handler) : Handler := mkHandler (hd_context h) (hd_body h) p (hd_aborted h).
Definition abort (h : Handler) : Handler := mkHandler (hd_context h) (hd_body h) (hd_phase h) true.
Definition is_finished (h : Handler) : bool := match hd_phase h with Handling | Responding _ => false | _ => true end.

(** Where the supervisor stands: [Rejecting], in [send_status]; [Draining], in
    [drain_handlers], before or after the end of the grace period. *)
Inductive Supervisor :=
| Serving
| Rejecting (f : ServerFrame)
| Draining (error : option ConnectionError) (grace_until : option Z)
| Closed (error : option ConnectionError).

(** [sv_handlers] is the [JoinSet] by task, [sv_aborts] the table of abort handles.
    [sv_received] is what the reader delivered, [sv_handled] what the handlers came
    to, [sv_sent] what [outgoing] was sent, of which the writer has taken the first
    [sv_taken]. *)
Record RpcServer (Resp : Type) := mkRpcServer {
  sv_supervisor : Supervisor;
  sv_shutdown : bool;
  sv_next_task : nat;
  sv_handlers : gmap nat Handler;
  sv_aborts : gmap Z nat;
  sv_received : list ClientFrame;
  sv_handled : list (Z * Octets * Outcome Resp);
  sv_sent : list ServerFrame;
  sv_taken : nat;
  sv_writer : option WriterResult;
}.
Arguments mkRpcServer {Resp}.
Arguments sv_supervisor {Resp}.
Arguments sv_shutdown {Resp}.
Arguments sv_next_task {Resp}.
Arguments sv_handlers {Resp}.
Arguments sv_aborts {Resp}.
Arguments sv_received {Resp}.
Arguments sv_handled {Resp}.
Arguments sv_sent {Resp}.
Arguments sv_taken {Resp}.
Arguments sv_writer {Resp}.

Section server.
Context {Req Resp : Type} `{!Codec Resp Req} (config : ServerConfig) (peer_addr : option string).
#[local] Abbreviation Server := (RpcServer Resp).

Definition with_supervisor (s : Server) x : Server := mkRpcServer x (sv_shutdown s) (sv_next_task s) (sv_handlers s) (sv_aborts s)
  (sv_received s) (sv_handled s) (sv_sent s) (sv_taken s) (sv_writer s).
Definition with_handlers (s : Server) m : Server := mkRpcServer (sv_supervisor s) (sv_shutdown s) (sv_next_task s) m (sv_aborts s)
  (sv_received s) (sv_handled s) (sv_sent s) (sv_taken s) (sv_writer s).
Definition with_aborts (s : Server) m : Server := mkRpcServer (sv_supervisor s) (sv_shutdown s) (sv_next_task s) (sv_handlers s) m
  (sv_received s) (sv_handled s) (sv_sent s) (sv_taken s) (sv_writer s).
Definition with_received (s : Server) l : Server := mkRpcServer (sv_supervisor s) (sv_shutdown s) (sv_next_task s) (sv_handlers s)
  (sv_aborts s) l (sv_handled s) (sv_sent s) (sv_taken s) (sv_writer s).
Definition with_handled (s : Server) l : Server := mkRpcServer (sv_supervisor s) (sv_shutdown s) (sv_next_task s) (sv_handlers s)
  (sv_aborts s) (sv_received s) l (sv_sent s) (sv_taken s) (sv_writer s).
Definition with_responses (s : Server) sent taken writer : Server := mkRpcServer (sv_supervisor s) (sv_shutdown s) (sv_next_task s)
  (sv_handlers s) (sv_aborts s) (sv_received s) (sv_handled s) sent taken writer.

Definition accept_connection : Server := mkRpcServer Serving false 0 ∅ ∅ [] [] [] 0 None.

(** *** The handler task *)

(** The frame a handler sends. *)
Definition handler_frame (id : Z) (out : Outcome Resp) : ServerFrame :=
  match out with
  | Undecodable e => status_frame id (invalid_argument (codec_error_text e))
  | FailedWith status => status_frame id status
  | TimedOut => status_frame id deadline_exceeded
  | Answered response =>
      match encode response with
      | Err e => status_frame id (internal (codec_error_text e))
      | Ok body =>
          if (Z.of_nat (length body) <=? max_response_bytes config)%Z then FResponse id None body
          else status_frame id (internal ("encoded response is " +:+ pretty (Z.of_nat (length body)) +:+ " bytes, limit is "
                                            +:+ pretty (max_response_bytes config)))
      end
  end.

(** What can come of a request: the service runs only on what decodes, and the
    deadline counts from then on. *)
Definition possible (h : Handler) (now : Z) (out : Outcome Resp) : bool :=
  match decode (hd_body h) : Res CodecError Req, out with
  | Err _, Undecodable _ => true
  | Ok _, TimedOut => (sc_deadline (hd_context h) <=? now)%Z
  | Ok _, Undecodable _ => false
  | Ok _, _ => true
  | Err _, _ => false
  end.
(** The error of an undecodable body is the codec's. *)
Definition decoded (h : Handler) (out : Outcome Resp) : Outcome Resp :=
  match decode (hd_body h) : Res CodecError Req with Err e => Undecodable e | Ok _ => out end.

Definition run_handler (t : nat) (now : Z) (out : Outcome Resp) (s : Server) : option Server :=
  h ← sv_handlers s !! t;
  match hd_phase h with
  | Handling =>
      if possible h now out then
        let out := decoded h out in
        Some (with_handled (with_handlers s (<[t := set_handler_phase (Responding (handler_frame (hd_id h) out)) h]> (sv_handlers s)))
                (sv_handled s ++ [(hd_id h, hd_body h, out)]))
      else None
  | _ => None
  end.

Definition has_room (s : Server) : bool := (Z.of_nat (length (sv_sent s) - sv_taken s) <? sg_outbound_frame_buffer config)%Z.

(** [let _ = outgoing.send(frame).await; id]. *)
Definition respond_handler (t : nat) (s : Server) : option Server :=
  h ← sv_handlers s !! t;
  match hd_phase h with
  | Responding f =>
      let s' := with_handlers s (<[t := set_handler_phase Returned h]> (sv_handlers s)) in
      match sv_writer s with
      | Some _ => Some s'
      | None => if has_room s then Some (with_responses s' (sv_sent s ++ [f]) (sv_taken s) None) else None
      end
  | _ => None
  end.

(** A panic, and an abort, which takes effect where the task waits. *)
Definition crash_handler (t : nat) (s : Server) : option Server :=
  h ← sv_handlers s !! t;
  if is_finished h then None else Some (with_handlers s (<[t := set_handler_phase Crashed h]> (sv_handlers s))).
Definition abort_handler (t : nat) (s : Server) : option Server :=
  h ← sv_handlers s !! t;
  if is_finished h || negb (hd_aborted h) then None
  else Some (with_handlers s (<[t := set_handler_phase Aborted h]> (sv_handlers s))).

(** *** The supervisor *)

Definition abort_all (s : Server) : Server := with_handlers s (abort <$> sv_handlers s).

(** [drain_handlers], up to where it waits for a handler, and the end. *)
Definition begin_drain (now : Z) (error : option ConnectionError) (s : Server) : Server :=
  if decide (sv_handlers s = ∅) then with_supervisor s (Closed error)
  else if (sg_shutdown_grace config =? 0)%Z then with_supervisor (abort_all s) (Draining error None)
  else with_supervisor s (Draining error (Some (now + sg_shutdown_grace config)%Z)).

(** A task that has been joined, or has ended, is finished. *)
Definition abort_finished (s : Server) (t : nat) : bool :=
  match sv_handlers s !! t with Some h => is_finished h | None => true end.

(** [handlers.join_next()] and the table. *)
Definition join_handler (t : nat) (s : Server) : option Server :=
  h ← sv_handlers s !! t;
  if negb (is_finished h) then None
  else
    let s' := with_handlers s (delete t (sv_handlers s)) in
    match sv_supervisor s with
    | Serving =>
        Some (with_aborts s' (match hd_phase h with
                              | Returned => delete (hd_id h) (sv_aborts s)
                              | _ => filter (λ kv, abort_finished s' kv.2 = false) (sv_aborts s)
                              end))
    | Draining error _ => Some (if decide (sv_handlers s' = ∅) then with_supervisor s' (Closed error) else s')
    | _ => None
    end.

(** [timeout_at(deadline, ..)] elapses. *)
Definition end_grace (now : Z) (s : Server) : option Server :=
  match sv_supervisor s with
  | Draining error (Some deadline) =>
      if (deadline <=? now)%Z then Some (with_supervisor (abort_all s) (Draining error None)) else None
  | _ => None
  end.

(** The reason to refuse a request. *)
Definition rejection (id timeout_micros : Z) (s : Server) : option Status :=
  if decide (is_Some (sv_aborts s !! id)) then Some duplicate_request_id
  else if (timeout_micros =? 0)%Z then Some deadline_exceeded
  else if (sg_max_request_timeout config / NANOS_PER_MICRO <? timeout_micros)%Z then Some timeout_too_large
  else if (sg_max_in_flight config <=? Z.of_nat (size (sv_aborts s)))%Z then Some resource_exhausted
  else None.

Definition spawn_handler (now id timeout_micros : Z) (trace_id body : Octets) (s : Server) : Server :=
  let t := sv_next_task s in
  mkRpcServer (sv_supervisor s) (sv_shutdown s) (S t)
    (<[t := mkHandler (server_context id timeout_micros trace_id peer_addr now) body Handling false]> (sv_handlers s))
    (<[id := t]> (sv_aborts s)) (sv_received s) (sv_handled s) (sv_sent s) (sv_taken s) (sv_writer s).

Definition serve_event (now : Z) (event : option (ReadEvent ClientFrame)) (s : Server) : Server :=
  match event with
  | Some (EvFrame f) =>
      let s := with_received s (sv_received s ++ [f]) in
      match f with
      | FCancel id =>
          match sv_aborts s !! id with
          | Some t => with_handlers (with_aborts s (delete id (sv_aborts s))) (alter abort t (sv_handlers s))
          | None => s
          end
      | FRequest id timeout_micros trace_id body =>
          match rejection id timeout_micros s with
          | Some status => with_supervisor s (Rejecting (status_frame id status))
          | None => spawn_handler now id timeout_micros trace_id body s
          end
      end
  | Some EvClosed | None => begin_drain now None s
  | Some (EvFailed error) => begin_drain now (Some error) s
  end.

(** [send_status]. *)
Definition send_rejection (now : Z) (f : ServerFrame) (s : Server) : option Server :=
  match sv_writer s with
  | Some _ => Some (begin_drain now (Some (connection_closed "RPC writer stopped")) s)
  | None => if has_room s then Some (with_supervisor (with_responses s (sv_sent s ++ [f]) (sv_taken s) None) Serving) else None
  end.

(** Nothing that [select!] looks at before the reader is ready. *)
Definition quiet (s : Server) : bool :=
  negb (sv_shutdown s) && bool_decide (sv_writer s = None)
  && bool_decide (map_Forall (λ _ h, is_finished h = false) (sv_handlers s)).

(** *** Steps *)

Inductive ServerStep :=
| RunHandler (t : nat) (now : Z) (out : Outcome Resp)
| RespondHandler (t : nat)
| CrashHandler (t : nat)
| AbortHandler (t : nat)
| JoinHandler (t : nat)
| ServeEvent (now : Z) (event : option (ReadEvent ClientFrame))
| SendRejection (now : Z)
| SignalShutdown
| SeeShutdown (now : Z)
| SeeWriter (now : Z)
| EndGrace (now : Z)
| TakeResponse
| EndWriter (r : WriterResult).

Definition server_step (l : ServerStep) (s : Server) : option Server :=
  match l with
  | RunHandler t now out => run_handler t now out s
  | RespondHandler t => respond_handler t s
  | CrashHandler t => crash_handler t s
  | AbortHandler t => abort_handler t s
  | JoinHandler t => join_handler t s
  | ServeEvent now event =>
      match sv_supervisor s with Serving => if quiet s then Some (serve_event now event s) else None | _ => None end
  | SendRejection now => match sv_supervisor s with Rejecting f => send_rejection now f s | _ => None end
  | SignalShutdown => Some (mkRpcServer (sv_supervisor s) true (sv_next_task s) (sv_handlers s) (sv_aborts s) (sv_received s)
                              (sv_handled s) (sv_sent s) (sv_taken s) (sv_writer s))
  | SeeShutdown now => match sv_supervisor s with Serving => if sv_shutdown s then Some (begin_drain now None s) else None | _ => None end
  | SeeWriter now =>
      match sv_supervisor s, sv_writer s with
      | Serving, Some r => Some (begin_drain now (Some (writer_error r)) s)
      | _, _ => None
      end
  | EndGrace now => end_grace now s
  | TakeResponse =>
      if bool_decide (sv_writer s = None) && (sv_taken s <? length (sv_sent s))%nat
      then Some (with_responses s (sv_sent s) (S (sv_taken s)) None) else None
  | EndWriter r => if bool_decide (sv_writer s = None) then Some (with_responses s (sv_sent s) (sv_taken s) (Some r)) else None
  end.

Definition server_run (steps : list ServerStep) (s : Server) : Server := foldl (λ s l, default s (server_step l s)) s steps.
End server.

(** ** What holds of every connection *)

Definition response_id (f : ServerFrame) : Z := match f with FResponse id _ _ => id end.
Definition response_ids (l : list ServerFrame) : list Z := response_id <$> l.

Section invariant.
Context {Req Resp : Type} `{!Codec Resp Req} (config : ServerConfig) (peer_addr : option string).
#[local] Abbreviation Server := (RpcServer Resp).
#[local] Abbreviation handler_frame := (handler_frame (Req:=Req) config).
Implicit Types (s : Server) (h : Handler).

Definition refusals : list Status := [duplicate_request_id; deadline_exceeded; timeout_too_large; resource_exhausted].

(** The request with this id and body has been received. *)
Definition asked s (id : Z) (body : Octets) : Prop := ∃ timeout_micros trace_id, FRequest id timeout_micros trace_id body ∈ sv_received s.
Definition explained s (f : ServerFrame) : Prop :=
  ∃ id body, asked s id body
    ∧ ((∃ st, st ∈ refusals ∧ f = status_frame id st) ∨ ∃ out, (id, body, out) ∈ sv_handled s ∧ f = handler_frame id out).
(** A frame sent or about to be sent. *)
Definition leaves s (f : ServerFrame) : Prop :=
  f ∈ sv_sent s ∨ sv_supervisor s = Rejecting f ∨ ∃ t h, sv_handlers s !! t = Some h ∧ hd_phase h = Responding f.

Record server_inv s : Prop := {
  iv_tasks : ∀ t h, sv_handlers s !! t = Some h → t < sv_next_task s ∧ asked s (hd_id h) (hd_body h);
  iv_aborts : ∀ id t, sv_aborts s !! id = Some t → t < sv_next_task s ∧ ∀ h, sv_handlers s !! t = Some h → hd_id h = id;
  iv_size : (Z.of_nat (size (sv_aborts s)) ≤ Z.max 0 (sg_max_in_flight config))%Z;
  iv_leaves : ∀ f, leaves s f → explained s f;
  iv_handled : ∀ id body out, (id, body, out) ∈ sv_handled s → asked s id body
    ∧ match decode body : Res CodecError Req with Err e => out = Undecodable e | Ok _ => ∀ e, out ≠ Undecodable e end;
  iv_responding : ∀ t h f, sv_handlers s !! t = Some h → hd_phase h = Responding f → response_id f = hd_id h;
}.

Lemma handler_frame_id id out : response_id (handler_frame id out) = id.
Proof. unfold RpcServer.handler_frame. destruct out; [done| |done..]. destruct (encode r); [|done]. by destruct (_ <=? _)%Z. Qed.

Lemma explained_id s f : explained s f → response_id f ∈ requested (sv_received s).
Proof.
  intros (id & body & (t & tr & Hin) & Hf). assert (response_id f = id) as ->.
  { destruct Hf as [(st & _ & ->)|(out & _ & ->)]; [done|apply handler_frame_id]. }
  apply list_elem_of_omap. by eexists.
Qed.

Lemma explained_mono s s' f :
  (∀ x, x ∈ sv_received s → x ∈ sv_received s') → (∀ x, x ∈ sv_handled s → x ∈ sv_handled s') → explained s f → explained s' f.
Proof.
  intros Hr Hh (id & body & (t & tr & Hin) & Hf). exists id, body. split; [exists t, tr; by apply Hr|].
  destruct Hf as [?|(out & Ho & ->)]; [by left|]. right. exists out. split; [by apply Hh|done].
Qed.

Lemma asked_mono s s' id body : (∀ x, x ∈ sv_received s → x ∈ sv_received s') → asked s id body → asked s' id body.
Proof. intros Hr (t & tr & Hin). exists t, tr. by apply Hr. Qed.

Ltac kept H := first
  [ exact (iv_tasks _ H) | exact (iv_aborts _ H) | exact (iv_size _ H) | exact (iv_leaves _ H) | exact (iv_handled _ H)
  | exact (iv_responding _ H) ].

(** A handler moves on: nothing new leaves but what is explained. *)
Lemma inv_handler s t h h' :
  server_inv s → sv_handlers s !! t = Some h → hd_context h' = hd_context h → hd_body h' = hd_body h →
  (∀ f, hd_phase h' = Responding f → explained s f ∧ response_id f = hd_id h) →
  server_inv (with_handlers s (<[t := h']> (sv_handlers s))).
Proof.
  intros H Hh Hx Hb Hf. assert (Hid : hd_id h' = hd_id h) by (unfold hd_id; by rewrite Hx). split; try kept H; simpl.
  - intros t' h0 [[<- <-]|[_ Hh0]]%lookup_insert_Some; [rewrite Hid, Hb|]; by apply (iv_tasks _ H).
  - intros id t' Ha. split; [by apply (iv_aborts _ H) in Ha as [? _]|].
    intros h0 [[<- <-]|[_ Hh0]]%lookup_insert_Some; [rewrite Hid|]; by apply (iv_aborts _ H id _ Ha).
  - intros f [Hs|[Hr|(t' & h0 & Hh0 & Hp)]].
    + apply (iv_leaves _ H). by left.
    + apply (iv_leaves _ H). by right; left.
    + simpl in Hh0. apply lookup_insert_Some in Hh0 as [[<- <-]|[_ Hh0]]; [by apply Hf|]. apply (iv_leaves _ H). right; right; by exists t', h0.
  - intros t' h0 f [[<- <-]|[_ Hh0]]%lookup_insert_Some Hp; [rewrite Hid; by apply Hf|by eapply (iv_responding _ H)].
Qed.

(** Handlers are marked or dropped. *)
Definition weaker (m m' : gmap nat Handler) : Prop :=
  ∀ t h', m' !! t = Some h' → ∃ h, m !! t = Some h ∧ hd_context h' = hd_context h ∧ hd_body h' = hd_body h ∧ hd_phase h' = hd_phase h.
Lemma weaker_alter t m : weaker m (alter abort t m).
Proof.
  intros t' h' Hh. rewrite lookup_alter in Hh. case_decide as Hd; [|by exists h'].
  subst t'. apply fmap_Some in Hh as (h & Hh & ->). by exists h.
Qed.
Lemma weaker_abort_all m : weaker m (abort <$> m).
Proof. intros t h' Hh. rewrite lookup_fmap in Hh. apply fmap_Some in Hh as (h & Hh & ->). by exists h. Qed.
Lemma weaker_delete t m : weaker m (delete t m).
Proof. intros t' h' [_ Hh]%lookup_delete_Some. by exists h'. Qed.
#[local] Instance weaker_refl : Reflexive weaker.
Proof. intros m t h Hh. by exists h. Qed.

Lemma inv_weaker s m a x :
  server_inv s → weaker (sv_handlers s) m → a ⊆ sv_aborts s → (∀ f, x ≠ Rejecting f) →
  server_inv (with_supervisor (with_aborts (with_handlers s m) a) x).
Proof.
  intros H Hm Ha Hx. split; try kept H; simpl.
  - intros t h' Hh. destruct (Hm t h' Hh) as (h & Hh0 & Hc & Hb & _). unfold hd_id. rewrite Hc, Hb. by apply (iv_tasks _ H).
  - intros id t Hid. apply (lookup_weaken _ _ _ _ Hid) in Ha. destruct (iv_aborts _ H id t Ha) as [? Hh0]. split; [done|].
    intros h' Hh. destruct (Hm t h' Hh) as (h & Hh1 & Hc & _). unfold hd_id. rewrite Hc. by apply Hh0.
  - etrans; [|kept H]. apply Nat2Z.inj_le. by apply map_subseteq_size.
  - intros f [Hs|[Hr|(t' & h' & Hh & Hp)]].
    + apply (iv_leaves _ H). by left.
    + by destruct (Hx f).
    + destruct (Hm t' h' Hh) as (h & Hh0 & _ & _ & Hp0). apply (iv_leaves _ H). right; right. exists t', h. by rewrite <- Hp0.
  - intros t h' f Hh Hp. destruct (Hm t h' Hh) as (h & Hh0 & Hc & _ & Hp0). unfold hd_id. rewrite Hc. eapply (iv_responding _ H); [done|congruence].
Qed.

Lemma inv_handlers s m x : server_inv s → weaker (sv_handlers s) m → (∀ f, x ≠ Rejecting f) → server_inv (with_supervisor (with_handlers s m) x).
Proof. intros H Hm Hx. exact (inv_weaker s m (sv_aborts s) x H Hm (reflexivity _) Hx). Qed.

Lemma inv_begin_drain now error s : server_inv s → server_inv (begin_drain config now error s).
Proof.
  intros H. unfold begin_drain. destruct (decide _); [|destruct (_ =? 0)%Z].
  - by refine (inv_handlers s (sv_handlers s) _ H (reflexivity _) _).
  - by refine (inv_handlers s _ _ H (weaker_abort_all _) _).
  - by refine (inv_handlers s (sv_handlers s) _ H (reflexivity _) _).
Qed.

Lemma same_supervisor s : with_supervisor s (sv_supervisor s) = s.
Proof. by destruct s. Qed.

(** The frame of [f] is sent. *)
Lemma inv_sent s f : server_inv s → explained s f → server_inv (with_responses s (sv_sent s ++ [f]) (sv_taken s) None).
Proof.
  intros H Hf. split; try kept H. intros g [Hg|Hg]; [|exact (iv_leaves _ H g (or_intror Hg))]. simpl in Hg.
  apply elem_of_app in Hg as [Hg| ->%list_elem_of_singleton]; [exact (iv_leaves _ H g (or_introl Hg))|exact Hf].
Qed.

Lemma inv_receive s f : server_inv s → server_inv (with_received s (sv_received s ++ [f])).
Proof.
  intros H. assert (Hin : ∀ x, x ∈ sv_received s → x ∈ sv_received s ++ [f]) by (intros x Hx; apply elem_of_app; by left).
  split; try kept H; simpl.
  - intros t h Hh. destruct (iv_tasks _ H t h Hh) as [? Ha]. split; [done|]. by eapply asked_mono; [|exact Ha].
  - intros g Hg. eapply (explained_mono s); [done|done|]. exact (iv_leaves _ H g Hg).
  - intros id body out Ho. destruct (iv_handled _ H id body out Ho) as [Ha Ho']. split; [|exact Ho']. by eapply asked_mono; [|exact Ha].
Qed.

Lemma inv_spawn s now id t tr body :
  server_inv s → FRequest id t tr body ∈ sv_received s → rejection config id t s = None →
  server_inv (spawn_handler peer_addr now id t tr body s).
Proof.
  intros H Hin Hrej. unfold rejection in Hrej. destruct (decide (is_Some (sv_aborts s !! id))) as [|Hnew]; [done|].
  apply eq_None_not_Some in Hnew. repeat (destruct (_ : bool) eqn:? in Hrej; [done|]).
  assert (Hlt : (Z.of_nat (size (sv_aborts s)) < sg_max_in_flight config)%Z) by (repeat match goal with H : _ = false |- _ => revert H end; lia).
  assert (Hfresh : sv_handlers s !! sv_next_task s = None).
  { destruct (sv_handlers s !! sv_next_task s) eqn:Hh; [|done]. apply (iv_tasks _ H) in Hh as [? _]. lia. }
  split; try kept H; simpl.
  - intros t' h [[<- <-]|[_ Hh]]%lookup_insert_Some; [split; [lia|by exists t, tr]|].
    destruct (iv_tasks _ H t' h Hh). split; [lia|done].
  - intros i t' [[<- <-]|[_ Ha]]%lookup_insert_Some.
    + split; [lia|]. intros h. rewrite lookup_insert_eq. by intros [= <-].
    + destruct (iv_aborts _ H i t' Ha) as [? Hh]. split; [lia|]. intros h. rewrite lookup_insert_ne by lia. apply Hh.
  - rewrite map_size_insert_None by done. lia.
  - intros f [Hs|[Hr|(t' & h & Hh & Hp)]]; apply (iv_leaves _ H); [by left|by right; left|].
    simpl in Hh. apply lookup_insert_Some in Hh as [[<- <-]|[_ Hh]]; [done|]. right; right. by exists t', h.
  - intros t' h f [[<- <-]|[_ Hh]]%lookup_insert_Some Hp; [done|by eapply (iv_responding _ H)].
Qed.

Lemma rejection_refusal id t s st : rejection config id t s = Some st → st ∈ refusals.
Proof.
  unfold rejection, refusals. destruct (decide _); [intros [= <-]; by left|]. destruct (_ =? 0)%Z; [intros [= <-]; right; by left|].
  destruct (_ <? _)%Z; [intros [= <-]; right; right; by left|]. destruct (_ <=? _)%Z; [|done]. intros [= <-]. right; right; right; by left.
Qed.

Lemma run_handler_inv t now out s s' : server_inv s → run_handler config t now out s = Some s' → server_inv s'.
Proof.
  intros H. unfold run_handler. destruct (sv_handlers s !! t) as [h|] eqn:Hh; [|done]. cbn [mbind option_bind].
  destruct (hd_phase h) eqn:Hp; try done. destruct (possible h now out) eqn:Hposs; [|done]. intros [= <-].
  set (o := decoded h out). set (f := RpcServer.handler_frame config (hd_id h) o). destruct (iv_tasks _ H t h Hh) as [Hlt Hasked].
  set (s1 := with_handled s (sv_handled s ++ [(hd_id h, hd_body h, o)])).
  assert (H1 : server_inv s1).
  { split; try kept H.
    - intros g Hg. eapply (explained_mono s); [done|intros x Hx; apply elem_of_app; by left|exact (iv_leaves _ H g Hg)].
    - intros id body out' [Ho|[= -> -> ->]%list_elem_of_singleton]%elem_of_app; [exact (iv_handled _ H id body out' Ho)|].
      split; [exact Hasked|]. unfold o, decoded, possible in *. destruct (decode (hd_body h)) eqn:Hd; [|done].
      intros e. by destruct out. }
  apply (inv_handler s1 t h (set_handler_phase (Responding f) h) H1 Hh eq_refl eq_refl). intros g [= <-]. split; [|apply handler_frame_id].
  exists (hd_id h), (hd_body h). split; [exact Hasked|]. right. exists o. split; [|done].
  apply elem_of_app. right. by apply list_elem_of_singleton.
Qed.

Lemma serve_event_inv now event s : server_inv s → sv_supervisor s = Serving → server_inv (serve_event config peer_addr now event s).
Proof.
  intros H Hsup. destruct event as [[f| |e]|]; simpl; [|by apply inv_begin_drain..]. pose proof (inv_receive s f H) as Hr.
  assert (Hin : f ∈ sv_received (with_received s (sv_received s ++ [f]))) by (apply elem_of_app; right; by apply list_elem_of_singleton).
  destruct f as [id t tr body|id].
  - destruct (rejection _ _ _ _) as [st|] eqn:Hrej; [|by apply inv_spawn]. split; try kept Hr. intros g [Hg|[Hg|Hg]].
    + apply (iv_leaves _ Hr). by left.
    + injection Hg as <-. exists id, body. split; [by exists t, tr|]. left. exists st. split; [by eapply rejection_refusal|done].
    + apply (iv_leaves _ Hr). by right; right.
  - simpl. destruct (sv_aborts s !! id) as [t|]; [|exact Hr].
    refine (inv_weaker (with_received s (sv_received s ++ [FCancel id])) _ (delete id (sv_aborts s)) (sv_supervisor s) Hr (weaker_alter t _) (delete_subseteq _ _) _).
    by rewrite Hsup.
Qed.

Lemma join_inv t s s' : server_inv s → join_handler t s = Some s' → server_inv s'.
Proof.
  intros H. unfold join_handler. destruct (sv_handlers s !! t) as [h|] eqn:Hh; [|done]. cbn [mbind option_bind].
  destruct (negb _); [done|]. destruct (sv_supervisor s) as [|f|error g|error] eqn:Hsup; try done; intros [= <-].
  - set (a := match hd_phase h with Returned => _ | _ => _ end).
    assert (Ha : a ⊆ sv_aborts s) by (unfold a; destruct (hd_phase h); first [apply delete_subseteq|apply map_filter_subseteq]).
    rewrite <- (same_supervisor (with_aborts _ a)). refine (inv_weaker s _ a _ H (weaker_delete t _) Ha _). simpl. by rewrite Hsup.
  - destruct (decide _).
    + by refine (inv_handlers s _ (Closed error) H (weaker_delete t _) _).
    + rewrite <- (same_supervisor (with_handlers _ _)). refine (inv_handlers s _ _ H (weaker_delete t _) _). simpl. by rewrite Hsup.
Qed.

Lemma server_step_inv l s s' : server_inv s → server_step config peer_addr l s = Some s' → server_inv s'.
Proof.
  intros H. destruct l as [t now out|t|t|t|t|now event|now| |now|now|now| |r]; simpl.
  - by apply run_handler_inv.
  - unfold respond_handler. destruct (sv_handlers s !! t) as [h|] eqn:Hh; [|done]. cbn [mbind option_bind].
    destruct (hd_phase h) as [|f| | |] eqn:Hp; try done.
    assert (H1 : server_inv (with_handlers s (<[t := set_handler_phase Returned h]> (sv_handlers s)))) by by apply (inv_handler s t h).
    destruct (sv_writer s); [by intros [= <-]|]. destruct (has_room config s); [|done]. intros [= <-]. apply (inv_sent _ f H1).
    eapply (explained_mono s); [done|done|]. apply (iv_leaves _ H). right; right. by exists t, h.
  - unfold crash_handler. destruct (sv_handlers s !! t) as [h|] eqn:Hh; [|done]. cbn [mbind option_bind].
    destruct (is_finished h); [done|]. intros [= <-]. by apply (inv_handler s t h).
  - unfold abort_handler. destruct (sv_handlers s !! t) as [h|] eqn:Hh; [|done]. cbn [mbind option_bind].
    destruct (_ || _); [done|]. intros [= <-]. by apply (inv_handler s t h).
  - by apply join_inv.
  - destruct (sv_supervisor s) eqn:Hsup; try done. destruct (quiet s); [|done]. intros [= <-]. by apply serve_event_inv.
  - destruct (sv_supervisor s) as [|f| |] eqn:Hsup; try done. unfold send_rejection. destruct (sv_writer s); [intros [= <-]; by apply inv_begin_drain|].
    destruct (has_room config s); [|done]. intros [= <-].
    assert (Hf : explained s f) by (apply (iv_leaves _ H); by right; left).
    by refine (inv_handlers _ (sv_handlers s) Serving (inv_sent s f H Hf) (reflexivity _) _).
  - intros [= <-]. split; kept H.
  - destruct (sv_supervisor s) eqn:Hsup; try done. destruct (sv_shutdown s); [|done]. intros [= <-]. by apply inv_begin_drain.
  - destruct (sv_supervisor s) eqn:Hsup; try done. destruct (sv_writer s); [|done]. intros [= <-]. by apply inv_begin_drain.
  - unfold end_grace. destruct (sv_supervisor s) as [| |error [d|]|] eqn:Hsup; try done. destruct (d <=? now)%Z; [|done]. intros [= <-].
    by refine (inv_handlers s _ (Draining error None) H (weaker_abort_all _) _).
  - destruct (_ && _); [|done]. intros [= <-]. split; kept H.
  - destruct (bool_decide _); [|done]. intros [= <-]. split; kept H.
Qed.

(** *** Requests that are told apart by their ids *)

Definition handled_ids s : list Z := (λ x, x.1.1) <$> sv_handled s.
Definition in_service s : Prop := match sv_supervisor s with Serving | Rejecting _ => True | _ => False end.

Record exact_inv s : Prop := {
  ex_tasks : ∀ t1 t2 h1 h2, sv_handlers s !! t1 = Some h1 → sv_handlers s !! t2 = Some h2 → hd_id h1 = hd_id h2 → t1 = t2;
  ex_sent : NoDup (response_ids (sv_sent s));
  ex_open : ∀ t h, sv_handlers s !! t = Some h → is_finished h = false → hd_id h ∉ response_ids (sv_sent s);
  ex_reject : ∀ f, sv_supervisor s = Rejecting f → response_id f ∉ response_ids (sv_sent s) ∧ response_id f ∉ handled_ids s
    ∧ ∀ t h, sv_handlers s !! t = Some h → hd_id h ≠ response_id f;
  ex_handled : NoDup (handled_ids s);
  ex_handling : ∀ t h, sv_handlers s !! t = Some h → hd_phase h = Handling → hd_id h ∉ handled_ids s;
  ex_table : in_service s → ∀ t h, sv_handlers s !! t = Some h → is_finished h = false → hd_aborted h = false → sv_aborts s !! hd_id h = Some t;
}.

Ltac same H := first
  [ exact (ex_tasks _ H) | exact (ex_sent _ H) | exact (ex_open _ H) | exact (ex_reject _ H) | exact (ex_handled _ H)
  | exact (ex_handling _ H) | exact (ex_table _ H) ].

(** A handler moves on. *)
Lemma exact_handler s t h h' :
  exact_inv s → sv_handlers s !! t = Some h → hd_context h' = hd_context h →
  (is_finished h' = false → is_finished h = false) → (hd_phase h' = Handling → hd_phase h = Handling) →
  (hd_aborted h' = false → hd_aborted h = false) → exact_inv (with_handlers s (<[t := h']> (sv_handlers s))).
Proof.
  intros H Hh Hx Hf Hp Ha. assert (Hid : hd_id h' = hd_id h) by (unfold hd_id; by rewrite Hx).
  assert (Hold : ∀ t' h0, <[t := h']> (sv_handlers s) !! t' = Some h0 →
    ∃ h1, sv_handlers s !! t' = Some h1 ∧ hd_id h0 = hd_id h1 ∧ (is_finished h0 = false → is_finished h1 = false)
      ∧ (hd_phase h0 = Handling → hd_phase h1 = Handling) ∧ (hd_aborted h0 = false → hd_aborted h1 = false)).
  { intros t' h0 [[<- <-]|[_ Hh0]]%lookup_insert_Some; [by exists h|by exists h0]. }
  split; try same H; simpl.
  - intros t1 t2 h1 h2 (g1 & Hg1 & E1 & _)%Hold (g2 & Hg2 & E2 & _)%Hold He. apply (ex_tasks _ H t1 t2 g1 g2 Hg1 Hg2). congruence.
  - intros t' h0 (g & Hg & -> & Hfin & _)%Hold Hf0. by apply (ex_open _ H t' g Hg), Hfin.
  - intros f Hr. destruct (ex_reject _ H f Hr) as (? & ? & Hn). split; [done|]. split; [done|].
    intros t' h0 (g & Hg & -> & _)%Hold. by apply (Hn t').
  - intros t' h0 (g & Hg & -> & _ & Hhd & _)%Hold Hp0. by apply (ex_handling _ H t' g Hg), Hhd.
  - intros Hin t' h0 (g & Hg & -> & Hfin & _ & Hab)%Hold Hf0 Ha0. apply (ex_table _ H Hin t' g Hg); auto.
Qed.

(** The supervisor no longer serves. *)
Lemma exact_leave s m x :
  exact_inv s → weaker (sv_handlers s) m → match x with Draining _ _ | Closed _ => True | _ => False end →
  exact_inv (with_supervisor (with_handlers s m) x).
Proof.
  intros H Hm Hx. assert (Hfin : ∀ h h' : Handler, hd_phase h' = hd_phase h → is_finished h' = is_finished h) by (intros h h' E; unfold is_finished; by rewrite E).
  split; try same H; simpl.
  - intros t1 t2 h1 h2 Hh1 Hh2 He. destruct (Hm _ _ Hh1) as (g1 & Hg1 & E1 & _). destruct (Hm _ _ Hh2) as (g2 & Hg2 & E2 & _).
    apply (ex_tasks _ H t1 t2 g1 g2 Hg1 Hg2). unfold hd_id in *. congruence.
  - intros t h' Hh Hf. destruct (Hm _ _ Hh) as (g & Hg & E & _ & Hp). unfold hd_id. rewrite E. apply (ex_open _ H t g Hg). by rewrite <- (Hfin g h' Hp).
  - intros f ->. done.
  - intros t h' Hh Hp0. destruct (Hm _ _ Hh) as (g & Hg & E & _ & Hp). unfold hd_id. rewrite E. apply (ex_handling _ H t g Hg). congruence.
  - unfold in_service. simpl. by destruct x.
Qed.

Lemma exact_begin_drain now error s : exact_inv s → exact_inv (begin_drain config now error s).
Proof.
  intros H. unfold begin_drain. destruct (decide _); [|destruct (_ =? 0)%Z].
  - exact (exact_leave s (sv_handlers s) (Closed error) H (reflexivity _) I).
  - exact (exact_leave s _ (Draining error None) H (weaker_abort_all _) I).
  - exact (exact_leave s (sv_handlers s) (Draining error _) H (reflexivity _) I).
Qed.

(** An id asked for the first time is nowhere yet. *)
Lemma fresh_request s id t tr body :
  server_inv s → NoDup (requested (sv_received s ++ [FRequest id t tr body])) →
  (∀ t' h, sv_handlers s !! t' = Some h → hd_id h ≠ id) ∧ id ∉ response_ids (sv_sent s) ∧ id ∉ handled_ids s.
Proof.
  intros H Hnd. rewrite requested_app in Hnd. apply NoDup_app in Hnd as (_ & Hnd & _).
  assert (Hid : id ∉ requested (sv_received s)) by (intros Hin; apply (Hnd id Hin); by left).
  assert (Hask : ∀ b, ¬ asked s id b) by (intros b (t' & tr' & Hin); apply Hid, list_elem_of_omap; by eexists). split_and!.
  - intros t' h Hh He. destruct (iv_tasks _ H t' h Hh) as [_ Ha]. rewrite He in Ha. by eapply Hask.
  - intros (f & -> & Hf)%list_elem_of_fmap. apply Hid, explained_id. apply (iv_leaves _ H). by left.
  - intros ([[i b] o] & -> & Hf)%list_elem_of_fmap. destruct (iv_handled _ H i b o Hf) as [Ha _]. by eapply Hask.
Qed.

Lemma exact_request now id t tr body s s1 :
  server_inv s → exact_inv s → sv_supervisor s = Serving → NoDup (requested (sv_received s ++ [FRequest id t tr body])) →
  s1 = serve_event config peer_addr now (Some (EvFrame (FRequest id t tr body))) s → exact_inv s1.
Proof.
  intros Hinv H Hsup Hnd ->. destruct (fresh_request s id t tr body Hinv Hnd) as (Hnew & Hns & Hnh). simpl.
  destruct (rejection _ _ _ _) as [st|] eqn:Hrej; split; try same H.
  - intros f [= <-]. done.
  - intros _. apply (ex_table _ H). unfold in_service. by rewrite Hsup.
  - simpl. intros t1 t2 h1 h2 [[<- <-]|[Hn1 Hh1]]%lookup_insert_Some [[<- <-]|[Hn2 Hh2]]%lookup_insert_Some He; [done| | |].
    + by destruct (Hnew t2 h2 Hh2).
    + by destruct (Hnew t1 h1 Hh1).
    + by apply (ex_tasks _ H t1 t2 h1 h2).
  - simpl. intros t' h [[<- <-]|[_ Hh]]%lookup_insert_Some Hf; [done|by apply (ex_open _ H t' h)].
  - simpl. intros f Hf. congruence.
  - simpl. intros t' h [[<- <-]|[_ Hh]]%lookup_insert_Some Hf; [done|by apply (ex_handling _ H t' h)].
  - simpl. intros Hin t' h [[<- <-]|[_ Hh]]%lookup_insert_Some Hf Ha; [apply lookup_insert_eq|].
    rewrite lookup_insert_ne by (intros E; by destruct (Hnew t' h Hh)). apply (ex_table _ H); [|done..]. unfold in_service. by rewrite Hsup.
Qed.

Lemma exact_cancel id s m :
  server_inv s → exact_inv s → sv_supervisor s = Serving → sv_aborts s !! id = Some m →
  exact_inv (with_handlers (with_aborts (with_received s (sv_received s ++ [FCancel id])) (delete id (sv_aborts s)))
               (alter abort m (sv_handlers s))).
Proof.
  intros Hinv H Hsup Hm. destruct (iv_aborts _ Hinv id m Hm) as [_ Hid].
  assert (Hold : ∀ t h', alter abort m (sv_handlers s) !! t = Some h' → ∃ h, sv_handlers s !! t = Some h ∧ hd_id h' = hd_id h
    ∧ hd_phase h' = hd_phase h ∧ is_finished h' = is_finished h ∧ (hd_aborted h' = false → hd_aborted h = false ∧ t ≠ m)).
  { intros t h' Hh. rewrite lookup_alter in Hh. case_decide as Hd; [|by exists h']. subst t. apply fmap_Some in Hh as (h & Hh & ->). by exists h. }
  split; try same H; simpl.
  - intros t1 t2 h1 h2 (g1 & Hg1 & E1 & _)%Hold (g2 & Hg2 & E2 & _)%Hold He. apply (ex_tasks _ H t1 t2 g1 g2 Hg1 Hg2). congruence.
  - intros t h' (h & Hh & -> & _ & -> & _)%Hold. by apply (ex_open _ H t h).
  - intros f Hf. congruence.
  - intros t h' (h & Hh & -> & -> & _)%Hold. by apply (ex_handling _ H t h).
  - intros _ t h' (h & Hh & -> & _ & -> & Hab)%Hold Hf Ha. destruct (Hab Ha) as [Ha0 Hne].
    assert (Ht : sv_aborts s !! hd_id h = Some t) by (apply (ex_table _ H); [unfold in_service; by rewrite Hsup|done..]).
    rewrite lookup_delete_ne; [done|]. intros He. rewrite <- He in Ht. congruence.
Qed.

Lemma exact_join t s s' : server_inv s → exact_inv s → join_handler t s = Some s' → exact_inv s'.
Proof.
  intros Hinv H. unfold join_handler. destruct (sv_handlers s !! t) as [h|] eqn:Hh; [|done]. cbn [mbind option_bind].
  destruct (negb (is_finished h)) eqn:Hfin; [done|]. apply negb_false_iff in Hfin.
  destruct (sv_supervisor s) as [|f|error g|error] eqn:Hsup; try done; intros [= <-].
  - split; try same H; simpl.
    + intros t1 t2 h1 h2 [_ Hh1]%lookup_delete_Some [_ Hh2]%lookup_delete_Some. by apply (ex_tasks _ H).
    + intros t' h' [_ Hh']%lookup_delete_Some. by apply (ex_open _ H t' h').
    + intros f Hf. congruence.
    + intros t' h' [_ Hh']%lookup_delete_Some. by apply (ex_handling _ H t' h').
    + intros _ t' h' [Hne Hh']%lookup_delete_Some Hf Ha.
      assert (Ht : sv_aborts s !! hd_id h' = Some t') by (apply (ex_table _ H); [unfold in_service; by rewrite Hsup|done..]).
      assert (Hk : (filter (λ kv, abort_finished (with_handlers s (delete t (sv_handlers s))) kv.2 = false) (sv_aborts s)) !! hd_id h' = Some t').
      { apply map_lookup_filter_Some. split; [done|]. unfold abort_finished. simpl. by rewrite lookup_delete_ne, Hh'. }
      destruct (hd_phase h); try exact Hk. rewrite lookup_delete_ne; [done|]. intros He. by apply Hne, (ex_tasks _ H t t' h h').
  - destruct (decide _).
    + exact (exact_leave s _ (Closed error) H (weaker_delete t _) I).
    + rewrite <- (same_supervisor (with_handlers _ _)). refine (exact_leave s _ _ H (weaker_delete t _) _). simpl. by rewrite Hsup.
Qed.

Lemma server_step_exact l s s' :
  server_inv s → exact_inv s → server_step config peer_addr l s = Some s' → NoDup (requested (sv_received s')) → exact_inv s'.
Proof.
  intros Hinv H. destruct l as [t now out|t|t|t|t|now event|now| |now|now|now| |r]; simpl.
  - unfold run_handler. destruct (sv_handlers s !! t) as [h|] eqn:Hh; [|done]. cbn [mbind option_bind].
    destruct (hd_phase h) eqn:Hp; try done. destruct (possible h now out); [|done]. intros [= <-] _.
    set (h' := set_handler_phase _ h). assert (H1 : exact_inv (with_handlers s (<[t := h']> (sv_handlers s)))).
    { apply (exact_handler s t h); try done. unfold is_finished. by rewrite Hp. }
    pose proof (ex_handling _ H t h Hh Hp) as Hnot.
    split; try same H1; unfold handled_ids; simpl.
    + intros f Hf. destruct (ex_reject _ H1 f Hf) as (? & Hn & Hne). split; [done|]. split; [|done].
      rewrite fmap_app, not_elem_of_app. split; [done|]. intros He%list_elem_of_singleton.
      by apply (proj2 (proj2 (ex_reject _ H f Hf)) t h Hh).
    + rewrite fmap_app. apply NoDup_app. split; [same H|]. split; [|apply NoDup_singleton]. by intros x Hx ->%list_elem_of_singleton.
    + intros t' h0 [[<- <-]|[Hne Hh0]]%lookup_insert_Some Hp0; [done|]. rewrite fmap_app, not_elem_of_app.
      split; [by apply (ex_handling _ H t' h0)|]. intros He%list_elem_of_singleton. simpl in He. by apply Hne, (ex_tasks _ H t t' h h0).
  - unfold respond_handler. destruct (sv_handlers s !! t) as [h|] eqn:Hh; [|done]. cbn [mbind option_bind].
    destruct (hd_phase h) as [|f| | |] eqn:Hp; try done.
    assert (H1 : exact_inv (with_handlers s (<[t := set_handler_phase Returned h]> (sv_handlers s)))) by by apply (exact_handler s t h).
    destruct (sv_writer s); [by intros [= <-]|]. destruct (has_room config s); [|done]. intros [= <-] _.
    pose proof (iv_responding _ Hinv t h f Hh Hp) as Hfid.
    assert (Hopen : hd_id h ∉ response_ids (sv_sent s)) by (apply (ex_open _ H t h Hh); unfold is_finished; by rewrite Hp).
    split; try same H1; unfold response_ids; simpl.
    + rewrite fmap_app. apply NoDup_app. split; [same H|]. split; [|apply NoDup_singleton]. intros x Hx ->%list_elem_of_singleton. by rewrite Hfid in Hx.
    + intros t' h0 [[<- <-]|[Hne Hh0]]%lookup_insert_Some Hf0; [done|]. rewrite fmap_app, not_elem_of_app.
      split; [by apply (ex_open _ H t' h0)|]. intros He%list_elem_of_singleton. rewrite Hfid in He. by apply Hne, (ex_tasks _ H t t' h h0).
    + intros g Hg. destruct (ex_reject _ H1 g Hg) as (Hns & ? & Hne). split; [|done]. rewrite fmap_app, not_elem_of_app. split; [done|].
      intros He%list_elem_of_singleton. rewrite Hfid in He. by apply (proj2 (proj2 (ex_reject _ H g Hg)) t h Hh).
  - unfold crash_handler. destruct (sv_handlers s !! t) as [h|] eqn:Hh; [|done]. cbn [mbind option_bind].
    destruct (is_finished h); [done|]. intros [= <-] _. by apply (exact_handler s t h).
  - unfold abort_handler. destruct (sv_handlers s !! t) as [h|] eqn:Hh; [|done]. cbn [mbind option_bind].
    destruct (_ || _); [done|]. intros [= <-] _. by apply (exact_handler s t h).
  - intros Hj _. by eapply exact_join.
  - destruct (sv_supervisor s) eqn:Hsup; try done. destruct (quiet s); [|done]. intros [= <-] Hnd.
    destruct event as [[[id t tr body|id]| |e]|]; [| |by apply exact_begin_drain..].
    + eapply exact_request; [done..| |done]. revert Hnd. simpl. by destruct (rejection _ _ _ _).
    + simpl. destruct (sv_aborts s !! id) as [m|] eqn:Hm; [by apply exact_cancel|]. split; same H.
  - destruct (sv_supervisor s) as [|f| |] eqn:Hsup; try done. unfold send_rejection. destruct (sv_writer s); [intros [= <-] _; by apply exact_begin_drain|].
    destruct (has_room config s); [|done]. intros [= <-] _. destruct (ex_reject _ H f Hsup) as (Hns & Hnh & Hne).
    split; try same H; unfold response_ids; simpl.
    + rewrite fmap_app. apply NoDup_app. split; [same H|]. split; [|apply NoDup_singleton]. by intros x Hx ->%list_elem_of_singleton.
    + intros t h Hh Hf. rewrite fmap_app, not_elem_of_app. split; [by apply (ex_open _ H t h)|]. intros He%list_elem_of_singleton. by apply (Hne t h).
    + done.
    + intros _. apply (ex_table _ H). unfold in_service. by rewrite Hsup.
  - intros [= <-] _. split; same H.
  - destruct (sv_supervisor s) eqn:Hsup; try done. destruct (sv_shutdown s); [|done]. intros [= <-] _. by apply exact_begin_drain.
  - destruct (sv_supervisor s) eqn:Hsup; try done. destruct (sv_writer s); [|done]. intros [= <-] _. by apply exact_begin_drain.
  - unfold end_grace. destruct (sv_supervisor s) as [| |error [d|]|] eqn:Hsup; try done. destruct (d <=? now)%Z; [|done]. intros [= <-] _.
    exact (exact_leave s _ (Draining error None) H (weaker_abort_all _) I).
  - destruct (_ && _); [|done]. intros [= <-] _. split; same H.
  - destruct (bool_decide _); [|done]. intros [= <-] _. split; same H.
Qed.
End invariant.

Section connection.
Context {Req Resp : Type} `{!Codec Resp Req} (config : ServerConfig) (peer_addr : option string).
#[local] Abbreviation Server := (RpcServer Resp).
#[local] Abbreviation step := (server_step (Req:=Req) config peer_addr).
#[local] Abbreviation run := (server_run (Req:=Req) config peer_addr).
Implicit Types (s : Server) (h : Handler).

Lemma server_steps_snoc steps l s : run (steps ++ [l]) s = default (run steps s) (step l (run steps s)).
Proof. unfold server_run. by rewrite foldl_app. Qed.

(** An invariant that every possible step keeps. *)
Lemma run_ind (P : Server → Prop) steps :
  P accept_connection → (∀ l s s', P s → step l s = Some s' → P s') → P (run steps accept_connection).
Proof.
  intros H0 Hstep. induction steps as [|l steps IH] using rev_ind; [done|]. rewrite server_steps_snoc.
  destruct (step l _) as [s'|] eqn:Hl; simpl; [by eapply Hstep|done].
Qed.

Lemma accept_inv : server_inv (Req:=Req) config (accept_connection (Resp:=Resp)).
Proof.
  split; simpl.
  - intros t h. by rewrite lookup_empty.
  - intros id t. by rewrite lookup_empty.
  - rewrite map_size_empty. lia.
  - intros f [Hf%not_elem_of_nil|[Hf|(t & h & Hh & _)]]; [done..|]. simpl in Hh. by rewrite lookup_empty in Hh.
  - by intros id body out Ho%not_elem_of_nil.
  - intros t h f. by rewrite lookup_empty.
Qed.

Lemma accept_exact : exact_inv (accept_connection (Resp:=Resp)).
Proof.
  split; simpl; try (intros *; by rewrite ?lookup_empty); try constructor.
Qed.

Lemma server_run_inv steps : server_inv (Req:=Req) config (run steps accept_connection).
Proof. apply run_ind; [apply accept_inv|]. intros l s s' H Hl. by eapply server_step_inv. Qed.

(** The log of what was received only grows. *)
Lemma begin_drain_same now error s : sv_received (begin_drain config now error s) = sv_received s ∧ sv_sent (begin_drain config now error s) = sv_sent s.
Proof. unfold begin_drain, abort_all. by repeat case_match. Qed.

Lemma step_received l s s' : step l s = Some s' → ∃ more, sv_received s' = sv_received s ++ more.
Proof.
  assert (Hsame : ∀ s', sv_received s' = sv_received s → ∃ more, sv_received s' = sv_received s ++ more) by (intros s1 ->; exists []; by rewrite app_nil_r).
  destruct l as [t now out|t|t|t|t|now event|now| |now|now|now| |r]; simpl;
    unfold run_handler, respond_handler, crash_handler, abort_handler, join_handler, send_rejection, end_grace, abort_all; intros Hs.
  1-5,7-13: apply Hsame; repeat case_match; simplify_option_eq; repeat case_match; simplify_option_eq; try done; apply begin_drain_same.
  repeat case_match; try done. injection Hs as <-. destruct event as [[f| |e]|]; [|apply Hsame, begin_drain_same..].
  exists [f]. simpl. destruct f as [id t tr body|id]; [by destruct (rejection _ _ _ _)|]. by destruct (_ !! id).
Qed.

Lemma run_exact steps : NoDup (requested (sv_received (run steps accept_connection))) → exact_inv (run steps accept_connection).
Proof.
  apply (run_ind (λ s, server_inv (Req:=Req) config s ∧ (NoDup (requested (sv_received s)) → exact_inv s))).
  - split; [apply accept_inv|]. intros _. apply accept_exact.
  - intros l s s' [H He] Hl. split; [by eapply server_step_inv|]. intros Hnd. eapply server_step_exact; [done| |done|done].
    apply He. destruct (step_received l s s' Hl) as [more Hm]. rewrite Hm, requested_app in Hnd. by apply NoDup_app in Hnd as [? _].
Qed.

(** The peer that tells its requests apart by their ids gets at most one response
    to each, and each request is handled at most once. Every response answers a
    request that was received, with one of the reasons to refuse it or with what
    its handler came to: the service's answer, its status, the deadline's, or the
    codec's error on a body that does not decode, on which the service never ran. *)
Theorem requests_answered_once steps :
  let s := run steps accept_connection in
  NoDup (requested (sv_received s)) →
  NoDup (response_ids (sv_sent s)) ∧ NoDup (handled_ids s)
  ∧ (∀ f, f ∈ sv_sent s → ∃ id timeout_micros trace_id body, FRequest id timeout_micros trace_id body ∈ sv_received s
       ∧ ((∃ st, st ∈ refusals ∧ f = status_frame id st)
          ∨ ∃ out, (id, body, out) ∈ sv_handled s ∧ f = handler_frame (Req:=Req) config id out))
  ∧ (∀ id body out, (id, body, out) ∈ sv_handled s →
       match decode body : Res CodecError Req with Err e => out = Undecodable e | Ok _ => ∀ e, out ≠ Undecodable e end).
Proof.
  intros s Hnd. pose proof (server_run_inv steps) as H. pose proof (run_exact steps Hnd) as He. fold s in H, He. split_and!.
  - exact (ex_sent _ He).
  - exact (ex_handled _ He).
  - intros f Hf. destruct (iv_leaves _ _ H f (or_introl Hf)) as (id & body & (t & tr & Hin) & Hx). by exists id, t, tr, body.
  - intros id body out Ho. exact (proj2 (iv_handled _ _ H id body out Ho)).
Qed.

(** *** Admission *)

(** A task that runs and has not been told to stop. *)
Definition running_task h : bool := negb (is_finished h) && negb (hd_aborted h).

(** The table of abort handles never exceeds the limit, so neither do the
    handlers that run and have not been cancelled: each of them is in the table
    under its request's id while the connection is served. *)
Theorem handlers_within_limit steps :
  let s := run steps accept_connection in
  (Z.of_nat (size (sv_aborts s)) ≤ Z.max 0 (sg_max_in_flight config))%Z
  ∧ (NoDup (requested (sv_received s)) → in_service s →
       (∀ t h, sv_handlers s !! t = Some h → running_task h = true → sv_aborts s !! hd_id h = Some t)
       ∧ (Z.of_nat (size (filter (λ kv, running_task kv.2 = true) (sv_handlers s))) ≤ Z.max 0 (sg_max_in_flight config))%Z).
Proof.
  intros s. pose proof (server_run_inv steps) as H. fold s in H. split; [exact (iv_size _ _ H)|]. intros Hnd Hin.
  pose proof (run_exact steps Hnd) as He. fold s in He.
  assert (Htab : ∀ t h, sv_handlers s !! t = Some h → running_task h = true → sv_aborts s !! hd_id h = Some t).
  { intros t h Hh [Hf%negb_true_iff Ha%negb_true_iff]%andb_true_iff. by apply (ex_table _ He). }
  split; [exact Htab|]. etrans; [|exact (iv_size _ _ H)]. apply Nat2Z.inj_le. set (live := filter _ _).
  rewrite <- (length_map_to_list live), <- (length_map_to_list (sv_aborts s)), <- (length_fmap fst (map_to_list live)), <- (length_fmap snd (map_to_list (sv_aborts s))).
  apply submseteq_length, NoDup_submseteq; [apply NoDup_fst_map_to_list|].
  intros t ([t' h] & -> & Hin')%list_elem_of_fmap. apply elem_of_map_to_list, map_lookup_filter_Some in Hin' as [Hh Hr].
  apply list_elem_of_fmap. exists (hd_id h, t'). split; [done|]. apply elem_of_map_to_list. by apply Htab.
Qed.

(** *** The drain *)

(** Until the grace period is over only their callers have handlers stopped;
    then all are. A drain waits for handlers, and a closed connection has none. *)
Definition only_cancelled s : Prop := ∀ t h, sv_handlers s !! t = Some h → hd_aborted h = true → FCancel (hd_id h) ∈ sv_received s.
Definition drain_ok s : Prop :=
  match sv_supervisor s with
  | Serving | Rejecting _ => only_cancelled s
  | Draining _ (Some _) => only_cancelled s ∧ sv_handlers s ≠ ∅
  | Draining _ None => (∀ t h, sv_handlers s !! t = Some h → hd_aborted h = true) ∧ sv_handlers s ≠ ∅
  | Closed _ => sv_handlers s = ∅
  end.

Lemma begin_drain_ok now error s : only_cancelled s → drain_ok (begin_drain config now error s).
Proof.
  intros H. unfold begin_drain, drain_ok. destruct (decide _) as [|Hne]; [done|]. destruct (_ =? 0)%Z; simpl; [|done]. split.
  - intros t h Hh. rewrite lookup_fmap in Hh. by apply fmap_Some in Hh as (h0 & _ & ->).
  - intros He. by apply fmap_empty_iff in He.
Qed.

(** A task moved on: its mark and its request are the same. *)
Lemma drain_ok_handler s t h h' :
  drain_ok s → sv_handlers s !! t = Some h → hd_aborted h' = hd_aborted h → hd_context h' = hd_context h →
  drain_ok (with_handlers s (<[t := h']> (sv_handlers s))).
Proof.
  intros H Hh Ha Hx.
  assert (Hc : only_cancelled s → only_cancelled (with_handlers s (<[t := h']> (sv_handlers s)))).
  { intros Ho t' h0 Hh0 Ha0. simpl in *. apply lookup_insert_Some in Hh0 as [[<- <-]|[_ Hh0]]; [|by apply (Ho t' h0)].
    unfold hd_id. rewrite Hx. apply (Ho t h Hh). congruence. }
  unfold drain_ok in *. simpl. destruct (sv_supervisor s) as [|f|error [d|]|error]; auto.
  - destruct H as [Ho Hne]. split; [by apply Hc|]. apply insert_non_empty.
  - destruct H as [Ho Hne]. split; [|apply insert_non_empty]. intros t' h0 [[<- <-]|[_ Hh0]]%lookup_insert_Some; [|by apply (Ho t' h0)].
    rewrite Ha. by apply (Ho t h).
  - rewrite H, lookup_empty in Hh. done.
Qed.

Lemma drain_ok_step l s s' : server_inv (Req:=Req) config s → drain_ok s → step l s = Some s' → drain_ok s'.
Proof.
  intros Hinv H. destruct l as [t now out|t|t|t|t|now event|now| |now|now|now| |r]; simpl.
  - unfold run_handler. destruct (sv_handlers s !! t) as [h|] eqn:Hh; [|done]. cbn [mbind option_bind].
    destruct (hd_phase h); try done. destruct (possible h now out); [|done]. intros [= <-].
    exact (drain_ok_handler s t h (set_handler_phase (Responding _) h) H Hh eq_refl eq_refl).
  - unfold respond_handler. destruct (sv_handlers s !! t) as [h|] eqn:Hh; [|done]. cbn [mbind option_bind].
    destruct (hd_phase h); try done. pose proof (drain_ok_handler s t h (set_handler_phase Returned h) H Hh eq_refl eq_refl) as H1.
    destruct (sv_writer s); [by intros [= <-]|]. destruct (has_room config s); [|done]. intros [= <-]. exact H1.
  - unfold crash_handler. destruct (sv_handlers s !! t) as [h|] eqn:Hh; [|done]. cbn [mbind option_bind].
    destruct (is_finished h); [done|]. intros [= <-]. by eapply drain_ok_handler.
  - unfold abort_handler. destruct (sv_handlers s !! t) as [h|] eqn:Hh; [|done]. cbn [mbind option_bind].
    destruct (_ || _); [done|]. intros [= <-]. by eapply drain_ok_handler.
  - unfold join_handler. destruct (sv_handlers s !! t) as [h|] eqn:Hh; [|done]. cbn [mbind option_bind].
    destruct (negb _); [done|]. unfold drain_ok in H.
    assert (Hc : only_cancelled s → ∀ t' h', delete t (sv_handlers s) !! t' = Some h' → hd_aborted h' = true → FCancel (hd_id h') ∈ sv_received s).
    { intros Ho t' h' [_ Hh']%lookup_delete_Some. by apply (Ho t'). }
    destruct (sv_supervisor s) as [|f|error g|error] eqn:Hsup; try done; intros [= <-]; unfold drain_ok; simpl.
    + rewrite Hsup. exact (Hc H).
    + destruct (decide _) as [He|Hne]; simpl; [done|]. rewrite Hsup. destruct g as [d|].
      * split; [exact (Hc (proj1 H))|done].
      * split; [|done]. intros t' h' [_ Hh']%lookup_delete_Some. by apply (proj1 H t').
  - destruct (sv_supervisor s) eqn:Hsup; try done. destruct (quiet s); [|done]. intros [= <-]. unfold drain_ok in H. rewrite Hsup in H.
    destruct event as [[[id t tr body|id]| |e]|]; [| |by apply begin_drain_ok..].
    + simpl. destruct (rejection _ _ _ _); unfold drain_ok; simpl; rewrite ?Hsup; intros t' h Hh Ha; simpl in *.
      * apply elem_of_app. left. by apply (H t' h).
      * apply elem_of_app. left. apply lookup_insert_Some in Hh as [[<- <-]|[_ Hh]]; [done|by apply (H t' h)].
    + simpl. destruct (sv_aborts s !! id) as [m|] eqn:Hm; unfold drain_ok; simpl; rewrite ?Hsup; intros t' h Hh Ha; simpl in *.
      * rewrite lookup_alter in Hh. case_decide as Hd; [|apply elem_of_app; left; by apply (H t' h)]. subst t'.
        apply fmap_Some in Hh as (h0 & Hh & ->). apply elem_of_app. right. apply list_elem_of_singleton.
        f_equal. exact (proj2 (iv_aborts _ _ Hinv id m Hm) h0 Hh).
      * apply elem_of_app. left. by apply (H t' h).
  - destruct (sv_supervisor s) as [|f| |] eqn:Hsup; try done. unfold drain_ok in H. rewrite Hsup in H.
    unfold send_rejection. destruct (sv_writer s); [intros [= <-]; by apply begin_drain_ok|].
    destruct (has_room config s); [|done]. by intros [= <-].
  - intros [= <-]. exact H.
  - destruct (sv_supervisor s) eqn:Hsup; try done. unfold drain_ok in H. rewrite Hsup in H.
    destruct (sv_shutdown s); [|done]. intros [= <-]. by apply begin_drain_ok.
  - destruct (sv_supervisor s) eqn:Hsup; try done. unfold drain_ok in H. rewrite Hsup in H.
    destruct (sv_writer s); [|done]. intros [= <-]. by apply begin_drain_ok.
  - unfold end_grace, drain_ok in *. destruct (sv_supervisor s) as [| |error [d|]|] eqn:Hsup; try done. destruct (d <=? now)%Z; [|done]. intros [= <-].
    simpl. split.
    + intros t h Hh. rewrite lookup_fmap in Hh. by apply fmap_Some in Hh as (h0 & _ & ->).
    + intros He%fmap_empty_iff. by apply H.
  - destruct (_ && _); [|done]. intros [= <-]. exact H.
  - destruct (bool_decide _); [|done]. intros [= <-]. exact H.
Qed.

Lemma run_drain_ok steps : drain_ok (run steps accept_connection).
Proof.
  apply (run_ind (λ s, server_inv (Req:=Req) config s ∧ drain_ok s)).
  - split; [apply accept_inv|]. unfold drain_ok, only_cancelled. simpl. intros t h. by rewrite lookup_empty.
  - intros l s s' [H Hd] Hl. split; [by eapply server_step_inv|by eapply drain_ok_step].
Qed.

(** What the server's own tasks do at the instant [now] once it drains. *)
Definition own_server_step (now : Z) (l : ServerStep (Resp:=Resp)) : Prop :=
  match l with
  | RunHandler _ _ _ | RespondHandler _ | CrashHandler _ | AbortHandler _ | JoinHandler _ | TakeResponse => True
  | EndGrace t => t = now
  | _ => False
  end.

(** Every way of going on closes the connection with the given result, and none
    stops before. *)
Inductive closes (now : Z) (error : option ConnectionError) : Server → Prop :=
| closes_intro s :
    sv_supervisor s = Closed error ∨ (∃ l s', own_server_step now l ∧ step l s = Some s') →
    (∀ l s', own_server_step now l → step l s = Some s' → closes now error s') → closes now error s.

Definition handler_load (h : Handler) : nat := match hd_phase h with Handling => 5 | Responding _ => 4 | _ => 1 end.
Definition handlers_load (m : gmap nat Handler) : nat := map_fold (λ _ h n, handler_load h + n) 0 m.
Definition server_load s : nat :=
  handlers_load (sv_handlers s) + (length (sv_sent s) - sv_taken s)
  + match sv_supervisor s with Draining _ (Some _) => 1 | _ => 0 end.

Lemma load_delete t h m : m !! t = Some h → handlers_load m = handler_load h + handlers_load (delete t m).
Proof.
  intros Hh. unfold handlers_load. rewrite (map_fold_delete_L (λ _ h n, handler_load h + n) 0 t h m); [done|intros; lia|done].
Qed.

Lemma load_insert t h h' m :
  m !! t = Some h → handlers_load (<[t := h']> m) + handler_load h = handlers_load m + handler_load h'.
Proof.
  intros Hh. rewrite (load_delete t h m Hh), (load_delete t h' (<[t := h']> m)) by apply lookup_insert_eq.
  rewrite delete_insert_eq. lia.
Qed.

Lemma load_abort m : handlers_load (abort <$> m) = handlers_load m.
Proof. unfold handlers_load. by rewrite map_fold_fmap. Qed.

Lemma handler_load_pos h : 1 ≤ handler_load h.
Proof. unfold handler_load. destruct (hd_phase h); lia. Qed.

(** While it drains, every step of its own brings the end nearer and keeps the result. *)
Lemma drain_step_load now error g l s s' :
  sv_supervisor s = Draining error g → own_server_step now l → step l s = Some s' →
  server_load s' < server_load s ∧ (sv_supervisor s' = Closed error ∨ ∃ g', sv_supervisor s' = Draining error g' ∧ (g' = g ∨ g' = None)).
Proof.
  intros Hsup Ho. destruct l as [t t0 out|t|t|t|t|t0 event|t0| |t0|t0|t0| |r]; try done; simpl.
  - unfold run_handler. destruct (sv_handlers s !! t) as [h|] eqn:Hh; [|done]. cbn [mbind option_bind].
    destruct (hd_phase h) eqn:Hp; try done. destruct (possible h t0 out); [|done]. intros [= <-]. set (h' := set_handler_phase _ h).
    split; [|right; exists g; auto]. pose proof (load_insert t h h' _ Hh) as Hl. unfold server_load. simpl. rewrite Hsup.
    unfold handler_load in Hl. rewrite Hp in Hl. simpl in Hl. lia.
  - unfold respond_handler. destruct (sv_handlers s !! t) as [h|] eqn:Hh; [|done]. cbn [mbind option_bind].
    destruct (hd_phase h) eqn:Hp; try done. pose proof (load_insert t h (set_handler_phase Returned h) _ Hh) as Hl.
    unfold handler_load in Hl. rewrite Hp in Hl. simpl in Hl.
    destruct (sv_writer s); [|destruct (has_room config s); [|done]]; intros [= <-]; (split; [|right; exists g; auto]);
      unfold server_load; simpl; rewrite Hsup, ?length_app; simpl; lia.
  - unfold crash_handler. destruct (sv_handlers s !! t) as [h|] eqn:Hh; [|done]. cbn [mbind option_bind].
    destruct (is_finished h) eqn:Hf; [done|]. intros [= <-]. split; [|right; exists g; auto].
    pose proof (load_insert t h (set_handler_phase Crashed h) _ Hh) as Hl. unfold handler_load in Hl. unfold is_finished in Hf.
    unfold server_load. simpl. rewrite Hsup. destruct (hd_phase h); try done; simpl in Hl; lia.
  - unfold abort_handler. destruct (sv_handlers s !! t) as [h|] eqn:Hh; [|done]. cbn [mbind option_bind].
    destruct (is_finished h) eqn:Hf; [done|]. simpl. destruct (negb _); [done|]. intros [= <-]. split; [|right; exists g; auto].
    pose proof (load_insert t h (set_handler_phase Aborted h) _ Hh) as Hl. unfold handler_load in Hl. unfold is_finished in Hf.
    unfold server_load. simpl. rewrite Hsup. destruct (hd_phase h); try done; simpl in Hl; lia.
  - unfold join_handler. destruct (sv_handlers s !! t) as [h|] eqn:Hh; [|done]. cbn [mbind option_bind].
    destruct (negb _); [done|]. rewrite Hsup. intros [= <-]. pose proof (load_delete t h _ Hh) as Hl. pose proof (handler_load_pos h).
    destruct (decide _); (split; [|simpl; auto]); unfold server_load; simpl; rewrite ?Hsup; [destruct g; lia|lia|]. right; exists g; auto.
  - unfold end_grace. rewrite Hsup. destruct g as [d|]; [|done]. destruct (d <=? t0)%Z; [|done]. intros [= <-].
    split; [|right; exists None; auto]. unfold server_load. simpl. rewrite Hsup, load_abort. lia.
  - destruct (_ && _) eqn:Hg; [|done]. intros [= <-]. apply andb_true_iff in Hg as [_ Ht%Nat.ltb_lt].
    split; [|right; exists g; auto]. unfold server_load. simpl. rewrite Hsup. lia.
Qed.

Lemma drain_progress now error g s :
  drain_ok s → sv_supervisor s = Draining error g → (∀ d, g = Some d → (d ≤ now)%Z) → ∃ l s', own_server_step now l ∧ step l s = Some s'.
Proof.
  intros H Hsup Hg. unfold drain_ok in H. rewrite Hsup in H.
  assert (Hne : sv_handlers s ≠ ∅) by (destruct g; apply H). apply map_choose in Hne as (t & h & Hh).
  destruct (is_finished h) eqn:Hf.
  - exists (JoinHandler t). simpl. unfold join_handler. rewrite Hh. cbn [mbind option_bind]. rewrite Hf, Hsup. eexists. split; [done|reflexivity].
  - destruct (hd_aborted h) eqn:Ha.
    + exists (AbortHandler t). simpl. unfold abort_handler. rewrite Hh. cbn [mbind option_bind]. rewrite Hf, Ha. eexists. split; [done|reflexivity].
    + destruct g as [d|]; [|rewrite (proj1 H t h Hh) in Ha; done]. exists (EndGrace now). simpl. unfold end_grace.
      rewrite Hsup, (proj2 (Z.leb_le _ _)) by by apply Hg. eexists. split; [done|reflexivity].
Qed.

Lemma drain_closes now error g s :
  server_inv (Req:=Req) config s → drain_ok s → sv_supervisor s = Draining error g → (∀ d, g = Some d → (d ≤ now)%Z) → closes now error s.
Proof.
  remember (server_load s) as n eqn:Hn. revert s g Hn. induction n as [n IH] using lt_wf_ind. intros s g -> Hinv Hok Hsup Hg.
  constructor; [right; by eapply drain_progress|]. intros l s' Ho Hl.
  destruct (drain_step_load now error g l s s' Hsup Ho Hl) as [Hlt Hs'].
  assert (Hinv' : server_inv (Req:=Req) config s') by exact (server_step_inv config peer_addr l s s' Hinv Hl).
  assert (Hok' : drain_ok s') by exact (drain_ok_step l s s' Hinv Hok Hl).
  destruct Hs' as [Hcl|(g' & Hsup' & Hg')].
  - (* closed: no step of its own is left but the writer's *)
    clear IH Hlt Hl Hok Hinv Hsup. revert Hok' Hinv'. remember (server_load s') as k eqn:Hk. revert s' Hk Hcl.
    induction k as [k IHk] using lt_wf_ind. intros s' -> Hcl Hok' Hinv'. constructor; [by left|]. intros l' s2 Ho2 Hl2.
    unfold drain_ok in Hok'. rewrite Hcl in Hok'.
    assert (Hstep : sv_supervisor s2 = Closed error ∧ server_load s2 < server_load s').
    { destruct l' as [t t0 out|t|t|t|t|t0 event|t0| |t0|t0|t0| |r]; try done; simpl in Hl2;
        unfold run_handler, respond_handler, crash_handler, abort_handler, join_handler, end_grace in Hl2;
        rewrite ?Hok', ?lookup_empty, ?Hcl in Hl2; try done.
      destruct (_ && _) eqn:Hb; [|done]. injection Hl2 as <-. apply andb_true_iff in Hb as [_ Ht%Nat.ltb_lt].
      split; [done|]. unfold server_load. simpl. rewrite Hcl. lia. }
    destruct Hstep as [Hc2 Hlt2]. eapply (IHk _ Hlt2); [done|done|by eapply drain_ok_step; [exact Hinv'|unfold drain_ok; by rewrite Hcl|exact Hl2]|].
    by eapply server_step_inv.
  - eapply (IH _ Hlt s' g'); [done..|]. intros d ->. destruct Hg' as [<-|?]; [by apply Hg|done].
Qed.


(** An answer of the service fits its frame: what does not is replaced by a status. *)
Lemma answers_fit id r : ∃ f, handler_frame (Req:=Req) config id (Answered r) = f ∧
  match f with FResponse _ None body => (Z.of_nat (length body) ≤ max_response_bytes config)%Z | FResponse _ (Some _) _ => True end.
Proof.
  eexists. split; [reflexivity|]. unfold handler_frame. destruct (encode r) as [body|e]; [|done].
  destruct (Z.leb_spec (Z.of_nat (length body)) (max_response_bytes config)); done.
Qed.
End connection.

(** ** Connections *)

Module RpcServerExample.
#[local] Instance bytes_codec : Codec Octets Octets := {| encode b := Ok b; decode b := Ok b |}.
Abbreviation Step := (ServerStep (Resp := Octets)).
Abbreviation run := (@server_run Octets Octets bytes_codec).

Definition config : ServerConfig :=
  mkServerConfig 1 1 (5 * NANOS_PER_SECOND) NANOS_PER_SECOND 2 2 (mkFrameConfig 64 16 16 2 8).
Definition trace : Octets := replicate 16 x00.
Definition request (id : Z) (b : Octets) : Step := ServeEvent 0 (Some (EvFrame (FRequest id 1000 trace b))).

(** One request is answered, another is refused meanwhile. *)
Definition served : list Step :=
  [request 1 [x61]; request 2 [x62]; SendRejection 0; RunHandler 0 5 (Answered [x7a]); RespondHandler 0; JoinHandler 0].
(** The peer leaves while a request is handled, and its handler does not finish. *)
Definition left : list Step := [request 1 [x61]; ServeEvent 10 (Some EvClosed)].

(** A cancelled request leaves the table at once, while its handler may go on, so
    that more requests than the limit are handled at a time. *)
Definition overtaken : list Step := [request 1 [x61]; ServeEvent 0 (Some (EvFrame (FCancel 1))); request 2 [x62]].

Lemma cancelled_handlers_uncounted :
  let s := run config None overtaken accept_connection in
  (sg_max_in_flight config < Z.of_nat (size (filter (λ kv, is_finished kv.2 = false) (sv_handlers s))))%Z.
Proof. by vm_compute. Qed.

(** A handler that was cancelled but came to its end all the same releases the entry
    of a new request under its id, which can then be neither cancelled nor counted. *)
Definition reused : list Step :=
  [request 1 [x61]; ServeEvent 0 (Some (EvFrame (FCancel 1))); request 1 [x62]; RunHandler 0 5 (Answered [x7a]); RespondHandler 0; JoinHandler 0].

Lemma reused_id_untracked :
  let s := run config None reused accept_connection in sv_aborts s = ∅ ∧ hd_phase <$> sv_handlers s !! 1 = Some Handling.
Proof. by vm_compute. Qed.

(** The service's error is sent whatever its length, and then ends the connection. *)
Definition long_status : Status := mkStatus CodeInternal (replicate 100 x61).
Definition failing : list Step := [request 1 [x61]; RunHandler 0 5 (FailedWith long_status); RespondHandler 0].

Lemma long_status_ends_connection :
  let s := run config None failing accept_connection in
  (write_frames (sg_frame config) (λ _, true) 0 [] 0 (sv_sent s)).2 = Err (frame_too_large 110 64).
Proof. by vm_compute. Qed.
End RpcServerExample.

Lemma requests_answered_once_witness :
  let s := RpcServerExample.run RpcServerExample.config None RpcServerExample.served accept_connection in
  length (sv_sent s) = 2 ∧ NoDup (response_ids (sv_sent s)).
Proof.
  intros s. split; [by vm_compute|].
  apply (@requests_answered_once _ _ RpcServerExample.bytes_codec RpcServerExample.config None RpcServerExample.served).
  apply (bool_decide_unpack _). by vm_compute.
Defined.

Lemma handlers_within_limit_witness :
  let s := RpcServerExample.run RpcServerExample.config None RpcServerExample.overtaken accept_connection in
  (Z.of_nat (size (sv_aborts s)) ≤ 1)%Z ∧ sv_aborts s !! 2%Z = Some 1.
Proof.
  intros s. destruct (@handlers_within_limit _ _ RpcServerExample.bytes_codec RpcServerExample.config None RpcServerExample.overtaken)
    as [Hs Ht]. split; [exact Hs|].
  assert (Hh : ∃ h, sv_handlers s !! 1 = Some h ∧ running_task h = true ∧ hd_id h = 2%Z) by (eexists; vm_compute; split_and!; reflexivity).
  destruct Hh as (h & Hh & Hr & <-). apply (proj1 (Ht ltac:(apply (bool_decide_unpack _); by vm_compute) I) 1 h Hh Hr).
Defined.

