(* ===== verification/RpcSystem.v ===== *)
(** A client and a server of the RPC crate over one connection: the client of
    RpcClient.v, the server of RpcServer.v, and two streams of frames between them,
    which by [frames_round_trip] deliver, in order, what the writers have taken.

    Main result: a call that returns an answer returns what the service answered to
    that very request, which the service has then handled exactly once, however
    calls, cancellations, deadlines, handlers, shutdown and failures interleave. *)

From S2P Require Import Prelude Octets Frames Rpc RpcClient RpcServer.
From Stdlib Require Import ZArith Lia Strings.Byte.

Section system.
Context {Req Resp : Type} `{client_codec : !Codec Req Resp, server_codec : !Codec Resp Req}.
Context (client_config : ClientConfig) (delay_limit : Z) (server_config : ServerConfig) (peer_addr : option string).
#[local] Abbreviation client_step := (client_step client_config delay_limit).
#[local] Abbreviation client_run := (client_run client_config delay_limit).
#[local] Abbreviation server_step := (server_step server_config peer_addr).
#[local] Abbreviation server_run := (server_run server_config peer_addr).

(** How many frames of either writer the other end's reader has delivered. *)
Record RpcSystem := mkRpcSystem {
  sy_client : RpcClient Req Resp;
  sy_server : RpcServer Resp;
  sy_requests : nat;
  sy_responses : nat;
}.

Definition connect : RpcSystem := mkRpcSystem spawn_client accept_connection 0 0.

(** A frame that the writer writes and the reader accepts. *)
Definition transmittable {F} `{!Frame F} (f : F) : bool :=
  (Z.of_nat (payload_len f) <=? fc_max_frame_bytes (cf_frame client_config))%Z
  && (Z.of_nat (payload_len f) <=? fc_max_frame_bytes (sg_frame server_config))%Z.

(** Either end moves by itself, where its reader may also report the end or a
    failure of the stream, or takes the next frame of the other. *)
Inductive SystemStep :=
| ClientDoes (l : ClientStep (Req:=Req))
| ServerDoes (l : ServerStep (Resp:=Resp))
| DeliverRequest (now : Z)
| DeliverResponse.

Definition is_frame {F} (e : option (ReadEvent F)) : bool := match e with Some (EvFrame _) => true | _ => false end.

Definition system_step (l : SystemStep) (y : RpcSystem) : option RpcSystem :=
  match l with
  | ClientDoes l =>
      if match l with Receive e => is_frame e | _ => false end then None
      else (λ c, mkRpcSystem c (sy_server y) (sy_requests y) (sy_responses y)) <$> client_step l (sy_client y)
  | ServerDoes l =>
      if match l with ServeEvent _ e => is_frame e | _ => false end then None
      else (λ s, mkRpcSystem (sy_client y) s (sy_requests y) (sy_responses y)) <$> server_step l (sy_server y)
  | DeliverRequest now =>
      match rc_sent (sy_client y) !! sy_requests y with
      | Some f =>
          if (sy_requests y <? rc_taken (sy_client y))%nat && transmittable f then
            (λ s, mkRpcSystem (sy_client y) s (S (sy_requests y)) (sy_responses y)) <$> server_step (ServeEvent now (Some (EvFrame f))) (sy_server y)
          else None
      | None => None
      end
  | DeliverResponse =>
      match sv_sent (sy_server y) !! sy_responses y with
      | Some f =>
          if (sy_responses y <? sv_taken (sy_server y))%nat && transmittable f then
            (λ c, mkRpcSystem c (sy_server y) (sy_requests y) (S (sy_responses y))) <$> client_step (Receive (Some (EvFrame f))) (sy_client y)
          else None
      | None => None
      end
  end.

Definition system_run (steps : list SystemStep) (y : RpcSystem) : RpcSystem := foldl (λ y l, default y (system_step l y)) y steps.

(** *** What is sent stays sent *)

Lemma client_sent_grows l (c c' : RpcClient Req Resp) : client_step l c = Some c' → rc_sent c `prefix_of` rc_sent c'.
Proof.
  assert (Hfail : ∀ e ids (c : RpcClient Req Resp), rc_sent (fail_calls e ids c) = rc_sent c).
  { intros e ids. unfold fail_calls. induction ids as [|i ids IH]; intros c0; [done|]. simpl. by rewrite IH. }
  assert (Hfinish : ∀ e (c : RpcClient Req Resp), rc_sent (finish e c) = rc_sent c) by (intros [e|] c0; unfold finish; simpl; by rewrite ?Hfail).
  assert (Htop : ∀ c : RpcClient Req Resp, rc_sent (loop_top c) = rc_sent c) by (intros c0; unfold loop_top; destruct (_ && _); [apply Hfinish|done]).
  assert (Hp : ∀ x, x = rc_sent c → rc_sent c `prefix_of` x) by by intros x ->.
  destruct l as [context request|id|id|id|id| |now| |event|key now| | | |r]; simpl; unfold select; intros Hs.
  11:{ destruct (rc_dispatcher c); try done. destruct (rc_writer c); [|done]. injection Hs as <-. apply Hp, Hfinish. }
  11:{ destruct (rc_dispatcher c); try done. unfold send_frame in Hs. destruct (rc_writer c); [injection Hs as <-; apply Hp, Hfinish|].
       destruct (_ <? _)%Z; [|done]. injection Hs as <-. rewrite Htop. simpl. by apply prefix_app_r. }
  1-6,11-12: apply Hp; revert Hs; unfold start_call, enqueue_call, poll_call, drop_call, send_cancellation, drop_clients, reject_if;
    intros Hs; repeat case_match; simplify_option_eq; repeat case_match; simplify_option_eq; done.
  all: apply Hp; destruct (rc_dispatcher c); try done; revert Hs; unfold pull_request, pull_cancellation, receive, expire; intros Hs;
    repeat case_match; simplify_option_eq; repeat case_match; simplify_option_eq; rewrite ?Htop, ?Hfinish, ?Hfail; done.
Qed.

Lemma server_sent_grows l (s s' : RpcServer Resp) : server_step l s = Some s' → sv_sent s `prefix_of` sv_sent s'.
Proof.
  assert (Hp : ∀ x, x = sv_sent s → sv_sent s `prefix_of` x) by by intros x ->.
  assert (Hdrain : ∀ now e (s : RpcServer Resp), sv_sent (begin_drain server_config now e s) = sv_sent s) by (intros; apply begin_drain_same).
  destruct l as [t now out|t|t|t|t|now event|now| |now|now|now| |r]; simpl;
    unfold run_handler, respond_handler, crash_handler, abort_handler, join_handler, send_rejection, end_grace, abort_all; intros Hs.
  2,7: repeat case_match; simplify_option_eq; repeat case_match; simplify_option_eq; try (apply Hp; done); try (apply Hp, Hdrain); by apply prefix_app_r.
  5:{ destruct (sv_supervisor s); try done. destruct (quiet s); [|done]. injection Hs as <-. apply Hp.
      destruct event as [[[id t tr body|id]| |e]|]; simpl; [by destruct (rejection _ _ _ _)|by destruct (_ !! id)|by rewrite Hdrain..]. }
  all: apply Hp; repeat case_match; simplify_option_eq; repeat case_match; simplify_option_eq; rewrite ?Hdrain; done.
Qed.

(** The server receives only what it is given. *)
Lemma server_receives l (s s' : RpcServer Resp) : server_step l s = Some s' →
  sv_received s' = sv_received s ++ match l with ServeEvent _ (Some (EvFrame f)) => [f] | _ => [] end.
Proof.
  assert (Hdrain : ∀ now e (s : RpcServer Resp), sv_received (begin_drain server_config now e s) = sv_received s) by (intros; apply begin_drain_same).
  destruct l as [t now out|t|t|t|t|now event|now| |now|now|now| |r]; simpl;
    unfold run_handler, respond_handler, crash_handler, abort_handler, join_handler, send_rejection, end_grace, abort_all; intros Hs.
  6:{ destruct (sv_supervisor s); try done. destruct (quiet s); [|done]. injection Hs as <-.
      destruct event as [[[id t tr body|id]| |e]|]; simpl; [by destruct (rejection _ _ _ _)|by destruct (_ !! id)|by rewrite Hdrain, app_nil_r..]. }
  all: rewrite app_nil_r; repeat case_match; simplify_option_eq; repeat case_match; simplify_option_eq; rewrite ?Hdrain; done.
Qed.

(** *** Both ends *)

(** Each end is where steps of its own have taken it; the server has received the
    requests delivered so far, the client responses the server has sent. *)
Definition system_inv (n : nat) (y : RpcSystem) : Prop :=
  sv_received (sy_server y) = take (sy_requests y) (rc_sent (sy_client y))
  ∧ sy_requests y ≤ length (rc_sent (sy_client y))
  ∧ (∃ steps, sy_client y = client_run steps spawn_client ∧ length steps ≤ n
       ∧ ∀ f, Receive (Some (EvFrame f)) ∈ steps → f ∈ sv_sent (sy_server y))
  ∧ ∃ steps, sy_server y = server_run steps accept_connection.

Lemma client_run_snoc steps l (c' : RpcClient Req Resp) : client_step l (client_run steps spawn_client) = Some c' → c' = client_run (steps ++ [l]) spawn_client.
Proof. intros Hl. rewrite RpcClient.client_steps_snoc. by rewrite Hl. Qed.
Lemma server_run_snoc steps l (s' : RpcServer Resp) : server_step l (server_run steps accept_connection) = Some s' → s' = server_run (steps ++ [l]) accept_connection.
Proof. intros Hl. rewrite RpcServer.server_steps_snoc. by rewrite Hl. Qed.

Lemma take_prefix {A} n (l k : list A) : l `prefix_of` k → n ≤ length l → take n k = take n l.
Proof. intros [m ->] Hn. by apply take_app_le. Qed.

Lemma system_client n y l c' :
  system_inv n y → client_step l (sy_client y) = Some c' →
  (∀ f, l = Receive (Some (EvFrame f)) → f ∈ sv_sent (sy_server y)) →
  ∀ m, system_inv (S n) (mkRpcSystem c' (sy_server y) (sy_requests y) m).
Proof.
  intros (Hr & Hlen & (cs & Hc & Hn & Hf) & Hs) Hl Hframe m. pose proof (client_sent_grows _ _ _ Hl) as Hp. split_and!; simpl.
  - by rewrite Hr, (take_prefix _ _ _ Hp Hlen).
  - etrans; [exact Hlen|by apply prefix_length].
  - exists (cs ++ [l]). rewrite Hc in Hl. split; [by apply client_run_snoc|]. split; [rewrite length_app; simpl; lia|].
    intros f [Hin|Hin%list_elem_of_singleton]%elem_of_app; [by apply Hf|by apply Hframe].
  - exact Hs.
Qed.

Lemma system_server n y l s' k :
  system_inv n y → server_step l (sy_server y) = Some s' → sv_received s' = take k (rc_sent (sy_client y)) →
  k ≤ length (rc_sent (sy_client y)) → system_inv (S n) (mkRpcSystem (sy_client y) s' k (sy_responses y)).
Proof.
  intros (Hr & Hlen & (cs & Hc & Hn & Hf) & (ss & Hs)) Hl Hk Hkl. pose proof (server_sent_grows _ _ _ Hl) as Hp. split_and!; simpl; [done..| |].
  - exists cs. split; [done|]. split; [lia|]. intros f Hin. eapply elem_of_prefix; [by apply Hf|exact Hp].
  - exists (ss ++ [l]). rewrite Hs in Hl. by apply server_run_snoc.
Qed.

Lemma system_step_inv n l y y' : system_inv n y → system_step l y = Some y' → system_inv (S n) y'.
Proof.
  intros H. pose proof H as (Hr & Hlen & _). destruct l as [l|l|now|]; unfold system_step.
  - destruct (match l with Receive e => is_frame e | _ => false end) eqn:Hfr; [done|].
    destruct (client_step l _) as [c'|] eqn:Hl; [|done]. intros [= <-]. apply (system_client n y l c' H Hl). intros f ->. done.
  - destruct (match l with ServeEvent _ e => is_frame e | _ => false end) eqn:Hfr; [done|].
    destruct (server_step l _) as [s'|] eqn:Hl; [|done]. intros [= <-]. apply (system_server n y l s' _ H Hl); [|done].
    rewrite (server_receives _ _ _ Hl), Hr. destruct l as [| | | | |? [[]|]| | | | | | |]; try by rewrite app_nil_r. done.
  - destruct (rc_sent (sy_client y) !! sy_requests y) as [f|] eqn:Hf; [|done]. destruct (_ && _); [|done].
    destruct (server_step (ServeEvent now (Some (EvFrame f))) (sy_server y)) as [s'|] eqn:Hl; [|done]. intros [= <-].
    apply (system_server n y _ s' _ H Hl); [|apply lookup_lt_Some in Hf; lia].
    rewrite (server_receives _ _ _ Hl), Hr. by rewrite (take_S_r _ _ _ Hf).
  - destruct (sv_sent (sy_server y) !! sy_responses y) as [f|] eqn:Hf; [|done]. destruct (_ && _); [|done].
    destruct (client_step (Receive (Some (EvFrame f))) (sy_client y)) as [c'|] eqn:Hl; [|done]. intros [= <-]. apply (system_client n y _ c' H Hl).
    intros g [= <-]. by eapply list_elem_of_lookup_2.
Qed.

Lemma system_run_inv steps : system_inv (length steps) (system_run steps connect).
Proof.
  induction steps as [|l steps IH] using rev_ind.
  - split_and!; simpl; try done; [by exists []; split_and!; try done; intros f Hf%not_elem_of_nil|by exists []].
  - unfold system_run. rewrite foldl_app, length_app, Nat.add_comm. simpl. fold (system_run steps connect).
    destruct (system_step l (system_run steps connect)) as [y'|] eqn:Hl; simpl; [by eapply system_step_inv|].
    destruct IH as (? & ? & (cs & ? & ? & ?) & ?). split_and!; try done. exists cs. split_and!; try done. lia.
Qed.

(** *** Calls and services *)

(** What either end writes the other reads back: the documented behaviour of the
    codec's library. *)
Hypothesis request_codec : ∀ (q : Req) b, encode (Out := Req) (In := Resp) q = Ok b → decode (Out := Resp) (In := Req) b = Ok q.
Hypothesis response_codec : ∀ (r : Resp) b, encode (Out := Resp) (In := Req) r = Ok b → decode (Out := Req) (In := Resp) b = Ok r.

(** What the server did with the request of a call. *)
Definition was_handled (s : RpcServer Resp) (id : Z) (q : Req) (out : Outcome Resp) : Prop :=
  ∃ body, (id, body, out) ∈ sv_handled s ∧ decode (Out := Resp) (In := Req) body = Ok q.

(** A request the server received is that of the call with its id. *)
Lemma received_request n y id t tr body :
  system_inv n y → (Z.of_nat n + 1 < u64_max)%Z → FRequest id t tr body ∈ sv_received (sy_server y) →
  ∃ ca, rc_calls (sy_client y) !! id = Some ca ∧ body = ca_body ca ∧ decode (Out := Resp) (In := Req) body = Ok (ca_request ca).
Proof.
  intros (Hr & _ & (cs & Hc & Hn & _) & _) Hs Hin. rewrite Hr in Hin. apply elem_of_take in Hin as (i & Hin & _).
  assert (Hshort : short cs) by (unfold short; lia). pose proof (@RpcClient.client_run_inv Req Resp client_codec client_config delay_limit cs Hshort) as [H _].
  rewrite <- Hc in H.
  destruct (in_frame _ _ _ H id t tr body) as (_ & ca & Hca & _ & ->).
  { unfold frame_log. apply elem_of_app. left. by eapply list_elem_of_lookup_2. }
  exists ca. split; [done|]. split; [done|]. apply request_codec. by apply (in_call _ _ _ H id ca Hca).
Qed.

Lemma received_unique n y : system_inv n y → (Z.of_nat n + 1 < u64_max)%Z → NoDup (requested (sv_received (sy_server y))).
Proof.
  intros (Hr & _ & (cs & Hc & Hn & _) & _) Hs. rewrite Hr.
  assert (Hshort : short cs) by (unfold short; lia). pose proof (@RpcClient.client_run_inv Req Resp client_codec client_config delay_limit cs Hshort) as [H _].
  rewrite <- Hc in H. pose proof (wire_ok_requests _ (in_log _ _ _ H)) as Hnd.
  unfold frame_log in Hnd. rewrite requested_app in Hnd. apply NoDup_app in Hnd as [Hnd _].
  rewrite <- (take_drop (sy_requests y) (rc_sent (sy_client y))), requested_app in Hnd. by apply NoDup_app in Hnd as [? _].
Qed.

(** C7: However calls, cancellations, deadlines, handlers, shutdowns and failures
    interleave, and whatever of the streams is lost at their ends: a call that
    returns an answer returns what the service answered to that very request; a
    call that returns a status has been refused by the server, or its handler came
    to that status; and the server handles no request twice. *)
Theorem answers_are_the_services steps id ca r :
  let y := system_run steps connect in
  (Z.of_nat (length steps) + 1 < u64_max)%Z → rc_calls (sy_client y) !! id = Some ca → ca_phase ca = Finished r →
  match r with
  | Ok answer => was_handled (sy_server y) id (ca_request ca) (Answered answer)
  | Err (Remote status) => ∃ st, status = status_from_wire (st_code st) (st_message st)
      ∧ (st ∈ refusals ∨ ∃ out, was_handled (sy_server y) id (ca_request ca) out
           ∧ handler_frame (Req := Req) server_config id out = status_frame id st)
  | _ => True
  end
  ∧ NoDup (handled_ids (sy_server y)).
Proof.
  intros y Hs Hca Hp. pose proof (system_run_inv steps) as H. fold y in H. pose proof (received_unique _ _ H Hs) as Hnd.
  pose proof H as (_ & _ & (cs & Hc & Hn & Hf) & (ss & Hss)).
  destruct (@requests_answered_once _ _ server_codec server_config peer_addr ss) as (_ & Hh & Hfr & _).
  { by rewrite <- Hss. }
  rewrite <- Hss in Hh, Hfr. split; [|exact Hh].
  assert (Hshort : short cs) by (unfold short; lia).
  pose proof (@call_returns_truth _ _ client_codec client_config delay_limit cs id ca r Hshort) as Ht. rewrite <- Hc in Ht. specialize (Ht Hca Hp).
  destruct r as [answer|[]]; try done.
  - destruct Ht as (body & Hin & Hd). destruct (Hfr _ (Hf _ Hin)) as (i & t & tr & b & Hreq & [(st & _ & He)|(out & Ho & He)]); [done|].
    assert (i = id) as -> by (pose proof (f_equal response_id He) as Hi; rewrite handler_frame_id in Hi; done).
    destruct (received_request _ _ _ _ _ _ H Hs Hreq) as (ca' & Hca' & -> & Hdec). assert (ca' = ca) as -> by congruence.
    exists (ca_body ca). split; [|done]. unfold handler_frame in He. destruct out as [e|a|st|]; try done.
    destruct (encode a) as [b|e] eqn:Henc; [|done]. destruct (_ <=? _)%Z; [|done]. injection He as ->.
    apply response_codec in Henc. assert (a = answer) as -> by congruence. exact Ho.
  - destruct Ht as (code & body & Hin & ->). destruct (Hfr _ (Hf _ Hin)) as (i & t & tr & b & Hreq & [(st & Hst & He)|(out & Ho & He)]).
    + injection He as -> -> ->. exists st. split; [done|]. by left.
    + assert (i = id) as -> by (pose proof (f_equal response_id He) as Hi; rewrite handler_frame_id in Hi; done).
      destruct (received_request _ _ _ _ _ _ H Hs Hreq) as (ca' & Hca' & -> & Hdec). assert (ca' = ca) as -> by congruence.
      exists (mkStatus code body). split; [done|]. right. exists out. split; [by exists (ca_body ca)|]. by rewrite <- He.
Qed.
End system.

(** ** A connection *)

Module RpcSystemExample.
#[local] Instance bytes_codec : Codec Octets Octets := {| encode b := Ok b; decode b := Ok b |}.
Abbreviation Step := (SystemStep (Req := Octets) (Resp := Octets)).

Lemma bytes_round_trip (q b : Octets) : encode (Out := Octets) (In := Octets) q = Ok b → decode (Out := Octets) (In := Octets) b = Ok q.
Proof. by intros [= ->]. Qed.

(** One call, and its way to the service and back. *)
Definition exchange : list Step :=
  [ClientDoes (StartCall RpcClientExample.context [x61]); ClientDoes (EnqueueCall 1); ClientDoes (PullRequest 0); ClientDoes FrameSent;
   ClientDoes WriterTakes; DeliverRequest 7; ServerDoes (RunHandler 0 9 (Answered [x7a])); ServerDoes (RespondHandler 0);
   ServerDoes (JoinHandler 0); ServerDoes TakeResponse; DeliverResponse; ClientDoes (PollCall 1)].
End RpcSystemExample.

Lemma answers_are_the_services_witness :
  @was_handled _ _ RpcSystemExample.bytes_codec
    (sy_server (@system_run _ _ RpcSystemExample.bytes_codec RpcSystemExample.bytes_codec RpcClientExample.config RpcClientExample.limit
                  RpcServerExample.config None RpcSystemExample.exchange connect)) 1 [x61] (Answered [x7a]).
Proof.
  pose (y := @system_run _ _ RpcSystemExample.bytes_codec RpcSystemExample.bytes_codec RpcClientExample.config RpcClientExample.limit
               RpcServerExample.config None RpcSystemExample.exchange connect).
  assert (Hc : ∃ ca, rc_calls (sy_client y) !! 1%Z = Some ca ∧ ca_phase ca = Finished (Ok [x7a]) ∧ ca_request ca = [x61])
    by (eexists; vm_compute; split_and!; reflexivity).
  destruct Hc as (ca & Hc & Hp & Hq). rewrite <- Hq.
  apply (@answers_are_the_services _ _ RpcSystemExample.bytes_codec RpcSystemExample.bytes_codec RpcClientExample.config RpcClientExample.limit
    RpcServerExample.config None RpcSystemExample.bytes_round_trip RpcSystemExample.bytes_round_trip RpcSystemExample.exchange 1 ca (Ok [x7a])); [|exact Hc|exact Hp].
  by vm_compute.
Defined.
